(* ===== verification/_CoqProject ===== *)
-Q . S2P
Prelude.v
PyStr.v
Json.v
JsonText.v
Env.v
IpAddr.v
Peer.v
InvocationCtx.v
AppState.v
Publish.v
RateLimit.v
Password.v
World.v
Sessions.v
Accounts.v
Authn.v
Security.v
TokenFile.v
AuthRoutes.v
AppPages.v
Params.v
AppRun.v
WarmPool.v
AgentTurn.v
ScheduleExec.v
Scheduler.v
Executions.v
Metadata.v
Registry.v
Installer.v
TodoStore.v
Supervisor.v
EnvLoader.v
Runner.v
Tabs.v
TabGroups.v
Domains.v
Conversations.v
Dispatch.v
Ingest.v
Watcher.v
Bridge.v
Orphans.v
Profiles.v
Transcripts.v
CodexRecords.v
OpencodeRecords.v
