(* ===== verification/Prelude.v ===== *)
(** * A verification of frago

    frago is a Python program that runs an owner's automation recipes and agent
    sessions, answers messages through an agent, drives a browser and, when asked,
    shows the recipes' pages to other people.  This library models three parts of
    it.  The first is the one in which a mistake lets
    a stranger in: the access gate in front of the server, the accounts and login
    sessions it consults, the list of pages the owner exposed, the pages
    themselves, and the one route on which a visitor makes the server start a
    process.  The second is the one in which a mistake loses work: the registry
    of recipes, their execution and its records, the scheduler and its
    notifications, the supervisor of daemons, the agent sessions and their pool,
    the installation of recipes, the to-do list and the knowledge domains.  The
    third is the one in which a mistake sends something to the wrong place or
    twice: messages on their way in, through the conversations' queues to an
    agent and back out, the browser tabs agents share and the bridge to the
    browser's extension, the endpoints written into the agent programs'
    configuration, and the transcripts of the agents' sessions as the workbench
    shows them.

    ** The program's parts and the files that model them

    A request meets the gate first.  The gate reads the peer's address (Peer.v,
    with the address parser in IpAddr.v), the session cookie (Sessions.v), the
    page list (Publish.v) and the server token (TokenFile.v), and decides on a
    zone (Security.v).  An admitted request reaches a route: signing in and out
    (AuthRoutes.v, on top of Authn.v, Accounts.v and Password.v), a recipe's page
    (AppPages.v, on top of AppState.v) or a run (AppRun.v, on top of Params.v and
    InvocationCtx.v).  RateLimit.v holds the counters several of them share.

    A recipe is found in the registry (Registry.v, which reads descriptions with
    Metadata.v), its parameters are checked (Params.v), its variables collected
    (EnvLoader.v), and it is run (Runner.v) as a process whose record is kept by
    Executions.v.  The scheduler (Scheduler.v) runs recipes and commands when they
    are due and tells the owner what came of them (ScheduleExec.v); a daemon
    recipe is kept up by Supervisor.v.  An agent program lives in a tmux session
    (AgentTurn.v), kept warm in a pool (WarmPool.v).  Recipes of others come in
    through Installer.v.

    A message comes in over a channel (Ingest.v), is given its conversation and
    put on the agent's queue (Conversations.v), dealt out to the worker of its
    conversation and fed to the session there (Dispatch.v).  The answers appear in
    the session's transcript; the forwarder (Watcher.v) delivers each new one, with
    the files registered for the conversation (Conversations.v again).  What agents
    know of a subject is kept in domains (Domains.v); what they see of the web, in
    tabs (Tabs.v) that belong to groups (TabGroups.v), or through an extension
    behind a daemon that many clients share (Bridge.v, whose frames are the JSON
    text of JsonText.v).  Which endpoint the agent programs talk to is a profile
    written into their configuration (Profiles.v).  What they did is read from
    their transcripts: the workbench's reader and its adapter for Claude Code are
    in Transcripts.v, those for codex and opencode in CodexRecords.v and
    OpencodeRecords.v.  Recipe processes that outlived a server are found and ended
    by the next one (Orphans.v).

    - Prelude.v: exceptions, the state-and-exception monad [M], Python
      dictionaries in insertion order, stable sorting, tactics.
    - PyStr.v, Json.v, Env.v: Python strings (lists of code points) and the
      methods the code uses; parsed JSON documents; a call's environment and
      clocks with the switch readers of server/security.py and
      server/identity.py.
    - IpAddr.v: the parser and the ranges of Python's [ipaddress].
    - Peer.v: server/security.py, [_is_proxied] to [_peer_is_trusted].
    - InvocationCtx.v: recipes/context.py.
    - AppState.v: recipes/app_state.py.
    - Publish.v: recipes/publish.py, with its cache.
    - RateLimit.v: server/identity.py, [RateLimiter], [Backoff], the counters.
    - Password.v: server/identity.py, addresses, derived ids, password records.
    - World.v: the state of the whole server ([world]) and the account table.
    - Sessions.v, Accounts.v, Authn.v: server/identity.py, the rest.
    - Security.v: server/security.py, [AccessZoneMiddleware] as [gate].
    - TokenFile.v: server/security.py, [ensure_token] as a race of processes.
    - AuthRoutes.v: server/routes/auth.py.
    - AppPages.v: server/routes/app_pages.py.
    - Params.v: recipes/metadata.py, [validate_params].
    - AppRun.v: server/routes/app_run.py and the visitor pool of
      recipes/background.py.
    - WarmPool.v: agent_driver/pool.py, over a tmux that is a set of names.
    - AgentTurn.v: agent_driver/tmux_session.py from the inside, over a tmux that
      answers commands one by one, with the types of agent_driver/driver.py.
    - ScheduleExec.v: server/services/schedule_executor.py.
    - Scheduler.v: server/services/scheduler_service.py, its records as objects of
      a heap that the list walked and the list stored may or may not share.
    - Executions.v: recipes/execution.py and recipes/execution_store.py.
    - Metadata.v: recipes/metadata.py, the rest.
    - Registry.v: recipes/registry.py, over a tree of directories.
    - Installer.v: recipes/installer.py, over a file system, and the guard of
      server/services/community_recipe_service.py.
    - TodoStore.v: todo/store.py.
    - Supervisor.v: server/services/recipe_supervisor.py, the restart loop.
    - EnvLoader.v: recipes/env_loader.py.
    - Runner.v: recipes/runner.py, with the error text of recipes/exceptions.py.
    - Tabs.v: browser/cdp/tab_manager.py and landing.py, over the pages a browser
      shows.
    - TabGroups.v: browser/cdp/tab_group_manager.py, the groups as objects of a
      heap merged with the file on each save; [_do_cleanup] of
      server/services/tab_cleanup_service.py, [_reconcile_tab_groups] of
      browser/cdp/launcher.py.
    - Domains.v: def_/registry.py, def_/schema_validator.py, def_/query_engine.py
      and [_parse_filters] of cli/def_commands.py.
    - Conversations.v: server/services/routing, server/services/pa_outbox.py,
      server/services/task_lifecycle.py, delivery.py and the queue's gate of
      helpers.py in server/services/primary, [enqueue_message] of
      server/services/primary_agent_service.py.
    - Dispatch.v: server/services/primary/dispatcher.py, the router and the workers
      as a machine of interleaved steps.
    - Ingest.v: server/services/ingestion/scheduler.py.
    - Watcher.v: session/transcript_completion.py and
      server/services/primary/watcher.py, with the marks that dispatcher.py,
      rotation.py and lifecycle.py set, as interleaved events.
    - JsonText.v: [json.dumps], [json.loads] and the UTF-8 codec.
    - Bridge.v: browser/extension/protocol.py and native_host.py, the daemon as
      steps between its awaits.
    - Orphans.v: server/services/orphan_recipe_cleanup_service.py, over what the
      process table shows.
    - Profiles.v: init/profile_manager.py, profile_targets.py and
      profile_target_backup.py, with what init/configurator.py and the drivers for
      Claude Code and opencode write for a profile, and the update route of
      server/routes/settings.py.
    - Transcripts.v: session/unified_record.py,
      session/adapters/claude_code_records.py, the registry of adapters,
      [read_records] and [read_raw] of session/record_reader.py and the two routes
      of server/routes/workbench.py over them.
    - CodexRecords.v: session/adapters/codex_records.py and the finding of a
      session's file of session/codex_store.py.
    - OpencodeRecords.v: session/adapters/opencode_records.py and the query of
      session/opencode_store.py, over the tables of opencode's database.

    ** How the code is rendered

    A function keeps its name.  One that touches files, caches or counters is a
    computation in [M]: it takes the state and returns a value or an exception
    together with the state as the Python code left it, also when it raised.
    What a call draws from outside is an argument: the environment and the clocks
    ([machine]), random values and whether a write succeeds ([call], [run_call]),
    what processes and tmux answer and how long they take ([Runtime], [outside]).
    Files hold what they parse to, with their modification stamps where the code
    caches on them; moments are whole microseconds, the rate limits' monotonic
    time is rational.

    What the program takes from elsewhere is a type class with the laws the code
    relies on: the Unicode database, the rendering of a JSON value by [str], ISO
    timestamps, SHA-256 and scrypt, the home directory, URL decoding, the web
    framework's parsing, YAML, cron expressions, regular expressions, processes.
    Each has a small value for evaluation, used by the evaluation sections at the
    ends of the files, which run the theorems on concrete states (such as the
    server [Demo] of World.v).

    ** What is shown

    - The gate (Security.v): its answer is a specification ([gate_spec]) read
      directly off the files, in every state the server can reach; what each zone
      implies; that the owner's zone depends on the socket alone; that the
      sign-in redirect arrives.
    - Sessions, accounts, passwords (Sessions.v to Authn.v, AuthRoutes.v): which
      cookies are honoured, that log-out, suspension and password change take
      effect at once and on nobody else, that the caps hold after every
      operation, that sign-in admits only the right password and that wrong ones
      cost time.
    - Pages (Publish.v, AppState.v, AppPages.v): the list is always read fresh; a
      visitor sees the public block of one file and the files of one account;
      a visitor's run writes its own slot only.
    - Visitor runs (Params.v, AppRun.v, InvocationCtx.v): parameters are accepted
      exactly when declared; a run starts exactly when all checks pass; at most
      two are going, one for each account, in every reachable state.
    - Limits (RateLimit.v): how much a key can be admitted in a window, that a
      patient key always is, the delay after each failure.
    - Recipes (Metadata.v, Registry.v, EnvLoader.v): which descriptions are
      accepted, what a scan registers, which source decides a variable.
    - Executions (Executions.v, Runner.v): the store implements a map of records
      whose states only move forward; a run is recorded as it ended and as its
      caller is told; its processes know for whom they run.
    - Scheduling (Scheduler.v, ScheduleExec.v, Supervisor.v): what a round runs,
      what is notified, when a daemon is restarted.
    - Agent sessions (WarmPool.v, AgentTurn.v): a session is reused only while it
      runs and eviction touches no other; a start ends ready or cleaned up; what
      the result of a turn means; bounded turns end.
    - To-dos (TodoStore.v): names are fresh, references unambiguous, the next one
      is the most urgent.
    - Installing (Installer.v): an installed recipe is whole and nothing else
      moves, and removing it undoes that.
    - Messages (Ingest.v, Conversations.v, Dispatch.v, Watcher.v): which messages
      reach the queue, and none twice while its id is remembered; conversations
      have keys of their own; each is served in order, nothing is lost, everything
      gets through; a reply carries the files registered for it; an answer is
      forwarded once.
    - Domains (Domains.v): what is saved is found; which data a schema accepts;
      how listings are laid out.
    - Tabs (Tabs.v, TabGroups.v): a page is routed to the tab of its origin; a
      command keeps to its group, and no interleaving of processes puts a tab in
      two groups or a sixth tab in one.
    - The bridge (JsonText.v, Bridge.v): what is written as frames is read back,
      however the stream is cut; whatever clients, extension and daemon do, an
      answer goes to the client that asked, under the id it used, once.
    - Orphans (Orphans.v): a signal hits only what meets every rule now and met it
      in an earlier scan; what does so in two scans gets one.
    - Profiles (Profiles.v): an activation takes; any number of them is undone by
      one deactivation.
    - Transcripts (Transcripts.v, CodexRecords.v, OpencodeRecords.v): every line of
      a Claude Code session is a record or counted under a reason; every part of an
      opencode session is a record; pages put together are the whole, for each of
      the three adapters, proved against the interface [Paged]; the raw line of an
      error is withheld for Claude Code and opencode.
    - Defects the model exhibits.  In the server: a non-ASCII token makes the gate
      raise; the back-off overflows at the 1029th failure; a blank token file; a
      sign-in page whose name starts with a dot; a data directory above the
      accounts'.  In the rest: runs of a round after the first command or recipe
      are not noted and repeat ([tick_notes_only_first]); an unparsable date
      stops the scheduler; what a scheduled recipe reports is never read
      ([scheduled_recipe_never_heard]); old records are never cleaned up
      ([create_never_cleans]); cancelling races with the run
      ([cancel_races_with_run]); a malformed dependency stops a scan; daemons
      that crash are restarted without back-off; two session ids can share a tmux
      name, and a name that begins another's is taken for it; an unreadable
      transcript lets an old answer pass for the new one.  In the agent's service:
      an id is taken before its message is handled, and by all channels at once
      ([same_id_dropped]); a bad message ends its poll; a reply that fails loses
      its files ([failed_reply_loses_files]); a warm-up makes the forwarder send
      old answers ([warmup_forwards_history]), a new message makes it skip unseen
      ones.  In the browser: the sweeps close no orphan
      ([sweeps_close_no_orphan]), reconciling keeps dead tabs.  In the domains:
      dashes in a value cut the front matter ([dashes_cut]).  In the installer: a
      chosen name is not found ([chosen_name_not_found]) and not updated
      ([update_forgets_name]), reinstalling in place destroys, a blank name
      removes a category, an unreadable manifest is written over.  In the bridge:
      a client that joins during a broadcast cuts the extension off
      ([joining_client_cuts_extension]), a lone surrogate silences the relay
      ([surrogate_silences_relay]).  In the profiles: a stale token survives a
      switch ([stale_token_survives]), a blank type loses every profile
      ([blank_type_loses_profiles]).  In the transcripts: the raw line of a codex
      error is served ([codex_error_line_served]), a separator inside a codex line
      loses the message, an opencode part without its message vanishes, a malformed
      message turns the roles around.

    ** Bounds

    Most recursion is structural: the loops of the code run over a list (files,
    records, header pairs) and so do the definitions.  Fuel is taken by the
    decimal printer of PyStr.v, as many steps as the number has binary digits,
    enough because each step divides by ten ([dec_go_value]); by the search for a
    free file name in TodoStore.v, one step for each file, enough because each
    step rules one out ([make_id_free]); by the cutting of text into pieces in
    AgentTurn.v, one step for each character ([chunks_spec]); by the reader of
    bracketed fields in Domains.v, one step for each character
    ([bracketed_ends]); by the reader of JSON text in JsonText.v and of frames in
    Bridge.v, as many steps as there are characters or bytes, since each step takes
    one at least ([loads_dumps], [frames_arrive]); by the reading of all pages in
    OpencodeRecords.v, one page more than there are records ([pages_are_whole]);
    and by the polling
    of AgentTurn.v, where running out is a result of its own, and a wait with a
    deadline is shown to end within the polls that fit before it
    ([launch_and_run_ends]).  Retries draw from a list of random values
    ([token_draws]); the theorems hold for every such list.

    ** What is not modelled

    Threads inside one call (a call is atomic except in TokenFile.v, where the
    steps of concurrent processes interleave, in AppRun.v, where runs end at any
    time, in the order of cancelling and ending in Runner.v, between the saves of
    the managers of TabGroups.v, and between the awaits of Dispatch.v, Watcher.v
    and Bridge.v); file modes, symbolic links in Installer.v and the text of refusals;
    the migration of old directories ([migrate_user_state]); start-up advice and
    permission repair; Windows.  Of the recipes: searching the community
    repository.  Of the agents: the screens and commands of the individual
    programs, the list of sessions with its cards, the copies and the search of
    transcripts, and sending to a session from the workbench.  Of the profiles: the
    report of which programs are installed and the masking of keys.  Of the reaper:
    the reading of the process table.  Of the agent's
    service: its prompts, its heartbeat and the counting of tokens; a turn is the
    way it ends.  Of the browser: the protocol behind the tabs and the landing
    page, and the start of the bridge's processes.  Not at all: the viewer, the run
    workspace (of which only its context is still used), telemetry, the command
    line and the interactive set-up: what they do is almost all reading and writing
    of terminals, sockets and foreign file formats. *)

From Stdlib Require Import QArith Lqa.
From stdpp Require Import prelude gmap strings list fin_maps sorting.

(** ** Exceptions and the state-and-exception monad

    [exn] lists the Python exception classes the modelled code raises or
    catches.  [IdentityError] carries the stable [reason] string the routes
    dispatch on; human-readable messages are not modelled.  [ValueError] stands for its
    subclasses too; [JSONDecodeError] is apart where the code tells the two apart. *)
Inductive exn :=
  | IdentityError (reason : string)
  | InvalidSlotName
  | InvalidInvocationContext
  | ValueError
  | JSONDecodeError
  | TypeError
  | KeyError
  | IndexError
  | AttributeError
  | OSError
  | OverflowError
  | ZeroDivisionError
  | HTTPException (status : Z) (visitor_safe : bool)
  | RecipeValidationError
  | MetadataParseError
  | RecipeNotFoundError
  | RecipeInstallError
  | RecipeAlreadyExistsError (existing_path : list N)
  | RuntimeError
  | StructError
  | ChromeCommandError (code : string)
  | InvalidTransitionError
  | UnknownSessionFamily
  | AdapterNotRegistered
  | CalledProcessError
  | RecipeExecutionError (exit_code : Z) (message : list N)
  | SessionVanished (last_pane : list N)
  | TmuxStartupError (tail : list N)
  | Refusal (status : Z) (reason : string).

#[export] Instance exn_eq_dec : EqDecision exn.
Proof. solve_decision. Defined.

Inductive res (A : Type) :=
  | Ok (a : A)
  | Raise (e : exn).
Arguments Ok {A} a.
Arguments Raise {A} e.

#[export] Instance res_eq_dec `{EqDecision A} : EqDecision (res A).
Proof. solve_decision. Defined.

#[export] Instance res_ret : MRet res := @Ok.
#[export] Instance res_bind : MBind res :=
  λ A B f m, match m with Ok a => f a | Raise e => Raise e end.

(** A computation over state [S]: the state survives an exception, as the
    mutations a Python function made before raising do. *)
Definition M (S A : Type) : Type := S → res A * S.

#[export] Instance M_ret {S} : MRet (M S) := λ A a s, (Ok a, s).
#[export] Instance M_bind {S} : MBind (M S) :=
  λ A B f m s, match m s with
               | (Ok a, s') => f a s'
               | (Raise e, s') => (Raise e, s')
               end.

Definition raise {S A} (e : exn) : M S A := λ s, (Raise e, s).
Lemma M_bind_ok {S A B} (m : M S A) (k : A → M S B) s b s' : (m ≫= k) s = (Ok b, s') →
  ∃ a s1, m s = (Ok a, s1) ∧ k a s1 = (Ok b, s').
Proof. unfold mbind, M_bind. destruct (m s) as [[a|e] s1]; [|done]. eauto. Qed.

Definition get_st {S} : M S S := λ s, (Ok s, s).
Definition gets {S A} (f : S → A) : M S A := λ s, (Ok (f s), s).
Definition put_st {S} (s : S) : M S unit := λ _, (Ok tt, s).
Definition modify {S} (f : S → S) : M S unit := λ s, (Ok tt, f s).
Definition lift_res {S A} (r : res A) : M S A := λ s, (r, s).

(** [with contextlib.suppress(...)]: run [m], drop an exception [p] covers. *)
Definition suppress {S} (p : exn → bool) (m : M S unit) : M S unit := λ s,
  match m s with
  | (Raise e, s') => if p e then (Ok tt, s') else (Raise e, s')
  | r => r
  end.

(** [try: m except Exception: handler], for every exception [p] covers. *)
Definition try_except {S A} (p : exn → bool) (m : M S A) (h : exn → M S A) : M S A := λ s,
  match m s with
  | (Raise e, s') => if p e then h e s' else (Raise e, s')
  | r => r
  end.

(** [for x in l: f(x)], counting the iterations that returned [true]. *)
Fixpoint count_each {S A} (f : A → M S bool) (l : list A) : M S Z :=
  match l with
  | [] => mret 0%Z
  | x :: l => b ← f x; n ← count_each f l; mret ((if b : bool then 1 else 0) + n)%Z
  end.

Lemma count_each_cons {S A} (f : A → M S bool) x l s b s' n s'' :
  f x s = (Ok b, s') → count_each f l s' = (Ok n, s'') →
  count_each f (x :: l) s = (Ok ((if b then 1 else 0) + n)%Z, s'').
Proof. cbn. unfold mbind, M_bind. by intros -> ->. Qed.

(** ** Results over lists *)

Fixpoint map_res {A B} (f : A → res B) (l : list A) : res (list B) :=
  match l with
  | [] => Ok []
  | x :: l => y ← f x; ys ← map_res f l; Ok (y :: ys)
  end.
Lemma map_res_fun {A B} (f : A → res B) (h : A → B) l :
  (∀ x, x ∈ l → f x = Ok (h x)) → map_res f l = Ok (map h l).
Proof.
  induction l as [|x l IH]; intros Hf; [done|]. cbn. unfold mbind, res_bind.
  rewrite Hf, IH; [done| |apply list_elem_of_here]. intros y Hy. by apply Hf, list_elem_of_further.
Qed.

Lemma app_nil_iff {A} (l k : list A) : l ++ k = [] ↔ l = [] ∧ k = [].
Proof. destruct l, k; naive_solver. Qed.

Lemma map_res_nil {A B} (f : A → res (list B)) l :
  (ls ← map_res f l; Ok (concat ls)) = Ok [] ↔ Forall (λ x, f x = Ok []) l.
Proof.
  unfold mbind, res_bind. induction l as [|x l IH]; [by split|]. cbn [map_res].
  unfold mbind, res_bind. rewrite Forall_cons, <- IH.
  destruct (f x) as [y|]; [|naive_solver]. destruct (map_res f l) as [ys|]; [|naive_solver].
  cbn. split.
  - intros [= [-> ->]%app_nil_iff]. done.
  - by intros [[= ->] [= ->]].
Qed.

Lemma map_res_total {A B} (f : A → res B) l : (∀ x, x ∈ l → ∃ y, f x = Ok y) → ∃ ys, map_res f l = Ok ys.
Proof.
  induction l as [|x l IH]; intros Hf; [by exists []|]. cbn. unfold mbind, res_bind.
  destruct (Hf x (list_elem_of_here _ _)) as [y ->].
  destruct IH as [ys ->]; [intros z Hz; by apply Hf, list_elem_of_further|]. by exists (y :: ys).
Qed.
Lemma map_res_Raise {A B} (f : A → res B) e l : map_res f l = Raise e → ∃ x, x ∈ l ∧ f x = Raise e.
Proof.
  induction l as [|x l IH]; [done|]. cbn. unfold mbind, res_bind. destruct (f x) as [y|e'] eqn:Ex.
  - destruct (map_res f l); [done|]. intros Hr. destruct (IH Hr) as (z & Hz & Ez).
    exists z. split; [by apply list_elem_of_further|done].
  - intros [= <-]. exists x. split; [apply list_elem_of_here|done].
Qed.
Lemma Forall2_elem_l {A B} (P : A → B → Prop) l k x : Forall2 P l k → x ∈ l → ∃ y, y ∈ k ∧ P x y.
Proof.
  induction 1 as [|a b l k Hab _ IH]; [by intros ?%elem_of_nil|]. intros [->|Hx]%elem_of_cons.
  - exists b. split; [apply list_elem_of_here|done].
  - destruct (IH Hx) as (y & Hy & HP). exists y. split; [by apply list_elem_of_further|done].
Qed.
Lemma Forall2_elem_r {A B} (P : A → B → Prop) l k y : Forall2 P l k → y ∈ k → ∃ x, x ∈ l ∧ P x y.
Proof. intros Hf%Forall2_flip Hy. exact (Forall2_elem_l _ _ _ y Hf Hy). Qed.
Lemma map_res_Forall2 {A B} (f : A → res B) l ys : map_res f l = Ok ys → Forall2 (λ x y, f x = Ok y) l ys.
Proof.
  revert ys. induction l as [|x l IH]; intros ys; cbn; [intros [= <-]; constructor|]. unfold mbind, res_bind.
  destruct (f x) as [y|] eqn:Ex; [|done]. destruct (map_res f l) as [zs|]; [|done]. intros [= <-].
  constructor; [done|by apply IH].
Qed.
Lemma map_res_length {A B} (f : A → res B) l ys : map_res f l = Ok ys → length ys = length l.
Proof. intros Hf%map_res_Forall2%Forall2_length. done. Qed.
Lemma map_res_Forall {A B} (f : A → res B) (P : B → Prop) l : (∀ x, x ∈ l → ∃ y, f x = Ok y ∧ P y) →
  ∃ ys, map_res f l = Ok ys ∧ Forall P ys.
Proof.
  intros Hf. destruct (map_res_total f l) as [ys Hy]; [intros x Hx; destruct (Hf x Hx) as (y & ? & _); by exists y|].
  exists ys. split; [done|]. apply Forall_forall. intros y Hin.
  destruct (Forall2_elem_r _ _ _ _ (map_res_Forall2 _ _ _ Hy) Hin) as (x & Hx & Ex).
  destruct (Hf x Hx) as (y' & Ey & HP). congruence.
Qed.
Lemma map_res_raises {A B} (f : A → res B) e l : (∀ x, x ∈ l → (∃ y, f x = Ok y) ∨ f x = Raise e) →
  (∃ x, x ∈ l ∧ f x = Raise e) → map_res f l = Raise e.
Proof.
  induction l as [|x l IH]; intros Hf (x0 & Hx & He); [by apply elem_of_nil in Hx|]. cbn. unfold mbind, res_bind.
  destruct (Hf x (list_elem_of_here _ _)) as [[y Hy]|Hy]; rewrite Hy; [|done].
  rewrite IH; [done|intros z Hz; by apply Hf, list_elem_of_further|]. exists x0. split; [|done].
  apply elem_of_cons in Hx as [->|Hx]; [congruence|done].
Qed.

Fixpoint filter_res {A} (f : A → res bool) (l : list A) : res (list A) :=
  match l with
  | [] => Ok []
  | x :: l => b ← f x; r ← filter_res f l; Ok (if b : bool then x :: r else r)
  end.

(** ** Filtering *)

Lemma filter_same {A} (P Q : A → Prop) `{∀ x, Decision (P x), ∀ x, Decision (Q x)} (l : list A) :
  (∀ x, x ∈ l → P x ↔ Q x) → filter P l = filter Q l.
Proof.
  induction l as [|x l IH]; intros Hx; [done|]. rewrite !filter_cons.
  assert (P x ↔ Q x) by set_solver. rewrite IH by set_solver.
  by repeat case_decide; naive_solver.
Qed.

Lemma filter_all {A} (P : A → Prop) `{∀ x, Decision (P x)} (l : list A) :
  (∀ x, x ∈ l → P x) → filter P l = l.
Proof.
  induction l as [|x l IH]; intros Hx; [done|].
  rewrite filter_cons_True by set_solver. by rewrite IH by set_solver.
Qed.

Lemma filter_Forall {A} (Q P : A → Prop) `{∀ x, Decision (P x)} (l : list A) :
  Forall Q l → Forall Q (filter P l).
Proof. rewrite !Forall_forall. intros HQ x [_ ?]%list_elem_of_filter. by apply HQ. Qed.

(** ** Insertion-ordered dictionaries

    A Python [dict] is an association list in insertion order: assignment
    replaces a present key where it stands and appends a new one. *)
Abbreviation dict K V := (list (K * V)).

Section dict.
  Context {K V : Type} `{EqDecision K}.
  Implicit Types (k : K) (v : V) (d : dict K V).

Fixpoint dget k d : option V :=
  match d with
  | [] => None
  | (k', v) :: d => if decide (k = k') then Some v else dget k d
  end.

Fixpoint dset k v d : dict K V :=
  match d with
  | [] => [(k, v)]
  | (k', v') :: d => if decide (k = k') then (k, v) :: d else (k', v') :: dset k v d
  end.

Fixpoint ddel k d : dict K V :=
  match d with
  | [] => []
  | (k', v') :: d => if decide (k = k') then d else (k', v') :: ddel k d
  end.

Definition dmem k d : bool := match dget k d with Some _ => true | None => false end.
Definition dkeys d : list K := d.*1.
Definition dvals d : list V := d.*2.
Definition dict_wf d : Prop := NoDup (dkeys d).

Lemma dget_dset_eq k v d : dget k (dset k v d) = Some v.
Proof. induction d as [|[k' v'] d IH]; simpl; repeat (case_decide; simpl); congruence. Qed.

Lemma dset_dset k v w d : dset k v (dset k w d) = dset k v d.
Proof.
  induction d as [|[k0 v0] d IH]; cbn; [by rewrite decide_True|].
  case_decide as Hk; cbn; [by rewrite decide_True|]. by rewrite decide_False, IH.
Qed.
Lemma dget_dset_ne k k' v d : k ≠ k' → dget k (dset k' v d) = dget k d.
Proof.
  intros Hne. induction d as [|[k0 v0] d IH]; simpl; repeat (case_decide; simpl); congruence.
Qed.

Lemma dget_None k d : dget k d = None ↔ k ∉ dkeys d.
Proof.
  induction d as [|[k0 v0] d IH]; simpl; [set_solver|].
  case_decide; subst; [|rewrite IH]; unfold dkeys; csimpl; set_solver.
Qed.

Lemma dmem_dkeys k d : dmem k d = true ↔ k ∈ dkeys d.
Proof.
  unfold dmem. destruct (dget k d) eqn:E; [|apply dget_None in E; naive_solver].
  split; [|done]. intros _. destruct (decide (k ∈ dkeys d)) as [?|Hk]; [done|]. apply dget_None in Hk. congruence.
Qed.
Lemma dget_Some_elem k v d : dget k d = Some v → (k, v) ∈ d.
Proof.
  induction d as [|[k0 v0] d IH]; simpl; [done|].
  case_decide; intros; simplify_eq; set_solver.
Qed.

Lemma dget_elem k v d : dict_wf d → (k, v) ∈ d → dget k d = Some v.
Proof.
  unfold dict_wf, dkeys. induction d as [|[k0 v0] d IH]; csimpl; [set_solver|].
  intros [Hk Hd]%NoDup_cons [Heq|Hin]%elem_of_cons; simplify_eq.
  - by rewrite decide_True.
  - case_decide; subst; [|by apply IH].
    exfalso; apply Hk. apply list_elem_of_fmap. by exists (k0, v).
Qed.

Lemma dget_ddel_ne k k' d : k ≠ k' → dget k (ddel k' d) = dget k d.
Proof.
  intros Hne. induction d as [|[k0 v0] d IH]; simpl; repeat (case_decide; simpl); congruence.
Qed.

Lemma dkeys_ddel_elem k k' d : k ∈ dkeys (ddel k' d) → k ∈ dkeys d.
Proof.
  unfold dkeys. induction d as [|[k0 v0] d IH]; simpl; [done|].
  case_decide; csimpl; set_solver.
Qed.

Lemma ddel_elem kv k d : kv ∈ ddel k d → kv ∈ d.
Proof.
  induction d as [|[k0 v0] d IH]; simpl; [done|]. case_decide; set_solver.
Qed.

Lemma ddel_wf k d : dict_wf d → dict_wf (ddel k d).
Proof.
  unfold dict_wf. induction d as [|[k0 v0] d IH]; simpl; [done|].
  intros [Hk Hd]%NoDup_cons. case_decide; [done|]. unfold dkeys; csimpl.
  apply NoDup_cons. split; [|by apply IH]. intros Hin. apply Hk. by eapply dkeys_ddel_elem.
Qed.

Lemma dget_ddel_eq k d : dict_wf d → dget k (ddel k d) = None.
Proof.
  unfold dict_wf. induction d as [|[k0 v0] d IH]; simpl; [done|].
  intros [Hk Hd]%NoDup_cons. case_decide; subst; [by apply dget_None|].
  simpl. rewrite decide_False by done. by apply IH.
Qed.

Lemma dkeys_dset_elem k k' v d : k ∈ dkeys (dset k' v d) ↔ k = k' ∨ k ∈ dkeys d.
Proof.
  unfold dkeys. induction d as [|[k0 v0] d IH]; simpl; [set_solver|].
  case_decide; csimpl; set_solver.
Qed.

Lemma dset_wf k v d : dict_wf d → dict_wf (dset k v d).
Proof.
  unfold dict_wf. induction d as [|[k0 v0] d IH]; simpl.
  - intros _. apply NoDup_singleton.
  - intros [Hk Hd]%NoDup_cons. case_decide; subst; unfold dkeys; csimpl.
    + by apply NoDup_cons.
    + apply NoDup_cons. split; [|by apply IH].
      intros [?|?]%dkeys_dset_elem; congruence.
Qed.

Lemma length_dset_new k v d : dget k d = None → length (dset k v d) = S (length d).
Proof.
  induction d as [|[k0 v0] d IH]; simpl; [done|]. case_decide; [done|].
  intros Hn. simpl. by rewrite IH.
Qed.

Lemma dset_new k v d : dget k d = None → dset k v d = d ++ [(k, v)].
Proof.
  induction d as [|[k0 v0] d IH]; simpl; [done|]. case_decide; [done|].
  intros Hn. by rewrite IH.
Qed.

Lemma dkeys_dset_old k v v' d : dget k d = Some v' → dkeys (dset k v d) = dkeys d.
Proof.
  induction d as [|[k' w] d IH]; simpl; [done|]. unfold dkeys in *. case_decide; subst; [done|].
  intros Hk. cbn. f_equal. by apply IH.
Qed.

Lemma length_dset_old k v v' d : dget k d = Some v' → length (dset k v d) = length d.
Proof.
  induction d as [|[k0 v0] d IH]; simpl; [done|]. case_decide; [done|].
  intros Hn. simpl. by rewrite IH.
Qed.

Lemma length_ddel_old k v d : dget k d = Some v → S (length (ddel k d)) = length d.
Proof.
  induction d as [|[k0 v0] d IH]; simpl; [done|]. case_decide; [done|].
  intros Hn. simpl. by rewrite IH.
Qed.

Lemma ddel_absent k d : dget k d = None → ddel k d = d.
Proof.
  induction d as [|[k0 v0] d IH]; simpl; [done|]. case_decide; [done|].
  intros. f_equal. by apply IH.
Qed.

Lemma ddel_dset_new k v d : dget k d = None → ddel k (dset k v d) = d.
Proof.
  induction d as [|[k' v'] d IH]; cbn; [by rewrite decide_True|].
  case_decide; [done|]. intros Hn. cbn. rewrite decide_False by done. by rewrite IH.
Qed.

Lemma length_ddel k d : length (ddel k d) ≤ length d.
Proof. induction d as [|[k0 v0] d IH]; simpl; [done|]. case_decide; simpl; lia. Qed.

Lemma dset_length_le k v d : length (dset k v d) ≤ S (length d).
Proof. induction d as [|[k0 v0] d IH]; simpl; [done|]. case_decide; simpl; lia. Qed.

Lemma dset_elem k v k' v' d :
  (k', v') ∈ dset k v d → (k' = k ∧ v' = v) ∨ (k', v') ∈ d.
Proof.
  induction d as [|[k0 v0] d IH]; simpl; [set_solver|].
  case_decide; set_solver.
Qed.

Lemma dset_Forall (P : K * V → Prop) k v d :
  P (k, v) → Forall P d → Forall P (dset k v d).
Proof.
  intros HP Hd. induction Hd as [|[k0 v0] d H0 Hd IH]; simpl; [by constructor|].
  case_decide; by constructor.
Qed.

Lemma ddel_Forall (P : K * V → Prop) k d : Forall P d → Forall P (ddel k d).
Proof.
  induction 1 as [|[k0 v0] d H0 Hd IH]; simpl; [done|]. case_decide; [done|by constructor].
Qed.

(** *** Removing keys *)

Lemma ddel_filter k d : dict_wf d → ddel k d = filter (λ kv, kv.1 ≠ k) d.
Proof.
  unfold dict_wf, dkeys. induction d as [|[k0 v0] d IH]; simpl; [done|].
  intros [Hk Hd]%NoDup_cons. rewrite filter_cons. simpl. case_decide; subst.
  - rewrite decide_False by naive_solver. symmetry. apply filter_all.
    intros [k1 v1] Hin. simpl. intros ->. apply Hk, list_elem_of_fmap. by exists (k0, v1).
  - rewrite decide_True by done. by rewrite IH.
Qed.

Lemma filter_dict_wf (P : K * V → Prop) `{∀ x, Decision (P x)} d :
  dict_wf d → dict_wf (filter P d).
Proof. intros Hd. eapply sublist_NoDup; [exact Hd|]. apply fmap_sublist, sublist_filter. Qed.

Lemma dget_filter (P : K * V → Prop) `{∀ x, Decision (P x)} k d : dict_wf d →
  dget k (filter P d) = (v ← dget k d; if decide (P (k, v)) then Some v else None).
Proof.
  unfold dict_wf, dkeys. induction d as [|[k0 v0] d IH]; simpl; [done|].
  intros [Hk Hd]%NoDup_cons. rewrite filter_cons.
  destruct (decide (k = k0)) as [->|Hne]; simpl.
  - case_decide; simpl; [by rewrite decide_True|]. rewrite IH by done.
    by rewrite (proj2 (dget_None k0 d)).
  - case_decide; simpl; [rewrite decide_False by done|]; by apply IH.
Qed.

(** Dropping distinct present keys drops as many entries. *)
Lemma filter_out_length (ks : list K) d : dict_wf d → NoDup ks → ks ⊆ dkeys d →
  length (filter (λ kv, kv.1 ∉ ks) d) + length ks = length d.
Proof.
  intros Hd Hks Hsub. rewrite <- (length_fmap fst (filter _ d)), <- length_app.
  rewrite <- (length_fmap fst d). apply Permutation_length, NoDup_Permutation; [|done|].
  - apply NoDup_app. split_and!; [by apply filter_dict_wf| |done].
    intros k ([k' v] & -> & [? ?]%list_elem_of_filter)%list_elem_of_fmap. done.
  - intros k. rewrite elem_of_app. split.
    + intros [([k' v] & -> & [? Hin]%list_elem_of_filter)%list_elem_of_fmap|Hk]; [|by apply Hsub].
      by apply list_elem_of_fmap_2.
    + intros ([k' v] & -> & Hin)%list_elem_of_fmap. simpl.
      destruct (decide (k' ∈ ks)); [by right|left].
      apply list_elem_of_fmap. exists (k', v). split; [done|]. by apply list_elem_of_filter.
Qed.
End dict.

Create HintDb frago.
#[export] Hint Resolve dset_wf ddel_wf dget_dset_eq dset_Forall ddel_Forall : frago.
#[export] Hint Rewrite @dget_dset_eq : frago.

(** ** Grouping

    A dictionary of lists filled in order: the keys stand in the order of their
    first element. *)
Definition group_by {K A} `{EqDecision K} (f : A → K) (l : list A) : dict K (list A) :=
  foldl (λ g x, dset (f x) (default [] (dget (f x) g) ++ [x]) g) [] l.

Section group_by.
Context {K A : Type} `{EqDecision K} (f : A → K).

Lemma group_by_get l k : dget k (group_by f l) =
  match filter (λ x, f x = k) l with [] => None | xs => Some xs end.
Proof.
  unfold group_by. induction l as [|x l IH] using rev_ind; [done|]. rewrite foldl_snoc, filter_app, filter_cons.
  set (g := foldl _ [] l) in *. destruct (decide (k = f x)) as [->|Hne].
  - rewrite dget_dset_eq, decide_True, IH by done. by destruct (filter _ l).
  - rewrite dget_dset_ne, decide_False, IH by congruence. cbn. by rewrite app_nil_r.
Qed.

Lemma group_by_wf l : dict_wf (group_by f l).
Proof.
  unfold group_by. induction l as [|x l IH] using rev_ind; [apply NoDup_nil_2|].
  rewrite foldl_snoc. by apply dset_wf.
Qed.

Lemma group_by_elem l k xs : (k, xs) ∈ group_by f l → xs = filter (λ x, f x = k) l ∧ xs ≠ [].
Proof.
  intros Hin%dget_elem; [|apply group_by_wf]. rewrite group_by_get in Hin.
  destruct (filter _ l); [done|]. by injection Hin as <-.
Qed.

Lemma group_by_length l : length (group_by f l) ≤ length l.
Proof.
  unfold group_by. induction l as [|x l IH] using rev_ind; [done|]. rewrite foldl_snoc, length_app. cbn.
  pose proof (dset_length_le (f x) (default [] (dget (f x) (foldl (λ g x, dset (f x) (default [] (dget (f x) g) ++ [x]) g) [] l)) ++ [x])
    (foldl (λ g x, dset (f x) (default [] (dget (f x) g) ++ [x]) g) [] l)). lia.
Qed.
End group_by.

(** *** Sums over a dictionary *)
Definition dsum {K V} (f : V → nat) (d : dict K V) : nat := sum_list_with (λ kv, f kv.2) d.

Lemma dsum_dset {K V} `{EqDecision K} (f : V → nat) k v (d : dict K V) :
  dsum f (dset k v d) + match dget k d with Some o => f o | None => 0 end = dsum f d + f v.
Proof. unfold dsum. induction d as [|[k0 v0] d IH]; cbn; [lia|]. case_decide; cbn; lia. Qed.
Lemma dsum_ddel {K V} `{EqDecision K} (f : V → nat) k v (d : dict K V) :
  dget k d = Some v → dsum f (ddel k d) + f v = dsum f d.
Proof.
  unfold dsum. induction d as [|[k0 v0] d IH]; cbn; [done|]. case_decide as Hk.
  - intros [= ->]. lia.
  - intros Hv%IH. cbn. lia.
Qed.

(** ** Stable sorting

    [sorted(xs, key=...)] is a stable sort; [isort] inserts from the right, so
    an element goes before the ones it is [leb] to and equal keys keep their
    order. *)
Section isort.
  Context {A : Type} (leb : A → A → bool).

Fixpoint sinsert (x : A) (l : list A) : list A :=
  match l with
  | [] => [x]
  | y :: l' => if leb x y then x :: l else y :: sinsert x l'
  end.

Fixpoint isort (l : list A) : list A :=
  match l with
  | [] => []
  | x :: l => sinsert x (isort l)
  end.

Lemma sinsert_perm x l : sinsert x l ≡ₚ x :: l.
Proof.
  induction l as [|y l IH]; simpl; [done|].
  case_match; [done|]. rewrite IH. apply Permutation_swap.
Qed.

Lemma isort_perm l : isort l ≡ₚ l.
Proof. induction l as [|x l IH]; simpl; [done|]. by rewrite sinsert_perm, IH. Qed.

Lemma length_isort l : length (isort l) = length l.
Proof. apply Permutation_length, isort_perm. Qed.

Lemma elem_of_isort x l : x ∈ isort l ↔ x ∈ l.
Proof. by rewrite isort_perm. Qed.

  Context (leb_total : ∀ x y, leb x y = true ∨ leb y x = true).
  Context (leb_trans : ∀ x y z, leb x y = true → leb y z = true → leb x z = true).

Lemma sinsert_sorted x l :
  StronglySorted (λ a b, leb a b = true) l →
  StronglySorted (λ a b, leb a b = true) (sinsert x l).
Proof.
  induction 1 as [|y l Hs IH Hall]; simpl; [by repeat constructor|].
  destruct (leb x y) eqn:Hxy.
  - constructor; [by constructor|]. constructor; [done|].
    eapply Forall_impl; [done|]. intros z Hz. by eapply leb_trans.
  - constructor; [done|]. rewrite sinsert_perm. constructor; [|done].
    destruct (leb_total x y); congruence.
Qed.

Lemma isort_sorted l : StronglySorted (λ a b, leb a b = true) (isort l).
Proof. induction l as [|x l IH]; simpl; [constructor|]. by apply sinsert_sorted. Qed.
End isort.

(** The order of pairs of keys: by the first, and where that does not tell, by
    the second. *)
Section lex.
  Context {A : Type} (le1 le2 : A → A → bool).

Definition lex (a b : A) : bool := if le1 a b then if le1 b a then le2 a b else true else false.

  Context (total1 : ∀ x y, le1 x y = true ∨ le1 y x = true).
  Context (trans1 : ∀ x y z, le1 x y = true → le1 y z = true → le1 x z = true).
  Context (total2 : ∀ x y, le2 x y = true ∨ le2 y x = true).
  Context (trans2 : ∀ x y z, le2 x y = true → le2 y z = true → le2 x z = true).

Lemma lex_total x y : lex x y = true ∨ lex y x = true.
Proof.
  unfold lex. pose proof (total1 x y). pose proof (total2 x y).
  destruct (le1 x y), (le1 y x); naive_solver.
Qed.

Lemma lex_trans x y z : lex x y = true → lex y z = true → lex x z = true.
Proof.
  unfold lex. destruct (le1 x y) eqn:Exy; [|done]. destruct (le1 y z) eqn:Eyz; [|done].
  rewrite (trans1 x y z) by done. destruct (le1 z x) eqn:Ezx; [|done].
  rewrite (trans1 y z x), (trans1 z x y) by done. apply trans2.
Qed.
End lex.

(** ** Shared tactics

    [ok_inv] inverts an equation between results of the monad; [mcase]
    performs one case split of a monadic program in the context. *)
Ltac ok_inv :=
  repeat match goal with
  | H : Ok _ = Ok _ |- _ => injection H as H; try subst
  | H : Raise _ = Raise _ |- _ => injection H as H; try subst
  | H : Ok _ = Raise _ |- _ => discriminate H
  | H : Raise _ = Ok _ |- _ => discriminate H
  | H : (_, _) = (_, _) |- _ => injection H as ?H ?H; try subst
  end.

Ltac mcase H :=
  match type of H with
  | context [match ?x with _ => _ end] => destruct x eqn:?
  | context [if ?x then _ else _] => destruct x eqn:?
  end; simplify_eq/=.

(** Unfold the monad's primitives in the goal, and nothing else. *)
Ltac munfold :=
  unfold mbind, M_bind, mret, M_ret, get_st, gets, put_st, modify, lift_res, raise;
  cbn beta iota zeta.

(** Linear arithmetic with division and modulus by constants. *)
Ltac div_lia := zify; Z.to_euclidean_division_equations; lia.

(** Turn every boolean test of the context into the proposition it decides. *)
Ltac bools :=
  repeat match goal with
  | H : _ && _ = true |- _ => apply andb_true_iff in H as [? ?]
  | H : _ || _ = false |- _ => apply orb_false_iff in H as [? ?]
  | H : negb _ = true |- _ => apply negb_true_iff in H
  | H : negb _ = false |- _ => apply negb_false_iff in H
  | H : bool_decide _ = true |- _ => apply bool_decide_eq_true in H
  | H : bool_decide _ = false |- _ => apply bool_decide_eq_false in H
  | H : existsb _ _ = true |- _ => apply existsb_exists in H as (? & ? & ?)
  end.

Lemma forallb_Forall_true {A} (f : A → bool) l :
  forallb f l = true ↔ Forall (λ x, f x = true) l.
Proof.
  induction l as [|x l IH]; simpl; [split; by constructor|].
  rewrite andb_true_iff, IH. split; [intros []; by constructor|by inversion 1].
Qed.

Lemma existsb_false_Forall {A} (f : A → bool) l :
  existsb f l = false ↔ Forall (λ x, f x = false) l.
Proof.
  induction l as [|x l IH]; simpl; [split; by constructor|].
  rewrite orb_false_iff, IH. split; [intros []; by constructor|by inversion 1].
Qed.

(** The last [n] elements: [l[-n:]] for a positive [n]. *)
Definition lastn {A} (n : nat) (l : list A) : list A := drop (length l - n) l.

Lemma lastn_all {A} n (l : list A) : length l <= n → lastn n l = l.
Proof. intros Hl. unfold lastn. by replace (length l - n) with 0 by lia. Qed.

Lemma lastn_cons {A} n x (l : list A) : n <= length l → lastn n (x :: l) = lastn n l.
Proof. intros Hn. unfold lastn. cbn [length]. by replace (S (length l) - n) with (S (length l - n)) by lia. Qed.

Lemma length_lastn {A} n (l : list A) : length (lastn n l) = min n (length l).
Proof. unfold lastn. rewrite length_drop. lia. Qed.
