(* ===== verification/PyStr.v ===== *)
(** * Python strings

    A [str] is the list of its code points; [bytes] is a list of values below
    256, and a latin-1 decode is the identity.  The string methods the server
    uses are defined here, whitespace being the full set [str.isspace] accepts.
    Case mapping is ASCII by definition; what the Unicode database says above
    that, and NFKC, is the interface [Unicode]. *)

From S2P Require Import Prelude.
From Stdlib Require Ascii String.
From stdpp Require Import prelude gmap strings list.

Abbreviation pystr := (list N).

Definition lit (s : string) : pystr := map Ascii.N_of_ascii (Stdlib.Strings.String.list_ascii_of_string s).
Arguments lit _%_string_scope : simpl never.
Notation "§ s" := (lit s) (at level 1, format "§ s") : stdpp_scope.

(** A literal beyond ASCII: the source file's bytes, decoded from UTF-8. *)
Fixpoint from_utf8 (l : list N) : pystr :=
  match l with
  | [] => []
  | a :: r1 =>
      if (a <? 128)%N then a :: from_utf8 r1 else
      match r1 with
      | [] => []
      | b :: r2 =>
          if (a <? 224)%N then ((a - 192) * 64 + (b - 128))%N :: from_utf8 r2 else
          match r2 with
          | [] => []
          | c :: r3 =>
              if (a <? 240)%N then ((a - 224) * 4096 + (b - 128) * 64 + (c - 128))%N :: from_utf8 r3 else
              match r3 with
              | [] => []
              | d :: r4 =>
                  ((a - 240) * 262144 + (b - 128) * 4096 + (c - 128) * 64 + (d - 128))%N :: from_utf8 r4
              end
          end
      end
  end.
Definition ulit (s : string) : pystr := from_utf8 (lit s).
Arguments ulit _%_string_scope : simpl never.
Notation "¶ s" := (ulit s) (at level 1, format "¶ s") : stdpp_scope.

Section methods.
Local Open Scope N_scope.
Implicit Types (s t p : pystr) (c : N).

Definition is_space (c : N) : bool :=
  (9 <=? c) && (c <=? 13) || (28 <=? c) && (c <=? 32) ||
  bool_decide (c ∈ [133; 160; 5760; 8232; 8233; 8239; 8287; 12288]) ||
  (8192 <=? c) && (c <=? 8202).

Fixpoint lstrip s : pystr :=
  match s with
  | c :: s' => if is_space c then lstrip s' else s
  | [] => []
  end.
Definition rstrip s : pystr := reverse (lstrip (reverse s)).
Definition strip s : pystr := rstrip (lstrip s).

(** [s.rstrip(c)] for a one-character argument. *)
Fixpoint lstrip_char c s : pystr :=
  match s with
  | c' :: s' => if c =? c' then lstrip_char c s' else s
  | [] => []
  end.
Definition rstrip_char c s : pystr := reverse (lstrip_char c (reverse s)).

Fixpoint starts_with p s : bool :=
  match p, s with
  | [], _ => true
  | c :: p, c' :: s => (c =? c') && starts_with p s
  | _ :: _, [] => false
  end.

(** [needle in haystack]. *)
Fixpoint contains p s : bool :=
  starts_with p s || match s with [] => false | _ :: s' => contains p s' end.

Definition has_char c s : bool := existsb (N.eqb c) s.

(** [s.split(c)]: never empty, [n] separators give [n+1] pieces. *)
Fixpoint split_on c s : list pystr :=
  match s with
  | [] => [[]]
  | c' :: s' =>
      if c =? c' then [] :: split_on c s'
      else match split_on c s' with
           | w :: ws => (c' :: w) :: ws
           | [] => [[c']]
           end
  end.

(** [s.partition(c)] without the separator itself: the text before the first
    [c] and, when [c] occurs, the text after it. *)
Fixpoint partition_on c s : pystr * option pystr :=
  match s with
  | [] => ([], None)
  | c' :: s' =>
      if c =? c' then ([], Some s')
      else let '(a, b) := partition_on c s' in (c' :: a, b)
  end.

Fixpoint join_with p (ws : list pystr) : pystr :=
  match ws with
  | [] => []
  | [w] => w
  | w :: ws => w ++ p ++ join_with p ws
  end.

(** [s.splitlines()]: the ends of lines Python knows, a carriage return and the
    line feed after it as one; a last line without an end counts. *)
Definition is_linebreak c : bool :=
  (10 <=? c) && (c <=? 13) || (28 <=? c) && (c <=? 30) || bool_decide (c ∈ [133; 8232; 8233]).
Fixpoint splitlines s : list pystr :=
  match s with
  | [] => []
  | c :: s' =>
      if is_linebreak c then
        [] :: match s' with
              | c' :: s'' => if (c =? 13) && (c' =? 10) then splitlines s'' else splitlines s'
              | [] => []
              end
      else match splitlines s' with
           | w :: ws => (c :: w) :: ws
           | [] => [[c]]
           end
  end.

Definition is_ascii s : bool := forallb (λ c, c <? 128) s.

Definition ascii_lower c : N := if (65 <=? c) && (c <=? 90) then c + 32 else c.
Definition ascii_upper c : N := if (97 <=? c) && (c <=? 122) then c - 32 else c.

(** [bytes.lower]. *)
Definition bytes_lower s : pystr := map ascii_lower s.

(** Code-point order, the order of [str] comparison. *)
Fixpoint str_leb s t : bool :=
  match s, t with
  | [], _ => true
  | _ :: _, [] => false
  | c :: s, c' :: t => (c <? c') || ((c =? c') && str_leb s t)
  end.

(** Length of the UTF-8 encoding. *)
Definition utf8_len s : N :=
  foldr (λ c n, (if c <? 128 then 1 else if c <? 2048 then 2
                 else if c <? 65536 then 3 else 4) + n) 0 s.
End methods.

(** What the Unicode database adds: case mappings of a code point above ASCII
    (one code point may map to several) and NFKC normalisation, which leaves
    ASCII text alone.  The context rule of [str.lower] for a final sigma, whose
    two outcomes are both non-ASCII, is not modelled. *)
Class Unicode := {
  uni_lower : N → pystr;
  uni_upper : N → pystr;
  uni_fold : N → pystr;
  uni_digit : N → option N;
  nfkc : pystr → pystr;
  nfkc_ascii : ∀ s, is_ascii s = true → nfkc s = s;
}.

Section casing.
Context `{Unicode}.
Local Open Scope N_scope.

Definition str_lower (s : pystr) : pystr :=
  concat (map (λ c, if c <? 128 then [ascii_lower c] else uni_lower c) s).
Definition str_upper (s : pystr) : pystr :=
  concat (map (λ c, if c <? 128 then [ascii_upper c] else uni_upper c) s).
Definition str_casefold (s : pystr) : pystr :=
  concat (map (λ c, if c <? 128 then [ascii_lower c] else uni_fold c) s).

(** Digit value of a character, as [int] reads it. *)
Definition digit_of (c : N) : option N :=
  if (48 <=? c) && (c <=? 57) then Some (c - 48)
  else if c <? 128 then None else uni_digit c.

(** The digits of a numeral, single underscores allowed between two digits. *)
Fixpoint digits_of (s : pystr) : option (list N) :=
  match s with
  | [] => Some []
  | c :: s' =>
      d ← digit_of c;
      match s' with
      | c' :: ((_ :: _) as s'') =>
          ds ← (if c' =? 95 then digits_of s'' else digits_of s'); Some (d :: ds)
      | _ => ds ← digits_of s'; Some (d :: ds)
      end
  end.

Definition dec_value (ds : list N) : N := foldl (λ a d, 10 * a + d) 0 ds.

(** [int(s)]: [None] stands for [ValueError].  More than 4300 digits are
    refused, as the interpreter's default limit does. *)
Definition int_of_str (s : pystr) : option Z :=
  let body (t : pystr) : option N :=
    match t with
    | [] => None
    | _ => ds ← digits_of t;
           if (N.of_nat (length ds) <=? 4300) then Some (dec_value ds) else None
    end in
  match strip s with
  | [] => None
  | c :: t =>
      if c =? 45 then (λ n, - Z.of_N n)%Z <$> body t
      else if c =? 43 then Z.of_N <$> body t
      else Z.of_N <$> body (c :: t)
  end.
End casing.

(** A database that knows no case mapping above ASCII, for evaluation. *)
Definition ascii_db : Unicode :=
  {| uni_lower c := [c]; uni_upper c := [c]; uni_fold c := [c];
     uni_digit _ := None; nfkc s := s; nfkc_ascii _ _ := eq_refl |}.

(** ** Lemmas on the string methods *)

Section lemmas.
Local Open Scope N_scope.
Implicit Types (s t p w : pystr) (c : N).

Lemma starts_with_spec p s : starts_with p s = true ↔ ∃ t, s = p ++ t.
Proof.
  revert s. induction p as [|c p IH]; intros s; simpl; [split; [by eexists|done]|].
  destruct s as [|c' s]; [split; [done|by intros [t ?]]|].
  rewrite andb_true_iff, N.eqb_eq, IH.
  split; [intros [-> [t ->]]; by exists t|intros [t [= -> ->]]; eauto].
Qed.

Lemma starts_with_app p t : starts_with p (p ++ t) = true.
Proof. apply starts_with_spec. by eexists. Qed.

Lemma has_char_spec c s : has_char c s = true ↔ c ∈ s.
Proof.
  unfold has_char. rewrite existsb_exists. setoid_rewrite N.eqb_eq.
  setoid_rewrite <- list_elem_of_In. naive_solver.
Qed.

Lemma has_char_false c s : has_char c s = false ↔ c ∉ s.
Proof. rewrite <- has_char_spec. destruct (has_char c s); naive_solver. Qed.

Lemma split_on_not_nil c s : split_on c s ≠ [].
Proof. destruct s; simpl; repeat case_match; done. Qed.

Lemma split_on_last c w : c ∉ w → split_on c w = [w].
Proof.
  induction w as [|c' w IH]; simpl; [done|]. intros Hn.
  rewrite (proj2 (N.eqb_neq c c')) by set_solver. by rewrite IH by set_solver.
Qed.

Lemma split_on_cons c w s : c ∉ w → split_on c (w ++ c :: s) = w :: split_on c s.
Proof.
  induction w as [|c' w IH]; simpl; intros Hn.
  - by rewrite N.eqb_refl.
  - rewrite (proj2 (N.eqb_neq c c')) by set_solver. by rewrite IH by set_solver.
Qed.

Lemma split_on_pieces c s : Forall (λ w, c ∉ w) (split_on c s).
Proof.
  induction s as [|c' s IH]; simpl; [repeat constructor; set_solver|].
  case_match eqn:Hc; [by constructor; [set_solver|]|].
  apply N.eqb_neq in Hc. destruct (split_on c s) as [|w ws] eqn:Hs.
  - constructor; [set_solver|done].
  - inversion IH; subst. constructor; [set_solver|done].
Qed.

(** Joining the pieces gives the string back. *)
Lemma split_on_join c s : join_with [c] (split_on c s) = s.
Proof.
  induction s as [|c' s IH]; simpl; [done|].
  case_match eqn:Hc.
  - apply N.eqb_eq in Hc as ->. pose proof (split_on_not_nil c' s).
    destruct (split_on c' s) as [|w ws]; [done|]. simpl in *. by rewrite IH.
  - destruct (split_on c s) as [|w ws] eqn:Hs; [by apply split_on_not_nil in Hs|].
    destruct ws; simpl in *; by rewrite <- IH.
Qed.

Lemma split_on_inj c s t : split_on c s = split_on c t → s = t.
Proof. intros E. by rewrite <- (split_on_join c s), E, split_on_join. Qed.

Lemma partition_on_absent c s : c ∉ s → partition_on c s = (s, None).
Proof.
  induction s as [|c' s IH]; simpl; [done|]. intros Hn.
  rewrite (proj2 (N.eqb_neq c c')) by set_solver. by rewrite IH by set_solver.
Qed.

Lemma partition_on_found c w s : c ∉ w → partition_on c (w ++ c :: s) = (w, Some s).
Proof.
  induction w as [|c' w IH]; simpl; intros Hn.
  - by rewrite N.eqb_refl.
  - rewrite (proj2 (N.eqb_neq c c')) by set_solver. by rewrite IH by set_solver.
Qed.

(** A line without line ends inside, once it is ended, is read back. *)
Lemma splitlines_line w s : Forall (λ c, is_linebreak c = false) w →
  splitlines (w ++ 10 :: s) = w :: splitlines s.
Proof.
  induction 1 as [|c w Hc _ IH]; cbn [splitlines app]; [by destruct s|]. by rewrite Hc, IH.
Qed.

Lemma lstrip_nospace s : Forall (λ c, is_space c = false) s → lstrip s = s.
Proof. destruct 1; simpl; [done|]. by case_match; simplify_eq. Qed.

Lemma strip_nospace s : Forall (λ c, is_space c = false) s → strip s = s.
Proof.
  intros Hs. unfold strip, rstrip. rewrite (lstrip_nospace s) by done.
  rewrite lstrip_nospace by by rewrite Forall_reverse. apply reverse_involutive.
Qed.

Lemma strip_ends c m d : is_space c = false → is_space d = false → strip (c :: m ++ [d]) = c :: m ++ [d].
Proof.
  intros Hc Hd. unfold strip, rstrip. cbn [lstrip]. rewrite Hc.
  assert (reverse (c :: m ++ [d]) = d :: reverse (c :: m)) as Hr.
  { by rewrite app_comm_cons, reverse_snoc. }
  rewrite Hr. cbn [lstrip]. rewrite Hd. by rewrite <- Hr, reverse_involutive.
Qed.

Lemma lstrip_suffix s : ∃ w, s = w ++ lstrip s.
Proof.
  induction s as [|c s [w IH]]; simpl; [by exists []|].
  case_match; [|by exists []]. exists (c :: w). simpl. by f_equal.
Qed.

(** Stripping only drops characters. *)
Lemma lstrip_head c s t : lstrip s = c :: t → is_space c = false.
Proof.
  induction s as [|c' s IH]; cbn; [done|]. destruct (is_space c') eqn:E; [done|]. by intros [= <- _].
Qed.
Lemma lstrip_idem s : lstrip (lstrip s) = lstrip s.
Proof. destruct (lstrip s) as [|c t] eqn:E; [done|]. cbn. by rewrite (lstrip_head _ _ _ E). Qed.
Lemma strip_trimmed s : lstrip (strip s) = strip s ∧ lstrip (reverse (strip s)) = reverse (strip s).
Proof.
  unfold strip, rstrip. rewrite reverse_involutive. split; [|apply lstrip_idem].
  destruct (lstrip_suffix (reverse (lstrip s))) as [w Hw]. apply (f_equal reverse) in Hw.
  rewrite reverse_involutive, reverse_app in Hw. destruct (reverse (lstrip (reverse (lstrip s)))) as [|c t]; [done|].
  cbn. by rewrite (lstrip_head c s (t ++ reverse w)).
Qed.
Lemma strip_strip s : strip (strip s) = strip s.
Proof.
  destruct (strip_trimmed s) as [Hl Hr]. set (t := strip s) in *. unfold strip, rstrip.
  by rewrite Hl, Hr, reverse_involutive.
Qed.
(** Line feeds around a stripped text are stripped again. *)
Lemma strip_padded s : strip s ≠ [] → strip (10 :: 10 :: strip s ++ [10]) = strip s.
Proof.
  intros Hne. destruct (strip_trimmed s) as [Hl Hr]. set (t := strip s) in *. unfold strip.
  change (lstrip (10 :: 10 :: t ++ [10])) with (lstrip (t ++ [10])).
  assert (lstrip (t ++ [10]) = t ++ [10]) as ->.
  { destruct t as [|c t']; [done|]. cbn. by rewrite (lstrip_head _ _ _ Hl). }
  unfold rstrip. rewrite reverse_snoc. change (lstrip (10 :: reverse t)) with (lstrip (reverse t)).
  by rewrite Hr, reverse_involutive.
Qed.

Lemma strip_elem c s : c ∈ strip s → c ∈ s.
Proof.
  unfold strip, rstrip. intros Hin.
  destruct (lstrip_suffix s) as [w Hw], (lstrip_suffix (reverse (lstrip s))) as [w' Hw'].
  rewrite Hw. apply elem_of_app. right.
  rewrite elem_of_reverse in Hin. apply elem_of_reverse. rewrite Hw'. set_solver.
Qed.

Lemma is_ascii_Forall s : is_ascii s = true ↔ Forall (λ c, c < 128) s.
Proof.
  unfold is_ascii. rewrite forallb_Forall_true. apply Forall_proper; [|done].
  intros c. apply N.ltb_lt.
Qed.

Lemma str_leb_total s t : str_leb s t = true ∨ str_leb t s = true.
Proof.
  revert t. induction s as [|c s IH]; intros [|c' t]; simpl; auto.
  destruct (N.lt_trichotomy c c') as [Hl|[->|Hl]].
  - left. by rewrite (proj2 (N.ltb_lt c c')).
  - rewrite N.ltb_irrefl, N.eqb_refl. simpl. apply IH.
  - right. by rewrite (proj2 (N.ltb_lt c' c)).
Qed.

Lemma str_leb_trans s t p : str_leb s t = true → str_leb t p = true → str_leb s p = true.
Proof.
  revert t p. induction s as [|c s IH]; intros [|c' t] [|c'' p]; simpl; try done.
  rewrite !orb_true_iff, !andb_true_iff, !N.ltb_lt, !N.eqb_eq.
  intros [?|[-> ?]] [?|[-> ?]]; [left; lia..|right; eauto].
Qed.

Lemma str_leb_refl s : str_leb s s = true.
Proof. destruct (str_leb_total s s); done. Qed.
End lemmas.

(** ** Decimal numerals *)

Section decimal.
Local Open Scope N_scope.

Fixpoint dec_go (fuel : nat) (n : N) (acc : list N) : list N :=
  match fuel with
  | O => acc
  | S fuel => if n <? 10 then n :: acc else dec_go fuel (n / 10) (n mod 10 :: acc)
  end.

(** [str(n)] for a natural number; [N.size n] steps are enough since each
    divides by ten. *)
Definition str_of_N (n : N) : pystr :=
  map (λ d, d + 48) (dec_go (S (N.to_nat (N.size n))) n []).

Lemma dec_go_value fuel n acc :
  (n < 2 ^ N.of_nat fuel) → (0 < fuel)%nat →
  dec_value (dec_go fuel n acc) = foldl (λ a d, 10 * a + d) n acc.
Proof.
  revert n acc. induction fuel as [|fuel IH]; intros n acc Hn Hf; [lia|].
  simpl. case_match eqn:Hlt; [done|]. apply N.ltb_ge in Hlt.
  rewrite Nat2N.inj_succ, N.pow_succ_r' in Hn.
  destruct fuel as [|fuel]; [simpl in Hn; lia|].
  rewrite IH; [|apply N.Div0.div_lt_upper_bound; lia|lia].
  simpl. f_equal. pose proof (N.Div0.div_mod n 10). lia.
Qed.

Lemma dec_go_digits fuel n acc :
  n < 2 ^ N.of_nat fuel → (0 < fuel)%nat →
  Forall (λ d, d < 10) acc → Forall (λ d, d < 10) (dec_go fuel n acc).
Proof.
  revert n acc. induction fuel as [|fuel IH]; intros n acc Hn Hf Ha; [lia|].
  simpl. case_match eqn:Hlt; [constructor; [by apply N.ltb_lt|done]|].
  apply N.ltb_ge in Hlt. rewrite Nat2N.inj_succ, N.pow_succ_r' in Hn.
  destruct fuel as [|fuel]; [simpl in Hn; lia|].
  apply IH; [apply N.Div0.div_lt_upper_bound; lia|lia|].
  constructor; [|done]. by apply N.mod_lt.
Qed.

Lemma length_dec_go fuel n acc : (length (dec_go fuel n acc) ≤ fuel + length acc)%nat.
Proof.
  revert n acc. induction fuel as [|fuel IH]; intros n acc; simpl; [lia|].
  case_match; simpl; [lia|]. rewrite IH. simpl. lia.
Qed.

Lemma dec_go_not_nil fuel n acc : (0 < fuel)%nat → dec_go fuel n acc ≠ [].
Proof.
  assert (∀ fuel n acc, acc ≠ [] → dec_go fuel n acc ≠ []) as Hacc.
  { clear. induction fuel as [|fuel IH]; intros n acc Ha; simpl; [done|].
    case_match; [done|]. by apply IH. }
  destruct fuel; [lia|]. intros _. simpl. case_match; [done|]. by apply Hacc.
Qed.

Lemma size_nat_bound n : n < 2 ^ N.of_nat (S (N.to_nat (N.size n))).
Proof.
  rewrite Nat2N.inj_succ, N.pow_succ_r'. pose proof (N.size_gt n) as Hs.
  rewrite N2Nat.id. lia.
Qed.

Lemma str_of_N_inj n m : str_of_N n = str_of_N m → n = m.
Proof.
  assert (∀ k, dec_value (dec_go (S (N.to_nat (N.size k))) k []) = k) as Hv.
  { intros k. rewrite dec_go_value; [done|apply size_nat_bound|lia]. }
  unfold str_of_N. intros E. rewrite <- (Hv n), <- (Hv m). f_equal.
  revert E. generalize (dec_go (S (N.to_nat (N.size m))) m []).
  induction (dec_go (S (N.to_nat (N.size n))) n []) as [|x l IH]; intros [|y l']; try done.
  cbn. intros [= E1 E2]. f_equal; [lia|by apply IH].
Qed.

Lemma str_of_N_digits n : Forall (λ c, 48 <= c < 58) (str_of_N n).
Proof.
  unfold str_of_N. apply Forall_map.
  eapply Forall_impl; [apply dec_go_digits; [apply size_nat_bound|lia|done]|].
  cbn beta. lia.
Qed.

Context `{Unicode}.

Lemma digit_of_dec d : d < 10 → digit_of (d + 48) = Some d.
Proof.
  intros Hd. unfold digit_of.
  rewrite (proj2 (N.leb_le 48 (d + 48))) by lia.
  rewrite (proj2 (N.leb_le (d + 48) 57)) by lia. simpl. f_equal. lia.
Qed.

Lemma digits_of_dec ds :
  Forall (λ d, d < 10) ds → digits_of (map (λ d, d + 48) ds) = Some ds.
Proof.
  induction 1 as [|d ds Hd Hds IH]; [done|]. cbn [map digits_of].
  rewrite digit_of_dec by done. simpl.
  destruct ds as [|d' ds]; [done|]. inversion Hds; subst.
  cbn [map] in *. rewrite IH. rewrite (proj2 (N.eqb_neq (d' + 48) 95)) by lia.
  by case_match.
Qed.

Lemma int_of_str_of_N n : n < 2 ^ 4000 → int_of_str (str_of_N n) = Some (Z.of_N n).
Proof.
  intros Hn. set (ds := dec_go (S (N.to_nat (N.size n))) n []).
  assert (Forall (λ d, d < 10) ds) as Hds
    by (apply dec_go_digits; [apply size_nat_bound|lia|done]).
  assert (str_of_N n = map (λ d, d + 48) ds) as -> by done.
  assert (N.of_nat (length ds) <=? 4300 = true) as Hlen.
  { apply N.leb_le. pose proof (length_dec_go (S (N.to_nat (N.size n))) n []) as Hl.
    fold ds in Hl. simpl in Hl.
    assert (N.size n <= 4000); [|lia].
    destruct (decide (n = 0)) as [->|]; [done|].
    rewrite N.size_log2 by done. apply N.le_succ_l. apply N.log2_lt_pow2; lia. }
  unfold int_of_str. rewrite strip_nospace.
  2:{ apply Forall_map. eapply Forall_impl; [done|]. intros d Hd. unfold is_space.
      repeat rewrite orb_false_iff. rewrite !andb_false_iff, !N.leb_gt.
      cbn beta in Hd. repeat split; [lia..| |lia].
      apply bool_decide_eq_false. rewrite !elem_of_cons, elem_of_nil. lia. }
  assert (ds ≠ []) as Hnil by (by apply dec_go_not_nil; lia).
  pose proof (digits_of_dec ds Hds) as Hd.
  assert (dec_value ds = n) as Hv.
  { unfold ds. rewrite dec_go_value; [done|apply size_nat_bound|lia]. }
  destruct ds as [|d ds']; [done|]. inversion Hds; subst.
  cbn [map] in *. rewrite (proj2 (N.eqb_neq (d + 48) 45)) by lia.
  rewrite (proj2 (N.eqb_neq (d + 48) 43)) by lia.
  rewrite Hd. cbn [mbind option_bind]. by rewrite Hlen.
Qed.
End decimal.
