(* ===== verification/Json.v ===== *)
(** * JSON documents as the server reads them

    The value [json.loads] returns, with Python's truthiness, [isinstance]
    tests and [str()] coercion.  Objects are dictionaries in document order. *)

From Stdlib Require Import QArith.
From S2P Require Import Prelude PyStr.
From stdpp Require Import prelude list strings.

Inductive json :=
  | JNull
  | JBool (b : bool)
  | JInt (z : Z)
  | JFloat (q : Q)
  | JStr (s : pystr)
  | JArr (l : list json)
  | JObj (d : dict pystr json).

Abbreviation jdict := (dict pystr json).

#[export] Instance Q_eq_dec : EqDecision Q.
Proof. solve_decision. Defined.

#[export] Instance json_eq_dec : EqDecision json.
Proof.
  refine (fix go a b {struct a} : Decision (a = b) :=
    match a, b with
    | JNull, JNull => left eq_refl
    | JBool x, JBool y => cast_if (decide (x = y))
    | JInt x, JInt y => cast_if (decide (x = y))
    | JFloat x, JFloat y => cast_if (decide (x = y))
    | JStr x, JStr y => cast_if (decide (x = y))
    | JArr x, JArr y => cast_if (@list_eq_dec json go x y)
    | JObj x, JObj y => cast_if (@list_eq_dec _ (@prod_eq_dec _ _ _ go) x y)
    | _, _ => right _
    end); clear go; abstract congruence.
Defined.

(** [str(v)] of a value that is not a string: the text Python prints for it. *)
Class PyRepr := py_repr : json → pystr.

(** A rendering for evaluation: every document that is not a string as [?]. *)
Definition repr_mark : PyRepr := λ _, §"?".

(** [bool(v)]. *)
Definition truthy (v : json) : bool :=
  match v with
  | JNull => false
  | JBool b => b
  | JInt z => negb (Z.eqb z 0)
  | JFloat q => negb (Qeq_bool q 0)
  | JStr s => bool_decide (s ≠ [])
  | JArr l => negb (Nat.eqb (length l) 0)
  | JObj d => negb (Nat.eqb (length d) 0)
  end.

Section coercions.
Context `{PyRepr}.

Definition py_str (v : json) : pystr :=
  match v with JStr s => s | _ => py_repr v end.

(** [str(d.get(k) or "")]. *)
Definition str_field (k : pystr) (d : jdict) : pystr :=
  match dget k d with
  | Some v => if truthy v then py_str v else []
  | None => []
  end.

(** [bool(d.get(k))]. *)
Definition bool_field (k : pystr) (d : jdict) : bool :=
  match dget k d with Some v => truthy v | None => false end.
End coercions.

(** [d.get(k)], [a or b], and the comparison of a value with a string. *)
Definition jget (k : pystr) (d : jdict) : json := default JNull (dget k d).
Definition jor (a b : json) : json := if truthy a then a else b.
Definition str_is (s : pystr) (v : json) : bool :=
  match v with JStr t => bool_decide (t = s) | _ => false end.

Lemma str_is_iff t v : str_is t v = true ↔ v = JStr t.
Proof. destruct v; simpl; try (split; congruence). rewrite bool_decide_eq_true. naive_solver. Qed.
Lemma str_is_false t v : str_is t v = false ↔ v ≠ JStr t.
Proof. rewrite <- str_is_iff. by destruct (str_is t v). Qed.

(** [.get] on a value that should be an object. *)
Definition as_obj (v : json) : res jdict :=
  match v with JObj d => Ok d | _ => Raise AttributeError end.

(** What [for x in v] yields. *)
Definition py_iter (v : json) : res (list json) :=
  match v with
  | JArr l => Ok l
  | JObj d => Ok (JStr <$> dkeys d)
  | JStr s => Ok ((λ c, JStr [c]) <$> s)
  | _ => Raise TypeError
  end.

(** [loaded if isinstance(loaded, dict) else {}] over a document that may have
    failed to read or to parse ([None]). *)
Definition as_dict (doc : option json) : jdict :=
  match doc with Some (JObj d) => d | _ => [] end.

(** [{k: v for k, v in loaded.items() if isinstance(v, dict)}]. *)
Definition dict_entries (doc : option json) : dict pystr jdict :=
  omap (λ kv, match kv.2 with JObj d => Some (kv.1, d) | _ => None end) (as_dict doc).

Lemma str_field_str `{PyRepr} k s d : dget k d = Some (JStr s) → str_field k d = s.
Proof.
  unfold str_field. intros ->. simpl. by case_bool_decide; [|destruct s].
Qed.

Lemma dict_entries_get doc k d :
  dict_wf (as_dict doc) →
  dget k (dict_entries doc) = Some d ↔ dget k (as_dict doc) = Some (JObj d).
Proof.
  unfold dict_entries, dict_wf. induction (as_dict doc) as [|[k' v] l IH]; simpl; [done|].
  unfold dkeys; csimpl. intros [Hk Hl]%NoDup_cons.
  assert (k = k' → dget k l = None) as Hnone by (intros ->; by apply dget_None).
  destruct v; simpl; try case_decide; subst; try (by rewrite IH); try (naive_solver).
  all: rewrite IH by done; rewrite Hnone by done; naive_solver.
Qed.

(** Encoding a table of objects back into a document. *)
Definition table_doc (d : dict pystr jdict) : json :=
  JObj (map (λ kv, (kv.1, JObj kv.2)) d).

Lemma dict_entries_table d : dict_entries (Some (table_doc d)) = d.
Proof.
  unfold dict_entries, table_doc. simpl.
  induction d as [|[k v] d IH]; simpl; [done|]. by f_equal.
Qed.

Lemma jget_dset_eq k v d : jget k (dset k v d) = v.
Proof. unfold jget. by rewrite dget_dset_eq. Qed.

Lemma jget_dset_ne k k' v d : k ≠ k' → jget k (dset k' v d) = jget k d.
Proof. intros. unfold jget. by rewrite dget_dset_ne. Qed.

Lemma dget_jget k v d : dget k d = Some v → jget k d = v.
Proof. unfold jget. by intros ->. Qed.

(** Read a field through writes to fields of other, literal names. *)
Ltac fields :=
  repeat first
    [ rewrite jget_dset_eq | rewrite dget_dset_eq
    | rewrite jget_dset_ne by (vm_compute; congruence)
    | rewrite dget_dset_ne by (vm_compute; congruence) ].

(** ** Writing a document

    [json.dumps] refuses an integer of more than 4300 digits, and UTF-8 refuses half a
    surrogate pair, which a string read from an escape may hold; both raise
    [ValueError] ([UnicodeEncodeError] is one). *)
Definition int_printable (z : Z) : bool := (N.of_nat (length (str_of_N (Z.abs_N z))) <=? 4300)%N.
Fixpoint printable (v : json) : bool :=
  match v with
  | JInt z => int_printable z
  | JArr l => forallb printable l
  | JObj d => forallb (λ kv, printable kv.2) d
  | _ => true
  end.

Definition is_surrogate (c : N) : bool := ((55296 <=? c) && (c <=? 57343))%N.
Definition is_scalar (c : N) : bool := (c <? 1114112)%N && negb (is_surrogate c).
Definition encodable_str (s : pystr) : bool := forallb is_scalar s.
Fixpoint encodable (v : json) : bool :=
  match v with
  | JStr s => encodable_str s
  | JArr l => forallb encodable l
  | JObj d => forallb (λ kv, encodable_str kv.1 && encodable kv.2) d
  | _ => true
  end.

Lemma encodable_str_app s t : encodable_str (s ++ t) = encodable_str s && encodable_str t.
Proof. apply forallb_app. Qed.
Lemma encodable_ascii s : Forall (λ c, c < 128)%N s → encodable_str s = true.
Proof.
  intros Hs. apply forallb_forall. intros c Hc%list_elem_of_In. rewrite Forall_forall in Hs. specialize (Hs c Hc).
  unfold is_scalar, is_surrogate. apply andb_true_iff. split; [apply N.ltb_lt; lia|]. apply negb_true_iff, andb_false_iff. left.
  apply N.leb_gt. lia.
Qed.
Lemma int_printable_small z : (Z.abs z < 2 ^ 64)%Z → int_printable z = true.
Proof.
  intros Hz. unfold int_printable, str_of_N. rewrite length_map. apply N.leb_le.
  pose proof (length_dec_go (S (N.to_nat (N.size (Z.abs_N z)))) (Z.abs_N z) []) as Hl. cbn [length] in Hl.
  assert (N.size (Z.abs_N z) <= 64)%N; [|lia].
  destruct (Z.abs_N z) as [|p] eqn:E; [done|]. rewrite N.size_log2 by done. enough (N.log2 (Npos p) < 64)%N by lia.
  apply N.log2_lt_pow2; lia.
Qed.
