(* ===== verification/JsonText.v ===== *)
(** * JSON text and UTF-8 bytes

    [json.dumps(v, ensure_ascii=False)], [json.loads] and the strict UTF-8 codec:
    the texts that travel between the processes of the browser bridge.  Python's
    recursion limit is not modelled, and the three floats that are no numbers
    ([NaN] and the infinities) have no document. *)

From Stdlib Require Import QArith.
From S2P Require Import Prelude PyStr Json.
From stdpp Require Import prelude list strings.

Local Open Scope N_scope.

(** ** UTF-8 *)

Abbreviation bytes := (list N).

Definition utf8_char (c : N) : bytes :=
  if c <? 128 then [c]
  else if c <? 2048 then [192 + c / 64; 128 + c mod 64]
  else if c <? 65536 then [224 + c / 4096; 128 + c / 64 mod 64; 128 + c mod 64]
  else [240 + c / 262144; 128 + c / 4096 mod 64; 128 + c / 64 mod 64; 128 + c mod 64].

(** [s.encode("utf-8")]: a surrogate is a [UnicodeEncodeError]. *)
Definition utf8_encode (s : pystr) : res bytes :=
  if forallb is_scalar s then Ok (concat (map utf8_char s)) else Raise ValueError.

Definition is_tail (b : N) : bool := (128 <=? b) && (b <? 192).

(** [b.decode("utf-8")]: no overlong form, no surrogate, nothing above U+10FFFF;
    [None] is a [UnicodeDecodeError]. *)
Fixpoint utf8_decode (l : bytes) : option pystr :=
  match l with
  | [] => Some []
  | b :: l =>
      if b <? 128 then cons b <$> utf8_decode l
      else if (194 <=? b) && (b <? 224) then
        match l with
        | b1 :: l => if is_tail b1 then cons (64 * (b - 192) + (b1 - 128)) <$> utf8_decode l else None
        | _ => None
        end
      else if (224 <=? b) && (b <? 240) then
        match l with
        | b1 :: b2 :: l =>
            let c := 4096 * (b - 224) + 64 * (b1 - 128) + (b2 - 128) in
            if is_tail b1 && is_tail b2 && (2048 <=? c) && negb (is_surrogate c) then cons c <$> utf8_decode l else None
        | _ => None
        end
      else if (240 <=? b) && (b <? 245) then
        match l with
        | b1 :: b2 :: b3 :: l =>
            let c := 262144 * (b - 240) + 4096 * (b1 - 128) + 64 * (b2 - 128) + (b3 - 128) in
            if is_tail b1 && is_tail b2 && is_tail b3 && (65536 <=? c) && (c <? 1114112)
            then cons c <$> utf8_decode l else None
        | _ => None
        end
      else None
  end.

(** ** Writing *)

(** How a float is written and read: [float.__repr__] and [float(text)]. *)
Class FloatText := {
  float_repr : Q → pystr;
  float_value : pystr → Q;
}.

Definition str_of_Z (z : Z) : pystr :=
  match z with Z0 => [48] | Zpos p => str_of_N (Npos p) | Zneg p => 45 :: str_of_N (Npos p) end.

Definition hex_digit (d : N) : N := if d <? 10 then 48 + d else 87 + d.

(** [py_encode_basestring]. *)
Definition escape_char (c : N) : pystr :=
  if c =? 34 then [92; 34] else if c =? 92 then [92; 92]
  else if c =? 10 then [92; 110] else if c =? 13 then [92; 114] else if c =? 9 then [92; 116]
  else if c =? 12 then [92; 102] else if c =? 8 then [92; 98]
  else if c <? 32 then [92; 117; 48; 48; hex_digit (c / 16); hex_digit (c mod 16)]
  else [c].
Definition dump_str (s : pystr) : pystr := 34 :: concat (map escape_char s) ++ [34].

Section text.
Context `{FloatText}.

Fixpoint dump (v : json) : pystr :=
  match v with
  | JNull => §"null"
  | JBool true => §"true"
  | JBool false => §"false"
  | JInt z => str_of_Z z
  | JFloat q => float_repr q
  | JStr s => dump_str s
  | JArr l => 91 :: join_with (§", ") (map dump l) ++ [93]
  | JObj d => 123 :: join_with (§", ") (map (λ kv, dump_str kv.1 ++ §": " ++ dump kv.2) d) ++ [125]
  end.

Definition json_dumps (v : json) : res pystr := if printable v then Ok (dump v) else Raise ValueError.

(** ** Reading *)

Definition is_ws (c : N) : bool := (c =? 32) || (c =? 9) || (c =? 10) || (c =? 13).
Fixpoint skip_ws (s : pystr) : pystr :=
  match s with c :: s' => if is_ws c then skip_ws s' else s | [] => [] end.

Definition hex_value (c : N) : option N :=
  if (48 <=? c) && (c <=? 57) then Some (c - 48)
  else if (97 <=? c) && (c <=? 102) then Some (c - 87)
  else if (65 <=? c) && (c <=? 70) then Some (c - 55)
  else None.
Definition hex4 (a b c d : N) : option N :=
  a ← hex_value a; b ← hex_value b; c ← hex_value c; d ← hex_value d;
  Some (4096 * a + 256 * b + 16 * c + d).

Definition unescape (e : N) : option N :=
  if e =? 34 then Some 34 else if e =? 92 then Some 92 else if e =? 47 then Some 47
  else if e =? 98 then Some 8 else if e =? 102 then Some 12 else if e =? 110 then Some 10
  else if e =? 114 then Some 13 else if e =? 116 then Some 9 else None.

Definition put (c : N) (r : option (pystr * pystr)) : option (pystr * pystr) :=
  '(t, rest) ← r; Some (c :: t, rest).

(** [scanstring], after the opening quote: the string and what follows it. *)
Fixpoint scan_string (s : pystr) : option (pystr * pystr) :=
  match s with
  | [] => None
  | c :: s =>
      if c =? 34 then Some ([], s)
      else if c =? 92 then
        match s with
        | [] => None
        | e :: s =>
            if e =? 117 then
              match s with
              | h1 :: h2 :: h3 :: h4 :: s =>
                  u ← hex4 h1 h2 h3 h4;
                  match s with
                  | b :: e' :: l1 :: l2 :: l3 :: l4 :: s' =>
                      if (55296 <=? u) && (u <=? 56319) && (b =? 92) && (e' =? 117) then
                        u2 ← hex4 l1 l2 l3 l4;
                        if (56320 <=? u2) && (u2 <=? 57343)
                        then put (65536 + 1024 * (u - 55296) + (u2 - 56320)) (scan_string s')
                        else put u (scan_string s)
                      else put u (scan_string s)
                  | _ => put u (scan_string s)
                  end
              | _ => None
              end
            else x ← unescape e; put x (scan_string s)
        end
      else if c <? 32 then None
      else put c (scan_string s)
  end.

Definition is_dig (c : N) : bool := (48 <=? c) && (c <=? 57).
Fixpoint span_digits (s : pystr) : pystr * pystr :=
  match s with
  | c :: s' => if is_dig c then let '(d, r) := span_digits s' in (c :: d, r) else ([], s)
  | [] => ([], [])
  end.

(** The fraction and the exponent of a number, empty when absent. *)
Definition scan_frac (s : pystr) : pystr * pystr :=
  match s with
  | c :: s' => if c =? 46 then match span_digits s' with ([], _) => ([], s) | (d, r) => (46 :: d, r) end else ([], s)
  | [] => ([], [])
  end.
Definition scan_exp (s : pystr) : pystr * pystr :=
  match s with
  | c :: s' =>
      if (c =? 101) || (c =? 69) then
        match s' with
        | g :: s'' =>
            if (g =? 43) || (g =? 45)
            then match span_digits s'' with ([], _) => ([], s) | (d, r) => (c :: g :: d, r) end
            else match span_digits s' with ([], _) => ([], s) | (d, r) => (c :: d, r) end
        | [] => ([], s)
        end
      else ([], s)
  | [] => ([], [])
  end.
(** The integer part: [0], or digits that do not start with [0]. *)
Definition scan_int (s : pystr) : option (pystr * pystr) :=
  match s with
  | c :: s' => if c =? 48 then Some ([48], s') else if is_dig c then Some (span_digits s) else None
  | [] => None
  end.

Definition scan_number (s : pystr) : option (json * pystr) :=
  let (neg, s) := match s with c :: s' => if c =? 45 then (true, s') else (false, s) | [] => (false, s) end in
  '(i, r) ← scan_int s;
  let (f, r) := scan_frac r in
  let (e, r) := scan_exp r in
  match f, e with
  | [], [] =>
      if N.of_nat (length i) <=? 4300 then
        let n := Z.of_N (dec_value (map (λ c, c - 48) i)) in Some (JInt (if neg then - n else n)%Z, r)
      else None
  | _, _ => Some (JFloat (float_value ((if neg : bool then [45] else []) ++ i ++ f ++ e)), r)
  end.

(** [scan_once] and the two loops it calls; every call reads a character, so the
    length of the text is fuel enough. *)
Fixpoint scan_once (n : nat) (s : pystr) : option (json * pystr) :=
  match n, s with
  | S n, c :: r =>
      if c =? 34 then '(t, r) ← scan_string r; Some (JStr t, r)
      else if c =? 123 then
        match skip_ws r with
        | c' :: r' => if c' =? 125 then Some (JObj [], r') else scan_members n (c' :: r') []
        | [] => None
        end
      else if c =? 91 then
        match skip_ws r with
        | c' :: r' => if c' =? 93 then Some (JArr [], r') else scan_elements n (c' :: r') []
        | [] => None
        end
      else if starts_with (§"null") s then Some (JNull, drop 4 s)
      else if starts_with (§"true") s then Some (JBool true, drop 4 s)
      else if starts_with (§"false") s then Some (JBool false, drop 5 s)
      else scan_number s
  | _, _ => None
  end
with scan_elements (n : nat) (s : pystr) (acc : list json) : option (json * pystr) :=
  match n with
  | O => None
  | S n =>
      '(v, r) ← scan_once n s;
      match skip_ws r with
      | c :: r =>
          if c =? 93 then Some (JArr (acc ++ [v]), r)
          else if c =? 44 then scan_elements n (skip_ws r) (acc ++ [v])
          else None
      | [] => None
      end
  end
with scan_members (n : nat) (s : pystr) (acc : jdict) : option (json * pystr) :=
  match n, s with
  | S n, q :: r =>
      if q =? 34 then
        '(k, r) ← scan_string r;
        match skip_ws r with
        | c :: r =>
            if c =? 58 then
              '(v, r) ← scan_once n (skip_ws r);
              match skip_ws r with
              | c :: r =>
                  if c =? 125 then Some (JObj (dset k v acc), r)
                  else if c =? 44 then scan_members n (skip_ws r) (dset k v acc)
                  else None
              | [] => None
              end
            else None
        | [] => None
        end
      else None
  | _, _ => None
  end.

(** Whether the scan stops at an integer of more than 4300 digits, at which [int] raises a
    [ValueError] that is no [JSONDecodeError]. *)
Definition long_number (s : pystr) : bool :=
  match scan_int (match s with c :: s' => if c =? 45 then s' else s | [] => s end) with
  | Some (i, r) =>
      let (f, r) := scan_frac r in
      match f, (scan_exp r).1 with [], [] => 4300 <? N.of_nat (length i) | _, _ => false end
  | None => false
  end.
Fixpoint long_once (n : nat) (s : pystr) : bool :=
  match n, s with
  | S n, c :: r =>
      if c =? 34 then false
      else if c =? 123 then
        match skip_ws r with c' :: r' => if c' =? 125 then false else long_members n (c' :: r') | [] => false end
      else if c =? 91 then
        match skip_ws r with c' :: r' => if c' =? 93 then false else long_elements n (c' :: r') | [] => false end
      else if starts_with (§"null") s || starts_with (§"true") s || starts_with (§"false") s then false
      else long_number s
  | _, _ => false
  end
with long_elements (n : nat) (s : pystr) : bool :=
  match n with
  | O => false
  | S n =>
      if long_once n s then true else
      match scan_once n s with
      | Some (_, r) =>
          match skip_ws r with c :: r => if c =? 44 then long_elements n (skip_ws r) else false | [] => false end
      | None => false
      end
  end
with long_members (n : nat) (s : pystr) : bool :=
  match n, s with
  | S n, q :: r =>
      match (if q =? 34 then scan_string r else None) with
      | Some (_, r) =>
          match skip_ws r with
          | c :: r =>
              if negb (c =? 58) then false
              else if long_once n (skip_ws r) then true else
              match scan_once n (skip_ws r) with
              | Some (_, r) =>
                  match skip_ws r with c :: r => if c =? 44 then long_members n (skip_ws r) else false | [] => false end
              | None => false
              end
          | [] => false
          end
      | None => false
      end
  | _, _ => false
  end.

(** [json.loads(s)]: [None] is an exception, the [ValueError] of a long integer when
    [long_integer s] and a [JSONDecodeError] otherwise. *)
Definition long_integer (s : pystr) : bool :=
  if match s with c :: _ => c =? 65279 | [] => false end then false else long_once (length s) (skip_ws s).
Definition json_loads (s : pystr) : option json :=
  if match s with c :: _ => c =? 65279 | [] => false end then None
  else
    '(v, r) ← scan_once (length s) (skip_ws s);
    match skip_ws r with [] => Some v | _ => None end.
End text.

(** ** The two ways to fail *)

Section failing.
Context `{FloatText}.

(** A text that stops at a long integer is not read. *)
Lemma long_number_fails s : long_number s = true → scan_number s = None.
Proof.
  unfold long_number, scan_number. destruct s as [|c s]; [done|].
  destruct (c =? 45); destruct (scan_int _) as [[i r]|]; try done; cbn; destruct (scan_frac r) as [[|??] r1]; try done;
    destruct (scan_exp r1) as [[|??] r2]; try done; cbn; intros Hl%N.ltb_lt; by rewrite (proj2 (N.leb_gt _ _) Hl).
Qed.
Lemma long_scan_fails n :
  (∀ s, long_once n s = true → scan_once n s = None) ∧
  (∀ s acc, long_elements n s = true → scan_elements n s acc = None) ∧
  (∀ s acc, long_members n s = true → scan_members n s acc = None).
Proof.
  induction n as [|n (IHo & IHe & IHm)]; [done|]. split_and!.
  - intros [|c r]; [done|]. cbn [long_once scan_once]. destruct (c =? 34); [done|]. destruct (c =? 123).
    { destruct (skip_ws r) as [|c' r']; [done|]. destruct (c' =? 125); [done|]. apply IHm. }
    destruct (c =? 91).
    { destruct (skip_ws r) as [|c' r']; [done|]. destruct (c' =? 93); [done|]. apply IHe. }
    destruct (starts_with (§"null") _), (starts_with (§"true") _), (starts_with (§"false") _); try done. apply long_number_fails.
  - intros s acc. cbn [long_elements scan_elements]. destruct (long_once n s) eqn:El; [by rewrite (IHo _ El)|].
    destruct (scan_once n s) as [[v r]|]; [|done]. cbn. destruct (skip_ws r) as [|c r']; [done|].
    destruct (N.eqb_spec c 44) as [->|]; [apply IHe|done].
  - intros [|q r] acc; [done|]. cbn [long_members scan_members]. destruct (q =? 34); [|done].
    destruct (scan_string r) as [[k r1]|]; [|done]. cbn. destruct (skip_ws r1) as [|c r2]; [done|]. destruct (c =? 58); [|done]. cbn.
    destruct (long_once n (skip_ws r2)) eqn:El; [by rewrite (IHo _ El)|].
    destruct (scan_once n (skip_ws r2)) as [[v r3]|]; [|done]. cbn. destruct (skip_ws r3) as [|c' r4]; [done|].
    destruct (N.eqb_spec c' 44) as [->|]; [apply IHm|done].
Qed.
Lemma long_integer_fails s : long_integer s = true → json_loads s = None.
Proof.
  unfold long_integer, json_loads. destruct (match s with [] => _ | _ :: _ => _ end); [done|].
  intros ->%long_scan_fails. done.
Qed.
End failing.

(** ** UTF-8 there and back *)

(** Decide every numeric test of the goal. *)
Ltac ntests :=
  repeat match goal with
  | |- context [?a <? ?b] => first [rewrite (proj2 (N.ltb_lt a b)) by lia | rewrite (proj2 (N.ltb_ge a b)) by lia]
  | |- context [?a <=? ?b] => first [rewrite (proj2 (N.leb_le a b)) by lia | rewrite (proj2 (N.leb_gt a b)) by lia]
  | |- context [?a =? ?b] => first [rewrite (proj2 (N.eqb_eq a b)) by lia | rewrite (proj2 (N.eqb_neq a b)) by lia]
  end; cbn [andb orb negb].

Lemma utf8_char_decode c l : is_scalar c = true → utf8_decode (utf8_char c ++ l) = cons c <$> utf8_decode l.
Proof.
  unfold is_scalar. intros [Hhi%N.ltb_lt Hsur%negb_true_iff]%andb_true_iff. unfold utf8_char.
  pose proof (N.Div0.div_mod c 64). pose proof (N.mod_lt c 64).
  pose proof (N.Div0.div_mod (c / 64) 64) as H1. pose proof (N.mod_lt (c / 64) 64).
  pose proof (N.Div0.div_mod (c / 4096) 64) as H3. pose proof (N.mod_lt (c / 4096) 64).
  rewrite N.Div0.div_div in H1, H3. change (64 * 64) with 4096 in H1. change (4096 * 64) with 262144 in H3.
  revert H1 H3. set (a := c / 64) in *. set (b := c / 4096) in *. set (d := c / 262144) in *.
  set (x := c mod 64) in *. set (y := a mod 64) in *. set (z := b mod 64) in *.
  clearbody a b d x y z. intros.
  destruct (c <? 128) eqn:E1; [rewrite N.ltb_lt in E1; cbn [app utf8_decode]; by ntests|].
  destruct (c <? 2048) eqn:E2; [|destruct (c <? 65536) eqn:E3]; rewrite ?N.ltb_lt, ?N.ltb_ge in *;
    cbn [app utf8_decode]; cbv zeta; unfold is_tail;
    match goal with |- context [cons ?e <$> utf8_decode l] => replace e with c by lia end;
    rewrite ?Hsur; by ntests.
Qed.

Lemma utf8_roundtrip s b : utf8_encode s = Ok b → utf8_decode b = Some s.
Proof.
  unfold utf8_encode. destruct (forallb is_scalar s) eqn:Hs; [|done]. intros [= <-].
  rewrite forallb_Forall_true in Hs. induction Hs as [|c s Hc _ IH]; [done|].
  cbn [map concat]. by rewrite utf8_char_decode, IH.
Qed.

(** ** Strings there and back *)

Lemma hex_digit_value d : d < 16 → hex_value (hex_digit d) = Some d.
Proof.
  intros Hd. unfold hex_digit, hex_value. destruct (d <? 10) eqn:E; rewrite ?N.ltb_lt, ?N.ltb_ge in E; ntests; f_equal; lia.
Qed.

Lemma hex4_low c : c < 32 → hex4 48 48 (hex_digit (c / 16)) (hex_digit (c mod 16)) = Some c.
Proof.
  intros Hc. unfold hex4. rewrite !hex_digit_value by (try apply N.mod_lt; try apply N.Div0.div_lt_upper_bound; lia).
  change (hex_value 48) with (Some 0). cbn [mbind option_bind]. f_equal. pose proof (N.Div0.div_mod c 16). lia.
Qed.

Lemma scan_low u s : u < 32 →
  match s with
  | b :: e' :: l1 :: l2 :: l3 :: l4 :: s' =>
      if (55296 <=? u) && (u <=? 56319) && (b =? 92) && (e' =? 117) then
        u2 ← hex4 l1 l2 l3 l4;
        if (56320 <=? u2) && (u2 <=? 57343)
        then put (65536 + 1024 * (u - 55296) + (u2 - 56320)) (scan_string s')
        else put u (scan_string s)
      else put u (scan_string s)
  | _ => put u (scan_string s)
  end = put u (scan_string s).
Proof. intros Hu. do 6 (destruct s as [|? s]; [done|]). by rewrite (proj2 (N.leb_gt 55296 u)) by lia. Qed.

Lemma scan_escaped c s : scan_string (escape_char c ++ s) = put c (scan_string s).
Proof.
  unfold escape_char.
  repeat match goal with |- context [if c =? ?k then _ else _] => destruct (N.eqb_spec c k); [subst; reflexivity|] end.
  destruct (N.ltb_spec c 32) as [Hc|Hc].
  - cbn [app scan_string]. change (92 =? 34) with false. change (92 =? 92) with true. change (117 =? 117) with true.
    cbv iota. rewrite hex4_low by done. cbn [mbind option_bind]. by apply scan_low.
  - cbn [app scan_string]. by ntests.
Qed.

Lemma scan_dumped s rest : scan_string (concat (map escape_char s) ++ 34 :: rest) = Some (s, rest).
Proof.
  induction s as [|c s IH]; [done|]. cbn [map concat]. by rewrite <- app_assoc, scan_escaped, IH.
Qed.

(** ** Numbers there and back *)

(** What may follow a number without being read as part of it. *)
Definition continues (c : N) : bool := is_dig c || (c =? 46) || (c =? 101) || (c =? 69).
Definition stops (s : pystr) : bool := match s with c :: _ => negb (continues c) | [] => true end.

Lemma span_digits_app ds s : forallb is_dig ds = true → match s with c :: _ => is_dig c = false | [] => True end →
  span_digits (ds ++ s) = (ds, s).
Proof.
  intros Hd Hs. induction ds as [|c ds IH]; cbn.
  - destruct s as [|c s]; [done|]. cbn. by rewrite Hs.
  - cbn in Hd. apply andb_true_iff in Hd as [Hc Hd]. by rewrite Hc, IH.
Qed.

Lemma stops_not_digit s : stops s = true → match s with c :: _ => is_dig c = false | [] => True end.
Proof. destruct s as [|c s]; [done|]. cbn. unfold continues. intros Hs. bools. by destruct (is_dig c). Qed.
Lemma stops_no_frac s : stops s = true → scan_frac s = ([], s).
Proof. destruct s as [|c s]; [done|]. cbn. unfold continues. intros Hs. bools. by destruct (c =? 46). Qed.
Lemma stops_no_exp s : stops s = true → scan_exp s = ([], s).
Proof.
  destruct s as [|c s]; [done|]. cbn. unfold continues. intros Hs. bools. by destruct (c =? 101), (c =? 69).
Qed.

Lemma is_dig_dec d : d < 10 → is_dig (d + 48) = true.
Proof. intros Hd. unfold is_dig. by ntests. Qed.

Lemma str_of_N_digs n : forallb is_dig (str_of_N n) = true.
Proof.
  apply forallb_Forall_true. eapply Forall_impl; [apply str_of_N_digits|]. cbn beta. intros c Hc. unfold is_dig. by ntests.
Qed.

Lemma dec_go_head fuel n acc : 0 < n → n < 2 ^ N.of_nat fuel → ∃ d l, dec_go fuel n acc = d :: l ∧ 0 < d < 10.
Proof.
  revert n acc. induction fuel as [|fuel IH]; intros n acc Hn Hb; [cbn in Hb; lia|]. cbn [dec_go].
  destruct (N.ltb_spec n 10); [by eexists _, _|]. apply IH.
  - apply N.div_str_pos. lia.
  - rewrite Nat2N.inj_succ, N.pow_succ_r' in Hb. apply N.Div0.div_lt_upper_bound. lia.
Qed.
Lemma str_of_N_head n : 0 < n → ∃ c l, str_of_N n = c :: l ∧ 48 < c < 58.
Proof.
  intros Hn. destruct (dec_go_head (S (N.to_nat (N.size n))) n [] Hn (size_nat_bound n)) as (d & l & E & Hd).
  unfold str_of_N. rewrite E. cbn. eexists _, _. split; [done|lia].
Qed.
Lemma str_of_N_value n : dec_value (map (λ c, c - 48) (str_of_N n)) = n.
Proof.
  unfold str_of_N. rewrite map_map, (map_ext _ id), map_id by (intros; cbn; lia).
  rewrite dec_go_value; [done|apply size_nat_bound|lia].
Qed.

(** The digits of a positive number are read whole. *)
Lemma scan_int_N p s : match s with c :: _ => is_dig c = false | [] => True end →
  scan_int (str_of_N (N.pos p) ++ s) = Some (str_of_N (N.pos p), s).
Proof.
  intros Hs. destruct (str_of_N_head (N.pos p)) as (c & l & E & Hc); [lia|].
  pose proof (span_digits_app _ s (str_of_N_digs (N.pos p)) Hs) as Hsp. rewrite E in *. cbn [app] in *. unfold scan_int.
  unfold is_dig at 1. ntests. by rewrite Hsp.
Qed.

Section numbers.
Context `{FloatText}.

Lemma scan_number_signed neg i r : match i ++ r with c :: _ => c ≠ 45 | [] => True end →
  scan_number ((if neg : bool then [45] else []) ++ i ++ r) =
  ('(i, r) ← scan_int (i ++ r);
   let (f, r) := scan_frac r in
   let (e, r) := scan_exp r in
   match f, e with
   | [], [] =>
       if N.of_nat (length i) <=? 4300 then
         let n := Z.of_N (dec_value (map (λ c, c - 48) i)) in Some (JInt (if neg then - n else n)%Z, r)
       else None
   | _, _ => Some (JFloat (float_value ((if neg : bool then [45] else []) ++ i ++ f ++ e)), r)
   end).
Proof.
  intros Hi. unfold scan_number. destruct neg; [done|]. cbn [app]. destruct (i ++ r) as [|c l]; [done|].
  by rewrite (proj2 (N.eqb_neq c 45) Hi).
Qed.

Lemma scan_int_number neg p rest : stops rest = true → int_printable (Z.pos p) = true →
  scan_number ((if neg : bool then [45] else []) ++ str_of_N (N.pos p) ++ rest) =
  Some (JInt (if neg then Z.neg p else Z.pos p), rest).
Proof.
  intros Hs Hp. rewrite scan_number_signed.
  - rewrite scan_int_N by (by apply stops_not_digit). cbn [mbind option_bind].
    rewrite stops_no_frac, stops_no_exp by done. unfold int_printable in Hp. cbn [Z.abs_N] in Hp.
    rewrite Hp, str_of_N_value. by destruct neg.
  - destruct (str_of_N_head (N.pos p)) as (c & l & -> & Hc); [lia|]. cbn. lia.
Qed.

Lemma scan_dumped_int z rest : stops rest = true → int_printable z = true →
  scan_number (str_of_Z z ++ rest) = Some (JInt z, rest).
Proof.
  intros Hs Hp. destruct z as [|p|p]; cbn [str_of_Z].
  - unfold scan_number. cbn [app]. change (48 =? 45) with false. cbn [scan_int]. change (48 =? 48) with true.
    cbn [mbind option_bind]. by rewrite stops_no_frac, stops_no_exp.
  - exact (scan_int_number false p rest Hs Hp).
  - exact (scan_int_number true p rest Hs Hp).
Qed.

(** The text of a float: a number with a fraction or an exponent. *)
Definition frac_text (f : pystr) : Prop := f = [] ∨ ∃ d, f = 46 :: d ∧ d ≠ [] ∧ forallb is_dig d = true.
Definition exp_text (e : pystr) : Prop := e = [] ∨ ∃ x g d,
  e = x :: g ++ d ∧ x ∈ [101; 69] ∧ g ∈ [[]; [43]; [45]] ∧ d ≠ [] ∧ forallb is_dig d = true.
Definition float_text (t : pystr) : Prop := ∃ (neg : bool) i f e,
  t = (if neg then [45] else []) ++ i ++ f ++ e ∧ scan_int i = Some (i, []) ∧ frac_text f ∧ exp_text e ∧ f ++ e ≠ [].

Definition no_digit (s : pystr) : Prop := match s with c :: _ => is_dig c = false | [] => True end.

Lemma scan_int_app i s : scan_int i = Some (i, []) → no_digit s → scan_int (i ++ s) = Some (i, s).
Proof.
  intros Hi Hs. destruct i as [|c i]; [done|]. unfold scan_int in *. cbn [app].
  destruct (c =? 48); [by simplify_eq|]. destruct (is_dig c) eqn:Hc; [|done].
  f_equal. change (c :: i ++ s) with ((c :: i) ++ s). apply span_digits_app; [|done].
  apply (inj Some) in Hi. revert Hi Hc. generalize (c :: i) as l. clear. intros l Hi _.
  assert (∀ l, forallb is_dig (span_digits l).1 = true) as Hall.
  { clear. induction l as [|c l IH]; [done|]. cbn. destruct (is_dig c) eqn:Hc; [|done].
    destruct (span_digits l). cbn in *. by rewrite Hc, IH. }
  specialize (Hall l). by rewrite Hi in Hall.
Qed.

Lemma scan_frac_app f s : frac_text f → no_digit s → match s with c :: _ => c ≠ 46 | [] => True end →
  scan_frac (f ++ s) = (f, s).
Proof.
  intros [->|(d & -> & Hd & Hdig)] Hs Hp; cbn [app].
  - destruct s as [|c s]; [done|]. cbn [scan_frac]. by rewrite (proj2 (N.eqb_neq c 46) Hp).
  - cbn [scan_frac]. change (46 =? 46) with true. cbv iota. rewrite span_digits_app by done. by destruct d.
Qed.

Lemma scan_exp_app e s : exp_text e → stops s = true → scan_exp (e ++ s) = (e, s).
Proof.
  intros [->|(x & g & d & -> & Hx & Hg & Hd & Hdig)] Hs; [by apply stops_no_exp|].
  assert ((x =? 101) || (x =? 69) = true) as Hxe.
  { apply elem_of_cons in Hx as [->|[->|[]%elem_of_nil]%elem_of_cons]; done. }
  pose proof (span_digits_app d s Hdig (stops_not_digit s Hs)) as Hsp.
  cbn [app scan_exp]. rewrite Hxe, <- app_assoc.
  apply elem_of_cons in Hg as [->|[->|[->|[]%elem_of_nil]%elem_of_cons]%elem_of_cons]; cbn [app];
    [|change (43 =? 43) with true|change (45 =? 43) with false; change (45 =? 45) with true]; cbn [orb].
  2,3: rewrite Hsp; by destruct d.
  destruct d as [|c d]; [done|]. cbn [app] in *. cbn [forallb] in Hdig. apply andb_true_iff in Hdig as [Hc _].
  unfold is_dig in Hc. bools. rewrite !N.leb_le in *.
  rewrite (proj2 (N.eqb_neq c 43)), (proj2 (N.eqb_neq c 45)) by lia. cbn [orb]. by rewrite Hsp.
Qed.

Lemma after_int_no_digit f e s : frac_text f → exp_text e → f ++ e ≠ [] → no_digit (f ++ e ++ s).
Proof.
  intros [->|(d & -> & _)] [->|(x & g & d' & -> & Hx & _)] Hne; try done.
  cbn. apply elem_of_cons in Hx as [->|[->|[]%elem_of_nil]%elem_of_cons]; done.
Qed.
Lemma exp_then_stops e s : exp_text e → stops s = true →
  no_digit (e ++ s) ∧ match e ++ s with c :: _ => c ≠ 46 | [] => True end.
Proof.
  intros [->|(x & g & d & -> & Hx & _)] Hs; cbn [app].
  - split; [by apply stops_not_digit|]. destruct s as [|c s]; [done|]. cbn in Hs. unfold continues in Hs. bools.
    by apply N.eqb_neq.
  - apply elem_of_cons in Hx as [->|[->|[]%elem_of_nil]%elem_of_cons]; split; done.
Qed.

Lemma scan_float t s : float_text t → stops s = true → scan_number (t ++ s) = Some (JFloat (float_value t), s).
Proof.
  intros (neg & i & f & e & -> & Hi & Hf & He & Hne) Hs. rewrite <- !app_assoc, scan_number_signed.
  - rewrite scan_int_app by (try done; by apply after_int_no_digit). cbn [mbind option_bind].
    destruct (exp_then_stops e s He Hs). rewrite scan_frac_app, scan_exp_app by done.
    destruct f, e; done.
  - destruct i as [|c i]; [done|]. cbn. intros ->. done.
Qed.

(** The documented laws of [float]: what [repr] writes reads back the same. *)
Class FloatLaws (double : Q → bool) := {
  float_repr_text q : double q = true → float_text (float_repr q);
  float_repr_value q : double q = true → float_value (float_repr q) = q;
}.
End numbers.

(** ** Documents there and back *)

Section json_induction.
Context (P : json → Prop) (Hnull : P JNull) (Hbool : ∀ b, P (JBool b)) (Hint : ∀ z, P (JInt z))
  (Hfloat : ∀ q, P (JFloat q)) (Hstr : ∀ s, P (JStr s)) (Harr : ∀ l, Forall P l → P (JArr l))
  (Hobj : ∀ d, Forall (λ kv, P kv.2) d → P (JObj d)).

Fixpoint json_induction (v : json) : P v :=
  match v with
  | JNull => Hnull
  | JBool b => Hbool b
  | JInt z => Hint z
  | JFloat q => Hfloat q
  | JStr s => Hstr s
  | JArr l => Harr l ((fix go l : Forall P l :=
                         match l with [] => Forall_nil_2 _ | v :: l => Forall_cons_2 _ _ _ (json_induction v) (go l) end) l)
  | JObj d => Hobj d ((fix go d : Forall (λ kv, P kv.2) d :=
                         match d with
                         | [] => Forall_nil_2 _
                         | kv :: d => Forall_cons_2 (λ kv, P kv.2) kv d (json_induction kv.2) (go d)
                         end) d)
  end.
End json_induction.

Section documents.
Context `{FloatText} (double : Q → bool) {Hfloats : FloatLaws double}.

(** The documents Python builds: no key twice, every float a double. *)
Fixpoint json_ok (v : json) : bool :=
  match v with
  | JFloat q => double q
  | JArr l => forallb json_ok l
  | JObj d => bool_decide (NoDup (dkeys d)) && forallb (λ kv, json_ok kv.2) d
  | _ => true
  end.

(** The first character of a document is no space, no closing bracket and no
    byte order mark. *)
Definition opening (c : N) : bool := negb (is_ws c || (c =? 93) || (c =? 65279)).

Lemma digit_opening c : is_dig c = true → opening c = true.
Proof. unfold is_dig, opening, is_ws. intros Hc. bools. rewrite !N.leb_le in *. by ntests. Qed.

Lemma number_starts i r : scan_int i = Some (i, r) → ∃ c l, i = c :: l ∧ is_dig c = true.
Proof.
  destruct i as [|c i]; [done|]. unfold scan_int. destruct (N.eqb_spec c 48) as [->|]; [by eexists _, _|].
  destruct (is_dig c) eqn:E; [|done]. by eexists _, _.
Qed.

(** A document is told by its first character: a number's is a digit or a sign. *)
Definition numeric (c : N) : bool := is_dig c || (c =? 45).
Lemma str_of_Z_starts z : ∃ c l, str_of_Z z = c :: l ∧ numeric c = true.
Proof.
  destruct z as [|p|p]; cbn [str_of_Z]; [by eexists _, _| |by eexists _, _].
  destruct (str_of_N_head (N.pos p)) as (c & l & -> & Hc); [lia|]. eexists _, _. split; [done|].
  unfold numeric, is_dig. by ntests.
Qed.
Lemma float_text_starts t : float_text t → ∃ c l, t = c :: l ∧ numeric c = true.
Proof.
  intros (neg & i & f & e & -> & (c & l & -> & Hc)%number_starts & _). destruct neg; [by eexists _, _|].
  eexists _, _. split; [done|]. unfold numeric. by rewrite Hc.
Qed.
Lemma numeric_opening c : numeric c = true → opening c = true.
Proof. unfold numeric. intros [?| ->%N.eqb_eq]%orb_true_iff; [by apply digit_opening|done]. Qed.

Lemma dump_opens v : json_ok v = true → ∃ c l, dump v = c :: l ∧ opening c = true.
Proof using Hfloats.
  intros Hv. destruct v as [|[]|z|q|s|l|d]; try (by eexists _, _).
  - destruct (str_of_Z_starts z) as (c & l & E & Hc). cbn. rewrite E. eauto using numeric_opening.
  - destruct (float_text_starts (float_repr q)) as (c & l & E & Hc); [by apply float_repr_text|].
    cbn. rewrite E. eauto using numeric_opening.
Qed.

(** Reading a number where a document is expected. *)
Lemma scan_once_numeric n c l : numeric c = true → scan_once (S n) (c :: l) = scan_number (c :: l).
Proof.
  intros Hc. assert (c = 45 ∨ 48 <= c <= 57) as Hr.
  { unfold numeric, is_dig in Hc. apply orb_true_iff in Hc as [Hc|Hc]; [|apply N.eqb_eq in Hc; by left].
    bools. rewrite !N.leb_le in *. lia. }
  assert (∀ k t, 58 <= k → starts_with (k :: t) (c :: l) = false) as Hlit.
  { intros k t Hk. cbn. by ntests. }
  cbn [scan_once]. ntests.
  assert (starts_with (§"null") (c :: l) = false) as -> by (apply (Hlit 110 (§"ull")); lia).
  assert (starts_with (§"true") (c :: l) = false) as -> by (apply (Hlit 116 (§"rue")); lia).
  by assert (starts_with (§"false") (c :: l) = false) as -> by (apply (Hlit 102 (§"alse")); lia).
Qed.

Lemma skip_ws_opening s c l : s = c :: l → opening c = true → skip_ws s = s.
Proof. intros -> Hc. cbn. unfold opening in Hc. bools. by destruct (is_ws c). Qed.

(** A document is read back from its text, whatever follows. *)
Definition reads_back (v : json) : Prop := ∀ n rest, (length (dump v) ≤ n)%nat → stops rest = true →
  scan_once n (dump v ++ rest) = Some (v, rest).

Lemma join_cons_app w ws s : join_with (§", ") (w :: ws) ++ s =
  w ++ match ws with [] => s | _ => 44 :: 32 :: join_with (§", ") ws ++ s end.
Proof. destruct ws; [done|]. cbn [join_with]. by rewrite <- !app_assoc. Qed.

Lemma scan_elements_dumped l : Forall reads_back l → Forall (λ v, json_ok v = true) l → l ≠ [] → ∀ n acc rest,
  (length (join_with (§", ") (map dump l)) < n)%nat →
  scan_elements n (join_with (§", ") (map dump l) ++ 93 :: rest) acc = Some (JArr (acc ++ l), rest).
Proof using Hfloats.
  induction 1 as [|v l Hv _ IH]; [done|]. intros [Hok Hoks]%Forall_cons_1 _ n acc rest Hn. cbn [map].
  destruct n as [|n]; [lia|]. rewrite join_cons_app. cbn [scan_elements].
  pose proof (join_cons_app (dump v) (map dump l) []) as Hlen. rewrite app_nil_r in Hlen. cbn [map] in Hn.
  rewrite Hlen, length_app in Hn. rewrite Hv; [|lia|by destruct l]. cbn [mbind option_bind].
  destruct l as [|v' l]; [done|]. cbn [map] in *. cbn [skip_ws]. change (is_ws 44) with false. cbv iota.
  change (44 =? 93) with false. change (44 =? 44) with true. cbv iota. cbn [skip_ws]. change (is_ws 32) with true. cbv iota.
  apply Forall_cons_1 in Hoks as Hoks'. destruct Hoks' as [Hok' _]. destruct (dump_opens v' Hok') as (c & t & Ec & Hc).
  rewrite (skip_ws_opening _ c (t ++ match map dump l with [] => 93 :: rest | _ => 44 :: 32 :: join_with (§", ") (map dump l) ++ 93 :: rest end));
    [|by rewrite join_cons_app, Ec|done].
  cbn [length] in Hn. rewrite length_app in Hn. cbn [length] in Hn.
  rewrite IH by (try done; lia). by rewrite <- app_assoc.
Qed.

Abbreviation member kv := (dump_str kv.1 ++ §": " ++ dump kv.2).

Lemma scan_member n k v s acc : reads_back v → json_ok v = true → (length (dump v) ≤ n)%nat → stops s = true →
  scan_members (S n) (member (k, v) ++ s) acc =
  match skip_ws s with
  | c :: r => if c =? 125 then Some (JObj (dset k v acc), r)
              else if c =? 44 then scan_members n (skip_ws r) (dset k v acc) else None
  | [] => None
  end.
Proof using Hfloats.
  intros Hv Hok Hn Hs. cbn [fst snd]. unfold dump_str. cbn [app scan_members]. change (34 =? 34) with true. cbv iota.
  rewrite <- !app_assoc. change ([34] ++ §": " ++ dump v ++ s) with (34 :: 58 :: 32 :: dump v ++ s).
  rewrite scan_dumped. cbn [mbind option_bind skip_ws]. change (is_ws 58) with false. cbv iota.
  change (58 =? 58) with true. cbv iota. change (skip_ws (32 :: dump v ++ s)) with (skip_ws (dump v ++ s)).
  destruct (dump_opens v Hok) as (c & t & Ec & Hc).
  rewrite (skip_ws_opening _ c (t ++ s)); [|by rewrite Ec|done]. by rewrite Hv.
Qed.

Lemma scan_members_dumped d : Forall (λ kv, reads_back kv.2) d → Forall (λ kv, json_ok kv.2 = true) d → d ≠ [] →
  ∀ n acc rest, dict_wf (acc ++ d) → (length (join_with (§", ") (map (λ kv, member kv) d)) < n)%nat →
  scan_members n (join_with (§", ") (map (λ kv, member kv) d) ++ 125 :: rest) acc = Some (JObj (acc ++ d), rest).
Proof using Hfloats.
  induction 1 as [|[k v] d Hv _ IH]; [done|]. intros [Hok Hoks]%Forall_cons_1 _ n acc rest Hwf Hn. cbn [map] in *.
  destruct n as [|n]; [lia|]. pose proof (join_cons_app (member (k, v)) (map (λ kv, member kv) d) []) as Hlen.
  rewrite app_nil_r in Hlen. rewrite Hlen, !length_app in Hn. rewrite join_cons_app.
  rewrite scan_member; [|done|done|cbn in *; lia|by destruct d].
  assert (dget k acc = None) as Hk.
  { apply dget_None. unfold dict_wf, dkeys in Hwf. rewrite fmap_app in Hwf. apply NoDup_app in Hwf as (_ & Hd & _).
    intros Hin. apply (Hd k Hin). by left. }
  rewrite dset_new by done. destruct d as [|[k' v'] d]; [done|]. cbn [map] in *.
  cbn [skip_ws]. change (is_ws 44) with false. cbv iota. change (44 =? 125) with false. change (44 =? 44) with true. cbv iota.
  cbn [skip_ws]. change (is_ws 32) with true. cbv iota.
  rewrite (skip_ws_opening _ 34 (tail (join_with (§", ") (member (k', v') :: map (λ kv, member kv) d) ++ 125 :: rest)));
    [|by rewrite join_cons_app|done].
  cbn [length] in Hn. rewrite length_app in Hn. cbn [length] in Hn.
  rewrite IH; [by rewrite <- app_assoc|done|done|by rewrite <- app_assoc|lia].
Qed.

Lemma scan_array n l rest : Forall reads_back l → Forall (λ v, json_ok v = true) l →
  (length (dump (JArr l)) ≤ n)%nat → scan_once n (dump (JArr l) ++ rest) = Some (JArr l, rest).
Proof using Hfloats.
  intros Hl Hok Hn. cbn [dump length] in Hn. rewrite length_app in Hn. cbn [length] in Hn. destruct n as [|n]; [lia|].
  cbn [dump app scan_once]. change (91 =? 34) with false. change (91 =? 123) with false. change (91 =? 91) with true.
  cbv iota. rewrite <- app_assoc. cbn [app]. destruct l as [|v l]; [done|].
  destruct (dump_opens v (Forall_inv Hok)) as (c & t & Ec & Hc).
  set (text := join_with _ _ ++ _). assert (∃ t', text = c :: t') as [t' Et].
  { unfold text. cbn [map]. rewrite join_cons_app, Ec. by eexists. }
  rewrite (skip_ws_opening _ c t' Et Hc), Et. unfold opening in Hc. bools.
  destruct (c =? 93); [done|]. rewrite <- Et. unfold text. by rewrite scan_elements_dumped by (try done; lia).
Qed.

Lemma scan_object n d rest : Forall (λ kv, reads_back kv.2) d → Forall (λ kv, json_ok kv.2 = true) d → dict_wf d →
  (length (dump (JObj d)) ≤ n)%nat → scan_once n (dump (JObj d) ++ rest) = Some (JObj d, rest).
Proof using Hfloats.
  intros Hd Hok Hwf Hn. cbn [dump length] in Hn. rewrite length_app in Hn. cbn [length] in Hn. destruct n as [|n]; [lia|].
  cbn [dump app scan_once]. change (123 =? 34) with false. change (123 =? 123) with true.
  cbv iota. rewrite <- app_assoc. cbn [app]. destruct d as [|kv d]; [done|].
  set (text := join_with _ _ ++ _). assert (∃ t', text = 34 :: t') as [t' Et].
  { unfold text. cbn [map]. rewrite join_cons_app. by eexists. }
  rewrite (skip_ws_opening _ 34 t' Et eq_refl), Et. change (34 =? 125) with false. cbv iota.
  rewrite <- Et. unfold text. by rewrite scan_members_dumped by (try done; lia).
Qed.

Lemma dump_reads_back v : json_ok v = true → printable v = true → reads_back v.
Proof using Hfloats.
  induction v as [|b|z|q|s|l IH|d IH] using json_induction; intros Hok Hp n rest Hn Hs.
  - destruct n as [|n]; [by inversion Hn|]. done.
  - destruct n as [|n]; [by destruct b; inversion Hn|]. by destruct b.
  - cbn [dump] in *. destruct (str_of_Z_starts z) as (c & t & E & Hc). destruct n as [|n]; [rewrite E in Hn; cbn in Hn; lia|].
    pose proof (scan_dumped_int z rest Hs Hp) as Hr. rewrite E in *. cbn [app] in *. by rewrite scan_once_numeric.
  - cbn [dump] in *. pose proof (float_repr_text q Hok) as Hf. destruct (float_text_starts _ Hf) as (c & t & E & Hc).
    destruct n as [|n]; [rewrite E in Hn; cbn in Hn; lia|]. pose proof (scan_float _ rest Hf Hs) as Hr.
    rewrite float_repr_value in Hr by done. rewrite E in *. cbn [app] in *. by rewrite scan_once_numeric.
  - cbn [dump] in *. destruct n as [|n]; [cbn in Hn; lia|]. unfold dump_str. cbn [app scan_once]. change (34 =? 34) with true.
    cbv iota. rewrite <- app_assoc. cbn [app]. by rewrite scan_dumped.
  - cbn [json_ok printable] in *. rewrite forallb_Forall_true in Hok, Hp.
    apply scan_array; [rewrite Forall_forall in *; eauto|done|done].
  - cbn [json_ok printable] in *. apply andb_true_iff in Hok as [Hwf%bool_decide_eq_true Hok].
    rewrite forallb_Forall_true in Hok, Hp. apply scan_object; [rewrite Forall_forall in *; eauto|done|done|done].
Qed.

(** What [json.dumps] writes, [json.loads] reads. *)
Lemma loads_dumps v t : json_ok v = true → json_dumps v = Ok t → json_loads t = Some v.
Proof using Hfloats.
  intros Hok. unfold json_dumps. destruct (printable v) eqn:Hp; [|done]. intros [= <-].
  destruct (dump_opens v Hok) as (c & l & Ec & Hc). unfold json_loads.
  pose proof (dump_reads_back v Hok Hp (length (dump v)) [] (le_n _) eq_refl) as Hr. rewrite app_nil_r in Hr.
  rewrite (skip_ws_opening _ c l Ec Hc), Hr. cbn [mbind option_bind skip_ws].
  rewrite Ec. unfold opening in Hc. bools. by destruct (c =? 65279).
Qed.
End documents.

(** Floats for evaluation: the whole numbers, written with one decimal. *)
Module WholeFloats.
Definition whole (q : Q) : bool := bool_decide (Qden q = 1%positive).
Definition read_whole (t : pystr) : Z :=
  match (partition_on 46 t).1 with
  | c :: ds => if c =? 45 then (- Z.of_N (dec_value (map (λ c, (c - 48)%N) ds)))%Z
               else Z.of_N (dec_value (map (λ c, c - 48) (c :: ds)))
  | [] => 0%Z
  end.
Definition whole_text : FloatText :=
  {| float_repr q := str_of_Z (Qnum q) ++ §".0"; float_value t := inject_Z (read_whole t) |}.

Lemma scan_int_printed z : ∃ neg i, str_of_Z z = (if neg : bool then [45] else []) ++ i ∧ scan_int i = Some (i, []) ∧
  z = (if neg then - Z.of_N (dec_value (map (λ c, (c - 48)%N) i)) else Z.of_N (dec_value (map (λ c, (c - 48)%N) i)))%Z ∧
  forallb is_dig i = true.
Proof.
  destruct z as [|p|p]; cbn [str_of_Z].
  - by exists false, [48].
  - exists false, (str_of_N (N.pos p)). pose proof (scan_int_N p [] I) as Hs. rewrite app_nil_r in Hs.
    rewrite str_of_N_value. repeat split; [done|apply str_of_N_digs].
  - exists true, (str_of_N (N.pos p)). pose proof (scan_int_N p [] I) as Hs. rewrite app_nil_r in Hs.
    rewrite str_of_N_value. repeat split; [done|apply str_of_N_digs].
Qed.

#[local] Existing Instance whole_text.
#[export] Instance whole_laws : FloatLaws whole.
Proof.
  split.
  - intros q _. destruct (scan_int_printed (Qnum q)) as (neg & i & E & Hi & _). exists neg, i, (§".0"), [].
    cbn [float_repr whole_text]. rewrite E, app_nil_r, <- app_assoc. repeat split; [done| |by left|done].
    right. by exists [48].
  - intros [z d] Hq%bool_decide_eq_true. cbn in Hq. subst d. cbn [float_repr float_value whole_text Qnum].
    unfold inject_Z. f_equal. destruct (scan_int_printed z) as (neg & i & -> & Hi & Hz & Hd). unfold read_whole.
    assert (46 ∉ i) as Hno.
    { intros Hin. rewrite forallb_Forall_true, Forall_forall in Hd. by specialize (Hd _ Hin). }
    destruct i as [|c i]; [done|]. destruct neg; cbn [app].
    + change (45 :: c :: i ++ §".0") with ((45 :: c :: i) ++ 46 :: [48]). rewrite partition_on_found; [by cbn|].
      apply not_elem_of_cons. by split.
    + change (c :: i ++ §".0") with ((c :: i) ++ 46 :: [48]). rewrite partition_on_found by done.
      cbn [fst]. cbn [forallb] in Hd. apply andb_true_iff in Hd as [Hc _]. unfold is_dig in Hc. bools. rewrite N.leb_le in *.
      rewrite (proj2 (N.eqb_neq c 45)) by lia. by rewrite Hz.
Qed.
End WholeFloats.

Lemma str_of_Z_inj z z' : str_of_Z z = str_of_Z z' → z = z'.
Proof.
  intros E. assert (inject_Z z = inject_Z z') as [= ->]; [|done].
  rewrite <- (@float_repr_value WholeFloats.whole_text _ WholeFloats.whole_laws (inject_Z z)) by done.
  rewrite <- (@float_repr_value WholeFloats.whole_text _ WholeFloats.whole_laws (inject_Z z')) by done.
  cbn [float_repr WholeFloats.whole_text inject_Z Qnum]. by rewrite E.
Qed.
