(* ===== verification/Env.v ===== *)
(** * The process environment and its switches

    The machine a call runs on ([os.environ], the two clocks) and the readers
    of configuration switches: [_enabled] (server/security.py), [_int_env] and
    [_visitor_rate_env] (server/identity.py).  One call sees one instant. *)

From Stdlib Require Import QArith.
From S2P Require Import Prelude PyStr.
From stdpp Require Import prelude gmap list strings.

(** What a call reads of its surroundings.  [wall] is [datetime.now()] in
    microseconds since the epoch, [mono] is [time.monotonic()] in seconds. *)
Record machine := {
  environ : gmap pystr pystr;
  wall : Z;
  mono : Q;
  (** [/.dockerenv] or [/run/.containerenv] exists *)
  container_marker : bool;
  (** the text of [/proc/1/cgroup], when it can be read *)
  cgroup : option pystr;
}.

Section switches.
Context `{Unicode}.
Implicit Types (m : machine).

Definition _NEGATIVE : list pystr := [§""; §"0"; §"false"; §"no"; §"off"].

Definition _enabled m (name : pystr) (default : bool) : bool :=
  match environ m !! name with
  | None => default
  | Some raw => bool_decide (str_lower (strip raw) ∉ _NEGATIVE)
  end.

Definition _int_env m (name : pystr) (default : Z) : Z :=
  match environ m !! name with
  | None => default
  | Some raw =>
      match int_of_str (strip raw) with
      | None => default
      | Some value => if Z.ltb 0 value then value else default
      end
  end.

Definition _visitor_rate_env m (name : pystr) (default : Z) : Z :=
  let value :=
    match environ m !! name with
    | None | Some [] => Some default
    | Some raw => int_of_str raw
    end in
  match value with
  | None => default
  | Some v => if Z.ltb 0 v then v else default
  end.

(** A switch reads as off exactly when the operator typed one of the explicit
    negatives: every other spelling, a typo included, leaves it on. *)
Lemma _enabled_off m name default raw :
  environ m !! name = Some raw →
  _enabled m name default = false ↔ str_lower (strip raw) ∈ _NEGATIVE.
Proof.
  unfold _enabled. intros ->. rewrite bool_decide_eq_false.
  destruct (decide (str_lower (strip raw) ∈ _NEGATIVE)); naive_solver.
Qed.

(** A numeric setting is positive whatever the operator typed, as long as its
    default is: a malformed or non-positive value falls back. *)
Lemma _int_env_pos m name default : (0 < default)%Z → (0 < _int_env m name default)%Z.
Proof.
  unfold _int_env. intros Hd. repeat case_match; try done. by apply Z.ltb_lt.
Qed.

Lemma _visitor_rate_env_pos m name default :
  (0 < default)%Z → (0 < _visitor_rate_env m name default)%Z.
Proof.
  unfold _visitor_rate_env. intros Hd.
  repeat case_match; simplify_eq; try done; by apply Z.ltb_lt.
Qed.
End switches.

#[export] Hint Resolve _int_env_pos _visitor_rate_env_pos : frago.

(** ** Timestamps

    [datetime.fromisoformat] yields an aware moment or, when the text carries
    no offset, a naive one; comparing the two kinds raises.  [iso_stamp] is
    [_stamp]: the local time of a moment to the second, with its offset, which
    [fromisoformat] reads back. *)
Inductive datetime :=
  | Aware (t : Z)
  | Naive (t : Z).

Class Clock := {
  iso_stamp : Z → pystr;
  parse_iso : pystr → option datetime;
  parse_iso_stamp : ∀ t, parse_iso (iso_stamp t) = Some (Aware (t / 1000000 * 1000000)%Z);
  parse_iso_none : parse_iso (§"None") = None;
}.

(** [a <= now] for an aware [now]. *)
Definition datetime_le (a : datetime) (now : Z) : res bool :=
  match a with
  | Aware t => Ok (Z.leb t now)
  | Naive _ => Raise TypeError
  end.

(** A clock for evaluation: a sign and the seconds since the epoch, each as one
    character. *)
Definition unix_stamp (t : Z) : pystr :=
  let s := (t / 1000000)%Z in
  if Z.ltb s 0 then [45; Z.to_N (- s)]%N else [48; Z.to_N s]%N.
Definition unix_parse (s : pystr) : option datetime :=
  match s with
  | [c; n] => if (c =? 45)%N then Some (Aware (- Z.of_N n * 1000000)%Z)
              else if (c =? 48)%N then Some (Aware (Z.of_N n * 1000000)%Z) else None
  | _ => None
  end.

Lemma unix_parse_stamp t : unix_parse (unix_stamp t) = Some (Aware (t / 1000000 * 1000000)%Z).
Proof.
  unfold unix_parse, unix_stamp. destruct (_ <? 0)%Z eqn:E; simpl; do 2 f_equal; lia.
Qed.

Definition unix_clock : Clock :=
  {| iso_stamp := unix_stamp; parse_iso := unix_parse;
     parse_iso_stamp := unix_parse_stamp; parse_iso_none := eq_refl |}.

(** ** Local time

    [datetime.now()] without a zone: microseconds of the wall clock since the
    epoch.  [isoformat] is [datetime.isoformat], [iso_wall] is
    [datetime.fromisoformat(s).replace(tzinfo=None)] with [None] for
    [ValueError]. *)
Definition datetime_min : Z := (-62135596800000000)%Z.
Definition datetime_max : Z := 253402300799999999%Z.

Class LocalTime := {
  isoformat : Z → pystr;
  iso_wall : pystr → option Z;
  iso_wall_isoformat : ∀ t, (datetime_min <= t <= datetime_max)%Z → iso_wall (isoformat t) = Some t;
  iso_wall_range : ∀ s t, iso_wall s = Some t → (datetime_min <= t <= datetime_max)%Z;
  iso_wall_empty : iso_wall [] = None;
  isoformat_ascii : ∀ t, Forall (λ c, c < 128)%N (isoformat t);
}.

(** Rounding to the nearest integer, ties to even. *)
Definition round_half_even (q : Q) : Z :=
  let n := Qnum q in let d := Zpos (Qden q) in
  let f := (n / d)%Z in let r := (2 * (n mod d))%Z in
  if Z.ltb r d then f else if Z.ltb d r then (f + 1)%Z else if Z.even f then f else (f + 1)%Z.

(** [timedelta(seconds=q)] in microseconds, and a moment shifted by one. *)
Definition timedelta (q : Q) : res Z :=
  let us := round_half_even (q * 1000000) in
  if Z.leb (Z.abs (us / 86400000000)) 999999999 then Ok us else Raise OverflowError.
Definition datetime_add (t d : Z) : res Z :=
  if Z.leb datetime_min (t + d) && Z.leb (t + d) datetime_max then Ok (t + d)%Z
  else Raise OverflowError.

Lemma timedelta_int z : (Z.abs z <= 86399999913600)%Z → timedelta (inject_Z z) = Ok (z * 1000000)%Z.
Proof.
  intros Hz. assert (round_half_even (inject_Z z * 1000000) = z * 1000000)%Z as Hr.
  { unfold round_half_even. cbn -[Z.div Z.modulo Z.mul].
    rewrite Z.div_1_r, Z.mod_1_r. reflexivity. }
  unfold timedelta. rewrite Hr. rewrite (proj2 (Z.leb_le _ _)); [done|]. div_lia.
Qed.

(** A clock for evaluation: the microseconds since the first moment there is, in binary
    digits, the lowest first. *)
Fixpoint digits_of (p : positive) : pystr :=
  match p with xH => [49] | xO p => 48 :: digits_of p | xI p => 49 :: digits_of p end%N.
Fixpoint of_digits (s : pystr) : option positive :=
  match s with
  | [] => None
  | [c] => if (c =? 49)%N then Some xH else None
  | c :: s => p ← of_digits s; if (c =? 48)%N then Some (xO p) else if (c =? 49)%N then Some (xI p) else None
  end.
Definition char_iso (t : Z) : pystr := digits_of (Z.to_pos (t - datetime_min + 1)).
Definition char_wall (s : pystr) : option Z :=
  p ← of_digits s;
  let t := (Z.pos p + datetime_min - 1)%Z in
  if Z.leb datetime_min t && Z.leb t datetime_max then Some t else None.

Lemma of_digits_of p : of_digits (digits_of p) = Some p.
Proof.
  assert (∀ p, ∃ c s, digits_of p = c :: s) as Hne by (intros []; by eexists _, _).
  induction p as [p IH|p IH|]; [| |done]; cbn [digits_of of_digits]; rewrite IH; destruct (Hne p) as (c & s & ->); done.
Qed.
Lemma digits_ascii p : Forall (λ c, c < 128)%N (digits_of p).
Proof. induction p; repeat constructor; done. Qed.

Lemma char_wall_iso t : (datetime_min <= t <= datetime_max)%Z → char_wall (char_iso t) = Some t.
Proof.
  intros [Hlo Hhi]. unfold char_wall, char_iso. rewrite of_digits_of. cbn [mbind option_bind].
  rewrite Z2Pos.id by lia. replace (t - datetime_min + 1 + datetime_min - 1)%Z with t by lia.
  by rewrite (proj2 (Z.leb_le _ _) Hlo), (proj2 (Z.leb_le _ _) Hhi).
Qed.

Lemma char_wall_range s t : char_wall s = Some t → (datetime_min <= t <= datetime_max)%Z.
Proof.
  unfold char_wall. destruct (of_digits s) as [p|]; [|done]. cbn -[Z.leb Z.add Z.sub].
  destruct (_ && _)%bool eqn:E; [|done]. intros [= <-]. bools. split; by apply Z.leb_le.
Qed.

Definition char_clock : LocalTime :=
  {| isoformat := char_iso; iso_wall := char_wall; iso_wall_isoformat := char_wall_iso;
     iso_wall_range := char_wall_range; iso_wall_empty := eq_refl; isoformat_ascii _ := digits_ascii _ |}.

Lemma isoformat_not_empty `{LocalTime} t : (datetime_min <= t <= datetime_max)%Z → isoformat t ≠ [].
Proof. intros Ht He. pose proof (iso_wall_isoformat t Ht) as Hw. rewrite He, iso_wall_empty in Hw. done. Qed.
