(* ===== verification/IpAddr.v ===== *)
(** * IP addresses

    The part of Python's [ipaddress] module that [_peer_zone]
    (server/security.py) rests on: the textual parser for both families and
    the membership tests of the special-purpose registries (the tables of the
    Python 3.13 the project requires).  Addresses are the integers the module
    keeps, 32 or 128 bits wide. *)

From S2P Require Import Prelude PyStr.
From stdpp Require Import prelude list strings.

Local Open Scope N_scope.

Inductive ip :=
  | IPv4 (n : N)
  | IPv6 (n : N).

Definition is_dec_digit (c : N) : bool := (48 <=? c) && (c <=? 57).

Definition parse_octet (s : pystr) : option N :=
  if negb (bool_decide (s ≠ []) && forallb is_dec_digit s) then None
  else if (3 <? N.of_nat (length s)) then None
  else if bool_decide (s ≠ §"0") && starts_with (§"0") s then None
  else let v := dec_value (map (λ c, c - 48) s) in
       if 255 <? v then None else Some v.

(** [IPv4Address(s)]: four octets, most significant first. *)
Definition ipv4_of_str (s : pystr) : option N :=
  if has_char 47 s then None
  else match split_on 46 s with
       | [a; b; c; d] =>
           a ← parse_octet a; b ← parse_octet b;
           c ← parse_octet c; d ← parse_octet d;
           Some (((a * 256 + b) * 256 + c) * 256 + d)
       | _ => None
       end.

Definition hex_digit (c : N) : option N :=
  if is_dec_digit c then Some (c - 48)
  else if (97 <=? c) && (c <=? 102) then Some (c - 87)
  else if (65 <=? c) && (c <=? 70) then Some (c - 55)
  else None.

Definition parse_hextet (s : pystr) : option N :=
  match s with
  | [] => None
  | _ => if 4 <? N.of_nat (length s) then None
         else ds ← mapM hex_digit s; Some (foldl (λ a d, 16 * a + d) 0 ds)
  end.

(** A colon-separated part: its text, or a value already decoded from a dotted
    IPv4 suffix. *)
Definition part : Type := pystr + N.
Definition part_empty (p : part) : bool :=
  match p with inl s => bool_decide (s = []) | inr _ => false end.
Definition part_value (p : part) : option N :=
  match p with inl s => parse_hextet s | inr n => Some n end.

Definition hextets (acc : N) (ps : list part) : option N :=
  foldl (λ a p, a ← a; v ← part_value p; Some (N.lor (N.shiftl a 16) v)) (Some acc) ps.

(** The parts of an IPv6 literal, a dotted suffix replaced by two hextets. *)
Definition ipv6_parts (s : pystr) : option (list part) :=
  let parts := split_on 58 s in
  if N.of_nat (length parts) <? 3 then None
  else
    let body := take (length parts - 1) parts in
    match last parts with
    | Some l =>
        if has_char 46 l then
          v4 ← ipv4_of_str l;
          Some (map inl body ++
                [inr (N.land (N.shiftr v4 16) 65535); inr (N.land v4 65535)])
        else Some (map inl parts)
    | None => None
    end.

Definition ipv6_of_parts (ps : list part) : option N :=
  let n := length ps in
  let empty_at i := match ps !! i with Some p => part_empty p | None => false end in
  if 9 <? N.of_nat n then None
  else match filter (λ i, empty_at i = true) (seq 1 (n - 2)) with
  | [] =>
      if negb (Nat.eqb n 8) || empty_at 0%nat || empty_at (n - 1)%nat then None
      else hextets 0 ps
  | [k] =>
      let hi := if empty_at 0%nat then (k - 1)%nat else k in
      let lo := (n - k - 1 - if empty_at (n - 1)%nat then 1 else 0)%nat in
      if (empty_at 0%nat && negb (Nat.eqb hi 0)) ||
         (empty_at (n - 1)%nat && negb (Nat.eqb lo 0)) ||
         Nat.leb 8 (hi + lo) then None
      else
        v ← hextets 0 (take hi ps);
        hextets (N.shiftl v (16 * N.of_nat (8 - (hi + lo)))) (drop (n - lo) ps)
  | _ => None
  end.

(** [IPv6Address(s)]; a scope id after [%] is accepted and ignored. *)
Definition ipv6_of_str (s : pystr) : option N :=
  if has_char 47 s then None
  else let '(addr, scope) := partition_on 37 s in
       match scope with
       | Some [] => None
       | Some sc => if has_char 37 sc then None else ps ← ipv6_parts addr; ipv6_of_parts ps
       | None => ps ← ipv6_parts addr; ipv6_of_parts ps
       end.

(** [ipaddress.ip_address(s)]; [None] is its [ValueError]. *)
Definition ip_address (s : pystr) : option ip :=
  match ipv4_of_str s with
  | Some n => Some (IPv4 n)
  | None => IPv6 <$> ipv6_of_str s
  end.

(** Membership of a network given by its first address and prefix length. *)
Definition in_net (width : N) (n : N) (net : N * N) : bool :=
  N.shiftr n (width - net.2) =? N.shiftr net.1 (width - net.2).

Definition quad (a b c d : N) : N := ((a * 256 + b) * 256 + c) * 256 + d.

Definition v4_private : list (N * N) :=
  [(quad 0 0 0 0, 8); (quad 10 0 0 0, 8); (quad 127 0 0 0, 8); (quad 169 254 0 0, 16);
   (quad 172 16 0 0, 12); (quad 192 0 0 0, 24); (quad 192 0 0 170, 31); (quad 192 0 2 0, 24);
   (quad 192 168 0 0, 16); (quad 198 18 0 0, 15); (quad 198 51 100 0, 24);
   (quad 203 0 113 0, 24); (quad 240 0 0 0, 4); (quad 255 255 255 255, 32)].
Definition v4_private_exceptions : list (N * N) :=
  [(quad 192 0 0 9, 32); (quad 192 0 0 10, 32)].

(** The first 32 bits of an IPv6 network, the rest being zero. *)
Definition hi32 (a b : N) : N := N.shiftl (a * 65536 + b) 96.

Definition v6_private : list (N * N) :=
  [(1, 128); (0, 128); (N.shiftl 65535 32, 96);
   (N.lor (hi32 100 65435) (N.shiftl 1 80), 48); (hi32 256 0, 64); (hi32 8193 0, 23);
   (hi32 8193 3512, 32); (hi32 8194 0, 16); (hi32 16383 0, 20); (hi32 64512 0, 7);
   (hi32 65152 0, 10)].
Definition v6_private_exceptions : list (N * N) :=
  [(N.lor (hi32 8193 1) 1, 128); (N.lor (hi32 8193 1) 2, 128); (hi32 8193 3, 32);
   (N.lor (hi32 8193 4) (N.shiftl 274 80), 48); (hi32 8193 32, 28); (hi32 8193 48, 28)].

Definition in_nets (width n : N) (nets : list (N * N)) : bool := existsb (in_net width n) nets.

(** [ip.ipv4_mapped]. *)
Definition ipv4_mapped (a : ip) : option N :=
  match a with
  | IPv4 _ => None
  | IPv6 n => if N.shiftr n 32 =? 65535 then Some (N.land n 4294967295) else None
  end.

Definition is_unspecified (a : ip) : bool :=
  match a with IPv4 n | IPv6 n => n =? 0 end.
Definition is_loopback (a : ip) : bool :=
  match a with
  | IPv4 n => in_net 32 n (quad 127 0 0 0, 8)
  | IPv6 n => n =? 1
  end.
Definition is_link_local (a : ip) : bool :=
  match a with
  | IPv4 n => in_net 32 n (quad 169 254 0 0, 16)
  | IPv6 n => in_net 128 n (hi32 65152 0, 10)
  end.
Definition is_private (a : ip) : bool :=
  match a with
  | IPv4 n => in_nets 32 n v4_private && negb (in_nets 32 n v4_private_exceptions)
  | IPv6 n => in_nets 128 n v6_private && negb (in_nets 128 n v6_private_exceptions)
  end.

(** ** Checks on concrete addresses *)

Example ip_quad : ip_address (§"192.168.1.7") = Some (IPv4 (quad 192 168 1 7)).
Proof. reflexivity. Qed.
Example ip_suffix_rejected : ip_address (§"127.0.0.1.evil.com") = None.
Proof. reflexivity. Qed.
Example ip_leading_zero_rejected : ip_address (§"127.0.0.01") = None.
Proof. reflexivity. Qed.
Example ip_mapped : ip_address (§"::ffff:127.0.0.1") = Some (IPv6 281472812449793).
Proof. vm_compute. reflexivity. Qed.
Example ip_v6_full :
  ip_address (§"2001:db8:0:0:0:0:0:1") = ip_address (§"2001:DB8::1").
Proof. vm_compute. reflexivity. Qed.
Example ip_v6_scope : ip_address (§"fe80::1%eth0") = ip_address (§"fe80::1").
Proof. vm_compute. reflexivity. Qed.
Example ip_v6_two_gaps : ip_address (§"1::2::3") = None.
Proof. vm_compute. reflexivity. Qed.
Example ip_v6_trailing_colon : ip_address (§"1:2:3:4:5:6:7:") = None.
Proof. vm_compute. reflexivity. Qed.
Example ip_v6_edge_gap : ip_address (§"::2:3:4:5:6:7:8") = Some (IPv6 158459951879775902770104041480).
Proof. vm_compute. reflexivity. Qed.
