(* ===== verification/Peer.v ===== *)
(** * Requests and where they come from

    The ASGI request scope, and the part of server/security.py that reasons
    about the peer address: forwarding headers, the container check, the trust
    switches and the classification of an address. *)

From Stdlib Require Import QArith.
From S2P Require Import Prelude PyStr Env IpAddr.
From stdpp Require Import prelude gmap list strings.

(** An ASGI scope.  Header names and values and the query string are bytes. *)
Record scope := {
  s_type : pystr;
  s_method : option pystr;
  s_path : option pystr;
  s_query : pystr;
  s_headers : list (pystr * pystr);
  s_client : option (pystr * Z);
  s_scheme : option pystr;
}.

Definition _FORWARDING_HEADERS : list pystr :=
  lit <$> ["x-forwarded-for"; "x-forwarded-host"; "x-forwarded-proto"; "x-real-ip";
    "forwarded"; "cf-connecting-ip"; "true-client-ip"; "x-client-ip";
    "x-envoy-external-address"; "x-original-forwarded-for"; "via"; "x-forwarded-server";
    "x-forwarded-port"; "x-forwarded-prefix"; "fly-client-ip"; "fastly-client-ip";
    "x-azure-clientip"; "x-appengine-user-ip"]%string.

(** [_headers]: later headers of one name win. *)
Definition _headers (sc : scope) : dict pystr pystr :=
  foldl (λ d kv, dset (bytes_lower kv.1) kv.2 d) [] (s_headers sc).

Definition _is_proxied (headers : dict pystr pystr) : bool :=
  existsb (λ h, dmem h headers) _FORWARDING_HEADERS.

Inductive peer := PLoopback | PPrivate | PPublic | PUnknown.

#[export] Instance peer_eq_dec : EqDecision peer.
Proof. solve_decision. Defined.

Section trust.
Context `{Unicode}.
Implicit Types (m : machine) (sc : scope).

Definition CONTAINER_MARKERS : list pystr := [§"docker"; §"containerd"; §"kubepods"; §"lxc"].

Definition in_container m : bool :=
  container_marker m ||
  match cgroup m with
  | None => false
  | Some text => existsb (λ marker, contains marker text) CONTAINER_MARKERS
  end.

Definition lan_is_trusted m : bool := _enabled m (§"FRAGO_TRUST_LAN") (negb (in_container m)).

(** [_peer_zone]. *)
Definition unmap (a : ip) : ip := match ipv4_mapped a with Some n => IPv4 n | None => a end.

Definition _peer_zone sc : peer :=
  match s_client sc with
  | None => PUnknown
  | Some (host, _) =>
      match ip_address host with
      | None => PUnknown
      | Some a =>
          let a := unmap a in
          if is_unspecified a then PUnknown
          else if is_loopback a then PLoopback
          else if is_private a || is_link_local a then PPrivate
          else PPublic
      end
  end.

Definition peer_trust_disabled m : bool := _enabled m (§"FRAGO_BEHIND_PROXY") false.

Definition _peer_is_trusted m sc : bool :=
  if peer_trust_disabled m then false
  else match _peer_zone sc with
       | PLoopback => true
       | PPrivate => lan_is_trusted m
       | _ => false
       end.
End trust.

(** ** Which peers are here *)

(** A request carries a header under a name, whatever its case. *)
Definition carries (sc : scope) (name : pystr) : Prop :=
  ∃ kv, kv ∈ s_headers sc ∧ bytes_lower kv.1 = name.

Lemma headers_fold_mem l d name :
  dmem name (foldl (λ d kv, dset (bytes_lower kv.1) kv.2 d) d l) = true ↔
  dmem name d = true ∨ ∃ kv : pystr * pystr, kv ∈ l ∧ bytes_lower kv.1 = name.
Proof.
  revert d. induction l as [|kv l IH]; intros d; simpl; [set_solver|].
  rewrite IH. unfold dmem at 1. destruct (decide (name = bytes_lower kv.1)) as [->|Hne].
  - rewrite dget_dset_eq. split; [|by left]. intros _. right. exists kv. set_solver.
  - rewrite dget_dset_ne by done. fold (dmem name d). set_solver.
Qed.

Lemma headers_mem sc name : dmem name (_headers sc) = true ↔ carries sc name.
Proof. unfold _headers, carries. rewrite headers_fold_mem. set_solver. Qed.

Lemma is_proxied_iff sc : _is_proxied (_headers sc) = true ↔
  ∃ h, h ∈ _FORWARDING_HEADERS ∧ carries sc h.
Proof.
  unfold _is_proxied. rewrite existsb_exists. setoid_rewrite headers_mem.
  by setoid_rewrite <- list_elem_of_In.
Qed.

(** An address that belongs to this machine: 127.0.0.0/8, as such or mapped
    into IPv6, or ::1. *)
Definition here (a : ip) : Prop :=
  match a with
  | IPv4 n => N.shiftr n 24 = 127%N
  | IPv6 n => n = 1%N ∨ (N.shiftr n 32 = 65535%N ∧ N.shiftr (N.land n 4294967295) 24 = 127%N)
  end.

Lemma unmap_loopback a :
  is_unspecified (unmap a) = false ∧ is_loopback (unmap a) = true ↔ here a.
Proof.
  unfold unmap, ipv4_mapped, here.
  assert (Hv4 : ∀ n, is_unspecified (IPv4 n) = false ∧ is_loopback (IPv4 n) = true ↔
    N.shiftr n 24 = 127%N).
  { intros n. unfold is_unspecified, is_loopback, in_net. cbn [fst snd].
    replace (N.shiftr (quad 127 0 0 0) (32 - 8)) with 127%N by (vm_compute; reflexivity).
    change (32 - 8)%N with 24%N. rewrite N.eqb_neq, N.eqb_eq.
    split; [tauto|]. intros E. split; [|done]. by intros ->. }
  destruct a as [n|n]; [apply Hv4|].
  destruct (N.shiftr n 32 =? 65535)%N eqn:E.
  - apply N.eqb_eq in E. rewrite Hv4. split; [tauto|]. intros [->|[_ ?]]; done.
  - apply N.eqb_neq in E. unfold is_unspecified, is_loopback. rewrite N.eqb_neq, N.eqb_eq.
    split; [tauto|]. intros [->|[? ?]]; [done|tauto].
Qed.

Section peers.
Context `{Unicode}.
Implicit Types (m : machine) (sc : scope).

Lemma peer_loopback_iff sc : _peer_zone sc = PLoopback ↔
  ∃ host port a, s_client sc = Some (host, port) ∧ ip_address host = Some a ∧ here a.
Proof.
  unfold _peer_zone. destruct (s_client sc) as [[host port]|]; [|by split; [|intros (? & ? & ? & ? & _)]].
  destruct (ip_address host) as [a|] eqn:Ea.
  2: { split; [done|]. intros (? & ? & ? & [= <- <-] & ? & _). congruence. }
  pose proof (unmap_loopback a) as Hl. split.
  - intros Hz. exists host, port, a. split_and!; [done..|]. apply Hl.
    destruct (is_unspecified (unmap a)); [done|]. destruct (is_loopback (unmap a)); [done|].
    by destruct (_ || _).
  - intros (? & ? & a' & [= <- <-] & Ea' & Hh). rewrite Ea in Ea'. injection Ea' as <-.
    apply Hl in Hh as [-> ->]. done.
Qed.

(** Who counts as being on this machine.  The peer address earns trust only
    while [FRAGO_BEHIND_PROXY] is off, and then exactly when it parses as a
    loopback address (127.0.0.0/8, also mapped into IPv6, or ::1) or is private
    on a trusted LAN; a missing, malformed or look-alike address never does. *)
Theorem peer_trusted_iff m sc :
  _peer_is_trusted m sc = true ↔
  peer_trust_disabled m = false ∧
  ((∃ host port a, s_client sc = Some (host, port) ∧ ip_address host = Some a ∧ here a) ∨
   (_peer_zone sc = PPrivate ∧ lan_is_trusted m = true)).
Proof.
  rewrite <- peer_loopback_iff. unfold _peer_is_trusted.
  destruct (peer_trust_disabled m); [split; [done|by intros [? _]]|].
  destruct (_peer_zone sc).
  1: { split; auto. }
  1: { split; [auto|]. by intros [_ [?|[_ ?]]]. }
  all: split; [done|]; by intros [_ [?|[? _]]].
Qed.
End peers.
