(* ===== verification/InvocationCtx.v ===== *)
(** * Who a run is for

    recipes/context.py: the platform tells a recipe's process, through three
    environment variables, whether it runs for the owner or for a signed-in
    visitor.  The file also fixes how paths and files are modelled: a path is
    the list of its components from the file-system root. *)

From S2P Require Import Prelude PyStr Json Env.
From stdpp Require Import prelude gmap list strings fin_maps.

Abbreviation path := (list pystr).

(** What path handling takes from the machine: [Path.home()] and
    [Path(s).expanduser()]. *)
Class Paths := {
  home : path;
  expand : pystr → path;
}.

(** [str(p)] of an absolute path. *)
Definition path_str (p : path) : pystr :=
  match p with
  | [] => §"/"
  | _ => concat (map (λ c, 47%N :: c) p)
  end.

(** [p / s]: the components of [s], where empty and [.] ones vanish; an absolute
    [s] replaces [p]. *)
Definition components (s : pystr) : path := filter (λ c, c ≠ [] ∧ c ≠ §".") (split_on 47 s).
Definition path_join (p : path) (s : pystr) : path :=
  if starts_with (§"/") s then components s else p ++ components s.

(** A machine whose home is [/home/owner] and where no [~] is used, for
    evaluation. *)
Definition posix_paths : Paths := {| home := [§"home"; §"owner"]; expand := components |}.

(** A file: the document it parses to ([None] when it cannot be read or is not
    JSON) and its modification time. *)
Record file := { f_doc : option json; f_mtime : Z }.
Abbreviation fs := (gmap path file).

(** ** Invocation contexts (recipes/context.py) *)
Section context.
Context `{Unicode, Paths}.
Implicit Types (env : gmap pystr pystr).

Definition CALLER_ENV : pystr := §"FRAGO_RECIPE_CALLER".
Definition SLOT_ENV : pystr := §"FRAGO_RECIPE_SLOT".
Definition DATA_DIR_ENV : pystr := §"FRAGO_RECIPE_DATA_DIR".
Definition OWNER : pystr := §"owner".
Definition VISITOR : pystr := §"visitor".

Record InvocationContext := {
  caller : pystr;
  slot : option pystr;
  data_dir : option path;
}.

Definition is_visitor (c : InvocationContext) : bool := bool_decide (caller c = VISITOR).

Definition OWNER_CONTEXT : InvocationContext :=
  {| caller := OWNER; slot := None; data_dir := None |}.

Definition _read env (key : pystr) : pystr := strip (default [] (env !! key)).

Definition current env : res InvocationContext :=
  let c := str_casefold (_read env CALLER_ENV) in
  if bool_decide (c = [] ∨ c = OWNER) then Ok OWNER_CONTEXT
  else if bool_decide (c ≠ VISITOR) then Raise InvalidInvocationContext
  else
    let s := _read env SLOT_ENV in
    if bool_decide (s = []) then Raise InvalidInvocationContext
    else
      let raw_dir := _read env DATA_DIR_ENV in
      if bool_decide (raw_dir = []) then Raise InvalidInvocationContext
      else Ok {| caller := VISITOR; slot := Some s; data_dir := Some (expand raw_dir) |}.

(** [data_dir(fallback)]: the directory a run should write. *)
Definition run_data_dir (fallback : pystr) env : res path :=
  ctx ← current env;
  Ok (match data_dir ctx with Some d => d | None => expand fallback end).

Definition working_dir (recipe_name : pystr) (ctx : option InvocationContext) : path :=
  match ctx ≫= data_dir with
  | Some d => d
  | None => home ++ [§".frago"; §"users"; OWNER; §"data"; recipe_name]
  end.

(** [apply_to_env]: the environment handed to the recipe's process. *)
Definition apply_to_env env (ctx : option InvocationContext) : res (gmap pystr pystr) :=
  match ctx with
  | Some c =>
      if is_visitor c then
        match slot c, data_dir c with
        | Some ((_ :: _) as s), Some d =>
            Ok (<[DATA_DIR_ENV := path_str d]> (<[SLOT_ENV := s]> (<[CALLER_ENV := VISITOR]> env)))
        | _, _ => Raise InvalidInvocationContext
        end
      else Ok (delete DATA_DIR_ENV (delete SLOT_ENV (delete CALLER_ENV env)))
  | None => Ok (delete DATA_DIR_ENV (delete SLOT_ENV (delete CALLER_ENV env)))
  end.

(** The context a process started with [apply_to_env env ctx] should read back:
    the visitor's own for a visitor, the owner's in every other case. *)
Definition effective (ctx : option InvocationContext) : InvocationContext :=
  match ctx with
  | Some c => if is_visitor c then c else OWNER_CONTEXT
  | None => OWNER_CONTEXT
  end.

Lemma read_absent env key : env !! key = None → _read env key = [].
Proof. unfold _read. by intros ->. Qed.

Lemma read_present env key s : env !! key = Some s → strip s = s → _read env key = s.
Proof. unfold _read. by intros ->. Qed.

Lemma current_owner env : env !! CALLER_ENV = None → current env = Ok OWNER_CONTEXT.
Proof. intros Hn. unfold current. by rewrite read_absent. Qed.

Lemma current_visitor env s d :
  env !! CALLER_ENV = Some VISITOR → env !! SLOT_ENV = Some s →
  env !! DATA_DIR_ENV = Some d → strip s = s → s ≠ [] → strip d = d → d ≠ [] →
  current env = Ok {| caller := VISITOR; slot := Some s; data_dir := Some (expand d) |}.
Proof.
  intros Hc Hs Hd Es Ns Ed Nd. unfold current.
  rewrite (read_present _ _ _ Hc) by reflexivity.
  rewrite (read_present _ _ _ Hs) by done. rewrite (read_present _ _ _ Hd) by done.
  rewrite bool_decide_eq_false_2 by (intros [?|?]; discriminate).
  rewrite bool_decide_eq_false_2 by (intros Hv; by apply Hv).
  by rewrite !bool_decide_eq_false_2.
Qed.

Lemma path_str_not_nil p : path_str p ≠ [].
Proof. by destruct p. Qed.

Lemma env_keys_distinct :
  CALLER_ENV ≠ SLOT_ENV ∧ CALLER_ENV ≠ DATA_DIR_ENV ∧ SLOT_ENV ≠ DATA_DIR_ENV.
Proof. repeat split; discriminate. Qed.

(** A recipe's process reads back exactly the context the platform stamped
    on its environment, whatever the three variables held before: an owner run
    is an owner run even when the server inherited a visitor's variables, and a
    visitor run keeps its slot and its directory. *)
Theorem apply_current_roundtrip env ctx env' :
  apply_to_env env ctx = Ok env' →
  (∀ s, (ctx ≫= slot) = Some s → strip s = s) →
  (∀ d, (ctx ≫= data_dir) = Some d →
        strip (path_str d) = path_str d ∧ expand (path_str d) = d) →
  current env' = Ok (effective ctx).
Proof.
  destruct env_keys_distinct as (N1 & N2 & N3).
  unfold apply_to_env, effective. intros Ha Hs Hd.
  destruct ctx as [[c s d]|]; simpl in *.
  2:{ simplify_eq. apply current_owner. by simplify_map_eq. }
  destruct (is_visitor _) eqn:Hv.
  2:{ simplify_eq. apply current_owner. by simplify_map_eq. }
  destruct s as [[|c0 s]|], d as [d|]; try discriminate. simplify_eq.
  unfold is_visitor in Hv. simpl in Hv. apply bool_decide_eq_true in Hv as ->.
  destruct (Hd d eq_refl) as [Hst Hex].
  rewrite (current_visitor _ (c0 :: s) (path_str d)); simplify_map_eq; auto using path_str_not_nil.
  by rewrite Hex.
Qed.

(** The stamping refuses a visitor context that lacks its slot or directory. *)
Lemma apply_to_env_partial env c :
  is_visitor c = true → slot c = None ∨ slot c = Some [] ∨ data_dir c = None →
  apply_to_env env (Some c) = Raise InvalidInvocationContext.
Proof.
  unfold apply_to_env. intros -> Hm. by destruct Hm as [->|[->| ->]]; repeat case_match.
Qed.
End context.

(** A visitor's run stamped over the variables of another visitor. *)
Lemma apply_current_roundtrip_witness :
  let _ := ascii_db in let _ := posix_paths in
  let ctx := {| caller := VISITOR; slot := Some (§"ann"); data_dir := Some [§"data"; §"ann"] |} in
  ∃ env', apply_to_env {[ CALLER_ENV := VISITOR; SLOT_ENV := §"bob" ]} (Some ctx) = Ok env' ∧
    current env' = Ok ctx.
Proof.
  intros u p ctx. eexists. split; [reflexivity|].
  apply (apply_current_roundtrip {[ CALLER_ENV := VISITOR; SLOT_ENV := §"bob" ]} (Some ctx)).
  - reflexivity.
  - intros s [= <-]. by vm_compute.
  - intros d [= <-]. by vm_compute.
Defined.
