(* ===== verification/AppState.v ===== *)
(** * Recipe state slots

    recipes/app_state.py: the slot files a recipe's page reads, under two
    roots, the recipe's own and the signed-in accounts'. *)

From S2P Require Import Prelude PyStr Json Env InvocationCtx.
From stdpp Require Import prelude gmap list strings fin_maps.

(** ** Slots (recipes/app_state.py) *)
Section app_state.
Context `{Unicode, Paths}.
Implicit Types (m : machine).

Definition DEFAULT_SLOT : pystr := §"default".
Definition APP_STATE_DIR : path := home ++ [§".frago"; §"app-state"].
Definition USER_STATE_DIR : path := home ++ [§".frago"; §"users"].

Definition safe_char (c : N) : bool :=
  ((65 <=? c) && (c <=? 90) || (97 <=? c) && (c <=? 122) || (48 <=? c) && (c <=? 57) ||
   (c =? 46) || (c =? 95) || (c =? 45))%N.

(** [re.compile(r"^[A-Za-z0-9._-]+$").match(s)]: [$] also matches before one
    final newline. *)
Definition _SAFE_NAME (s : pystr) : bool :=
  let ok w := bool_decide (w ≠ []) && forallb safe_char w in
  ok s || match last s with
          | Some 10%N => ok (take (length s - 1) s)
          | _ => false
          end.

Definition valid_name (value : pystr) : bool :=
  bool_decide (value ≠ []) && _SAFE_NAME value && bool_decide (value ∉ [§"."; §".."]).

Definition _validate (recipe_name slot : pystr) : res unit :=
  if valid_name recipe_name && valid_name slot then Ok tt else Raise InvalidSlotName.

Definition user_state_dir m : path :=
  match environ m !! §"FRAGO_USER_STATE_DIR" with
  | Some ((_ :: _) as override) => expand override
  | _ => USER_STATE_DIR
  end.

Definition user_root m (account_id : pystr) : res path :=
  _validate DEFAULT_SLOT account_id;;
  Ok (user_state_dir m ++ [account_id]).

Definition user_data_dir m (account_id recipe_name : pystr) : res path :=
  _validate recipe_name account_id;;
  root ← user_root m account_id;
  Ok (root ++ [§"data"; recipe_name]).

Definition json_name (stem : pystr) : pystr := stem ++ §".json".

Definition slot_path m (recipe_name slot : pystr) (identity : bool) : res path :=
  _validate recipe_name slot;;
  if identity then
    root ← user_root m slot;
    Ok (root ++ [§"state"; json_name recipe_name])
  else Ok (APP_STATE_DIR ++ [recipe_name; json_name slot]).

(** [publish]: write the state file, replacing what was there.  On a visitor
    run the context overrides the slot, the root and [dataDir]. *)
Definition publish m (recipe_name : pystr) (state : jdict) (slot0 : pystr) (identity0 : bool)
    : M fs path :=
  ctx ← lift_res (current (environ m));
  let '(slot1, identity, state) :=
    if is_visitor ctx then
      (default [] (slot ctx), true,
       dset (§"dataDir") (JStr (path_str (default [] (data_dir ctx)))) state)
    else (slot0, identity0, state) in
  p ← lift_res (slot_path m recipe_name slot1 identity);
  modify (<[p := {| f_doc := Some (JObj state); f_mtime := wall m |}]>);;
  mret p.

Definition read m (disk : fs) (recipe_name slot : pystr) (identity : bool) : res jdict :=
  p ← slot_path m recipe_name slot identity;
  Ok (match disk !! p with Some f => as_dict (f_doc f) | None => [] end).

Definition page_url (recipe_name slot : pystr) (port : N) : res pystr :=
  _validate recipe_name slot;;
  let base := §"http://localhost:" ++ str_of_N port ++ §"/app/" ++ recipe_name in
  Ok (if bool_decide (slot = DEFAULT_SLOT) then base else base ++ §"?key=" ++ slot).

(** *** Names *)

Lemma safe_char_spec c : safe_char c = true → c ≠ 47%N ∧ c ≠ 63%N ∧ c ≠ 35%N ∧ c ≠ 10%N.
Proof.
  unfold safe_char. rewrite !orb_true_iff, !andb_true_iff, !N.leb_le, !N.eqb_eq. lia.
Qed.

(** A valid name is one path component: it is not empty, holds no slash and is
    neither [.] nor [..].  It is made of the listed characters, except that the
    regular expression lets one newline stand at its end. *)
Lemma valid_name_spec s :
  valid_name s = true ↔
  s ≠ [] ∧ s ≠ §"." ∧ s ≠ §".." ∧
  ∃ w, w ≠ [] ∧ Forall (λ c, safe_char c = true) w ∧ (s = w ∨ s = w ++ [10%N]).
Proof.
  unfold valid_name, _SAFE_NAME.
  rewrite !andb_true_iff, orb_true_iff, !bool_decide_eq_true.
  rewrite andb_true_iff, bool_decide_eq_true, forallb_Forall_true.
  assert (s ∉ [§"."; §".."] ↔ s ≠ §"." ∧ s ≠ §"..") as -> by set_solver.
  split.
  - intros [[Hn Hs] [H1 H2]]. split_and!; try done.
    destruct Hs as [[_ Hs]|Hs]; [exists s; eauto|].
    destruct s as [|c s _] using rev_ind; [done|]. rewrite last_snoc in Hs.
    destruct (decide (c = 10%N)) as [->|]; [|by repeat case_match].
    rewrite length_app, Nat.add_sub, take_app_length in Hs. bools.
    exists s. rewrite <- forallb_Forall_true. auto.
  - intros (Hn & H1 & H2 & w & Hw & Hall & [->| ->]); split_and!; auto.
    right. rewrite last_snoc, length_app, Nat.add_sub, take_app_length.
    apply andb_true_iff. by rewrite bool_decide_eq_true, forallb_Forall_true.
Qed.

Lemma valid_name_no_slash s : valid_name s = true → 47%N ∉ s.
Proof.
  intros (_ & _ & _ & w & _ & Hall & Hs)%valid_name_spec.
  assert (47%N ∉ w) as Hw.
  { intros Hin. by apply (proj1 (Forall_forall _ _) Hall), safe_char_spec in Hin as [? _]. }
  destruct Hs as [->| ->]; set_solver.
Qed.

Lemma validate_ok r s :
  _validate r s = Ok tt ↔ valid_name r = true ∧ valid_name s = true.
Proof. unfold _validate. destruct (valid_name r), (valid_name s); naive_solver. Qed.

Lemma default_slot_valid : valid_name DEFAULT_SLOT = true.
Proof. reflexivity. Qed.

Lemma user_root_ok m a p :
  user_root m a = Ok p ↔ valid_name a = true ∧ p = user_state_dir m ++ [a].
Proof.
  unfold user_root, _validate. rewrite default_slot_valid. simpl.
  destruct (valid_name a); naive_solver.
Qed.

(** *** Where a slot lives *)

Lemma slot_path_own m r s p :
  slot_path m r s false = Ok p ↔
  valid_name r = true ∧ valid_name s = true ∧ p = APP_STATE_DIR ++ [r; json_name s].
Proof.
  unfold slot_path, _validate. destruct (valid_name r), (valid_name s); naive_solver.
Qed.

Lemma slot_path_identity m r s p :
  slot_path m r s true = Ok p ↔
  valid_name r = true ∧ valid_name s = true ∧
  p = user_state_dir m ++ [s; §"state"; json_name r].
Proof.
  unfold slot_path, user_root, _validate. rewrite default_slot_valid.
  destruct (valid_name r), (valid_name s); simpl; try naive_solver.
  rewrite <- (assoc_L (++)). naive_solver.
Qed.

Lemma json_name_inj a b : json_name a = json_name b → a = b.
Proof. unfold json_name. by intros ?%(inj (.++ §".json")). Qed.

(** Two slots never share a file: on the default roots, the path of a
    recipe's slot determines the recipe, the slot and which of the two roots it
    is under, so no recipe can address a person's file by naming a slot. *)
Lemma slot_path_inj m r s i r' s' i' p :
  environ m !! §"FRAGO_USER_STATE_DIR" = None →
  slot_path m r s i = Ok p → slot_path m r' s' i' = Ok p →
  r = r' ∧ s = s' ∧ i = i'.
Proof.
  intros Hroot.
  assert (user_state_dir m = USER_STATE_DIR) as HU by (unfold user_state_dir; by rewrite Hroot).
  destruct i, i'; rewrite ?slot_path_own, ?slot_path_identity, ?HU;
    intros (? & ? & ->) (? & ? & E).
  - apply (inj (USER_STATE_DIR ++.)) in E. injection E as -> E%json_name_inj. auto.
  - exfalso. unfold USER_STATE_DIR, APP_STATE_DIR in E.
    rewrite <- !(assoc_L (++)) in E. by apply (inj (home ++.)) in E.
  - exfalso. unfold USER_STATE_DIR, APP_STATE_DIR in E.
    rewrite <- !(assoc_L (++)) in E. by apply (inj (home ++.)) in E.
  - apply (inj (APP_STATE_DIR ++.)) in E. injection E as -> E%json_name_inj. auto.
Qed.

(** *** Writing and reading back *)

(** The slot, root and state a write really uses, given the context it runs in. *)
Definition write_target (c : InvocationContext) (state : jdict) (s : pystr) (i : bool)
    : pystr * bool * jdict :=
  if is_visitor c then
    (default [] (slot c), true,
     dset (§"dataDir") (JStr (path_str (default [] (data_dir c)))) state)
  else (s, i, state).

Lemma publish_run m r state s i c disk :
  current (environ m) = Ok c →
  let '(s', i', state') := write_target c state s i in
  publish m r state s i disk =
  match slot_path m r s' i' with
  | Ok p => (Ok p, <[p := {| f_doc := Some (JObj state'); f_mtime := wall m |}]> disk)
  | Raise e => (Raise e, disk)
  end.
Proof.
  intros Hc. unfold write_target, publish, mbind, M_bind, lift_res. rewrite Hc.
  destruct (is_visitor c); simpl; by case_match.
Qed.

(** A visitor's run can only write its own slot: whatever slot, root
    and [dataDir] the recipe passes, the one file that changes is the visitor's
    own slot of that recipe, and what it declares as [dataDir] is the directory
    the platform chose. *)
Theorem publish_visitor_confined m r state s0 i0 disk p disk' a d :
  current (environ m) =
    Ok {| caller := VISITOR; slot := Some a; data_dir := Some d |} →
  publish m r state s0 i0 disk = (Ok p, disk') →
  p = user_state_dir m ++ [a; §"state"; json_name r] ∧
  (∀ q, q ≠ p → disk' !! q = disk !! q) ∧
  ∃ st, read m disk' r a true = Ok st ∧
        dget (§"dataDir") st = Some (JStr (path_str d)) ∧
        ∀ k, k ≠ §"dataDir" → dget k st = dget k state.
Proof.
  intros Hc Hp. pose proof (publish_run m r state s0 i0 _ disk Hc) as Hrun.
  simpl in Hrun. rewrite Hrun in Hp. clear Hrun.
  destruct (slot_path m r a true) as [p'|] eqn:Hs; ok_inv. simplify_eq.
  pose proof Hs as (_ & _ & ->)%slot_path_identity.
  split_and!; [done|by intros q Hq; rewrite lookup_insert_ne|].
  eexists. unfold read. rewrite Hs. simpl. rewrite lookup_insert_eq. simpl.
  split_and!; [done|apply dget_dset_eq|]. intros k Hk. by rewrite dget_dset_ne.
Qed.

(** An owner's write is read back unchanged, and changes no other slot. *)
Theorem publish_read_roundtrip m r state s i disk p disk' r' s' i' :
  environ m !! §"FRAGO_USER_STATE_DIR" = None →
  current (environ m) = Ok OWNER_CONTEXT →
  publish m r state s i disk = (Ok p, disk') →
  read m disk' r s i = Ok state ∧
  ((r', s', i') ≠ (r, s, i) → read m disk' r' s' i' = read m disk r' s' i').
Proof.
  intros Hroot Hc Hp. pose proof (publish_run m r state s i _ disk Hc) as Hrun.
  simpl in Hrun. rewrite Hrun in Hp. clear Hrun.
  destruct (slot_path m r s i) as [p'|] eqn:Hs; ok_inv. simplify_eq.
  unfold read. rewrite Hs. simpl. rewrite lookup_insert_eq. split; [done|].
  intros Hne. destruct (slot_path m r' s' i') as [p'|] eqn:Hs'; [|done]. simpl.
  rewrite lookup_insert_ne; [done|]. intros <-.
  destruct (slot_path_inj m r s i r' s' i' p Hroot Hs Hs') as (-> & -> & ->). done.
Qed.
End app_state.

(** ** Evaluation *)
Section demo.
#[local] Existing Instance ascii_db.
#[local] Existing Instance posix_paths.

Definition plain_machine (env : gmap pystr pystr) : machine :=
  {| environ := env; wall := 0; mono := QArith_base.inject_Z 0; container_marker := false; cgroup := None |}.

(** Ann's run names Bob's slot and directory. *)
Lemma publish_visitor_confined_witness :
  let m := plain_machine {[ CALLER_ENV := VISITOR; SLOT_ENV := §"ann"; DATA_DIR_ENV := §"/d/ann" ]} in
  let run := publish m (§"notes") [(§"dataDir", JStr (§"/d/bob"))] (§"bob") true ∅ in
  run.1 = Ok (user_state_dir m ++ [§"ann"; §"state"; json_name (§"notes")]) ∧
  ∃ st, read m run.2 (§"notes") (§"ann") true = Ok st ∧
        dget (§"dataDir") st = Some (JStr (path_str [§"d"; §"ann"])).
Proof.
  intros m run. set (p := user_state_dir m ++ [§"ann"; §"state"; json_name (§"notes")]).
  assert (Hok : run.1 = Ok p) by (vm_compute; reflexivity).
  assert (E : run = (Ok p, run.2)) by (rewrite <- Hok; apply surjective_pairing).
  assert (Hc : current (environ m)
    = Ok {| caller := VISITOR; slot := Some (§"ann"); data_dir := Some [§"d"; §"ann"] |})
    by (vm_compute; reflexivity).
  destruct (publish_visitor_confined m (§"notes") [(§"dataDir", JStr (§"/d/bob"))] (§"bob") true ∅ p
    run.2 (§"ann") [§"d"; §"ann"] Hc E) as (_ & _ & st & Hr & Hd & _).
  split; [exact Hok|]. exists st. split; [exact Hr|exact Hd].
Defined.

Lemma publish_read_roundtrip_witness :
  let m := plain_machine ∅ in
  let run := publish m (§"notes") [(§"n", JInt 1)] (§"main") false ∅ in
  read m run.2 (§"notes") (§"main") false = Ok [(§"n", JInt 1)] ∧
  read m run.2 (§"notes") (§"other") false = read m ∅ (§"notes") (§"other") false.
Proof.
  intros m run. set (p := APP_STATE_DIR ++ [§"notes"; §"main.json"]).
  assert (Hok : run.1 = Ok p) by (vm_compute; reflexivity).
  assert (E : run = (Ok p, run.2)) by (rewrite <- Hok; apply surjective_pairing).
  assert (Hc : current (environ m) = Ok OWNER_CONTEXT) by (vm_compute; reflexivity).
  destruct (publish_read_roundtrip m (§"notes") [(§"n", JInt 1)] (§"main") false ∅ p run.2 (§"notes")
    (§"other") false eq_refl Hc E) as [Hr Ho].
  split; [exact Hr|]. apply Ho. discriminate.
Defined.
End demo.
