(* ===== verification/Publish.v ===== *)
(** * The list of exposed pages

    recipes/publish.py: which recipe pages face the internet, in which mode and
    to whom.  The list is one JSON file, cached on its modification stamp;
    [load] hands out the cached dictionary itself, so [publish] and [unpublish]
    edit the cache in place before they save. *)

From S2P Require Import Prelude PyStr Json Env InvocationCtx AppState.
From stdpp Require Import prelude gmap list strings.

Section publish.
Context `{Unicode, Clock}.
Implicit Types (entry : jdict) (name : pystr).

Definition MODE_PUBLIC : pystr := §"public".
Definition MODE_IDENTITY : pystr := §"identity".
Definition MODES : list pystr := [MODE_PUBLIC; MODE_IDENTITY].

(** The file with its [(st_mtime, st_size)] stamp, and the process's cache.  [pf_doc] is
    [None] when the file cannot be opened or holds no JSON.  The file holds UTF-8 text,
    as [_save] writes it: on other bytes [load] raises a [UnicodeDecodeError]. *)
Record pub_file := { pf_doc : option json; pf_stamp : Z * Z }.
Record pub_state := {
  p_file : option pub_file;
  p_cache : option ((Z * Z) * dict pystr jdict);
}.

(** [load]: the entries, and whether the dictionary returned is the cached one. *)
Definition load : M pub_state (dict pystr jdict * bool) := λ s,
  match p_file s with
  | None => (Ok ([], false), {| p_file := None; p_cache := None |})
  | Some f =>
      let miss :=
        match pf_doc f with
        | Some (JObj _) =>
            let entries := dict_entries (pf_doc f) in
            (Ok (entries, true),
             {| p_file := p_file s; p_cache := Some (pf_stamp f, entries) |})
        | _ => (Ok ([], false), s)
        end in
      match p_cache s with
      | Some (stamp, entries) =>
          if decide (stamp = pf_stamp f) then (Ok (entries, true), s) else miss
      | None => miss
      end
  end.

(** [_save]: replace the file and drop the cache.  [io] is the stamp the new
    file gets, or [None] when the write fails. *)
Definition _save (io : option (Z * Z)) (entries : dict pystr jdict) : M pub_state unit := λ s,
  match io with
  | Some stamp =>
      (Ok tt, {| p_file := Some {| pf_doc := Some (table_doc entries); pf_stamp := stamp |};
                 p_cache := None |})
  | None => (Raise OSError, s)
  end.

(** An in-place edit of the dictionary [load] returned. *)
Definition edit_cache (alias : bool) (entries : dict pystr jdict) (s : pub_state) : pub_state :=
  match p_cache s with
  | Some (stamp, _) =>
      if alias then {| p_file := p_file s; p_cache := Some (stamp, entries) |} else s
  | None => s
  end.

Definition _mode_of entry : pystr :=
  match dget (§"mode") entry with
  | None => MODE_PUBLIC
  | Some (JStr raw) => if decide (raw ∈ MODES) then raw else MODE_IDENTITY
  | Some _ => MODE_IDENTITY
  end.

(** The strings of a list, when every element is a non-empty string. *)
Definition account_list (l : list json) : option (list pystr) :=
  mapM (λ v, match v with JStr ((_ :: _) as s) => Some s | _ => None end) l.

Definition _allow_of entry : option (list pystr) :=
  match dget (§"allow") entry with
  | None | Some JNull => None
  | Some (JArr l) => Some (default [] (account_list l))
  | Some _ => Some []
  end.

Definition is_true (v : option json) : bool :=
  match v with Some (JBool true) => true | _ => false end.

Definition _runnable_of entry (mode : pystr) : bool :=
  is_true (dget (§"runnable") entry) && bool_decide (mode = MODE_IDENTITY).

Definition allows (entry : option jdict) (identity : option pystr) : bool :=
  match entry, identity with
  | Some e, Some ((_ :: _) as who) =>
      if decide (_mode_of e = MODE_IDENTITY) then
        match _allow_of e with
        | None => true
        | Some l => bool_decide (who ∈ l)
        end
      else false
  | _, _ => false
  end.

(** The normalised copy [published_entry] returns. *)
Definition slot_of entry : pystr :=
  match dget (§"slot") entry with
  | Some (JStr ((_ :: _) as s)) => s
  | _ => DEFAULT_SLOT
  end.

Definition normalise entry : jdict :=
  let mode := _mode_of entry in
  [(§"slot", JStr (slot_of entry));
   (§"mode", JStr mode);
   (§"since", default JNull (dget (§"since") entry));
   (§"allow", match _allow_of entry with None => JNull | Some l => JArr (map JStr l) end);
   (§"runnable", JBool (_runnable_of entry mode))].

Definition published_entry name : M pub_state (option jdict) :=
  match _validate name DEFAULT_SLOT with
  | Raise _ => mret None
  | Ok _ =>
      loaded ← load;
      mret (match dget name loaded.1 with
            | Some ((_ :: _) as entry) => Some (normalise entry)
            | _ => None
            end)
  end.

(** [entry["mode"]] and [entry["slot"]] of a normalised entry. *)
Definition text_at (k : pystr) entry : pystr :=
  match dget k entry with Some (JStr s) => s | _ => [] end.

Definition published_slot name : M pub_state (option pystr) :=
  e ← published_entry name;
  mret (match e with
        | Some entry =>
            if decide (text_at (§"mode") entry = MODE_PUBLIC)
            then Some (text_at (§"slot") entry) else None
        | None => None
        end).

Definition is_published name (slot : pystr) : M pub_state bool :=
  s ← published_slot name;
  mret (bool_decide (s = Some slot)).

(** The guards of [publish], in order. *)
Definition publish_guard name (slot mode : pystr) (allow : option (list pystr)) (runnable : bool)
    : res unit :=
  _validate name slot;;
  if decide (mode ∉ MODES) then Raise ValueError
  else
    match allow with
    | Some l =>
        if decide ([] ∈ l) then Raise ValueError
        else if decide (l = []) then Raise ValueError
        else if decide (mode ≠ MODE_IDENTITY) then Raise ValueError
        else Ok tt
    | None => Ok tt
    end;;
    if runnable && bool_decide (mode ≠ MODE_IDENTITY) then Raise ValueError else Ok tt.

Definition new_entry (now : Z) (slot mode : pystr) (allow : option (list pystr)) (runnable : bool)
    : jdict :=
  [(§"slot", JStr slot);
   (§"mode", JStr mode);
   (§"since", JStr (iso_stamp now));
   (§"allow", match allow with None => JNull | Some l => JArr (map JStr l) end);
   (§"runnable", JBool runnable)].

Definition publish (m : machine) (io : option (Z * Z)) name (slot mode : pystr)
    (allow : option (list pystr)) (runnable : bool) : M pub_state jdict :=
  lift_res (publish_guard name slot mode allow runnable);;
  loaded ← load;
  let entry := new_entry (wall m) slot mode allow runnable in
  let entries := dset name entry loaded.1 in
  modify (edit_cache loaded.2 entries);;
  _save io entries;;
  mret entry.

Definition unpublish (io : option (Z * Z)) name : M pub_state bool :=
  loaded ← load;
  if dmem name loaded.1 then
    let entries := ddel name loaded.1 in
    modify (edit_cache loaded.2 entries);;
    _save io entries;;
    mret true
  else mret false.

(** What a visitor may see of a slot's state. *)
Definition public_view (state : jdict) : jdict :=
  match dget (§"public") state with Some (JObj d) => d | _ => [] end.

(** ** Reading an entry *)

Lemma account_list_spec l ws :
  account_list l = Some ws ↔ l = map JStr ws ∧ [] ∉ ws.
Proof.
  unfold account_list. revert ws. induction l as [|v l IH]; intros ws; simpl.
  - unfold mret, option_ret. split; [intros [= <-]; split; [done|set_solver]|].
    intros [E _]. by destruct ws.
  - rewrite bind_Some. setoid_rewrite bind_Some. setoid_rewrite IH. split.
    + intros (w & Hv & ws' & [-> Hn] & E). injection E as <-.
      destruct v as [| | | |[|c s]| |]; simplify_eq. split; [done|set_solver].
    + intros [E Hn]. destruct ws as [|w ws]; simplify_eq/=. exists w.
      split; [destruct w; [set_solver|done]|].
      exists ws. split; [split; [done|set_solver]|done].
Qed.

Lemma account_list_strs ws : [] ∉ ws → account_list (map JStr ws) = Some ws.
Proof. intros Hn. by apply account_list_spec. Qed.

Lemma allow_of_nonempty entry l : _allow_of entry = Some l → [] ∉ l.
Proof.
  unfold _allow_of. repeat case_match; intros; simplify_eq; try set_solver.
  destruct (account_list _) eqn:Ha; simpl; [|set_solver].
  by apply account_list_spec in Ha as [_ ?].
Qed.

Lemma mode_of_in entry : _mode_of entry ∈ MODES.
Proof. unfold _mode_of, MODES. repeat case_match; try done; set_solver. Qed.

Lemma slot_of_not_nil entry : slot_of entry ≠ [].
Proof. unfold slot_of. by repeat case_match. Qed.

Lemma mode_of_normalise entry : _mode_of (normalise entry) = _mode_of entry.
Proof.
  unfold _mode_of at 1, normalise. cbn [dget].
  rewrite decide_False by discriminate. rewrite decide_True by done.
  by rewrite decide_True by apply mode_of_in.
Qed.

Lemma allow_of_normalise entry : _allow_of (normalise entry) = _allow_of entry.
Proof.
  unfold _allow_of at 1, normalise. cbn [dget].
  do 3 rewrite decide_False by discriminate. rewrite decide_True by done.
  destruct (_allow_of entry) as [l|] eqn:Ha; [|done].
  by rewrite account_list_strs by by eapply allow_of_nonempty.
Qed.

Lemma slot_of_normalise entry : slot_of (normalise entry) = slot_of entry.
Proof.
  unfold slot_of at 1, normalise. cbn [dget]. rewrite decide_True by done.
  pose proof (slot_of_not_nil entry). by destruct (slot_of entry).
Qed.

Lemma allows_normalise_agree entry who : allows (Some (normalise entry)) who = allows (Some entry) who.
Proof. unfold allows. by rewrite mode_of_normalise, allow_of_normalise. Qed.

Lemma text_mode_normalise entry : text_at (§"mode") (normalise entry) = _mode_of entry.
Proof. reflexivity. Qed.
Lemma text_slot_normalise entry : text_at (§"slot") (normalise entry) = slot_of entry.
Proof. reflexivity. Qed.

Lemma runnable_normalise entry :
  is_true (dget (§"runnable") (normalise entry)) = true →
  _mode_of entry = MODE_IDENTITY ∧ dget (§"runnable") entry = Some (JBool true).
Proof.
  change (is_true (dget (§"runnable") (normalise entry)))
    with (is_true (Some (JBool (_runnable_of entry (_mode_of entry))))).
  intros Hr. destruct (_runnable_of entry (_mode_of entry)) eqn:Hrun; [|done].
  unfold _runnable_of in Hrun. bools. split; [done|]. clear Hr.
  unfold is_true in *. by repeat case_match; simplify_eq.
Qed.

(** Who a page opens to, read off the raw entry: [allows] answers yes
    for a named account exactly when the entry has a [mode] other than
    [public] and its [allow] is absent, [null], or a well-formed list holding
    that account.  Every other shape, a corrupt list included, admits nobody. *)
Theorem allows_spec entry who :
  allows (Some entry) (Some who) = true ↔
  who ≠ [] ∧
  (dget (§"mode") entry ≠ None ∧ dget (§"mode") entry ≠ Some (JStr MODE_PUBLIC)) ∧
  (dget (§"allow") entry = None ∨ dget (§"allow") entry = Some JNull ∨
   ∃ ws, dget (§"allow") entry = Some (JArr (map JStr ws)) ∧ [] ∉ ws ∧ who ∈ ws).
Proof.
  assert (_mode_of entry = MODE_IDENTITY ↔
          dget (§"mode") entry ≠ None ∧ dget (§"mode") entry ≠ Some (JStr MODE_PUBLIC)) as <-.
  { unfold _mode_of. destruct (dget (§"mode") entry) as [v|]; [|naive_solver].
    destruct v as [| | | |raw| |]; try naive_solver.
    case_decide as Hin; unfold MODES in Hin; set_unfold; naive_solver. }
  destruct who as [|c who]; [simpl; naive_solver|]. simpl.
  case_decide as Hm; [|naive_solver]. unfold _allow_of.
  destruct (dget (§"allow") entry) as [v|]; [|naive_solver].
  destruct v as [| | | | |l|]; [naive_solver|try (split; [done|naive_solver])..].
  rewrite bool_decide_eq_true. destruct (account_list l) as [ws|] eqn:Ha; simpl.
  - apply account_list_spec in Ha as [-> Hn]. split; [eauto 10|].
    intros (_ & _ & [?|[?|(ws' & [= E] & Hn' & ?)]]); try done.
    assert (Some ws = Some ws') as [= ->] by (rewrite <- !account_list_strs by done; by rewrite E).
    done.
  - split; [set_solver|].
    intros (_ & _ & [?|[?|(ws' & [= ->] & Hn & ?)]]); try done.
    by rewrite account_list_strs in Ha.
Qed.

(** ** The list over time *)

(** The entries the file holds now. *)
Definition entries_of (s : pub_state) : dict pystr jdict :=
  match p_file s with Some f => dict_entries (pf_doc f) | None => [] end.

(** The cache agrees with the file whenever the stamps do. *)
Definition coherent (s : pub_state) : Prop :=
  match p_cache s, p_file s with
  | Some (stamp, es), Some f =>
      stamp = pf_stamp f → es = dict_entries (pf_doc f)
  | _, _ => True
  end.

(** The answer [published_entry] owes its callers, read straight off the file. *)
Definition entry_spec (s : pub_state) name : option jdict :=
  if valid_name name then
    match dget name (entries_of s) with
    | Some ((_ :: _) as entry) => Some (normalise entry)
    | _ => None
    end
  else None.

Lemma load_spec s :
  coherent s →
  ∃ alias s', load s = (Ok (entries_of s, alias), s') ∧ p_file s' = p_file s ∧ coherent s' ∧
              (alias = true → p_cache s' = Some (default (0, 0)%Z (pf_stamp <$> p_file s), entries_of s)).
Proof.
  unfold coherent, load, entries_of. destruct s as [[f|] c]; simpl; [|by eexists _, _].
  destruct c as [[stamp es]|]; simpl.
  - intros Hc. case_decide as Hst; subst.
    + rewrite Hc by done. eexists _, _. by split_and!.
    + destruct (pf_doc f) as [[]|] eqn:Hd; eexists _, _; split_and!;
        try reflexivity; simpl; rewrite ?Hd; done.
  - intros _. destruct (pf_doc f) as [[]|] eqn:Hd; eexists _, _; split_and!;
      try reflexivity; simpl; rewrite ?Hd; done.
Qed.

Lemma published_entry_run s name :
  coherent s →
  ∃ s', published_entry name s = (Ok (entry_spec s name), s') ∧
        p_file s' = p_file s ∧ coherent s'.
Proof.
  intros Hc. unfold published_entry, entry_spec, _validate.
  rewrite default_slot_valid, andb_true_r. destruct (valid_name name); [|by eexists].
  destruct (load_spec s Hc) as (al & s' & Hl & Hf & Hc' & _).
  exists s'. unfold mbind, M_bind. rewrite Hl. simpl. done.
Qed.

(** One step of the world the server process lives in: the process consults the
    list, or another process (the CLI, an editor) replaces or removes the file.
    A replaced file carries a stamp other than the cached one, which is what
    caching on the modification stamp relies on. *)
Inductive pub_step : pub_state → pub_state → Prop :=
  | step_consult s s' name r :
      published_entry name s = (r, s') → pub_step s s'
  | step_replace s doc stamp :
      (∀ st es, p_cache s = Some (st, es) → st ≠ stamp) →
      pub_step s {| p_file := Some {| pf_doc := doc; pf_stamp := stamp |};
                    p_cache := p_cache s |}
  | step_remove s :
      pub_step s {| p_file := None; p_cache := p_cache s |}.

Lemma pub_step_coherent s s' : coherent s → pub_step s s' → coherent s'.
Proof.
  intros Hc Hs. destruct Hs as [s0 s0' name r Hp|s0 doc stamp Hst|s0].
  - destruct (published_entry_run s0 name Hc) as (s1 & Hs1 & _ & Hc1).
    rewrite Hs1 in Hp. by simplify_eq.
  - unfold coherent in *; simpl. destruct (p_cache s0) as [[st es]|]; [|done]. intros ->. by destruct (Hst _ _ eq_refl).
  - unfold coherent; simpl. by repeat case_match.
Qed.

(** The server always answers from the list as it is on disk: after any
    history of lookups, replacements and removals of the file, [published_entry]
    returns the normalised entry of the current file, so a page taken off the
    list stops being served at once. *)
Theorem published_entry_fresh s name :
  rtc pub_step {| p_file := None; p_cache := None |} s →
  (published_entry name s).1 = Ok (entry_spec s name).
Proof.
  intros Hr. assert (coherent s) as Hc.
  { remember {| p_file := None; p_cache := None |} as s0 eqn:E0.
    assert (coherent s0) as H0' by by subst. clear E0.
    induction Hr; eauto using pub_step_coherent. }
  by destruct (published_entry_run s name Hc) as (s' & -> & _).
Qed.

(** ** Publishing and taking back *)

Lemma publish_guard_valid name slot mode allow runnable :
  publish_guard name slot mode allow runnable = Ok tt →
  valid_name name = true ∧ valid_name slot = true ∧ mode ∈ MODES ∧
  (∀ l, allow = Some l → l ≠ [] ∧ [] ∉ l ∧ mode = MODE_IDENTITY) ∧
  (runnable = true → mode = MODE_IDENTITY).
Proof.
  unfold publish_guard, _validate.
  destruct (valid_name name), (valid_name slot); simpl; try done.
  case_decide as Hm; [done|]. intros Hg.
  assert (runnable = true → mode = MODE_IDENTITY) as Hr.
  { intros ->. destruct (decide (mode = MODE_IDENTITY)) as [|Hne]; [done|].
    rewrite bool_decide_eq_true_2 in Hg by done. by destruct allow; repeat case_decide. }
  split_and!; try done. intros l ->. by repeat case_decide.
Qed.

Lemma publish_run_ok m st s name slot mode allow runnable :
  coherent s → publish_guard name slot mode allow runnable = Ok tt →
  publish m (Some st) name slot mode allow runnable s =
  (Ok (new_entry (wall m) slot mode allow runnable),
   {| p_file := Some {| pf_doc := Some (table_doc
        (dset name (new_entry (wall m) slot mode allow runnable) (entries_of s)));
        pf_stamp := st |};
      p_cache := None |}).
Proof.
  intros Hc Hg. unfold publish, lift_res, mbind, M_bind, modify, _save. rewrite Hg.
  destruct (load_spec s Hc) as (al & s' & Hl & _). by rewrite Hl.
Qed.

Lemma new_entry_normal t slot mode allow runnable name :
  publish_guard name slot mode allow runnable = Ok tt →
  normalise (new_entry t slot mode allow runnable) = new_entry t slot mode allow runnable.
Proof.
  intros (_ & Hs & Hm & Ha & Hr)%publish_guard_valid.
  assert (_mode_of (new_entry t slot mode allow runnable) = mode) as EM.
  { unfold _mode_of, new_entry. cbn [dget]. rewrite decide_False by discriminate.
    rewrite decide_True by done. by rewrite decide_True. }
  assert (_allow_of (new_entry t slot mode allow runnable) = allow) as EA.
  { unfold _allow_of, new_entry. cbn [dget]. do 3 rewrite decide_False by discriminate.
    rewrite decide_True by done. destruct allow as [l|]; [|done].
    destruct (Ha l eq_refl) as (_ & Hn & _). by rewrite account_list_strs. }
  assert (slot_of (new_entry t slot mode allow runnable) = slot) as ES.
  { apply valid_name_spec in Hs as [Hs _]. unfold slot_of, new_entry. cbn [dget].
    rewrite decide_True by done. by destruct slot. }
  assert (_runnable_of (new_entry t slot mode allow runnable) mode = runnable) as ER.
  { unfold _runnable_of. change (is_true (Some (JBool runnable)) &&
      bool_decide (mode = MODE_IDENTITY) = runnable).
    destruct runnable; simpl; [|done]. apply bool_decide_eq_true. auto. }
  unfold normalise. by rewrite EM, EA, ES, ER.
Qed.

(** Exposing a page makes exactly that page visible with exactly the
    requested slot, mode, allow list and run permission, leaving every other
    page as it was; taking it back makes it invisible again.  A refused request
    leaves the list untouched. *)
Theorem publish_unpublish_roundtrip m st st' s name slot mode allow runnable :
  coherent s → dict_wf (entries_of s) →
  match publish_guard name slot mode allow runnable with
  | Ok _ =>
      ∃ s1 s2,
        publish m (Some st) name slot mode allow runnable s =
          (Ok (new_entry (wall m) slot mode allow runnable), s1) ∧
        unpublish (Some st') name s1 = (Ok true, s2) ∧
        entry_spec s1 name = Some (new_entry (wall m) slot mode allow runnable) ∧
        entry_spec s2 name = None ∧
        ∀ other, other ≠ name →
          entry_spec s1 other = entry_spec s other ∧ entry_spec s2 other = entry_spec s other
  | Raise e =>
      publish m (Some st) name slot mode allow runnable s = (Raise e, s)
  end.
Proof.
  intros Hc Hwf. destruct (publish_guard name slot mode allow runnable) as [[]|e] eqn:Hg.
  2:{ unfold publish, lift_res, mbind, M_bind. by rewrite Hg. }
  set (ne := new_entry (wall m) slot mode allow runnable).
  pose proof (publish_run_ok m st s name slot mode allow runnable Hc Hg) as Hp.
  fold ne in Hp. match type of Hp with _ = (_, ?x) => set (s1 := x) in Hp end.
  assert (entries_of s1 = dset name ne (entries_of s)) as E1 by apply dict_entries_table.
  destruct (load_spec s1 I) as (al & s1' & Hl & _).
  assert (∃ s2, unpublish (Some st') name s1 = (Ok true, s2) ∧
                entries_of s2 = ddel name (entries_of s1)) as (s2 & Hu & E2).
  { unfold unpublish, mbind, M_bind. rewrite Hl. cbn [fst snd].
    unfold dmem. rewrite E1, dget_dset_eq. eexists. split; [reflexivity|].
    apply dict_entries_table. }
  destruct (publish_guard_valid _ _ _ _ _ Hg) as [Hname _].
  exists s1, s2. unfold entry_spec. rewrite E2, E1, Hname, dget_dset_eq.
  split_and!; auto.
  - simpl. f_equal. by eapply new_entry_normal.
  - by rewrite dget_ddel_eq by (by apply dset_wf).
  - intros other Hne. by rewrite dget_ddel_ne, dget_dset_ne by done.
Qed.
End publish.

(** ** Evaluation *)
Section demo.
#[local] Existing Instance ascii_db.
#[local] Existing Instance unix_clock.

Definition demo_list (pages : dict pystr jdict) (stamp : Z) : pub_state :=
  {| p_file := Some {| pf_doc := Some (table_doc pages); pf_stamp := (stamp, 0)%Z |}; p_cache := None |}.

(** The list is written, consulted and replaced by an empty one. *)
Lemma published_entry_fresh_witness :
  let first := demo_list [(§"notes", [(§"slot", JStr (§"main"))])] 1 in
  let s := {| p_file := Some {| pf_doc := Some (JObj []); pf_stamp := (2, 0)%Z |};
              p_cache := p_cache (published_entry (§"notes") first).2 |} in
  (published_entry (§"notes") first).1 ≠ Ok None ∧ (published_entry (§"notes") s).1 = Ok None.
Proof.
  intros first s. split; [by vm_compute|].
  refine (eq_trans (published_entry_fresh s (§"notes") _) _); [|by vm_compute].
  eapply rtc_l; [apply (step_replace _ (Some (table_doc [(§"notes", [(§"slot", JStr (§"main"))])])) (1, 0)%Z);
    by intros st es [=]|].
  eapply rtc_l; [eapply (step_consult _ _ (§"notes")); apply surjective_pairing|].
  apply rtc_once. apply (step_replace (published_entry (§"notes") first).2).
  intros st es Hc. vm_compute in Hc. by injection Hc as <- _.
Defined.

Lemma publish_unpublish_roundtrip_witness :
  ∃ s1 s2, publish (plain_machine ∅) (Some (1, 0)%Z) (§"notes") (§"main") MODE_IDENTITY
      (Some [§"ann"]) true (demo_list [] 0)
    = (Ok (new_entry 0 (§"main") MODE_IDENTITY (Some [§"ann"]) true), s1) ∧
    unpublish (Some (2, 0)%Z) (§"notes") s1 = (Ok true, s2) ∧ entry_spec s2 (§"notes") = None.
Proof.
  destruct (publish_unpublish_roundtrip (plain_machine ∅) (1, 0)%Z (2, 0)%Z (demo_list [] 0) (§"notes")
    (§"main") MODE_IDENTITY (Some [§"ann"]) true I (NoDup_nil_2)) as (s1 & s2 & Hp & Hu & _ & Hn & _).
  exists s1, s2. split_and!; [exact Hp|exact Hu|exact Hn].
Defined.
End demo.
