(* ===== verification/RateLimit.v ===== *)
(** * Rate limiting and back-off

    The two in-memory counters of server/identity.py: a token bucket per key
    ([RateLimiter]) and a growing delay after consecutive failures ([Backoff]).
    Python floats are modelled as exact rationals; the one place where their
    range matters, the power in [Backoff.fail], keeps its overflow. *)

From Stdlib Require Import QArith Qminmax Qpower Lqa.
From S2P Require Import Prelude PyStr Env.
From stdpp Require Import prelude gmap list strings.

Local Open Scope Q_scope.

(** ** Token buckets *)

Record RateLimiter := {
  capacity : Q;
  window : Q;
  _buckets : gmap pystr (Q * Q);
}.

Definition new_limiter (cap win : Z) : RateLimiter :=
  {| capacity := inject_Z cap; window := inject_Z win; _buckets := ∅ |}.

(** The tokens of a bucket at time [now], refilled since it was last touched. *)
Definition refill (l : RateLimiter) (bucket : Q * Q) (now : Q) : Q :=
  Qmin (capacity l) (bucket.1 + (now - bucket.2) * capacity l / window l).

Definition set_bucket (l : RateLimiter) (key : pystr) (b : Q * Q) : RateLimiter :=
  {| capacity := capacity l; window := window l; _buckets := <[key := b]> (_buckets l) |}.

(** [RateLimiter.allow]: spend one token; [None] is never limited. *)
Definition allow (now : Q) (key : option pystr) (l : RateLimiter) : bool * RateLimiter :=
  match key with
  | None => (true, l)
  | Some k =>
      let tokens := refill l (default (capacity l, now) (_buckets l !! k)) now in
      if Qle_bool 1 tokens then (true, set_bucket l k (tokens - 1, now))
      else (false, set_bucket l k (tokens, now))
  end.

(** [RateLimiter.reset]. *)
Definition reset (l : RateLimiter) : RateLimiter :=
  {| capacity := capacity l; window := window l; _buckets := ∅ |}.

(** A history of calls, and how many of them were let through for one key. *)
Fixpoint serve (evs : list (Q * option pystr)) (l : RateLimiter) : list bool * RateLimiter :=
  match evs with
  | [] => ([], l)
  | (t, k) :: evs =>
      let '(b, l) := allow t k l in
      let '(bs, l) := serve evs l in
      (b :: bs, l)
  end.

Fixpoint admitted (key : pystr) (evs : list (Q * option pystr)) (l : RateLimiter) : Z :=
  match evs with
  | [] => 0
  | (t, k) :: evs =>
      let '(b, l') := allow t k l in
      ((if b && bool_decide (k = Some key) then 1 else 0) + admitted key evs l')%Z
  end.

(** ** Growing delays *)

Record Backoff := {
  free_attempts : Z;
  base : Q;
  cap : Q;
  _state : gmap pystr (Z * Q);
}.

(** [Backoff()] with its default arguments. *)
Definition new_backoff : Backoff :=
  {| free_attempts := 5; base := 2; cap := 300; _state := ∅ |}.

(** [Backoff.remaining]. *)
Definition remaining (now : Q) (key : pystr) (b : Backoff) : Q :=
  let '(failures, until) := default (0%Z, 0) (_state b !! key) in
  if Z.eqb failures 0 then 0 else Qmax 0 (until - now).

(** [x ** n] on floats, for a positive integer exponent: a result that does
    not fit below 2^1024 is an [OverflowError]. *)
Definition float_pow (x : Q) (n : Z) : res Q :=
  let v := Qpower x n in
  if Qle_bool (Qpower 2 1024) v then Raise OverflowError else Ok v.

(** The delay after [failures] consecutive failures. *)
Definition backoff_delay (b : Backoff) (failures : Z) : res Q :=
  if Z.ltb (free_attempts b) failures then
    p ← float_pow (base b) (failures - free_attempts b);
    Ok (Qmin (cap b) p)
  else Ok 0.

Definition set_state (b : Backoff) (st : gmap pystr (Z * Q)) : Backoff :=
  {| free_attempts := free_attempts b; base := base b; cap := cap b; _state := st |}.

(** [Backoff.fail]. *)
Definition fail_key (now : Q) (key : pystr) : M Backoff unit := λ b,
  let failures := ((default (0%Z, 0%Q) (_state b !! key)).1 + 1)%Z in
  match backoff_delay b failures with
  | Ok delay => (Ok tt, set_state b (<[key := (failures, now + delay)]> (_state b)))
  | Raise e => (Raise e, b)
  end.

(** [Backoff.clear] and [Backoff.reset]. *)
Definition clear_key (key : pystr) (b : Backoff) : Backoff :=
  set_state b (delete key (_state b)).
Definition reset_backoff (b : Backoff) : Backoff := set_state b ∅.

(** ** The counters the server holds *)

Record limits := {
  LOGIN_LIMIT : RateLimiter;
  SIGNUP_LIMIT : RateLimiter;
  LOGIN_BACKOFF : Backoff;
  VISITOR_REQUEST_LIMIT : RateLimiter;
}.

Section Counters.
  Context `{Unicode}.

(** The counters as the module creates them from the environment. *)
Definition initial_limits (mc : machine) : limits :=
  {| LOGIN_LIMIT := new_limiter 30 300;
     SIGNUP_LIMIT := new_limiter 5 3600;
     LOGIN_BACKOFF := new_backoff;
     VISITOR_REQUEST_LIMIT :=
       new_limiter (_visitor_rate_env mc (§"FRAGO_VISITOR_BURST") 240)
                   (_visitor_rate_env mc (§"FRAGO_VISITOR_WINDOW") 60) |}.

End Counters.

Definition reset_rate_limits (ls : limits) : limits :=
  {| LOGIN_LIMIT := reset (LOGIN_LIMIT ls);
     SIGNUP_LIMIT := reset (SIGNUP_LIMIT ls);
     LOGIN_BACKOFF := reset_backoff (LOGIN_BACKOFF ls);
     VISITOR_REQUEST_LIMIT := reset (VISITOR_REQUEST_LIMIT ls) |}.

Definition allow_visitor_request (now : Q) (identity : option pystr) (ls : limits)
    : bool * limits :=
  let '(b, l) := allow now identity (VISITOR_REQUEST_LIMIT ls) in
  (b, {| LOGIN_LIMIT := LOGIN_LIMIT ls; SIGNUP_LIMIT := SIGNUP_LIMIT ls;
         LOGIN_BACKOFF := LOGIN_BACKOFF ls; VISITOR_REQUEST_LIMIT := l |}).

Definition allow_login (now : Q) (ip : option pystr) (ls : limits) : bool * limits :=
  let '(b, l) := allow now ip (LOGIN_LIMIT ls) in
  (b, {| LOGIN_LIMIT := l; SIGNUP_LIMIT := SIGNUP_LIMIT ls;
         LOGIN_BACKOFF := LOGIN_BACKOFF ls;
         VISITOR_REQUEST_LIMIT := VISITOR_REQUEST_LIMIT ls |}).

Definition allow_signup (now : Q) (ip : option pystr) (ls : limits) : bool * limits :=
  let '(b, l) := allow now ip (SIGNUP_LIMIT ls) in
  (b, {| LOGIN_LIMIT := LOGIN_LIMIT ls; SIGNUP_LIMIT := l;
         LOGIN_BACKOFF := LOGIN_BACKOFF ls;
         VISITOR_REQUEST_LIMIT := VISITOR_REQUEST_LIMIT ls |}).

Definition with_backoff (ls : limits) (b : Backoff) : limits :=
  {| LOGIN_LIMIT := LOGIN_LIMIT ls; SIGNUP_LIMIT := SIGNUP_LIMIT ls;
     LOGIN_BACKOFF := b; VISITOR_REQUEST_LIMIT := VISITOR_REQUEST_LIMIT ls |}.

Definition login_backoff_remaining (now : Q) (user_id : pystr) (ls : limits) : Q :=
  remaining now user_id (LOGIN_BACKOFF ls).

Definition note_login_failure (now : Q) (user_id : pystr) : M limits unit := λ ls,
  let '(r, b) := fail_key now user_id (LOGIN_BACKOFF ls) in (r, with_backoff ls b).

Definition note_login_success (user_id : pystr) (ls : limits) : limits :=
  with_backoff ls (clear_key user_id (LOGIN_BACKOFF ls)).

(** ** What a token bucket promises *)

Definition rate (l : RateLimiter) : Q := capacity l / window l.

Definition level (l : RateLimiter) (k : pystr) (t : Q) : Q :=
  refill l (default (capacity l, t) (_buckets l !! k)) t.

(** A limiter as the code can leave it at time [t]. *)
Definition limiter_wf (l : RateLimiter) (t : Q) : Prop :=
  1 <= capacity l ∧ 0 < window l ∧
  map_Forall (λ _ b, 0 <= b.1 ∧ b.1 <= capacity l ∧ b.2 <= t) (_buckets l).

(** The calls of a history happen one after the other between [t0] and [t1]. *)
Fixpoint within (t0 t1 : Q) (evs : list (Q * option pystr)) : Prop :=
  match evs with
  | [] => t0 <= t1
  | (t, _) :: evs => t0 <= t ∧ within t t1 evs
  end.

Lemma within_le t0 t1 evs : within t0 t1 evs → t0 <= t1.
Proof.
  revert t0. induction evs as [|[t k] evs IH]; intros t0; simpl; [done|].
  intros [? ?%IH]. lra.
Qed.

Lemma Qmin_cases x y : (Qmin x y == x ∧ x <= y) ∨ (Qmin x y == y ∧ y <= x).
Proof. destruct (Q.min_spec x y) as [[? ?]|[? ?]]; [left|right]; split; lra. Qed.

Ltac qmin :=
  repeat match goal with
  | |- context [Qmin ?x ?y] =>
      let H := fresh in destruct (Qmin_cases x y) as [H|H]; destruct H;
      let m := fresh in set (m := Qmin x y) in *; clearbody m
  end.

Lemma refill_rate l (b : Q * Q) t : (t - b.2) * capacity l / window l == (t - b.2) * rate l.
Proof. unfold rate, Qdiv. ring. Qed.

Lemma rate_pos l t : limiter_wf l t → 0 <= rate l.
Proof.
  intros (Hc & Hw & _). unfold rate, Qdiv.
  apply Qmult_le_0_compat; [lra|]. apply Qlt_le_weak, Qinv_lt_0_compat, Hw.
Qed.

Lemma scaled_pos l t x : limiter_wf l t → 0 <= x → 0 <= x * rate l.
Proof. intros Hwf Hx. apply Qmult_le_0_compat; [done|]. by eapply rate_pos. Qed.

Lemma level_bounds l k t : limiter_wf l t → 0 <= level l k t ∧ level l k t <= capacity l.
Proof.
  intros Hwf. pose proof Hwf as (Hc & Hw & Hb). unfold level, refill.
  destruct (_buckets l !! k) as [b|] eqn:E; simpl.
  - destruct (Hb _ _ E) as (? & ? & ?).
    pose proof (scaled_pos l t (t - b.2) Hwf ltac:(lra)).
    pose proof (refill_rate l b t). qmin; lra.
  - pose proof (refill_rate l (capacity l, t) t) as Hr. simpl in Hr.
    assert ((t - t) * rate l == 0) by ring. qmin; lra.
Qed.

(** Between two instants a bucket gains at most the rate times the delay. *)
Lemma level_later l k t t' : limiter_wf l t → t <= t' →
  level l k t' <= level l k t + (t' - t) * rate l.
Proof.
  intros Hwf Ht. pose proof (scaled_pos l t (t' - t) Hwf ltac:(lra)) as Hd.
  unfold level, refill. destruct (_buckets l !! k) as [b|] eqn:E; simpl.
  - pose proof (refill_rate l b t). pose proof (refill_rate l b t').
    assert ((t' - b.2) * rate l == (t - b.2) * rate l + (t' - t) * rate l) by ring.
    qmin; lra.
  - pose proof (refill_rate l (capacity l, t) t) as H1.
    pose proof (refill_rate l (capacity l, t') t') as H2. simpl in *.
    assert ((t - t) * rate l == 0) by ring. assert ((t' - t') * rate l == 0) by ring.
    qmin; lra.
Qed.

Lemma limiter_wf_later l t t' : limiter_wf l t → t <= t' → limiter_wf l t'.
Proof.
  intros (? & ? & Hb) Ht. split_and!; [done..|].
  intros k b E. destruct (Hb _ _ E) as (? & ? & ?). split_and!; lra.
Qed.

Lemma set_bucket_wf l k x t : limiter_wf l t → 0 <= x → x <= capacity l →
  limiter_wf (set_bucket l k (x, t)) t.
Proof.
  intros (? & ? & Hb) ? ?. split_and!; [done..|]. simpl.
  apply map_Forall_insert_2; [simpl; split_and!; lra|done].
Qed.

Lemma level_set_bucket l k x t : limiter_wf l t → 0 <= x → x <= capacity l →
  level (set_bucket l k (x, t)) k t == x.
Proof.
  intros (? & ? & _) ? ?. unfold level, refill. simpl. rewrite lookup_insert_eq. simpl.
  pose proof (refill_rate l (x, t) t) as Hr. simpl in Hr.
  assert ((t - t) * rate l == 0) by ring. qmin; lra.
Qed.

Lemma level_set_bucket_ne l k k' b t : k' ≠ k →
  level (set_bucket l k' b) k t = level l k t.
Proof. intros. unfold level, refill. simpl. by rewrite lookup_insert_ne. Qed.

(** One call: it keeps the limiter well formed, spends a whole token of its own
    key's bucket exactly when it lets the caller through, and touches no other. *)
Lemma allow_step l t key k : limiter_wf l t →
  let '(b, l') := allow t key l in
  limiter_wf l' t ∧ rate l' = rate l ∧ capacity l' = capacity l ∧
  level l' k t == level l k t
    - inject_Z (if b && bool_decide (key = Some k) then 1 else 0).
Proof.
  intros Hwf. unfold allow. destruct key as [k'|].
  2: { rewrite bool_decide_eq_false_2 by done. simpl. split_and!; [done..|]. unfold inject_Z. lra. }
  pose proof (level_bounds l k' t Hwf) as Hb. fold (level l k' t).
  set (b := Qle_bool 1 (level l k' t)).
  assert (Hx : ∃ x, (if b then (true, set_bucket l k' (level l k' t - 1, t))
      else (false, set_bucket l k' (level l k' t, t))) = (b, set_bucket l k' (x, t))
      ∧ 0 <= x ∧ x <= capacity l ∧ x == level l k' t - inject_Z (if b then 1 else 0)).
  { subst b. destruct (Qle_bool 1 _) eqn:E; eexists; split; try reflexivity; unfold inject_Z.
    - apply Qle_bool_iff in E. split_and!; lra.
    - split_and!; lra. }
  destruct Hx as (x & -> & H0 & Hc & Hx). split_and!; [by apply set_bucket_wf|done..|].
  destruct (decide (k' = k)) as [->|Hne].
  - rewrite bool_decide_eq_true_2, andb_true_r by done. by rewrite level_set_bucket.
  - rewrite bool_decide_eq_false_2, andb_false_r by congruence.
    rewrite level_set_bucket_ne by done. unfold inject_Z. lra.
Qed.

Lemma admitted_level k evs : ∀ l t0 t1, limiter_wf l t0 → within t0 t1 evs →
  inject_Z (admitted k evs l) <= level l k t0 + (t1 - t0) * rate l.
Proof.
  induction evs as [|[t key] evs IH]; intros l t0 t1 Hwf Hin; simpl in *.
  - pose proof (level_bounds l k t0 Hwf).
    pose proof (scaled_pos l t0 (t1 - t0) Hwf ltac:(lra)). unfold inject_Z at 1. lra.
  - destruct Hin as [Ht Hin]. pose proof (limiter_wf_later l t0 t Hwf Ht) as Hwf'.
    pose proof (allow_step l t key k Hwf') as Hs. destruct (allow t key l) as [b l'].
    destruct Hs as (Hw & Hr & Hc & Hl).
    pose proof (IH l' t t1 Hw Hin) as Hi. rewrite Hr in Hi.
    pose proof (level_later l k t0 t Hwf Ht). rewrite inject_Z_plus.
    assert ((t1 - t0) * rate l == (t1 - t) * rate l + (t - t0) * rate l) by ring. lra.
Qed.

Lemma serve_wf evs : ∀ l t0 t1, limiter_wf l t0 → within t0 t1 evs →
  limiter_wf (serve evs l).2 t1 ∧ rate (serve evs l).2 = rate l ∧
  capacity (serve evs l).2 = capacity l.
Proof.
  induction evs as [|[t key] evs IH]; intros l t0 t1 Hwf Hin; simpl in *.
  - split_and!; [by eapply limiter_wf_later|done..].
  - destruct Hin as [Ht Hin].
    pose proof (allow_step l t key [] (limiter_wf_later l t0 t Hwf Ht)) as Hs.
    destruct (allow t key l) as [b l']. destruct Hs as (Hw & Hr & Hc & _).
    destruct (IH l' t t1 Hw Hin) as (? & Hr' & Hc').
    destruct (serve evs l'); simpl in *. split_and!; congruence || done.
Qed.

Lemma new_limiter_wf c w t : (0 < c)%Z → (0 < w)%Z → limiter_wf (new_limiter c w) t.
Proof.
  intros Hc Hw. split_and!; simpl; [|by rewrite Zlt_Qlt in Hw|apply map_Forall_empty].
  change 1 with (inject_Z 1). rewrite <- Zle_Qle. lia.
Qed.

(** C40. A token bucket is a real limit.  Take a limiter of capacity [c] per
    window [w], any past history of calls for any keys, and any later stretch of
    time from [t0] to [t1]: whatever the interleaving with other keys, the calls
    let through for one key in that stretch number at most the burst [c] plus
    the refill [(t1 - t0) * c / w]. *)
Theorem allow_rate_bound (c w : Z) (past evs : list (Q * option pystr)) (k : pystr)
    (start t0 t1 : Q) :
  (0 < c)%Z → (0 < w)%Z → within start t0 past → within t0 t1 evs →
  inject_Z (admitted k evs (serve past (new_limiter c w)).2)
    <= inject_Z c + (t1 - t0) * (inject_Z c / inject_Z w).
Proof.
  intros Hc Hw Hp He.
  destruct (serve_wf past _ start t0 (new_limiter_wf c w start Hc Hw) Hp) as (Hwf & Hr & Hcap).
  pose proof (admitted_level k evs _ t0 t1 Hwf He) as Ha.
  pose proof (level_bounds _ k t0 Hwf) as Hl. rewrite Hr in Ha. rewrite Hcap in Hl.
  unfold rate in Ha. simpl in *. lra.
Qed.

Lemma allow_rate_bound_witness :
  admitted (§"ann") [(10, Some (§"ann")); (11, Some (§"bob")); (12, Some (§"ann"))]
     (serve [(1, Some (§"ann")); (2, Some (§"ann"))] (new_limiter 2 60)).2 = 0%Z ∧
  inject_Z (admitted (§"ann") [(10, Some (§"ann")); (11, Some (§"bob")); (12, Some (§"ann"))]
     (serve [(1, Some (§"ann")); (2, Some (§"ann"))] (new_limiter 2 60)).2)
    <= inject_Z 2 + (12 - 10) * (inject_Z 2 / inject_Z 60).
Proof.
  split; [vm_compute; reflexivity|].
  apply (allow_rate_bound 2 60 _ _ (§"ann") 0 10 12); try lia; simpl; repeat split; lra.
Defined.

(** A caller who keeps to the refill rate is never refused: when the last
    call for a key is at least [w / c] seconds old (or there was none), the next
    one is let through, after any history. *)
Theorem allow_patient (c w : Z) (past : list (Q * option pystr)) (k : pystr) (start t now : Q) :
  (0 < c)%Z → (0 < w)%Z → within start t past → t <= now →
  (∀ b, _buckets (serve past (new_limiter c w)).2 !! k = Some b →
     inject_Z w / inject_Z c <= now - b.2) →
  (allow now (Some k) (serve past (new_limiter c w)).2).1 = true.
Proof.
  intros Hc Hw Hp Ht Hold.
  destruct (serve_wf past _ start t (new_limiter_wf c w start Hc Hw) Hp) as (Hwf & Hr & Hcap).
  set (l := (serve past (new_limiter c w)).2) in *.
  assert (Hlev : 1 <= level l k now).
  { unfold level, refill. destruct Hwf as (H1 & Hpos & Hb).
    destruct (_buckets l !! k) as [b|] eqn:E; simpl.
    - destruct (Hb _ _ E) as (? & _ & _). specialize (Hold b eq_refl).
      pose proof (refill_rate l b now) as Hrr. rewrite Hr in Hrr.
      assert (Hcp : 0 < inject_Z c) by (by rewrite Zlt_Qlt in Hc).
      assert (Hwp : 0 < inject_Z w) by (by rewrite Zlt_Qlt in Hw).
      assert (1 <= (now - b.2) * rate (new_limiter c w)).
      { unfold rate. simpl.
        assert (He : 1 == inject_Z w / inject_Z c * (inject_Z c / inject_Z w))
          by (field; split; lra).
        rewrite He. apply Qmult_le_compat_r; [done|].
        apply Qlt_le_weak, Qlt_shift_div_l; lra. }
      qmin; lra.
    - pose proof (refill_rate l (capacity l, now) now) as H2. simpl in H2.
      assert ((now - now) * rate l == 0) by ring. qmin; lra. }
  apply Qle_bool_iff in Hlev. unfold allow. fold (level l k now). by rewrite Hlev.
Qed.

Lemma allow_patient_witness :
  (allow 40 (Some (§"ann")) (serve [(1, Some (§"ann")); (2, Some (§"ann")); (3, Some (§"ann"))]
     (new_limiter 2 60)).2).1 = true.
Proof.
  apply (allow_patient 2 60 _ (§"ann") 0 5 40); try lia; try lra; [simpl; repeat split; lra|].
  intros b Hb. vm_compute in Hb. injection Hb as <-. vm_compute. discriminate.
Defined.

(** ** What the back-off promises *)

Inductive backoff_event :=
| BFail (t : Q) (k : pystr)
| BClear (k : pystr).

Definition backoff_step (b : Backoff) (e : backoff_event) : Backoff :=
  match e with
  | BFail t k => (fail_key t k b).2
  | BClear k => clear_key k b
  end.

Definition backoff_after (b : Backoff) (es : list backoff_event) : Backoff :=
  foldl backoff_step b es.

Definition fails (k : pystr) (ts : list Q) : list backoff_event := (λ t, BFail t k) <$> ts.

Definition happened_by (now : Q) (e : backoff_event) : Prop :=
  match e with BFail t _ => t <= now | BClear _ => True end.

Definition failures_of (k : pystr) (b : Backoff) : Z := (default (0%Z, 0) (_state b !! k)).1.

(** The limits of the default back-off, which no operation changes. *)
Definition default_params (b : Backoff) : Prop :=
  free_attempts b = 5%Z ∧ base b = 2 ∧ cap b = 300.

Lemma pow2_overflows n : (0 <= n)%Z →
  Qle_bool (Qpower 2 1024) (Qpower 2 n) = (1024 <=? n)%Z.
Proof.
  intros Hn.
  assert (Hp : ∀ m, (0 <= m)%Z → Qpower 2 m == inject_Z (2 ^ m)).
  { intros m Hm. change 2 with (inject_Z 2). symmetry. by apply Zpower_Qpower. }
  apply eq_true_iff_eq. rewrite Qle_bool_iff, Z.leb_le, !Hp by lia.
  rewrite <- Zle_Qle. symmetry. apply Z.pow_le_mono_r_iff; lia.
Qed.

Lemma backoff_delay_default b f : default_params b → (0 <= f)%Z →
  backoff_delay b f =
    if (f <=? 5)%Z then Ok 0
    else if (f <? 1029)%Z then Ok (Qmin 300 (Qpower 2 (f - 5))) else Raise OverflowError.
Proof.
  intros (Hf & Hb & Hc) H0. unfold backoff_delay, float_pow. rewrite Hf, Hb, Hc.
  destruct (5 <? f)%Z eqn:E1; destruct (f <=? 5)%Z eqn:E2; try lia; [|done].
  rewrite pow2_overflows by lia.
  destruct (1024 <=? f - 5)%Z eqn:E3; destruct (f <? 1029)%Z eqn:E4; done || lia.
Qed.

Lemma Qpower_pos_2 n : 0 <= Qpower 2 n.
Proof. apply Qpower_pos. lra. Qed.

Lemma backoff_delay_bound b f d : default_params b → backoff_delay b f = Ok d →
  0 <= d ∧ d <= 300.
Proof.
  intros (Hf & Hb & Hc). unfold backoff_delay, float_pow. rewrite Hf, Hb, Hc.
  destruct (_ <? _)%Z; [|intros [= <-]; lra].
  destruct (Qle_bool _ _); [done|]. cbn. intros [= <-].
  pose proof (Qpower_pos_2 (f - 5)). qmin; lra.
Qed.

Lemma backoff_step_params b e : default_params b → default_params (backoff_step b e).
Proof.
  intros Hb. destruct e; simpl; [|done]. unfold fail_key. by destruct (backoff_delay _ _).
Qed.

Lemma backoff_after_params es b : default_params b → default_params (backoff_after b es).
Proof.
  revert b. induction es as [|e es IH]; intros b Hb; [done|]. simpl.
  by apply IH, backoff_step_params.
Qed.

(** No deadline lies further ahead than the cap. *)
Definition deadlines_by (now : Q) (b : Backoff) : Prop :=
  map_Forall (λ _ s, s.2 <= now + 300) (_state b).

Lemma backoff_step_deadlines now b e : default_params b → happened_by now e →
  deadlines_by now b → deadlines_by now (backoff_step b e).
Proof.
  intros Hp Ht Hd. destruct e as [t k|k]; simpl in *.
  - unfold fail_key. destruct (backoff_delay _ _) as [d|] eqn:E; [|done]. simpl.
    destruct (backoff_delay_bound _ _ _ Hp E).
    apply map_Forall_insert_2; [simpl; lra|done].
  - by apply map_Forall_delete.
Qed.

Lemma backoff_after_deadlines now es b : default_params b → Forall (happened_by now) es →
  deadlines_by now b → deadlines_by now (backoff_after b es).
Proof.
  revert b. induction es as [|e es IH]; intros b Hp Hes Hd; [done|].
  apply Forall_cons in Hes as [He Hes]. simpl.
  apply IH; [by apply backoff_step_params|done|by apply backoff_step_deadlines].
Qed.

(** The back-off is a delay and never a lockout: after any history of
    failures and successes of any accounts, however long, no account is ever
    made to wait more than the 300 second cap. *)
Theorem backoff_never_locks_out (es : list backoff_event) (k : pystr) (now : Q) :
  Forall (happened_by now) es →
  0 <= remaining now k (backoff_after new_backoff es) ∧
  remaining now k (backoff_after new_backoff es) <= 300.
Proof.
  intros Hes.
  assert (Hd : deadlines_by now (backoff_after new_backoff es)).
  { apply backoff_after_deadlines; [done..|]. apply map_Forall_empty. }
  unfold remaining. destruct (_state _ !! k) as [[f u]|] eqn:E; simpl; [|lra].
  destruct (f =? 0)%Z; [lra|]. pose proof (Hd _ _ E) as Hu. simpl in Hu.
  destruct (Q.max_spec 0 (u - now)) as [[? ?]|[? ?]]; lra.
Qed.

Lemma backoff_never_locks_out_witness :
  remaining 7 (§"ann") (backoff_after new_backoff (fails (§"ann") [1; 2; 3; 4; 5; 6; 7])) <= 300.
Proof.
  apply (backoff_never_locks_out (fails (§"ann") [1; 2; 3; 4; 5; 6; 7]) (§"ann") 7).
  repeat constructor; simpl; lra.
Defined.

(** The delay the [n]th consecutive failure earns. *)
Definition nth_delay (n : Z) : Q := if (n <=? 5)%Z then 0 else Qmin 300 (Qpower 2 (n - 5)).

Lemma fail_key_run b t k : default_params b → (0 <= failures_of k b)%Z →
  fail_key t k b =
    if (failures_of k b <? 1028)%Z
    then (Ok tt, set_state b (<[k := ((failures_of k b + 1)%Z,
                                      t + nth_delay (failures_of k b + 1))]> (_state b)))
    else (Raise OverflowError, b).
Proof.
  intros Hp Hf. unfold fail_key, nth_delay. fold (failures_of k b).
  rewrite backoff_delay_default by (done || lia).
  destruct (_ <=? 5)%Z eqn:E1; destruct (failures_of k b <? 1028)%Z eqn:E2;
    destruct (failures_of k b + 1 <? 1029)%Z eqn:E3; done || lia.
Qed.

Lemma fails_run ts t k b : default_params b → failures_of k b = 0%Z →
  (length ts < 1028)%nat →
  _state (backoff_after b (fails k (ts ++ [t]))) !! k =
    Some (Z.of_nat (S (length ts)), t + nth_delay (Z.of_nat (S (length ts)))).
Proof.
  intros Hp Hf. revert t. induction ts as [|x ts IH] using rev_ind; intros t Hlen.
  - simpl. rewrite fail_key_run, Hf by (done || lia). simpl. by rewrite lookup_insert_eq.
  - rewrite length_app in *. simpl in *. unfold fails, backoff_after in *.
    rewrite fmap_app, foldl_app. simpl.
    specialize (IH x ltac:(lia)). set (b' := foldl _ _ _) in *.
    assert (Hf' : failures_of k b' = Z.of_nat (S (length ts))) by (unfold failures_of; by rewrite IH).
    assert (default_params b') by (by apply backoff_after_params).
    rewrite fail_key_run, Hf' by (done || lia).
    destruct (_ <? 1028)%Z eqn:E; [|apply Z.ltb_ge in E; clear -E Hlen; lia]. simpl. rewrite lookup_insert_eq.
    replace (length ts + 1)%nat with (S (length ts)) by lia.
    by replace (Z.of_nat (S (length ts)) + 1)%Z with (Z.of_nat (S (S (length ts)))) by lia.
Qed.

(** The delay schedule: right after the [n]th failure in a row of one
    account, for [n] up to 1028, the account waits nothing for the five free
    attempts and then 2, 4, 8, ... seconds up to the cap, and a success brings
    it back to no wait at all. *)
Theorem backoff_schedule (k : pystr) (ts : list Q) (t now : Q) :
  (length ts < 1028)%nat →
  let b := backoff_after new_backoff (fails k (ts ++ [t])) in
  remaining now k b = Qmax 0 (t + nth_delay (Z.of_nat (S (length ts))) - now) ∧
  remaining now k (clear_key k b) = 0.
Proof.
  intros Hlen b. split.
  - unfold remaining, b. by rewrite fails_run.
  - unfold remaining. simpl. by rewrite lookup_delete_eq.
Qed.

Lemma backoff_schedule_witness :
  let b := backoff_after new_backoff (fails (§"ann") ([1; 2; 3; 4; 5; 6] ++ [7])) in
  remaining 8 (§"ann") b = Qmax 0 (7 + nth_delay 7 - 8) ∧
  nth_delay 7 = 4 ∧ remaining 8 (§"ann") (clear_key (§"ann") b) = 0.
Proof.
  destruct (backoff_schedule (§"ann") [1; 2; 3; 4; 5; 6] 7 8 ltac:(simpl; lia)) as [H1 H2].
  split; [exact H1|split; [vm_compute; reflexivity|exact H2]].
Defined.

(** The schedule has an end: the 1029th failure in a row overflows the
    float power before anything is recorded.  From then on every failure raises
    [OverflowError] and leaves the counters as they were, so once the 300
    seconds of the last recorded failure are over the account has no delay
    left, however many attempts fail. *)
Theorem backoff_overflow_fails_open (k : pystr) (ts more : list Q) (t now : Q) :
  length ts = 1027%nat →
  let b := backoff_after new_backoff (fails k (ts ++ [t])) in
  backoff_after b (fails k more) = b ∧
  (∀ t', (fail_key t' k b).1 = Raise OverflowError) ∧
  (t + 300 <= now → remaining now k (backoff_after b (fails k more)) = 0).
Proof.
  intros Hlen b.
  assert (Hs : _state b !! k = Some (1028%Z, t + nth_delay 1028)).
  { unfold b. by rewrite fails_run, Hlen by (done || lia). }
  assert (Hf : ∀ t', fail_key t' k b = (Raise OverflowError, b)).
  { intros t'. assert (Hk : failures_of k b = 1028%Z) by (unfold failures_of; by rewrite Hs).
    rewrite fail_key_run, Hk by (by apply backoff_after_params || by rewrite Hk). done. }
  assert (Hm : backoff_after b (fails k more) = b).
  { clear Hs. induction more as [|x more IH]; [done|]. simpl. by rewrite Hf. }
  split_and!; [done|intros t'; by rewrite Hf|]. intros Hnow. rewrite Hm.
  unfold remaining. rewrite Hs. simpl.
  assert (Hd : nth_delay 1028 = 300) by (vm_compute; reflexivity). rewrite Hd.
  unfold Qmax, GenericMinMax.gmax. destruct (0 ?= t + 300 - now) eqn:E; [done| |done].
  apply Qlt_alt in E. lra.
Qed.

Lemma backoff_overflow_fails_open_witness :
  remaining 301 (§"ann")
    (backoff_after (backoff_after new_backoff (fails (§"ann") (repeat 0 1027 ++ [1])))
       (fails (§"ann") [300; 301])) = 0.
Proof.
  apply (backoff_overflow_fails_open (§"ann") (repeat 0 1027) [300; 301] 1 301);
    [apply repeat_length|lra].
Defined.
