(* ===== verification/Password.v ===== *)
(** * Addresses and passwords

    The pure half of server/identity.py: normalising an email address and
    deriving the account id, the rules for addresses and new passwords, and the
    [scrypt$n$r$p$salt$hash] records with their base64 tails.  SHA-256 and
    scrypt are the interface [Crypto]. *)

From S2P Require Import Prelude PyStr AppState.
From stdpp Require Import prelude gmap list strings.

(** ** UTF-8 *)

Section utf8.
Local Open Scope N_scope.

Definition is_surrogate (c : N) : bool := (55296 <=? c) && (c <=? 57343).

Definition utf8_char (c : N) : list N :=
  if c <? 128 then [c]
  else if c <? 2048 then [192 + c / 64; 128 + c mod 64]
  else if c <? 65536 then [224 + c / 4096; 128 + c / 64 mod 64; 128 + c mod 64]
  else [240 + c / 262144; 128 + c / 4096 mod 64; 128 + c / 64 mod 64; 128 + c mod 64].

(** [s.encode("utf-8")]; a lone surrogate raises [UnicodeEncodeError], which is
    a [ValueError]. *)
Definition encode_utf8 (s : pystr) : res (list N) :=
  if existsb is_surrogate s then Raise ValueError else Ok (concat (map utf8_char s)).

Lemma utf8_char_prefix c c' r r' :
  utf8_char c ++ r = utf8_char c' ++ r' → c = c' ∧ r = r'.
Proof.
  unfold utf8_char. intros E.
  repeat case_match; simpl in E; injection E as E; subst;
    rewrite ?N.ltb_lt, ?N.ltb_ge in *; (split; [|first [done|exfalso]]);
    div_lia.
Qed.

Lemma utf8_chars_inj s t : concat (map utf8_char s) = concat (map utf8_char t) → s = t.
Proof.
  revert t. induction s as [|c s IH]; intros [|c' t]; simpl; intros E; [done| | |].
  - exfalso. revert E. unfold utf8_char. by repeat case_match.
  - exfalso. revert E. unfold utf8_char. by repeat case_match.
  - apply utf8_char_prefix in E as [-> E]. f_equal. by apply IH.
Qed.

(** Two strings that encode to the same bytes are the same string. *)
Lemma encode_utf8_inj s t b : encode_utf8 s = Ok b → encode_utf8 t = Ok b → s = t.
Proof.
  unfold encode_utf8. repeat case_match; intros; ok_inv; try done.
  apply utf8_chars_inj. congruence.
Qed.

Lemma encode_utf8_ascii s : is_ascii s = true → encode_utf8 s = Ok s.
Proof.
  rewrite is_ascii_Forall. intros Hs. unfold encode_utf8.
  rewrite (proj2 (existsb_false_Forall _ _)).
  - f_equal. induction Hs as [|c s Hc Hs IH]; simpl; [done|].
    unfold utf8_char at 1. rewrite (proj2 (N.ltb_lt c 128)) by done. simpl. by f_equal.
  - eapply Forall_impl; [done|]. cbn beta. unfold is_surrogate. intros c Hc.
    apply andb_false_iff. left. apply N.leb_gt. lia.
Qed.
End utf8.

(** ** Base64 *)

Section base64.
Local Open Scope N_scope.

Definition b64_char (v : N) : N :=
  if v <? 26 then v + 65 else if v <? 52 then v + 71 else if v <? 62 then v - 4
  else if v =? 62 then 43 else 47.

Definition b64_value (c : N) : option N :=
  if (65 <=? c) && (c <=? 90) then Some (c - 65)
  else if (97 <=? c) && (c <=? 122) then Some (c - 71)
  else if (48 <=? c) && (c <=? 57) then Some (c + 4)
  else if c =? 43 then Some 62 else if c =? 47 then Some 63 else None.

(** [base64.b64encode(b).decode("ascii")]. *)
Fixpoint b64encode (b : list N) : pystr :=
  match b with
  | x :: y :: z :: b =>
      b64_char (x / 4) :: b64_char (x mod 4 * 16 + y / 16) ::
      b64_char (y mod 16 * 4 + z / 64) :: b64_char (z mod 64) :: b64encode b
  | [x; y] => [b64_char (x / 4); b64_char (x mod 4 * 16 + y / 16); b64_char (y mod 16 * 4); 61]
  | [x] => [b64_char (x / 4); b64_char (x mod 4 * 16); 61; 61]
  | [] => []
  end.

(** [base64.b64decode(s, validate=True)]: whole groups of four, padding only at
    the end, nothing outside the alphabet; the spare bits of the last group are
    ignored.  [None] stands for the [ValueError] of a malformed text. *)
Fixpoint b64decode (s : pystr) : option (list N) :=
  match s with
  | [] => Some []
  | p :: q :: r :: t :: s' =>
      a ← b64_value p; b ← b64_value q;
      match b64_value r, b64_value t with
      | Some c, Some d =>
          rest ← b64decode s';
          Some (a * 4 + b / 16 :: b mod 16 * 16 + c / 4 :: c mod 4 * 64 + d :: rest)
      | Some c, None =>
          if (t =? 61) && bool_decide (s' = []) then Some [a * 4 + b / 16; b mod 16 * 16 + c / 4]
          else None
      | None, _ =>
          if (r =? 61) && (t =? 61) && bool_decide (s' = []) then Some [a * 4 + b / 16] else None
      end
  | _ => None
  end.

Lemma b64_value_char v : v < 64 → b64_value (b64_char v) = Some v.
Proof.
  intros Hv. unfold b64_char, b64_value.
  repeat case_match; bools; rewrite ?andb_false_iff, ?N.ltb_lt, ?N.ltb_ge, ?N.leb_le,
    ?N.leb_gt, ?N.eqb_eq, ?N.eqb_neq in *; first [lia|f_equal; lia].
Qed.

Lemma b64_char_plain v : v < 64 → b64_char v ≠ 36.
Proof. intros Hv E. pose proof (b64_value_char v Hv) as H. by rewrite E in H. Qed.

Lemma bytes_ind (P : list N → Prop) :
  P [] → (∀ x, P [x]) → (∀ x y, P [x; y]) → (∀ x y z b, P b → P (x :: y :: z :: b)) → ∀ b, P b.
Proof.
  intros H0 H1 H2 H3.
  fix IH 1. intros [|x [|y [|z b]]]; [done|apply H1|apply H2|apply H3, IH].
Qed.

(** Decoding gives back the bytes that were encoded. *)
Lemma b64_roundtrip b : Forall (λ x, x < 256) b → b64decode (b64encode b) = Some b.
Proof.
  induction b as [|x|x y|x y z b IH] using bytes_ind; intros Hb; [done|..];
    rewrite ?Forall_cons in Hb; destruct_and?; cbn [b64encode b64decode];
    rewrite !b64_value_char by div_lia; cbn; rewrite ?bool_decide_eq_true_2 by done; cbn.
  - do 2 f_equal. div_lia.
  - f_equal. f_equal; [div_lia|]. f_equal. div_lia.
  - rewrite IH by done. cbn. do 2 f_equal; [div_lia|]. f_equal; [div_lia|]. f_equal. div_lia.
Qed.

Lemma b64encode_plain b : Forall (λ x, x < 256) b → (36 : N) ∉ b64encode b.
Proof.
  induction b as [|x|x y|x y z b IH] using bytes_ind; intros Hb; [set_solver|..];
    rewrite ?Forall_cons in Hb; destruct_and?; cbn [b64encode];
    rewrite ?not_elem_of_cons; split_and?; try done; try set_solver;
    try (apply not_eq_sym, b64_char_plain; div_lia).
Qed.
End base64.

(** ** The hash functions *)

Definition is_hex (c : N) : bool := (48 <=? c)%N && (c <=? 57)%N || (97 <=? c)%N && (c <=? 102)%N.

(** [hashlib]: [sha256_hex] is the hex digest; [scrypt pw salt n r p dklen] is
    [hashlib.scrypt] at the module's [maxmem], which returns exactly [dklen]
    bytes or raises [ValueError], and accepts the module's own parameters. *)
Class Crypto := {
  sha256_hex : list N → pystr;
  sha256_hex_ok : ∀ b, length (sha256_hex b) = 64 ∧ forallb is_hex (sha256_hex b) = true;
  scrypt : list N → list N → Z → Z → Z → nat → res (list N);
  scrypt_ok : ∀ pw salt n r p dklen d, scrypt pw salt n r p dklen = Ok d →
    length d = dklen ∧ Forall (λ x, (x < 256)%N) d;
  scrypt_err : ∀ pw salt n r p dklen e, scrypt pw salt n r p dklen = Raise e → e = ValueError;
  scrypt_default : ∀ pw salt, ∃ d, scrypt pw salt 16384 8 1 32 = Ok d;
}.

Definition _SCRYPT_N : N := 16384.
Definition _SCRYPT_R : N := 8.
Definition _SCRYPT_P : N := 1.
Definition _SCRYPT_DKLEN : nat := 32.

Definition MIN_PASSWORD_LENGTH : nat := 10.
Definition MAX_PASSWORD_LENGTH : nat := 256.
Definition MAX_EMAIL_LENGTH : N := 320.
Definition MAX_RAW_EMAIL_LENGTH : nat := 512.

Definition _WEAK_PASSWORDS : list pystr :=
  lit <$> ["password"; "password1"; "password123"; "passw0rd"; "123456"; "1234567";
    "12345678"; "123456789"; "1234567890"; "qwertyuiop"; "letmein"; "welcome";
    "iloveyou"; "admin"; "administrator"; "changeme"; "abc123"; "monkey";
    "dragon"; "sunshine"; "princess"; "football"; "baseball"; "trustno1";
    "qwerty123"; "1q2w3e4r"; "zaq12wsx"; "asdfghjkl"; "000000"; "111111"]%string.

Section accounts.
Context `{Unicode, Crypto}.

(** ** Addresses *)

Definition normalize_email (raw : pystr) : pystr := str_casefold (nfkc (strip raw)).

Definition derive_id (email : pystr) : res pystr :=
  b ← encode_utf8 (normalize_email email);
  Ok (take 32 (sha256_hex b)).

(** [_EMAIL_SHAPE.match]: one [@] with text before it, a dot strictly inside the
    text after it, no white space; [$] also matches before a final newline. *)
Definition chomp (s : pystr) : pystr :=
  match reverse s with c :: r => if (c =? 10)%N then reverse r else s | [] => s end.

Definition email_shape (s : pystr) : bool :=
  let s := chomp s in
  forallb (λ c, negb (is_space c)) s &&
  match split_on 64 s with
  | [local; domain] =>
      bool_decide (local ≠ []) && has_char 46 (drop 1 (take (length domain - 1) domain))
  | _ => false
  end.

(** Why an address or a password is refused; [None] when it is not. *)
Definition email_problem (raw : pystr) : res (option string) :=
  if decide (strip raw = []) then Ok (Some "required"%string)
  else if (MAX_RAW_EMAIL_LENGTH <? length raw)%nat then Ok (Some "too long"%string)
  else
    b ← encode_utf8 (normalize_email raw);
    Ok (if (MAX_EMAIL_LENGTH <? N.of_nat (length b))%N then Some "too long"%string
        else if email_shape (normalize_email raw) then None else Some "shape"%string).

Definition password_problem (password : pystr) : option string :=
  if decide (password = []) then Some "required"%string
  else if (length password <? MIN_PASSWORD_LENGTH)%nat then Some "too short"%string
  else if (MAX_PASSWORD_LENGTH <? length password)%nat then Some "too long"%string
  else if decide (str_casefold (strip password) ∈ _WEAK_PASSWORDS) then Some "weak"%string
  else None.

(** ** Password records *)

(** [hash_password], the salt being what [secrets.token_bytes(16)] drew. *)
Definition hash_password (password : pystr) (n r p : N) (salt : list N) : res pystr :=
  b ← encode_utf8 password;
  digest ← scrypt b salt (Z.of_N n) (Z.of_N r) (Z.of_N p) _SCRYPT_DKLEN;
  Ok (join_with (§"$") [§"scrypt"; str_of_N n; str_of_N r; str_of_N p;
                        b64encode salt; b64encode digest]).

(** The fields of a record, or [None] on anything malformed. *)
Definition record_fields (encoded : pystr) : option (Z * Z * Z * list N * list N) :=
  match split_on 36 encoded with
  | [tag; n; r; p; salt; hash] =>
      if decide (tag = §"scrypt") then
        n ← int_of_str n; r ← int_of_str r; p ← int_of_str p;
        salt ← b64decode salt; hash ← b64decode hash;
        Some (n, r, p, salt, hash)
      else None
  | _ => None
  end.

Definition verify_password (password encoded : pystr) : res bool :=
  if decide (encoded = []) then Ok false
  else if (MAX_PASSWORD_LENGTH <? length password)%nat then Ok false
  else match record_fields encoded with
  | None => Ok false
  | Some (n, r, p, salt, expected) =>
      if (0 <? n)%Z && (n <=? 2 ^ 20)%Z && (0 <? r)%Z && (r <=? 32)%Z
         && (0 <? p)%Z && (p <=? 16)%Z then
        let dklen := if (length expected =? 0)%nat then _SCRYPT_DKLEN else length expected in
        match (b ← encode_utf8 password; scrypt b salt n r p dklen) with
        | Ok digest => Ok (bool_decide (digest = expected))
        | Raise ValueError => Ok false
        | Raise e => Raise e
        end
      else Ok false
  end.

Definition needs_rehash (encoded : pystr) : bool :=
  match split_on 36 encoded with
  | [tag; n; r; p; _; _] =>
      if decide (tag = §"scrypt") then
        match int_of_str n, int_of_str r, int_of_str p with
        | Some n, Some r, Some p =>
            negb (bool_decide ((n, r, p) = (Z.of_N _SCRYPT_N, Z.of_N _SCRYPT_R, Z.of_N _SCRYPT_P)))
        | _, _, _ => true
        end
      else true
  | _ => true
  end.

(** ** Properties *)

Lemma is_hex_safe c : is_hex c = true → safe_char c = true.
Proof.
  unfold is_hex, safe_char. rewrite !orb_true_iff, !andb_true_iff, !N.leb_le, !N.eqb_eq. lia.
Qed.

(** An account id is 32 hex digits. *)
Lemma derive_id_hex email uid : derive_id email = Ok uid →
  length uid = 32 ∧ Forall (λ c, is_hex c = true) uid.
Proof.
  unfold derive_id. destruct (encode_utf8 _) as [b|e]; cbn; intros ?; ok_inv.
  destruct (sha256_hex_ok b) as [Hl Hh]. rewrite forallb_Forall_true in Hh.
  rewrite length_take. split; [lia|]. by apply Forall_take.
Qed.

(** It therefore names one directory level under the accounts' root. *)
Lemma derive_id_valid email uid : derive_id email = Ok uid → valid_name uid = true.
Proof.
  intros [Hl Hh]%derive_id_hex. apply valid_name_spec.
  split_and!; try (intros ->; vm_compute in Hl; discriminate).
  exists uid. split_and!; [by intros ->| |by left].
  eapply Forall_impl; [done|]. apply is_hex_safe.
Qed.

Lemma str_of_N_plain n : 36%N ∉ str_of_N n.
Proof.
  intros Hin. pose proof (str_of_N_digits n) as Hd. rewrite Forall_forall in Hd.
  specialize (Hd _ Hin). cbn beta in Hd. lia.
Qed.

Lemma join_split6 a b c d e f :
  Forall (λ w, 36%N ∉ w) [a; b; c; d; e; f] →
  split_on 36 (join_with (§"$") [a; b; c; d; e; f]) = [a; b; c; d; e; f].
Proof.
  intros Hf. rewrite !Forall_cons in Hf. destruct Hf as (? & ? & ? & ? & ? & ? & _).
  change (§"$") with [36%N]. cbn [join_with app].
  rewrite !split_on_cons by done. by rewrite split_on_last.
Qed.

(** The pieces of a record this module wrote. *)
Lemma hash_password_split pw n r p salt enc :
  Forall (λ x, (x < 256)%N) salt → hash_password pw n r p salt = Ok enc →
  ∃ b d, encode_utf8 pw = Ok b ∧
    scrypt b salt (Z.of_N n) (Z.of_N r) (Z.of_N p) _SCRYPT_DKLEN = Ok d ∧
    length d = _SCRYPT_DKLEN ∧ Forall (λ x, (x < 256)%N) d ∧ enc ≠ [] ∧
    split_on 36 enc = [§"scrypt"; str_of_N n; str_of_N r; str_of_N p; b64encode salt; b64encode d].
Proof.
  intros Hs Hh. unfold hash_password in Hh.
  destruct (encode_utf8 pw) as [b|]; [|done]. cbn [mbind res_bind] in Hh.
  destruct (scrypt _ _ _ _ _ _) as [d|] eqn:Hd; [|done]. cbn [mbind res_bind] in Hh.
  assert (enc = join_with (§"$") [§"scrypt"; str_of_N n; str_of_N r; str_of_N p;
                                  b64encode salt; b64encode d]) as -> by congruence. clear Hh.
  destruct (scrypt_ok _ _ _ _ _ _ _ Hd) as [Hl Hb]. exists b, d.
  assert (Hp : 36%N ∉ §"scrypt") by (apply has_char_false; reflexivity).
  split_and!; [done..|apply join_split6].
  repeat constructor; auto using str_of_N_plain, b64encode_plain.
Qed.

Lemma hash_password_fields n r p salt enc d :
  Forall (λ x, (x < 256)%N) salt → Forall (λ x, (x < 256)%N) d →
  (n <= 2 ^ 20)%N → (r <= 32)%N → (p <= 16)%N →
  split_on 36 enc = [§"scrypt"; str_of_N n; str_of_N r; str_of_N p; b64encode salt; b64encode d] →
  record_fields enc = Some (Z.of_N n, Z.of_N r, Z.of_N p, salt, d).
Proof.
  intros Hs Hd Hn Hr Hp Hsp. unfold record_fields. rewrite Hsp.
  rewrite decide_True by done.
  assert (Hpow : (2 ^ 20 < 2 ^ 4000)%N) by (apply N.pow_lt_mono_r; lia).
  assert (Hbig : ∀ m, (m <= 2 ^ 20)%N → (m < 2 ^ 4000)%N)
    by (intros m Hm; eapply N.le_lt_trans; [exact Hm|exact Hpow]).
  assert (H32 : (r <= 2 ^ 20)%N) by (etrans; [exact Hr|done]).
  assert (H16 : (p <= 2 ^ 20)%N) by (etrans; [exact Hp|done]).
  rewrite !int_of_str_of_N by auto. cbn. by rewrite !b64_roundtrip.
Qed.

(** The digest of a password under a record's salt and parameters. *)
Definition digest_of (w : pystr) (n r p : N) (salt : list N) : res (list N) :=
  b ← encode_utf8 w; scrypt b salt (Z.of_N n) (Z.of_N r) (Z.of_N p) _SCRYPT_DKLEN.

Lemma digest_of_err w n r p salt e : digest_of w n r p salt = Raise e → e = ValueError.
Proof.
  unfold digest_of. destruct (encode_utf8 w) as [b|] eqn:Eb; cbn; [apply scrypt_err|].
  revert Eb. unfold encode_utf8. case_match; congruence.
Qed.

Lemma verify_hash_run pw pw' n r p salt enc :
  (0 < n <= 2 ^ 20)%N → (0 < r <= 32)%N → (0 < p <= 16)%N →
  Forall (λ x, (x < 256)%N) salt → length pw' ≤ MAX_PASSWORD_LENGTH →
  hash_password pw n r p salt = Ok enc →
  verify_password pw' enc = Ok (bool_decide (digest_of pw' n r p salt = digest_of pw n r p salt)).
Proof.
  intros Hn Hr Hp Hs Hlen Hh.
  destruct (hash_password_split _ _ _ _ _ _ Hs Hh) as (b & d & Hb & Hd & Hl & Hby & Hne & Hsp).
  assert (Hdig : digest_of pw n r p salt = Ok d) by (unfold digest_of; by rewrite Hb).
  unfold verify_password. rewrite decide_False by done.
  rewrite (proj2 (Nat.ltb_ge _ _)) by done.
  rewrite (hash_password_fields n r p salt enc d Hs Hby ltac:(lia) ltac:(lia) ltac:(lia) Hsp), Hl.
  cbn [Nat.eqb _SCRYPT_DKLEN].
  assert (Hg : (0 <? Z.of_N n)%Z && (Z.of_N n <=? 2 ^ 20)%Z && (0 <? Z.of_N r)%Z
    && (Z.of_N r <=? 32)%Z && (0 <? Z.of_N p)%Z && (Z.of_N p <=? 16)%Z = true)
    by (rewrite !andb_true_iff, !Z.ltb_lt, !Z.leb_le; lia).
  rewrite Hg. change (if 32 =? 0 then 32 else 32) with _SCRYPT_DKLEN.
  fold (digest_of pw' n r p salt). rewrite Hdig.
  destruct (digest_of pw' n r p salt) as [d'|e] eqn:E.
  - f_equal. apply bool_decide_ext. split; [by intros ->|by intros [= ->]].
  - apply digest_of_err in E as ->. by rewrite bool_decide_eq_false_2.
Qed.

Lemma rehash_run pw n r p salt enc :
  (n <= 2 ^ 20)%N → (r <= 32)%N → (p <= 16)%N → Forall (λ x, (x < 256)%N) salt →
  hash_password pw n r p salt = Ok enc →
  needs_rehash enc = negb (bool_decide ((n, r, p) = (_SCRYPT_N, _SCRYPT_R, _SCRYPT_P))).
Proof.
  intros Hn Hr Hp Hs Hh.
  destruct (hash_password_split _ _ _ _ _ _ Hs Hh) as (b & d & Hb & Hd & Hl & Hby & Hne & Hsp).
  pose proof (hash_password_fields n r p salt enc d Hs Hby Hn Hr Hp Hsp) as Hf.
  unfold needs_rehash. rewrite Hsp, decide_True by done.
  revert Hf. unfold record_fields. rewrite Hsp, decide_True by done.
  destruct (int_of_str (str_of_N n)), (int_of_str (str_of_N r)), (int_of_str (str_of_N p));
    cbn; try done. rewrite !b64_roundtrip by done. cbn. intros [= -> -> ->].
  f_equal. apply bool_decide_ext. unfold _SCRYPT_N, _SCRYPT_R, _SCRYPT_P.
  split; intros [= ? ? ?]; repeat f_equal; lia.
Qed.

(** A stored record verifies exactly the passwords that hash alike.  For a
    record written by [hash_password] at any parameters the verifier accepts,
    a password of at most 256 characters verifies if and only if its encoding
    has the same scrypt digest under the record's own salt and parameters (so
    the password itself always verifies), and the record is marked for
    rehashing exactly when its parameters are not today's. *)
Theorem verify_hash_password (pw pw' : pystr) (n r p : N) (salt : list N) (enc : pystr) :
  (0 < n <= 2 ^ 20)%N → (0 < r <= 32)%N → (0 < p <= 16)%N →
  Forall (λ x, (x < 256)%N) salt → length pw' ≤ MAX_PASSWORD_LENGTH →
  hash_password pw n r p salt = Ok enc →
  verify_password pw' enc = Ok (bool_decide (digest_of pw' n r p salt = digest_of pw n r p salt)) ∧
  needs_rehash enc = negb (bool_decide ((n, r, p) = (_SCRYPT_N, _SCRYPT_R, _SCRYPT_P))).
Proof.
  intros Hn Hr Hp Hs Hlen Hh. split; [by eapply verify_hash_run|].
  eapply rehash_run; [..|exact Hh]; done || lia.
Qed.

(** Checking a password never raises, whatever the record holds. *)
Lemma verify_password_total pw enc : ∃ b, verify_password pw enc = Ok b.
Proof.
  assert (Hd : ∀ salt n r p dk e,
    (b ← encode_utf8 pw; scrypt b salt n r p dk) = Raise e → e = ValueError).
  { intros salt n r p dk e. destruct (encode_utf8 pw) as [b|e'] eqn:Eb; cbn; [apply scrypt_err|].
    intros [= <-]. revert Eb. unfold encode_utf8. case_match; congruence. }
  unfold verify_password. do 2 (case_match; [eauto|]).
  destruct (record_fields enc) as [[[[[? ?] ?] ?] ?]|]; [|eauto].
  case_match; [|eauto]. destruct (_ ≫= _) as [d|e] eqn:E; [eauto|].
  apply Hd in E as ->. eauto.
Qed.
End accounts.

(** ** Hash functions for evaluation

    Truncation instead of hashing: injective on short inputs. *)
Definition toy_hex_digit (v : N) : N := if (v <? 10)%N then (v + 48)%N else (v + 87)%N.
Definition toy_sha256 (b : list N) : pystr :=
  take 64 (concat (map (λ x, [toy_hex_digit (x / 16 mod 16); toy_hex_digit (x mod 16)]) b) ++ repeat 48%N 64).
Definition toy_scrypt (pw salt : list N) (n r p : Z) (dklen : nat) : res (list N) :=
  Ok (take dklen (map (λ x, x mod 256)%N (pw ++ salt) ++ repeat 0%N dklen)).

Lemma toy_sha256_ok b : length (toy_sha256 b) = 64 ∧ forallb is_hex (toy_sha256 b) = true.
Proof.
  unfold toy_sha256. split; [rewrite length_take, length_app, repeat_length; lia|].
  rewrite forallb_Forall_true. apply Forall_take, Forall_app. split.
  - assert (Hd : ∀ v, (v < 16)%N → is_hex (toy_hex_digit v) = true).
    { intros v Hv. unfold is_hex, toy_hex_digit.
      rewrite orb_true_iff, !andb_true_iff, !N.leb_le. case_match; bools;
        rewrite ?N.ltb_lt, ?N.ltb_ge in *; lia. }
    apply Forall_concat, Forall_map, Forall_true. intros x. repeat constructor; apply Hd; by apply N.mod_lt.
  - apply Forall_forall. intros x Hx. apply list_elem_of_In, repeat_spec in Hx as ->. done.
Qed.

Lemma toy_scrypt_ok pw salt n r p dklen d : toy_scrypt pw salt n r p dklen = Ok d →
  length d = dklen ∧ Forall (λ x, (x < 256)%N) d.
Proof.
  unfold toy_scrypt. intros [= <-]. split; [rewrite length_take, length_app, repeat_length; lia|].
  apply Forall_take, Forall_app. split.
  - apply Forall_map, Forall_true. intros x. by apply N.mod_lt.
  - apply Forall_forall. intros x Hx. by apply list_elem_of_In, repeat_spec in Hx as ->.
Qed.

Definition toy_crypto : Crypto :=
  {| sha256_hex := toy_sha256; sha256_hex_ok := toy_sha256_ok;
     scrypt := toy_scrypt; scrypt_ok := toy_scrypt_ok;
     scrypt_err _ _ _ _ _ _ _ E := match E with eq_refl => I end;
     scrypt_default _ _ := ex_intro _ _ eq_refl |}.

Lemma verify_hash_password_witness :
  let c := toy_crypto in let u := ascii_db in
  let enc := default [] (match hash_password (§"correct horse") 1024 8 1 [1; 2; 250]%N with
                         | Ok e => Some e | Raise _ => None end) in
  verify_password (§"correct horse") enc = Ok true ∧
  verify_password (§"Correct horse") enc = Ok false ∧ needs_rehash enc = true.
Proof.
  intros c u enc.
  assert (Hh : hash_password (§"correct horse") 1024 8 1 [1; 2; 250]%N = Ok enc)
    by (vm_compute; reflexivity).
  assert (Hs : Forall (λ x, (x < 256)%N) [1; 2; 250]%N) by (repeat constructor).
  pose proof (verify_hash_password (§"correct horse") (§"correct horse") 1024 8 1 _ enc
    ltac:(lia) ltac:(lia) ltac:(lia) Hs ltac:(vm_compute; lia) Hh) as [H1 H2].
  pose proof (verify_hash_password (§"correct horse") (§"Correct horse") 1024 8 1 _ enc
    ltac:(lia) ltac:(lia) ltac:(lia) Hs ltac:(vm_compute; lia) Hh) as [H3 _].
  split; [|split]; [etransitivity; [exact H1|]|etransitivity; [exact H3|]|
    etransitivity; [exact H2|]]; vm_compute; reflexivity.
Defined.
