(* ===== verification/World.v ===== *)
(** * The server's state

    Everything the server process and its files hold between two calls: the
    account table with its cache, the login-session directory, the in-memory
    counters, the list of exposed pages, the state files and the directories
    under the accounts' root.  Also the account table's reader, writer and
    locked read-modify-write section (server/identity.py). *)

From Stdlib Require Import QArith.
From S2P Require Import Prelude PyStr Json Env InvocationCtx AppState Publish RateLimit Password.
From stdpp Require Import prelude gmap list strings.

(** What one call draws from outside: the machine it runs on, the random values
    [secrets] returns, and whether its writes succeed.  [users_io] is the stamp
    a written account table gets, [None] when the write fails; [sess_io] says
    whether the session directory can be modified. *)
Record call := {
  mc :> machine;
  salt_draw : list N;
  token_draws : list pystr;
  users_io : option (Z * Z);
  sess_io : bool;
}.

(** The files of accounts and sessions: no document when one cannot be opened or holds no
    JSON.  They hold UTF-8 text, as frago writes them: on other bytes the reading raises a
    [UnicodeDecodeError]. *)
Record users_file := { uf_doc : option json; uf_stamp : Z * Z }.
Record sess_file := { sf_doc : option json; sf_mtime : Z }.

(** Records keyed by account id. *)
Abbreviation table := (dict pystr jdict).

Record world := {
  w_users : option users_file;
  w_cache : option ((Z * Z) * table);
  (** session files by stem: [login-sessions/<stem>.json] *)
  w_sessions : dict pystr sess_file;
  w_limits : limits;
  w_pub : pub_state;
  w_disk : fs;
  (** the paths for which [is_dir()] holds *)
  w_dirs : gset path;
  (** the text of the server token's file, when there is one *)
  w_token : option pystr;
}.

Definition set_users (w : world) (u : option users_file) (c : option ((Z * Z) * table)) : world :=
  {| w_users := u; w_cache := c; w_sessions := w_sessions w; w_limits := w_limits w;
     w_pub := w_pub w; w_disk := w_disk w; w_dirs := w_dirs w;
     w_token := w_token w |}.
Definition set_sessions (w : world) (d : dict pystr sess_file) : world :=
  {| w_users := w_users w; w_cache := w_cache w; w_sessions := d; w_limits := w_limits w;
     w_pub := w_pub w; w_disk := w_disk w; w_dirs := w_dirs w;
     w_token := w_token w |}.
Definition set_limits (w : world) (l : limits) : world :=
  {| w_users := w_users w; w_cache := w_cache w; w_sessions := w_sessions w; w_limits := l;
     w_pub := w_pub w; w_disk := w_disk w; w_dirs := w_dirs w;
     w_token := w_token w |}.
Definition set_pub (w : world) (p : pub_state) : world :=
  {| w_users := w_users w; w_cache := w_cache w; w_sessions := w_sessions w;
     w_limits := w_limits w; w_pub := p; w_disk := w_disk w; w_dirs := w_dirs w;
     w_token := w_token w |}.

(** Run a computation over one part of the state. *)
Definition on_limits {A} (f : M limits A) : M world A := λ w,
  let '(r, l) := f (w_limits w) in (r, set_limits w l).
Definition on_pub {A} (f : M pub_state A) : M world A := λ w,
  let '(r, p) := f (w_pub w) in (r, set_pub w p).

(** ** The account table *)

(** [_read_users_file]. *)
Definition _read_users_file (w : world) : table :=
  match w_users w with Some f => dict_entries (uf_doc f) | None => [] end.

(** [load_users]: cached on the file's stamp; a missing file drops the cache.
    The path is fixed for the life of a process, so it is not part of the key. *)
Definition load_users : M world table := λ w,
  match w_users w with
  | None => (Ok [], set_users w None None)
  | Some f =>
      let entries := _read_users_file w in
      let miss := (Ok entries, set_users w (w_users w) (Some (uf_stamp f, entries))) in
      match w_cache w with
      | Some (stamp, cached) => if decide (stamp = uf_stamp f) then (Ok cached, w) else miss
      | None => miss
      end
  end.

(** [_write_users]: replace the file by rename, then drop the cache. *)
Definition _write_users (c : call) (entries : table) : M world unit := λ w,
  match users_io c with
  | Some stamp =>
      (Ok tt, set_users w (Some {| uf_doc := Some (table_doc entries); uf_stamp := stamp |}) None)
  | None => (Raise OSError, w)
  end.

(** [with _users_locked() as entries: body]: the body edits the table it is
    given; the table is written back if the body returned and the content
    changed.  (The code compares dumps with sorted keys; no body reorders keys
    without changing the content.) *)
Definition _users_locked {A} (c : call) (body : M (world * table) A) : M world A := λ w,
  let entries := _read_users_file w in
  match body (w, entries) with
  | (Ok a, (w', entries')) =>
      if decide (entries' = entries) then (Ok a, w')
      else match _write_users c entries' w' with
           | (Ok _, w'') => (Ok a, w'')
           | (Raise e, w'') => (Raise e, w'')
           end
  | (Raise e, (w', _)) => (Raise e, w')
  end.

(** The two halves of the state a locked body works on. *)
Definition on_world {A} (f : M world A) : M (world * table) A := λ s,
  let '(r, w) := f s.1 in (r, (w, s.2)).
Definition on_table (f : table → table) : M (world * table) unit := λ s, (Ok tt, (s.1, f s.2)).

Record User := { user_id : pystr; user_email : pystr; user_disabled : bool; user_created : pystr }.

Section users.
Context `{Unicode, PyRepr}.

Definition _as_user (record : jdict) : User :=
  {| user_id := str_field (§"id") record; user_email := str_field (§"email") record;
     user_disabled := bool_field (§"disabled") record;
     user_created := str_field (§"created") record |}.

Definition find_user_by_id (uid : pystr) : M world (option User) :=
  users ← load_users;
  mret (match dget uid users with
        | Some ((_ :: _) as record) => Some (_as_user record)
        | _ => None
        end).

(** [list_users]: oldest first, by creation stamp then address. *)
Definition user_leb (u v : User) : bool :=
  if decide (user_created u = user_created v) then str_leb (user_email u) (user_email v)
  else str_leb (user_created u) (user_created v).
Definition list_users : M world (list User) :=
  users ← load_users;
  mret (isort user_leb (_as_user <$> dvals users)).

Definition find_user_by_email `{Crypto} (email : pystr) : M world (option User) :=
  uid ← lift_res (derive_id email);
  find_user_by_id uid.
End users.

(** ** Freshness of the cache *)

(** The cache is what the file parses to, whenever its stamp is the file's. *)
Definition cache_ok (w : world) : Prop :=
  match w_users w, w_cache w with
  | Some f, Some (stamp, t) => stamp = uf_stamp f → t = dict_entries (uf_doc f)
  | _, _ => True
  end.

Lemma load_users_fresh w : cache_ok w →
  ∃ c, load_users w = (Ok (_read_users_file w), set_users w (w_users w) c) ∧
       cache_ok (set_users w (w_users w) c).
Proof.
  unfold load_users, cache_ok, _read_users_file. destruct w as [u c ? ? ? ? ? ?]; simpl.
  destruct u as [f|]; [|by exists None].
  destruct c as [[stamp t]|]; [|by exists (Some (uf_stamp f, dict_entries (uf_doc f)))].
  case_decide as Hs; [|by exists (Some (uf_stamp f, dict_entries (uf_doc f)))].
  intros Ht. exists (Some (stamp, t)). rewrite Ht by done. split; [done|]. by intros _.
Qed.

(** ** A small server, for evaluation

    One account, [ann@example.org] with the password [correct horse], one page
    for everybody (the sign-in portal), one page for accounts. *)
Module Demo.
#[export] Existing Instance ascii_db.
#[export] Existing Instance repr_mark.
#[export] Existing Instance unix_clock.
#[export] Existing Instance toy_crypto.
#[export] Existing Instance posix_paths.

Definition value {A} (d : A) (r : res A) : A := match r with Ok a => a | Raise _ => d end.

(** A call [t] seconds after the server came up. *)
Definition at_time (t : Z) (env : gmap pystr pystr) : machine :=
  {| environ := env; wall := ((1700000000 + t) * 1000000)%Z; mono := inject_Z t;
     container_marker := false; cgroup := None |}.
Definition call_at (t : Z) (env : gmap pystr pystr) : call :=
  {| mc := at_time t env; salt_draw := [7; 8; 9]%N;
     token_draws := [§"token-" ++ str_of_N (Z.to_N t)];
     users_io := Some (t, t); sess_io := true |}.

Definition email : pystr := §"ann@example.org".
Definition password : pystr := §"correct horse".
Definition ann : pystr := value [] (derive_id email).
Definition ann_record : jdict :=
  [(§"id", JStr ann); (§"email", JStr email);
   (§"pwd", JStr (value [] (hash_password password _SCRYPT_N _SCRYPT_R _SCRYPT_P [1; 2; 3]%N)));
   (§"disabled", JBool false); (§"created", JStr (iso_stamp 0))].

Definition pages : dict pystr jdict :=
  [(§"portal", [(§"slot", JStr (§"main")); (§"mode", JStr (§"public"))]);
   (§"notes", [(§"slot", JStr (§"default")); (§"mode", JStr (§"identity"));
               (§"runnable", JBool true)])].

Definition server : world :=
  {| w_users := Some {| uf_doc := Some (table_doc [(ann, ann_record)]); uf_stamp := (0, 0)%Z |};
     w_cache := None; w_sessions := []; w_limits := initial_limits (at_time 0 ∅);
     w_pub := {| p_file := Some {| pf_doc := Some (table_doc pages); pf_stamp := (0, 0)%Z |};
                 p_cache := None |};
     w_disk := ∅; w_dirs := ∅; w_token := Some (§"owner-token") |}.
End Demo.
