(* ===== verification/Sessions.v ===== *)
(** * Login sessions

    server/identity.py: one file per login in [login-sessions/], named by the
    SHA-256 of the cookie.  Issuing a session first purges expired ones and
    enforces the two caps; resolving one re-checks the account on every request. *)

From Stdlib Require Import QArith.
From S2P Require Import Prelude PyStr Json Env InvocationCtx AppState Publish RateLimit Password World.
From stdpp Require Import prelude gmap list strings.

Definition DEFAULT_SESSION_TTL : Z := 604800.
Definition DEFAULT_SESSIONS_PER_USER : Z := 10.
Definition DEFAULT_TOTAL_SESSIONS : Z := 5000.
Definition _WRITE_GRACE : Z := 60.
Definition _LAST_SEEN_RESOLUTION : Z := 300.

(** Microseconds in [s] seconds. *)
Definition secs (s : Z) : Z := s * 1000000.

(** The last instant a [datetime] can hold. *)
Definition MAX_TIME : Z := 253402300799999999.

Record LoginSession := {
  ls_sid : pystr;
  ls_identity : pystr;
  ls_created : pystr;
  ls_expires : pystr;
  ls_last_seen : pystr;
}.

Section sessions.
Context `{Unicode, PyRepr, Clock, Crypto}.
Implicit Types (w : world) (c : call).

Definition session_ttl (m : machine) : Z := _int_env m (§"FRAGO_SESSION_TTL") DEFAULT_SESSION_TTL.

Definition _sid_of (token : pystr) : res pystr :=
  b ← encode_utf8 token; Ok (sha256_hex b).

(** [_read_session]: the document, when it reads, parses and is an object. *)
Definition doc_record (f : sess_file) : option jdict :=
  match sf_doc f with Some (JObj d) => Some d | _ => None end.
Definition _read_session w (sid : pystr) : option jdict := dget sid (w_sessions w) ≫= doc_record.

(** [_parse_time(record.get(k))]: a missing key parses the text of [None]. *)
Definition _parse_time (raw : option json) : option datetime :=
  parse_iso (match raw with Some v => py_str v | None => §"None" end).
Definition expires_of (record : jdict) : option datetime :=
  _parse_time (dget (§"expires") record).

(** [_session_files]: the stems, in the order of the sorted paths. *)
Definition _session_files w : list pystr :=
  isort (λ a b, str_leb (json_name a) (json_name b)) (dkeys (w_sessions w)).

(** [path.unlink()] under a suppressed [OSError]: whether a file went away. *)
Definition unlink c (sid : pystr) : M world bool := λ w,
  if sess_io c && dmem sid (w_sessions w)
  then (Ok true, set_sessions w (ddel sid (w_sessions w)))
  else (Ok false, w).

(** The loop of [purge_expired_sessions] and [revoke_identity_sessions]: test
    each listed file, and unlink the ones the test picks. *)
Definition sweep_one c (test : sess_file → res bool) (sid : pystr) : M world bool :=
  w ← get_st;
  match dget sid (w_sessions w) with
  | None => mret false
  | Some f => b ← lift_res (test f); if b : bool then unlink c sid else mret false
  end.
Definition sweep c (test : sess_file → res bool) (sids : list pystr) : M world Z :=
  count_each (sweep_one c test) sids.

(** What the purge removes: a session that is over or has no readable expiry,
    and an unreadable file older than any session could be. *)
Definition purgeable (m : machine) (f : sess_file) : res bool :=
  match doc_record f with
  | None => Ok (negb (Z.ltb (wall m - sf_mtime f) (secs (session_ttl m + _WRITE_GRACE))))
  | Some record =>
      match expires_of record with
      | None => Ok true
      | Some e => datetime_le e (wall m)
      end
  end.

Definition purge_expired_sessions c : M world Z :=
  w ← get_st; sweep c (purgeable c) (_session_files w).

Definition identity_of_record (record : jdict) : pystr := str_field (§"identity") record.

(** The owner of a readable session file with a non-empty record. *)
Definition owner_of (f : sess_file) : option pystr :=
  match doc_record f with
  | Some ((_ :: _) as record) => Some (identity_of_record record)
  | _ => None
  end.

Definition revoke_identity_sessions c (identity : pystr) : M world Z :=
  w ← get_st;
  sweep c (λ f, Ok (bool_decide (owner_of f = Some identity))) (_session_files w).

(** [live]: the readable sessions with owner and creation stamp. *)
Definition live_sessions w : list (pystr * pystr * jdict) :=
  omap (λ sid,
    match _read_session w sid with
    | Some ((_ :: _) as record) => Some (identity_of_record record, sid, record)
    | _ => None
    end) (_session_files w).

Definition created_leb (a b : pystr * pystr * jdict) : bool :=
  str_leb (str_field (§"created") a.2) (str_field (§"created") b.2).

(** [evict(candidates, keep)]. *)
Definition evict c (candidates : list (pystr * pystr * jdict)) (keep : Z) : M world unit :=
  let ordered := isort created_leb candidates in
  count_each (λ item, unlink c item.1.2)
    (take (Z.to_nat (Z.of_nat (length ordered) - keep + 1)) ordered);;
  mret tt.

Definition _enforce_session_caps c (identity : pystr) : M world unit :=
  let per_user := _int_env c (§"FRAGO_MAX_SESSIONS_PER_USER") DEFAULT_SESSIONS_PER_USER in
  let total := _int_env c (§"FRAGO_MAX_SESSIONS") DEFAULT_TOTAL_SESSIONS in
  w ← get_st;
  let live := live_sessions w in
  let mine := filter (λ item, item.1.1 = identity) live in
  (if Z.leb per_user (Z.of_nat (length mine)) then evict c mine per_user else mret tt);;
  (if Z.leb total (Z.of_nat (length live)) then evict c live total else mret tt).

(** The record of a session issued now. *)
Definition new_record (m : machine) (identity : pystr) : jdict :=
  [(§"identity", JStr identity);
   (§"created", JStr (iso_stamp (wall m)));
   (§"expires", JStr (iso_stamp (wall m + secs (session_ttl m))));
   (§"last_seen", JStr (iso_stamp (wall m)))].

(** The loop that links the record under the first free name. *)
Fixpoint issue c (record : jdict) (tokens : list pystr) : M world pystr :=
  match tokens with
  | [] => raise (IdentityError "session_failed")
  | token :: tokens => λ w,
      match _sid_of token with
      | Raise e => (Raise e, w)
      | Ok sid =>
          if negb (sess_io c) then (Raise OSError, w)
          else if dmem sid (w_sessions w) then issue c record tokens w
          else (Ok token,
                set_sessions w (dset sid {| sf_doc := Some (JObj record); sf_mtime := wall c |}
                                     (w_sessions w)))
      end
  end.

Definition create_session c (identity : pystr) : M world pystr :=
  purge_expired_sessions c;;
  _enforce_session_caps c identity;;
  if Z.ltb MAX_TIME (wall c + secs (session_ttl c)) then raise OverflowError
  else issue c (new_record c identity) (take 4 (token_draws c)).

(** [_touch]: refresh [last_seen], at most every five minutes. *)
Definition _touch c (sid : pystr) (record : jdict) (session : LoginSession) : M world unit := λ w,
  let write :=
    if sess_io c then
      (Ok tt, set_sessions w
         (dset sid {| sf_doc := Some (JObj (dset (§"last_seen") (JStr (iso_stamp (wall c))) record));
                      sf_mtime := wall c |} (w_sessions w)))
    else (Ok tt, w) in
  match parse_iso (ls_last_seen session) with
  | None => write
  | Some (Naive _) => (Raise TypeError, w)
  | Some (Aware seen) =>
      if Z.ltb (wall c - seen) (secs _LAST_SEEN_RESOLUTION) then (Ok tt, w) else write
  end.

Definition session_of (sid : pystr) (record : jdict) : LoginSession :=
  {| ls_sid := sid; ls_identity := identity_of_record record;
     ls_created := str_field (§"created") record; ls_expires := str_field (§"expires") record;
     ls_last_seen := str_field (§"last_seen") record |}.

Definition resolve_session c (token : option pystr) : M world (option LoginSession) :=
  match token with
  | None | Some [] => mret None
  | Some token =>
      sid ← lift_res (_sid_of token);
      w ← get_st;
      match _read_session w sid with
      | None => mret None
      | Some record =>
          over ← lift_res (match expires_of record with
                           | None => Ok true
                           | Some e => datetime_le e (wall c)
                           end);
          if over : bool then unlink c sid;; mret None
          else
            user ← find_user_by_id (identity_of_record record);
            match user with
            | None => mret None
            | Some u =>
                if user_disabled u then mret None
                else
                  _touch c sid record (session_of sid record);;
                  mret (Some (session_of sid record))
            end
      end
  end.

Definition revoke_session c (token : pystr) : M world bool :=
  sid ← lift_res (_sid_of token); unlink c sid.

Definition revoke_session_id c (sid : pystr) : M world bool :=
  if bool_decide (sid = []) || has_char 47 sid || has_char 92 sid || has_char 46 sid
  then mret false else unlink c sid.

(** [list_sessions]: the unexpired ones, newest first. *)
Fixpoint unexpired (m : machine) w (sids : list pystr) : res (list LoginSession) :=
  match sids with
  | [] => Ok []
  | sid :: sids =>
      keep ← match _read_session w sid with
             | None | Some [] => Ok false
             | Some record =>
                 match expires_of record with
                 | None => Ok false
                 | Some e => over ← datetime_le e (wall m); Ok (negb over)
                 end
             end;
      rest ← unexpired m w sids;
      Ok (if keep : bool then session_of sid (default [] (_read_session w sid)) :: rest else rest)
  end.

Definition list_sessions (m : machine) w : res (list LoginSession) :=
  live ← unexpired m w (_session_files w);
  Ok (isort (λ a b, str_leb (ls_created b) (ls_created a)) live).

(** ** The loops over the directory *)

Lemma set_sessions_id w : set_sessions w (w_sessions w) = w.
Proof. by destruct w. Qed.

Lemma set_sessions_twice w d d' : set_sessions (set_sessions w d) d' = set_sessions w d'.
Proof. done. Qed.

Lemma unlink_run c sid w : dict_wf (w_sessions w) →
  ∃ b, unlink c sid w =
    (Ok b, set_sessions w (if sess_io c then filter (λ kv, kv.1 ≠ sid) (w_sessions w)
                           else w_sessions w)).
Proof.
  intros Hwf. unfold unlink. destruct (sess_io c); simpl; [|eexists; by rewrite set_sessions_id].
  rewrite <- ddel_filter by done. unfold dmem. destruct (dget sid _) eqn:E; eexists; [done|].
  by rewrite ddel_absent, set_sessions_id.
Qed.

(** Unlinking a list of files. *)
Lemma unlinks_run {A} c (sid : A → pystr) l : ∀ w, dict_wf (w_sessions w) →
  ∃ n, count_each (λ x, unlink c (sid x)) l w =
    (Ok n, set_sessions w (if sess_io c then filter (λ kv, kv.1 ∉ sid <$> l) (w_sessions w)
                           else w_sessions w)).
Proof.
  induction l as [|x l IH]; intros w Hwf.
  - exists 0%Z. cbn. case_match; [|by rewrite set_sessions_id].
    rewrite filter_all by set_solver. by rewrite set_sessions_id.
  - destruct (unlink_run c (sid x) w Hwf) as [b Hb].
    destruct (IH (set_sessions w (if sess_io c then filter (λ kv, kv.1 ≠ sid x) (w_sessions w)
                                  else w_sessions w))) as [n Hn].
    { simpl. case_match; [by apply filter_dict_wf|done]. }
    eexists. erewrite count_each_cons by (exact Hb || exact Hn). f_equal. rewrite set_sessions_twice. csimpl. case_match; [|done]. f_equal.
    rewrite list_filter_filter. apply filter_same. set_solver.
Qed.

(** A sweep keeps exactly the files its test does not pick. *)
Lemma sweep_one_run c test (t : sess_file → bool) x w : dict_wf (w_sessions w) →
  Forall (λ kv, test kv.2 = Ok (t kv.2)) (w_sessions w) →
  ∃ b, sweep_one c test x w =
    (Ok b, set_sessions w (if sess_io c
      then filter (λ kv, ¬ (kv.1 = x ∧ t kv.2 = true)) (w_sessions w) else w_sessions w)).
Proof.
  intros Hwf Ht.
  assert (Hx : ∀ kv, kv ∈ w_sessions w → kv.1 = x → dget x (w_sessions w) = Some kv.2).
  { intros [k v] Hin. simpl. intros ->. by apply dget_elem. }
  assert (Hsame : (∀ kv, kv ∈ w_sessions w → kv.1 = x → t kv.2 = false) →
    set_sessions w (if sess_io c then filter (λ kv, ¬ (kv.1 = x ∧ t kv.2 = true)) (w_sessions w)
                    else w_sessions w) = w).
  { intros Hall. rewrite filter_all by (intros kv Hin [Hk Hv]; by rewrite (Hall kv Hin Hk) in Hv).
    case_match; apply set_sessions_id. }
  unfold sweep_one. munfold. destruct (dget x (w_sessions w)) as [f|] eqn:E.
  - pose proof (proj1 (Forall_forall _ _) Ht _ (dget_Some_elem _ _ _ E)) as Hf. simpl in Hf.
    rewrite Hf. destruct (t f) eqn:Etf.
    + destruct (unlink_run c x w Hwf) as [b ->]. eexists. do 2 f_equal. case_match; [|done].
      apply filter_same. intros kv Hin. split; [naive_solver|]. intros Hn Hk. apply Hn.
      specialize (Hx _ Hin Hk). split; congruence.
    + exists false. rewrite Hsame; [done|]. intros kv Hin Hk. specialize (Hx _ Hin Hk). congruence.
  - exists false. rewrite Hsame; [done|]. intros kv Hin Hk. by specialize (Hx _ Hin Hk).
Qed.

Lemma sweep_run c test (t : sess_file → bool) l : ∀ w, dict_wf (w_sessions w) →
  Forall (λ kv, test kv.2 = Ok (t kv.2)) (w_sessions w) →
  ∃ n, sweep c test l w =
    (Ok n, set_sessions w (if sess_io c
       then filter (λ kv, ¬ (kv.1 ∈ l ∧ t kv.2 = true)) (w_sessions w) else w_sessions w)).
Proof.
  unfold sweep. induction l as [|x l IH]; intros w Hwf Ht.
  { exists 0%Z. cbn. case_match; [|by rewrite set_sessions_id].
    rewrite filter_all by set_solver. by rewrite set_sessions_id. }
  destruct (sweep_one_run c test t x w Hwf Ht) as [b Hb].
  edestruct IH as [n Hn]; [| |eexists; erewrite count_each_cons by (exact Hb || exact Hn)]; simpl.
  - case_match; [by apply filter_dict_wf|done].
  - case_match; [by apply filter_Forall|done].
  - f_equal. rewrite set_sessions_twice. case_match; [|done]. f_equal.
    rewrite list_filter_filter. apply filter_same. set_solver.
Qed.

Lemma elem_session_files w sid : sid ∈ _session_files w ↔ sid ∈ dkeys (w_sessions w).
Proof. unfold _session_files. by rewrite elem_of_isort. Qed.

Lemma session_in_files w kv : kv ∈ w_sessions w → kv.1 ∈ _session_files w.
Proof. intros Hin. apply elem_session_files. by apply list_elem_of_fmap_2. Qed.

(** Logging an account out everywhere drops exactly its files. *)
Lemma revoke_identity_run c identity w : dict_wf (w_sessions w) → sess_io c = true →
  ∃ n, revoke_identity_sessions c identity w =
    (Ok n, set_sessions w (filter (λ kv, owner_of kv.2 ≠ Some identity) (w_sessions w))).
Proof.
  intros Hwf Hio. unfold revoke_identity_sessions. munfold.
  destruct (sweep_run c (λ f, Ok (bool_decide (owner_of f = Some identity)))
    (λ f, bool_decide (owner_of f = Some identity)) (_session_files w) w Hwf) as [n Hn].
  { by apply Forall_true. }
  exists n. rewrite Hn, Hio. do 2 f_equal. apply filter_same.
  intros kv Hin. rewrite bool_decide_eq_true. pose proof (session_in_files w kv Hin). naive_solver.
Qed.

(** ** Well-formed directories

    The server only writes aware time stamps; a naive one (a hand-edited file)
    makes the comparisons with now raise [TypeError]. *)
Definition sane_file (f : sess_file) : Prop :=
  ∀ record, doc_record f = Some record →
    (∀ t, expires_of record ≠ Some (Naive t)) ∧
    (∀ t, parse_iso (str_field (§"last_seen") record) ≠ Some (Naive t)).

Definition sess_wf (d : dict pystr sess_file) : Prop :=
  dict_wf d ∧ Forall (λ kv, sane_file kv.2) d.

Lemma sess_wf_filter (P : pystr * sess_file → Prop) `{∀ x, Decision (P x)} d :
  sess_wf d → sess_wf (filter P d).
Proof. intros [? ?]. split; [by apply filter_dict_wf|by apply filter_Forall]. Qed.

(** Whatever happens to the files, a log-out returns and only drops files. *)
Lemma revoke_identity_any c identity w : sess_wf (w_sessions w) →
  ∃ n d, revoke_identity_sessions c identity w = (Ok n, set_sessions w d) ∧ sess_wf d.
Proof.
  intros Hwf. unfold revoke_identity_sessions. munfold.
  destruct (sweep_run c (λ f, Ok (bool_decide (owner_of f = Some identity)))
    (λ f, bool_decide (owner_of f = Some identity)) (_session_files w) w) as [n Hn].
  { apply Hwf. }
  { by apply Forall_true. }
  rewrite Hn. eexists _, _. split; [done|]. case_match; [by apply sess_wf_filter|done].
Qed.

(** What the purge decides about a well-formed file. *)
Definition is_over (m : machine) (f : sess_file) : bool :=
  match purgeable m f with Ok b => b | Raise _ => false end.

Lemma purgeable_sane m f : sane_file f → purgeable m f = Ok (is_over m f).
Proof.
  unfold is_over, purgeable, sane_file. destruct (doc_record f) as [r|]; [|done].
  intros Hs. destruct (Hs r eq_refl) as [He _]. destruct (expires_of r) as [[t|t]|]; try done.
  by destruct (He t).
Qed.

Lemma purge_run c w : sess_wf (w_sessions w) → sess_io c = true →
  ∃ n, purge_expired_sessions c w =
    (Ok n, set_sessions w (filter (λ kv, is_over c kv.2 = false) (w_sessions w))).
Proof.
  intros [Hwf Hs] Hio. unfold purge_expired_sessions. munfold.
  destruct (sweep_run c (purgeable c) (is_over c) (_session_files w) w Hwf) as [n Hn].
  { eapply Forall_impl; [exact Hs|]. intros kv. apply purgeable_sane. }
  exists n. rewrite Hn, Hio. do 2 f_equal. apply filter_same.
  intros kv Hin. pose proof (session_in_files w kv Hin).
  destruct (is_over c kv.2); naive_solver.
Qed.

(** ** The caps *)

(** Readable sessions whose owner [sel] picks. *)
Definition picked (sel : pystr → bool) (f : sess_file) : bool :=
  match owner_of f with Some x => sel x | None => false end.
Definition count_sel (sel : pystr → bool) (d : dict pystr sess_file) : nat :=
  length (filter (λ kv, picked sel kv.2 = true) d).

Definition owned (identity : pystr) : dict pystr sess_file → nat :=
  count_sel (λ x, bool_decide (x = identity)).
Definition readable : dict pystr sess_file → nat := count_sel (λ _, true).

(** The entry of [live] for a file. *)
Definition live_item (kv : pystr * sess_file) : option (pystr * pystr * jdict) :=
  match doc_record kv.2 with
  | Some ((_ :: _) as record) => Some (identity_of_record record, kv.1, record)
  | _ => None
  end.

Lemma live_sessions_perm w : dict_wf (w_sessions w) →
  live_sessions w ≡ₚ omap live_item (w_sessions w).
Proof.
  intros Hwf. unfold live_sessions, _session_files.
  rewrite (isort_perm _ (dkeys (w_sessions w))). unfold _read_session.
  assert (Hg : ∀ kv, kv ∈ w_sessions w → dget kv.1 (w_sessions w) = Some kv.2)
    by (intros [k f] Hin; by apply dget_elem).
  set (d0 := w_sessions w) in Hg at 2 |- * at 1. set (d := w_sessions w) in *. clearbody d0 d. clear Hwf.
  unfold dkeys. induction d as [|kv d IH]; [done|]. csimpl.
  rewrite (Hg kv) by set_solver. cbn. unfold live_item at 1.
  destruct (doc_record kv.2) as [[|x l]|]; csimpl; rewrite IH by set_solver; done.
Qed.

Lemma live_item_picked sel kv :
  match live_item kv with
  | Some i => i.1.2 = kv.1 ∧ picked sel kv.2 = sel i.1.1
  | None => picked sel kv.2 = false
  end.
Proof. unfold live_item, picked, owner_of. by destruct (doc_record kv.2) as [[|x l]|]. Qed.

Lemma live_sids sel (d : dict pystr sess_file) :
  (λ i, i.1.2) <$> filter (λ i, sel i.1.1 = true) (omap live_item d) =
  dkeys (filter (λ kv, picked sel kv.2 = true) d).
Proof.
  unfold dkeys. induction d as [|kv d IH]; [done|]. csimpl. rewrite filter_cons.
  pose proof (live_item_picked sel kv) as Hi.
  destruct (live_item kv) as [i|]; [destruct Hi as [Hk Hi]|]; rewrite ?filter_cons;
    repeat case_decide; csimpl; rewrite ?IH; congruence.
Qed.

Lemma count_sel_filter sel (P : pystr * sess_file → Prop) `{∀ x, Decision (P x)} d :
  count_sel sel (filter P d) ≤ count_sel sel d.
Proof.
  unfold count_sel. apply sublist_length. induction d as [|kv d IH]; [done|].
  rewrite !filter_cons. case_decide; rewrite ?filter_cons; case_decide;
    by repeat constructor.
Qed.

Definition evicted (cand : list (pystr * pystr * jdict)) (keep : Z) : list pystr :=
  (λ i, i.1.2) <$> take (Z.to_nat (Z.of_nat (length (isort created_leb cand)) - keep + 1))
                        (isort created_leb cand).

Lemma evict_run c cand keep w : sess_io c = true → dict_wf (w_sessions w) →
  evict c cand keep w =
    (Ok tt, set_sessions w (filter (λ kv, kv.1 ∉ evicted cand keep) (w_sessions w))).
Proof.
  intros Hio Hwf. unfold evict. munfold. unfold evicted.
  edestruct (unlinks_run c (λ i : pystr * pystr * jdict, i.1.2)) as [m Hm]; [exact Hwf|].
  by rewrite Hm, Hio.
Qed.

(** Evicting leaves room for one more below the cap. *)
Lemma evicted_count sel cand keep d : dict_wf d →
  cand ≡ₚ filter (λ i, sel i.1.1 = true) (omap live_item d) →
  (0 < keep <= Z.of_nat (length cand))%Z →
  (Z.of_nat (count_sel sel (filter (λ kv, kv.1 ∉ evicted cand keep) d)) = keep - 1)%Z.
Proof.
  intros Hwf Hc Hk. set (L := evicted cand keep).
  assert (Hp : (λ i, i.1.2) <$> isort created_leb cand ≡ₚ dkeys (filter (λ kv, picked sel kv.2 = true) d)).
  { by rewrite (isort_perm created_leb cand), Hc, live_sids. }
  set (D := filter (λ kv, picked sel kv.2 = true) d) in *.
  assert (HL : length L + length (filter (λ kv, kv.1 ∉ L) D) = length D).
  { rewrite Nat.add_comm. unfold L, evicted. rewrite fmap_take.
    apply filter_out_length; [by apply filter_dict_wf| |].
    - eapply sublist_NoDup; [|apply sublist_take]. rewrite Hp. by apply filter_dict_wf.
    - intros x Hx. rewrite <- Hp. by eapply elem_of_sublist, sublist_take. }
  assert (Hcomm : count_sel sel (filter (λ kv, kv.1 ∉ L) d) = length (filter (λ kv, kv.1 ∉ L) D)).
  { unfold count_sel, D. rewrite !list_filter_filter. f_equal. apply filter_same. naive_solver. }
  assert (Hlen : length D = length cand).
  { rewrite <- (length_isort created_leb cand), <- (length_fmap (λ i, i.1.2)), Hp. unfold dkeys.
    by rewrite length_fmap. }
  assert (HLn : length L = Z.to_nat (Z.of_nat (length cand) - keep + 1)).
  { unfold L, evicted. rewrite length_fmap, length_take, length_isort. lia. }
  rewrite Hcomm. lia.
Qed.

Definition per_user_session_cap (m : machine) : Z :=
  _int_env m (§"FRAGO_MAX_SESSIONS_PER_USER") DEFAULT_SESSIONS_PER_USER.
Definition total_session_cap (m : machine) : Z :=
  _int_env m (§"FRAGO_MAX_SESSIONS") DEFAULT_TOTAL_SESSIONS.

Lemma caps_pos m : (0 < per_user_session_cap m)%Z ∧ (0 < total_session_cap m)%Z.
Proof. split; by apply _int_env_pos. Qed.

Lemma mine_perm identity w : dict_wf (w_sessions w) →
  filter (λ i, i.1.1 = identity) (live_sessions w) ≡ₚ
  filter (λ i, bool_decide (i.1.1 = identity) = true) (omap live_item (w_sessions w)).
Proof.
  intros Hwf. rewrite (live_sessions_perm w Hwf).
  erewrite list_filter_iff; [done|]. intros i. by rewrite bool_decide_eq_true.
Qed.

Lemma live_perm w : dict_wf (w_sessions w) →
  live_sessions w ≡ₚ filter (λ i, true = true) (omap live_item (w_sessions w)).
Proof. intros Hwf. rewrite filter_all by done. by apply live_sessions_perm. Qed.

(** Room below a cap, whether or not anything had to be evicted. *)
Lemma evicted_room sel cand keep d : dict_wf d → (0 < keep)%Z →
  cand ≡ₚ filter (λ i, sel i.1.1 = true) (omap live_item d) →
  (Z.of_nat (count_sel sel (filter (λ kv, kv.1 ∉
     (if Z.leb keep (Z.of_nat (length cand)) then evicted cand keep else [])) d)) < keep)%Z.
Proof.
  intros Hwf Hk Hc. case_match eqn:E.
  - apply Z.leb_le in E. rewrite (evicted_count sel cand keep d Hwf Hc); lia.
  - apply Z.leb_gt in E. rewrite filter_all by set_solver. unfold count_sel.
    apply Permutation_length in Hc. rewrite <- (length_fmap (λ i, i.1.2) (filter _ _)), live_sids in Hc.
    unfold dkeys in Hc. rewrite length_fmap in Hc. lia.
Qed.

Lemma enforce_run c identity w : sess_io c = true → dict_wf (w_sessions w) →
  ∃ L : list pystr,
    let d' := filter (λ kv, kv.1 ∉ L) (w_sessions w) in
    _enforce_session_caps c identity w = (Ok tt, set_sessions w d') ∧
    (Z.of_nat (owned identity d') < per_user_session_cap c)%Z ∧
    (Z.of_nat (readable d') < total_session_cap c)%Z.
Proof.
  intros Hio Hwf. destruct (caps_pos c) as [Hpu Htot].
  set (live := live_sessions w). set (mine := filter (λ i, i.1.1 = identity) live).
  set (L1 := if Z.leb (per_user_session_cap c) (Z.of_nat (length mine))
             then evicted mine (per_user_session_cap c) else []).
  set (L2 := if Z.leb (total_session_cap c) (Z.of_nat (length live))
             then evicted live (total_session_cap c) else []).
  assert (Hcat : filter (λ kv, kv.1 ∉ L1 ++ L2) (w_sessions w)
    = filter (λ kv, kv.1 ∉ L2) (filter (λ kv, kv.1 ∉ L1) (w_sessions w))).
  { rewrite list_filter_filter. apply filter_same. intros kv _. rewrite not_elem_of_app. naive_solver. }
  exists (L1 ++ L2). split_and!.
  - unfold _enforce_session_caps. fold (per_user_session_cap c) (total_session_cap c). munfold. fold live mine.
    rewrite Hcat.
    assert (He1 : (if Z.leb (per_user_session_cap c) (Z.of_nat (length mine)) then evict c mine (per_user_session_cap c)
             else λ s, (Ok tt, s)) w
      = (Ok tt, set_sessions w (filter (λ kv, kv.1 ∉ L1) (w_sessions w)))).
    { unfold L1. case_match; [by apply evict_run|].
      rewrite filter_all by set_solver. by rewrite set_sessions_id. }
    rewrite He1. unfold L2. destruct (total_session_cap c <=? Z.of_nat (length live))%Z.
    + rewrite evict_run; [done..|]. by apply filter_dict_wf.
    + by rewrite (filter_all (λ kv, kv.1 ∉ [])) by set_solver.
  - rewrite Hcat. eapply Z.le_lt_trans; [apply Nat2Z.inj_le, count_sel_filter|].
    apply (evicted_room (λ x, bool_decide (x = identity)) mine); [done..|]. by apply mine_perm.
  - replace (filter (λ kv, kv.1 ∉ L1 ++ L2) (w_sessions w))
      with (filter (λ kv, kv.1 ∉ L1) (filter (λ kv, kv.1 ∉ L2) (w_sessions w))).
    2: { rewrite Hcat, !list_filter_filter. apply filter_same. naive_solver. }
    eapply Z.le_lt_trans; [apply Nat2Z.inj_le, count_sel_filter|].
    apply (evicted_room (λ _, true) live); [done..|]. by apply live_perm.
Qed.

(** ** Issuing *)

Definition issued (m : machine) (identity : pystr) : sess_file :=
  {| sf_doc := Some (JObj (new_record m identity)); sf_mtime := wall m |}.

(** When a session issued at [m] stops being good: stamps keep whole seconds. *)
Definition expiry (m : machine) : Z := (wall m + secs (session_ttl m)) / 1000000 * 1000000.

Lemma new_record_fields m identity :
  identity_of_record (new_record m identity) = identity ∧
  expires_of (new_record m identity) = Some (Aware (expiry m)) ∧
  parse_iso (str_field (§"last_seen") (new_record m identity))
    = Some (Aware (wall m / 1000000 * 1000000)).
Proof.
  unfold identity_of_record, expires_of, _parse_time.
  rewrite (str_field_str _ identity), (str_field_str _ (iso_stamp (wall m))) by done.
  split_and!; [done| |apply parse_iso_stamp].
  change (dget (§"expires") (new_record m identity))
    with (Some (JStr (iso_stamp (wall m + secs (session_ttl m))))).
  apply parse_iso_stamp.
Qed.

Lemma issued_sane m identity : sane_file (issued m identity).
Proof.
  intros record [= <-]. destruct (new_record_fields m identity) as (_ & He & Hl).
  fold (new_record m identity). rewrite He, Hl. done.
Qed.

Lemma issued_owner m identity : owner_of (issued m identity) = Some identity.
Proof. cbn. by destruct (new_record_fields m identity) as [-> _]. Qed.

Lemma issue_ok c record ts : ∀ w token w', issue c record ts w = (Ok token, w') →
  sess_io c = true ∧ ∃ sid, _sid_of token = Ok sid ∧ dget sid (w_sessions w) = None ∧
  w' = set_sessions w (dset sid {| sf_doc := Some (JObj record); sf_mtime := wall c |} (w_sessions w)).
Proof.
  induction ts as [|t ts IH]; intros w token w' Hi; [done|]. cbn in Hi.
  destruct (_sid_of t) as [sid|] eqn:Es; [|done]. destruct (sess_io c) eqn:Eio; [|done]. cbn in Hi.
  unfold dmem in Hi. destruct (dget sid (w_sessions w)) eqn:Ed; [by apply IH in Hi|].
  ok_inv. eauto 6.
Qed.

Lemma dset_sess_wf sid f d : sess_wf d → sane_file f → sess_wf (dset sid f d).
Proof. intros [? ?] ?. split; [by apply dset_wf|by apply dset_Forall]. Qed.

(** What [create_session] did, whenever it returned a cookie. *)
Lemma create_session_ok c identity w token w' : sess_wf (w_sessions w) →
  create_session c identity w = (Ok token, w') →
  ∃ sid d, _sid_of token = Ok sid ∧ sess_io c = true ∧ dget sid d = None ∧ sess_wf d ∧
    (∀ kv, kv ∈ d → kv ∈ w_sessions w) ∧
    w' = set_sessions w (dset sid (issued c identity) d) ∧
    (Z.of_nat (owned identity d) < per_user_session_cap c)%Z ∧ (Z.of_nat (readable d) < total_session_cap c)%Z.
Proof.
  intros Hwf Hc. unfold create_session in Hc. unfold mbind, M_bind in Hc.
  destruct (sess_io c) eqn:Eio.
  - destruct (purge_run c w Hwf Eio) as [n Hn]. rewrite Hn in Hc.
    set (w1 := set_sessions w _) in Hc.
    assert (Hwf1 : sess_wf (w_sessions w1)) by (by apply sess_wf_filter).
    destruct (enforce_run c identity w1 Eio (proj1 Hwf1)) as (L & HL & Ho & Hr).
    rewrite HL in Hc. case_match; [done|].
    apply issue_ok in Hc as (_ & sid & Hsid & Hnone & ->).
    exists sid, (filter (λ kv, kv.1 ∉ L) (w_sessions w1)).
    split_and!; try done; [by apply sess_wf_filter|].
    intros kv [_ Hin]%list_elem_of_filter. by apply list_elem_of_filter in Hin as [_ ?].
  - destruct (purge_expired_sessions c w) as [[n|] w1]; [|done].
    destruct (_enforce_session_caps c identity w1) as [[[]|] w2]; [|done].
    case_match; [done|]. apply issue_ok in Hc as [? _]. congruence.
Qed.

Lemma create_session_wf c identity w token w' : sess_wf (w_sessions w) →
  create_session c identity w = (Ok token, w') → sess_wf (w_sessions w').
Proof.
  intros Hwf Hc.
  destruct (create_session_ok _ _ _ _ _ Hwf Hc) as (sid & d & _ & _ & _ & Hd & _ & -> & _).
  apply dset_sess_wf; [done|apply issued_sane].
Qed.

Lemma count_sel_dset sel sid f d : dget sid d = None →
  count_sel sel (dset sid f d) = count_sel sel d + (if picked sel f then 1 else 0).
Proof.
  intros Hn. unfold count_sel. rewrite dset_new by done. rewrite filter_app, length_app.
  f_equal. rewrite filter_cons. cbn [snd]. by case_decide; destruct (picked sel f).
Qed.

(** Session caps.  Whatever the session directory held before, after a
    login has been issued the account has at most its configured number of
    sessions and the server at most its configured total; the environment can
    never turn either cap off. *)
Theorem create_session_caps c identity w token w' :
  sess_wf (w_sessions w) → create_session c identity w = (Ok token, w') →
  (0 < per_user_session_cap c)%Z ∧ (0 < total_session_cap c)%Z ∧
  (Z.of_nat (owned identity (w_sessions w')) <= per_user_session_cap c)%Z ∧
  (Z.of_nat (readable (w_sessions w')) <= total_session_cap c)%Z ∧ sess_wf (w_sessions w').
Proof.
  intros Hwf Hc.
  destruct (create_session_ok _ _ _ _ _ Hwf Hc) as (sid & d & _ & _ & Hn & Hd & _ & -> & Ho & Hr).
  destruct (caps_pos c). simpl. unfold owned, readable in *. rewrite !count_sel_dset by done.
  split_and!; [done..| | |apply dset_sess_wf; [done|apply issued_sane]];
    case_match; lia.
Qed.

(** ** Resolving *)

(** The part of the state a session check may change. *)
Definition same_but_sessions w w' : Prop :=
  ∃ cache d, w' = set_sessions (set_users w (w_users w) cache) d.

Lemma find_user_run uid w : cache_ok w →
  ∃ cache, find_user_by_id uid w =
    (Ok (match dget uid (_read_users_file w) with
         | Some ((_ :: _) as record) => Some (_as_user record)
         | _ => None
         end), set_users w (w_users w) cache) ∧ cache_ok (set_users w (w_users w) cache).
Proof.
  intros Hc. destruct (load_users_fresh w Hc) as (cache & Hl & Hok). exists cache.
  unfold find_user_by_id. munfold. by rewrite Hl.
Qed.

(** The account a session names is in the table and not suspended. *)
Definition account_live (t : table) (identity : pystr) : Prop :=
  ∃ u, dget identity t = Some u ∧ u ≠ [] ∧ bool_field (§"disabled") u = false.

#[export] Instance account_live_dec t identity : Decision (account_live t identity).
Proof.
  refine (match dget identity t as o return dget identity t = o → _ with
    | Some u => λ E, cast_if (decide (u ≠ [] ∧ bool_field (§"disabled") u = false))
    | None => λ E, right _
    end eq_refl); unfold account_live; abstract naive_solver.
Defined.

(** A cookie the server honours at [m]: it names a session file that is not
    over and whose account is live. *)
Definition honoured (m : machine) w (sid : pystr) (record : jdict) : Prop :=
  _read_session w sid = Some record ∧
  (∃ t, expires_of record = Some (Aware t) ∧ (wall m < t)%Z) ∧
  account_live (_read_users_file w) (identity_of_record record).

Lemma touch_run c sid record w : 
  (∀ t, parse_iso (str_field (§"last_seen") record) ≠ Some (Naive t)) →
  ∃ d, _touch c sid record (session_of sid record) w = (Ok tt, set_sessions w d) ∧
    (d = w_sessions w ∨
     d = dset sid {| sf_doc := Some (JObj (dset (§"last_seen") (JStr (iso_stamp (wall c))) record));
                     sf_mtime := wall c |} (w_sessions w)).
Proof.
  intros Hn. unfold _touch. cbn [ls_last_seen session_of].
  destruct (parse_iso _) as [[t|t]|] eqn:E; [|by destruct (Hn t)|].
  all: repeat case_match; first [exists (w_sessions w); rewrite set_sessions_id; by auto|eauto].
Qed.

Lemma resolve_some c token w s w' : cache_ok w →
  resolve_session c (Some token) w = (Ok (Some s), w') →
  ∃ sid record, _sid_of token = Ok sid ∧ s = session_of sid record ∧ honoured c w sid record.
Proof.
  intros Hc Hr. unfold resolve_session in Hr. destruct token as [|x token]; [done|].
  set (tok := x :: token) in *. revert Hr. munfold.
  destruct (_sid_of tok) as [sid|]; [|done]. cbn beta iota.
  destruct (_read_session w sid) as [record|] eqn:Er; [|done]. cbn beta iota.
  destruct (expires_of record) as [[t|t]|] eqn:Ee; cbn [datetime_le];
    [|done|by destruct (unlink c sid w) as [[] ?]].
  destruct (t <=? wall c)%Z eqn:Et; [by destruct (unlink c sid w) as [[] ?]|].
  destruct (find_user_run (identity_of_record record) w Hc) as (cache & -> & _).
  destruct (dget (identity_of_record record) (_read_users_file w)) as [[|kv u]|] eqn:Eu; try done.
  cbn [_as_user user_disabled]. destruct (bool_field _ _) eqn:Ed; [done|].
  destruct (_touch _ _ _ _ _) as [[[]|] w1]; [|done]. intros [= <- _].
  exists sid, record. split_and!; [done..|]. split_and!; [done| |].
  - exists t. split; [done|]. lia.
  - exists (kv :: u). done.
Qed.

Lemma resolve_live c token sid record w : cache_ok w → sess_wf (w_sessions w) →
  token ≠ [] → _sid_of token = Ok sid → honoured c w sid record →
  ∃ w', resolve_session c (Some token) w = (Ok (Some (session_of sid record)), w') ∧
    same_but_sessions w w'.
Proof.
  intros Hc [_ Hsane] Hne Hsid (Hr & (t & He & Ht) & (u & Hu & Hun & Hud)).
  unfold resolve_session. destruct token as [|x token]; [done|]. munfold.
  rewrite Hsid. cbn beta iota. rewrite Hr, He. cbn [datetime_le].
  rewrite (proj2 (Z.leb_gt _ _)) by lia.
  destruct (find_user_run (identity_of_record record) w Hc) as (cache & -> & _).
  rewrite Hu. destruct u as [|kv u]; [done|]. cbn [_as_user user_disabled]. rewrite Hud.
  assert (Hls : ∀ t, parse_iso (str_field (§"last_seen") record) ≠ Some (Naive t)).
  { unfold _read_session in Hr. destruct (dget sid (w_sessions w)) as [f|] eqn:Ef; [|done].
    apply dget_Some_elem in Ef. rewrite Forall_forall in Hsane. by apply (Hsane _ Ef record). }
  destruct (touch_run c sid record (set_users w (w_users w) cache) Hls) as (d & -> & _).
  eexists. split; [done|]. by exists cache, d.
Qed.

(** *** A check leaves a well-formed state behind *)

Lemma file_sane w sid record : sess_wf (w_sessions w) → _read_session w sid = Some record →
  sane_file {| sf_doc := Some (JObj record); sf_mtime := 0 |}.
Proof.
  intros [_ Hs]. unfold _read_session. destruct (dget sid (w_sessions w)) as [f|] eqn:Ef; [|done].
  cbn. intros Hr r [= <-]. apply dget_Some_elem in Ef. rewrite Forall_forall in Hs.
  by apply (Hs _ Ef record).
Qed.

Lemma touched_sane record t m : sane_file {| sf_doc := Some (JObj record); sf_mtime := m |} →
  sane_file {| sf_doc := Some (JObj (dset (§"last_seen") (JStr (iso_stamp t)) record)); sf_mtime := t |}.
Proof.
  intros Hs r [= <-]. destruct (Hs record eq_refl) as [He _]. split.
  - unfold expires_of. rewrite dget_dset_ne by done. exact He.
  - intros x. rewrite (str_field_str _ (iso_stamp t)) by apply dget_dset_eq.
    by rewrite parse_iso_stamp.
Qed.

Lemma touch_wf c sid record w : sess_wf (w_sessions w) → _read_session w sid = Some record →
  ∃ d, _touch c sid record (session_of sid record) w = (Ok tt, set_sessions w d) ∧ sess_wf d.
Proof.
  intros Hwf Hr. pose proof (file_sane _ _ _ Hwf Hr) as Hs.
  destruct (touch_run c sid record w) as (d & Ht & Hd); [apply (Hs record eq_refl)|].
  exists d. split; [done|]. destruct Hd as [->| ->]; [done|].
  apply dset_sess_wf; [done|by eapply touched_sane].
Qed.

Lemma unlink_wf c sid w : sess_wf (w_sessions w) →
  ∃ b d, unlink c sid w = (Ok b, set_sessions w d) ∧ sess_wf d.
Proof.
  intros Hwf. destruct (unlink_run c sid w (proj1 Hwf)) as [b Hb]. eexists _, _.
  split; [exact Hb|]. case_match; [by apply sess_wf_filter|done].
Qed.

Lemma resolve_frame c token w : cache_ok w → sess_wf (w_sessions w) →
  ∃ r cache d, resolve_session c token w = (r, set_sessions (set_users w (w_users w) cache) d) ∧
    cache_ok (set_users w (w_users w) cache) ∧ sess_wf d.
Proof.
  intros Hc Hwf.
  assert (Hsame : ∀ r : res (option LoginSession), ∃ r' cache d,
    (r, w) = (r', set_sessions (set_users w (w_users w) cache) d) ∧
    cache_ok (set_users w (w_users w) cache) ∧ sess_wf d).
  { intros r. exists r, (w_cache w), (w_sessions w). split; [by destruct w|]. by destruct w. }
  unfold resolve_session. destruct token as [[|x token]|]; [apply Hsame| |apply Hsame].
  munfold. destruct (_sid_of (x :: token)) as [sid|]; [|apply Hsame]. cbn beta iota.
  destruct (_read_session w sid) as [record|] eqn:Er; [|apply Hsame]. cbn beta iota.
  assert (Hgone : ∃ r cache d, match unlink c sid w with
    | (Ok _, s) => (Ok (None : option LoginSession), s)
    | (Raise e, s) => (Raise e, s) end = (r, set_sessions (set_users w (w_users w) cache) d) ∧
    cache_ok (set_users w (w_users w) cache) ∧ sess_wf d).
  { destruct (unlink_wf c sid w Hwf) as (b & d & -> & Hd).
    exists (Ok None), (w_cache w), d. split; [by destruct w|]. by destruct w. }
  pose proof (file_sane _ _ _ Hwf Er record eq_refl) as [He _].
  destruct (expires_of record) as [[t|t]|]; cbn [datetime_le];
    [|by destruct (He t)|exact Hgone].
  destruct (t <=? wall c)%Z; [exact Hgone|].
  destruct (find_user_run (identity_of_record record) w Hc) as (cache & -> & Hc').
  assert (Hstop : ∀ r : res (option LoginSession), ∃ r' cache' d,
    (r, set_users w (w_users w) cache) = (r', set_sessions (set_users w (w_users w) cache') d) ∧
    cache_ok (set_users w (w_users w) cache') ∧ sess_wf d).
  { intros r. exists r, cache, (w_sessions w). split; [done|]. done. }
  destruct (dget _ _) as [[|kv u]|]; try apply Hstop.
  destruct (user_disabled _); [apply Hstop|].
  destruct (touch_wf c sid record (set_users w (w_users w) cache) Hwf Er) as (d & -> & Hd).
  eexists _, _, _. split; [reflexivity|]. done.
Qed.

(** C4. Which cookies are honoured.  A session check answers with a session
    exactly when the cookie's hash names a session file that parses, has not
    expired, and belongs to an account that is in the table and not disabled;
    the session it returns is that file's record.  Nothing of the server's
    state but the session directory and the table's cache changes. *)
Theorem resolve_session_iff c token sid w s :
  cache_ok w → sess_wf (w_sessions w) → token ≠ [] → _sid_of token = Ok sid →
  (∃ w', resolve_session c (Some token) w = (Ok (Some s), w') ∧ same_but_sessions w w') ↔
  ∃ record, s = session_of sid record ∧ honoured c w sid record.
Proof.
  intros Hc Hwf Hne Hsid. split.
  - intros (w' & Hr & _). destruct (resolve_some _ _ _ _ _ Hc Hr) as (sid' & r & Hs & -> & Hh).
    rewrite Hsid in Hs. ok_inv. eauto.
  - intros (r & -> & Hh). by apply resolve_live.
Qed.

(** A fresh cookie is honoured until its expiry, and not after. *)
Lemma issued_honoured c c' identity sid w d :
  account_live (_read_users_file w) identity →
  honoured c' (set_sessions w (dset sid (issued c identity) d)) sid (new_record c identity)
    ↔ (wall c' < expiry c)%Z.
Proof.
  intros Hl. destruct (new_record_fields c identity) as (Hi & He & _).
  unfold honoured, _read_session. simpl. rewrite dget_dset_eq. cbn [mbind option_bind doc_record sf_doc issued].
  rewrite Hi, He. split.
  - intros (_ & (t & [= <-] & Ht) & _). done.
  - intros Ht. eauto.
Qed.

(** Logging in works.  The cookie [create_session] returns for a live
    account resolves, at any later moment before its expiry and for any later
    call, to a session of exactly that account; from the expiry on it resolves
    to nothing.  The lifetime is absolute: it is fixed when the cookie is
    issued. *)
Theorem create_resolve_roundtrip c c' identity w token w' :
  cache_ok w → sess_wf (w_sessions w) → token ≠ [] →
  account_live (_read_users_file w) identity →
  create_session c identity w = (Ok token, w') →
  (wall c' < expiry c → ∃ s w'', resolve_session c' (Some token) w' = (Ok (Some s), w'') ∧
     ls_identity s = identity)%Z ∧
  (expiry c <= wall c' → ∃ w'', resolve_session c' (Some token) w' = (Ok None, w''))%Z.
Proof.
  intros Hc Hwf Hne Hl Hcr.
  destruct (create_session_ok _ _ _ _ _ Hwf Hcr) as (sid & d & Hsid & Hio & Hn & Hd & _ & -> & _).
  destruct (new_record_fields c identity) as (Hi & He & _). split.
  - intros Ht.
    destruct (resolve_live c' token sid (new_record c identity)
      (set_sessions w (dset sid (issued c identity) d))) as (w'' & Hr & _); try done.
    + apply dset_sess_wf; [done|apply issued_sane].
    + by apply issued_honoured.
    + eexists _, _. split; [exact Hr|exact Hi].
  - intros Ht. unfold resolve_session. destruct token as [|x token]; [done|]. munfold.
    rewrite Hsid. cbn beta iota. unfold _read_session. simpl. rewrite dget_dset_eq.
    cbn [mbind option_bind doc_record sf_doc issued]. rewrite He. cbn [datetime_le].
    rewrite (proj2 (Z.leb_le _ _)) by lia.
    edestruct (unlink_run c' sid (set_sessions w (dset sid (issued c identity) d))) as [b ->];
      [by apply dset_wf, Hd|]. eauto.
Qed.

(** Dropping files honours no cookie that was not honoured before. *)
Lemma honoured_filter m w sid record (P : pystr * sess_file → Prop) `{∀ x, Decision (P x)} :
  dict_wf (w_sessions w) →
  honoured m (set_sessions w (filter P (w_sessions w))) sid record ↔
  honoured m w sid record ∧ ∃ f, dget sid (w_sessions w) = Some f ∧ P (sid, f).
Proof.
  intros Hwf. unfold honoured, _read_session. simpl. rewrite dget_filter by done.
  destruct (dget sid (w_sessions w)) as [f|]; simpl; [|naive_solver].
  case_decide; simpl; naive_solver.
Qed.

Lemma honoured_owner m w sid record f : honoured m w sid record →
  dget sid (w_sessions w) = Some f → owner_of f = Some (identity_of_record record).
Proof.
  unfold honoured, _read_session, owner_of. intros (Hr & He & _) Hf. rewrite Hf in Hr.
  cbn in Hr. rewrite Hr. destruct record; [|done].
  unfold expires_of, _parse_time in He. cbn in He. rewrite parse_iso_none in He. naive_solver.
Qed.

(** Logging an account out everywhere works and hits nobody else: after
    [revoke_identity_sessions] no cookie resolves to that account any more,
    while every session of another account is honoured exactly as before. *)
Theorem revoke_identity_complete c identity w :
  cache_ok w → sess_wf (w_sessions w) → sess_io c = true →
  ∃ n w', revoke_identity_sessions c identity w = (Ok n, w') ∧
    sess_wf (w_sessions w') ∧
    (∀ c' token s w'', resolve_session c' token w' = (Ok (Some s), w'') → ls_identity s ≠ identity) ∧
    (∀ m sid record, identity_of_record record ≠ identity →
       honoured m w' sid record ↔ honoured m w sid record).
Proof.
  intros Hc Hwf Hio. destruct (revoke_identity_run c identity w (proj1 Hwf) Hio) as [n Hn].
  exists n, (set_sessions w (filter (λ kv, owner_of kv.2 ≠ Some identity) (w_sessions w))).
  split_and!; [done|by apply sess_wf_filter| |].
  - intros c' [token|] s w'' Hr; [|done].
    apply resolve_some in Hr as (sid & record & _ & -> & Hh); [|done].
    apply honoured_filter in Hh as (Hh & f & Hf & Ho); [|apply Hwf].
    apply (honoured_owner _ _ _ _ _ Hh) in Hf. simpl in *. congruence.
  - intros m sid record Hi. rewrite honoured_filter by apply Hwf.
    split; [tauto|]. intros Hh. split; [done|].
    pose proof Hh as (Hr & _). unfold _read_session in Hr.
    destruct (dget sid (w_sessions w)) as [f|] eqn:Hf; [|done]. exists f. split; [done|].
    apply (honoured_owner _ _ _ _ _ Hh) in Hf. simpl. congruence.
Qed.
End sessions.

(** ** Evaluation on the small server *)
Section demo.
Import Demo.

(** Ann signs in one second after the start. *)
Definition demo_token : pystr := value [] (create_session (call_at 1 ∅) ann server).1.
Definition demo_signed_in : world := (create_session (call_at 1 ∅) ann server).2.
Definition demo_sid : pystr := value [] (_sid_of demo_token).
Definition demo_record : jdict := new_record (call_at 1 ∅) ann.

Lemma demo_signed_in_ok :
  create_session (call_at 1 ∅) ann server = (Ok demo_token, demo_signed_in).
Proof. vm_compute. reflexivity. Qed.

Lemma demo_sess_wf : sess_wf (w_sessions demo_signed_in).
Proof.
  apply (create_session_wf (call_at 1 ∅) ann server demo_token); [|apply demo_signed_in_ok].
  split; constructor.
Qed.

Lemma demo_cache_ok : cache_ok demo_signed_in.
Proof. vm_compute. exact I. Qed.

Lemma demo_ann_live : account_live (_read_users_file server) ann.
Proof. exists ann_record. split_and!; [by vm_compute|discriminate|by vm_compute]. Qed.

(** With room for one session, the second sign-in replaces the first. *)
Lemma create_session_caps_witness :
  let c := call_at 2 {[ §"FRAGO_MAX_SESSIONS_PER_USER" := §"1" ]} in
  let '(r, w') := create_session c ann demo_signed_in in
  is_Some (match r with Ok t => Some t | Raise _ => None end) ∧
  (Z.of_nat (owned ann (w_sessions w')) <= 1)%Z.
Proof.
  intros c. destruct (create_session c ann demo_signed_in) as [[token|e] w'] eqn:E.
  - split; [eauto|].
    exact (proj1 (proj2 (proj2 (create_session_caps c ann demo_signed_in token w' demo_sess_wf E)))).
  - exfalso. vm_compute in E. discriminate.
Defined.

Lemma resolve_session_iff_witness :
  ∃ w', resolve_session (call_at 5 ∅) (Some demo_token) demo_signed_in =
          (Ok (Some (session_of demo_sid demo_record)), w') ∧ same_but_sessions demo_signed_in w'.
Proof.
  apply (resolve_session_iff (call_at 5 ∅) demo_token demo_sid demo_signed_in);
    [apply demo_cache_ok|apply demo_sess_wf|by vm_compute|by vm_compute|].
  exists demo_record. split; [done|]. split_and!; [by vm_compute| |apply demo_ann_live].
  eexists. split; by vm_compute.
Defined.

Lemma create_resolve_roundtrip_witness :
  let late := call_at 100000000 ∅ in
  (∃ s w'', resolve_session (call_at 5 ∅) (Some demo_token) demo_signed_in = (Ok (Some s), w'') ∧
     ls_identity s = ann) ∧
  (∃ w'', resolve_session late (Some demo_token) demo_signed_in = (Ok None, w'')).
Proof.
  intros late.
  assert (Hwf : sess_wf (w_sessions server)) by (split; constructor).
  assert (Hne : demo_token ≠ []) by (by vm_compute).
  split.
  - apply (create_resolve_roundtrip (call_at 1 ∅) (call_at 5 ∅) ann server demo_token demo_signed_in I
      Hwf Hne demo_ann_live demo_signed_in_ok). by vm_compute.
  - apply (create_resolve_roundtrip (call_at 1 ∅) late ann server demo_token demo_signed_in I
      Hwf Hne demo_ann_live demo_signed_in_ok). by vm_compute.
Defined.

Lemma revoke_identity_complete_witness :
  ∃ n w', revoke_identity_sessions (call_at 5 ∅) ann demo_signed_in = (Ok n, w') ∧
    ∀ c' token s w'', resolve_session c' token w' = (Ok (Some s), w'') → ls_identity s ≠ ann.
Proof.
  destruct (revoke_identity_complete (call_at 5 ∅) ann demo_signed_in demo_cache_ok demo_sess_wf eq_refl)
    as (n & w' & Hr & _ & Hno & _).
  exists n, w'. by split.
Defined.
End demo.
