(* ===== verification/Accounts.v ===== *)
(** * The account table's operations

    server/identity.py: creating accounts under the two caps, suspending them,
    and changing passwords.  Everything that decides whether an account may
    exist happens on the table read under the lock. *)

From Stdlib Require Import QArith.
From S2P Require Import Prelude PyStr Json Env InvocationCtx AppState Publish RateLimit Password World Sessions.
From stdpp Require Import prelude gmap list strings.

Definition DEFAULT_TOTAL_CAP : Z := 500.
Definition DEFAULT_UNUSED_CAP : Z := 200.

Section accounts.
Context `{Unicode, PyRepr, Clock, Crypto, Paths}.
Implicit Types (w : world) (c : call) (m : machine) (t : table).

Definition has_data m w (uid : pystr) : bool :=
  bool_decide (uid ≠ []) && bool_decide (path_join (user_state_dir m) uid ∈ w_dirs w).

Definition account_caps m : Z * Z :=
  let total := _int_env m (§"FRAGO_MAX_USERS") DEFAULT_TOTAL_CAP in
  let unused := _int_env m (§"FRAGO_MAX_UNUSED_USERS") DEFAULT_UNUSED_CAP in
  (total, Z.min unused total).

(** The accounts of a table that never produced data. *)
Definition unused_records m w t : list jdict :=
  filter (λ rec, has_data m w (str_field (§"id") rec) = false) (dvals t).

Definition older (a b : jdict) : bool :=
  str_leb (str_field (§"created") a) (str_field (§"created") b).

(** The loop over the victims: pop the record, then log the account out. *)
Fixpoint evict_users c (victims : list jdict) : M (world * table) unit :=
  match victims with
  | [] => mret tt
  | victim :: victims =>
      let vid := str_field (§"id") victim in
      on_table (ddel vid);;
      on_world (revoke_identity_sessions c vid);;
      evict_users c victims
  end.

Definition _make_room c : M (world * table) unit :=
  s ← get_st;
  let '(w, entries) := s in
  let '(total_cap, unused_cap) := account_caps c in
  if Z.leb total_cap (Z.of_nat (length entries)) then raise (IdentityError "account_limit")
  else
    let unused := unused_records c w entries in
    if Z.ltb (Z.of_nat (length unused)) unused_cap then mret tt
    else evict_users c (take (Z.to_nat (Z.of_nat (length unused) - unused_cap + 1))
                             (isort older unused)).

(** The record of a new account. *)
Definition new_user m (uid email encoded : pystr) : jdict :=
  [(§"id", JStr uid); (§"email", JStr (normalize_email email)); (§"pwd", JStr encoded);
   (§"disabled", JBool false); (§"created", JStr (iso_stamp (wall m)))].

(** The locked section of [create_user]. *)
Definition create_user_body c (uid email encoded : pystr) : M (world * table) User :=
  s ← get_st;
  match dget uid s.2 with
  | Some ((_ :: _) as existing) => mret (_as_user existing)
  | _ =>
      _make_room c;;
      on_table (dset uid (new_user c uid email encoded));;
      mret (_as_user (new_user c uid email encoded))
  end.

Definition check_password_rules (password : pystr) : res unit :=
  match password_problem password with
  | Some _ => Raise (IdentityError "weak_password")
  | None => Ok tt
  end.

Definition check_email_rules (email : pystr) : res unit :=
  problem ← email_problem email;
  match problem with
  | Some _ => Raise (IdentityError "invalid_email")
  | None => Ok tt
  end.

Definition hash_now c (password : pystr) : res pystr :=
  hash_password password _SCRYPT_N _SCRYPT_R _SCRYPT_P (salt_draw c).

Definition create_user c (email password : pystr) : M world User :=
  lift_res (check_email_rules email);;
  lift_res (check_password_rules password);;
  uid ← lift_res (derive_id email);
  encoded ← lift_res (hash_now c password);
  _users_locked c (create_user_body c uid email encoded).

Definition verify_user_password (uid password : pystr) : M world bool :=
  users ← load_users;
  match dget uid users with
  | None => mret false
  | Some record =>
      if bool_field (§"disabled") record then mret false
      else lift_res (verify_password password (str_field (§"pwd") record))
  end.

(** The locked section of [set_password] and [set_disabled]: set one field. *)
Definition set_field_body (uid key : pystr) (v : json) : M (world * table) jdict :=
  s ← get_st;
  match dget uid s.2 with
  | None => raise (IdentityError "no_such_user")
  | Some record =>
      on_table (dset uid (dset key v record));;
      mret (dset key v record)
  end.

Definition set_password c (uid password : pystr) (revoke_sessions : bool) : M world unit :=
  lift_res (check_password_rules password);;
  encoded ← lift_res (hash_now c password);
  _users_locked c (set_field_body uid (§"pwd") (JStr encoded));;
  (if revoke_sessions then revoke_identity_sessions c uid;; mret tt else mret tt).

Definition set_disabled c (uid : pystr) (disabled : bool) : M world User :=
  updated ← _users_locked c (set_field_body uid (§"disabled") (JBool disabled));
  (if disabled then revoke_identity_sessions c uid;; mret tt else mret tt);;
  mret (_as_user updated).

(** ** The table's invariant *)

(** Every record carries its own key as [id]. *)
Definition table_wf t : Prop :=
  dict_wf t ∧ Forall (λ kv, dget (§"id") kv.2 = Some (JStr kv.1)) t.

Lemma table_wf_filter (P : pystr * jdict → Prop) `{∀ x, Decision (P x)} t :
  table_wf t → table_wf (filter P t).
Proof. intros [? ?]. split; [by apply filter_dict_wf|by apply filter_Forall]. Qed.

Lemma table_wf_dset uid rec t : table_wf t → dget (§"id") rec = Some (JStr uid) →
  table_wf (dset uid rec t).
Proof. intros [? ?] ?. split; [by apply dset_wf|by apply dset_Forall]. Qed.

Lemma record_id t kv : table_wf t → kv ∈ t → str_field (§"id") kv.2 = kv.1.
Proof.
  intros [_ Hid] Hin. rewrite Forall_forall in Hid. by apply str_field_str, Hid.
Qed.

(** A record that is not suspended makes its account live. *)
Lemma record_live t uid rec : table_wf t → dget uid t = Some rec →
  bool_field (§"disabled") rec = false → account_live t uid.
Proof.
  intros [_ Hid] Hr Hd. exists rec. split_and!; [done| |done]. intros ->.
  rewrite Forall_forall in Hid. by apply dget_Some_elem, Hid in Hr.
Qed.

(** The part of the table that never produced data. *)
Definition unused_part m w t : table := filter (λ kv, has_data m w kv.1 = false) t.

Lemma unused_records_part m w t : table_wf t → unused_records m w t = dvals (unused_part m w t).
Proof.
  unfold unused_records, unused_part, dvals. intros Hwf.
  assert (Hid : ∀ kv, kv ∈ t → str_field (§"id") kv.2 = kv.1) by (intros; by eapply record_id).
  clear Hwf. induction t as [|kv t IH]; [done|]. csimpl. rewrite !filter_cons.
  rewrite (Hid kv) by set_solver. rewrite IH by set_solver. by case_decide.
Qed.

Lemma unused_ids m w t : table_wf t →
  str_field (§"id") <$> unused_records m w t = dkeys (unused_part m w t).
Proof.
  intros Hwf. rewrite unused_records_part by done. unfold dvals, dkeys. rewrite <- list_fmap_compose.
  apply list_fmap_ext. intros i kv Hi%list_elem_of_lookup_2. simpl.
  apply list_elem_of_filter in Hi as [_ Hi]. by eapply record_id.
Qed.

Lemma account_caps_pos m :
  (0 < (account_caps m).1)%Z ∧ (0 < (account_caps m).2 <= (account_caps m).1)%Z.
Proof.
  unfold account_caps. simpl.
  pose proof (_int_env_pos m (§"FRAGO_MAX_USERS") DEFAULT_TOTAL_CAP).
  pose proof (_int_env_pos m (§"FRAGO_MAX_UNUSED_USERS") DEFAULT_UNUSED_CAP).
  unfold DEFAULT_TOTAL_CAP, DEFAULT_UNUSED_CAP in *. lia.
Qed.

(** ** Making room *)

Lemma evict_users_run c victims : ∀ w t, sess_wf (w_sessions w) → dict_wf t →
  ∃ d, evict_users c victims (w, t) =
    (Ok tt, (set_sessions w d, filter (λ kv, kv.1 ∉ str_field (§"id") <$> victims) t)) ∧ sess_wf d.
Proof.
  induction victims as [|v victims IH]; intros w t Hs Ht.
  - exists (w_sessions w). cbn. rewrite set_sessions_id, filter_all by set_solver. done.
  - cbn [evict_users]. unfold on_table, on_world. munfold. cbn [fst snd].
    destruct (revoke_identity_any c (str_field (§"id") v) w Hs) as (n & d & -> & Hd).
    destruct (IH (set_sessions w d) (ddel (str_field (§"id") v) t)) as (d' & -> & Hd');
      [done|by apply ddel_wf|].
    exists d'. split; [|done]. rewrite set_sessions_twice. do 2 f_equal.
    rewrite ddel_filter, list_filter_filter by done. apply filter_same. set_solver.
Qed.

(** The victims: only accounts without data, and enough of them that one more
    account stays within the unused cap. *)
Definition victims m w t : list pystr :=
  let unused := unused_records m w t in
  let cap := (account_caps m).2 in
  if Z.ltb (Z.of_nat (length unused)) cap then []
  else str_field (§"id") <$> take (Z.to_nat (Z.of_nat (length unused) - cap + 1)) (isort older unused).

Lemma make_room_run c w t : sess_wf (w_sessions w) → dict_wf t →
  if Z.leb (account_caps c).1 (Z.of_nat (length t))
  then _make_room c (w, t) = (Raise (IdentityError "account_limit"), (w, t))
  else ∃ d, _make_room c (w, t) =
    (Ok tt, (set_sessions w d, filter (λ kv, kv.1 ∉ victims c w t) t)) ∧ sess_wf d.
Proof.
  intros Hs Ht. unfold _make_room, victims. munfold.
  destruct (account_caps c) as [total unused] eqn:Ec. cbn [fst snd].
  case_match; [done|]. case_match.
  - exists (w_sessions w). rewrite set_sessions_id, filter_all by set_solver. done.
  - by apply evict_users_run.
Qed.

Lemma victims_unused m w t uid : table_wf t → uid ∈ victims m w t → has_data m w uid = false.
Proof.
  intros Hwf. unfold victims. case_match; [set_solver|]. rewrite fmap_take. intros Hin.
  assert (Hk : uid ∈ dkeys (unused_part m w t)).
  { rewrite <- unused_ids by done. rewrite <- (isort_perm older (unused_records m w t)).
    by eapply elem_of_sublist, sublist_take. }
  apply list_elem_of_fmap in Hk as ([k v] & -> & [? _]%list_elem_of_filter). done.
Qed.

Lemma victims_room m w t : table_wf t →
  (Z.of_nat (length (unused_part m w (filter (λ kv, kv.1 ∉ victims m w t) t)))
     < (account_caps m).2)%Z.
Proof.
  intros Hwf. destruct (account_caps_pos m) as (_ & Hcap & _). set (L := victims m w t).
  assert (Hlen : length (unused_records m w t) = length (unused_part m w t))
    by (rewrite unused_records_part by done; unfold dvals; by rewrite length_fmap).
  assert (Hcomm : unused_part m w (filter (λ kv, kv.1 ∉ L) t)
    = filter (λ kv, kv.1 ∉ L) (unused_part m w t)).
  { unfold unused_part. rewrite !list_filter_filter. apply filter_same. naive_solver. }
  rewrite Hcomm. unfold L, victims. case_match eqn:E.
  - apply Z.ltb_lt in E. rewrite filter_all by set_solver. lia.
  - apply Z.ltb_ge in E. rewrite fmap_take. set (n := Z.to_nat _).
    assert (Hp : str_field (§"id") <$> isort older (unused_records m w t)
      ≡ₚ dkeys (unused_part m w t)) by (by rewrite isort_perm, unused_ids).
    assert (Hu : dict_wf (unused_part m w t)) by (by apply filter_dict_wf, Hwf).
    pose proof (filter_out_length (take n (str_field (§"id") <$> isort older (unused_records m w t)))
      (unused_part m w t) Hu) as Hf.
    rewrite length_take, length_fmap, length_isort in Hf.
    opose proof* Hf as Hf'.
    { eapply sublist_NoDup; [|apply sublist_take]. by rewrite Hp. }
    { intros x Hx. rewrite <- Hp. by eapply elem_of_sublist, sublist_take. }
    lia.
Qed.

(** ** Locked sections *)

Definition users_ok w : Prop := table_wf (_read_users_file w) ∧ cache_ok w ∧ sess_wf (w_sessions w).

(** A section that leaves the sessions [d] and the table [t'] behind. *)
Lemma locked_run {A} c (body : M (world * table) A) w a d t' :
  cache_ok w → body (w, _read_users_file w) = (Ok a, (set_sessions w d, t')) →
  (is_Some (users_io c) ∨ t' = _read_users_file w) →
  ∃ u cache, _users_locked c body w = (Ok a, set_sessions (set_users w u cache) d) ∧
    _read_users_file (set_users w u cache) = t' ∧ cache_ok (set_users w u cache).
Proof.
  intros Hc Hb Hio. unfold _users_locked, _write_users. rewrite Hb. case_decide as Et.
  - exists (w_users w), (w_cache w). split_and!; by destruct w.
  - destruct Hio as [[stamp ->]|?]; [|done].
    exists (Some {| uf_doc := Some (table_doc t'); uf_stamp := stamp |}), None.
    split_and!; [done| |done]. unfold _read_users_file. simpl. apply dict_entries_table.
Qed.

Lemma locked_io {A} c (body : M (world * table) A) w a a' w1 t' w' :
  body (w, _read_users_file w) = (Ok a, (w1, t')) → t' ≠ _read_users_file w →
  _users_locked c body w = (Ok a', w') → is_Some (users_io c).
Proof.
  intros Hb Hne. unfold _users_locked, _write_users. rewrite Hb, decide_False by done.
  destruct (users_io c); [eauto|done].
Qed.

Lemma locked_raise {A} c (body : M (world * table) A) w e w1 t' :
  body (w, _read_users_file w) = (Raise e, (w1, t')) → _users_locked c body w = (Raise e, w1).
Proof. intros Hb. unfold _users_locked. by rewrite Hb. Qed.

(** The stages of [create_user] before the lock. *)
Lemma create_user_ok c email password w u w' : create_user c email password w = (Ok u, w') →
  email_problem email = Ok None ∧ password_problem password = None ∧
  ∃ uid encoded, derive_id email = Ok uid ∧ hash_now c password = Ok encoded ∧
    _users_locked c (create_user_body c uid email encoded) w = (Ok u, w').
Proof.
  unfold create_user, check_email_rules, check_password_rules. munfold.
  destruct (email_problem email) as [[|]|]; cbn; try done.
  destruct (password_problem password); [done|].
  destruct (derive_id email) as [uid|]; [|done].
  destruct (hash_now c password) as [encoded|]; [|done]. eauto 8.
Qed.

Lemma create_body_new c uid email encoded w : users_ok w → dget uid (_read_users_file w) = None →
  let t := _read_users_file w in
  if Z.leb (account_caps c).1 (Z.of_nat (length t))
  then create_user_body c uid email encoded (w, t)
       = (Raise (IdentityError "account_limit"), (w, t))
  else ∃ d, create_user_body c uid email encoded (w, t)
       = (Ok (_as_user (new_user c uid email encoded)),
          (set_sessions w d, dset uid (new_user c uid email encoded)
                                  (filter (λ kv, kv.1 ∉ victims c w t) t))) ∧ sess_wf d.
Proof.
  intros (Ht & _ & Hs) Hn t. unfold create_user_body, on_table. munfold. cbn [fst snd].
  fold t in Hn. rewrite Hn.
  pose proof (make_room_run c w t Hs (proj1 Ht)) as Hm. case_match.
  - by rewrite Hm.
  - destruct Hm as (d & -> & Hd). exists d. done.
Qed.

Lemma new_user_fields m uid email encoded :
  dget (§"id") (new_user m uid email encoded) = Some (JStr uid) ∧
  bool_field (§"disabled") (new_user m uid email encoded) = false ∧
  str_field (§"pwd") (new_user m uid email encoded) = encoded.
Proof. split_and!; [done..|]. by apply str_field_str. Qed.

(** What creating a new account left behind. *)
Lemma create_user_new c email password w u w' uid :
  users_ok w → derive_id email = Ok uid → dget uid (_read_users_file w) = None →
  create_user c email password w = (Ok u, w') →
  let t := _read_users_file w in
  ∃ enc t1, t1 = filter (λ kv, kv.1 ∉ victims c w t) t ∧ hash_now c password = Ok enc ∧
    _read_users_file w' = dset uid (new_user c uid email enc) t1 ∧ dget uid t1 = None ∧
    user_id u = uid ∧ users_ok w' ∧ w_dirs w' = w_dirs w ∧
    (Z.of_nat (length t) < (account_caps c).1)%Z.
Proof.
  intros Hok Huid Hn Hc t.
  apply create_user_ok in Hc as (_ & _ & uid' & enc & Huid' & Henc & Hl).
  rewrite Huid in Huid'. ok_inv. pose proof Hok as (Ht & Hca & Hs).
  pose proof (create_body_new c uid' email enc w Hok Hn) as Hb.
  cbv zeta in Hb. fold t in Hb, Hn.
  destruct ((account_caps c).1 <=? Z.of_nat (length t))%Z eqn:Efull; [by erewrite locked_raise in Hl|].
  destruct Hb as (d & Hb & Hd). set (t1 := filter (λ kv, kv.1 ∉ victims c w t) t) in Hb.
  assert (Hn1 : dget uid' t1 = None) by (unfold t1; rewrite dget_filter by apply Ht; by rewrite Hn).
  assert (Hio : is_Some (users_io c)).
  { eapply locked_io; [exact Hb| |exact Hl]. fold t. intros E.
    pose proof (dget_dset_eq uid' (new_user c uid' email enc) t1) as Hg. rewrite E in Hg. congruence. }
  destruct (locked_run c _ w _ d _ Hca Hb (or_introl Hio)) as (us & cache & Hl' & Hr & Hca').
  rewrite Hl' in Hl. injection Hl as <- <-. exists enc, t1.
  split_and!; [done|done|exact Hr|done|by apply str_field_str| |done|by apply Z.leb_gt].
  split_and!; [|exact Hca'|exact Hd].
  change (table_wf (_read_users_file (set_users w us cache))). rewrite Hr.
  apply table_wf_dset; [by apply table_wf_filter|done].
Qed.

Lemma new_user_live m uid email enc t : account_live (dset uid (new_user m uid email enc) t) uid.
Proof. eexists. split_and!; [apply dget_dset_eq|done|done]. Qed.

(** Creating an account.  When [create_user] creates an account that did
    not exist, then afterwards the table holds it, live, under its derived id;
    the table has at most the total cap of accounts, of which at most the unused
    cap never produced data; every account that has data is still there with
    its record untouched; and the table's invariant holds again. *)
Theorem create_user_caps c email password w u w' uid :
  users_ok w → derive_id email = Ok uid → dget uid (_read_users_file w) = None →
  create_user c email password w = (Ok u, w') →
  let t := _read_users_file w in let t' := _read_users_file w' in
  user_id u = uid ∧ users_ok w' ∧ account_live t' uid ∧
  (Z.of_nat (length t') <= (account_caps c).1)%Z ∧
  (Z.of_nat (length (unused_part c w' t')) <= (account_caps c).2)%Z ∧
  (∀ k rec, dget k t = Some rec → has_data c w k = true → dget k t' = Some rec).
Proof.
  intros Hok Huid Hn Hc t t'.
  destruct (create_user_new _ _ _ _ _ _ _ Hok Huid Hn Hc)
    as (enc & t1 & Et1 & _ & Ht' & Hn1 & Hu & Hok' & Hdirs & Hlt).
  pose proof Hok as (Ht & _). fold t' in Ht'. fold t in Et1, Hlt, Hn.
  split_and!; [done|done| | | |].
  - rewrite Ht'. apply new_user_live.
  - rewrite Ht', length_dset_new by done.
    pose proof (length_filter (λ kv, kv.1 ∉ victims c w t) t). rewrite Et1. lia.
  - pose proof (victims_room c w t Ht) as Hv. rewrite <- Et1 in Hv. rewrite Ht', dset_new by done.
    unfold unused_part in *. rewrite filter_app, length_app.
    pose proof (length_filter (λ kv, has_data c w' kv.1 = false)
      [(uid, new_user c uid email enc)]) as Hle.
    simpl in Hle. unfold has_data in *. rewrite Hdirs in *. lia.
  - intros k rec Hk Hdata. rewrite Ht', dget_dset_ne by congruence. rewrite Et1.
    rewrite dget_filter by apply Ht. rewrite Hk. cbn. rewrite decide_True; [done|].
    intros Hv. apply (victims_unused c w t k Ht) in Hv. congruence.
Qed.

(** When [create_user] refuses or has nothing to do.  An address that
    already has an account gets that account back and nothing changes; a full
    table refuses with [account_limit] and nothing changes, so no account is
    evicted to make room for one that is refused. *)
Theorem create_user_unchanged c email password w uid encoded :
  users_ok w → email_problem email = Ok None → password_problem password = None →
  derive_id email = Ok uid → hash_now c password = Ok encoded →
  let t := _read_users_file w in
  (∀ rec, dget uid t = Some rec → rec ≠ [] →
     create_user c email password w = (Ok (_as_user rec), w)) ∧
  (dget uid t = None → ((account_caps c).1 <= Z.of_nat (length t))%Z →
     create_user c email password w = (Raise (IdentityError "account_limit"), w)).
Proof.
  intros Hok He Hp Hu Hh t.
  assert (Hc : create_user c email password w =
    _users_locked c (create_user_body c uid email encoded) w).
  { unfold create_user, check_email_rules, check_password_rules. munfold. rewrite He, Hp, Hu, Hh. done. }
  rewrite Hc. split.
  - intros rec Hrec Hne. unfold _users_locked, create_user_body. munfold. cbn [fst snd].
    fold t. rewrite Hrec. destruct rec; [done|]. by rewrite decide_True.
  - intros Hn Hfull. pose proof (create_body_new c uid email encoded w Hok Hn) as Hb.
    cbv zeta in Hb. fold t in Hb. rewrite (proj2 (Z.leb_le _ _)) in Hb by done.
    by eapply locked_raise.
Qed.

(** ** Editing one record *)

Lemma set_field_body_run uid key v w rec : dget uid (_read_users_file w) = Some rec →
  set_field_body uid key v (w, _read_users_file w) =
    (Ok (dset key v rec), (set_sessions w (w_sessions w), dset uid (dset key v rec) (_read_users_file w))).
Proof.
  intros Hr. unfold set_field_body, on_table. munfold. cbn [fst snd].
  rewrite Hr. by rewrite set_sessions_id.
Qed.

Lemma table_wf_field uid key v t rec : table_wf t → key ≠ §"id" → dget uid t = Some rec →
  table_wf (dset uid (dset key v rec) t).
Proof.
  intros Hwf Hk Hr. apply table_wf_dset; [done|]. rewrite dget_dset_ne by done.
  destruct Hwf as [_ Hid]. rewrite Forall_forall in Hid.
  apply (Hid (uid, rec)). by apply dget_Some_elem.
Qed.

(** The state after a locked edit of one field. *)
Lemma set_field_run c uid key v w rec : users_ok w → is_Some (users_io c) → key ≠ §"id" →
  dget uid (_read_users_file w) = Some rec →
  ∃ w', _users_locked c (set_field_body uid key v) w = (Ok (dset key v rec), w') ∧
    users_ok w' ∧ _read_users_file w' = dset uid (dset key v rec) (_read_users_file w) ∧
    w_sessions w' = w_sessions w.
Proof.
  intros (Ht & Hc & Hs) Hio Hk Hr.
  destruct (locked_run c _ w _ _ _ Hc (set_field_body_run uid key v w rec Hr) (or_introl Hio))
    as (u & cache & -> & Hread & Hca).
  eexists. split_and!; [done| |exact Hread|done].
  split_and!; [|exact Hca|exact Hs].
  change (table_wf (_read_users_file (set_users w u cache))). rewrite Hread.
  by apply table_wf_field.
Qed.

Lemma users_ok_sessions w d : users_ok w → sess_wf d → users_ok (set_sessions w d).
Proof. intros (? & ? & ?) ?. done. Qed.

(** Whatever a locked edit of one field returns, the state is the old one or
    the edited one. *)
Lemma set_field_any c uid key v w rec r w' : users_ok w → key ≠ §"id" →
  dget uid (_read_users_file w) = Some rec →
  _users_locked c (set_field_body uid key v) w = (r, w') →
  w' = w ∨ (users_ok w' ∧ w_sessions w' = w_sessions w ∧
            _read_users_file w' = dset uid (dset key v rec) (_read_users_file w)).
Proof.
  intros Hok Hk Hr Hl. destruct (users_io c) as [stamp|] eqn:Eio.
  - destruct (set_field_run c uid key v w rec Hok) as (w1 & Hl1 & ? & ? & ?); [eauto|done..|].
    rewrite Hl1 in Hl. injection Hl as <- <-. auto.
  - left. revert Hl. unfold _users_locked, _write_users. rewrite (set_field_body_run _ _ _ _ _ Hr), Eio.
    rewrite set_sessions_id. by case_decide; intros [= <- <-].
Qed.

Lemma set_password_any c uid password w rec r w' : users_ok w →
  dget uid (_read_users_file w) = Some rec →
  set_password c uid password false w = (r, w') →
  w' = w ∨ (users_ok w' ∧ w_sessions w' = w_sessions w ∧
            ∃ enc, _read_users_file w' = dset uid (dset (§"pwd") (JStr enc) rec) (_read_users_file w)).
Proof.
  intros Hok Hr. unfold set_password. munfold.
  destruct (check_password_rules password) as [[]|]; [|intros [= <- <-]; by left].
  destruct (hash_now c password) as [enc|]; [|intros [= <- <-]; by left].
  destruct (_users_locked c _ w) as [r1 w1] eqn:El.
  apply (set_field_any _ _ _ _ _ rec _ _ Hok) in El; [|done|exact Hr].
  destruct r1; intros [= <- <-]; (destruct El as [->|(? & ? & ?)]; [by left|right; eauto]).
Qed.

(** Suspending an account takes effect at once.  After [set_disabled] no
    cookie resolves to the account, even where its session files could not be
    removed; no other account's record changes, and the table's invariant is
    kept. *)
Theorem set_disabled_effective c uid w rec :
  users_ok w → is_Some (users_io c) → dget uid (_read_users_file w) = Some rec →
  ∃ u w', set_disabled c uid true w = (Ok u, w') ∧ user_disabled u = true ∧ users_ok w' ∧
    (∀ c' token s w'', resolve_session c' token w' = (Ok (Some s), w'') → ls_identity s ≠ uid) ∧
    (∀ k, k ≠ uid → dget k (_read_users_file w') = dget k (_read_users_file w)).
Proof.
  intros Hok Hio Hr.
  destruct (set_field_run c uid (§"disabled") (JBool true) w rec) as (w1 & Hl & Hok1 & Hread & _);
    [done..|].
  destruct (revoke_identity_any c uid w1) as (n & d & Hrev & Hd); [apply Hok1|].
  assert (Hdis : bool_field (§"disabled") (dset (§"disabled") (JBool true) rec) = true)
    by (unfold bool_field; by rewrite dget_dset_eq).
  exists (_as_user (dset (§"disabled") (JBool true) rec)), (set_sessions w1 d). split_and!.
  - unfold set_disabled. unfold mbind, M_bind. rewrite Hl. cbn beta iota. by rewrite Hrev.
  - exact Hdis.
  - by apply users_ok_sessions.
  - intros c' [token|] s w'' Hres; [|done].
    apply resolve_some in Hres as (sid & r & _ & -> & _ & _ & u & Hu & _ & Hl'); [|apply Hok1].
    simpl. intros E. rewrite E in Hu. change (dget uid (_read_users_file w1) = Some u) in Hu.
    rewrite Hread, dget_dset_eq in Hu. injection Hu as <-. congruence.
  - intros k Hk. change (dget k (_read_users_file w1) = dget k (_read_users_file w)).
    rewrite Hread. by apply dget_dset_ne.
Qed.

Lemma password_problem_length pw : password_problem pw = None → length pw ≤ MAX_PASSWORD_LENGTH.
Proof.
  unfold password_problem. do 3 (case_match; [done|]). intros _. by apply Nat.ltb_ge.
Qed.

(** The digest of a password in a record hashed by this call. *)
Definition digest_now c (pw : pystr) : res (list N) :=
  digest_of pw _SCRYPT_N _SCRYPT_R _SCRYPT_P (salt_draw c).

Lemma hash_now_verify c (pw pw' enc : pystr) : Forall (λ x, (x < 256)%N) (salt_draw c) →
  length pw' ≤ MAX_PASSWORD_LENGTH → hash_now c pw = Ok enc →
  verify_password pw' enc = Ok (bool_decide (digest_now c pw' = digest_now c pw)).
Proof. intros Hs Hl Hh. by eapply verify_hash_run. Qed.

Lemma hash_now_ok c pw b : encode_utf8 pw = Ok b → ∃ enc, hash_now c pw = Ok enc.
Proof.
  intros Hb. unfold hash_now, hash_password. rewrite Hb. cbn [mbind res_bind].
  destruct (scrypt_default b (salt_draw c)) as [d Hd].
  change (scrypt b (salt_draw c) (Z.of_N _SCRYPT_N) (Z.of_N _SCRYPT_R) (Z.of_N _SCRYPT_P) _SCRYPT_DKLEN)
    with (scrypt b (salt_draw c) 16384 8 1 32). rewrite Hd. eauto.
Qed.

(** Changing a password.  For a password the rules accept, [set_password]
    succeeds; afterwards a password of the account verifies exactly when it has
    the new one's digest (so the new one does, and an old one with another
    digest no longer does), no cookie resolves to the account any more, and
    every other account and session is as before. *)
Theorem set_password_effective c uid password w rec b :
  users_ok w → is_Some (users_io c) → sess_io c = true →
  Forall (λ x, (x < 256)%N) (salt_draw c) →
  dget uid (_read_users_file w) = Some rec → bool_field (§"disabled") rec = false →
  password_problem password = None → encode_utf8 password = Ok b →
  ∃ w', set_password c uid password true w = (Ok tt, w') ∧ users_ok w' ∧
    (∀ pw, length pw ≤ MAX_PASSWORD_LENGTH →
       (verify_user_password uid pw w').1
         = Ok (bool_decide (digest_now c pw = digest_now c password))) ∧
    (∀ c' token s w'', resolve_session c' token w' = (Ok (Some s), w'') → ls_identity s ≠ uid) ∧
    (∀ k, k ≠ uid → dget k (_read_users_file w') = dget k (_read_users_file w)) ∧
    w_sessions w' = filter (λ kv, owner_of kv.2 ≠ Some uid) (w_sessions w).
Proof.
  intros Hok Hio Hsio Hsalt Hr Hdis Hp Hb.
  destruct (hash_now_ok c password b Hb) as [enc Henc].
  destruct (set_field_run c uid (§"pwd") (JStr enc) w rec) as (w1 & Hl & Hok1 & Hread & Hsess);
    [done..|].
  destruct (revoke_identity_run c uid w1) as (n & Hrev); [apply Hok1|done|].
  set (d := filter (λ kv, owner_of kv.2 ≠ Some uid) (w_sessions w1)) in Hrev.
  exists (set_sessions w1 d).
  assert (Hok' : users_ok (set_sessions w1 d)).
  { apply users_ok_sessions; [done|]. apply sess_wf_filter, Hok1. }
  split_and!; [|done| | | |by unfold d; rewrite Hsess].
  - unfold set_password, check_password_rules. unfold mbind, M_bind, lift_res.
    rewrite Hp, Henc. cbn beta iota. rewrite Hl. cbn beta iota. by rewrite Hrev.
  - intros pw Hlen. unfold verify_user_password. munfold.
    destruct (load_users_fresh (set_sessions w1 d)) as (cache & -> & _); [apply Hok'|].
    change (_read_users_file (set_sessions w1 d)) with (_read_users_file w1).
    rewrite Hread, dget_dset_eq. unfold bool_field. rewrite dget_dset_ne by done.
    fold (bool_field (§"disabled") rec). rewrite Hdis. cbn [fst].
    rewrite (str_field_str _ enc) by apply dget_dset_eq. by apply hash_now_verify.
  - intros c' [token|] s w'' Hres; [|done].
    apply resolve_some in Hres as (sid & r & _ & -> & Hh); [|apply Hok'].
    apply (honoured_filter _ w1) in Hh as (Hh & f & Hf & Ho); [|apply Hok1].
    apply (honoured_owner _ _ _ _ _ Hh) in Hf. simpl in *. congruence.
  - intros k Hk. change (dget k (_read_users_file w1) = dget k (_read_users_file w)).
    rewrite Hread. by apply dget_dset_ne.
Qed.
End accounts.

(** ** Evaluation on the small server *)
Section demo.
Import Demo.

Lemma demo_users_ok w : w_users w = w_users server → cache_ok w → sess_wf (w_sessions w) → users_ok w.
Proof.
  intros Hu Hc Hs. unfold users_ok, _read_users_file. rewrite Hu. split_and!; [|done..].
  change (table_wf (dict_entries (Some (table_doc [(ann, ann_record)])))). rewrite dict_entries_table.
  split; [apply NoDup_singleton|by repeat constructor].
Qed.

Lemma demo_server_ok : users_ok server.
Proof. apply demo_users_ok; [done..|]. split; constructor. Qed.

Lemma demo_signed_in_users_ok : users_ok demo_signed_in.
Proof. apply demo_users_ok; [by vm_compute..|apply demo_sess_wf]. Qed.

Definition demo_room : gmap pystr pystr := {[ §"FRAGO_MAX_UNUSED_USERS" := §"1" ]}.

(** With room for one unused account, a new one takes the place of Ann's. *)
Lemma create_user_caps_witness :
  let c := call_at 9 demo_room in
  let '(r, w') := create_user c (§"bob@example.org") (§"battery staple") server in
  (∃ u, r = Ok u) ∧ (account_caps c).2 = 1%Z ∧
  (Z.of_nat (length (unused_part c w' (_read_users_file w'))) <= (account_caps c).2)%Z.
Proof.
  intros c. destruct (create_user _ _ _ _) as [[u|e] w'] eqn:E.
  - split_and!; [eauto|by vm_compute|].
    refine (proj1 (proj2 (proj2 (proj2 (proj2 (create_user_caps c (§"bob@example.org")
      (§"battery staple") server u w' (value [] (derive_id (§"bob@example.org")))
      demo_server_ok _ _ E)))))); by vm_compute.
  - exfalso. vm_compute in E. discriminate.
Defined.

(** Signing up again with Ann's address, and signing up on a full table. *)
Lemma create_user_unchanged_witness :
  let full := call_at 9 {[ §"FRAGO_MAX_USERS" := §"1" ]} in
  create_user (call_at 9 ∅) email (§"battery staple") server = (Ok (_as_user ann_record), server) ∧
  create_user full (§"bob@example.org") (§"battery staple") server
    = (Raise (IdentityError "account_limit"), server).
Proof.
  intros full. split.
  - refine (proj1 (create_user_unchanged (call_at 9 ∅) email (§"battery staple") server ann
      (value [] (hash_now (call_at 9 ∅) (§"battery staple"))) demo_server_ok _ _ _ _) ann_record _ _);
      by vm_compute.
  - refine (proj2 (create_user_unchanged full (§"bob@example.org") (§"battery staple") server
      (value [] (derive_id (§"bob@example.org"))) (value [] (hash_now full (§"battery staple")))
      demo_server_ok _ _ _ _) _ _); by vm_compute.
Defined.

Lemma set_disabled_effective_witness :
  ∃ u w', set_disabled (call_at 9 ∅) ann true demo_signed_in = (Ok u, w') ∧ user_disabled u = true ∧
    ∀ c' token s w'', resolve_session c' token w' = (Ok (Some s), w'') → ls_identity s ≠ ann.
Proof.
  destruct (set_disabled_effective (call_at 9 ∅) ann demo_signed_in ann_record demo_signed_in_users_ok
    ltac:(by eexists) ltac:(by vm_compute)) as (u & w' & Hs & Hd & _ & Hno & _).
  exists u, w'. by split_and!.
Defined.

Lemma set_password_effective_witness :
  ∃ w', set_password (call_at 9 ∅) ann (§"battery staple") true demo_signed_in = (Ok tt, w') ∧
    (verify_user_password ann (§"battery staple") w').1 = Ok true ∧
    (verify_user_password ann password w').1 = Ok false.
Proof.
  destruct (set_password_effective (call_at 9 ∅) ann (§"battery staple") demo_signed_in ann_record
    (§"battery staple") demo_signed_in_users_ok ltac:(by eexists) eq_refl ltac:(by repeat constructor)
    ltac:(by vm_compute) ltac:(by vm_compute) ltac:(by vm_compute) ltac:(by vm_compute))
    as (w' & Hs & _ & Hv & _).
  exists w'. split_and!; [done|rewrite Hv by (by vm_compute; lia); by vm_compute..].
Defined.
End demo.
