(* ===== verification/Authn.v ===== *)
(** * Signing in

    server/identity.py: the address rate limiting may key on, the shared signup
    passphrase, the cookie's [Secure] flag, and [authenticate], which signs in or
    signs up depending on whether the address is known. *)

From Stdlib Require Import QArith Qminmax Lqa.
From S2P Require Import Prelude PyStr Json Env Peer InvocationCtx AppState Publish RateLimit Password World Sessions Accounts.
From stdpp Require Import prelude gmap list strings.

Section authn.
Context `{Unicode, PyRepr, Clock, Crypto, Paths}.
Implicit Types (w : world) (c : call) (m : machine) (sc : scope).

Definition trusted_proxies m : list pystr :=
  filter (λ part, part ≠ []) (strip <$> split_on 44 (default [] (environ m !! §"FRAGO_TRUSTED_PROXIES"))).

Definition ip_rate_limiting_available m : bool :=
  if peer_trust_disabled m then bool_decide (trusted_proxies m ≠ []) else true.

Definition client_ip m sc : option pystr :=
  if ip_rate_limiting_available m then fst <$> s_client sc else None.

Definition signup_gate m : option pystr :=
  match environ m !! §"FRAGO_SIGNUP_GATE" with
  | Some ((_ :: _) as value) => Some value
  | _ => None
  end.

Definition signup_gate_required m : bool :=
  bool_decide (is_Some (signup_gate m)) || negb (ip_rate_limiting_available m).

(** Both sides are compared as UTF-8; a lone surrogate cannot be encoded. *)
Definition check_signup_gate m (presented : option pystr) : res bool :=
  match signup_gate m with
  | None => Ok (negb (signup_gate_required m))
  | Some expected =>
      a ← encode_utf8 (default [] presented);
      b ← encode_utf8 expected;
      Ok (bool_decide (a = b))
  end.

Definition public_https m : bool := _enabled m (§"FRAGO_PUBLIC_HTTPS") false.

Definition cookie_is_secure m sc : bool :=
  bool_decide (str_lower (default [] (s_scheme sc)) ∈ [§"https"; §"wss"]) || public_https m.

Inductive how := SignedIn | Created.

(** [authenticate]; [pending] is the address [acting_for] marked. *)
Definition authenticate c (pending : option pystr) (email password : pystr) (gate : option pystr)
    : M world (User * how) :=
  lift_res (check_email_rules email);;
  uid ← lift_res (derive_id email);
  users ← load_users;
  match dget uid users with
  | None =>
      passed ← lift_res (check_signup_gate c gate);
      if negb passed then raise (IdentityError "gate_required")
      else
        allowed ← on_limits (λ l, let '(b, l) := allow_signup (mono c) pending l in (Ok b, l));
        if negb allowed then raise (IdentityError "rate_limited")
        else u ← create_user c email password; mret (u, Created)
  | Some record =>
      if bool_field (§"disabled") record then raise (IdentityError "bad_credentials")
      else
        w ← get_st;
        if negb (Qle_bool (login_backoff_remaining (mono c) uid (w_limits w)) 0)
        then raise (IdentityError "rate_limited")
        else
          good ← lift_res (verify_password password (str_field (§"pwd") record));
          if negb good then
            on_limits (note_login_failure (mono c) uid);;
            raise (IdentityError "bad_credentials")
          else
            on_limits (modify (note_login_success uid));;
            (if needs_rehash (str_field (§"pwd") record)
             then suppress (λ e, match e with IdentityError _ => true | _ => false end)
                    (set_password c uid password false)
             else mret tt);;
            mret (_as_user record, SignedIn)
  end.

(** ** The passphrase *)

(** The signup layer fails closed.  A new account's passphrase check passes
    only if the presented text is exactly the configured passphrase, or if none
    is configured and addresses can be trusted for rate limiting; behind a proxy
    that is not declared, with no passphrase set, it never passes. *)
Theorem signup_gate_fails_closed m presented :
  check_signup_gate m presented = Ok true ↔
  (∃ expected, signup_gate m = Some expected ∧ default [] presented = expected ∧
     ∃ b, encode_utf8 expected = Ok b) ∨
  (signup_gate m = None ∧ (peer_trust_disabled m = false ∨ trusted_proxies m ≠ [])).
Proof.
  unfold check_signup_gate, signup_gate_required, ip_rate_limiting_available.
  destruct (signup_gate m) as [expected|] eqn:Eg.
  - split.
    + destruct (encode_utf8 (default [] presented)) as [a|] eqn:Ea; [|done]. cbn.
      destruct (encode_utf8 expected) as [b|] eqn:Eb; [|done]. cbn. intros [= Hab].
      apply bool_decide_eq_true in Hab as ->. left. exists expected.
      split_and!; [done|by eapply encode_utf8_inj|eauto].
    + intros [(e & [= <-] & <- & b & Hb)|[? _]]; [|done]. rewrite Hb. cbn.
      by rewrite bool_decide_eq_true_2.
  - rewrite bool_decide_eq_false_2 by (by intros [? ?]). cbn.
    destruct (peer_trust_disabled m).
    + split.
      * intros [= Hn]. right. split; [done|right]. case_bool_decide; done.
      * intros [(? & ? & _)|[_ [?|Hp]]]; try done. by rewrite bool_decide_eq_true_2.
    + split; [|done]. intros _. right. auto.
Qed.

(** ** Who is let in *)

Lemma users_ok_limits w l : users_ok w → users_ok (set_limits w l).
Proof. intros (? & ? & ?). done. Qed.

Lemma users_ok_cache w cache : users_ok w → cache_ok (set_users w (w_users w) cache) →
  users_ok (set_users w (w_users w) cache).
Proof. by intros (? & ? & ?). Qed.

(** The branch for a known address, after the record has been loaded. *)
Lemma known_account_ok c uid rec password w r w' :
  users_ok w → dget uid (_read_users_file w) = Some rec →
  (suppress (λ e, match e with IdentityError _ => true | _ => false end)
     (set_password c uid password false)) w = (r, w') →
  users_ok w' ∧ w_sessions w' = w_sessions w ∧
  (∀ k, k ≠ uid → dget k (_read_users_file w') = dget k (_read_users_file w)) ∧
  (account_live (_read_users_file w) uid → account_live (_read_users_file w') uid).
Proof.
  intros Hok Hr. unfold suppress. destruct (set_password c uid password false w) as [r1 w1] eqn:Es.
  apply (set_password_any _ _ _ _ _ _ _ Hok Hr) in Es. intros Hs.
  assert (w' = w1) as -> by (revert Hs; by repeat case_match; intros [= <- <-]).
  destruct Es as [->|(Hok1 & Hsess & enc & Hread)]; [done|].
  split_and!; [done..| |].
  - intros k Hk. rewrite Hread. by apply dget_dset_ne.
  - intros (u & Hu & Hne & Hd). rewrite Hr in Hu. injection Hu as <-. rewrite Hread.
    eexists. split_and!; [apply dget_dset_eq| |].
    + by destruct rec as [|[? ?] ?]; simpl; [|case_decide].
    + unfold bool_field. rewrite dget_dset_ne by done. exact Hd.
Qed.

(** What a successful [authenticate] went through and left behind. *)
Lemma authenticate_ok c pending email password gate w u h w' :
  users_ok w → authenticate c pending email password gate w = (Ok (u, h), w') →
  ∃ uid, derive_id email = Ok uid ∧ users_ok w' ∧
    account_live (_read_users_file w') uid ∧
    match h with
    | SignedIn => ∃ rec, dget uid (_read_users_file w) = Some rec ∧ u = _as_user rec ∧
        bool_field (§"disabled") rec = false ∧
        verify_password password (str_field (§"pwd") rec) = Ok true ∧
        (login_backoff_remaining (mono c) uid (w_limits w) <= 0)%Q ∧
        (∀ k, k ≠ uid → dget k (_read_users_file w') = dget k (_read_users_file w))
    | Created => dget uid (_read_users_file w) = None ∧ check_signup_gate c gate = Ok true ∧
        user_id u = uid
    end.
Proof.
  intros Hok. unfold authenticate. munfold.
  destruct (check_email_rules email) as [[]|]; [|done].
  destruct (derive_id email) as [uid|] eqn:Euid; [|done].
  destruct (load_users_fresh w) as (cache & -> & Hca); [apply Hok|].
  set (w0 := set_users w (w_users w) cache) in *.
  assert (Hok0 : users_ok w0) by (by apply users_ok_cache).
  change (_read_users_file w) with (_read_users_file w0).
  destruct (dget uid (_read_users_file w0)) as [rec|] eqn:Er.
  - destruct (bool_field (§"disabled") rec) eqn:Ed; [done|]. cbn beta iota.
    destruct (Qle_bool _ 0) eqn:Eq; [|done]. cbn [negb].
    destruct (verify_password password _) as [[]|] eqn:Ev; cbn [negb]; [| |done].
    2: { unfold on_limits. destruct (note_login_failure _ _ _) as [[[]|] l]; done. }
    unfold on_limits. set (w1 := set_limits w0 _).
    destruct (needs_rehash _) eqn:En.
    + destruct (suppress _ _ w1) as [[[]|] w2] eqn:Es; [|done]. intros [= <- <- <-].
      apply (known_account_ok c uid rec) in Es as (Hok2 & _ & Hoth & Hlive);
        [|by apply users_ok_limits|done].
      exists uid. split_and!; [done..| |].
      * by apply Hlive, (record_live _ _ rec); [apply Hok0|..].
      * exists rec. split_and!; try done. by apply Qle_bool_iff.
    + intros [= <- <- <-]. exists uid. split_and!; [done|by apply users_ok_limits| |].
      * by apply (record_live _ _ rec); [apply Hok0|..].
      * exists rec. split_and!; try done. by apply Qle_bool_iff.
  - destruct (check_signup_gate c gate) as [[]|] eqn:Eg; cbn [negb]; [|done..].
    unfold on_limits. destruct (allow_signup _ _ _) as [[] l]; cbn [negb]; [|done].
    set (w1 := set_limits w0 l).
    destruct (create_user c email password w1) as [[u'|] w2] eqn:Ec; [|done]. intros [= <- <- <-].
    apply (create_user_new _ _ _ _ _ _ uid) in Ec
      as (enc & t1 & _ & _ & Ht' & _ & Hu & Hok2 & _); [|by apply users_ok_limits|done..].
    exists uid. split_and!; try done. rewrite Ht'. apply new_user_live.
Qed.

(** C6. Who [authenticate] lets in.  A sign-in succeeds only for an account that
    exists and is not disabled, is not being delayed, and whose stored record
    verifies the password; it returns that account, creates nothing, and changes
    no other account.  A sign-up succeeds only for an address without an account
    and with the passphrase check passed, and leaves a live account under the
    address's derived id.  The table's invariant holds afterwards. *)
Theorem authenticate_sound c pending email password gate w u h w' :
  users_ok w → authenticate c pending email password gate w = (Ok (u, h), w') →
  ∃ uid, derive_id email = Ok uid ∧ user_id u = uid ∧ users_ok w' ∧
    account_live (_read_users_file w') uid ∧
    match h with
    | SignedIn => ∃ rec, dget uid (_read_users_file w) = Some rec ∧ u = _as_user rec ∧
        bool_field (§"disabled") rec = false ∧
        verify_password password (str_field (§"pwd") rec) = Ok true ∧
        (login_backoff_remaining (mono c) uid (w_limits w) <= 0)%Q ∧
        (∀ k, k ≠ uid → dget k (_read_users_file w') = dget k (_read_users_file w))
    | Created => dget uid (_read_users_file w) = None ∧ check_signup_gate c gate = Ok true
    end.
Proof.
  intros Hok Ha. pose proof Ha as (uid & Huid & Hok' & Hl & Hh)%authenticate_ok; [|done].
  exists uid. destruct h.
  - split_and!; try done. destruct Hh as (rec & Hr & -> & _).
    by apply (record_id (_read_users_file w) (uid, rec)), dget_Some_elem; [apply Hok|].
  - by destruct Hh as (? & ? & ?).
Qed.

(** ** Refusals *)

(** The first steps of [authenticate] on a known address. *)
Lemma authenticate_known c pending email password gate w uid rec :
  users_ok w → check_email_rules email = Ok tt → derive_id email = Ok uid →
  dget uid (_read_users_file w) = Some rec → bool_field (§"disabled") rec = false →
  ∃ cache, let w0 := set_users w (w_users w) cache in users_ok w0 ∧
    if Qle_bool (login_backoff_remaining (mono c) uid (w_limits w)) 0 then
      verify_password password (str_field (§"pwd") rec) = Ok false →
      authenticate c pending email password gate w =
        (on_limits (note_login_failure (mono c) uid);; raise (IdentityError "bad_credentials")) w0
    else authenticate c pending email password gate w = (Raise (IdentityError "rate_limited"), w0).
Proof.
  intros Hok He Hu Hr Hd.
  destruct (load_users_fresh w) as (cache & Hl & Hca); [apply Hok|].
  exists cache. split; [by apply users_ok_cache|].
  unfold authenticate. munfold. rewrite He, Hu, Hl, Hr, Hd. cbn beta iota.
  change (w_limits (set_users w (w_users w) cache)) with (w_limits w).
  destruct (Qle_bool _ 0); cbn [negb]; [|done]. by intros ->.
Qed.

(** C7. Wrong passwords cost time.  For a live account that is not being
    delayed, a wrong password is refused as [bad_credentials] and counted; until
    the delay that count earns is over, every further attempt on the account is
    refused as [rate_limited] whatever the password, and no account or session
    changes.  (Below the 1029th failure in a row, where the counter stops.) *)
Theorem authenticate_wrong_password c c' pending pending' email password password' gate gate' w uid rec :
  users_ok w → default_params (LOGIN_BACKOFF (w_limits w)) →
  check_email_rules email = Ok tt → derive_id email = Ok uid →
  dget uid (_read_users_file w) = Some rec → bool_field (§"disabled") rec = false →
  (login_backoff_remaining (mono c) uid (w_limits w) <= 0)%Q →
  verify_password password (str_field (§"pwd") rec) = Ok false →
  let n := failures_of uid (LOGIN_BACKOFF (w_limits w)) in
  (0 <= n < 1028)%Z →
  ∃ w', authenticate c pending email password gate w = (Raise (IdentityError "bad_credentials"), w') ∧
    users_ok w' ∧ _read_users_file w' = _read_users_file w ∧ w_sessions w' = w_sessions w ∧
    failures_of uid (LOGIN_BACKOFF (w_limits w')) = (n + 1)%Z ∧
    ((mono c' < mono c + nth_delay (n + 1))%Q → ∃ w'',
       authenticate c' pending' email password' gate' w' = (Raise (IdentityError "rate_limited"), w'') ∧
       _read_users_file w'' = _read_users_file w ∧ w_sessions w'' = w_sessions w).
Proof.
  intros Hok Hpar He Hu Hr Hd Hq Hv n Hn.
  destruct (authenticate_known c pending email password gate w uid rec) as (cache & Hok0 & Ha); [done..|].
  rewrite (proj2 (Qle_bool_iff _ _) Hq) in Ha. specialize (Ha Hv). revert Ha. munfold.
  unfold on_limits at 1, note_login_failure. cbn [w_limits set_users].
  rewrite fail_key_run by (done || lia). fold n. rewrite (proj2 (Z.ltb_lt _ _)) by lia.
  set (b' := set_state _ _). set (w' := set_limits _ _). intros Ha. exists w'.
  assert (Hst : _state b' !! uid = Some ((n + 1)%Z, (mono c + nth_delay (n + 1))%Q))
    by (unfold b'; cbn [_state set_state]; by rewrite lookup_insert_eq).
  split_and!; [exact Ha|by apply users_ok_limits|done|done| |].
  { unfold failures_of. cbn [w' w_limits set_limits LOGIN_BACKOFF with_backoff]. by rewrite Hst. }
  intros Ht.
  destruct (authenticate_known c' pending' email password' gate' w' uid rec) as (cache' & _ & Ha');
    [by apply users_ok_limits|done..|].
  assert (Hrem : Qle_bool (login_backoff_remaining (mono c') uid (w_limits w')) 0 = false).
  { apply not_true_is_false. rewrite Qle_bool_iff. unfold login_backoff_remaining, remaining.
    cbn [w' w_limits set_limits LOGIN_BACKOFF with_backoff]. rewrite Hst. cbn [default id].
    rewrite (proj2 (Z.eqb_neq _ _)) by lia.
    destruct (Q.max_spec 0 (mono c + nth_delay (n + 1) - mono c')) as [[? E]|[? E]]; rewrite E; lra. }
  rewrite Hrem in Ha'. eexists. split_and!; [exact Ha'|done|done].
Qed.
End authn.

(** ** Evaluation on the small server *)
Section demo.
Import Demo.

(** Ann signs in; Bob signs up. *)
Lemma authenticate_sound_witness :
  let r := authenticate (call_at 9 ∅) None (§"bob@example.org") (§"battery staple") None server in
  ∃ u w', r = (Ok (u, Created), w') ∧ account_live (_read_users_file w') (user_id u) ∧
    fst <$> (match (authenticate (call_at 9 ∅) None email password None server).1 with
             | Ok x => Some x | Raise _ => None end) = Some (_as_user ann_record).
Proof.
  intros r. destruct r as [[[u [|]]|e] w'] eqn:E; subst r;
    [exfalso; vm_compute in E; discriminate| |exfalso; vm_compute in E; discriminate].
  exists u, w'. split_and!; [done| |].
  - destruct (authenticate_sound (call_at 9 ∅) None _ _ None server u Created w' demo_server_ok E)
      as (uid & _ & -> & _ & Hlive & _). exact Hlive.
  - by vm_compute.
Defined.

(** Five wrong passwords in a row. *)
Definition demo_guessed : world :=
  Nat.iter 5 (λ w, (authenticate (call_at 9 ∅) None email (§"guess") None w).2) server.

(** The sixth earns a delay of two seconds, in which the right one is refused. *)
Lemma authenticate_wrong_password_witness :
  ∃ w', authenticate (call_at 10 ∅) None email (§"guess") None demo_guessed
          = (Raise (IdentityError "bad_credentials"), w') ∧
    ∃ w'', authenticate (call_at 11 ∅) None email password None w'
          = (Raise (IdentityError "rate_limited"), w'').
Proof.
  assert (Hok : users_ok demo_guessed).
  { apply demo_users_ok; [by vm_compute|by vm_compute|].
    replace (w_sessions demo_guessed) with (@nil (pystr * sess_file)) by (by vm_compute). split; constructor. }
  unshelve epose proof (authenticate_wrong_password (call_at 10 ∅) (call_at 11 ∅) None None email
    (§"guess") password None None demo_guessed ann ann_record Hok _ _ _ _ _ _ _ _)
    as (w' & Hw & _ & _ & _ & _ & Hlate); [by vm_compute..|].
  exists w'. split; [exact Hw|].
  destruct Hlate as (w'' & Hw'' & _); [by vm_compute|]. exists w''. exact Hw''.
Defined.
End demo.
