(* ===== verification/Security.v ===== *)
(** * The access gate

    server/security.py: every request is sorted into the local, public,
    identity or token zone, or refused.  The gate reads the token file, the list
    of exposed pages, the session directory and the account table; its decision
    is refined here to a function of what those files hold. *)

From Stdlib Require Import QArith.
From S2P Require Import Prelude PyStr Json Env IpAddr Peer InvocationCtx AppState Publish RateLimit Password World Sessions Accounts Authn.
From stdpp Require Import prelude gmap list strings.

(** ** Query strings

    [urllib.parse.parse_qsl]: percent-decoding is [unquote], which leaves text
    without a percent sign alone. *)
Class UrlCoding := {
  unquote : pystr → pystr;
  unquote_plain : ∀ s, has_char 37 s = false → unquote s = s;
}.

Definition url_plain : UrlCoding := {| unquote s := s; unquote_plain _ _ := eq_refl |}.

Definition plus_to_space (s : pystr) : pystr := map (λ c, if (c =? 43)%N then 32%N else c) s.

Definition parse_qsl `{UrlCoding} (keep_blank : bool) (qs : pystr) : list (pystr * pystr) :=
  omap (λ piece,
    if decide (piece = []) then None
    else
      let '(name, value) := partition_on 61 piece in
      let value := default [] value in
      if bool_decide (value ≠ []) || keep_blank
      then Some (unquote (plus_to_space name), unquote (plus_to_space value)) else None)
    (split_on 38 qs).

(** ** The web framework

    What the server takes from Starlette: the decoded query pairs
    ([QueryParams]), the first value of a header, one cookie, and the scheme of
    the request's URL.  A query of one plain pair decodes to that pair. *)
Definition plain_char (c : N) : Prop := c ∉ [38; 61; 37; 43]%N.

Class Framework := {
  query_pairs : pystr → list (pystr * pystr);
  query_pairs_plain : ∀ k v, k ≠ [] → Forall plain_char k → Forall plain_char v →
    query_pairs (k ++ 61%N :: v) = [(k, v)];
  header_get : list (pystr * pystr) → pystr → option pystr;
  cookie_get : list (pystr * pystr) → pystr → option pystr;
  url_scheme : option pystr → pystr;
}.

(** A framework for evaluation: one query pair, the first header of that name, a
    [Cookie] header that holds one pair. *)
Definition one_pair (qs : pystr) : list (pystr * pystr) :=
  let '(k, v) := partition_on 61 qs in [(k, default [] v)].

Lemma one_pair_plain k v : k ≠ [] → Forall plain_char k → Forall plain_char v →
  one_pair (k ++ 61%N :: v) = [(k, v)].
Proof.
  intros _ Hk _. unfold one_pair. rewrite partition_on_found; [done|]. intros Hin.
  rewrite Forall_forall in Hk. apply Hk in Hin. by apply Hin, (bool_decide_unpack _).
Qed.

Definition small_framework : Framework :=
  {| query_pairs := one_pair; query_pairs_plain := one_pair_plain;
     header_get headers name := dget name headers;
     cookie_get headers name :=
       match dget (§"cookie") headers with
       | Some text => let '(k, v) := partition_on 61 text in
                      if decide (k = name) then v else None
       | None => None
       end;
     url_scheme := default (§"http") |}.

Inductive zone := ZLocal | ZPublic | ZIdentity | ZToken.

#[export] Instance zone_eq_dec : EqDecision zone.
Proof. solve_decision. Defined.

(** What becomes of a request: handed to the application with the three keys
    [_admit] writes, or answered by the gate itself. *)
Inductive outcome :=
  | PassThrough
  | Admit (z : zone) (slot identity : option pystr)
  | TooMany
  | SignIn (target : pystr)
  | Reject.

Definition DEFAULT_LOGIN_PORTAL : pystr := §"frago_login_portal".
Definition COOKIE_NAME : pystr := §"frago_sid".
Definition _PUBLIC_METHODS : list pystr := [§"GET"; §"HEAD"].
Definition _ANON_POST : list (pystr * pystr) := [(§"POST", §"/api/auth/login")].
Definition _IDENTITY_ENDPOINTS : list (pystr * pystr) :=
  [(§"POST", §"/api/auth/login"); (§"POST", §"/api/auth/logout");
   (§"POST", §"/api/auth/password"); (§"GET", §"/api/auth/me"); (§"HEAD", §"/api/auth/me");
   (§"GET", §"/api/auth/pages"); (§"HEAD", §"/api/auth/pages")].

(** ** Paths *)

(** The longest prefix without [/], [?] and [#], and the rest. *)
Fixpoint span_name (s : pystr) : pystr * pystr :=
  match s with
  | [] => ([], [])
  | c :: s' =>
      if (c =? 47)%N || (c =? 63)%N || (c =? 35)%N then ([], s)
      else let '(a, b) := span_name s' in (c :: a, b)
  end.

(** [_APP_PATH.match(path)]: the groups [name] and [rest].  A dot does not match
    a newline, and [$] also matches before a final one. *)
Definition app_path (path : pystr) : option (pystr * option pystr) :=
  if starts_with (§"/app/") path then
    match span_name (drop 5 path) with
    | ([], _) => None
    | (name, []) => Some (name, None)
    | (name, (c :: _) as rest) =>
        if (c =? 47)%N then
          match partition_on 10 rest with
          | (_, None) => Some (name, Some rest)
          | (before, Some []) => Some (name, Some before)
          | _ => None
          end
        else None
    end
  else None.

Definition _path_is_safe (path : pystr) : bool :=
  let segments := split_on 47 path in
  negb (existsb (λ seg, bool_decide (seg = §".." ∨ seg = §".")) segments) &&
  negb (existsb (λ seg, bool_decide (seg ≠ []) && starts_with (§".") seg) segments).

Section gate.
Context `{Unicode, PyRepr, Clock, Crypto, UrlCoding, Framework}.
Implicit Types (w : world) (c : call) (m : machine) (sc : scope) (headers : dict pystr pystr).

Definition is_http sc : bool := bool_decide (s_type sc = §"http").
Definition method_of sc : pystr := str_upper (default [] (s_method sc)).
Definition path_of sc : pystr := default [] (s_path sc).

Definition login_portal m : option pystr :=
  let name := match environ m !! §"FRAGO_LOGIN_PORTAL" with
              | None => DEFAULT_LOGIN_PORTAL
              | Some raw => strip raw
              end in
  match name with [] => None | _ => Some name end.

Definition token_text (text : option pystr) : option pystr :=
  match text with
  | None => None
  | Some text => match strip text with [] => None | v => Some v end
  end.
Definition read_token w : option pystr := token_text (w_token w).

Definition _query_values sc (key : pystr) : list pystr :=
  omap (λ kv : pystr * pystr, if decide (kv.1 = key) then Some kv.2 else None)
       (query_pairs (s_query sc)).

Definition _presented_token sc headers : option pystr :=
  let direct :=
    match dget (§"x-frago-token") headers with
    | Some ((_ :: _) as v) => Some (strip v)
    | _ =>
        if decide (s_type sc = §"websocket") then
          head (omap (λ kv : pystr * pystr, if decide (kv.1 = §"token") then Some kv.2 else None)
                     (parse_qsl false (s_query sc)))
        else None
    end in
  match dget (§"authorization") headers with
  | Some ((_ :: _) as auth) =>
      let raw := strip auth in
      if starts_with (§"bearer ") (str_lower raw) then Some (strip (drop 7 raw)) else direct
  | _ => direct
  end.

(** [hmac.compare_digest] on two strings raises unless both are ASCII. *)
Definition compare_digest (a b : pystr) : res bool :=
  if is_ascii a && is_ascii b then Ok (bool_decide (a = b)) else Raise TypeError.

Definition _token_ok w (presented : option pystr) : res bool :=
  match presented with
  | None | Some [] => Ok false
  | Some p =>
      match read_token w with
      | None => Ok false
      | Some expected => compare_digest p expected
      end
  end.

(** [_cookie]: the first pair of that name. *)
Fixpoint find_cookie (name : pystr) (parts : list pystr) : option pystr :=
  match parts with
  | [] => None
  | part :: parts =>
      let '(key, value) := partition_on 61 part in
      if decide (strip key = name) then Some (strip (default [] value)) else find_cookie name parts
  end.
Definition _cookie headers (name : pystr) : option pystr :=
  match dget (§"cookie") headers with
  | Some ((_ :: _) as raw) => find_cookie name (split_on 59 raw)
  | _ => None
  end.

(** A session that cannot be resolved is no session, whatever the exception. *)
Definition _resolve_identity c headers : M world (option pystr) :=
  match _cookie headers COOKIE_NAME with
  | None | Some [] => mret None
  | Some token =>
      try_except (λ _, true)
        (s ← resolve_session c (Some token); mret (ls_identity <$> s))
        (λ _, mret None)
  end.

Definition classify_public sc : M world (option pystr) :=
  if negb (is_http sc) then mret None
  else if negb (bool_decide (method_of sc ∈ _PUBLIC_METHODS)) then mret None
  else match app_path (path_of sc) with
  | None => mret None
  | Some (name, _) =>
      if negb (_path_is_safe (path_of sc)) then mret None
      else
        entry ← on_pub (published_entry name);
        mret (match entry with
              | None => None
              | Some entry =>
                  if decide (text_at (§"mode") entry = MODE_PUBLIC) then
                    let slot := text_at (§"slot") entry in
                    match _query_values sc (§"key") with
                    | [] => Some slot
                    | [req] => if bool_decide (req ≠ []) && bool_decide (req ≠ slot) then None else Some slot
                    | _ => None
                    end
                  else None
              end)
  end.

(** [_judge_app_path]: [None] is [(False, None)], [Some slot] is [(True, slot)]. *)
Definition _judge_app_path sc (name : pystr) (identity : pystr) : M world (option (option pystr)) :=
  match _query_values sc (§"key") with
  | _ :: _ => mret None
  | [] =>
      entry ← on_pub (published_entry name);
      mret (match entry with
            | None => None
            | Some e =>
                if decide (text_at (§"mode") e = MODE_IDENTITY) then
                  if allows (Some e) (Some identity) then Some (Some identity) else None
                else None
            end)
  end.

Definition classify_identity sc (identity : pystr) : M world (option (option pystr)) :=
  if negb (is_http sc) then mret None
  else if negb (_path_is_safe (path_of sc)) then mret None
  else if decide ((method_of sc, path_of sc) ∈ _IDENTITY_ENDPOINTS) then mret (Some None)
  else if decide (method_of sc = §"POST") then
    match app_path (path_of sc) with
    | Some (name, rest) =>
        if decide (default [] rest = §"/run") then _judge_app_path sc name identity else mret None
    | None => mret None
    end
  else if negb (bool_decide (method_of sc ∈ _PUBLIC_METHODS)) then mret None
  else match app_path (path_of sc) with
       | None => mret None
       | Some (name, _) => _judge_app_path sc name identity
       end.

Definition _anon_post_allowed sc : bool :=
  is_http sc && _path_is_safe (path_of sc) &&
  bool_decide ((method_of sc, path_of sc) ∈ _ANON_POST).

Definition redirect_target (portal name : pystr) : pystr :=
  §"/app/" ++ portal ++ §"/?next=" ++ name.

Definition sign_in_redirect m sc headers : M world (option pystr) :=
  if negb (is_http sc) then mret None
  else if negb (bool_decide (method_of sc ∈ _PUBLIC_METHODS)) then mret None
  else if negb (contains (§"text/html") (str_lower (default [] (dget (§"accept") headers))))
  then mret None
  else if negb (_path_is_safe (path_of sc)) then mret None
  else match app_path (path_of sc), login_portal m with
  | Some (name, _), Some portal =>
      if decide (name = portal) then mret None
      else
        entry ← on_pub (published_entry name);
        match entry with
        | None => mret None
        | Some e =>
            if decide (text_at (§"mode") e = MODE_IDENTITY) then
              door ← on_pub (published_entry portal);
              mret (match door with
                    | Some d => if decide (text_at (§"mode") d = MODE_PUBLIC)
                                then Some (redirect_target portal name) else None
                    | None => None
                    end)
            else mret None
        end
  | _, _ => mret None
  end.

(** [AccessZoneMiddleware.__call__], with [_admit] folded into [Admit]. *)
Definition gate_tail c sc headers (identity : option pystr) : M world outcome :=
  if _anon_post_allowed sc then mret (Admit ZPublic None identity)
  else
    w ← get_st;
    ok ← lift_res (_token_ok w (_presented_token sc headers));
    if ok : bool then mret (Admit ZToken None identity)
    else
      target ← sign_in_redirect c sc headers;
      mret (match target with Some t => SignIn t | None => Reject end).

Definition gate c sc : M world outcome :=
  if decide (s_type sc ∉ [§"http"; §"websocket"]) then mret PassThrough
  else
    let headers := _headers sc in
    identity ← _resolve_identity c headers;
    if _peer_is_trusted c sc && negb (_is_proxied headers) then mret (Admit ZLocal None identity)
    else
      slot ← classify_public sc;
      match slot with
      | Some _ => mret (Admit ZPublic slot identity)
      | None =>
          match identity with
          | None => gate_tail c sc headers identity
          | Some who =>
              reachable ← classify_identity sc who;
              match reachable with
              | None => gate_tail c sc headers identity
              | Some slot =>
                  allowed ← (if is_http sc
                             then on_limits (λ l, let '(b, l) := allow_visitor_request (mono c) (Some who) l in (Ok b, l))
                             else mret true);
                  if negb allowed then mret TooMany else mret (Admit ZIdentity slot identity)
              end
          end
      end.

(** ** The decision as a function of the files *)

(** The account a cookie, and a request carrying it, speaks for. *)
Definition session_owner m w (token : pystr) : option pystr :=
  match _sid_of token with
  | Raise _ => None
  | Ok sid =>
      record ← _read_session w sid;
      match expires_of record with
      | Some (Aware t) =>
          if Z.ltb (wall m) t && bool_decide (account_live (_read_users_file w) (identity_of_record record))
          then Some (identity_of_record record) else None
      | _ => None
      end
  end.
Definition speaks_for m w headers : option pystr :=
  match _cookie headers COOKIE_NAME with
  | None | Some [] => None
  | Some token => session_owner m w token
  end.

(** The entry of a page in the list on disk. *)
Definition page w (name : pystr) : option jdict := entry_spec (w_pub w) name.

Definition public_slot_spec w sc : option pystr :=
  if is_http sc && bool_decide (method_of sc ∈ _PUBLIC_METHODS) && _path_is_safe (path_of sc) then
    '(name, _) ← app_path (path_of sc);
    e ← page w name;
    if decide (text_at (§"mode") e = MODE_PUBLIC) then
      let slot := text_at (§"slot") e in
      match _query_values sc (§"key") with
      | [] => Some slot
      | [req] => if decide (req = [] ∨ req = slot) then Some slot else None
      | _ => None
      end
    else None
  else None.

(** A page in identity mode that admits this account. *)
Definition open_to w (name who : pystr) : bool :=
  match page w name with
  | Some e => bool_decide (text_at (§"mode") e = MODE_IDENTITY) && allows (Some e) (Some who)
  | None => false
  end.

Definition identity_spec w sc (who : pystr) : option (option pystr) :=
  if is_http sc && _path_is_safe (path_of sc) then
    if decide ((method_of sc, path_of sc) ∈ _IDENTITY_ENDPOINTS) then Some None
    else
      '(name, rest) ← app_path (path_of sc);
      if (bool_decide (method_of sc ∈ _PUBLIC_METHODS) ||
          bool_decide (method_of sc = §"POST") && bool_decide (default [] rest = §"/run"))
         && bool_decide (_query_values sc (§"key") = []) && open_to w name who
      then Some (Some who) else None
  else None.

Definition redirect_spec m w sc headers : option pystr :=
  if is_http sc && bool_decide (method_of sc ∈ _PUBLIC_METHODS)
     && contains (§"text/html") (str_lower (default [] (dget (§"accept") headers)))
     && _path_is_safe (path_of sc) then
    '(name, _) ← app_path (path_of sc);
    portal ← login_portal m;
    e ← page w name;
    d ← page w portal;
    if decide (name ≠ portal ∧ text_at (§"mode") e = MODE_IDENTITY ∧ text_at (§"mode") d = MODE_PUBLIC)
    then Some (redirect_target portal name) else None
  else None.

(** The last two ways in, and the two ways out. *)
Definition last_spec c w sc (who : option pystr) : res outcome :=
  if _anon_post_allowed sc then Ok (Admit ZPublic None who)
  else
    ok ← _token_ok w (_presented_token sc (_headers sc));
    Ok (if ok : bool then Admit ZToken None who
        else match redirect_spec c w sc (_headers sc) with Some t => SignIn t | None => Reject end).

Definition gate_spec c w sc : res outcome :=
  if decide (s_type sc ∉ [§"http"; §"websocket"]) then Ok PassThrough
  else
    let who := speaks_for c w (_headers sc) in
    if _peer_is_trusted c sc && negb (_is_proxied (_headers sc)) then Ok (Admit ZLocal None who)
    else match public_slot_spec w sc with
    | Some slot => Ok (Admit ZPublic (Some slot) who)
    | None =>
        match who with
        | None => last_spec c w sc who
        | Some id =>
            match identity_spec w sc id with
            | None => last_spec c w sc who
            | Some slot =>
                if (allow_visitor_request (mono c) (Some id) (w_limits w)).1
                then Ok (Admit ZIdentity slot who) else Ok TooMany
            end
        end
    end.

(** ** Refinement *)

(** The state the gate relies on. *)
Definition gate_ok w : Prop := cache_ok w ∧ sess_wf (w_sessions w) ∧ coherent (w_pub w).

(** What no gate decision changes: every file but the sessions'. *)
Definition same_files w w' : Prop :=
  w_users w' = w_users w ∧ w_token w' = w_token w ∧ p_file (w_pub w') = p_file (w_pub w) ∧
  w_disk w' = w_disk w ∧ w_dirs w' = w_dirs w.

Lemma page_set_pub w p name : p_file p = p_file (w_pub w) → page (set_pub w p) name = page w name.
Proof. intros Hp. unfold page, entry_spec, entries_of. simpl. by rewrite Hp. Qed.

(** A lookup of the list: the answer on disk, and only the list's cache moves. *)
Lemma consult w name : coherent (w_pub w) →
  ∃ p, on_pub (published_entry name) w = (Ok (page w name), set_pub w p) ∧
    p_file p = p_file (w_pub w) ∧ coherent p.
Proof.
  intros Hc. destruct (published_entry_run (w_pub w) name Hc) as (p & Hp & Hf & Hc').
  exists p. unfold on_pub. by rewrite Hp.
Qed.

Lemma set_pub_id w : set_pub w (w_pub w) = w.
Proof. by destruct w. Qed.

(** A step of the gate that only consults the list. *)
Definition consults {A} (f : M world A) (spec : world → A) : Prop :=
  ∀ w, coherent (w_pub w) →
    ∃ p, f w = (Ok (spec w), set_pub w p) ∧ p_file p = p_file (w_pub w) ∧ coherent p.

Lemma consults_ret {A} (a : A) : consults (mret a) (λ _, a).
Proof. intros w Hc. exists (w_pub w). split; [by rewrite set_pub_id|done]. Qed.

Lemma classify_public_consults sc : consults (classify_public sc) (λ w, public_slot_spec w sc).
Proof.
  intros w Hc. unfold classify_public, public_slot_spec.
  destruct (is_http sc); cbn [negb andb]; [|by apply (consults_ret None)].
  destruct (bool_decide _); cbn [negb andb]; [|by apply (consults_ret None)].
  destruct (app_path (path_of sc)) as [[name rest]|].
  2: { case_match; by apply (consults_ret None). }
  destruct (_path_is_safe _); cbn [negb]; [|by apply (consults_ret None)].
  munfold. destruct (consult w name Hc) as (p & -> & Hf & Hc'). exists p. split; [|done].
  do 2 f_equal. cbn. destruct (page w name) as [e|]; [|done]. cbn. case_decide; [|done].
  destruct (_query_values _ _) as [|req [|? ?]]; [done| |done].
  destruct (decide (req = [])) as [->|Hr]; [by rewrite decide_True by auto|].
  rewrite bool_decide_eq_true_2 by done. destruct (decide (req = text_at (§"slot") e)) as [Hs|Hs].
  - rewrite bool_decide_eq_false_2 by tauto. by rewrite decide_True by auto.
  - rewrite bool_decide_eq_true_2 by done. by rewrite decide_False by tauto.
Qed.

Lemma judge_consults sc name who :
  consults (_judge_app_path sc name who)
    (λ w, if bool_decide (_query_values sc (§"key") = []) && open_to w name who
          then Some (Some who) else None).
Proof.
  intros w Hc. unfold _judge_app_path, open_to.
  destruct (_query_values _ _) as [|? ?].
  2: { rewrite bool_decide_eq_false_2 by done. by apply (consults_ret None). }
  rewrite bool_decide_eq_true_2 by done. cbn [andb]. munfold.
  destruct (consult w name Hc) as (p & -> & Hf & Hc'). exists p. split; [|done].
  do 2 f_equal. destruct (page w name) as [e|]; [|done].
  case_decide; [rewrite bool_decide_eq_true_2 by done|rewrite bool_decide_eq_false_2 by done]; done.
Qed.

Lemma classify_identity_consults sc who :
  consults (classify_identity sc who) (λ w, identity_spec w sc who).
Proof.
  intros w Hc. unfold classify_identity, identity_spec.
  destruct (is_http sc); cbn [negb andb]; [|by apply (consults_ret None)].
  destruct (_path_is_safe _); cbn [negb]; [|by apply (consults_ret None)].
  case_decide as He; [by apply (consults_ret (Some None))|].
  assert (Hpost : method_of sc = §"POST" → method_of sc ∉ _PUBLIC_METHODS).
  { intros ->. assert (E : bool_decide (§"POST" ∉ _PUBLIC_METHODS) = true) by reflexivity.
    by apply bool_decide_eq_true_1 in E. }
  destruct (app_path (path_of sc)) as [[name rest]|].
  2: { repeat case_match; by apply (consults_ret None). }
  cbn. case_decide as Hm.
  - rewrite (bool_decide_eq_false_2 _ (Hpost Hm)), (bool_decide_eq_true_2 _ Hm). cbn [orb andb].
    case_decide; [rewrite bool_decide_eq_true_2 by done|rewrite bool_decide_eq_false_2 by done].
    + by apply judge_consults.
    + by apply (consults_ret None).
  - rewrite (bool_decide_eq_false_2 _ Hm). cbn [andb]. rewrite orb_false_r.
    destruct (bool_decide (method_of sc ∈ _)); cbn [negb andb];
      [by apply judge_consults|by apply (consults_ret None)].
Qed.

Lemma redirect_consults m sc headers :
  consults (sign_in_redirect m sc headers) (λ w, redirect_spec m w sc headers).
Proof.
  intros w Hc. unfold sign_in_redirect, redirect_spec.
  destruct (is_http sc); cbn [negb andb]; [|by apply (consults_ret None)].
  destruct (bool_decide _); cbn [negb andb]; [|by apply (consults_ret None)].
  destruct (contains _ _); cbn [negb andb]; [|by apply (consults_ret None)].
  destruct (_path_is_safe _); cbn [negb andb]; [|by apply (consults_ret None)].
  destruct (app_path (path_of sc)) as [[name rest]|]; [|by apply (consults_ret None)].
  destruct (login_portal m) as [portal|]; [|by apply (consults_ret None)]. cbn.
  case_decide as Hn.
  { destruct (page w name); cbn; [|by apply (consults_ret None)].
    destruct (page w portal); cbn; [|by apply (consults_ret None)].
    rewrite decide_False by tauto. by apply (consults_ret None). }
  munfold. destruct (consult w name Hc) as (p & -> & Hf & Hc').
  destruct (page w name) as [e|]; cbn; [|by exists p].
  case_decide as He.
  2: { exists p. split; [|done]. do 2 f_equal. destruct (page w portal); [|done]. cbn.
       by rewrite decide_False by tauto. }
  destruct (consult (set_pub w p) portal Hc') as (p' & -> & Hf' & Hc'').
  exists p'. rewrite (page_set_pub w p portal Hf). simpl in Hf'.
  split; [|split; [congruence|done]]. do 2 f_equal.
  destruct (page w portal) as [d|]; [|done]. cbn.
  case_decide; [by rewrite decide_True by tauto|by rewrite decide_False by tauto].
Qed.

(** The cookie check answers [speaks_for]. *)
Lemma resolve_identity_run c headers w : cache_ok w → sess_wf (w_sessions w) →
  ∃ cache d, _resolve_identity c headers w =
      (Ok (speaks_for c w headers), set_sessions (set_users w (w_users w) cache) d) ∧
    cache_ok (set_users w (w_users w) cache) ∧ sess_wf d.
Proof.
  intros Hc Hwf. unfold _resolve_identity, speaks_for.
  assert (Hnone : ∃ cache d, (Ok (None : option pystr), w)
      = (Ok None, set_sessions (set_users w (w_users w) cache) d) ∧
    cache_ok (set_users w (w_users w) cache) ∧ sess_wf d).
  { exists (w_cache w), (w_sessions w). split; [by destruct w|]. by destruct w. }
  destruct (_cookie headers COOKIE_NAME) as [[|x token]|]; [exact Hnone| |exact Hnone].
  set (tok := x :: token) in *.
  destruct (resolve_frame c (Some tok) w Hc Hwf) as (r & cache & d & Hr & Hc' & Hd).
  exists cache, d. split; [|done]. unfold try_except. munfold. rewrite Hr.
  assert (Hspec : (match r with Ok s => ls_identity <$> s | Raise _ => None end) = session_owner c w tok);
    [|by rewrite <- Hspec; destruct r].
  unfold session_owner.
  destruct (_sid_of tok) as [sid|] eqn:Es.
  2: { unfold resolve_session in Hr. unfold tok in *. revert Hr. munfold. rewrite Es. by intros [= <- _]. }
  destruct (_read_session w sid) as [record|] eqn:Er; cbn.
  2: { destruct r as [[s|]|]; [|done..]. exfalso.
       destruct (resolve_some _ _ _ _ _ Hc Hr) as (sid' & r' & Hs' & _ & Hh & _). congruence. }
  assert (Hno : ¬ honoured c w sid record →
    match r with Ok s => ls_identity <$> s | Raise _ => None end = None).
  { intros Hn. destruct r as [[s|]|]; [|done..]. exfalso.
    destruct (resolve_some _ _ _ _ _ Hc Hr) as (sid' & r' & Hs' & _ & Hh).
    assert (sid' = sid) as -> by congruence. apply Hn. by replace record with r' by (destruct Hh; congruence). }
  destruct (expires_of record) as [[t|t]|] eqn:Ee.
  2,3: apply Hno; intros (_ & (t' & Ht' & _) & _); congruence.
  destruct (wall c <? t)%Z eqn:Et; cbn [andb].
  2: { apply Hno. intros (_ & (t' & Ht' & Hlt) & _). rewrite Ee in Ht'. injection Ht' as <-. lia. }
  case_bool_decide as Hl; [|apply Hno; by intros (_ & _ & ?)].
  destruct (resolve_live c tok sid record w Hc Hwf) as (w' & Hr' & _); [done|done| |].
  { split_and!; [done| |done]. exists t. split; [done|lia]. }
  rewrite Hr' in Hr. by injection Hr as <- _.
Qed.

(** The state after the cookie check and some lookups of the list. *)
Definition advanced w cache d p : world :=
  set_pub (set_sessions (set_users w (w_users w) cache) d) p.

Lemma advanced_same w cache d p : p_file p = p_file (w_pub w) →
  same_files w (advanced w cache d p).
Proof. intros Hp. by repeat split. Qed.

Lemma page_advanced w cache d p name : p_file p = p_file (w_pub w) →
  page (advanced w cache d p) name = page w name.
Proof. intros Hp. unfold page, entry_spec, entries_of. simpl. by rewrite Hp. Qed.

(** The three list-dependent decisions read nothing but the list's file. *)
Lemma specs_advanced m w cache d p sc headers who : p_file p = p_file (w_pub w) →
  let w' := advanced w cache d p in
  public_slot_spec w' sc = public_slot_spec w sc ∧
  identity_spec w' sc who = identity_spec w sc who ∧
  redirect_spec m w' sc headers = redirect_spec m w sc headers.
Proof.
  intros Hp w'. assert (Hpage : ∀ name, page w' name = page w name)
    by (intros; by apply page_advanced).
  unfold public_slot_spec, identity_spec, redirect_spec, open_to. split_and!.
  - case_match; [|done]. destruct (app_path _) as [[name rest]|]; [|done]. cbn. by rewrite Hpage.
  - case_match; [|done]. case_decide; [done|]. destruct (app_path _) as [[name rest]|]; [|done].
    cbn. by rewrite Hpage.
  - case_match; [|done]. destruct (app_path _) as [[name rest]|]; [|done]. cbn.
    destruct (login_portal m); [|done]. cbn. by rewrite !Hpage.
Qed.

(** A step that only consults the list, run from an advanced state. *)
Lemma consults_advanced {A} (f : M world A) spec w cache d p : consults f spec →
  coherent p → p_file p = p_file (w_pub w) →
  ∃ p', f (advanced w cache d p) = (Ok (spec (advanced w cache d p)), advanced w cache d p') ∧
    p_file p' = p_file (w_pub w) ∧ coherent p'.
Proof.
  intros Hf Hc Hp. destruct (Hf (advanced w cache d p) Hc) as (p' & Hr & Hp' & Hc').
  exists p'. split_and!; [exact Hr|by etrans; [exact Hp'|exact Hp]|done].
Qed.

Lemma gate_tail_run c sc w cache d p who : coherent p → p_file p = p_file (w_pub w) →
  ∃ p', gate_tail c sc (_headers sc) who (advanced w cache d p) =
      (last_spec c w sc who, advanced w cache d p') ∧
    p_file p' = p_file (w_pub w) ∧ coherent p'.
Proof.
  intros Hc Hp. unfold gate_tail, last_spec. destruct (_anon_post_allowed sc); [by exists p|].
  unfold mbind at 1 2, M_bind, get_st, lift_res. cbn beta iota.
  change (_token_ok (advanced w cache d p)) with (_token_ok w).
  destruct (_token_ok w _) as [[]|]; cbn [mbind res_bind]; [by exists p| |by exists p].
  munfold. destruct (consults_advanced _ _ w cache d p (redirect_consults c sc (_headers sc)) Hc Hp)
    as (p' & -> & Hp' & Hc').
  exists p'. split; [|done]. f_equal.
  destruct (specs_advanced c w cache d p sc (_headers sc) [] Hp) as (_ & _ & ->). done.
Qed.

(** The middleware's answer is the specification's; no file but the sessions'
    changes, and the state stays one in which that holds. *)
Lemma gate_run c sc w : gate_ok w →
  ∃ w', gate c sc w = (gate_spec c w sc, w') ∧ same_files w w' ∧ gate_ok w'.
Proof.
  intros (Hc & Hs & Hp). unfold gate, gate_spec.
  case_decide; [by exists w|]. cbv zeta. unfold mbind at 1, M_bind at 1.
  destruct (resolve_identity_run c (_headers sc) w Hc Hs) as (cache & d & -> & Hc' & Hd).
  set (who := speaks_for c w (_headers sc)).
  change (set_sessions (set_users w (w_users w) cache) d) with (advanced w cache d (w_pub w)).
  assert (Hdone : ∀ r p, p_file p = p_file (w_pub w) → coherent p →
    ∃ w', (r : res outcome, advanced w cache d p) = (r, w') ∧ same_files w w' ∧ gate_ok w').
  { intros r p Hf Hco. eexists. split; [done|]. split; [by apply advanced_same|].
    split_and!; [exact Hc'|exact Hd|exact Hco]. }
  destruct (_peer_is_trusted c sc && negb (_is_proxied (_headers sc))); [by apply Hdone|].
  unfold mbind at 1, M_bind at 1.
  destruct (consults_advanced _ _ w cache d (w_pub w) (classify_public_consults sc) Hp eq_refl)
    as (p1 & -> & Hf1 & Hc1).
  destruct (specs_advanced c w cache d (w_pub w) sc (_headers sc) [] eq_refl) as (-> & _ & _).
  destruct (public_slot_spec w sc) as [slot|]; [by apply Hdone|].
  destruct (gate_tail_run c sc w cache d p1 who Hc1 Hf1) as (pt & Htail & Hft & Hct).
  destruct who as [id|]; [|rewrite Htail; by apply Hdone].
  unfold mbind at 1, M_bind at 1.
  destruct (consults_advanced _ _ w cache d p1 (classify_identity_consults sc id) Hc1 Hf1)
    as (p2 & -> & Hf2 & Hc2).
  destruct (specs_advanced c w cache d p1 sc (_headers sc) id Hf1) as (_ & -> & _).
  destruct (gate_tail_run c sc w cache d p2 (Some id) Hc2 Hf2) as (p3 & Htail2 & Hf3 & Hc3).
  destruct (identity_spec w sc id) as [slot|] eqn:Ei; [|rewrite Htail2; by apply Hdone].
  assert (Hhttp : is_http sc = true) by (revert Ei; unfold identity_spec; by destruct (is_http sc)).
  rewrite Hhttp. unfold mbind, M_bind, on_limits. simpl w_limits.
  destruct (allow_visitor_request (mono c) (Some id) (w_limits w)) as [[] l]; cbn [fst negb];
    (eexists; split; [reflexivity|]; split; [by repeat split|]; split_and!; done).
Qed.

(** ** The server over time

    Between two requests other processes and the routes replace files; a
    replaced list or table carries a stamp the cache has not seen, and sessions
    carry aware stamps. *)
Inductive server_step : world → world → Prop :=
  | step_request w c sc r w' : gate c sc w = (r, w') → server_step w w'
  | step_pub w p : pub_step (w_pub w) p → server_step w (set_pub w p)
  | step_users w doc stamp :
      (∀ st t, w_cache w = Some (st, t) → st ≠ stamp) →
      server_step w (set_users w (Some {| uf_doc := doc; uf_stamp := stamp |}) (w_cache w))
  | step_sessions w d : sess_wf d → server_step w (set_sessions w d)
  | step_limits w l : server_step w (set_limits w l)
  | step_token w t : server_step w
      {| w_users := w_users w; w_cache := w_cache w; w_sessions := w_sessions w;
         w_limits := w_limits w; w_pub := w_pub w; w_disk := w_disk w; w_dirs := w_dirs w;
         w_token := t |}.

(** A server that has just started: nothing cached yet. *)
Definition just_started w : Prop :=
  w_cache w = None ∧ p_cache (w_pub w) = None ∧ sess_wf (w_sessions w).

Lemma just_started_ok w : just_started w → gate_ok w.
Proof.
  intros (Hc & Hp & Hs). split_and!; [|done|].
  - unfold cache_ok. rewrite Hc. by destruct (w_users w).
  - unfold coherent. by rewrite Hp.
Qed.

Lemma server_step_ok w w' : gate_ok w → server_step w w' → gate_ok w'.
Proof.
  intros Hok Hst. destruct Hst as [w c sc r w' Hg|w p Hp|w doc stamp Hst|w d Hd|w l|w t].
  - destruct (gate_run c sc w Hok) as (w1 & Hg1 & _ & Hok1). rewrite Hg1 in Hg. by injection Hg as _ <-.
  - destruct Hok as (? & ? & ?). split_and!; [done..|]. by eapply pub_step_coherent.
  - destruct Hok as (? & ? & ?). split_and!; [|done..]. unfold cache_ok. simpl.
    destruct (w_cache w) as [[st t]|]; [|done]. intros ->. by destruct (Hst _ _ eq_refl).
  - by destruct Hok as (? & _ & ?).
  - done.
  - done.
Qed.

Lemma reachable_ok w0 w : just_started w0 → rtc server_step w0 w → gate_ok w.
Proof.
  intros H0' Hr. apply just_started_ok in H0'. induction Hr; eauto using server_step_ok.
Qed.

(** C1. The gate implements its specification.  In every state the server can
    reach from a start, whatever was cached on the way and however the files
    changed in between, the middleware's answer to a request is [gate_spec]: a
    function of the request, the environment and what the token file, the page
    list, the session directory and the account table hold at that moment.  The
    check itself changes no file but the sessions'. *)
Theorem gate_refines_spec c sc w0 w : just_started w0 → rtc server_step w0 w →
  ∃ w', gate c sc w = (gate_spec c w sc, w') ∧ same_files w w'.
Proof.
  intros H0' Hr. destruct (gate_run c sc w) as (w' & ? & ? & _); [by eapply reachable_ok|]. eauto.
Qed.

(** ** What each zone means *)

(** The raw entry behind a page. *)
Lemma page_entry w name e : page w name = Some e →
  ∃ raw, valid_name name = true ∧ dget name (entries_of (w_pub w)) = Some raw ∧ e = normalise raw.
Proof.
  unfold page, entry_spec. destruct (valid_name name); [|done].
  destruct (dget name _) as [[|kv raw]|]; [done| |done]. intros [= <-]. eauto.
Qed.

(** A page the list exposes to anonymous readers, with the slot it opens. *)
Definition public_page w (name slot : pystr) : Prop :=
  ∃ raw, dget name (entries_of (w_pub w)) = Some raw ∧ _mode_of raw = MODE_PUBLIC ∧ slot = slot_of raw.

(** A page the list opens to this account: identity mode, and [allow] absent,
    null, or a list naming the account. *)
Definition identity_page w (name who : pystr) : Prop :=
  ∃ raw, dget name (entries_of (w_pub w)) = Some raw ∧ _mode_of raw = MODE_IDENTITY ∧
    allows (Some raw) (Some who) = true.

Lemma public_slot_sound w sc slot : public_slot_spec w sc = Some slot →
  ∃ name rest, app_path (path_of sc) = Some (name, rest) ∧ public_page w name slot ∧
    is_http sc = true ∧ method_of sc ∈ _PUBLIC_METHODS ∧ _path_is_safe (path_of sc) = true ∧
    (_query_values sc (§"key") = [] ∨
     ∃ req, _query_values sc (§"key") = [req] ∧ (req = [] ∨ req = slot)).
Proof.
  unfold public_slot_spec. case_match eqn:Eg; [|done]. bools.
  destruct (app_path (path_of sc)) as [[name rest]|]; [|done]. cbn.
  destruct (page w name) as [e|] eqn:Ep; [|done]. cbn.
  apply page_entry in Ep as (raw & _ & Hraw & ->).
  rewrite text_mode_normalise, text_slot_normalise. case_decide as Hm; [|done].
  assert (Hpp : public_page w name (slot_of raw)) by (by exists raw).
  destruct (_query_values _ _) as [|req [|? ?]]; [| |done].
  - intros [= <-]. exists name, rest. split_and!; auto.
  - case_decide as Hr; [|done]. intros [= <-]. exists name, rest. split_and!; eauto.
Qed.

Lemma open_to_sound w name who : open_to w name who = true → identity_page w name who.
Proof.
  unfold open_to. destruct (page w name) as [e|] eqn:Ep; [|done]. intros Ho. bools.
  apply page_entry in Ep as (raw & _ & Hraw & ->).
  rewrite allows_normalise_agree in *. by exists raw.
Qed.

Lemma identity_sound w sc who slot : identity_spec w sc who = Some slot →
  _path_is_safe (path_of sc) = true ∧
  ((slot = None ∧ (method_of sc, path_of sc) ∈ _IDENTITY_ENDPOINTS) ∨
   (slot = Some who ∧ _query_values sc (§"key") = [] ∧
    ∃ name rest, app_path (path_of sc) = Some (name, rest) ∧ identity_page w name who ∧
      (method_of sc ∈ _PUBLIC_METHODS ∨ (method_of sc = §"POST" ∧ rest = Some (§"/run"))))).
Proof.
  unfold identity_spec. case_match eqn:Eg; [|done]. bools. split; [done|].
  case_decide; [left; split; [congruence|done]|].
  destruct (app_path (path_of sc)) as [[name rest]|]; [|done]. cbn in *.
  case_match eqn:Ec; [|done]. bools. right. split; [congruence|]. split; [done|].
  exists name, rest. split_and!; [done|by apply open_to_sound|].
  match goal with Ho : _ || _ = true |- _ => apply orb_true_iff in Ho as [Ho|Ho]; bools end; [by left|].
  right. split; [done|]. by destruct rest; simplify_eq/=.
Qed.

Lemma token_sound w presented : _token_ok w presented = Ok true →
  ∃ t, presented = Some t ∧ t ≠ [] ∧ read_token w = Some t.
Proof.
  unfold _token_ok. destruct presented as [[|x p]|]; [done| |done].
  destruct (read_token w) as [e|]; [|done]. unfold compare_digest. case_match; [|done].
  intros [= Hb]. bools. subst. eauto.
Qed.

Lemma last_spec_admit c w sc who z slot who' : last_spec c w sc who = Ok (Admit z slot who') →
  who' = who ∧ slot = None ∧
  (z = ZPublic ∧ _anon_post_allowed sc = true ∨
   z = ZToken ∧ _token_ok w (_presented_token sc (_headers sc)) = Ok true).
Proof.
  unfold last_spec. destruct (_anon_post_allowed sc); [intros [= <- <- <-]; auto|].
  destruct (_token_ok _ _) as [[]|]; cbn [mbind res_bind]; [intros [= <- <- <-]; auto 6| |done].
  by destruct (redirect_spec _ _ _ _).
Qed.

Lemma gate_spec_admit c w sc z slot who : gate_spec c w sc = Ok (Admit z slot who) →
  who = speaks_for c w (_headers sc) ∧
  match z with
  | ZLocal => slot = None ∧ _peer_is_trusted c sc && negb (_is_proxied (_headers sc)) = true
  | ZPublic => is_Some slot ∧ public_slot_spec w sc = slot ∨ slot = None ∧ _anon_post_allowed sc = true
  | ZIdentity => ∃ id, who = Some id ∧ identity_spec w sc id = Some slot
  | ZToken => slot = None ∧ _token_ok w (_presented_token sc (_headers sc)) = Ok true
  end.
Proof.
  unfold gate_spec. case_decide; [done|]. cbv zeta.
  destruct (_peer_is_trusted _ _ && _) eqn:El; [intros [= <- <- <-]; auto|].
  destruct (public_slot_spec w sc) as [sl|] eqn:Ep; [intros [= <- <- <-]; eauto|].
  destruct (speaks_for c w (_headers sc)) as [id|] eqn:Ew.
  2: { intros (-> & -> & [[-> ?]|[-> ?]])%last_spec_admit; auto. }
  destruct (identity_spec w sc id) as [sl|] eqn:Ei.
  2: { intros (-> & -> & [[-> ?]|[-> ?]])%last_spec_admit; auto. }
  destruct (allow_visitor_request _ _ _).1; [intros [= <- <- <-]|done]. eauto.
Qed.

(** C2. What the gate lets through, zone by zone.  Whenever a request is handed
    to the application: in the local zone its peer is trusted and it carries
    none of the forwarding headers; in the public zone it reads, by a safe
    path, a page the list exposes in public mode, with exactly the slot the list
    names (and any [?key=] it sent is empty or that slot), or it is the POST to
    the login endpoint; in the identity zone it speaks for an account with a
    session in force and goes to a listed endpoint with no slot, or to a page
    the list opens to that very account, with the account's own id as the slot
    and no [?key=]; in the token zone it presented the token on disk. *)
Theorem gate_admits_only c sc w z slot who w' :
  gate_ok w → gate c sc w = (Ok (Admit z slot who), w') →
  who = speaks_for c w (_headers sc) ∧
  match z with
  | ZLocal => slot = None ∧ _peer_is_trusted c sc = true ∧
      ∀ h, h ∈ _FORWARDING_HEADERS → ¬ carries sc h
  | ZPublic =>
      (∃ name rest sl, slot = Some sl ∧ app_path (path_of sc) = Some (name, rest) ∧
         public_page w name sl ∧ method_of sc ∈ _PUBLIC_METHODS ∧ _path_is_safe (path_of sc) = true ∧
         Forall (λ req, req = [] ∨ req = sl) (_query_values sc (§"key")))
      ∨ slot = None ∧ method_of sc = §"POST" ∧ path_of sc = §"/api/auth/login"
  | ZIdentity => ∃ id, who = Some id ∧ _path_is_safe (path_of sc) = true ∧
      ((slot = None ∧ (method_of sc, path_of sc) ∈ _IDENTITY_ENDPOINTS) ∨
       (slot = Some id ∧ _query_values sc (§"key") = [] ∧
        ∃ name rest, app_path (path_of sc) = Some (name, rest) ∧ identity_page w name id ∧
          (method_of sc ∈ _PUBLIC_METHODS ∨ (method_of sc = §"POST" ∧ rest = Some (§"/run")))))
  | ZToken => slot = None ∧ ∃ t, _presented_token sc (_headers sc) = Some t ∧ t ≠ [] ∧
      read_token w = Some t
  end.
Proof.
  intros Hok Hg. destruct (gate_run c sc w Hok) as (w1 & Hg1 & _). rewrite Hg1 in Hg.
  injection Hg as Hg _. apply gate_spec_admit in Hg as (Hwho & Hz). split; [done|].
  destruct z.
  - destruct Hz as [-> Hl]. bools. split_and!; [done..|]. intros h Hh Hc.
    assert (_is_proxied (_headers sc) = true) by (apply is_proxied_iff; eauto). congruence.
  - destruct Hz as [[[sl ->] Hp]|[-> Ha]].
    + left. apply public_slot_sound in Hp as (name & rest & Hap & Hpp & _ & Hm & Hs & Hq).
      exists name, rest, sl. split_and!; [done..|].
      destruct Hq as [->|(req & -> & ?)]; [by apply Forall_nil_2|by apply Forall_singleton].
    + right. unfold _anon_post_allowed in Ha. bools. split; [done|].
      unfold _ANON_POST in *. match goal with Hin : _ ∈ [_] |- _ =>
        apply list_elem_of_singleton in Hin; by injection Hin end.
  - destruct Hz as (id & -> & Hi). exists id. split; [done|].
    by apply identity_sound in Hi as [? ?].
  - destruct Hz as (-> & Ht). split; [done|]. by apply token_sound.
Qed.

(** The owner's seat is decided by the socket alone.  A request is taken for
    the owner's own machine if and only if its peer is trusted and no
    forwarding header is present; with [FRAGO_BEHIND_PROXY] on nothing is. *)
Theorem gate_local_iff c sc w : gate_ok w → s_type sc ∈ [§"http"; §"websocket"] →
  ((∃ slot who w', gate c sc w = (Ok (Admit ZLocal slot who), w')) ↔
   _peer_is_trusted c sc = true ∧ ∀ h, h ∈ _FORWARDING_HEADERS → ¬ carries sc h) ∧
  (peer_trust_disabled c = true →
   ∀ slot who w', gate c sc w ≠ (Ok (Admit ZLocal slot who), w')).
Proof.
  intros Hok Hty. destruct (gate_run c sc w Hok) as (w1 & Hg & _).
  assert (Hno : _is_proxied (_headers sc) = false ↔ ∀ h, h ∈ _FORWARDING_HEADERS → ¬ carries sc h).
  { pose proof (is_proxied_iff sc) as Hp. destruct (_is_proxied (_headers sc)).
    - destruct Hp as [(h & Hin & Hc) _]; [done|]. split; [done|]. intros Hall. by destruct (Hall h Hin).
    - split; [|done]. intros _ h Hin Hc. assert (false = true) by (apply Hp; eauto). done. }
  assert (Hloc : ∀ slot who w', gate c sc w = (Ok (Admit ZLocal slot who), w') →
    _peer_is_trusted c sc && negb (_is_proxied (_headers sc)) = true).
  { intros slot who w' Hg'. rewrite Hg in Hg'. injection Hg' as Hg' _.
    by apply gate_spec_admit in Hg' as (_ & _ & ?). }
  split; [split|].
  - intros (slot & who & w' & Hg'%Hloc). bools. split; [done|]. by apply Hno.
  - intros [Hp Hh]. apply Hno in Hh. eexists None, _, w1. rewrite Hg. f_equal.
    unfold gate_spec. rewrite decide_False by tauto. cbv zeta. by rewrite Hp, Hh.
  - intros Hd slot who w' Hg'%Hloc. bools. unfold _peer_is_trusted in *. by rewrite Hd in *.
Qed.

(** ** The way to the sign-in page *)

Lemma valid_name_chars name ch : valid_name name = true → ch ∈ name →
  safe_char ch = true ∨ ch = 10%N.
Proof.
  intros (_ & _ & _ & v & _ & Hall & Hs)%valid_name_spec Hin. rewrite Forall_forall in Hall.
  destruct Hs as [->| ->]; [auto|]. apply elem_of_app in Hin as [?|Hin]; [auto|].
  right. by apply list_elem_of_singleton in Hin.
Qed.

(** Characters that would end a name, or mean something in a query. *)
Lemma valid_name_plain name ch : valid_name name = true →
  ch ∈ [47; 63; 35; 38; 61; 37; 43]%N → ch ∉ name.
Proof.
  intros Hv Hch Hin. destruct (valid_name_chars _ _ Hv Hin) as [Hs| ->].
  - revert Hs. unfold safe_char. rewrite !orb_true_iff, !andb_true_iff, !N.leb_le, !N.eqb_eq.
    rewrite !elem_of_cons, elem_of_nil in Hch. lia.
  - rewrite !elem_of_cons, elem_of_nil in Hch. lia.
Qed.

Lemma span_name_app name rest : 47%N ∉ name → 63%N ∉ name → 35%N ∉ name →
  span_name (name ++ 47%N :: rest) = (name, 47%N :: rest).
Proof.
  induction name as [|ch name IH]; intros H1' H2' H3'; [done|]. simpl.
  rewrite !not_elem_of_cons in *. destruct H1', H2', H3'.
  rewrite !(proj2 (N.eqb_neq ch _)) by auto. simpl. by rewrite IH.
Qed.

Lemma page_path name : valid_name name = true → app_path (§"/app/" ++ name ++ §"/") = Some (name, Some (§"/")).
Proof.
  intros Hv. unfold app_path. rewrite starts_with_app.
  change (drop 5 (§"/app/" ++ name ++ §"/")) with (name ++ 47%N :: []).
  rewrite span_name_app by (by apply (valid_name_plain name); [|set_solver]).
  destruct name; done.
Qed.

Lemma page_path_safe name : valid_name name = true → starts_with (§".") name = false →
  _path_is_safe (§"/app/" ++ name ++ §"/") = true.
Proof.
  intros Hv Hd. pose proof (valid_name_no_slash name Hv) as Hs.
  pose proof (valid_name_spec name) as [(Hne & Hn1 & Hn2 & _) _]; [done|].
  unfold _path_is_safe.
  assert (Hsplit : split_on 47 (§"/app/" ++ name ++ §"/") = [[]; §"app"; name; []]).
  { change (§"/app/" ++ name ++ §"/") with ([] ++ 47%N :: (§"app" ++ 47%N :: (name ++ 47%N :: []))).
    rewrite split_on_cons by set_solver. rewrite split_on_cons by (apply has_char_false; reflexivity).
    by rewrite split_on_cons. }
  rewrite Hsplit. cbn [existsb]. rewrite (bool_decide_eq_false_2 (name = _ ∨ _)) by tauto.
  rewrite Hd. by rewrite !andb_false_r.
Qed.

Lemma next_query sc name : valid_name name = true → s_query sc = §"next=" ++ name →
  _query_values sc (§"key") = [].
Proof.
  intros Hv Hq. unfold _query_values. rewrite Hq.
  change (§"next=" ++ name) with (§"next" ++ 61%N :: name).
  rewrite query_pairs_plain; [|done| |].
  - cbn [omap list_omap fst]. by rewrite decide_False by done.
  - unfold plain_char. apply (bool_decide_unpack _). reflexivity.
  - apply Forall_forall. intros ch Hin Hch. revert Hin. apply valid_name_plain; [done|]. set_solver.
Qed.

Lemma redirect_sound m w sc headers t : redirect_spec m w sc headers = Some t →
  ∃ portal name rest d, login_portal m = Some portal ∧ app_path (path_of sc) = Some (name, rest) ∧
    t = redirect_target portal name ∧ valid_name name = true ∧ valid_name portal = true ∧
    page w portal = Some d ∧ text_at (§"mode") d = MODE_PUBLIC.
Proof.
  unfold redirect_spec. case_match; [|done].
  destruct (app_path (path_of sc)) as [[name rest]|]; [|done]. cbn.
  destruct (login_portal m) as [portal|]; [|done]. cbn.
  destruct (page w name) as [e|] eqn:Ee; [|done]. cbn.
  destruct (page w portal) as [d|] eqn:Ed; [|done]. cbn.
  destruct (decide (_ ∧ _)) as [Hc|]; [|done]. intros [= <-].
  apply page_entry in Ee as (_ & Hv & _). pose proof Ed as (_ & Hv' & _)%page_entry.
  destruct Hc as (_ & _ & ?). exists portal, name, rest, d. done.
Qed.

Lemma public_slot_complete w sc name rest e : is_http sc = true →
  method_of sc ∈ _PUBLIC_METHODS → _path_is_safe (path_of sc) = true →
  app_path (path_of sc) = Some (name, rest) → page w name = Some e →
  text_at (§"mode") e = MODE_PUBLIC → _query_values sc (§"key") = [] →
  public_slot_spec w sc = Some (text_at (§"slot") e).
Proof.
  intros Hh Hm Hs Ha Hp He Hq. unfold public_slot_spec.
  rewrite Hh, Hs, (bool_decide_eq_true_2 _ Hm), Ha. cbn. rewrite Hp. cbn.
  by rewrite decide_True, Hq by done.
Qed.

Lemma same_files_page w w' name : same_files w w' → page w' name = page w name.
Proof. intros (_ & _ & Hp & _). unfold page, entry_spec, entries_of. by rewrite Hp. Qed.

Lemma gate_spec_sign_in c w sc t : gate_spec c w sc = Ok (SignIn t) →
  redirect_spec c w sc (_headers sc) = Some t.
Proof.
  assert (Hlast : ∀ who, last_spec c w sc who = Ok (SignIn t) →
    redirect_spec c w sc (_headers sc) = Some t).
  { intros who. unfold last_spec. destruct (_anon_post_allowed sc); [done|].
    destruct (_token_ok _ _) as [[]|]; cbn [mbind res_bind]; [done| |done].
    destruct (redirect_spec _ _ _ _); congruence. }
  unfold gate_spec. case_decide; [done|]. cbv zeta.
  destruct (_peer_is_trusted _ _ && _); [done|].
  destruct (public_slot_spec w sc) as [sl|]; [done|].
  destruct (speaks_for c w (_headers sc)) as [id|]; [|apply Hlast].
  destruct (identity_spec w sc id) as [sl|]; [|apply Hlast].
  by destruct (allow_visitor_request _ _ _).1.
Qed.

(** A signed-out visitor sent to the sign-in page arrives there.  When the
    gate answers with a redirect, its target is [/app/<portal>/?next=<name>] on
    this very site, and following it with a plain GET, from anywhere, is
    admitted: as the owner's machine if it is, and otherwise as an anonymous
    reader of the portal's page, so it can never be a redirect again or a
    refusal.  (For a portal whose name does not start with a dot.) *)
Theorem sign_in_redirect_lands c sc w target w' :
  gate_ok w → gate c sc w = (Ok (SignIn target), w') →
  ∃ portal name, login_portal c = Some portal ∧ target = redirect_target portal name ∧
    (starts_with (§".") portal = false →
     ∀ c' sc', s_type sc' = §"http" → method_of sc' = §"GET" →
       s_path sc' = Some (§"/app/" ++ portal ++ §"/") → s_query sc' = §"next=" ++ name →
       ∃ who w'', gate c' sc' w' = (Ok (Admit ZLocal None who), w'') ∨
         ∃ slot, gate c' sc' w' = (Ok (Admit ZPublic (Some slot) who), w'') ∧ public_page w portal slot).
Proof.
  intros Hok Hg. destruct (gate_run c sc w Hok) as (w1 & Hg1 & Hsame & Hok1).
  rewrite Hg1 in Hg. injection Hg as Hg <-.
  apply gate_spec_sign_in, redirect_sound in Hg as (portal & name & rest & d & Hport & _ & -> & Hv & Hvp & Hd & Hm).
  exists portal, name. split_and!; [done..|]. intros Hdot c' sc' Hty Hme Hpa Hq.
  destruct (gate_run c' sc' w1 Hok1) as (w2 & Hg2 & _).
  assert (Hslot : public_slot_spec w1 sc' = Some (text_at (§"slot") d)).
  { apply (public_slot_complete w1 sc' portal (Some (§"/"))); unfold path_of; rewrite ?Hpa; cbn [default id].
    - unfold is_http. by rewrite bool_decide_eq_true_2.
    - rewrite Hme. unfold _PUBLIC_METHODS. set_solver.
    - by apply page_path_safe.
    - by apply page_path.
    - by rewrite (same_files_page w w1).
    - done.
    - by apply (next_query sc' name). }
  eexists _, w2. rewrite Hg2. unfold gate_spec. rewrite decide_False by set_solver. cbv zeta.
  rewrite Hslot. destruct (_peer_is_trusted c' sc' && _); [by left|right].
  eexists. split; [done|]. apply page_entry in Hd as (raw & _ & Hraw & ->). by exists raw.
Qed.

(** ** A token that is not ASCII *)

(** A presented token with a character above ASCII is not refused: the
    comparison raises [TypeError].  Any caller who is not let in another way can
    make the gate raise, for every path, once a token exists. *)
Theorem gate_raises_on_non_ascii_token c sc w p :
  gate_ok w → s_type sc ∈ [§"http"; §"websocket"] →
  _peer_is_trusted c sc = false → speaks_for c w (_headers sc) = None →
  public_slot_spec w sc = None → _anon_post_allowed sc = false →
  is_Some (read_token w) → _presented_token sc (_headers sc) = Some p → is_ascii p = false →
  ∃ w', gate c sc w = (Raise TypeError, w').
Proof.
  intros Hok Hty Hpeer Hwho Hpub Hanon [t Ht] Hp Hascii.
  destruct (gate_run c sc w Hok) as (w' & -> & _). exists w'. f_equal.
  unfold gate_spec, last_spec. rewrite decide_False by tauto. cbv zeta.
  rewrite Hpeer, Hwho, Hpub, Hanon, Hp. unfold _token_ok, compare_digest.
  destruct p; [done|]. by rewrite Ht, Hascii.
Qed.

(** A sign-in page whose name starts with a dot locks visitors out: the
    redirect to it is issued as for any other portal, but its own path counts as
    a dotfile, so following it ends in a refusal. *)
Theorem dot_portal_refused c sc w portal name :
  gate_ok w → s_type sc = §"http" → method_of sc = §"GET" →
  s_path sc = Some (§"/app/" ++ portal ++ §"/") → s_query sc = §"next=" ++ name →
  valid_name portal = true → starts_with (§".") portal = true →
  _peer_is_trusted c sc = false → _presented_token sc (_headers sc) = None →
  ∃ w', gate c sc w = (Ok Reject, w').
Proof.
  intros Hok Hty Hme Hpa Hq Hv Hdot Hpeer Htok.
  destruct (gate_run c sc w Hok) as (w' & -> & _). exists w'. f_equal.
  assert (Hsafe : _path_is_safe (path_of sc) = false).
  { unfold path_of. rewrite Hpa. cbn [default id]. unfold _path_is_safe. apply andb_false_iff. right.
    apply negb_false_iff, existsb_exists. exists portal. split; [|destruct portal; done].
    apply list_elem_of_In.
    change (§"/app/" ++ portal ++ §"/") with ([] ++ 47%N :: (§"app" ++ 47%N :: (portal ++ 47%N :: []))).
    pose proof (valid_name_no_slash portal Hv).
    rewrite split_on_cons by set_solver. rewrite split_on_cons by (apply has_char_false; reflexivity).
    rewrite split_on_cons by done. set_solver. }
  unfold gate_spec, last_spec, public_slot_spec, identity_spec, _anon_post_allowed, redirect_spec.
  rewrite decide_False by (rewrite Hty; set_solver). cbv zeta.
  rewrite Hpeer, Htok, Hsafe, !andb_false_r. cbn.
  by destruct (speaks_for c w (_headers sc)).
Qed.
End gate.

(** ** Evaluation on the small server *)
Section demo.
Import Demo.
#[local] Existing Instance url_plain.
#[local] Existing Instance small_framework.

(** A GET from an address on the internet, or from [client]. *)
Definition demo_get (client path query : pystr) (headers : list (pystr * pystr)) : scope :=
  {| s_type := §"http"; s_method := Some (§"GET"); s_path := Some path; s_query := query;
     s_headers := headers; s_client := Some (client, 4242%Z); s_scheme := Some (§"https") |}.
Definition abroad : pystr := §"8.8.8.8".
Definition demo_cookie : list (pystr * pystr) := [(§"cookie", COOKIE_NAME ++ 61%N :: demo_token)].
Definition demo_portal : gmap pystr pystr := {[ §"FRAGO_LOGIN_PORTAL" := §"portal" ]}.

Lemma demo_started : just_started demo_signed_in.
Proof. split_and!; [by vm_compute..|apply demo_sess_wf]. Qed.
Lemma demo_gate_ok : gate_ok demo_signed_in.
Proof. apply just_started_ok, demo_started. Qed.

(** After one anonymous request, Ann opens her page. *)
Lemma gate_refines_spec_witness :
  let first := demo_get abroad (§"/app/portal/") [] [] in
  let sc := demo_get abroad (§"/app/notes/") [] demo_cookie in
  let w := (gate (call_at 3 ∅) first demo_signed_in).2 in
  ∃ w', gate (call_at 4 ∅) sc w = (gate_spec (call_at 4 ∅) w sc, w') ∧
    gate_spec (call_at 4 ∅) w sc = Ok (Admit ZIdentity (Some ann) (Some ann)).
Proof.
  intros first sc w.
  destruct (gate_refines_spec (call_at 4 ∅) sc demo_signed_in w demo_started) as (w' & Hg & _).
  - apply rtc_once. eapply step_request. apply surjective_pairing.
  - exists w'. split; [exact Hg|by vm_compute].
Defined.

Lemma gate_admits_only_witness :
  let sc := demo_get abroad (§"/app/notes/") [] demo_cookie in
  gate (call_at 4 ∅) sc demo_signed_in =
    (Ok (Admit ZIdentity (Some ann) (Some ann)), (gate (call_at 4 ∅) sc demo_signed_in).2) ∧
  speaks_for (call_at 4 ∅) demo_signed_in (_headers sc) = Some ann.
Proof.
  intros sc.
  assert (Hg : gate (call_at 4 ∅) sc demo_signed_in =
    (Ok (Admit ZIdentity (Some ann) (Some ann)), (gate (call_at 4 ∅) sc demo_signed_in).2))
    by (vm_compute; reflexivity).
  split; [exact Hg|].
  exact (eq_sym (proj1 (gate_admits_only _ _ _ _ _ _ _ demo_gate_ok Hg))).
Defined.

Lemma gate_local_iff_witness :
  (∃ slot who w', gate (call_at 4 ∅) (demo_get (§"127.0.0.1") (§"/api/x") [] []) demo_signed_in
     = (Ok (Admit ZLocal slot who), w')) ∧
  ¬ (∃ slot who w', gate (call_at 4 ∅) (demo_get abroad (§"/api/x") [] []) demo_signed_in
     = (Ok (Admit ZLocal slot who), w')).
Proof.
  split.
  - apply (proj1 (gate_local_iff (call_at 4 ∅) (demo_get (§"127.0.0.1") (§"/api/x") [] [])
      demo_signed_in demo_gate_ok ltac:(by left))).
    split; [by vm_compute|]. intros h _ (v & Hin & _). by apply elem_of_nil in Hin.
  - intros Hl. apply (proj1 (gate_local_iff (call_at 4 ∅) (demo_get abroad (§"/api/x") [] [])
      demo_signed_in demo_gate_ok ltac:(by left))) in Hl as [Hp _]. by vm_compute in Hp.
Defined.

Lemma sign_in_redirect_lands_witness :
  let sc := demo_get abroad (§"/app/notes/") [] [(§"accept", §"text/html")] in
  let target := redirect_target (§"portal") (§"notes") in
  let w' := (gate (call_at 4 demo_portal) sc demo_signed_in).2 in
  gate (call_at 4 demo_portal) sc demo_signed_in = (Ok (SignIn target), w') ∧
  ∃ portal name, login_portal (call_at 4 demo_portal) = Some portal ∧ target = redirect_target portal name.
Proof.
  intros sc target w'.
  assert (Hg : gate (call_at 4 demo_portal) sc demo_signed_in = (Ok (SignIn target), w')) by (by vm_compute).
  split; [exact Hg|].
  destruct (sign_in_redirect_lands _ _ _ _ _ demo_gate_ok Hg) as (portal & name & Hp & Ht & _).
  exists portal, name. exact (conj Hp Ht).
Defined.

Lemma gate_raises_on_non_ascii_token_witness :
  ∃ w', gate (call_at 4 ∅)
    (demo_get abroad (§"/api/x") [] [(§"authorization", §"Bearer " ++ [233%N])]) demo_signed_in
    = (Raise TypeError, w').
Proof.
  apply (gate_raises_on_non_ascii_token _ _ _ [233%N]); try by vm_compute.
  - apply demo_gate_ok.
  - by left.
  - by eexists.
Defined.

Lemma dot_portal_refused_witness :
  ∃ w', gate (call_at 4 ∅) (demo_get abroad (§"/app/.door/") (§"next=notes") []) demo_signed_in
    = (Ok Reject, w').
Proof.
  apply (dot_portal_refused _ _ _ (§".door") (§"notes")); try by vm_compute. apply demo_gate_ok.
Defined.
End demo.
