(* ===== verification/TokenFile.v ===== *)
(** * Minting the server token

    [ensure_token] and [rotate_token] of server/security.py.  The server mints a
    token at start while a person runs the command that prints it, so the
    callers are modelled as processes whose file-system steps interleave: read
    the file, write a temporary one, link it into place, and read again on
    losing the race. *)

From Stdlib Require Import QArith.
From S2P Require Import Prelude PyStr Json Env IpAddr Peer InvocationCtx AppState Publish RateLimit Password World Sessions Accounts Authn Security.
From stdpp Require Import prelude gmap list strings.

(** Where a caller of [ensure_token] stands: about to read, holding the token
    it wrote to its temporary file, beaten to the link, or returned. *)
Inductive caller_state :=
  | TStart
  | TMinted (token : pystr)
  | TBeaten (token : pystr)
  | TDone (token : pystr).

Record token_world := {
  t_file : option pystr;
  t_callers : gmap nat caller_state;
}.

Definition move (s : token_world) (i : nat) (file : option pystr) (st : caller_state) : token_world :=
  {| t_file := file; t_callers := <[i := st]> (t_callers s) |}.

(** What [fh.write(token + "\n")] leaves in the file. *)
Definition token_line (token : pystr) : pystr := token ++ [10%N].

(** The next file-system step of caller [i]; [draw] is what
    [secrets.token_urlsafe(32)] returns if it mints. *)
Definition caller_step (draw : pystr) (i : nat) (s : token_world) : option token_world :=
  match t_callers s !! i with
  | Some TStart =>
      Some (move s i (t_file s)
              (match token_text (t_file s) with Some t => TDone t | None => TMinted draw end))
  | Some (TMinted token) =>
      Some (match t_file s with
            | None => move s i (Some (token_line token)) (TDone token)
            | Some _ => move s i (t_file s) (TBeaten token)
            end)
  | Some (TBeaten token) =>
      Some (move s i (t_file s) (TDone (default token (token_text (t_file s)))))
  | _ => None
  end.

(** [ensure_token] with nobody else around: its steps one after the other. *)
Definition ensure_token (draw : pystr) (file : option pystr) : pystr * option pystr :=
  match token_text file with
  | Some t => (t, file)
  | None =>
      match file with
      | None => (draw, Some (token_line draw))
      | Some _ => (default draw (token_text file), file)
      end
  end.

(** [rotate_token]: drop the file, then mint. *)
Definition rotate_token (draw : pystr) (file : option pystr) : pystr * option pystr :=
  ensure_token draw None.

(** What [token_urlsafe] draws: not empty and without white space. *)
Definition token_shape (t : pystr) : Prop := t ≠ [] ∧ Forall (λ c, is_space c = false) t.

Inductive race : token_world → token_world → Prop :=
  | race_step draw i s s' : token_shape draw → caller_step draw i s = Some s' → race s s'.

Lemma token_line_text t : token_shape t → token_text (Some (token_line t)) = Some t.
Proof.
  intros [Hne Hsp]. unfold token_text, token_line.
  assert (strip (t ++ [10%N]) = t) as ->; [|by destruct t].
  unfold strip, rstrip. destruct t as [|c t]; [done|].
  assert (lstrip ((c :: t) ++ [10%N]) = (c :: t) ++ [10%N]) as ->.
  { simpl. apply Forall_cons in Hsp as [-> _]. done. }
  rewrite reverse_snoc. cbn [lstrip]. change (is_space 10) with true. cbn iota.
  rewrite lstrip_nospace by (by rewrite Forall_reverse). apply reverse_involutive.
Qed.

(** The file is empty-handed and nobody has returned, or it holds a token and
    everyone who returned returned that one. *)
Definition agreed (s : token_world) : Prop :=
  (∀ i t, t_callers s !! i = Some (TMinted t) ∨ t_callers s !! i = Some (TBeaten t) → token_shape t) ∧
  match t_file s with
  | None => ∀ i t, t_callers s !! i ≠ Some (TDone t) ∧ t_callers s !! i ≠ Some (TBeaten t)
  | Some text => ∃ tok, token_text (Some text) = Some tok ∧
      ∀ i t, t_callers s !! i = Some (TDone t) → t = tok
  end.

Lemma agreed_move s i file st : agreed s →
  (∀ t, st = TMinted t ∨ st = TBeaten t → token_shape t) →
  match file with
  | None => t_file s = None ∧ ∀ t, st ≠ TDone t ∧ st ≠ TBeaten t
  | Some text => ∃ tok, token_text (Some text) = Some tok ∧ (∀ t, st = TDone t → t = tok) ∧
      (t_file s = None ∨ t_file s = Some text)
  end → agreed (move s i file st).
Proof.
  intros [Hshape Hf] Hst Hnew. split; simpl.
  - intros j t. destruct (decide (i = j)) as [->|Hij].
    + rewrite lookup_insert_eq. intros [[= ->]|[= ->]]; eauto.
    + rewrite lookup_insert_ne by done. apply Hshape.
  - destruct file as [text|].
    + destruct Hnew as (tok & Htok & Hd & Hfile). exists tok. split; [done|].
      intros j t. destruct (decide (i = j)) as [->|Hij].
      * rewrite lookup_insert_eq. intros [= ->]. by apply Hd.
      * rewrite lookup_insert_ne by done. intros Hj. destruct Hfile as [E|E]; rewrite E in Hf.
        -- by destruct (Hf j t) as [Hno _].
        -- destruct Hf as (tok' & Htok' & Hall). apply Hall in Hj. congruence.
    + destruct Hnew as [E Hd]. rewrite E in Hf. intros j t. destruct (decide (i = j)) as [->|Hij].
      * rewrite lookup_insert_eq. destruct (Hd t) as [? ?]. split; congruence.
      * rewrite lookup_insert_ne by done. apply Hf.
Qed.

Lemma race_agreed s s' : agreed s → race s s' → agreed s'.
Proof.
  intros Ha Hr. destruct Hr as [draw i s s' Hdraw Hs]. pose proof Ha as [Hshape Hf].
  unfold caller_step in Hs. destruct (t_callers s !! i) as [[|t|t|t]|] eqn:Ei; simplify_eq.
  - destruct (t_file s) as [text|] eqn:Ef.
    + destruct Hf as (tok & Htok & _). rewrite Htok.
      apply agreed_move; [done|by intros ? [?|?]|]. exists tok. split_and!; [done| |by right].
      by intros ? [= <-].
    + cbn [token_text]. apply agreed_move; [done| |by split].
      intros t [[= <-]|?]; done.
  - destruct (t_file s) as [text|] eqn:Ef.
    + destruct Hf as (tok & Htok & _). apply agreed_move; [done| |].
      * intros ? [?|[= <-]]; [done|]. eauto.
      * exists tok. split_and!; [done|done|by right].
    + apply agreed_move; [done|by intros ? [?|?]|]. exists t. split_and!; [|by intros ? [= <-]|by left].
      apply token_line_text. eauto.
  - destruct (t_file s) as [text|] eqn:Ef.
    + destruct Hf as (tok & Htok & _). rewrite Htok. apply agreed_move; [done|by intros ? [?|?]|].
      exists tok. split_and!; [done|by intros ? [= <-]|by right].
    + destruct (Hf i t) as [_ Hno]. congruence.
Qed.

(** Every caller before its first step. *)
Definition callers_ready (s : token_world) : Prop := map_Forall (λ _ st, st = TStart) (t_callers s).

(** Racing callers come away with the same token.  However many processes
    call [ensure_token] at once, on a machine with no token file or with one
    that holds a token, and however their steps interleave: every caller that
    has returned returned the token that is on disk. *)
Theorem ensure_token_race_agrees s s' :
  callers_ready s → (t_file s = None ∨ is_Some (token_text (t_file s))) → rtc race s s' →
  ∀ i t, t_callers s' !! i = Some (TDone t) → token_text (t_file s') = Some t.
Proof.
  intros Hready Hfile Hr.
  assert (Hag : agreed s).
  { split.
    - intros i t [Hi|Hi]; by apply Hready in Hi.
    - destruct (t_file s) as [text|]; [|intros i t; split; intros Hi; by apply Hready in Hi].
      destruct Hfile as [?|[tok Htok]]; [done|]. exists tok. split; [done|].
      intros i t Hi. by apply Hready in Hi. }
  assert (Hag' : agreed s') by (clear Hready Hfile; induction Hr; eauto using race_agreed).
  intros i t Hi. destruct Hag' as [_ Hf]. destruct (t_file s') as [text|].
  - destruct Hf as (tok & Htok & Hall). by apply Hall in Hi as ->.
  - by destruct (Hf i t) as [? _].
Qed.

(** A schedule: which caller takes the next step, and what it would draw. *)
Fixpoint play (evs : list (pystr * nat)) (s : token_world) : option token_world :=
  match evs with
  | [] => Some s
  | (draw, i) :: evs => s' ← caller_step draw i s; play evs s'
  end.

Lemma play_race evs s s' : Forall (λ e, token_shape e.1) evs → play evs s = Some s' → rtc race s s'.
Proof.
  revert s. induction evs as [|[draw i] evs IH]; intros s Hall Hp; simpl in Hp.
  - injection Hp as <-. apply rtc_refl.
  - apply Forall_cons in Hall as [Hd Hall]. apply bind_Some in Hp as (s1 & Hs & Hp).
    eapply rtc_l; [by econstructor|by apply IH].
Qed.

Lemma ensure_token_race_agrees_witness :
  let s0 := {| t_file := None; t_callers := {[0 := TStart; 1 := TStart]} |} in
  let evs := [(§"aaa", 0); (§"bbb", 1); (§"aaa", 0); (§"bbb", 1); (§"bbb", 1)] in
  ∃ s', play evs s0 = Some s' ∧ t_callers s' !! 1 = Some (TDone (§"aaa")) ∧
    token_text (t_file s') = Some (§"aaa").
Proof.
  intros s0 evs. destruct (play evs s0) as [s'|] eqn:Hp; [|exfalso; vm_compute in Hp; discriminate].
  exists s'. split; [reflexivity|].
  assert (Hd : t_callers s' !! 1 = Some (TDone (§"aaa")))
    by (vm_compute in Hp; injection Hp as <-; vm_compute; reflexivity).
  split; [exact Hd|]. apply (ensure_token_race_agrees s0 s') with (i := 1); [|by left| |exact Hd].
  - intros i st Hi. unfold s0 in Hi. simpl in Hi.
    apply lookup_insert_Some in Hi as [[_ <-]|[_ Hi]]; [done|].
    by apply lookup_singleton_Some in Hi as [_ <-].
  - apply (play_race evs); [|exact Hp].
    repeat constructor; simpl; try done; vm_compute; repeat constructor.
Defined.

(** A caller alone takes exactly the steps of [ensure_token]. *)
Lemma ensure_token_alone draw file :
  ∃ n, n ≤ 3 ∧ play (repeat (draw, 0) n) {| t_file := file; t_callers := {[0 := TStart]} |} =
    Some {| t_file := (ensure_token draw file).2;
            t_callers := {[0 := TDone (ensure_token draw file).1]} |}.
Proof.
  unfold ensure_token.
  destruct (token_text file) as [t|] eqn:Et; [exists 1|destruct file as [text|]; [exists 3|exists 2]].
  all: split; [lia|]; cbn [repeat play]; unfold caller_step, move; cbn [t_callers t_file].
  all: repeat (rewrite ?lookup_singleton_eq, ?lookup_insert_eq, ?Et; cbn [t_callers t_file mbind option_bind]).
  all: do 2 f_equal; by rewrite ?insert_insert_eq, insert_singleton_eq.
Qed.

(** A token file that exists but is blank is never repaired: every call
    returns a fresh token that is not on disk, so no caller who presents it is
    let in, and the next call returns another one. *)
Theorem ensure_token_blank_file draw draw' text :
  token_shape draw → token_text (Some text) = None →
  ensure_token draw (Some text) = (draw, Some text) ∧
  ensure_token draw' (ensure_token draw (Some text)).2 = (draw', Some text) ∧
  ∀ w, w_token w = Some text → _token_ok w (Some draw) = Ok false.
Proof.
  intros [Hne _] Hblank.
  assert (Hrun : ∀ d, ensure_token d (Some text) = (d, Some text)) by (intros d; unfold ensure_token; by rewrite Hblank).
  rewrite !Hrun. split_and!; [done|done|]. intros w Hw. unfold _token_ok, read_token. rewrite Hw, Hblank.
  by destruct draw.
Qed.

Lemma ensure_token_blank_file_witness :
  (ensure_token (§"aaa") (Some (§" "))).1 = §"aaa" ∧ token_text (ensure_token (§"aaa") (Some (§" "))).2 = None.
Proof.
  destruct (ensure_token_blank_file (§"aaa") (§"bbb") (§" ")) as [E _].
  - split; [done|]. vm_compute. repeat constructor.
  - reflexivity.
  - rewrite E. split; reflexivity.
Defined.
