(* ===== verification/AuthRoutes.v ===== *)
(** * The sign-in endpoints

    server/routes/auth.py: login, logout, changing a password, who am I, and the
    pages a visitor may open.  The handlers run after the gate and are given the
    account it resolved. *)

From Stdlib Require Import QArith.
From S2P Require Import Prelude PyStr Json Env IpAddr Peer InvocationCtx AppState Publish RateLimit Password World Sessions Accounts Authn Security.
From stdpp Require Import prelude gmap list strings.

(** A request: its scope, and its body as a byte count and what it parses to. *)
Record request := {
  rq_scope :> scope;
  rq_length : N;
  rq_json : option json;
}.

Inductive cookie_action :=
  | SetCookie (token : pystr) (max_age : Z) (secure : bool)
  | DeleteCookie.

(** A response: status, the error's reason or the payload, and what it does to
    the session cookie (always HttpOnly, SameSite=Lax, Path=/). *)
Record response := {
  rs_status : Z;
  rs_error : option string;
  rs_payload : jdict;
  rs_cookie : option cookie_action;
}.

Definition _fail (status : Z) (reason : string) : response :=
  {| rs_status := status; rs_error := Some reason; rs_payload := []; rs_cookie := None |}.
Definition _ok (payload : jdict) (cookie : option cookie_action) : response :=
  {| rs_status := 200; rs_error := None; rs_payload := payload; rs_cookie := cookie |}.

Definition _STATUS_FOR : list (string * Z) :=
  [("invalid_email", 400); ("weak_password", 400); ("bad_credentials", 401);
   ("rate_limited", 429); ("gate_required", 403); ("account_limit", 503);
   ("no_such_user", 401); ("session_failed", 503)]%string%Z.
Definition status_for (reason : string) : Z := default 400%Z (dget reason _STATUS_FOR).

Section routes.
Context `{Unicode, PyRepr, Clock, Crypto, Paths, UrlCoding, Framework}.
Implicit Types (w : world) (c : call) (rq : request).

(** [request.headers.get(name) or ""]. *)
Definition header (rq : request) (name : pystr) : pystr := default [] (header_get (s_headers rq) name).
Definition scheme_of (rq : request) : pystr := url_scheme (s_scheme rq).

(** [_json_body]: the object, or the status and reason of a refusal. *)
Definition _json_body rq : jdict + response :=
  let content_type := str_lower (strip (default [] (head (split_on 59 (header rq (§"content-type")))))) in
  if decide (content_type ≠ §"application/json") then inr (_fail 415 "unsupported_media_type")
  else if (65536 <? rq_length rq)%N then inr (_fail 413 "too_large")
  else if (rq_length rq =? 0)%N then inl []
  else match rq_json rq with
       | Some (JObj body) => inl body
       | _ => inr (_fail 400 "bad_request")
       end.

Definition _origin_is_foreign (m : machine) rq : bool :=
  let origin := strip (header rq (§"origin")) in
  if decide (origin = []) then false
  else
    let host := strip (header rq (§"host")) in
    if decide (host = []) then true
    else
      let scheme := str_lower (match scheme_of rq with [] => §"http" | s => s end) in
      let allowed := (scheme ++ §"://" ++ host) ::
                     (if public_https m then [§"https://" ++ host] else []) in
      bool_decide (rstrip_char 47 (str_lower origin) ∉ allowed).

Definition issue_cookie (m : machine) rq (token : pystr) : cookie_action :=
  SetCookie token (session_ttl m) (cookie_is_secure m rq).

Definition _identity_payload (uid : pystr) : M world jdict :=
  user ← find_user_by_id uid;
  mret [(§"identity", JStr uid);
        (§"email", JStr (match user with Some u => user_email u | None => [] end));
        (§"emailVerified", JBool false)].

(** [except IdentityError as error: return _fail(...)]. *)
Definition or_fail {A} (m : M world A) (k : A → M world response) : M world response := λ w,
  match m w with
  | (Ok a, w') => k a w'
  | (Raise (IdentityError reason), w') => (Ok (_fail (status_for reason) reason), w')
  | (Raise e, w') => (Raise e, w')
  end.

Definition is_secure_scheme (s : pystr) : bool := bool_decide (str_lower s ∈ [§"https"; §"wss"]).

Definition login c rq : M world response :=
  match _json_body rq with
  | inr refusal => mret refusal
  | inl body =>
      if _origin_is_foreign c rq then mret (_fail 403 "cross_origin")
      else
        let address := client_ip c rq in
        allowed ← on_limits (λ l, let '(b, l) := allow_login (mono c) address l in (Ok b, l));
        if negb allowed then mret (_fail 429 "rate_limited")
        else if public_https c && negb (is_secure_scheme (scheme_of rq))
        then mret (_fail 403 "https_required")
        else
          let email := str_field (§"email") body in
          let password := str_field (§"password") body in
          let gate := match dget (§"gate") body with
                      | None | Some JNull => None
                      | Some g => Some (py_str g)
                      end in
          or_fail (ua ← authenticate c address email password gate;
                   token ← create_session c (user_id ua.1);
                   mret (ua, token))
            (λ r,
              payload ← _identity_payload (user_id r.1.1);
              mret (_ok (dset (§"created") (JBool (match r.1.2 with Created => true | _ => false end)) payload)
                        (Some (issue_cookie c rq r.2))))
  end.

(** [who] is [identity_of(request)], the account the gate resolved. *)
Definition logout c rq (who : option pystr) : M world response :=
  match _json_body rq, who with
  | inr refusal, _ => mret refusal
  | inl _, None => mret (_fail 401 "not_signed_in")
  | inl _, Some _ =>
      (match cookie_get (s_headers rq) COOKIE_NAME with
       | Some ((_ :: _) as token) => revoke_session c token;; mret tt
       | _ => mret tt
       end);;
      mret (_ok [(§"ok", JBool true)] (Some DeleteCookie))
  end.

Definition change_password c rq (who : option pystr) : M world response :=
  match _json_body rq, who with
  | inr refusal, _ => mret refusal
  | inl _, None => mret (_fail 401 "not_signed_in")
  | inl body, Some uid =>
      let current := str_field (§"current_password") body in
      let new_password := str_field (§"new_password") body in
      good ← verify_user_password uid current;
      if negb good then mret (_fail 401 "bad_credentials")
      else
        or_fail (set_password c uid new_password true;; create_session c uid)
          (λ token,
            payload ← _identity_payload uid;
            mret (_ok payload (Some (issue_cookie c rq token))))
  end.

Definition whoami (who : option pystr) : M world response :=
  match who with
  | None => mret (_fail 401 "not_signed_in")
  | Some uid => payload ← _identity_payload uid; mret (_ok payload None)
  end.

(** The card of one page; [describe] is the registry's description of a recipe,
    [None] when it is not installed. *)
Definition page_card (describe : pystr → option pystr) (name : pystr) (entry : jdict) : json :=
  let title := match describe name with
               | None => name
               | Some d => match strip (match d with [] => name | _ => d end) with [] => name | t => t end
               end in
  JObj [(§"recipe", JStr name); (§"title", JStr title);
        (§"runnable", JBool (bool_field (§"runnable") entry));
        (§"path", JStr (§"/app/" ++ name ++ §"/"))].

Fixpoint page_cards (describe : pystr → option pystr) (who : pystr) (names : list pystr)
    : M world (list json) :=
  match names with
  | [] => mret []
  | name :: names =>
      entry ← on_pub (published_entry name);
      rest ← page_cards describe who names;
      mret (match entry with
            | Some e => if allows (Some e) (Some who) then page_card describe name e :: rest else rest
            | None => rest
            end)
  end.

Definition reachable_pages (describe : pystr → option pystr) (who : option pystr) : M world response :=
  match who with
  | None => mret (_fail 401 "not_signed_in")
  | Some uid =>
      loaded ← on_pub load;
      cards ← page_cards describe uid (isort str_leb (dkeys loaded.1));
      mret (_ok [(§"pages", JArr cards)] None)
  end.

(** ** Signing in *)

Lemma status_for_not_ok reason : status_for reason ≠ 200%Z.
Proof.
  unfold status_for, _STATUS_FOR. cbn [dget]. by repeat (case_decide; [done|]).
Qed.

Lemma or_fail_ok {A} (f : M world A) k w rs w' :
  or_fail f k w = (Ok rs, w') → rs_status rs = 200%Z →
  ∃ a w1, f w = (Ok a, w1) ∧ k a w1 = (Ok rs, w').
Proof.
  unfold or_fail. destruct (f w) as [[a|e] w1]; [eauto|].
  destruct e; try done. intros [= <- <-] Hs. by destruct (status_for_not_ok reason).
Qed.

Lemma json_body_refusal rq r : _json_body rq = inr r → rs_status r ≠ 200%Z.
Proof. unfold _json_body. repeat case_match; intros; simplify_eq; done. Qed.

(** A session issued at [c] speaks for its account until it expires. *)
Lemma issued_speaks m c identity sid token w d :
  _sid_of token = Ok sid → account_live (_read_users_file w) identity →
  session_owner m (set_sessions w (dset sid (issued c identity) d)) token =
    if Z.ltb (wall m) (expiry c) then Some identity else None.
Proof.
  intros Hs Hl. unfold session_owner. rewrite Hs. unfold _read_session. cbn [w_sessions set_sessions].
  rewrite dget_dset_eq. cbn [mbind option_bind doc_record sf_doc issued].
  destruct (new_record_fields c identity) as (-> & -> & _).
  rewrite bool_decide_eq_true_2 by exact Hl. by rewrite andb_true_r.
Qed.

Lemma payload_run uid w : cache_ok w →
  ∃ p cache, _identity_payload uid w = (Ok p, set_users w (w_users w) cache).
Proof.
  intros Hc. unfold _identity_payload. munfold.
  destruct (find_user_run uid w Hc) as (cache & -> & _). eauto.
Qed.

Lemma session_owner_cache m w cache token :
  session_owner m (set_users w (w_users w) cache) token = session_owner m w token.
Proof. done. Qed.

(** C8. What a successful login means.  If [login] answers 200 then the body was
    JSON, the request did not declare a foreign origin, the connection is HTTPS
    whenever the operator declared the site to be, and the response sets a
    cookie, marked Secure by this request's own scheme or that declaration, that
    speaks for the account derived from the address: from now until the session
    expires the gate takes a request with this cookie for that account. *)
Theorem login_issues_session c rq w rs w' :
  users_ok w → login c rq w = (Ok rs, w') → rs_status rs = 200%Z →
  ∃ body uid token, _json_body rq = inl body ∧ derive_id (str_field (§"email") body) = Ok uid ∧
    rs_cookie rs = Some (SetCookie token (session_ttl c) (cookie_is_secure c rq)) ∧
    _origin_is_foreign c rq = false ∧
    (public_https c = true → is_secure_scheme (scheme_of rq) = true) ∧
    ∀ m, session_owner m w' token = if Z.ltb (wall m) (expiry c) then Some uid else None.
Proof.
  intros Hok Hl Hst. unfold login in Hl. destruct (_json_body rq) as [body|r] eqn:Eb.
  2: { injection Hl as <- _. by apply json_body_refusal in Eb. }
  destruct (_origin_is_foreign c rq) eqn:Eo; [by injection Hl as <- _|].
  unfold mbind at 1, M_bind at 1, on_limits at 1 in Hl.
  destruct (allow_login _ _ _) as [[] l]; cbn [negb] in Hl; [|by injection Hl as <- _].
  destruct (public_https c && negb (is_secure_scheme (scheme_of rq))) eqn:Eh;
    [by injection Hl as <- _|].
  apply or_fail_ok in Hl as ([[u h] token] & w1 & Hf & Hk); [|done].
  unfold mbind, M_bind in Hf.
  destruct (authenticate c _ _ _ _ _) as [[[u' h']|] w2] eqn:Ea; [|done].
  apply authenticate_ok in Ea as (uid & Huid & Hok2 & Hlive & Hh); [|by apply users_ok_limits].
  assert (Hu : user_id u' = uid).
  { destruct h'; [|by destruct Hh as (_ & _ & ?)]. destruct Hh as (rec & Hr & -> & _).
    by apply (record_id (_read_users_file w) (uid, rec)), dget_Some_elem; [apply Hok|]. }
  cbn [fst] in Hf. rewrite Hu in Hf.
  destruct (create_session c uid w2) as [[tok|] w3] eqn:Ecs; [|done]. injection Hf as -> -> -> ->.
  apply create_session_ok in Ecs as (sid & d & Hsid & _ & _ & _ & _ & -> & _); [|apply Hok2].
  revert Hk. unfold mbind, M_bind. cbn [fst snd].
  destruct (payload_run (user_id u) (set_sessions w2 (dset sid (issued c uid) d))) as (p & cache & ->);
    [apply Hok2|].
  intros [= <- <-]. exists body, uid, token. split_and!; try done.
  - intros Hp. rewrite Hp in Eh. by destruct (is_secure_scheme _).
  - intros m. by apply (issued_speaks m c uid sid token w2 d).
Qed.


(** ** Changing the password *)

Lemma session_owner_file m w tok x : session_owner m w tok = Some x →
  ∃ sid f, _sid_of tok = Ok sid ∧ dget sid (w_sessions w) = Some f ∧ owner_of f = Some x.
Proof.
  unfold session_owner, _read_session. destruct (_sid_of tok) as [sid|]; [|done].
  destruct (dget sid (w_sessions w)) as [f|] eqn:Ef; [|done]. cbn.
  destruct (doc_record f) as [record|] eqn:Er; [|done]. cbn.
  destruct (expires_of record) as [[t|t]|] eqn:Ee; try done. case_match; [|done].
  intros [= <-]. exists sid, f. split_and!; [done..|]. unfold owner_of. rewrite Er.
  destruct record; [|done]. unfold expires_of, _parse_time in Ee. cbn in Ee.
  by rewrite parse_iso_none in Ee.
Qed.

Lemma verify_user_run uid pw w w' : users_ok w → verify_user_password uid pw w = (Ok true, w') →
  users_ok w' ∧ w_sessions w' = w_sessions w ∧ _read_users_file w' = _read_users_file w ∧
  ∃ rec, dget uid (_read_users_file w) = Some rec ∧ bool_field (§"disabled") rec = false ∧
    verify_password pw (str_field (§"pwd") rec) = Ok true.
Proof.
  intros Hok. unfold verify_user_password. munfold.
  destruct (load_users_fresh w) as (cache & -> & Hca); [apply Hok|].
  destruct (dget uid (_read_users_file w)) as [rec|]; [|done].
  destruct (bool_field _ rec) eqn:Ed; [done|]. intros [= Hv <-].
  split_and!; [by apply users_ok_cache|done|done|eauto].
Qed.

Lemma set_password_revokes c uid pw w rec w' : users_ok w → sess_io c = true →
  dget uid (_read_users_file w) = Some rec → bool_field (§"disabled") rec = false →
  set_password c uid pw true w = (Ok tt, w') →
  users_ok w' ∧ account_live (_read_users_file w') uid ∧
  w_sessions w' = filter (λ kv, owner_of kv.2 ≠ Some uid) (w_sessions w).
Proof.
  intros Hok Hio Hr Hd. unfold set_password. munfold.
  destruct (check_password_rules pw) as [[]|]; [|done].
  destruct (hash_now c pw) as [enc|]; [|done].
  destruct (_users_locked c _ w) as [[r|] w1] eqn:El; [|done].
  apply (set_field_any _ _ _ _ _ rec _ _ Hok) in El; [|done|exact Hr].
  assert (Hw1 : users_ok w1 ∧ w_sessions w1 = w_sessions w ∧ account_live (_read_users_file w1) uid).
  { destruct El as [->|(Hok1 & Hs & Hread)].
    - split_and!; [done|done|]. apply (record_live _ _ rec); [apply Hok|done|done].
    - split_and!; [done|done|]. rewrite Hread.
      apply (record_live _ _ (dset (§"pwd") (JStr enc) rec)).
      + rewrite <- Hread. apply Hok1.
      + apply dget_dset_eq.
      + unfold bool_field. by rewrite dget_dset_ne. }
  destruct Hw1 as (Hok1 & Hs & Hlive).
  destruct (revoke_identity_run c uid w1) as [n ->]; [apply Hok1|done|]. intros [= <-].
  split_and!; [|done|by rewrite <- Hs].
  apply users_ok_sessions; [done|]. apply sess_wf_filter, Hok1.
Qed.

(** C9. Changing a password leaves exactly one way in.  If [change_password]
    answers 200, the current password was right; the cookie it sets speaks for
    the account until it expires, and every cookie that still speaks for the
    account is that one: whatever was stolen before is worthless. *)
Theorem change_password_single_session c rq uid w rs w' :
  users_ok w → change_password c rq (Some uid) w = (Ok rs, w') → rs_status rs = 200%Z →
  ∃ body rec token, _json_body rq = inl body ∧ dget uid (_read_users_file w) = Some rec ∧
    verify_password (str_field (§"current_password") body) (str_field (§"pwd") rec) = Ok true ∧
    rs_cookie rs = Some (SetCookie token (session_ttl c) (cookie_is_secure c rq)) ∧
    (∀ m, session_owner m w' token = if Z.ltb (wall m) (expiry c) then Some uid else None) ∧
    (∀ m tok, session_owner m w' tok = Some uid → _sid_of tok = _sid_of token).
Proof.
  intros Hok Hl Hst. unfold change_password in Hl. destruct (_json_body rq) as [body|r] eqn:Eb.
  2: { injection Hl as <- _. by apply json_body_refusal in Eb. }
  unfold mbind at 1, M_bind at 1 in Hl.
  destruct (verify_user_password uid _ w) as [[[]|] w1] eqn:Ev; cbn [negb] in Hl;
    [|by injection Hl as <- _|done].
  apply verify_user_run in Ev as (Hok1 & Hs1 & Hread1 & rec & Hr & Hd & Hv); [|done].
  apply or_fail_ok in Hl as (token & w3 & Hf & Hk); [|done].
  unfold mbind, M_bind in Hf. destruct (set_password c uid _ true w1) as [[[]|] w2] eqn:Esp; [|done].
  assert (Hio : sess_io c = true).
  { destruct (sess_io c) eqn:Eio; [done|exfalso].
    revert Hf. unfold create_session, mbind, M_bind.
    destruct (purge_expired_sessions c w2) as [[?|] ?]; [|done].
    destruct (_enforce_session_caps c uid _) as [[[]|] ?]; [|done].
    case_match; [done|]. intros [? _]%issue_ok. congruence. }
  apply (set_password_revokes _ _ _ _ rec) in Esp as (Hok2 & Hlive & Hs2); [|done|done|congruence|done].
  apply create_session_ok in Hf as (sid & d & Hsid & _ & _ & _ & Hsub & -> & _); [|apply Hok2].
  revert Hk. unfold mbind, M_bind.
  destruct (payload_run uid (set_sessions w2 (dset sid (issued c uid) d))) as (p & cache & ->); [apply Hok2|].
  intros [= <- <-]. exists body, rec, token. split_and!; try done.
  - intros m. by apply (issued_speaks m c uid sid token w2 d).
  - intros m tok (sid' & f & Hsid' & Hf & Ho)%session_owner_file. rewrite Hsid, Hsid'. f_equal.
    destruct (decide (sid' = sid)) as [|Hne]; [done|exfalso]. simpl in Hf.
    rewrite dget_dset_ne in Hf by done. apply dget_Some_elem, Hsub in Hf. rewrite Hs2 in Hf.
    by apply list_elem_of_filter in Hf as [? _].
Qed.

(** ** The list of pages *)

(** The pages of a list of names that are open to an account, with their cards. *)
Definition open_cards (describe : pystr → option pystr) (w : world) (who : pystr) (names : list pystr)
    : list json :=
  omap (λ name, if open_to w name who then page_card describe name <$> page w name else None) names.

(** [allows] on a normalised entry includes the mode check of the gate. *)
Lemma open_to_allows w name who :
  open_to w name who = match page w name with Some e => allows (Some e) (Some who) | None => false end.
Proof.
  unfold open_to. destruct (page w name) as [e|] eqn:Ep; [|done].
  apply page_entry in Ep as (raw & _ & _ & ->). rewrite text_mode_normalise.
  destruct (allows (Some (normalise raw)) (Some who)) eqn:Ea; [|by rewrite andb_false_r].
  rewrite andb_true_r. apply bool_decide_eq_true. revert Ea. unfold allows.
  destruct who; [done|]. rewrite mode_of_normalise. by case_decide.
Qed.

Lemma open_cards_ext describe w w' who names : (∀ name, page w' name = page w name) →
  open_cards describe w' who names = open_cards describe w who names.
Proof.
  intros Hp. unfold open_cards. apply list_omap_ext, Forall_Forall2_diag, Forall_true.
  intros name. rewrite !open_to_allows. by rewrite Hp.
Qed.

Lemma page_cards_run describe who names : consults (page_cards describe who names)
  (λ w, open_cards describe w who names).
Proof.
  induction names as [|name names IH]; [apply (consults_ret [])|]. intros w Hc.
  cbn [page_cards]. munfold. destruct (consult w name Hc) as (p & -> & Hf & Hc').
  destruct (IH (set_pub w p) Hc') as (p' & -> & Hf' & Hc'').
  exists p'. split; [|split; [etrans; [exact Hf'|exact Hf]|done]].
  rewrite (open_cards_ext describe w) by (intros; by apply page_set_pub).
  do 2 f_equal. unfold open_cards. cbn [omap list_omap]. rewrite open_to_allows.
  destruct (page w name) as [e|]; [|done]. by destruct (allows _ _).
Qed.

(** A visitor's list of pages is exactly what the gate would open to them:
    the endpoint returns one card for each name of the published list that the
    gate's identity check admits this account to, and no other. *)
Theorem reachable_pages_agree describe uid w : coherent (w_pub w) →
  ∃ names w', reachable_pages describe (Some uid) w =
      (Ok (_ok [(§"pages", JArr (open_cards describe w uid names))] None), w') ∧
    names ≡ₚ dkeys (entries_of (w_pub w)) ∧ same_files w w' ∧
    ∀ name, (∃ e, page w name = Some e ∧ page_card describe name e ∈ open_cards describe w uid names)
      ↔ open_to w name uid = true.
Proof.
  intros Hc. destruct (load_spec (w_pub w) Hc) as (alias & p & Hl & Hf & Hc' & _).
  set (names := isort str_leb (dkeys (entries_of (w_pub w)))). exists names.
  destruct (page_cards_run describe uid names (set_pub w p) Hc') as (p' & Hp' & Hf' & _).
  exists (set_pub w p'). split_and!.
  - unfold reachable_pages. munfold. unfold on_pub at 1. rewrite Hl. cbn [fst]. fold names.
    change (set_pub (set_pub w p) p') with (set_pub w p') in Hp'. rewrite Hp'.
    by rewrite (open_cards_ext describe w) by (intros; by apply page_set_pub).
  - apply isort_perm.
  - repeat split; simpl. by etrans; [exact Hf'|].
  - intros name. unfold open_cards. split.
    + intros (e & He & Hin). apply list_elem_of_omap in Hin as (name' & _ & Hn).
      destruct (open_to w name' uid) eqn:Eo; [|done].
      destruct (page w name') as [e'|]; [|done]. cbn in Hn. unfold page_card in Hn.
      assert (name' = name) as <- by congruence. done.
    + intros Ho. pose proof Ho as Ho'. rewrite open_to_allows in Ho'.
      destruct (page w name) as [e|] eqn:Ep; [|done]. exists e. split; [done|].
      apply list_elem_of_omap. exists name. rewrite Ho, Ep. split; [|done].
      unfold names. apply elem_of_isort.
      apply page_entry in Ep as (raw & _ & Hraw & _). destruct (decide (name ∈ dkeys (entries_of (w_pub w)))) as [|Hn]; [done|].
      apply dget_None in Hn. congruence.
Qed.
End routes.

(** ** Evaluation on the small server *)
Section demo.
Import Demo.
#[local] Existing Instance url_plain.
#[local] Existing Instance small_framework.

(** A POST of a JSON object over HTTPS. *)
Definition demo_post (path : pystr) (body : jdict) : request :=
  {| rq_scope := {| s_type := §"http"; s_method := Some (§"POST"); s_path := Some path; s_query := [];
       s_headers := [(§"content-type", §"application/json"); (§"host", §"frago.example")];
       s_client := Some (abroad, 4242%Z); s_scheme := Some (§"https") |};
     rq_length := 100; rq_json := Some (JObj body) |}.

Lemma login_issues_session_witness :
  let c := call_at 9 ∅ in
  let rq := demo_post (§"/api/auth/login") [(§"email", JStr email); (§"password", JStr password)] in
  let '(r, w') := login c rq server in
  ∃ rs token uid, r = Ok rs ∧ rs_cookie rs = Some (SetCookie token (session_ttl c) true) ∧
    ∀ m, session_owner m w' token = if Z.ltb (wall m) (expiry c) then Some uid else None.
Proof.
  intros c rq. destruct (login c rq server) as [[rs|e] w'] eqn:E.
  - assert (Hs : rs_status rs = 200%Z).
    { assert (E' : rs_status <$> (match (login c rq server).1 with Ok x => Some x | _ => None end) = Some 200%Z)
        by (vm_compute; reflexivity). rewrite E in E'. by injection E'. }
    destruct (login_issues_session c rq server rs w' demo_server_ok E Hs)
      as (body & uid & token & _ & _ & Hc & _ & _ & Ho).
    exists rs, token, uid. split_and!; [done|exact Hc|exact Ho].
  - exfalso. vm_compute in E. discriminate.
Defined.

Lemma change_password_single_session_witness :
  let c := call_at 9 ∅ in
  let rq := demo_post (§"/api/auth/password")
    [(§"current_password", JStr password); (§"new_password", JStr (§"battery staple"))] in
  let '(r, w') := change_password c rq (Some ann) demo_signed_in in
  ∃ rs token, r = Ok rs ∧ rs_cookie rs = Some (SetCookie token (session_ttl c) true) ∧
    ∀ m tok, session_owner m w' tok = Some ann → _sid_of tok = _sid_of token.
Proof.
  intros c rq. destruct (change_password c rq (Some ann) demo_signed_in) as [[rs|e] w'] eqn:E.
  - assert (Hs : rs_status rs = 200%Z).
    { assert (E' : rs_status <$> (match (change_password c rq (Some ann) demo_signed_in).1 with
                                  | Ok x => Some x | _ => None end) = Some 200%Z)
        by (vm_compute; reflexivity). rewrite E in E'. by injection E'. }
    destruct (change_password_single_session c rq ann demo_signed_in rs w' demo_signed_in_users_ok E Hs)
      as (body & rec & token & _ & _ & _ & Hc & _ & Honly).
    exists rs, token. split_and!; [done|exact Hc|exact Honly].
  - exfalso. vm_compute in E. discriminate.
Defined.

Lemma reachable_pages_agree_witness :
  open_to server (§"notes") ann = true ∧ open_to server (§"portal") ann = false ∧
  ∃ names w', reachable_pages (λ _, None) (Some ann) server =
      (Ok (_ok [(§"pages", JArr (open_cards (λ _, None) server ann names))] None), w') ∧
    names ≡ₚ dkeys pages.
Proof.
  split_and!; [by vm_compute..|].
  destruct (reachable_pages_agree (λ _, None) ann server I) as (names & w' & Hr & Hn & _).
  exists names, w'. split; [exact Hr|exact Hn].
Defined.
End demo.
