(* ===== verification/AppPages.v ===== *)
(** * Serving recipe pages

    server/routes/app_pages.py: a page's configuration, its data files and its
    assets.  The gate's decision (zone and slot) is an argument; the recipe
    registry and the resolution of symbolic links are parameters. *)

From Stdlib Require Import QArith.
From S2P Require Import Prelude PyStr Json Env IpAddr Peer InvocationCtx AppState Publish RateLimit Password World Sessions Accounts Authn Security.
From stdpp Require Import prelude gmap list strings.

(** What the pages use of a recipe: whose front end it borrows, its directory
    ([base_dir], or the script's parent) and the inputs it declares. *)
Record recipe := { ui_from : option pystr; base_dir : path; inputs : dict pystr jdict }.

(** The registry's [find] ([None] is [RecipeNotFoundError]), and [Path.resolve],
    which follows symbolic links. *)
Class Installed := {
  find_recipe : pystr → option recipe;
  resolve : path → path;
}.

(** What the gate recorded on the request. *)
Record admitted_as := { a_zone : zone; a_slot : option pystr; a_identity : option pystr }.

Section pages.
Context `{Unicode, PyRepr, Clock, Crypto, Paths, UrlCoding, Framework, Installed}.
Implicit Types (w : world) (m : machine) (adm : admitted_as) (sc : scope).

(** ** Reading the decision (server/security.py) *)

Definition slot_for adm : option pystr :=
  match a_zone adm with ZPublic | ZIdentity => a_slot adm | _ => None end.
Definition is_owner_request adm : bool :=
  match a_zone adm with ZLocal | ZToken => true | _ => false end.

(** ** Helpers *)

Definition bad_name (name : pystr) : bool := has_char 47 name || contains (§"..") name.

Definition _assets_dir w (name : pystr) : res path :=
  if bad_name name then Raise (HTTPException 400 false)
  else match find_recipe name with
  | None => Raise (HTTPException 404 false)
  | Some r =>
      let owner := match ui_from r with Some ((_ :: _) as o) => o | _ => name end in
      r ← (if decide (owner = name) then Ok r
           else if bad_name owner then Raise (HTTPException 400 false)
           else match find_recipe owner with
                | None => Raise (HTTPException 404 false)
                | Some r => Ok r
                end);
      let assets := base_dir r ++ [§"assets"] in
      if decide (assets ∈ w_dirs w) then Ok assets else Raise (HTTPException 404 false)
  end.

(** [p.is_relative_to(base)]. *)
Definition is_relative_to (p base : path) : bool := bool_decide (base `prefix_of` p).

Definition _resolve_within (base : path) (relative : pystr) : res path :=
  let candidate := resolve (path_join base relative) in
  if is_relative_to candidate (resolve base) then Ok candidate
  else Raise (HTTPException 403 false).

(** [request.query_params.get("key")]: the last value given. *)
Definition query_key sc : option pystr := last (_query_values sc (§"key")).

Definition _slot_state m w sc adm (name : pystr) : res (pystr * jdict) :=
  let chosen :=
    match a_zone adm with
    | ZPublic | ZIdentity => slot_for adm
    | _ => query_key sc
    end in
  let key := match chosen with Some ((_ :: _) as k) => k | _ => DEFAULT_SLOT end in
  match read m (w_disk w) name key (bool_decide (a_zone adm = ZIdentity)) with
  | Ok state => Ok (key, state)
  | Raise InvalidSlotName => Raise (HTTPException 400 false)
  | Raise e => Raise e
  end.

(** ** The routes *)

(** [serve_app_root]: the redirect's target. *)
Definition serve_app_root w sc (name : pystr) : res pystr :=
  _assets_dir w name;;
  Ok (§"/app/" ++ name ++ §"/" ++ (match s_query sc with [] => [] | q => 63%N :: q end)).

Definition page_config (owner : bool) (name key : pystr) (state : jdict) : jdict :=
  let config := if owner then state else public_view state in
  let config := dset (§"apiBase") (if owner then JStr (§"/api") else JNull) config in
  let config := dset (§"readOnly") (JBool (negb owner)) config in
  let config := dset (§"recipeName") (JStr name) config in
  let config := dset (§"appBase") (JStr (§"/app/" ++ name ++ §"/")) config in
  dset (§"slot") (JStr key) config.

Definition serve_app_config m w sc adm (name : pystr) : res jdict :=
  _assets_dir w name;;
  ks ← _slot_state m w sc adm name;
  Ok (page_config (is_owner_request adm) name ks.1 ks.2).

(** The check that keeps one account's tree from another's page. *)
Definition account_check m (base : path) (key : pystr) : res unit :=
  if is_relative_to (resolve base) (resolve (AppState.user_state_dir m)) then
    match user_root m key with
    | Ok own => if is_relative_to (resolve base) (resolve own) then Ok tt else Raise (HTTPException 404 false)
    | Raise InvalidSlotName => Raise (HTTPException 404 false)
    | Raise e => Raise e
    end
  else Ok tt.

Definition serve_app_data m w sc adm (name file_path : pystr) : res path :=
  _assets_dir w name;;
  ks ← _slot_state m w sc adm name;
  match dget (§"dataDir") ks.2 with
  | None => Raise (HTTPException 404 false)
  | Some v =>
      if negb (truthy v) then Raise (HTTPException 404 false)
      else match v with
      | JStr data_dir =>
          let base := expand data_dir in
          (if decide (a_zone adm = ZIdentity) then account_check m base ks.1 else Ok tt);;
          if negb (bool_decide (base ∈ w_dirs w)) then Raise (HTTPException 404 false)
          else
            full_path ← _resolve_within base file_path;
            if decide (is_Some (w_disk w !! full_path)) then Ok full_path
            else Raise (HTTPException 404 false)
      | _ => Raise TypeError
      end
  end.

Definition serve_app_asset w (name file_path : pystr) : res path :=
  assets ← _assets_dir w name;
  full_path ← _resolve_within assets (match file_path with [] => §"index.html" | p => p end);
  let full_path := if decide (full_path ∈ w_dirs w) then full_path ++ [§"index.html"] else full_path in
  if decide (is_Some (w_disk w !! full_path)) then Ok full_path else Raise (HTTPException 404 false).

(** ** What a page reveals *)

Definition platform_keys : list pystr :=
  [§"apiBase"; §"readOnly"; §"recipeName"; §"appBase"; §"slot"].

Lemma page_config_get owner name key state k : k ∉ platform_keys →
  dget k (page_config owner name key state) =
    dget k (if owner then state else public_view state).
Proof.
  intros Hk. unfold page_config, platform_keys in *. rewrite !not_elem_of_cons in Hk.
  destruct Hk as (? & ? & ? & ? & ? & _). by rewrite !dget_dset_ne.
Qed.

Lemma page_config_fixed name key state :
  dget (§"apiBase") (page_config false name key state) = Some JNull ∧
  dget (§"readOnly") (page_config false name key state) = Some (JBool true) ∧
  dget (§"slot") (page_config false name key state) = Some (JStr key).
Proof.
  unfold page_config. split_and!; rewrite ?dget_dset_eq; [..|done];
    by repeat (rewrite dget_dset_eq || rewrite dget_dset_ne by done).
Qed.

(** The file a request's configuration comes from. *)
Definition config_source m sc adm (name : pystr) : res path :=
  let chosen := match a_zone adm with ZPublic | ZIdentity => slot_for adm | _ => query_key sc end in
  slot_path m name (match chosen with Some ((_ :: _) as k) => k | _ => DEFAULT_SLOT end)
    (bool_decide (a_zone adm = ZIdentity)).

(** The object a file holds, empty when it is missing or not an object. *)
Definition state_at w (p : path) : jdict := as_dict (w_disk w !! p ≫= f_doc).

(** C10. A visitor sees only what a recipe declared public, of one file.  For a
    request admitted in the public or identity zone, the configuration served is
    determined by the [public] block of the one slot file the gate's decision
    names: two states of the disk that agree on that block give the same answer,
    whatever else the file or any other file holds, and whatever [?key=] says.
    The API base is null and the page is told it is read-only. *)
Theorem visitor_config_noninterference m w w' sc sc' adm name p :
  is_owner_request adm = false → config_source m sc adm name = Ok p →
  w_dirs w' = w_dirs w →
  public_view (state_at w p) = public_view (state_at w' p) →
  serve_app_config m w sc adm name = serve_app_config m w' sc' adm name ∧
  (∀ config, serve_app_config m w sc adm name = Ok config →
     dget (§"apiBase") config = Some JNull ∧ dget (§"readOnly") config = Some (JBool true) ∧
     ∀ k, k ∉ platform_keys →
       dget k config = dget k (public_view (state_at w p))).
Proof.
  intros Ho Hp Hdirs Hagree.
  assert (Hz : a_zone adm = ZPublic ∨ a_zone adm = ZIdentity).
  { unfold is_owner_request in Ho. destruct (a_zone adm); auto; done. }
  set (key := match slot_for adm with Some ((_ :: _) as k) => k | _ => DEFAULT_SLOT end).
  assert (Hst : ∀ w0 sc0, _slot_state m w0 sc0 adm name =
    Ok (key, state_at w0 p)).
  { intros w0 sc0. unfold _slot_state, read. unfold config_source in Hp.
    destruct Hz as [Hz|Hz]; rewrite Hz in *; fold key in Hp; fold key; rewrite Hp; cbn;
      unfold state_at; by destruct (w_disk w0 !! p). }
  assert (Has : _assets_dir w' name = _assets_dir w name)
    by (unfold _assets_dir; by rewrite Hdirs).
  unfold serve_app_config. rewrite Has, !Hst, Ho.
  destruct (_assets_dir w name) as [a|]; [|by split]. cbn [mbind res_bind fst snd].
  split; [unfold page_config; by rewrite Hagree|]. intros config [= <-].
  destruct (page_config_fixed name key (state_at w p)) as (? & ? & _).
  split_and!; [done..|]. intros k Hk. by apply page_config_get.
Qed.

(** ** Whose files a page serves *)

Lemma prefix_comparable (a b p : path) : a `prefix_of` p → b `prefix_of` p →
  a `prefix_of` b ∨ b `prefix_of` a.
Proof. apply prefix_weak_total. Qed.

Lemma serve_app_data_ok m w sc adm name file_path p : serve_app_data m w sc adm name file_path = Ok p →
  ∃ key state data_dir, _slot_state m w sc adm name = Ok (key, state) ∧
    dget (§"dataDir") state = Some (JStr data_dir) ∧
    (a_zone adm = ZIdentity → account_check m (expand data_dir) key = Ok tt) ∧
    resolve (expand data_dir) `prefix_of` p ∧ is_Some (w_disk w !! p).
Proof.
  unfold serve_app_data. destruct (_assets_dir w name); [|done]. cbn [mbind res_bind].
  destruct (_slot_state m w sc adm name) as [[key state]|]; [|done]. cbn [mbind res_bind fst snd].
  destruct (dget (§"dataDir") state) as [v|] eqn:Ed; [|done]. destruct (truthy v); [|done]. cbn [negb].
  destruct v as [| | | |data_dir| |]; try done. intros Hs. exists key, state, data_dir. revert Hs.
  destruct (decide (a_zone adm = ZIdentity)) as [Hz|Hz].
  - destruct (account_check m (expand data_dir) key) as [[]|]; [|done]. cbn [mbind res_bind].
    destruct (bool_decide _); [|done]. cbn [negb]. unfold _resolve_within, is_relative_to.
    case_bool_decide as Hpre; [|done]. cbn [mbind res_bind]. case_decide; [|done]. intros [= <-].
    by split_and!.
  - cbn [mbind res_bind]. destruct (bool_decide _); [|done]. cbn [negb].
    unfold _resolve_within, is_relative_to. case_bool_decide as Hpre; [|done]. cbn [mbind res_bind].
    case_decide; [|done]. intros [= <-]. by split_and!.
Qed.

(** C19. One account's files are not served to another by way of their directories.
    Suppose the visitor's own directory is a real directory, not a link elsewhere.  Then a
    file served to a signed-in visitor is under the data directory their own slot
    declares, and it is under the directory of another account only if that data directory
    lies above the root of all accounts, which the route does not refuse; in particular it
    never is when the data directory is inside the accounts' root, as the one the run
    route declares is. *)
Theorem visitor_data_isolated m w sc adm name file_path p who other state data_dir :
  a_zone adm = ZIdentity → a_slot adm = Some who → valid_name who = true →
  _slot_state m w sc adm name = Ok (who, state) → dget (§"dataDir") state = Some (JStr data_dir) →
  let accounts := resolve (AppState.user_state_dir m) in
  resolve (AppState.user_state_dir m ++ [who]) = accounts ++ [who] →
  serve_app_data m w sc adm name file_path = Ok p →
  resolve (expand data_dir) `prefix_of` p ∧
  (other ≠ who → (accounts ++ [other]) `prefix_of` p → resolve (expand data_dir) `prefix_of` accounts) ∧
  (other ≠ who → ∀ x rest, resolve (expand data_dir) = accounts ++ x :: rest → ¬ (accounts ++ [other]) `prefix_of` p).
Proof.
  intros Hz Hslot Hv Hst Hd accounts Hreal Hs.
  apply serve_app_data_ok in Hs as (key & state' & dd & Hst' & Hd' & Hcheck & Hpre & _).
  rewrite Hst in Hst'. injection Hst' as <- <-. rewrite Hd in Hd'. injection Hd' as <-.
  assert (other ≠ who → (accounts ++ [other]) `prefix_of` p → resolve (expand data_dir) `prefix_of` accounts) as Hmain.
  { intros Hne Hother. specialize (Hcheck Hz). unfold account_check in Hcheck. fold accounts in Hcheck.
    assert (Hacc : accounts `prefix_of` p) by (by eapply prefix_app_l).
    destruct (prefix_comparable _ _ _ Hpre Hacc) as [|Hin]; [done|]. exfalso.
    unfold is_relative_to in Hcheck. rewrite bool_decide_eq_true_2 in Hcheck by done.
    unfold user_root, _validate in Hcheck. rewrite default_slot_valid, Hv in Hcheck. cbn in Hcheck.
    rewrite Hreal in Hcheck. case_bool_decide as Hown; [|done].
    assert (Hmine : (accounts ++ [who]) `prefix_of` p) by (by etrans).
    destruct Hother as [r1 ->], Hmine as [r2 E]. rewrite <- !app_assoc in E.
    apply app_inv_head in E. by injection E. }
  split; [done|]. split; [done|]. intros Hne x rest E Hother. specialize (Hmain Hne Hother). rewrite E in Hmain.
  apply prefix_length in Hmain. rewrite length_app in Hmain. cbn in Hmain. lia.
Qed.
End pages.

(** ** Evaluation on the small server *)
Section demo.
Import Demo.
#[local] Existing Instance url_plain.
#[local] Existing Instance small_framework.

(** Two installed recipes; no symbolic links. *)
Definition small_registry : Installed :=
  {| find_recipe name :=
       if decide (name ∈ [§"notes"; §"portal"]) then
         Some {| ui_from := None; base_dir := [§"recipes"; name];
                 inputs := [(§"count", [(§"type", JStr (§"number")); (§"max", JInt 10)])] |}
       else None;
     resolve p := p |}.
#[local] Existing Instance small_registry.

Definition demo_file (v : json) : file := {| f_doc := Some v; f_mtime := 0 |}.
Definition accounts_root : path := [§"home"; §"owner"; §".frago"; §"users"].

(** The server with the page's assets, Ann's slot whose [dataDir] is [data], and
    a file of hers and one of Bob's. *)
Definition demo_pages (data : path) : world :=
  {| w_users := w_users server; w_cache := None; w_sessions := []; w_limits := w_limits server;
     w_pub := w_pub server;
     w_disk := {[ accounts_root ++ [ann; §"state"; §"notes.json"] :=
                    demo_file (JObj [(§"dataDir", JStr (path_str data)); (§"secret", JInt 1);
                                     (§"public", JObj [(§"title", JStr (§"Notes"))])]);
                  accounts_root ++ [ann; §"data"; §"notes"; §"mine"] := demo_file JNull;
                  accounts_root ++ [§"bob"; §"diary"] := demo_file JNull ]};
     w_dirs := {[ [§"recipes"; §"notes"; §"assets"]; data ]}; w_token := None |}.
Definition ann_data : path := accounts_root ++ [ann; §"data"; §"notes"].
Definition as_ann : admitted_as :=
  {| a_zone := ZIdentity; a_slot := Some ann; a_identity := Some ann |}.

Lemma visitor_config_noninterference_witness :
  let sc := demo_get abroad (§"/app/notes/config") [] [] in
  let p := accounts_root ++ [ann; §"state"; §"notes.json"] in
  let other := demo_pages [§"elsewhere"] in
  let w' := {| w_users := None; w_cache := None; w_sessions := []; w_limits := w_limits server;
               w_pub := w_pub server; w_disk := w_disk other; w_dirs := w_dirs (demo_pages ann_data);
               w_token := None |} in
  (∃ config, serve_app_config (at_time 4 ∅) (demo_pages ann_data) sc as_ann (§"notes") = Ok config ∧
     dget (§"title") config = Some (JStr (§"Notes")) ∧ dget (§"secret") config = None) ∧
  serve_app_config (at_time 4 ∅) (demo_pages ann_data) sc as_ann (§"notes")
    = serve_app_config (at_time 4 ∅) w' sc as_ann (§"notes").
Proof.
  intros sc p other w'. split.
  - exists (value [] (serve_app_config (at_time 4 ∅) (demo_pages ann_data) sc as_ann (§"notes"))).
    split; vm_compute; [reflexivity|auto].
  - refine (proj1 (visitor_config_noninterference (at_time 4 ∅) (demo_pages ann_data) w' sc sc as_ann
      (§"notes") p _ _ _ _));
      [reflexivity|vm_compute; reflexivity|reflexivity|vm_compute; reflexivity].
Defined.

Lemma visitor_data_isolated_witness :
  let sc := demo_get abroad (§"/app/notes/data/mine") [] [] in
  serve_app_data (at_time 4 ∅) (demo_pages ann_data) sc as_ann (§"notes") (§"mine")
    = Ok (ann_data ++ [§"mine"]) ∧
  ¬ (accounts_root ++ [§"bob"]) `prefix_of` (ann_data ++ [§"mine"]).
Proof.
  intros sc.
  assert (Hs : serve_app_data (at_time 4 ∅) (demo_pages ann_data) sc as_ann (§"notes") (§"mine")
    = Ok (ann_data ++ [§"mine"])) by (vm_compute; reflexivity).
  split; [exact Hs|].
  assert (E : resolve (expand (path_str ann_data))
    = resolve (AppState.user_state_dir (at_time 4 ∅)) ++ ann :: [§"data"; §"notes"])
    by (vm_compute; reflexivity).
  refine (proj2 (proj2 (visitor_data_isolated (at_time 4 ∅) (demo_pages ann_data) sc as_ann (§"notes")
    (§"mine") _ ann (§"bob")
    (value ([], []) (_slot_state (at_time 4 ∅) (demo_pages ann_data) sc as_ann (§"notes"))).2
    (path_str ann_data) eq_refl eq_refl _ _ _ _ Hs)) _ _ _ E);
    try (vm_compute; reflexivity).
  apply (bool_decide_unpack _). vm_compute. exact I.
Defined.

(** The directory must not lie above the accounts: one that does, say the whole
    of [~/.frago], passes the check and serves Bob's file to Ann. *)
Lemma ancestor_data_dir_leaks :
  serve_app_data (at_time 4 ∅) (demo_pages [§"home"; §"owner"; §".frago"])
    (demo_get abroad (§"/app/notes/data/users/bob/diary") [] []) as_ann (§"notes") (§"users/bob/diary")
  = Ok (accounts_root ++ [§"bob"; §"diary"]).
Proof. vm_compute. reflexivity. Qed.
End demo.
