(* ===== verification/Params.v ===== *)
(** * Parameters a stranger may send

    recipes/metadata.py: [validate_params] with its type and value checks.  The
    loose reading serves the owner; the strict one, for parameters that arrived
    over HTTP, also refuses undeclared keys and enforces the constraints.  The
    regular-expression engine is the interface [Regex]. *)

From Stdlib Require Import QArith Lqa.
From S2P Require Import Prelude PyStr Json.
From stdpp Require Import prelude gmap list strings.

(** [re.fullmatch(pattern, value)]; [None] is [re.error]. *)
Class Regex := fullmatch : pystr → pystr → option bool.

(** ** Python equality of parsed documents

    Numbers compare by value across int, float and bool; objects ignore the
    order of their keys. *)
Definition number_of (v : json) : option Q :=
  match v with
  | JBool b => Some (if b then 1 else 0)%Q
  | JInt z => Some (inject_Z z)
  | JFloat q => Some q
  | _ => None
  end.

Fixpoint py_eq (a b : json) {struct a} : bool :=
  match number_of a, number_of b with
  | Some x, Some y => Qeq_bool x y
  | None, None =>
      match a, b with
      | JNull, JNull => true
      | JStr s, JStr t => bool_decide (s = t)
      | JArr l, JArr l' =>
          (fix go l l' := match l, l' with
             | [], [] => true
             | x :: l, y :: l' => py_eq x y && go l l'
             | _, _ => false
             end) l l'
      | JObj d, JObj d' =>
          Nat.eqb (length d) (length d') &&
          (fix go d := match d with
             | [] => true
             | (k, v) :: d =>
                 match dget k d' with Some v' => py_eq v v' | None => false end && go d
             end) d
      | _, _ => false
      end
  | _, _ => false
  end.

Inductive param_error :=
  | MissingParam (name : pystr)
  | Undeclared (name : pystr)
  | TypeMismatch (name : pystr)
  | NotInEnum (name : pystr)
  | TooLong (name : pystr)
  | NoMatch (name : pystr)
  | BadPattern (name : pystr)
  | BelowMin (name : pystr)
  | AboveMax (name : pystr).

Section params.
Context `{Regex}.
Implicit Types (name : pystr) (value : json) (param_def : jdict).

(** [len(value)], for the values that have one. *)
Definition py_len value : option Z :=
  match value with
  | JStr s => Some (Z.of_nat (length s))
  | JArr l => Some (Z.of_nat (length l))
  | JObj d => Some (Z.of_nat (length d))
  | _ => None
  end.

(** An [int], which a [bool] is. *)
Definition int_of_json (v : json) : option Z :=
  match v with JInt z => Some z | JBool b => Some (if b then 1 else 0)%Z | _ => None end.

Definition err (b : bool) (e : param_error) : list param_error := if b then [e] else [].

Definition check_param_constraints name value param_def : list param_error :=
  (match dget (§"enum") param_def with
   | Some (JArr ((_ :: _) as allowed)) => err (negb (existsb (py_eq value) allowed)) (NotInEnum name)
   | _ => []
   end) ++
  (match dget (§"max_length") param_def ≫= int_of_json, py_len value with
   | Some max_length, Some n => err (Z.ltb max_length n) (TooLong name)
   | _, _ => []
   end) ++
  (match dget (§"pattern") param_def, value with
   | Some (JStr ((_ :: _) as pattern)), JStr s =>
       match fullmatch pattern s with
       | Some true => []
       | Some false => [NoMatch name]
       | None => [BadPattern name]
       end
   | _, _ => []
   end) ++
  (match value with
   | JInt _ | JFloat _ =>
       match number_of value with
       | Some x =>
           (match dget (§"min") param_def ≫= number_of with
            | Some low => err (negb (Qle_bool low x)) (BelowMin name)
            | None => []
            end) ++
           (match dget (§"max") param_def ≫= number_of with
            | Some high => err (negb (Qle_bool x high)) (AboveMax name)
            | None => []
            end)
       | None => []
       end
   | _ => []
   end).

(** Whether a value has a type of that name; an unknown name admits anything. *)
Definition has_type (expected : pystr) value : bool :=
  if decide (expected = §"string") then match value with JStr _ => true | _ => false end
  else if decide (expected = §"number") then match value with JInt _ | JFloat _ => true | _ => false end
  else if decide (expected = §"boolean") then match value with JBool _ => true | _ => false end
  else if decide (expected = §"array") then match value with JArr _ => true | _ => false end
  else if decide (expected = §"object") then match value with JObj _ => true | _ => false end
  else true.

(** The lookup of the expected type in a dictionary raises on a list or object. *)
Definition check_param_type name value (expected : json) : res (list param_error) :=
  match expected with
  | JStr t => Ok (err (negb (has_type t value)) (TypeMismatch name))
  | JArr _ | JObj _ => Raise TypeError
  | _ => Ok []
  end.

Definition declared_type_errors name value param_def : res (list param_error) :=
  match dget (§"type") param_def with
  | Some expected_type =>
      if truthy expected_type then check_param_type name value expected_type else Ok []
  | None => Ok []
  end.

(** Errors of one provided parameter: the ones every caller gets, and the ones
    only a strict caller gets. *)
Definition param_errors (inputs : dict pystr jdict) name value
    : res (list param_error * list param_error) :=
  match dget name inputs with
  | None => Ok ([], [Undeclared name])
  | Some param_def =>
      type_errors ← declared_type_errors name value param_def;
      match type_errors with
      | _ :: _ => Ok (type_errors, [])
      | [] => Ok ([], check_param_constraints name value param_def)
      end
  end.

Fixpoint params_errors (inputs : dict pystr jdict) (params : jdict)
    : res (list param_error * list param_error) :=
  match params with
  | [] => Ok ([], [])
  | (name, value) :: params =>
      e ← param_errors inputs name value;
      es ← params_errors inputs params;
      Ok (e.1 ++ es.1, e.2 ++ es.2)
  end.

Definition missing_params (inputs : dict pystr jdict) (params : jdict) : list param_error :=
  omap (λ nd : pystr * jdict,
    if bool_field (§"required") nd.2 && negb (dmem nd.1 params) then Some (MissingParam nd.1) else None)
    inputs.

Definition validate_params (inputs : dict pystr jdict) (params : jdict) (strict : bool) : res unit :=
  es ← params_errors inputs params;
  match missing_params inputs params ++ es.1 ++ (if strict then es.2 else []) with
  | [] => Ok tt
  | _ => Raise RecipeValidationError
  end.

(** ** What acceptance means *)

(** The declared type, when there is one, is a name the value belongs to. *)
Definition well_typed param_def value : Prop :=
  ∀ t, dget (§"type") param_def = Some t → truthy t = true →
    match t with
    | JStr s => has_type s value = true
    | JArr _ | JObj _ => False
    | _ => True
    end.

(** The declared constraints hold, each read the way its author meant it. *)
Record satisfies param_def value : Prop := {
  sat_enum : ∀ allowed, dget (§"enum") param_def = Some (JArr allowed) → allowed ≠ [] →
    ∃ v, v ∈ allowed ∧ py_eq value v = true;
  sat_length : ∀ m z n, dget (§"max_length") param_def = Some m → int_of_json m = Some z →
    py_len value = Some n → (n <= z)%Z;
  sat_pattern : ∀ p s, dget (§"pattern") param_def = Some (JStr p) → p ≠ [] → value = JStr s →
    fullmatch p s = Some true;
  sat_min : ∀ m low x, has_type (§"number") value = true → number_of value = Some x →
    dget (§"min") param_def = Some m → number_of m = Some low → (low <= x)%Q;
  sat_max : ∀ m high x, has_type (§"number") value = true → number_of value = Some x →
    dget (§"max") param_def = Some m → number_of m = Some high → (x <= high)%Q;
}.

Lemma err_nil b e : err b e = [] ↔ b = false.
Proof. by destruct b. Qed.


Lemma enum_nil name value param_def :
  match dget (§"enum") param_def with
  | Some (JArr ((_ :: _) as allowed)) => err (negb (existsb (py_eq value) allowed)) (NotInEnum name)
  | _ => []
  end = [] ↔
  ∀ allowed, dget (§"enum") param_def = Some (JArr allowed) → allowed ≠ [] →
    ∃ v, v ∈ allowed ∧ py_eq value v = true.
Proof.
  destruct (dget (§"enum") param_def) as [v|]; [|done].
  destruct v as [| | | | |l|]; try (split; [intros _ ? ?; simplify_eq|done]).
  destruct l as [|x l]; [split; [intros _ ? [= <-] ?; done|done]|].
  rewrite err_nil, negb_false_iff, existsb_exists. setoid_rewrite <- list_elem_of_In.
  split; [by intros ? ? [= <-] _|]. intros Hall. by apply Hall.
Qed.

Lemma length_nil name value param_def :
  match dget (§"max_length") param_def ≫= int_of_json, py_len value with
  | Some max_length, Some n => err (Z.ltb max_length n) (TooLong name)
  | _, _ => []
  end = [] ↔
  ∀ m z n, dget (§"max_length") param_def = Some m → int_of_json m = Some z →
    py_len value = Some n → (n <= z)%Z.
Proof.
  destruct (dget (§"max_length") param_def) as [m|]; cbn; [|by split].
  destruct (int_of_json m) as [z|] eqn:Ez; [|by split; [intros _ ? ? ? [= <-]; congruence|]].
  destruct (py_len value) as [n|]; [|by split].
  rewrite err_nil, Z.ltb_ge. split; [|eauto]. intros Hle m' z' n' [= <-] Hz [= <-]. congruence.
Qed.

Lemma pattern_nil name value param_def :
  match dget (§"pattern") param_def, value with
  | Some (JStr ((_ :: _) as pattern)), JStr s =>
      match fullmatch pattern s with
      | Some true => []
      | Some false => [NoMatch name]
      | None => [BadPattern name]
      end
  | _, _ => []
  end = [] ↔
  ∀ p s, dget (§"pattern") param_def = Some (JStr p) → p ≠ [] → value = JStr s →
    fullmatch p s = Some true.
Proof.
  destruct (dget (§"pattern") param_def) as [v|]; [|done].
  destruct v as [| | | |p| |]; try (split; [intros _ ? ? ?; simplify_eq|done]).
  destruct p as [|x p]; [by split; [intros _ ? ? [= <-] ?|]|].
  destruct value as [| | | |s| |]; try (by split; [intros _ ? ? _ _ ?|]).
  split.
  - destruct (fullmatch (x :: p) s) as [[]|] eqn:Ef; [|done..]. intros _ p' s' [= <-] _ [= <-]. done.
  - intros Hall. by rewrite (Hall _ s eq_refl).
Qed.

Lemma bounds_nil name value param_def :
  match value with
  | JInt _ | JFloat _ =>
      match number_of value with
      | Some x =>
          (match dget (§"min") param_def ≫= number_of with
           | Some low => err (negb (Qle_bool low x)) (BelowMin name)
           | None => []
           end) ++
          (match dget (§"max") param_def ≫= number_of with
           | Some high => err (negb (Qle_bool x high)) (AboveMax name)
           | None => []
           end)
      | None => []
      end
  | _ => []
  end = [] ↔
  (∀ m low x, has_type (§"number") value = true → number_of value = Some x →
    dget (§"min") param_def = Some m → number_of m = Some low → (low <= x)%Q) ∧
  (∀ m high x, has_type (§"number") value = true → number_of value = Some x →
    dget (§"max") param_def = Some m → number_of m = Some high → (x <= high)%Q).
Proof.
  assert (Hnum : ∀ v, has_type (§"number") v = match v with JInt _ | JFloat _ => true | _ => false end)
    by done.
  rewrite Hnum. destruct value; try (by split; [split; intros; done|]);
    cbn [number_of]; rewrite app_nil_iff; (apply and_iff_compat'; [|]) || f_equiv.
  all: destruct (dget _ param_def) as [m|]; cbn; [|by split; [intros _ ? ? ? _ _ ?|]].
  all: destruct (number_of m) as [y|] eqn:Ey; [|by split; [intros _ ? ? ? _ _ [= <-]; congruence|]].
  all: rewrite err_nil, negb_false_iff, Qle_bool_iff.
  all: split; [intros Hle m' y' x' _ [= <-] [= <-] Hy; congruence|eauto].
Qed.

Lemma constraints_nil name value param_def :
  check_param_constraints name value param_def = [] ↔ satisfies param_def value.
Proof.
  unfold check_param_constraints.
  rewrite !app_nil_iff, enum_nil, length_nil, pattern_nil, bounds_nil. split.
  - intros (? & ? & ? & ? & ?). by constructor.
  - intros []. auto 10.
Qed.

Lemma declared_type_nil name value param_def :
  declared_type_errors name value param_def = Ok [] ↔ well_typed param_def value.
Proof.
  unfold declared_type_errors, well_typed.
  destruct (dget (§"type") param_def) as [t|]; [|done].
  destruct (truthy t) eqn:Et; [|by split; [intros _ ? [= <-]; congruence|]].
  transitivity (match t with JStr s => has_type s value = true | JArr _ | JObj _ => False | _ => True end).
  - destruct t as [| | | |s| |]; cbn; try (by split); try done.
    destruct (has_type s value); cbn; by split.
  - split; [by intros ? ? [= <-]|]. intros Hw. by apply Hw.
Qed.

(** What a caller has to get right, for one provided parameter. *)
Definition acceptable (strict : bool) (inputs : dict pystr jdict) name value : Prop :=
  match dget name inputs with
  | None => strict = false
  | Some param_def => well_typed param_def value ∧ (strict = true → satisfies param_def value)
  end.

(** The complaints a caller of that strictness hears. *)
Definition heard (strict : bool) (es : list param_error * list param_error) : list param_error :=
  es.1 ++ (if strict then es.2 else []).

Lemma param_errors_spec strict inputs name value :
  (∃ es, param_errors inputs name value = Ok es ∧ heard strict es = []) ↔
  acceptable strict inputs name value.
Proof.
  unfold param_errors, acceptable, heard. destruct (dget name inputs) as [pd|].
  2:{ split; [by intros (? & [= <-] & ?); destruct strict|intros ->; eauto]. }
  rewrite <- (declared_type_nil name), <- (constraints_nil name).
  destruct (declared_type_errors name value pd) as [[|e te]|] eqn:Et; cbn.
  - split.
    + intros (? & [= <-] & Hs). split; [done|]. by intros ->.
    + intros [_ Hs]. eexists. split; [done|]. destruct strict; [by rewrite Hs|done].
  - split; [by intros (? & [= <-] & ?)|by intros [? _]].
  - split; [by intros (? & ? & _)|by intros [? _]].
Qed.

Lemma heard_app strict e es :
  heard strict (e.1 ++ es.1, e.2 ++ es.2) = [] ↔ heard strict e = [] ∧ heard strict es = [].
Proof. unfold heard. destruct strict; cbn; rewrite !app_nil_iff; tauto. Qed.

Lemma params_errors_spec strict inputs params :
  (∃ es, params_errors inputs params = Ok es ∧ heard strict es = []) ↔
  Forall (λ p, acceptable strict inputs p.1 p.2) params.
Proof.
  induction params as [|[name value] params IH].
  { split; [constructor|]. intros _. exists ([], []). by destruct strict. }
  rewrite Forall_cons, <- IH, <- (param_errors_spec strict inputs name value). cbn.
  destruct (param_errors inputs name value) as [e|x]; cbn.
  2:{ split; [by intros (? & ? & _)|by intros [(? & ? & _) _]]. }
  destruct (params_errors inputs params) as [es|x]; cbn.
  2:{ split; [by intros (? & ? & _)|by intros [_ (? & ? & _)]]. }
  split.
  - intros (? & [= <-] & Hh). apply heard_app in Hh as [??]. split; eexists; eauto.
  - intros [(? & [= <-] & ?) (? & [= <-] & ?)]. eexists. split; [done|]. by apply heard_app.
Qed.

Lemma missing_nil inputs params :
  missing_params inputs params = [] ↔
  Forall (λ nd, bool_field (§"required") nd.2 = true → dmem nd.1 params = true) inputs.
Proof.
  unfold missing_params. induction inputs as [|[n d] inputs IH]; [by split; [constructor|]|].
  rewrite Forall_cons, <- IH. cbn.
  destruct (bool_field _ d), (dmem n params); cbn; naive_solver.
Qed.

(** [validate_params] accepts exactly the parameters that meet the
    recipe's declaration.  Every required input is present and every provided
    one has its declared type; for a strict caller every provided name is also
    declared and meets its enumeration, length, pattern and range.  Nothing else
    is accepted, and nothing that conforms is refused. *)
Theorem validate_params_iff inputs params strict :
  validate_params inputs params strict = Ok tt ↔
  Forall (λ nd, bool_field (§"required") nd.2 = true → dmem nd.1 params = true) inputs ∧
  Forall (λ p, acceptable strict inputs p.1 p.2) params.
Proof.
  rewrite <- missing_nil, <- params_errors_spec. unfold validate_params, heard.
  destruct (params_errors inputs params) as [es|x]; cbn; [|naive_solver].
  destruct (_ ++ _) eqn:E; cbn.
  - rewrite app_nil_iff in E. naive_solver.
  - split; [done|]. intros [Hm (? & [= <-] & Hs)]. by rewrite Hm, Hs in E.
Qed.

(** The strict reading refuses at least what the loose one refuses. *)
Lemma validate_strict_loose inputs params :
  validate_params inputs params true = Ok tt → validate_params inputs params false = Ok tt.
Proof.
  unfold validate_params. destruct (params_errors inputs params) as [es|x]; cbn; [|done].
  destruct (missing_params inputs params); [|done]. by destruct es as [[|??] ?].
Qed.
End params.
