(* ===== verification/AppRun.v ===== *)
(** * Runs started by a visitor

    server/routes/app_run.py, the one route on which a signed-in visitor makes
    the server start a process, and the visitor pool of recipes/background.py.
    A run is a job of the pool: it is added when the route accepts a request and
    removed when its worker finishes. *)

From Stdlib Require Import QArith.
From S2P Require Import Prelude PyStr Json Env IpAddr Peer InvocationCtx AppState Publish RateLimit Password World Sessions Accounts Authn Security AuthRoutes AppPages Params.
From stdpp Require Import prelude gmap list strings.

(** One call's surroundings: the machine, and whether each of its side effects
    succeeds: the slot file, the data directory, the state file in it, and
    handing work to the executor. *)
Record run_call := {
  rc :> machine;
  publish_io : bool;
  mkdir_io : bool;
  state_io : bool;
  submit_io : bool;
}.

(** A run's key: the recipe and the account. *)
Abbreviation run_key := (pystr * pystr)%type.

(** What a worker was handed; [j_claimed] is the moment its claim was taken. *)
Record job := {
  j_params : jdict;
  j_ctx : InvocationContext;
  j_key : run_key;
  j_dir : path;
  j_timeout : option Z;
  j_claimed : Z;
}.

(** The route's part of the process: the claims with their deadlines, the free
    slots of the visitor pool, the jobs on it. *)
Record runs := {
  r_world : world;
  _running : dict run_key Z;
  _visitor_slots : nat;
  r_jobs : list job;
}.

Definition set_running (s : runs) (d : dict run_key Z) : runs :=
  {| r_world := r_world s; _running := d; _visitor_slots := _visitor_slots s; r_jobs := r_jobs s |}.
Definition set_run_world (s : runs) (w : world) : runs :=
  {| r_world := w; _running := _running s; _visitor_slots := _visitor_slots s; r_jobs := r_jobs s |}.
Definition set_pool (s : runs) (free : nat) (jobs : list job) : runs :=
  {| r_world := r_world s; _running := _running s; _visitor_slots := free; r_jobs := jobs |}.
Definition set_files (w : world) (disk : fs) (dirs : gset path) : world :=
  {| w_users := w_users w; w_cache := w_cache w; w_sessions := w_sessions w;
     w_limits := w_limits w; w_pub := w_pub w; w_disk := disk; w_dirs := dirs;
     w_token := w_token w |}.

Definition on_run_world {A} (f : M world A) : M runs A := λ s,
  let '(r, w) := f (r_world s) in (r, set_run_world s w).
Definition on_disk {A} (f : M fs A) : M world A := λ w,
  let '(r, d) := f (w_disk w) in (r, set_files w d (w_dirs w)).

Section runs.
Context `{Unicode, PyRepr, Clock, Crypto, Paths, UrlCoding, Framework, Installed, Regex}.
Implicit Types (s : runs) (c : run_call) (rq : request) (adm : admitted_as) (name : pystr).

(** ** Claims *)

Definition MAX_RUNS_PER_ACCOUNT : nat := 1.
Definition MAX_VISITOR_WORKERS : nat := 2.
Definition RUN_STATE_FILE : pystr := §"run.json".

(** In microseconds; [timeout or 300]. *)
Definition _gate_ttl (timeout : option Z) : Z :=
  let t := match timeout with None => 300 | Some t => if Z.eqb t 0 then 300 else t end%Z in
  ((t * 2 + 60) * 1000000)%Z.

Definition _account_at_limit (running : dict run_key Z) (identity : pystr) (now : Z)
    (besides : run_key) : bool :=
  bool_decide (MAX_RUNS_PER_ACCOUNT ≤
    length (filter (λ kd : run_key * Z, kd.1 ≠ besides ∧ kd.1.2 = identity ∧ (now < kd.2)%Z) running)).

Definition _claim (now : Z) (key : run_key) (timeout : option Z) : M runs bool := λ s,
  let held := match dget key (_running s) with Some d => bool_decide (now < d)%Z | None => false end in
  if held then (Ok false, s)
  else if _account_at_limit (_running s) key.2 now key then (Ok false, s)
  else (Ok true, set_running s (dset key (now + _gate_ttl timeout)%Z (_running s))).

Definition _release (key : run_key) : M runs unit :=
  modify (λ s, set_running s (ddel key (_running s))).

(** ** The state file the page polls *)

(** A directory and the ones above it. *)
Fixpoint ancestry (above rest : path) : list path :=
  match rest with
  | [] => [above]
  | x :: rest => above :: ancestry (above ++ [x]) rest
  end.

Definition _write_run_state c (dir : path) (fields : jdict) : M runs unit := λ s,
  let w := r_world s in
  if mkdir_io c then
    let dirs := w_dirs w ∪ list_to_set (ancestry [] dir) in
    if state_io c then
      let payload := foldl (λ d kv, dset kv.1 kv.2 d) [(§"updated", JStr (iso_stamp (wall c)))] fields in
      let f := {| f_doc := Some (JObj payload); f_mtime := wall c |} in
      (Ok tt, set_run_world s (set_files w (<[dir ++ [RUN_STATE_FILE] := f]> (w_disk w)) dirs))
    else (Ok tt, set_run_world s (set_files w (w_disk w) dirs))
  else (Ok tt, s).

Definition running_state c : jdict :=
  [(§"state", JStr (§"running")); (§"started", JStr (iso_stamp (wall c))); (§"error", JNull)].
Definition final_state c (state : pystr) (error : json) : jdict :=
  [(§"state", JStr state); (§"finished", JStr (iso_stamp (wall c))); (§"error", error)].

(** What a visitor is told, by the exception's class name. *)
Definition _visitor_error (cls : pystr) : pystr :=
  if decide (cls = §"TimeoutError") then §"the run took too long and was stopped"
  else if decide (cls = §"RecipeValidationError") then §"the recipe refused these parameters"
  else §"the run failed".

(** ** The visitor pool (recipes/background.py) *)

Definition submit_visitor_run c (work : job) : M runs unit := λ s,
  match _visitor_slots s with
  | O => (Raise RuntimeError, s)
  | S free =>
      if submit_io c then (Ok tt, set_pool s free (r_jobs s ++ [work]))
      else (Raise RuntimeError, s)
  end.

(** The worker's part, once the recipe has ended: [outcome] is the class name of
    what it raised, [None] when it returned.  The slot is released last. *)
Definition finish_run c (i : nat) (outcome : option pystr) : M runs unit := λ s,
  match r_jobs s !! i with
  | None => (Ok tt, s)
  | Some j =>
      (_write_run_state c (j_dir j)
         (match outcome with
          | None => final_state c (§"done") JNull
          | Some cls => final_state c (§"failed") (JStr (_visitor_error cls))
          end);;
       _release (j_key j);;
       modify (λ s, set_pool s (S (_visitor_slots s)) (delete i (r_jobs s)))) s
  end.

(** ** The route *)

Definition _submit c (work : job) : M runs unit :=
  try_except (λ _, true) (submit_visitor_run c work)
    (λ _, _release (j_key work);;
          _write_run_state c (j_dir work)
            (final_state c (§"failed") (JStr (§"the server is too busy")));;
          raise (HTTPException 503 true)).

(** The body's [params], or the refusal of a body that has none to give. *)
Definition params_of rq : res jdict :=
  body ← (if (rq_length rq =? 0)%N then Ok (JObj [])
          else match rq_json rq with
               | Some v => Ok v
               | None => Raise (HTTPException 400 true)
               end);
  match body with
  | JObj body =>
      let params := match dget (§"params") body with
                    | Some v => if truthy v then v else JObj []
                    | None => JObj []
                    end in
      match params with
      | JObj params => Ok params
      | _ => Raise (HTTPException 400 true)
      end
  | _ => Raise (HTTPException 400 true)
  end.

Definition checked_params (r : recipe) (params : jdict) : res unit :=
  match validate_params (inputs r) params true with
  | Raise RecipeValidationError => Raise (HTTPException 400 true)
  | x => x
  end.

(** The slot file and the first run state, written before the recipe starts. *)
Definition prepare c name (identity : pystr) (dir : path) : M runs unit :=
  (if publish_io c then
     on_run_world (on_disk (AppState.publish c name [(§"dataDir", JStr (path_str dir))] identity true))
   else raise OSError);;
  _write_run_state c dir (running_state c).

(** [RecipeMetadata] has no [timeout], so the route always reads [None]. *)
Definition run_timeout : option Z := None.

Definition visitor_job c name (identity : pystr) (params : jdict) (dir : path) : job :=
  {| j_params := params;
     j_ctx := {| caller := VISITOR; slot := Some identity; data_dir := Some dir |};
     j_key := (name, identity); j_dir := dir; j_timeout := run_timeout; j_claimed := wall c |}.

(** The route's checks, up to the visitor's data directory. *)
Definition admit_run c rq adm name : M runs (pystr * jdict * path) :=
  if decide (a_zone adm ≠ ZIdentity) then raise (HTTPException 401 false)
  else
    let identity := slot_for adm in
    entry ← on_run_world (on_pub (published_entry name));
    let runnable := match entry with Some e => bool_field (§"runnable") e | None => false end in
    if negb (runnable && allows entry identity) then raise (HTTPException 404 false)
    else
    match find_recipe name with
    | None => raise (HTTPException 404 false)
    | Some recipe =>
        params ← lift_res (params_of rq);
        lift_res (checked_params recipe params);;
        let identity := default [] identity in
        dir ← lift_res (user_data_dir c identity name);
        mret (identity, params, dir)
    end.

(** The rest: the claim, the files, the hand-over to the pool. *)
Definition start_run c name (identity : pystr) (params : jdict) (dir : path) : M runs unit :=
  let key := (name, identity) in
  claimed ← _claim (wall c) key run_timeout;
  if negb claimed then raise (HTTPException 409 true)
  else
    try_except (λ _, true) (prepare c name identity dir)
      (λ _, _release key;; raise (HTTPException 500 false));;
    _submit c (visitor_job c name identity params dir).

(** Returning is the 202 answer. *)
Definition run_for_visitor c rq adm name : M runs unit :=
  ready ← admit_run c rq adm name;
  start_run c name ready.1.1 ready.1.2 ready.2.

(** ** What the checks establish *)

(** A request in order: the gate admitted an account, the page is open to it
    for running, and the parameters are ones the recipe declares. *)
Record run_ready c rq adm name s (uid : pystr) (params : jdict) (dir : path) : Prop := {
  ready_zone : a_zone adm = ZIdentity;
  ready_who : a_slot adm = Some uid;
  ready_page : ∃ entry pub', published_entry name (w_pub (r_world s)) = (Ok (Some entry), pub') ∧
    bool_field (§"runnable") entry = true ∧ allows (Some entry) (Some uid) = true;
  ready_params : ∃ r, find_recipe name = Some r ∧ params_of rq = Ok params ∧
    validate_params (inputs r) params true = Ok tt;
  ready_dir : user_data_dir c uid name = Ok dir;
}.

(** The claims, the slots and the jobs are the same. *)
Definition same_runs s s' : Prop :=
  _running s' = _running s ∧ _visitor_slots s' = _visitor_slots s ∧ r_jobs s' = r_jobs s.

Lemma same_runs_trans s1 s2 s3 : same_runs s1 s2 → same_runs s2 s3 → same_runs s1 s3.
Proof. unfold same_runs. intros (-> & -> & ->) (-> & -> & ->). done. Qed.

Lemma checked_params_ok r params :
  checked_params r params = Ok tt ↔ validate_params (inputs r) params true = Ok tt.
Proof. unfold checked_params. destruct (validate_params _ _ _) as [[]|[]]; done. Qed.

Lemma admit_run_frame c rq adm name s : same_runs s (admit_run c rq adm name s).2.
Proof.
  unfold admit_run. case_decide; [by split_and!|].
  unfold mbind, M_bind, on_run_world, on_pub. destruct (published_entry _ _) as [[e|] p]; [|by split_and!].
  destruct (negb _); [by split_and!|]. destruct (find_recipe name); [|by split_and!].
  unfold lift_res. destruct (params_of rq); [|by split_and!].
  destruct (checked_params _ _); [|by split_and!]. destruct (user_data_dir _ _ _); by split_and!.
Qed.

Lemma admit_run_iff c rq adm name s uid params dir :
  (admit_run c rq adm name s).1 = Ok (uid, params, dir) ↔ run_ready c rq adm name s uid params dir.
Proof.
  unfold admit_run. case_decide as Hz.
  { split; [done|]. by intros []. }
  unfold slot_for. rewrite Hz.
  unfold mbind, M_bind, on_run_world, on_pub.
  destruct (published_entry _ _) as [[e|x] p] eqn:Ep.
  2:{ split; [done|]. intros [_ _ (? & ? & ? & _) _ _]. congruence. }
  split.
  - destruct (negb _) eqn:En; [done|]. apply negb_false_iff, andb_true_iff in En as [Hr Ha].
    destruct e as [e|]; [|done]. destruct (a_slot adm) as [who|] eqn:Hwho; [|done].
    destruct (find_recipe name) as [r|] eqn:Ef; [|done]. unfold lift_res.
    destruct (params_of rq) as [ps|] eqn:Eb; [|done].
    destruct (checked_params r ps) as [[]|] eqn:Ec; [|done]. apply checked_params_ok in Ec.
    destruct (user_data_dir _ _ _) as [d|] eqn:Ed; [|done]. cbn. intros [= <- <- <-].
    constructor; eauto 10.
  - intros [_ Hw (e' & p' & Hp & Hr & Ha) (r & Hf & Hb & Hv) Hd].
    rewrite Hp in Ep. injection Ep as <- <-. rewrite Hw, Hr, Ha, Hf. unfold lift_res. rewrite Hb.
    apply checked_params_ok in Hv. rewrite Hv. cbn. by rewrite Hd.
Qed.

(** ** Starting *)

(** Nobody holds a live claim for this account. *)
Definition claimable s (now : Z) (uid : pystr) : Prop :=
  Forall (λ kd : run_key * Z, kd.1.2 = uid → (kd.2 <= now)%Z) (_running s).

Lemma at_limit_false running uid now key :
  _account_at_limit running uid now key = false ↔
  Forall (λ kd : run_key * Z, kd.1 ≠ key → kd.1.2 = uid → (kd.2 <= now)%Z) running.
Proof.
  unfold _account_at_limit, MAX_RUNS_PER_ACCOUNT. rewrite bool_decide_eq_false, Nat.nle_gt, Nat.lt_1_r.
  rewrite length_zero_iff_nil, Forall_forall. split.
  - intros Hn kd Hin Hk Hu. destruct (decide (kd.2 <= now)%Z) as [|Hlt]; [done|].
    exfalso. assert (Hf : kd ∈ filter (λ kd : run_key * Z,
      kd.1 ≠ key ∧ kd.1.2 = uid ∧ (now < kd.2)%Z) running).
    { apply list_elem_of_filter. split_and!; [done..|lia|done]. }
    rewrite Hn in Hf. by apply elem_of_nil in Hf.
  - intros Hall. destruct (filter _ running) as [|kd l] eqn:Ef; [done|]. exfalso.
    assert (Hf : kd ∈ kd :: l) by (by left).
    rewrite <- Ef in Hf. apply list_elem_of_filter in Hf as [(Hk & Hu & Hlt) Hin].
    specialize (Hall kd Hin Hk Hu). lia.
Qed.

Lemma claim_run now key timeout s : dict_wf (_running s) →
  (claimable s now key.2 ∧
     _claim now key timeout s =
       (Ok true, set_running s (dset key (now + _gate_ttl timeout)%Z (_running s)))) ∨
  (¬ claimable s now key.2 ∧ _claim now key timeout s = (Ok false, s)).
Proof.
  intros Hwf. unfold _claim, claimable.
  destruct (match dget key (_running s) with Some d => _ | None => _ end) eqn:Eh.
  { right. split; [|done]. intros Hall. destruct (dget key (_running s)) as [d|] eqn:Ed; [|done].
    apply bool_decide_eq_true in Eh. apply dget_Some_elem in Ed. rewrite Forall_forall in Hall.
    specialize (Hall _ Ed eq_refl). simpl in Hall. lia. }
  destruct (_account_at_limit _ _ _ _) eqn:El; [right|left]; (split; [|done]).
  - intros Hall. apply not_false_iff_true in El. apply El, at_limit_false.
    eapply Forall_impl; [done|]. naive_solver.
  - apply at_limit_false in El. rewrite Forall_forall in *. intros [k d] Hin Hu.
    destruct (decide (k = key)) as [->|Hk]; [|by apply (El _ Hin)].
    rewrite (dget_elem key d) in Eh by done. apply bool_decide_eq_false in Eh. simpl. lia.
Qed.

Lemma write_run_state_frame c dir fields s :
  ∃ s', _write_run_state c dir fields s = (Ok tt, s') ∧ same_runs s s'.
Proof.
  unfold _write_run_state. destruct (mkdir_io c), (state_io c); eexists; split; done.
Qed.

Lemma prepare_frame c name uid dir s : same_runs s (prepare c name uid dir s).2.
Proof.
  unfold prepare, mbind, M_bind. destruct (publish_io c); [|done].
  unfold on_run_world, on_disk. destruct (AppState.publish _ _ _ _ _ _) as [[p|] d]; [|done].
  edestruct write_run_state_frame as (s' & -> & ?). done.
Qed.

(** On the server's own account the preparation fails only with the disk. *)
Lemma prepare_ok c name uid dir s :
  current (environ c) = Ok OWNER_CONTEXT → user_data_dir c uid name = Ok dir →
  ((prepare c name uid dir s).1 = Ok tt ↔ publish_io c = true).
Proof.
  intros Hc Hd. unfold prepare, mbind, M_bind. destruct (publish_io c); [|by split].
  unfold on_run_world, on_disk, AppState.publish, mbind, M_bind, lift_res. rewrite Hc.
  change (is_visitor OWNER_CONTEXT) with false. cbv iota.
  unfold user_data_dir in Hd. destruct (_validate name uid) as [[]|] eqn:Ev; [|done].
  apply validate_ok in Ev as [Hn Hu].
  unfold slot_path, user_root, _validate. rewrite Hn, Hu, default_slot_valid. cbn.
  by edestruct write_run_state_frame as (s' & -> & ?).
Qed.

(** Handing the job over: a slot is taken, or the claim is given back. *)
Lemma submit_cases c j s :
  (submit_io c = true ∧ _visitor_slots s ≠ 0 ∧
   _submit c j s = (Ok tt, set_pool s (pred (_visitor_slots s)) (r_jobs s ++ [j]))) ∨
  (¬ (submit_io c = true ∧ _visitor_slots s ≠ 0) ∧ ∃ s',
   _submit c j s = (Raise (HTTPException 503 true), s') ∧
   _running s' = ddel (j_key j) (_running s) ∧
   _visitor_slots s' = _visitor_slots s ∧ r_jobs s' = r_jobs s).
Proof.
  unfold _submit, try_except, submit_visitor_run.
  assert (Hno : ∃ s', (_release (j_key j);;
      _write_run_state c (j_dir j) (final_state c (§"failed") (JStr (§"the server is too busy")));;
      raise (HTTPException 503 true)) s = (Raise (A:=unit) (HTTPException 503 true), s') ∧
    _running s' = ddel (j_key j) (_running s) ∧
    _visitor_slots s' = _visitor_slots s ∧ r_jobs s' = r_jobs s).
  { unfold mbind, M_bind, _release, modify, raise.
    edestruct write_run_state_frame as (s' & -> & ? & ? & ?). by eexists. }
  destruct (_visitor_slots s) as [|free] eqn:Ef; [right; split; [naive_solver|done]|].
  destruct (submit_io c); [by left|right; split; [naive_solver|done]].
Qed.

(** What a call to [start_run] leaves behind. *)
Definition started c name (uid : pystr) (params : jdict) (dir : path) s s' : Prop :=
  _running s' = dset (name, uid) (wall c + _gate_ttl run_timeout)%Z (_running s) ∧
  _visitor_slots s = S (_visitor_slots s') ∧
  r_jobs s' = r_jobs s ++ [visitor_job c name uid params dir].

Definition not_started c name (uid : pystr) s s' : Prop :=
  _visitor_slots s' = _visitor_slots s ∧ r_jobs s' = r_jobs s ∧
  (_running s' = _running s ∨
   claimable s (wall c) uid ∧
   _running s' = ddel (name, uid) (dset (name, uid) (wall c + _gate_ttl run_timeout)%Z (_running s))).

Lemma start_run_cases c name uid params dir s : dict_wf (_running s) →
  current (environ c) = Ok OWNER_CONTEXT → user_data_dir c uid name = Ok dir →
  let '(r, s') := start_run c name uid params dir s in
  (r = Ok tt ∧ claimable s (wall c) uid ∧ publish_io c = true ∧ submit_io c = true ∧
   started c name uid params dir s s') ∨
  (r ≠ Ok tt ∧ not_started c name uid s s' ∧
   ¬ (claimable s (wall c) uid ∧ publish_io c = true ∧ submit_io c = true ∧ _visitor_slots s ≠ 0)).
Proof.
  intros Hwf Hc Hd. unfold start_run, mbind at 1, M_bind at 1.
  destruct (claim_run (wall c) (name, uid) run_timeout s Hwf) as [[Hcl ->]|[Hcl ->]]; cbn [negb].
  2:{ right. split_and!; [done|by split_and!; [..|left]|naive_solver]. }
  set (s1 := set_running s _). unfold mbind at 1, M_bind at 1, try_except.
  pose proof (prepare_frame c name uid dir s1) as (Hf1 & Hf2 & Hf3).
  pose proof (prepare_ok c name uid dir s1 Hc Hd) as Hok.
  destruct (prepare c name uid dir s1) as [[[]|e] s2]; cbn in Hf1, Hf2, Hf3, Hok.
  2:{ right. cbn. split_and!; [done|split_and!; cbn; [done..|right; by rewrite Hf1]|naive_solver]. }
  destruct (submit_cases c (visitor_job c name uid params dir) s2) as [(Hs & Hfree & ->)|(Hs & s3 & -> & Hrun & Hfree & Hjobs)].
  - left. rewrite Hf2 in Hfree. cbn. split_and!; [done|done|by apply Hok|done|].
    split_and!; cbn; [by rewrite Hf1| |by rewrite Hf3]. rewrite Hf2. cbn in *. lia.
  - right. split_and!; [done| |].
    + split_and!; [by rewrite Hfree|by rewrite Hjobs|right]. by rewrite Hrun, Hf1.
    + rewrite Hf2 in Hs. cbn in *. naive_solver.
Qed.

(** ** The process over time *)

Definition deadline (j : job) : Z := (j_claimed j + _gate_ttl (j_timeout j))%Z.
Definition owner (j : job) : pystr := (j_key j).2.

(** No run has outlived its claim. *)
Definition timely s (now : Z) : Prop := Forall (λ j, (now < deadline j)%Z) (r_jobs s).
#[global] Instance timely_dec s now : Decision (timely s now).
Proof. unfold timely. apply _. Defined.

(** A started server, the requests it answers, the runs that end whenever they
    end, and whatever else changes its accounts, pages and files, in a process whose
    own environment is the owner's.  The index says whether every request so far
    came while no run had outlived its claim. *)
Inductive reach : bool → runs → Prop :=
  | reach_start w :
      reach true {| r_world := w; _running := []; _visitor_slots := MAX_VISITOR_WORKERS; r_jobs := [] |}
  | reach_ask p s c rq adm name :
      reach p s → current (environ c) = Ok OWNER_CONTEXT →
      reach (p && bool_decide (timely s (wall c))) (run_for_visitor c rq adm name s).2
  | reach_finish p s c i outcome : reach p s → reach p (finish_run c i outcome s).2
  | reach_other p s w : reach p s → reach p (set_run_world s w).

(** What holds in every case: the slots are those the jobs leave, and a claim is that
    of a job. *)
Record runs_ok s : Prop := {
  ok_wf : dict_wf (_running s);
  ok_pool : _visitor_slots s + length (r_jobs s) = MAX_VISITOR_WORKERS;
  ok_jobs : ∀ k, k ∈ dkeys (_running s) → ∃ j, j ∈ r_jobs s ∧ j_key j = k;
}.

(** What holds as long as no run outlives its claim: a job has its claim, and an account
    one job. *)
Record claims_ok s : Prop := {
  ok_claims : ∀ j, j ∈ r_jobs s → dget (j_key j) (_running s) = Some (deadline j);
  ok_one : NoDup (map owner (r_jobs s));
}.

Lemma same_runs_ok s s' : same_runs s s' → runs_ok s → runs_ok s'.
Proof. intros (Hr & Hf & Hj) []. split; rewrite ?Hr, ?Hf, ?Hj; done. Qed.
Lemma same_claims_ok s s' : same_runs s s' → claims_ok s → claims_ok s'.
Proof. intros (Hr & Hf & Hj) []. split; rewrite ?Hr, ?Hj; done. Qed.

Lemma same_runs_claimable s s' now uid : same_runs s s' → claimable s' now uid ↔ claimable s now uid.
Proof. intros (Hr & _). unfold claimable. by rewrite Hr. Qed.

(** While no run has outlived its claim, an account can start a run exactly when it has
    none. *)
Lemma claimable_iff s now uid : runs_ok s → claims_ok s → timely s now →
  claimable s now uid ↔ uid ∉ map owner (r_jobs s).
Proof.
  intros [Hwf _ Hjobs] [Hcl _] Ht. unfold claimable, timely in *. rewrite Forall_forall in Ht. rewrite Forall_forall. split.
  - intros Hall (j & -> & Hj)%list_elem_of_fmap. specialize (Ht j Hj).
    apply Hcl, dget_Some_elem in Hj. specialize (Hall _ Hj eq_refl). simpl in Hall. lia.
  - intros Hno [k d] Hin Hk. exfalso.
    destruct (Hjobs k) as (j & Hj & Hjk); [by apply (list_elem_of_fmap_2 fst _ (k, d))|].
    apply Hno, list_elem_of_fmap. exists j. split; [|done]. unfold owner. by rewrite Hjk.
Qed.

Lemma started_ok c name uid params dir s s' : runs_ok s → started c name uid params dir s s' → runs_ok s'.
Proof.
  intros [Hwf Hpool Hjobs] (Hr & Hf & Hj). split; rewrite ?Hr, ?Hj.
  - by apply dset_wf.
  - rewrite length_app. simpl. lia.
  - intros k [->|Hk]%dkeys_dset_elem.
    + eexists. split; [apply elem_of_app; right; by apply list_elem_of_singleton|done].
    + destruct (Hjobs k Hk) as (j & Hin & Hjk). exists j. split; [|done]. apply elem_of_app. auto.
Qed.
Lemma started_claims_ok c name uid params dir s s' :
  claims_ok s → uid ∉ map owner (r_jobs s) → started c name uid params dir s s' → claims_ok s'.
Proof.
  intros [Hcl Hone] Hno (Hr & Hf & Hj).
  assert (Hne : ∀ j, j ∈ r_jobs s → j_key j ≠ (name, uid)).
  { intros j Hin Hk. apply Hno, list_elem_of_fmap. exists j. unfold owner. by rewrite Hk. }
  split; rewrite ?Hr, ?Hj.
  - intros j [Hin|Hin]%elem_of_app.
    + rewrite dget_dset_ne by (by apply Hne). by apply Hcl.
    + apply list_elem_of_singleton in Hin as ->. by rewrite dget_dset_eq.
  - rewrite map_app. apply NoDup_app. split_and!; [done| |apply NoDup_singleton].
    intros x Hx Hin. apply list_elem_of_singleton in Hin as ->. done.
Qed.

(** A refused start: no job, no slot, no claim more, and none of those in force less. *)
Definition refused (now : Z) s s' : Prop :=
  _visitor_slots s' = _visitor_slots s ∧ r_jobs s' = r_jobs s ∧
  ∀ k d, (dget k (_running s') = Some d → dget k (_running s) = Some d) ∧
         (dget k (_running s) = Some d → (now < d)%Z → dget k (_running s') = Some d).

Lemma not_started_refused c name uid s s' : dict_wf (_running s) → not_started c name uid s s' → refused (wall c) s s'.
Proof.
  intros Hwf (Hf & Hj & [Hr|[Hcl Hr]]); (split_and!; [done..|]); rewrite Hr; [done|]. intros k d.
  destruct (decide (k = (name, uid))) as [->|Hk].
  - rewrite dget_ddel_eq by (by apply dset_wf). split; [done|]. intros Hin%dget_Some_elem Hlt.
    unfold claimable in Hcl. rewrite Forall_forall in Hcl. specialize (Hcl _ Hin eq_refl). cbn in Hcl. lia.
  - by rewrite dget_ddel_ne, dget_dset_ne.
Qed.

Lemma not_started_wf c name uid s s' : dict_wf (_running s) → not_started c name uid s s' → dict_wf (_running s').
Proof. intros Hwf (_ & _ & [->|[_ ->]]); [done|]. by apply ddel_wf, dset_wf. Qed.

Lemma refused_ok now s s' : dict_wf (_running s') → refused now s s' → runs_ok s → runs_ok s'.
Proof.
  intros Hwf (Hf & Hj & Hr) [_ Hpool Hjobs]. split; [done|by rewrite Hf, Hj|]. intros k Hk. rewrite Hj. apply Hjobs.
  destruct (dget k (_running s')) as [d|] eqn:E; [|by apply dget_None in E].
  apply Hr, dget_Some_elem in E. by apply (list_elem_of_fmap_2 fst _ (k, d)).
Qed.
Lemma refused_claims_ok now s s' : refused now s s' → timely s now → claims_ok s → claims_ok s'.
Proof.
  intros (Hf & Hj & Hr) Ht [Hcl Hone]. split; rewrite Hj; [|done]. intros j Hin. apply Hr; [by apply Hcl|].
  unfold timely in Ht. rewrite Forall_forall in Ht. by apply Ht.
Qed.

(** The state after a run has ended. *)
Lemma finish_run_state c i outcome s j : r_jobs s !! i = Some j → let s' := (finish_run c i outcome s).2 in
  _running s' = ddel (j_key j) (_running s) ∧ _visitor_slots s' = S (_visitor_slots s) ∧ r_jobs s' = delete i (r_jobs s).
Proof.
  intros Ej. unfold finish_run. rewrite Ej. unfold mbind, M_bind.
  edestruct write_run_state_frame as (s1 & -> & Hr & Hf & Hj). cbn. by rewrite Hr, Hf, Hj.
Qed.
Lemma finish_run_none c i outcome s : r_jobs s !! i = None → (finish_run c i outcome s).2 = s.
Proof. intros Ej. unfold finish_run. by rewrite Ej. Qed.

Lemma finish_run_ok c i outcome s : runs_ok s → runs_ok (finish_run c i outcome s).2.
Proof.
  intros [Hwf Hpool Hjobs]. destruct (r_jobs s !! i) as [j|] eqn:Ej; [|by rewrite finish_run_none].
  destruct (finish_run_state c i outcome s j Ej) as (Hr & Hf & Hj). split; rewrite ?Hr, ?Hf, ?Hj.
  - by apply ddel_wf.
  - rewrite length_delete by eauto. apply lookup_lt_Some in Ej. lia.
  - intros k Hk. destruct (Hjobs k) as (j' & Hin & Hjk); [by eapply dkeys_ddel_elem|]. exists j'. split; [|done].
    apply list_elem_of_lookup in Hin as [i' Hi']. apply list_elem_of_lookup.
    destruct (lt_eq_lt_dec i' i) as [[?| ->]|?].
    + exists i'. by rewrite list_lookup_delete_lt.
    + rewrite Ej in Hi'. injection Hi' as ->. subst k. exfalso. apply dget_None in Hk; [done|]. by apply dget_ddel_eq.
    + exists (pred i'). rewrite list_lookup_delete_ge by lia. by replace (S (pred i')) with i' by lia.
Qed.

Lemma finish_run_claims_ok c i outcome s : claims_ok s → claims_ok (finish_run c i outcome s).2.
Proof.
  intros [Hcl Hone]. destruct (r_jobs s !! i) as [j|] eqn:Ej; [|by rewrite finish_run_none].
  destruct (finish_run_state c i outcome s j Ej) as (Hr & Hf & Hj).
  apply list_elem_of_split_length in Ej as (l & k & Hl & Hi). rewrite Hl in *. subst i. rewrite delete_middle in Hj.
  rewrite map_app, map_cons in Hone. apply NoDup_app in Hone as (Hn1 & Hn12 & Hn2).
  apply NoDup_cons in Hn2 as [Hn2 Hn3].
  assert (Hne : ∀ j', j' ∈ l ++ k → j_key j' ≠ j_key j).
  { intros j' Hin Hk. assert (owner j' = owner j) by (unfold owner; by rewrite Hk).
    apply elem_of_app in Hin as [Hin|Hin].
    - apply (Hn12 (owner j')); [apply list_elem_of_fmap; eauto|]. rewrite elem_of_cons. auto.
    - apply Hn2, list_elem_of_fmap. eauto. }
  split; rewrite ?Hr, ?Hj.
  - intros j' Hin. rewrite dget_ddel_ne by (by apply Hne). apply Hcl.
    rewrite elem_of_app, elem_of_cons in *. tauto.
  - rewrite map_app. apply NoDup_app. split_and!; [done| |done]. intros x Hx Hk.
    apply (Hn12 x Hx). by right.
Qed.

(** One request: it starts exactly the run it asked for, or nothing. *)
Lemma ask_cases s c rq adm name : runs_ok s → current (environ c) = Ok OWNER_CONTEXT →
  let '(r, s') := run_for_visitor c rq adm name s in
  (∃ uid params dir, r = Ok tt ∧ run_ready c rq adm name s uid params dir ∧
     claimable s (wall c) uid ∧ length (r_jobs s) < MAX_VISITOR_WORKERS ∧
     publish_io c = true ∧ submit_io c = true ∧ started c name uid params dir s s') ∨
  (r ≠ Ok tt ∧ dict_wf (_running s') ∧ refused (wall c) s s' ∧
   ∀ uid params dir, run_ready c rq adm name s uid params dir → claimable s (wall c) uid →
     length (r_jobs s) < MAX_VISITOR_WORKERS → publish_io c = true → submit_io c = true → False).
Proof.
  intros Hok Hc. unfold run_for_visitor, mbind, M_bind.
  pose proof (admit_run_frame c rq adm name s) as Hsame.
  pose proof (admit_run_iff c rq adm name s) as Hadm.
  destruct (admit_run c rq adm name s) as [[[[uid params] dir]|e] s1]; cbn in Hsame, Hadm.
  2:{ right. destruct Hsame as (Hr & Hf & Hj). split_and!; [done|rewrite Hr; apply Hok|split_and!; by rewrite ?Hr|].
      intros uid ps d Hr' _ _ _ _. by apply Hadm in Hr'. }
  assert (Hready : run_ready c rq adm name s uid params dir) by (by apply Hadm).
  pose proof (same_runs_ok _ _ Hsame Hok) as Hok1.
  pose proof (start_run_cases c name uid params dir s1 (ok_wf _ Hok1) Hc (ready_dir _ _ _ _ _ _ _ _ Hready)) as Hs.
  cbn [fst snd]. destruct (start_run c name uid params dir s1) as [r s2].
  pose proof (ok_pool _ Hok1) as Hpool. pose proof (same_runs_claimable s s1 (wall c) uid Hsame) as Hcl.
  destruct Hsame as (Hr & Hf & Hj). rewrite Hj in Hpool.
  destruct Hs as [(-> & Hc1 & Hp & Hsub & Hst)|(Hne & Hst & Hno)].
  - left. exists uid, params, dir. split_and!; try done; [by apply Hcl|destruct Hst as (_ & ? & _); lia|].
    unfold started in *. by rewrite Hr, Hf, Hj in Hst.
  - right. split_and!; [done|by eapply not_started_wf; [apply Hok1|]| |].
    + apply not_started_refused in Hst as (Hf2 & Hj2 & Hr2); [|apply Hok1]. rewrite Hf, Hj, Hr in *. done.
    + intros uid' ps' d' Hr' Hfree Hlt Hp Hsub. apply Hadm in Hr'. simplify_eq.
      apply Hno. split_and!; [by apply Hcl|done..|lia].
Qed.

Lemma reach_ok p s : reach p s → runs_ok s ∧ (p = true → claims_ok s).
Proof.
  induction 1 as [w|p s c rq adm name _ [IH IHc] Hc|p s c i o _ [IH IHc]|p s w _ [IH IHc]].
  - split; [split; cbn; [constructor|done|set_solver]|]. intros _. split; cbn; [set_solver|constructor].
  - pose proof (ask_cases s c rq adm name IH Hc) as Hcase.
    destruct (run_for_visitor c rq adm name s) as [r s'].
    destruct Hcase as [(uid & ps & d & _ & _ & Hcl & _ & _ & _ & Hst)|(_ & Hwf & Href & _)].
    + split; [by eapply started_ok|]. intros [-> Ht%bool_decide_eq_true]%andb_true_iff.
      apply (started_claims_ok _ _ _ _ _ _ _ (IHc eq_refl)) in Hst; [done|]. by apply (claimable_iff s (wall c)); [|apply IHc|..].
    + split; [by eapply refused_ok|]. intros [-> Ht%bool_decide_eq_true]%andb_true_iff.
      by eapply refused_claims_ok; [..|apply IHc].
  - split; [by apply finish_run_ok|]. intros ->. by apply finish_run_claims_ok, IHc.
  - split; [by apply (same_runs_ok s)|]. intros ->. by apply (same_claims_ok s), IHc.
Qed.

(** C5. Visitors never occupy more than their share of the machine.  In every
    state the process reaches, whatever requests arrived and however long runs took,
    at most [MAX_VISITOR_WORKERS] visitor runs are going, the free slots are exactly
    the rest, and every claim is that of a run still going: no refused or failed
    request leaves a claim or a slot behind.  And as long as no request came after a
    run had outlived its claim (twice the time-out, or ten minutes, and a minute), no
    account has two runs and every run has its claim. *)
Theorem visitor_runs_bounded p s : reach p s →
  length (r_jobs s) <= MAX_VISITOR_WORKERS ∧
  _visitor_slots s = MAX_VISITOR_WORKERS - length (r_jobs s) ∧
  (∀ k, k ∈ dkeys (_running s) → ∃ j, j ∈ r_jobs s ∧ j_key j = k) ∧
  (p = true → NoDup (map owner (r_jobs s)) ∧ ∀ j, j ∈ r_jobs s → dget (j_key j) (_running s) = Some (deadline j)).
Proof.
  intros [[Hwf Hpool Hjobs] Hp]%reach_ok. split_and!; [lia|lia|done|]. intros [Hcl Hone]%Hp. done.
Qed.

(** C3. The run entrance answers 202 exactly when it should, and starts exactly
    what was asked, in every state the process reaches.  A request is accepted if and
    only if the gate admitted an account, the page is published as runnable and open
    to that account, the parameters pass strict validation, no claim of the account is
    in force, a slot is free and the disk and the pool cooperate; no claim is in force
    exactly when the account has no run going, as long as no run has outlived its claim.
    The run it starts carries the visitor's own identity and data directory, and its
    claim.  A refused request starts nothing, takes no slot, adds no claim and removes
    none that is in force. *)
Theorem visitor_run_iff p s c rq adm name : reach p s → current (environ c) = Ok OWNER_CONTEXT →
  let '(r, s') := run_for_visitor c rq adm name s in
  (r = Ok tt ↔ ∃ uid params dir, run_ready c rq adm name s uid params dir ∧
     claimable s (wall c) uid ∧ length (r_jobs s) < MAX_VISITOR_WORKERS ∧
     publish_io c = true ∧ submit_io c = true) ∧
  (p = true → timely s (wall c) → ∀ uid, claimable s (wall c) uid ↔ uid ∉ map owner (r_jobs s)) ∧
  (∀ uid params dir, r = Ok tt → run_ready c rq adm name s uid params dir → started c name uid params dir s s') ∧
  (r ≠ Ok tt → refused (wall c) s s').
Proof.
  intros Hreach Hc. destruct (reach_ok p s Hreach) as [Hok Hp]. pose proof (ask_cases s c rq adm name Hok Hc) as Hcase.
  destruct (run_for_visitor c rq adm name s) as [r s'].
  assert (p = true → timely s (wall c) → ∀ uid, claimable s (wall c) uid ↔ uid ∉ map owner (r_jobs s)) as Hcl
    by (intros ? Ht uid; by apply claimable_iff; [|apply Hp|]).
  destruct Hcase as [(uid & ps & d & -> & Hr & ? & ? & ? & ? & Hst)|(Hne & _ & Href & Hno)].
  - split_and!; [by split; eauto 10|done| |done]. intros uid' ps' d' _ Hr'.
    apply admit_run_iff in Hr, Hr'. rewrite Hr in Hr'. injection Hr' as <- <- <-. apply Hst.
  - split_and!; [|done|done|done]. split; [done|]. intros (? & ? & ? & ? & ? & ? & ? & ?). by edestruct Hno.
Qed.
End runs.

(** ** Evaluation on the small server *)
Section demo.
Import Demo.
#[local] Existing Instance url_plain.
#[local] Existing Instance small_framework.
#[local] Existing Instance small_registry.

(** No pattern is used. *)
Definition no_regex : Regex := λ _ _, None.
#[local] Existing Instance no_regex.

Definition run_at (t : Z) : run_call :=
  {| rc := at_time t ∅; publish_io := true; mkdir_io := true; state_io := true; submit_io := true |}.
Definition demo_idle : runs :=
  {| r_world := server; _running := []; _visitor_slots := MAX_VISITOR_WORKERS; r_jobs := [] |}.
Definition demo_run (count : Z) : request :=
  demo_post (§"/app/notes/run") [(§"params", JObj [(§"count", JInt count)])].
(** Ann's run is going. *)
Definition demo_busy : runs := (run_for_visitor (run_at 4) (demo_run 3) as_ann (§"notes") demo_idle).2.

Lemma demo_busy_reach : reach true demo_busy.
Proof.
  apply (reach_ask true demo_idle (run_at 4) (demo_run 3) as_ann (§"notes")); [apply reach_start|by vm_compute].
Qed.

(** While it is going its slot is taken; when it ends the slot is free again. *)
Lemma visitor_runs_bounded_witness :
  map owner (r_jobs demo_busy) = [ann] ∧ NoDup (map owner (r_jobs demo_busy)) ∧ _visitor_slots demo_busy = 1 ∧
  _visitor_slots (finish_run (run_at 9) 0 None demo_busy).2 = 2.
Proof.
  split_and!; [by vm_compute|..].
  - exact (proj1 (proj2 (proj2 (proj2 (visitor_runs_bounded true demo_busy demo_busy_reach))) eq_refl)).
  - rewrite (proj1 (proj2 (visitor_runs_bounded true demo_busy demo_busy_reach))). by vm_compute.
  - rewrite (proj1 (proj2 (visitor_runs_bounded true _
      (reach_finish true _ (run_at 9) 0 None demo_busy_reach)))). by vm_compute.
Defined.

(** A second run of hers is refused and changes nothing; so is a parameter above
    its declared maximum, on an idle server. *)
Lemma visitor_run_iff_witness :
  let '(r, s') := run_for_visitor (run_at 5) (demo_run 3) as_ann (§"notes") demo_busy in
  r = Raise (HTTPException 409 true) ∧ refused (wall (run_at 5)) demo_busy s' ∧
  (run_for_visitor (run_at 5) (demo_run 11) as_ann (§"notes") demo_idle).1
    = Raise (HTTPException 400 true).
Proof.
  assert (Hr : (run_for_visitor (run_at 5) (demo_run 3) as_ann (§"notes") demo_busy).1
    = Raise (HTTPException 409 true)) by (vm_compute; reflexivity).
  pose proof (visitor_run_iff true demo_busy (run_at 5) (demo_run 3) as_ann (§"notes") demo_busy_reach
    ltac:(by vm_compute)) as Hiff.
  destruct (run_for_visitor (run_at 5) (demo_run 3) as_ann (§"notes") demo_busy) as [r s'].
  cbn in Hr. subst r. split_and!; [done| |vm_compute; reflexivity].
  apply (proj2 (proj2 (proj2 Hiff))). discriminate.
Defined.

(** A run that takes longer than its claim lets the account start a second one. *)
Lemma overrun_lets_second_in :
  let s := (run_for_visitor (run_at 664) (demo_run 3) as_ann (§"notes") demo_busy).2 in
  reach false s ∧ map owner (r_jobs s) = [ann; ann].
Proof.
  split; [|by vm_compute].
  assert (bool_decide (timely demo_busy (wall (run_at 664))) = false) as E by (vm_compute; reflexivity).
  change false with (true && false). rewrite <- E. apply reach_ask; [apply demo_busy_reach|by vm_compute].
Qed.
End demo.
