(* ===== verification/WarmPool.v ===== *)
(** * The pool of warm agent sessions

    agent_driver/pool.py: agent programs kept alive in tmux sessions and reused
    by session id, least recently used out first; with the naming and liveness
    of agent_driver/tmux_session.py.  What goes on inside a session is left out:
    opening one succeeds or fails, and a session can die at any time. *)

From S2P Require Import Prelude PyStr.
From stdpp Require Import prelude gmap list strings.

(** [str.isalnum] of one character. *)
Class Alnum := {
  isalnum : N → bool;
  isalnum_ascii : ∀ c, (c < 128)%N →
    isalnum c = ((48 <=? c) && (c <=? 57) || (65 <=? c) && (c <=? 90) || (97 <=? c) && (c <=? 122))%N;
}.

(** How tmux finds the session a [-t] argument means: the session of that very
    name if there is one, else one session the name is a prefix of, if only one
    is; a name with wildcards may match as a pattern too. *)
Class Tmux := {
  find_target : gset pystr → pystr → option pystr;
  find_exact : ∀ live n, n ∈ live → find_target live n = Some n;
  find_live : ∀ live n x, find_target live n = Some x → x ∈ live;
  find_prefix : ∀ live n x, n ∉ live → x ∈ live → n `prefix_of` x →
    (∀ y, y ∈ live → n `prefix_of` y → y = x) → find_target live n = Some x;
  find_plain : ∀ live n x, Forall (λ c, c ∉ [42; 63; 91; 92]%N) n →
    find_target live n = Some x → n `prefix_of` x;
}.

Section pool.
Context `{Alnum, Tmux}.

(** ** Sessions (agent_driver/tmux_session.py) *)

Definition tmux_name_for (session_id : pystr) : pystr :=
  §"frago-agent-" ++ map (λ c, if isalnum c || (c =? 95)%N || (c =? 45)%N then c else 95%N) session_id.

Record TmuxAgentSession := {
  session_id : pystr;
  agent_type : pystr;
  cwd : pystr;
  native_session_id : bool;
  conv_key : option pystr;
  env : list (pystr * pystr);
}.
Definition tmux_name (t : TmuxAgentSession) : pystr := tmux_name_for (session_id t).

(** The pool, and the sessions the tmux server runs. *)
Record pool := {
  _max_size : nat;
  _sessions : dict pystr TmuxAgentSession;
  tmux_live : gset pystr;
}.
Implicit Types (p : pool) (t : TmuxAgentSession) (sid : pystr).

Definition set_pooled p (d : dict pystr TmuxAgentSession) : pool :=
  {| _max_size := _max_size p; _sessions := d; tmux_live := tmux_live p |}.
Definition set_live p (l : gset pystr) : pool :=
  {| _max_size := _max_size p; _sessions := _sessions p; tmux_live := l |}.

Definition is_alive p t : bool := bool_decide (is_Some (find_target (tmux_live p) (tmux_name t))).

(** [_safe_close]: kill whatever session the name means; a failure is dropped. *)
Definition _safe_close t : M pool unit := modify (λ p,
  match find_target (tmux_live p) (tmux_name t) with
  | Some x => set_live p (tmux_live p ∖ {[x]})
  | None => p
  end).

(** How the start of an agent program goes: it becomes ready, it does not within
    the time allowed, or it ends first and takes its tmux session with it. *)
Inductive opening := Opens | NeverReady | Vanishes.

(** [open]: a new tmux session, whose name must not be taken; after a failed start
    the name is closed, also when its session is gone already. *)
Definition open_session (how : opening) t : M pool unit := λ p,
  if decide (tmux_name t ∈ tmux_live p) then (Raise RuntimeError, p)
  else
    let opened := set_live p ({[tmux_name t]} ∪ tmux_live p) in
    match how with
    | Opens => (Ok tt, opened)
    | NeverReady => (_safe_close t;; raise RuntimeError) opened
    | Vanishes => (_safe_close t;; raise RuntimeError) p
    end.

(** ** The pool (agent_driver/pool.py) *)

Definition new_pool (max_size : nat) (live : gset pystr) : res pool :=
  if decide (max_size < 1) then Raise ValueError
  else Ok {| _max_size := max_size; _sessions := []; tmux_live := live |}.

Definition active_ids p : list pystr := dkeys (_sessions p).
Definition has p sid : bool := dmem sid (_sessions p).
Definition peek p sid : option TmuxAgentSession := dget sid (_sessions p).

(** [move_to_end] after an assignment to the key. *)
Definition to_end sid t (d : dict pystr TmuxAgentSession) : dict pystr TmuxAgentSession :=
  ddel sid d ++ [(sid, t)].

(** The loop of [_evict_if_needed], over the sessions from the oldest on. *)
Fixpoint evict_oldest (d : dict pystr TmuxAgentSession) : M pool unit := λ p,
  match d with
  | [] => (Ok tt, p)
  | (_, t) :: rest =>
      if decide (length d <= _max_size p) then (Ok tt, p)
      else (modify (λ p, set_pooled p rest);; _safe_close t;; evict_oldest rest) p
  end.
Definition _evict_if_needed : M pool unit := d ← gets _sessions; evict_oldest d.

(** What one [acquire] meets: the registered drivers, how the start goes, and
    whether the caller's resume hook raises. *)
Record attempt := { drivers : list pystr; start : opening; hook_raises : bool }.

(** The part of [acquire] after the lookup: a session left over from an earlier
    process is killed first, then a new one is opened and pooled. *)
Definition acquire_new (a : attempt) t : M pool TmuxAgentSession :=
  if decide (agent_type t ∉ drivers a) then raise KeyError
  else
    p ← get_st;
    (if is_alive p t then _safe_close t else mret tt);;
    open_session (start a) t;;
    if hook_raises a then raise RuntimeError
    else
      modify (λ p, set_pooled p (to_end (session_id t) t (_sessions p)));;
      _evict_if_needed;;
      mret t.

(** [acquire], with the session it would construct as its argument. *)
Definition acquire (a : attempt) t : M pool TmuxAgentSession :=
  p ← get_st;
  match dget (session_id t) (_sessions p) with
  | Some existing =>
      if is_alive p existing then
        modify (λ p, set_pooled p (to_end (session_id t) existing (_sessions p)));;
        mret existing
      else
        modify (λ p, set_pooled p (ddel (session_id t) (_sessions p)));;
        acquire_new a t
  | None => acquire_new a t
  end.

Definition evict sid : M pool bool :=
  p ← get_st;
  match dget sid (_sessions p) with
  | None => mret false
  | Some t =>
      modify (λ p, set_pooled p (ddel sid (_sessions p)));;
      _safe_close t;;
      mret true
  end.

(** [evict_idle], over a snapshot of the sessions; [idle] is [idle_age_fn]. *)
Fixpoint evict_idle_loop (idle : TmuxAgentSession → option Z) (timeout_s : Z)
    (snapshot : dict pystr TmuxAgentSession) : M pool (list pystr) :=
  match snapshot with
  | [] => mret []
  | (sid, t) :: rest =>
      hit ← (match idle t with
             | Some age => if Z.ltb timeout_s age then evict sid else mret false
             | None => mret false
             end);
      evicted ← evict_idle_loop idle timeout_s rest;
      mret (if hit : bool then sid :: evicted else evicted)
  end.
Definition evict_idle (idle : TmuxAgentSession → option Z) (timeout_s : Z) : M pool (list pystr) :=
  d ← gets _sessions; evict_idle_loop idle timeout_s d.

Fixpoint close_all (d : dict pystr TmuxAgentSession) : M pool unit :=
  match d with
  | [] => mret tt
  | (_, t) :: d => _safe_close t;; close_all d
  end.
Definition shutdown : M pool unit :=
  d ← gets _sessions; close_all d;; modify (λ p, set_pooled p []).

(** ** Closing *)

(** A close takes away at most one session, and in any case the named one. *)
Lemma safe_close_run t p :
  ∃ l, _safe_close t p = (Ok tt, set_live p l) ∧ l ⊆ tmux_live p ∧ tmux_name t ∉ l.
Proof.
  unfold _safe_close, modify. destruct (find_target _ _) as [x|] eqn:Ef.
  - exists (tmux_live p ∖ {[x]}). split_and!; [done|set_solver|]. intros Hin.
    rewrite (find_exact (tmux_live p)) in Ef by set_solver. injection Ef as <-. set_solver.
  - exists (tmux_live p). split_and!; [by destruct p|done|]. intros Hin.
    by rewrite (find_exact _ _ Hin) in Ef.
Qed.

(** The names of the pooled sessions. *)
Definition names (d : dict pystr TmuxAgentSession) : gset pystr :=
  list_to_set (map (tmux_name ∘ snd) d).

Lemma names_cons k t d : names ((k, t) :: d) = {[tmux_name t]} ∪ names d.
Proof. done. Qed.
Lemma names_app d d' : names (d ++ d') = names d ∪ names d'.
Proof. unfold names. by rewrite map_app, list_to_set_app_L. Qed.
Lemma names_elem x d : x ∈ names d ↔ ∃ k t, (k, t) ∈ d ∧ x = tmux_name t.
Proof.
  unfold names. rewrite elem_of_list_to_set, list_elem_of_fmap. split.
  - intros ([k t] & -> & Hin). eauto.
  - intros (k & t & Hin & ->). by exists (k, t).
Qed.

(** ** The loop *)

Lemma evict_oldest_run d p : _sessions p = d → ∃ l,
  evict_oldest d p = (Ok tt, set_live (set_pooled p (lastn (_max_size p) d)) l) ∧
  l ⊆ tmux_live p ∧ ∀ strays, tmux_live p ⊆ strays ∪ names d →
    l ⊆ strays ∪ names (lastn (_max_size p) d).
Proof.
  revert p. induction d as [|[k t] d IH]; intros p Hd.
  { exists (tmux_live p). split_and!; [|done|auto]. destruct p. cbn in *. by subst. }
  cbn [evict_oldest]. case_decide as Hl.
  { exists (tmux_live p). rewrite lastn_all by done. split_and!; [|done|auto].
    destruct p. cbn in *. by subst. }
  unfold mbind, M_bind, modify. cbn in Hl.
  destruct (safe_close_run t (set_pooled p d)) as (l1 & -> & Hl1 & Hn1).
  destruct (IH (set_live (set_pooled p d) l1) eq_refl) as (l & -> & Hsub & Hleak).
  change (l1 ⊆ tmux_live p) in Hl1. change (l ⊆ l1) in Hsub.
  exists l. rewrite lastn_cons by lia. split_and!; [done|by etrans|].
  intros strays Hs. apply Hleak. change (l1 ⊆ strays ∪ names d). rewrite names_cons in Hs.
  set_solver.
Qed.

(** ** Acquiring *)

Lemma dkeys_ddel sid (d : dict pystr TmuxAgentSession) : dict_wf d →
  dkeys (ddel sid d) = filter (λ k, k ≠ sid) (dkeys d).
Proof.
  intros Hwf. rewrite ddel_filter by done. unfold dkeys.
  induction d as [|[k t] d IH]; [done|]. apply NoDup_cons in Hwf as [_ Hwf].
  rewrite filter_cons, fmap_cons, filter_cons. cbn [fst].
  case_decide; cbn; by rewrite IH.
Qed.

Lemma dkeys_lastn n (d : dict pystr TmuxAgentSession) : dkeys (lastn n d) = lastn n (dkeys d).
Proof. unfold dkeys, lastn. by rewrite length_map, fmap_drop. Qed.

Lemma to_end_wf sid t d : dict_wf d → dict_wf (to_end sid t d).
Proof.
  intros Hwf. unfold to_end, dict_wf, dkeys. rewrite fmap_app. apply NoDup_app. split_and!.
  - by apply (ddel_wf sid) in Hwf.
  - intros k Hk Hin. apply list_elem_of_singleton in Hin as ->.
    apply (dget_None sid) in Hk; [done|]. by apply dget_ddel_eq.
  - apply NoDup_singleton.
Qed.

(** The pool keeps each session under its own id, and no more than it may. *)
Record pool_ok p : Prop := {
  pooled_wf : dict_wf (_sessions p);
  pooled_ids : Forall (λ kt, session_id kt.2 = kt.1) (_sessions p);
  pooled_size : length (_sessions p) <= _max_size p;
  pooled_room : 1 <= _max_size p;
}.

(** The order after an id was used: the id last, the oldest dropped. *)
Definition use (n : nat) sid (l : list pystr) : list pystr := lastn n (filter (λ k, k ≠ sid) l ++ [sid]).

(** What a successful [acquire] leaves behind: the session it returns is the last
    of the pool, the rest keeps its order, and only the oldest go.  [strays] are
    the tmux sessions nobody in the pool answers for. *)
Definition acquired t t' p p' : Prop :=
  _max_size p' = _max_size p ∧ session_id t' = session_id t ∧
  _sessions p' = lastn (_max_size p) (to_end (session_id t) t' (_sessions p)) ∧
  ∀ strays, tmux_live p ⊆ strays ∪ names (_sessions p) → tmux_live p' ⊆ strays ∪ names (_sessions p').

(** What a failed one does: at most the id's dead entry is gone, and a session
    is left behind only by a hook that raised. *)
Definition not_acquired (a : attempt) t p p' : Prop :=
  _max_size p' = _max_size p ∧
  (_sessions p' = _sessions p ∨ _sessions p' = ddel (session_id t) (_sessions p)) ∧
  ∀ strays, tmux_live p ⊆ strays ∪ names (_sessions p) →
    tmux_live p' ⊆
      (if hook_raises a then {[tmux_name t]} ∪ strays else strays) ∪ names (_sessions p').

(** Clearing the way: afterwards the name is free. *)
Lemma clear_run t p :
  ∃ l, (if is_alive p t then _safe_close t else mret tt) p = (Ok tt, set_live p l) ∧
    l ⊆ tmux_live p ∧ tmux_name t ∉ l.
Proof.
  unfold is_alive. case_bool_decide as Ha; [apply safe_close_run|].
  exists (tmux_live p). split_and!; [by destruct p|done|]. intros Hin.
  apply Ha. rewrite (find_exact _ _ Hin). eauto.
Qed.

Lemma to_end_ddel sid t d : dict_wf d → to_end sid t (ddel sid d) = to_end sid t d.
Proof. intros Hwf. unfold to_end. f_equal. by apply ddel_absent, dget_ddel_eq. Qed.

Lemma names_to_end sid t d : tmux_name_for sid = tmux_name t → dict_wf d →
  Forall (λ kt, session_id kt.2 = kt.1) d → names (to_end sid t d) = {[tmux_name t]} ∪ names d.
Proof.
  intros Hn Hwf Hids. unfold to_end. rewrite names_app. apply set_eq. intros x.
  rewrite !elem_of_union, elem_of_singleton, !names_elem. rewrite Forall_forall in Hids. split.
  - intros [(k & u & Hin & ->)|(k & u & Hin & ->)].
    + right. exists k, u. split; [by eapply ddel_elem|done].
    + apply list_elem_of_singleton in Hin. injection Hin as -> ->. by left.
  - intros [->|(k & u & Hin & ->)].
    + right. exists sid, t. split; [by apply list_elem_of_singleton|done].
    + destruct (decide (k = sid)) as [->|Hk].
      * right. exists sid, t. split; [by apply list_elem_of_singleton|].
        rewrite <- Hn. unfold tmux_name. apply Hids in Hin. cbn in Hin. by rewrite Hin.
      * left. exists k, u. split; [|done]. rewrite ddel_filter by done. by apply list_elem_of_filter.
Qed.

Lemma names_ddel sid x d : dict_wf d → Forall (λ kt, session_id kt.2 = kt.1) d →
  x ∈ names d → x = tmux_name_for sid ∨ x ∈ names (ddel sid d).
Proof.
  intros Hwf Hids (k & u & Hin & ->)%names_elem. rewrite Forall_forall in Hids.
  destruct (decide (k = sid)) as [->|Hk].
  - left. unfold tmux_name. apply Hids in Hin. cbn in Hin. by rewrite Hin.
  - right. apply names_elem. exists k, u. split; [|done]. rewrite ddel_filter by done.
    by apply list_elem_of_filter.
Qed.

Lemma acquire_new_cases a t p : dict_wf (_sessions p) →
  Forall (λ kt, session_id kt.2 = kt.1) (_sessions p) →
  let '(r, p') := acquire_new a t p in
  match r with Ok t' => t' = t ∧ acquired t t' p p' | Raise _ => not_acquired a t p p' end.
Proof.
  intros Hwf Hids. unfold acquire_new. case_decide.
  { split_and!; [done|by left|]. intros strays Hs. destruct (hook_raises a); set_solver. }
  unfold mbind, M_bind, get_st. destruct (clear_run t p) as (l & -> & Hl & Hn).
  unfold open_session. rewrite decide_False by done.
  destruct (start a).
  - destruct (hook_raises a) eqn:Eh; cbn [raise].
    { split_and!; [done|by left|]. intros strays Hs. rewrite Eh. cbn [tmux_live set_live _sessions].
      set_solver. }
    unfold modify, _evict_if_needed, mbind, M_bind, gets.
    set (p2 := set_pooled _ _).
    destruct (evict_oldest_run (_sessions p2) p2 eq_refl) as (l2 & -> & Hl2 & Hleak).
    split; [done|]. split_and!; [done|done|done|]. intros strays Hs. apply Hleak.
    change (_sessions p2) with (to_end (session_id t) t (_sessions p)).
    change (tmux_live p2) with ({[tmux_name t]} ∪ l).
    rewrite names_to_end by done. set_solver.
  - set (p2 := set_live _ _). destruct (safe_close_run t p2) as (l2 & Hrun & Hl2 & Hn2).
    unfold mbind, M_bind. rewrite Hrun. change (tmux_live p2) with ({[tmux_name t]} ∪ l) in Hl2. cbn [raise].
    split_and!; [done|by left|]. intros strays Hs. cbn [tmux_live set_live _sessions].
    change (_sessions p2) with (_sessions p). destruct (hook_raises a); set_solver.
  - set (p2 := set_live _ _). destruct (safe_close_run t p2) as (l2 & Hrun & Hl2 & Hn2).
    unfold mbind, M_bind. rewrite Hrun. change (tmux_live p2) with l in Hl2. cbn [raise].
    split_and!; [done|by left|]. intros strays Hs. cbn [tmux_live set_live _sessions].
    change (_sessions p2) with (_sessions p). destruct (hook_raises a); set_solver.
Qed.

Lemma acquire_cases a t p : pool_ok p →
  let '(r, p') := acquire a t p in
  match r with Ok t' => acquired t t' p p' | Raise _ => not_acquired a t p p' end.
Proof.
  intros [Hwf Hids Hsize Hroom]. unfold acquire, mbind, M_bind, get_st.
  destruct (dget (session_id t) (_sessions p)) as [t0|] eqn:Eg.
  2:{ pose proof (acquire_new_cases a t p Hwf Hids) as Hc.
      destruct (acquire_new a t p) as [[t'|e] p']; [by destruct Hc|done]. }
  pose proof (dget_Some_elem _ _ _ Eg) as Hin.
  assert (Hid : session_id t0 = session_id t) by (rewrite Forall_forall in Hids; by apply Hids in Hin).
  assert (Hlen : length (to_end (session_id t) t0 (_sessions p)) <= _max_size p).
  { unfold to_end. rewrite length_app. cbn. apply length_ddel_old in Eg. lia. }
  destruct (is_alive p t0) eqn:Ea; unfold modify.
  - cbn [mret M_ret]. split_and!; [done|done|by rewrite lastn_all|]. intros strays Hs.
    cbn [_sessions set_pooled]. change (tmux_live (set_pooled _ _)) with (tmux_live p).
    rewrite names_to_end; [set_solver| |done|done]. unfold tmux_name. by rewrite Hid.
  - set (p1 := set_pooled _ _).
    pose proof (acquire_new_cases a t p1 (ddel_wf _ _ Hwf) (ddel_Forall _ _ _ Hids)) as Hc.
    assert (Hp1 : ∀ strays, tmux_live p ⊆ strays ∪ names (_sessions p) →
                            tmux_live p1 ⊆ strays ∪ names (_sessions p1)).
    { intros strays Hs x Hx. pose proof (Hs x Hx) as Hx'. rewrite elem_of_union in Hx'. apply elem_of_union.
      destruct Hx' as [|Hx']; [by left|]. right.
      destruct (names_ddel (session_id t) x _ Hwf Hids Hx') as [->|]; [|done].
      apply not_true_iff_false in Ea. destruct Ea. unfold is_alive, tmux_name. rewrite Hid.
      apply bool_decide_eq_true. rewrite find_exact by done. eauto. }
    destruct (acquire_new a t p1) as [[t'|e] p'].
    + destruct Hc as [-> (Hm & _ & Hs & Hl)]. split_and!; [done|done| |auto].
      rewrite Hs. cbn [_sessions set_pooled _max_size p1]. by rewrite to_end_ddel.
    + destruct Hc as (Hm & Hs & Hl). split_and!; [done| |auto]. right.
      destruct Hs as [->| ->]; [done|]. by apply ddel_absent, dget_ddel_eq.
Qed.

(** ** The pool over time *)

Lemma lastn_wf n (d : dict pystr TmuxAgentSession) : dict_wf d → dict_wf (lastn n d).
Proof. unfold dict_wf. rewrite dkeys_lastn. unfold lastn. intros Hn. by eapply sublist_NoDup, sublist_drop. Qed.

Lemma to_end_ids sid t d : session_id t = sid → Forall (λ kt, session_id kt.2 = kt.1) d →
  Forall (λ kt, session_id kt.2 = kt.1) (to_end sid t d).
Proof. intros Ht Hd. apply Forall_app. split; [by apply ddel_Forall|by repeat constructor]. Qed.

Lemma acquired_ok t t' p p' : pool_ok p → acquired t t' p p' → pool_ok p'.
Proof.
  intros [Hwf Hids Hsize Hroom] (Hm & Hid & Hs & _). split; rewrite ?Hm, ?Hs.
  - by apply lastn_wf, to_end_wf.
  - apply Forall_drop. by apply to_end_ids.
  - rewrite length_lastn. lia.
  - done.
Qed.

Lemma ddel_pool_ok sid p p' : pool_ok p → _max_size p' = _max_size p →
  _sessions p' = _sessions p ∨ _sessions p' = ddel sid (_sessions p) → pool_ok p'.
Proof.
  intros [Hwf Hids Hsize Hroom] Hm Hs. pose proof (length_ddel sid (_sessions p)).
  split; destruct Hs as [Hs|Hs]; rewrite ?Hm, ?Hs; auto using ddel_wf, ddel_Forall; lia.
Qed.

Lemma pool_evict_run sid p : pool_ok p → ∃ b l,
  evict sid p = (Ok b, set_live (set_pooled p (ddel sid (_sessions p))) l) ∧ l ⊆ tmux_live p ∧
  ∀ strays, tmux_live p ⊆ strays ∪ names (_sessions p) → l ⊆ strays ∪ names (ddel sid (_sessions p)).
Proof.
  intros [Hwf Hids _ _]. unfold evict, mbind, M_bind, get_st, modify.
  destruct (dget sid (_sessions p)) as [t|] eqn:Eg.
  - set (p1 := set_pooled _ _). destruct (safe_close_run t p1) as (l & -> & Hl & Hn).
    exists true, l. split_and!; [done|done|]. intros strays Hs x Hx.
    apply dget_Some_elem in Eg. rewrite Forall_forall in Hids. pose proof (Hids _ Eg) as Hid. cbn in Hid.
    rewrite <- Forall_forall in Hids. pose proof (Hs x (Hl x Hx)) as Hx'.
    rewrite elem_of_union in *. destruct Hx' as [|Hx']; [by left|].
    destruct (names_ddel sid x _ Hwf Hids Hx') as [->|]; [|by right].
    unfold tmux_name in Hn. by rewrite Hid in Hn.
  - exists false, (tmux_live p). rewrite ddel_absent by done. split_and!; [by destruct p|done|done].
Qed.

(** One step: an acquisition, an eviction, an idle sweep, a shutdown, or the
    death of any tmux sessions.  [strays] collects the sessions the pool does not
    answer for: those it found, and those a raising hook made it forget. *)
Inductive pool_step : gset pystr * pool → gset pystr * pool → Prop :=
  | step_acquire a t strays p :
      pool_step (strays, p)
        (match (acquire a t p).1 with
         | Raise _ => if hook_raises a then {[tmux_name t]} ∪ strays else strays
         | Ok _ => strays
         end, (acquire a t p).2)
  | step_evict sid strays p : pool_step (strays, p) (strays, (evict sid p).2)
  | step_idle idle timeout_s strays p :
      pool_step (strays, p) (strays, (evict_idle idle timeout_s p).2)
  | step_shutdown strays p : pool_step (strays, p) (strays, (shutdown p).2)
  | step_die l strays p : l ⊆ tmux_live p → pool_step (strays, p) (strays, set_live p l).

(** The invariant: a well-formed pool, and every live session pooled or stray. *)
Definition accounted (n : nat) (sp : gset pystr * pool) : Prop :=
  pool_ok sp.2 ∧ _max_size sp.2 = n ∧ tmux_live sp.2 ⊆ sp.1 ∪ names (_sessions sp.2).

Lemma evict_accounted n sid strays p :
  accounted n (strays, p) → accounted n (strays, (evict sid p).2).
Proof.
  intros (Hok & Hm & Hs). destruct (pool_evict_run sid p Hok) as (b & l & -> & _ & Hl).
  split_and!; [|done|by apply Hl]. apply (ddel_pool_ok sid p); [done|done|by right].
Qed.

Lemma evict_idle_accounted n idle timeout_s d strays p : accounted n (strays, p) →
  accounted n (strays, (evict_idle_loop idle timeout_s d p).2).
Proof.
  revert p. induction d as [|[sid t] d IH]; intros p Hp; [done|]. cbn.
  unfold mbind, M_bind. set (step := match idle t with Some _ => _ | None => _ end).
  assert (Hstep : ∃ b, (step p).1 = Ok b ∧ accounted n (strays, (step p).2)).
  { subst step. pose proof (evict_accounted n sid strays p Hp).
    destruct (pool_evict_run sid p (proj1 Hp)) as (b & l & He & _).
    destruct (idle t) as [age|]; [|by eexists]. destruct (Z.ltb timeout_s age); [|by eexists].
    rewrite He in *. by eexists. }
  destruct Hstep as (b & Hb & Hp'). destruct (step p) as [r p']. cbn in Hb, Hp'. subst r.
  specialize (IH p' Hp'). destruct (evict_idle_loop idle timeout_s d p') as [[l|e] p'']; done.
Qed.

Lemma close_all_run d p : ∃ l, close_all d p = (Ok tt, set_live p l) ∧ l ⊆ tmux_live p ∧
  l ## names d.
Proof.
  revert p. induction d as [|[sid t] d IH]; intros p.
  { exists (tmux_live p). split_and!; [by destruct p|done|set_solver]. }
  cbn [close_all]. unfold mbind, M_bind.
  destruct (safe_close_run t p) as (l1 & -> & Hl1 & Hn). destruct (IH (set_live p l1)) as (l & -> & Hl & Hd).
  change (l ⊆ l1) in Hl. exists l. split_and!; [done|by etrans|]. rewrite names_cons. set_solver.
Qed.

Lemma pool_step_accounted n sp sp' : accounted n sp → pool_step sp sp' → accounted n sp'.
Proof.
  intros Hp Hst. destruct Hst as [a t strays p|sid strays p|idle tm strays p|strays p|l strays p Hl].
  - destruct Hp as (Hok & Hn & Hs). pose proof (acquire_cases a t p Hok) as Hc. cbn in Hok, Hn, Hs.
    destruct (acquire a t p) as [[t'|e] p']; cbn [fst snd].
    + split_and!; [by eapply acquired_ok| |by apply Hc]. cbn. by rewrite (proj1 Hc).
    + destruct Hc as (Hm & Hd & Hl). split_and!; [by eapply ddel_pool_ok|cbn; by rewrite Hm|by apply Hl].
  - by apply evict_accounted.
  - unfold evict_idle, mbind, M_bind, gets. by apply evict_idle_accounted.
  - unfold shutdown, mbind, M_bind, gets. destruct Hp as ([Hwf Hids Hsize Hroom] & Hn & Hs).
    destruct (close_all_run (_sessions p) p) as (l & -> & Hl & Hd). cbn in Hs. split_and!; [|done|].
    + split; cbn; [constructor|constructor|lia|done].
    + change (l ⊆ strays ∪ ∅). intros x Hx. specialize (Hs x (Hl x Hx)). set_solver.
  - destruct Hp as (Hok & Hn & Hs). split_and!; [by destruct Hok|done|]. cbn in *. set_solver.
Qed.

Lemma pool_history n sp sp' : accounted n sp → rtc pool_step sp sp' → accounted n sp'.
Proof. intros Hp Hr. induction Hr; eauto using pool_step_accounted. Qed.

(** The pool stays within its size and forgets no session.  From a new pool
    of at least one place, after any sequence of acquisitions that succeed or
    fail in any way, evictions, idle sweeps, shutdowns and deaths of sessions:
    at most [max_size] sessions are pooled, each under its own id, and every tmux
    session alive is one of the pool's, one that was there before, or one whose
    resume hook raised. *)
Theorem pool_bounded_accounted n live p0 strays p :
  new_pool n live = Ok p0 → rtc pool_step (live, p0) (strays, p) →
  length (_sessions p) <= n ∧ dict_wf (_sessions p) ∧
  Forall (λ kt, session_id kt.2 = kt.1) (_sessions p) ∧
  tmux_live p ⊆ strays ∪ names (_sessions p).
Proof.
  unfold new_pool. case_decide; [done|]. intros [= <-] Hr.
  eapply (pool_history n) in Hr; [|split_and!; [split; cbn; [constructor|constructor|lia|lia]|done|]].
  - destruct Hr as ([Hwf Hids Hsize _] & Hn & Hs). cbn in Hwf, Hids, Hsize, Hn, Hs. by rewrite <- Hn.
  - apply union_subseteq_l.
Qed.

(** ** Least recently used *)

(** The ids used so far, each once, in the order of their last use. *)
Definition recent (uses : list pystr) : list pystr :=
  foldl (λ l sid, filter (λ k, k ≠ sid) l ++ [sid]) [] uses.

Lemma recent_snoc h sid : recent (h ++ [sid]) = filter (λ k, k ≠ sid) (recent h) ++ [sid].
Proof. unfold recent. by rewrite foldl_app. Qed.

Lemma recent_NoDup h : NoDup (recent h).
Proof.
  induction h as [|sid h IH] using rev_ind; [constructor|]. rewrite recent_snoc.
  apply NoDup_app. split_and!; [by apply NoDup_filter| |apply NoDup_singleton].
  intros k [? _]%list_elem_of_filter Hk. by apply list_elem_of_singleton in Hk as ->.
Qed.

Lemma lastn_snoc {A} n (l : list A) x : lastn (S n) (l ++ [x]) = lastn n l ++ [x].
Proof.
  unfold lastn. rewrite length_app. cbn [length].
  replace (length l + 1 - S n) with (length l - n) by lia. apply drop_app_le. lia.
Qed.

Lemma filter_ne_length sid l : NoDup l → length l <= S (length (filter (λ k, k ≠ sid) l)).
Proof.
  induction 1 as [|x l Hx Hl IH]; [cbn; lia|]. rewrite filter_cons. case_decide as Hk; cbn; [lia|].
  assert (x = sid) as -> by (by destruct (decide (x = sid))).
  rewrite filter_all; [lia|]. intros y Hy ->. done.
Qed.

Lemma lastn_filter_app n sid old new : NoDup new → length new = S n →
  lastn n (filter (λ k, k ≠ sid) new) = lastn n (filter (λ k, k ≠ sid) (old ++ new)).
Proof.
  intros Hnd Hlen. pose proof (filter_ne_length sid new Hnd).
  rewrite filter_app. unfold lastn. rewrite length_app, drop_app_ge by lia. f_equal. lia.
Qed.

(** Using an id commutes with keeping only the last [n] of the order. *)
Lemma use_lastn n sid l : NoDup l → 1 <= n → use n sid (lastn n l) = use n sid l.
Proof.
  intros Hnd Hn. unfold use. destruct n as [|n]; [lia|]. rewrite !lastn_snoc. f_equal.
  destruct (decide (length l <= S n)) as [Hle|Hgt]; [by rewrite (lastn_all (S n) l)|].
  pose proof (take_drop (length l - S n) l) as Hl. fold (lastn (S n) l) in Hl.
  rewrite <- Hl in Hnd. apply NoDup_app in Hnd as (_ & _ & Hnd).
  rewrite (lastn_filter_app n sid (take (length l - S n) l)); [by rewrite Hl|done|].
  rewrite length_lastn. lia.
Qed.

(** A pool that served these uses, in this order, every one successfully, while
    sessions died as they liked. *)
Inductive served (n : nat) : list pystr → pool → Prop :=
  | served_new live p : new_pool n live = Ok p → served n [] p
  | served_use h p a t t' p' : served n h p → acquire a t p = (Ok t', p') →
      served n (h ++ [session_id t]) p'
  | served_die h p l : served n h p → l ⊆ tmux_live p → served n h (set_live p l).

Lemma acquired_ids t t' p p' : pool_ok p → acquired t t' p p' →
  active_ids p' = use (_max_size p) (session_id t) (active_ids p).
Proof.
  intros Hok (_ & _ & Hs & _). unfold active_ids, use. rewrite Hs, dkeys_lastn. unfold to_end.
  f_equal. unfold dkeys at 1. rewrite fmap_app. fold (dkeys (ddel (session_id t) (_sessions p))).
  by rewrite dkeys_ddel by apply Hok.
Qed.

Lemma served_order n h p : served n h p →
  pool_ok p ∧ _max_size p = n ∧ active_ids p = lastn n (recent h).
Proof.
  induction 1 as [live p Hp|h p a t t' p' _ (Hok & Hn & Hids) Ha|h p l _ (Hok & Hn & Hids) Hl].
  - unfold new_pool in Hp. case_decide; [done|]. injection Hp as <-.
    split_and!; [split; cbn; [constructor|constructor|lia|lia]|done..].
  - pose proof (acquire_cases a t p Hok) as Hc. rewrite Ha in Hc.
    split_and!; [by eapply acquired_ok|by rewrite (proj1 Hc)|].
    rewrite (acquired_ids _ _ _ _ Hok Hc), Hn, Hids, recent_snoc.
    rewrite use_lastn; [done|apply recent_NoDup|]. rewrite <- Hn. apply Hok.
  - split_and!; [by destruct Hok|done..].
Qed.

(** The pool is a least-recently-used cache.  Whatever ids were asked for in
    whatever order, and whichever sessions died in between, the pool holds
    exactly the [n] ids used last, from the least to the most recently used. *)
Theorem pool_is_lru n h p : served n h p → active_ids p = lastn n (recent h).
Proof. intros Hs. by apply served_order in Hs as (_ & _ & ?). Qed.

(** ** Whose session is killed *)

Lemma tmux_name_plain sid : Forall (λ c, c ∉ [42; 63; 91; 92]%N) (tmux_name_for sid).
Proof.
  unfold tmux_name_for. apply Forall_app. split; [by repeat constructor; apply (bool_decide_unpack _)|].
  apply Forall_map, Forall_true. intros c. destruct (isalnum c || _ || _) eqn:Ec;
    [|by apply (bool_decide_unpack _)].
  intros Hin. rewrite !elem_of_cons, elem_of_nil in Hin.
  destruct Hin as [->|[->|[->|[->|[]]]]]; by rewrite isalnum_ascii in Ec.
Qed.

(** No id's tmux name begins another's, nor the name of any live session. *)
Definition apart (ids : list pystr) (live : gset pystr) : Prop :=
  ∀ i, i ∈ ids →
    (∀ j, j ∈ ids → tmux_name_for i `prefix_of` tmux_name_for j → i = j) ∧
    (∀ x, x ∈ live → tmux_name_for i `prefix_of` x → x = tmux_name_for i).

Lemma apart_sub ids live live' : live' ⊆ live → apart ids live → apart ids live'.
Proof. intros Hl Ha i Hi. split; [by apply Ha|]. intros x Hx. apply Ha; [done|set_solver]. Qed.

Lemma apart_add ids live sid : sid ∈ ids → apart ids live →
  apart ids ({[tmux_name_for sid]} ∪ live).
Proof.
  intros Hs Ha i Hi. split; [by apply Ha|]. intros x [->%elem_of_singleton|Hx]%elem_of_union Hp.
  - by rewrite (proj1 (Ha i Hi) sid Hs Hp).
  - by apply Ha.
Qed.

Lemma find_apart ids live sid x : apart ids live → sid ∈ ids →
  find_target live (tmux_name_for sid) = Some x → x = tmux_name_for sid.
Proof.
  intros Ha Hs Hf. apply (Ha sid Hs); [by eapply find_live|].
  eapply find_plain; [apply tmux_name_plain|done].
Qed.

Lemma safe_close_exact ids t p : apart ids (tmux_live p) → session_id t ∈ ids →
  _safe_close t p = (Ok tt, set_live p (tmux_live p ∖ {[tmux_name t]})).
Proof.
  intros Ha Hs. unfold _safe_close, modify. destruct (find_target _ _) as [x|] eqn:Ef.
  - by rewrite (find_apart _ _ _ _ Ha Hs Ef).
  - assert (tmux_name t ∉ tmux_live p) by (intros Hin; by rewrite (find_exact _ _ Hin) in Ef).
    replace (tmux_live p ∖ {[tmux_name t]}) with (tmux_live p) by set_solver. by destruct p.
Qed.

Lemma evict_oldest_exact ids d p : _sessions p = d → apart ids (tmux_live p) →
  Forall (λ kt, session_id kt.2 ∈ ids) d →
  evict_oldest d p = (Ok tt, set_live (set_pooled p (lastn (_max_size p) d))
    (tmux_live p ∖ names (take (length d - _max_size p) d))).
Proof.
  revert p. induction d as [|[k t] d IH]; intros p Hd Ha Hids.
  { cbn. replace (tmux_live p ∖ names []) with (tmux_live p) by (cbn; set_solver).
    destruct p. cbn in *. by subst. }
  apply Forall_cons in Hids as [Ht Hids]. cbn [evict_oldest]. case_decide as Hl.
  { rewrite lastn_all by done. replace (length ((k, t) :: d) - _max_size p) with 0 by lia.
    replace (tmux_live p ∖ names (take 0 _)) with (tmux_live p) by (cbn; set_solver).
    destruct p. cbn in *. by subst. }
  unfold mbind, M_bind, modify. cbn [length] in *.
  rewrite (safe_close_exact ids t (set_pooled p d)) by done.
  rewrite IH; [|done|by eapply apart_sub; [|exact Ha]; cbn; set_solver|done].
  rewrite lastn_cons by lia. cbn [_max_size set_live set_pooled tmux_live].
  replace (S (length d) - _max_size p) with (S (length d - _max_size p)) by lia.
  cbn [take]. rewrite names_cons. unfold set_live, set_pooled. cbn. do 2 f_equal. set_solver.
Qed.

(** The sessions the next use of an id pushes out. *)
Definition pushed_out t p : dict pystr TmuxAgentSession :=
  let d := to_end (session_id t) t (_sessions p) in take (length d - _max_size p) d.

Lemma clear_exact ids t p : apart ids (tmux_live p) → session_id t ∈ ids →
  (if is_alive p t then _safe_close t else mret tt) p
    = (Ok tt, set_live p (tmux_live p ∖ {[tmux_name t]})).
Proof.
  intros Ha Hs. unfold is_alive. case_bool_decide as Hf; [by eapply safe_close_exact|].
  assert (tmux_name t ∉ tmux_live p).
  { intros Hin. apply Hf. rewrite (find_exact _ _ Hin). eauto. }
  replace (tmux_live p ∖ {[tmux_name t]}) with (tmux_live p) by set_solver. by destruct p.
Qed.

Lemma acquire_new_exact ids a t t' p p' : apart ids (tmux_live p) → session_id t ∈ ids →
  Forall (λ kt, session_id kt.2 ∈ ids) (_sessions p) → acquire_new a t p = (Ok t', p') →
  t' = t ∧ tmux_live p' = ({[tmux_name t]} ∪ tmux_live p) ∖ names (pushed_out t p).
Proof.
  intros Ha Ht Hids. unfold acquire_new. case_decide; [done|].
  unfold mbind, M_bind, get_st. rewrite (clear_exact ids) by done.
  unfold open_session. cbn [tmux_live set_live]. rewrite decide_False by set_solver.
  destruct (start a); [|by unfold mbind, M_bind; destruct (_safe_close t _) as [[]]..].
  destruct (hook_raises a); [done|].
  unfold modify, _evict_if_needed, mbind, M_bind, gets. set (p2 := set_pooled _ _).
  assert (Hl2 : tmux_live p2 = {[tmux_name t]} ∪ tmux_live p).
  { unfold p2. cbn. apply set_eq. intros x. destruct (decide (x = tmux_name t)); set_solver. }
  rewrite (evict_oldest_exact ids (_sessions p2) p2); [|done| |].
  - intros Hr. injection Hr as <- <-. split; [done|]. exact (f_equal (λ l, l ∖ names (pushed_out t p)) Hl2).
  - rewrite Hl2. by apply apart_add.
  - apply Forall_app. split; [by apply ddel_Forall|by repeat constructor].
Qed.

Lemma pushed_out_ddel t p : dict_wf (_sessions p) →
  pushed_out t (set_pooled p (ddel (session_id t) (_sessions p))) = pushed_out t p.
Proof. intros Hwf. unfold pushed_out. cbn [_sessions set_pooled _max_size]. by rewrite to_end_ddel. Qed.

(** An [acquire] that succeeds leaves tmux with its own session and all those it
    had, less the ones pushed out. *)
Lemma acquire_exact a t t' p p' : pool_ok p → apart (session_id t :: active_ids p) (tmux_live p) →
  acquire a t p = (Ok t', p') →
  tmux_live p' = ({[tmux_name t]} ∪ tmux_live p) ∖ names (pushed_out t p).
Proof.
  intros [Hwf Hids Hsize Hroom] Ha. set (ids := session_id t :: active_ids p) in *.
  assert (Ht : session_id t ∈ ids) by (apply elem_of_cons; auto).
  assert (Hin : Forall (λ kt, session_id kt.2 ∈ ids) (_sessions p)).
  { rewrite Forall_forall in *. intros [k u] Hku. pose proof (Hids _ Hku) as Hk. cbn in *. rewrite Hk.
    apply elem_of_cons. right. by apply (list_elem_of_fmap_2 fst _ (k, u)). }
  unfold acquire, mbind, M_bind, get_st.
  destruct (dget (session_id t) (_sessions p)) as [t0|] eqn:Eg.
  2:{ intros Hc. by eapply acquire_new_exact in Hc as [_ ->]. }
  pose proof (dget_Some_elem _ _ _ Eg) as Hin0.
  assert (Hid : session_id t0 = session_id t) by (rewrite Forall_forall in Hids; by apply Hids in Hin0).
  destruct (is_alive p t0) eqn:Ea; unfold modify.
  - intros [= <- <-]. cbn [tmux_live set_pooled].
    assert (Hpo : pushed_out t p = []).
    { unfold pushed_out, to_end. rewrite length_app. cbn [length]. apply length_ddel_old in Eg.
      by replace (length _ + 1 - _max_size p) with 0 by lia. }
    unfold is_alive, tmux_name in Ea. rewrite Hid in Ea. apply bool_decide_eq_true in Ea as [x Hx].
    pose proof (find_live _ _ _ Hx) as Hlive. rewrite (find_apart _ _ _ _ Ha Ht Hx) in Hlive.
    rewrite Hpo. unfold tmux_name. change (names []) with (∅ : gset pystr). set_solver.
  - intros Hc. eapply (acquire_new_exact ids) in Hc as [_ ->];
      [by rewrite pushed_out_ddel|done|done|by apply ddel_Forall].
Qed.

(** Where the pool is cut: [old] goes, [kept] stays, and no two ids share a name. *)
Lemma pool_cut t t' p : pool_ok p → ∃ old kept,
  ddel (session_id t) (_sessions p) = old ++ kept ∧ pushed_out t p = old ∧
  lastn (_max_size p) (to_end (session_id t) t' (_sessions p)) = kept ++ [(session_id t, t')].
Proof.
  intros [Hwf Hids Hsize Hroom]. set (base := ddel _ _). set (k := S (length base) - _max_size p).
  exists (take k base), (drop k base). split_and!; [by rewrite take_drop|..].
  - unfold pushed_out, to_end. fold base. rewrite length_app. cbn [length].
    replace (length base + 1 - _max_size p) with k by lia. apply take_app_le. lia.
  - unfold lastn, to_end. fold base. rewrite length_app. cbn [length].
    replace (length base + 1 - _max_size p) with k by lia. apply drop_app_le. lia.
Qed.

Lemma same_name ids live i j u v : apart ids live → i ∈ ids → j ∈ ids →
  session_id u = i → session_id v = j → tmux_name u = tmux_name v → i = j.
Proof.
  intros Ha Hi Hj Hu Hv Hn. apply (Ha i Hi); [done|]. unfold tmux_name in Hn. subst. by rewrite Hn.
Qed.

(** Using one session never kills another that stays.  As long as no id's
    tmux name begins another name in use, a successful [acquire] returns a
    session that tmux runs, every other session still pooled is alive exactly if
    it was, and every session pushed out of the pool is gone. *)
Theorem acquire_isolated a t t' p p' :
  pool_ok p → apart (session_id t :: active_ids p) (tmux_live p) → acquire a t p = (Ok t', p') →
  tmux_name t' ∈ tmux_live p' ∧
  (∀ k u, (k, u) ∈ _sessions p' → k ≠ session_id t →
     tmux_name u ∈ tmux_live p' ↔ tmux_name u ∈ tmux_live p) ∧
  (∀ k u, (k, u) ∈ _sessions p → k ∉ active_ids p' → tmux_name u ∉ tmux_live p').
Proof.
  intros Hok Ha Hacq. pose proof (acquire_exact _ _ _ _ _ Hok Ha Hacq) as Hl.
  pose proof (acquire_cases a t p Hok) as Hc. rewrite Hacq in Hc. destruct Hc as (_ & Hid & Hs & _).
  destruct (pool_cut t t' p Hok) as (old & kept & Hbase & Hold & Hkept). rewrite Hold in Hl.
  rewrite Hkept in Hs. destruct Hok as [Hwf Hids _ _].
  set (ids := session_id t :: active_ids p) in *.
  assert (Hmem : ∀ k u, (k, u) ∈ old ++ kept → (k, u) ∈ _sessions p ∧ session_id u = k ∧ k ∈ ids ∧ k ≠ session_id t).
  { intros k u Hin. rewrite <- Hbase, ddel_filter in Hin by done.
    apply list_elem_of_filter in Hin as [Hk Hin]. rewrite Forall_forall in Hids.
    split_and!; [done|by apply (Hids (k, u))| |done].
    apply elem_of_cons. right. by apply (list_elem_of_fmap_2 fst _ (k, u)). }
  assert (Ht : session_id t ∈ ids) by (apply elem_of_cons; auto).
  assert (Hnd : ∀ k u v, (k, u) ∈ old → (k, v) ∈ kept → False).
  { intros k u v Hu Hv. apply (ddel_wf (session_id t)) in Hwf. rewrite Hbase in Hwf.
    unfold dict_wf, dkeys in Hwf. rewrite fmap_app in Hwf. apply NoDup_app in Hwf as (_ & Hd & _).
    apply (Hd k); [by apply (list_elem_of_fmap_2 fst _ (k, u))|by apply (list_elem_of_fmap_2 fst _ (k, v))]. }
  assert (Hout : ∀ k u, k ∈ ids → session_id u = k → (k = session_id t ∨ (k, u) ∈ kept) →
            tmux_name u ∉ names old).
  { intros k u Hk Hu Hor (k' & u' & Hin' & Hn)%names_elem.
    destruct (Hmem k' u') as (_ & Hu' & Hk' & Hne); [apply elem_of_app; auto|].
    pose proof (same_name ids _ k k' u u' Ha Hk Hk' Hu Hu' Hn) as <-.
    destruct Hor as [|Hor]; [done|]. by eapply Hnd. }
  split_and!.
  - rewrite Hl, elem_of_difference, elem_of_union, elem_of_singleton.
    split; [left; unfold tmux_name; by rewrite Hid|]. apply (Hout (session_id t)); auto.
  - intros k u Hin Hk. rewrite Hs in Hin. apply elem_of_app in Hin as [Hin|Hin].
    2:{ apply list_elem_of_singleton in Hin. by injection Hin as -> _. }
    destruct (Hmem k u) as (_ & Hu & Hki & _); [apply elem_of_app; auto|].
    assert (tmux_name u ≠ tmux_name t) by (intros Hn; by apply Hk, (same_name ids _ _ _ u t Ha)).
    pose proof (Hout k u Hki Hu (or_intror Hin)). rewrite Hl. set_solver.
  - intros k u Hin Hk. rewrite Hl. apply not_elem_of_difference. right. apply names_elem. exists k, u.
    split; [|done]. unfold active_ids, dkeys in Hk. rewrite Hs, fmap_app, not_elem_of_app in Hk.
    destruct Hk as [Hk Hkt]. assert (Hb : (k, u) ∈ old ++ kept).
    { rewrite <- Hbase, ddel_filter by done. apply list_elem_of_filter. split; [|done]. cbn.
      intros ->. apply Hkt. by apply list_elem_of_singleton. }
    apply elem_of_app in Hb as [|Hb]; [done|]. destruct Hk. by apply (list_elem_of_fmap_2 fst _ (k, u)).
Qed.

(** Without that condition it does.  If a new id's tmux name begins the name of
    one live session, tmux takes the liveness check and the kill for that
    session: opening the new one ends the other, which stays in the pool. *)
Lemma acquire_kills_longer_name a t p x :
  dget (session_id t) (_sessions p) = None → length (_sessions p) < _max_size p →
  agent_type t ∈ drivers a → start a = Opens → hook_raises a = false →
  tmux_name t ∉ tmux_live p → x ∈ tmux_live p → tmux_name t `prefix_of` x →
  (∀ y, y ∈ tmux_live p → tmux_name t `prefix_of` y → y = x) →
  ∃ p', acquire a t p = (Ok t, p') ∧ tmux_live p' = {[tmux_name t]} ∪ tmux_live p ∖ {[x]} ∧
    _sessions p' = _sessions p ++ [(session_id t, t)].
Proof.
  intros Hg Hroom Hd Ho Hh Hn Hx Hpre Huniq.
  pose proof (find_prefix _ _ _ Hn Hx Hpre Huniq) as Hf.
  unfold acquire, mbind, M_bind, get_st. rewrite Hg. unfold acquire_new.
  rewrite decide_False by (by intros ?). unfold mbind, M_bind, get_st, is_alive.
  rewrite Hf. rewrite bool_decide_eq_true_2 by eauto. unfold _safe_close, modify. rewrite Hf.
  unfold open_session. cbn [tmux_live set_live]. rewrite decide_False by set_solver. rewrite Ho, Hh.
  unfold _evict_if_needed, mbind, M_bind, gets, to_end. set (p2 := set_pooled _ _).
  assert (Hs2 : _sessions p2 = _sessions p ++ [(session_id t, t)]).
  { unfold p2. cbn. by rewrite ddel_absent. }
  destruct (evict_oldest (_sessions p2) p2) as [r p3] eqn:Ee.
  assert (r = Ok tt ∧ p3 = p2) as [-> ->].
  { destruct (_sessions p2) as [|[k u] d] eqn:E2; [by destruct (_sessions p)|].
    cbn [evict_oldest] in Ee. rewrite decide_True in Ee; [by injection Ee as <- <-|].
    rewrite Hs2, length_app. change (_max_size p2) with (_max_size p). cbn. lia. }
  exists p2. split_and!; [done|done|by rewrite <- Hs2].
Qed.
End pool.

(** ** Evaluation *)

Definition ascii_alnum : Alnum := {|
  isalnum c := ((48 <=? c) && (c <=? 57) || (65 <=? c) && (c <=? 90) || (97 <=? c) && (c <=? 122))%N;
  isalnum_ascii _ _ := eq_refl |}.

(** Exact names, then unique prefixes. *)
Definition prefix_target (live : gset pystr) (n : pystr) : option pystr :=
  if decide (n ∈ live) then Some n
  else match filter (λ x, n `prefix_of` x) (elements live) with [x] => Some x | _ => None end.

Lemma prefix_target_exact live n : n ∈ live → prefix_target live n = Some n.
Proof. intros Hn. unfold prefix_target. by rewrite decide_True. Qed.

Lemma prefix_target_cases live n x : prefix_target live n = Some x → x ∈ live ∧ n `prefix_of` x.
Proof.
  unfold prefix_target. case_decide; [by intros [= <-]|].
  destruct (filter _ (elements live)) as [|y [|]] eqn:Ef; [done| |done]. intros [= <-].
  assert (Hy : y ∈ [y]) by (by apply list_elem_of_singleton). rewrite <- Ef in Hy.
  apply list_elem_of_filter in Hy as [? Hy]. by rewrite elem_of_elements in Hy.
Qed.

Lemma prefix_target_unique live n x : n ∉ live → x ∈ live → n `prefix_of` x →
  (∀ y, y ∈ live → n `prefix_of` y → y = x) → prefix_target live n = Some x.
Proof.
  intros Hn Hx Hp Hu. unfold prefix_target. rewrite decide_False by done.
  assert (Hnd : NoDup (filter (λ x, n `prefix_of` x) (elements live)))
    by apply NoDup_filter, NoDup_elements.
  assert (Hall : ∀ y, y ∈ filter (λ x, n `prefix_of` x) (elements live) ↔ y = x).
  { intros y. rewrite list_elem_of_filter, elem_of_elements. naive_solver. }
  destruct (filter _ _) as [|y [|z l]].
  - pose proof (proj2 (Hall x) eq_refl) as Hbad. by apply elem_of_nil in Hbad.
  - f_equal. apply Hall. by apply list_elem_of_singleton.
  - apply NoDup_cons in Hnd as [Hnd _]. destruct Hnd.
    assert (y = x) as -> by (apply Hall; set_solver). assert (z = x) as -> by (apply Hall; set_solver). set_solver.
Qed.

Definition small_tmux : Tmux := {|
  find_target := prefix_target; find_exact := prefix_target_exact;
  find_live live n x E := proj1 (prefix_target_cases live n x E);
  find_prefix := prefix_target_unique;
  find_plain live n x _ E := proj2 (prefix_target_cases live n x E) |}.

Section demo.
#[local] Existing Instance ascii_alnum.
#[local] Existing Instance small_tmux.

Definition agent (sid : pystr) : TmuxAgentSession :=
  {| session_id := sid; agent_type := §"claude"; cwd := §"/work"; native_session_id := false;
     conv_key := None; env := [] |}.
Definition fine : attempt := {| drivers := [§"claude"]; start := Opens; hook_raises := false |}.
Definition demo_pool (n : nat) : pool := {| _max_size := n; _sessions := []; tmux_live := ∅ |}.
Definition after (n : nat) (uses : list pystr) : pool :=
  foldl (λ p sid, (acquire fine (agent sid) p).2) (demo_pool n) uses.

Lemma after_served n h sid : served n h (after n h) →
  (acquire fine (agent sid) (after n h)).1 = Ok (agent sid) → served n (h ++ [sid]) (after n (h ++ [sid])).
Proof.
  intros Hs Hok. unfold after. rewrite foldl_app. cbn [foldl]. fold (after n h).
  apply (served_use n h (after n h) fine (agent sid) (agent sid)); [done|].
  rewrite <- Hok. apply surjective_pairing.
Qed.

Lemma pool_is_lru_witness :
  active_ids (after 2 [§"x"; §"y"; §"x"; §"z"]) = [§"x"; §"z"].
Proof.
  rewrite (pool_is_lru 2 [§"x"; §"y"; §"x"; §"z"]); [vm_compute; reflexivity|].
  apply (after_served 2 [§"x"; §"y"; §"x"]); [|vm_compute; reflexivity].
  apply (after_served 2 [§"x"; §"y"]); [|vm_compute; reflexivity].
  apply (after_served 2 [§"x"]); [|vm_compute; reflexivity].
  apply (after_served 2 []); [|vm_compute; reflexivity].
  by apply (served_new _ ∅).
Defined.

(** After two uses and an eviction, both slots' history is accounted for. *)
Lemma pool_bounded_accounted_witness :
  let p := (evict (§"x") (after 2 [§"x"; §"y"])).2 in
  length (_sessions p) <= 2 ∧ tmux_live p ⊆ ∅ ∪ names (_sessions p).
Proof.
  intros p.
  assert (Hr : rtc pool_step (∅, demo_pool 2) (∅, p)).
  { assert (Hstep : ∀ h sid, (acquire fine (agent sid) (after 2 h)).1 = Ok (agent sid) →
      pool_step (∅, after 2 h) (∅, after 2 (h ++ [sid]))).
    { intros h sid Hok. pose proof (step_acquire fine (agent sid) ∅ (after 2 h)) as Hs.
      rewrite Hok in Hs. unfold after in *. by rewrite foldl_app. }
    eapply rtc_l; [apply (Hstep [] (§"x")); vm_compute; reflexivity|].
    eapply rtc_l; [apply (Hstep [§"x"] (§"y")); vm_compute; reflexivity|].
    apply rtc_once, step_evict. }
  destruct (pool_bounded_accounted 2 ∅ (demo_pool 2) ∅ p eq_refl Hr) as (Hlen & _ & _ & Hsub).
  split; [exact Hlen|exact Hsub].
Defined.

(** A decision procedure for [apart]. *)
Definition apart_b (ids : list pystr) (live : gset pystr) : bool :=
  forallb (λ i,
    forallb (λ j, negb (bool_decide (tmux_name_for i `prefix_of` tmux_name_for j)) || bool_decide (i = j)) ids &&
    forallb (λ x, negb (bool_decide (tmux_name_for i `prefix_of` x)) || bool_decide (x = tmux_name_for i))
      (elements live)) ids.

Lemma apart_check ids live : apart_b ids live = true → apart ids live.
Proof.
  unfold apart_b. rewrite forallb_forall. intros Hall i Hi.
  apply list_elem_of_In, Hall, andb_true_iff in Hi as [H1 H2]. rewrite forallb_forall in H1, H2. split.
  - intros j Hj Hp. apply list_elem_of_In, H1 in Hj. rewrite bool_decide_eq_true_2 in Hj by done.
    by apply bool_decide_eq_true in Hj.
  - intros x Hx Hp. apply elem_of_elements, list_elem_of_In, H2 in Hx.
    rewrite bool_decide_eq_true_2 in Hx by done. by apply bool_decide_eq_true in Hx.
Qed.

Lemma acquire_isolated_witness :
  let p := after 2 [§"x"; §"y"] in let p' := (acquire fine (agent (§"z")) p).2 in
  tmux_name (agent (§"z")) ∈ tmux_live p' ∧ tmux_name (agent (§"x")) ∉ tmux_live p' ∧
  (tmux_name (agent (§"y")) ∈ tmux_live p' ↔ tmux_name (agent (§"y")) ∈ tmux_live p).
Proof.
  intros p p'.
  assert (Hacq : acquire fine (agent (§"z")) p = (Ok (agent (§"z")), p')).
  { assert (Ho : (acquire fine (agent (§"z")) p).1 = Ok (agent (§"z"))) by (vm_compute; reflexivity).
    rewrite <- Ho. apply surjective_pairing. }
  assert (Hs : _sessions p = [(§"x", agent (§"x")); (§"y", agent (§"y"))]) by (vm_compute; reflexivity).
  assert (Hs' : _sessions p' = [(§"y", agent (§"y")); (§"z", agent (§"z"))]) by (vm_compute; reflexivity).
  assert (Hok : pool_ok p).
  { split; rewrite ?Hs; [|by repeat constructor|vm_compute; lia|vm_compute; lia].
    apply (bool_decide_unpack _). vm_compute. exact I. }
  assert (Hap : apart (session_id (agent (§"z")) :: active_ids p) (tmux_live p)).
  { apply apart_check. vm_compute. reflexivity. }
  destruct (acquire_isolated fine (agent (§"z")) (agent (§"z")) p p' Hok Hap Hacq) as (Hz & Hy & Hx).
  split_and!; [exact Hz|apply (Hx (§"x"))|apply (Hy (§"y"))].
  - rewrite Hs. by left.
  - unfold active_ids. rewrite Hs'. apply (bool_decide_unpack _). vm_compute. exact I.
  - rewrite Hs'. by left.
  - discriminate.
Defined.

(** Opening [job-1] ends [job-12]. *)
Lemma acquire_kills_longer_name_example :
  let p := after 8 [§"job-12"] in let p' := (acquire fine (agent (§"job-1")) p).2 in
  tmux_name (agent (§"job-12")) ∈ tmux_live p ∧ has p' (§"job-12") = true ∧
  tmux_name (agent (§"job-12")) ∉ tmux_live p'.
Proof.
  split_and!; [|vm_compute; reflexivity|]; apply (bool_decide_unpack _); vm_compute; exact I.
Qed.

(** Two ids, one tmux name. *)
Lemma tmux_name_collides : tmux_name_for (§"feishu:oc_1") = tmux_name_for (§"feishu_oc_1").
Proof. vm_compute. reflexivity. Qed.
End demo.
