(* ===== verification/AgentTurn.v ===== *)
(** * One turn of an agent session

    agent_driver/tmux_session.py, the inside of a session: starting the agent
    program, typing a prompt, polling the screen until the turn is over, and
    reading the answer off the transcript or the screen.  tmux is the runner the
    class is given: what it answers may depend on everything before it.  The
    screen patterns, the probe of the transcript and the keys an agent wants are
    the driver's (agent_driver/driver.py). *)

From S2P Require Import Prelude PyStr.
From stdpp Require Import prelude list strings.

(** ** Results *)

Inductive turn_status := TOk | TTimeout | TNeedsInput | TError.
#[export] Instance turn_status_eq_dec : EqDecision turn_status.
Proof. solve_decision. Defined.

Record TurnResult := { text : pystr; raw_delta : pystr; turn_status_of : turn_status; duration_ms : Z }.

(** What the probe of the transcript says of the latest turn. *)
Inductive verdict_status := VOk | VNeedsInput | VError.
Record CompletionVerdict := {
  v_done : bool;
  v_text : option pystr;
  marker : option pystr;
  v_status : verdict_status;
}.

Inductive session_status := Starting | Ready | Busy | Idle | Dead.

(** A session between two calls: the commands run so far, the monotonic clock in
    microseconds, and the object's own fields. *)
Record turn_state := {
  steps : nat;
  now : Z;
  status : session_status;
  _last_pane : option pystr;
  last_active_at : option Z;
  sent : list (list pystr);
  probe_box : option CompletionVerdict;
}.

(** What is outside: tmux's answer to the [k]-th command, the time it takes, and
    the wall clock. *)
Record outside := {
  runner : nat → list pystr → res pystr;
  delay : nat → N;
  wall : nat → Z;
}.

(** An agent program's driver, the parts a turn uses.  The probe reads the agent's
    own transcript as it is after the [k]-th command. *)
Record AgentDriver := {
  launch_command : pystr;
  session_env : option (res (dict pystr pystr));
  ready_signal : pystr → bool;
  exception_handlers : list ((pystr → bool) * M turn_state unit);
  submit : pystr → M turn_state unit;
  done_signal : pystr → bool;
  needs_input_signal : option (pystr → bool);
  completion_probe : option (nat → res (option CompletionVerdict));
  read_answer : option (pystr → pystr → res pystr);
  extract : pystr → res pystr;
}.

(** ** Text *)

(** A line with something on it. *)
Definition solid (l : pystr) : bool := bool_decide (strip l ≠ []).

Definition _pane_tail (pane : pystr) (lines : nat) : pystr :=
  join_with [10%N] (lastn lines (filter (λ l, solid l = true) (splitlines pane))).

(** The lines after the last one equal to the anchor. *)
Fixpoint after_last (anchor : pystr) (ls : list pystr) : option (list pystr) :=
  match ls with
  | [] => None
  | l :: ls =>
      match after_last anchor ls with
      | Some rest => Some rest
      | None => if decide (l = anchor) then Some ls else None
      end
  end.

(** The first anchor, from the last line of the snapshot up, with lines after it. *)
Fixpoint delta_from (anchors : list pystr) (sb_lines : list pystr) : option (list pystr) :=
  match anchors with
  | [] => None
  | a :: anchors =>
      match after_last a sb_lines with
      | Some ((_ :: _) as remainder) => Some remainder
      | _ => delta_from anchors sb_lines
      end
  end.

Definition _compute_delta (pre_snapshot scrollback : pystr) : pystr :=
  match delta_from (reverse (filter (λ l, solid l = true) (splitlines pre_snapshot)))
                   (splitlines scrollback) with
  | Some remainder => join_with [10%N] remainder
  | None => scrollback
  end.

(** The pieces of [range(0, len(text), n)]. *)
Fixpoint chunks (fuel n : nat) (t : pystr) : list pystr :=
  match fuel, t with
  | S fuel, _ :: _ => take n t :: chunks fuel n (drop n t)
  | _, _ => []
  end.

Section session.
Context (w : outside) (driver : AgentDriver) (tmux_name cwd : pystr) (conv_key : option pystr)
        (env : dict pystr pystr) (width height : pystr) (poll_interval : Z).
Implicit Types (s : turn_state) (pane prompt : pystr).

(** ** The primitives *)

Definition set_status st : M turn_state unit := modify (λ s,
  {| steps := steps s; now := now s; status := st; _last_pane := _last_pane s;
     last_active_at := last_active_at s; sent := sent s; probe_box := probe_box s |}).
Definition set_last_pane p : M turn_state unit := modify (λ s,
  {| steps := steps s; now := now s; status := status s; _last_pane := Some p;
     last_active_at := last_active_at s; sent := sent s; probe_box := probe_box s |}).
Definition set_active : M turn_state unit := modify (λ s,
  {| steps := steps s; now := now s; status := status s; _last_pane := _last_pane s;
     last_active_at := Some (wall w (steps s)); sent := sent s; probe_box := probe_box s |}).
Definition set_box v : M turn_state unit := modify (λ s,
  {| steps := steps s; now := now s; status := status s; _last_pane := _last_pane s;
     last_active_at := last_active_at s; sent := sent s; probe_box := v |}).

Definition _tmux (args : list pystr) : M turn_state pystr := λ s,
  (runner w (steps s) args,
   {| steps := S (steps s); now := now s + Z.of_N (delay w (steps s)); status := status s;
      _last_pane := _last_pane s; last_active_at := last_active_at s;
      sent := sent s ++ [args]; probe_box := probe_box s |}).

(** [time.sleep], which may take longer than asked. *)
Definition sleep (d : Z) : M turn_state unit := modify (λ s,
  {| steps := S (steps s); now := now s + d + Z.of_N (delay w (steps s)); status := status s;
     _last_pane := _last_pane s; last_active_at := last_active_at s; sent := sent s;
     probe_box := probe_box s |}).

Definition capture_pane (full : bool) : M turn_state pystr :=
  _tmux ([§"capture-pane"; §"-p"; §"-t"; tmux_name] ++ if full then [§"-S"; §"-"] else []).

Definition is_alive : M turn_state bool :=
  try_except (λ e, bool_decide (e = CalledProcessError))
    (_tmux [§"has-session"; §"-t"; tmux_name];; mret true) (λ _, mret false).

Definition close : M turn_state unit :=
  _tmux [§"kill-session"; §"-t"; tmux_name];; set_status Dead.

Definition last_pane_or_empty s : pystr := default [] (_last_pane s).

(** A screen that cannot be read while the session lives is taken for the last one
    that was. *)
Definition _capture_resilient (full : bool) : M turn_state pystr := λ s,
  match capture_pane full s with
  | (Ok pane, s') => ((if full then mret tt else set_last_pane pane);; mret pane) s'
  | (Raise _, s') =>
      (alive ← is_alive;
       last ← gets last_pane_or_empty;
       if alive : bool then mret last else raise (SessionVanished last)) s'
  end.

Definition send_keys (keys : list pystr) : M turn_state unit :=
  _tmux ([§"send-keys"; §"-t"; tmux_name] ++ keys);; mret tt.

Definition _SEND_TEXT_CHUNK : nat := 1000.

Definition send_literal (t : pystr) : M turn_state unit :=
  send_keys [§"-l"; §"--"; t].

Fixpoint send_pieces (l : list pystr) : M turn_state unit :=
  match l with
  | [] => mret tt
  | t :: l => send_literal t;; send_pieces l
  end.
Definition send_text (t : pystr) : M turn_state unit :=
  match t with
  | [] => send_literal []
  | _ => send_pieces (chunks (length t) _SEND_TEXT_CHUNK t)
  end.

(** ** Submitting a prompt to Claude Code

    agent_driver/drivers/claude.py, [_submit], the most patient of the drivers'
    [submit]s: it types, waits, presses Enter until the prompt is seen to have gone,
    and waits for the agent to get busy.  The two signs on the screen are parameters,
    like the driver's other signs; so are where the transcript is found after the
    [k]-th command, and its size. *)
Definition _PASTE_SETTLE_S : Z := 2000000.
Definition _SUBMIT_VERIFY_POLLS : nat := 12.
Definition _ENTER_RETRIES : nat := 2.
Definition _BUSY_CONFIRM_POLLS : nat := 24.

Section claude_submit.
Context (ready_box busy : pystr → bool) (transcript_path : nat → option pystr) (file_size : pystr → nat → option Z).

Definition _submitted pane : bool := ready_box pane || busy pane.
Definition _transcript_size (p : option pystr) : M turn_state (option Z) :=
  gets (λ s, p ≫= λ p, file_size p (steps s)).

(** One look whether the prompt has gone. *)
Definition confirmed (path : option pystr) (baseline : option Z) : M turn_state bool :=
  match baseline with
  | Some b => size ← _transcript_size path; mret (match size with Some z => Z.ltb b z | None => false end)
  | None => pane ← capture_pane false; mret (_submitted pane)
  end.
Fixpoint verify (n : nat) path baseline : M turn_state bool :=
  match n with
  | 0 => mret false
  | S n => ok ← confirmed path baseline; if ok : bool then mret true else sleep poll_interval;; verify n path baseline
  end.
Fixpoint press_enter (n : nat) path baseline : M turn_state unit :=
  match n with
  | 0 => mret tt
  | S n =>
      send_keys [§"Enter"];;
      ok ← verify _SUBMIT_VERIFY_POLLS path baseline;
      if ok : bool then mret tt else press_enter n path baseline
  end.
Fixpoint confirm_busy (n : nat) : M turn_state unit :=
  match n with
  | 0 => mret tt
  | S n => pane ← capture_pane false; if busy pane then mret tt else sleep poll_interval;; confirm_busy n
  end.
Definition claude_submit prompt : M turn_state unit :=
  send_text prompt;;
  sleep _PASTE_SETTLE_S;;
  path ← gets (transcript_path ∘ steps);
  baseline ← _transcript_size path;
  press_enter (1 + _ENTER_RETRIES) path baseline;;
  confirm_busy _BUSY_CONFIRM_POLLS.
End claude_submit.

(** ** Polling *)

(** How a wait ends: a predicate held, the deadline passed, or it goes on after
    the polls it was given. *)
Inductive wait_end := Hit (key : pystr) | Deadline | Polling.
#[local] Instance wait_end_eq_dec : EqDecision wait_end.
Proof. solve_decision. Defined.

Fixpoint first_hit (predicates : list (pystr * (pystr → M turn_state bool))) pane
  : M turn_state (option pystr) :=
  match predicates with
  | [] => mret None
  | (key, predicate) :: predicates =>
      b ← predicate pane;
      if b : bool then mret (Some key) else first_hit predicates pane
  end.

Definition past (deadline : option Z) (t : Z) : bool :=
  match deadline with Some d => (d <=? t)%Z | None => false end.

Fixpoint poll (fuel : nat) predicates (deadline : option Z) : M turn_state wait_end :=
  match fuel with
  | 0 => mret Polling
  | S fuel =>
      pane ← _capture_resilient false;
      hit ← first_hit predicates pane;
      match hit with
      | Some key => mret (Hit key)
      | None =>
          t ← gets now;
          if past deadline t then mret Deadline
          else sleep poll_interval;; poll fuel predicates deadline
      end
  end.

(** No timeout, or one that is not positive, sets no deadline. *)
Definition deadline_of (timeout : option Z) (t : Z) : option Z :=
  match timeout with
  | Some d => if (d <=? 0)%Z then None else Some (t + d)%Z
  | None => None
  end.

Definition _wait_for_any (fuel : nat) predicates (timeout : option Z) : M turn_state wait_end :=
  t ← gets now;
  poll fuel predicates (deadline_of timeout t).

Definition _wait_for (fuel : nat) (predicate : pystr → bool) (timeout : option Z) : M turn_state wait_end :=
  _wait_for_any fuel [(§"hit", λ pane, mret (predicate pane))] timeout.

(** ** Starting the agent program *)

Definition _fail_startup {A} (tail : pystr) : M turn_state A :=
  suppress (λ _, true) close;; set_status Dead;; raise (TmuxStartupError tail).

Definition merged_env : dict pystr pystr :=
  foldl (λ d kv, dset kv.1 kv.2 d) (match session_env driver with Some (Ok d) => d | _ => [] end) env.

Definition new_session_argv : list pystr :=
  [§"new-session"; §"-d"; §"-s"; tmux_name; §"-x"; width; §"-y"; height; §"-c"; cwd] ++
  (match conv_key with
   | Some ((_ :: _) as k) => [§"-e"; §"FRAGO_CONV_KEY=" ++ k]
   | _ => []
   end) ++
  concat (map (λ kv, [§"-e"; kv.1 ++ §"=" ++ kv.2]) merged_env).

Fixpoint run_handlers (l : list ((pystr → bool) * M turn_state unit)) : M turn_state unit :=
  match l with
  | [] => mret tt
  | (trigger, action) :: l =>
      pane_now ← try_except (λ _, true) (capture_pane false) (λ _, mret []);
      (if trigger pane_now : bool then action else mret tt);;
      run_handlers l
  end.

(** [open]; [false] is an agent that is still being waited for after [fuel] polls. *)
Definition open (fuel : nat) (ready_timeout : Z) : M turn_state bool :=
  _tmux new_session_argv;;
  send_text (launch_command driver);;
  send_keys [§"Enter"];;
  reached ← (λ s,
    match _wait_for fuel (ready_signal driver) (Some ready_timeout) s with
    | (Raise (SessionVanished last), s') =>
        _fail_startup (match _pane_tail last 20 with
                       | [] => ¶"(会话在就绪前已消失，未留下任何屏幕内容)"
                       | tail => tail
                       end) s'
    | r => r
    end);
  match reached with
  | Polling => mret false
  | Deadline =>
      tail ← try_except (λ _, true) (pane ← capture_pane false; mret (_pane_tail pane 20)) (λ _, mret []);
      _fail_startup tail
  | Hit _ =>
      run_handlers (exception_handlers driver);;
      set_status Ready;;
      set_active;;
      mret true
  end.

(** ** A turn *)

(** The probe only reads; one that raises has nothing to say. *)
Definition probe_once (probe : nat → res (option CompletionVerdict)) (k : nat)
  : option CompletionVerdict :=
  match probe k with Ok v => v | Raise _ => None end.

Definition baseline_marker : M turn_state (option pystr) :=
  match completion_probe driver with
  | None => mret None
  | Some probe => pre ← gets (probe_once probe ∘ steps); mret (pre ≫= marker)
  end.

(** The turn is over: by the probe where it has something to say, else by the
    screen. *)
Definition _ok (baseline : option pystr) pane : M turn_state bool :=
  match completion_probe driver with
  | None => mret (done_signal driver pane)
  | Some probe =>
      verdict ← gets (probe_once probe ∘ steps);
      match verdict with
      | None => mret (done_signal driver pane)
      | Some v =>
          if v_done v && bool_decide (marker v ≠ baseline)
          then set_box (Some v);; mret true
          else mret false
      end
  end.

Definition submit_prompt prompt : M turn_state unit :=
  try_except (λ e, bool_decide (e = CalledProcessError)) (submit driver prompt) (λ e,
    alive ← is_alive;
    last ← gets last_pane_or_empty;
    if alive : bool then raise e else raise (SessionVanished last)).

Definition turn_predicates (baseline : option pystr) : list (pystr * (pystr → M turn_state bool)) :=
  (§"ok", _ok baseline) ::
  match needs_input_signal driver with
  | Some f => [(§"needs_input", λ pane, mret (f pane))]
  | None => []
  end.

(** Text and raw text of the turn. *)
Definition read_turn (pre_snapshot prompt : pystr) (verdict : option CompletionVerdict)
  : M turn_state (pystr * pystr) :=
  match verdict ≫= v_text with
  | Some t => mret (t, t)
  | None =>
      match read_answer driver with
      | Some f =>
          pane ← _capture_resilient false;
          t ← lift_res (f pane prompt);
          mret (t, pane)
      | None =>
          scrollback ← _capture_resilient true;
          let d := _compute_delta pre_snapshot scrollback in
          t ← lift_res (extract driver d);
          mret (t, d)
      end
  end.

Definition verdict_end (v : CompletionVerdict) : turn_status :=
  match v_status v with VOk => TOk | VNeedsInput => TNeedsInput | VError => TError end.

Definition turn_end (outcome : wait_end) (verdict : option CompletionVerdict) : turn_status :=
  match outcome with
  | Hit key =>
      if decide (key = §"ok") then match verdict with Some v => verdict_end v | None => TOk end
      else TNeedsInput
  | _ => TTimeout
  end.

(** The end of [_send_turn], once the wait is over. *)
Definition finish_turn (pre_snapshot prompt : pystr) (start : Z) (outcome : wait_end)
  : M turn_state (option TurnResult) :=
  box ← gets probe_box;
  let verdict := if decide (outcome = Hit (§"ok")) then box else None in
  '(t, raw) ← read_turn pre_snapshot prompt verdict;
  ends ← gets now;
  set_status Idle;;
  set_active;;
  mret (Some {| text := t; raw_delta := raw; turn_status_of := turn_end outcome verdict;
                duration_ms := Z.quot (ends - start) 1000 |}).

(** [_send_turn]; [None] is a turn still going on after [fuel] polls. *)
Definition _send_turn (fuel : nat) prompt (start : Z) (timeout : option Z)
  : M turn_state (option TurnResult) :=
  pre_snapshot ← _capture_resilient false;
  baseline ← baseline_marker;
  submit_prompt prompt;;
  set_box None;;
  outcome ← _wait_for_any fuel (turn_predicates baseline) timeout;
  match outcome with
  | Polling => mret None
  | _ => finish_turn pre_snapshot prompt start outcome
  end.

Definition vanished_note (last : pystr) : pystr :=
  let note := §"tmux session '" ++ tmux_name ++
    §"' disappeared mid-turn; the agent process is gone and this turn produced no answer." in
  match join_with [10%N] (lastn 20 (splitlines last)) with
  | [] => note
  | tail => note ++ [10%N] ++ §"--- last pane ---" ++ [10%N] ++ tail
  end.

Definition send (fuel : nat) prompt (timeout : option Z) : M turn_state (option TurnResult) := λ s,
  let start := now s in
  match (set_status Busy;; _send_turn fuel prompt start timeout) s with
  | (Raise (SessionVanished last), s') =>
      (set_status Dead;;
       set_active;;
       ends ← gets now;
       mret (Some {| text := vanished_note last; raw_delta := last; turn_status_of := TError;
                     duration_ms := Z.quot (ends - start) 1000 |})) s'
  | r => r
  end.

(** [SessionLauncher.run]: open, one turn, close unless the session is kept. *)
Definition turn_then_close (fuel : nat) prompt (keep_alive : bool) (timeout : option Z)
  : M turn_state (option TurnResult) := λ s,
  let '(r, s') := send fuel prompt timeout s in
  (r, if keep_alive then s' else (suppress (λ _, true) close s').2).
Definition launch_and_run (fuel : nat) prompt (keep_alive : bool) (timeout : option Z)
  : M turn_state (option TurnResult) :=
  opened ← open fuel 30000000;
  if opened : bool then turn_then_close fuel prompt keep_alive timeout else mret None.

(** ** The text functions *)

Lemma chunks_spec fuel n t : 0 < n → length t ≤ fuel →
  concat (chunks fuel n t) = t ∧ Forall (λ c, c ≠ [] ∧ length c ≤ n) (chunks fuel n t).
Proof.
  intros Hn. revert t. induction fuel as [|fuel IH]; intros [|c t] Hl; cbn in Hl; try by (cbn; lia || split).
  destruct n as [|n]; [lia|]. cbn [chunks concat]. destruct (IH (drop (S n) (c :: t))) as [Hc Hf].
  { rewrite length_drop. cbn. lia. }
  split; [by rewrite Hc, take_drop|]. constructor; [|done]. split; [done|]. rewrite length_take. lia.
Qed.

Lemma after_last_spec a ls : 
  match after_last a ls with
  | Some rest => ∃ pre, ls = pre ++ a :: rest ∧ a ∉ rest
  | None => a ∉ ls
  end.
Proof.
  induction ls as [|l ls IH]; cbn [after_last]; [apply not_elem_of_nil|].
  destruct (after_last a ls) as [rest|].
  - destruct IH as (pre & -> & Hr). by exists (l :: pre).
  - case_decide as Hl; subst; [by exists []|]. by apply not_elem_of_cons.
Qed.

Lemma delta_from_spec anchors ls :
  let spent b := b ∉ ls ∨ ∃ p, ls = p ++ [b] in
  match delta_from anchors ls with
  | Some rest => ∃ tried a others pre, anchors = tried ++ a :: others ∧ Forall spent tried ∧
      ls = pre ++ a :: rest ∧ rest ≠ [] ∧ a ∉ rest
  | None => Forall spent anchors
  end.
Proof.
  intros spent. induction anchors as [|a anchors IH]; cbn [delta_from]; [by constructor|].
  pose proof (after_last_spec a ls) as Ha.
  assert (Hskip : spent a → match delta_from anchors ls with
    | Some rest => ∃ tried a' others pre, a :: anchors = tried ++ a' :: others ∧ Forall spent tried ∧
        ls = pre ++ a' :: rest ∧ rest ≠ [] ∧ a' ∉ rest
    | None => Forall spent (a :: anchors)
    end).
  { intros Hs. destruct (delta_from anchors ls) as [rest|]; [|by constructor].
    destruct IH as (tried & a' & others & pre & -> & Ht & Hr). exists (a :: tried), a', others, pre.
    split; [done|]. split; [by constructor|done]. }
  destruct (after_last a ls) as [[|l rest]|].
  - apply Hskip. right. destruct Ha as (pre & Hp & _). by exists pre.
  - destruct Ha as (pre & Hp & Hn). exists [], a, anchors, pre. split; [done|]. split; [constructor|].
    split; [exact Hp|]. by split.
  - apply Hskip. by left.
Qed.

(** What a turn added to the screen.  Subtracting the screen before from the
    scrollback after leaves the lines after the last occurrence of a line [a]
    that was on the screen before, at least one, none of them [a] again; and
    every line that was below [a] is gone, or is the very last line now.  Only
    when no line of the screen before serves, the whole scrollback is left. *)
Theorem compute_delta_spec before scrollback :
  let olds := filter (λ l, solid l = true) (splitlines before) in
  let spent b := b ∉ splitlines scrollback ∨ ∃ p, splitlines scrollback = p ++ [b] in
  (Forall spent olds ∧ _compute_delta before scrollback = scrollback) ∨
  ∃ above a below pre added, olds = above ++ a :: below ∧ Forall spent below ∧
    splitlines scrollback = pre ++ a :: added ∧ added ≠ [] ∧ a ∉ added ∧
    _compute_delta before scrollback = join_with [10%N] added.
Proof.
  intros olds spent. unfold _compute_delta. fold olds.
  pose proof (delta_from_spec (reverse olds) (splitlines scrollback)) as Hd.
  cbn zeta in Hd. fold spent in Hd. destruct (delta_from _ _) as [added|].
  - destruct Hd as (tried & a & others & pre & Ho & Ht & Hs & Hn & Ha). right.
    exists (reverse others), a, (reverse tried), pre, added. split_and!; try done.
    + rewrite <- (reverse_involutive olds), Ho, reverse_app, reverse_cons. by rewrite <- app_assoc.
    + by apply Forall_reverse.
  - left. split; [|done]. by apply Forall_reverse in Hd; rewrite reverse_involutive in Hd.
Qed.

(** ** Time *)

Definition screen_args : list pystr := [§"capture-pane"; §"-p"; §"-t"; tmux_name].

(** A later moment of the session: the clock and the count of commands have not
    gone back, and the last screen is the same or one that tmux gave since. *)
Record onward s s' : Prop := {
  on_time : (now s <= now s')%Z;
  on_steps : steps s ≤ steps s';
  on_pane : _last_pane s' = _last_pane s ∨
    ∃ k p, steps s ≤ k < steps s' ∧ runner w k screen_args = Ok p ∧ _last_pane s' = Some p;
}.

Lemma onward_trans s1 s2 s3 : onward s1 s2 → onward s2 s3 → onward s1 s3.
Proof.
  intros [T1 S1 P1] [T2 S2 P2]. split; [lia|lia|].
  destruct P2 as [->|(k & p & Hk & Hr & Hp)]; [|right; exists k, p; split; [lia|done]].
  destruct P1 as [->|(k & p & Hk & Hr & Hp)]; [by left|]. right. exists k, p. split; [lia|done].
Qed.

Lemma onward_still s s' : now s' = now s → steps s' = steps s → _last_pane s' = _last_pane s → onward s s'.
Proof. intros Ht Hs Hp. split; [lia|lia|by left]. Qed.

(** A computation that only moves on. *)
Definition forward {A} (m : M turn_state A) : Prop := ∀ s, onward s (m s).2.

Lemma forward_still {A} (m : M turn_state A) :
  (∀ s, now (m s).2 = now s ∧ steps (m s).2 = steps s ∧ _last_pane (m s).2 = _last_pane s) → forward m.
Proof. intros Hm s. destruct (Hm s) as (Ht & Hs & Hp). by apply onward_still. Qed.

Lemma forward_bind {A B} (m : M turn_state A) (f : A → M turn_state B) :
  forward m → (∀ a, forward (f a)) → forward (m ≫= f).
Proof.
  intros Hm Hf s. unfold mbind, M_bind. specialize (Hm s). destruct (m s) as [[a|e] s1]; [|done].
  cbn in Hm. eapply onward_trans; [exact Hm|apply Hf].
Qed.

Lemma forward_try {A} p (m : M turn_state A) h :
  forward m → (∀ e, forward (h e)) → forward (try_except p m h).
Proof.
  intros Hm Hh s. unfold try_except. specialize (Hm s). destruct (m s) as [[a|e] s1]; [done|].
  cbn in Hm. destruct (p e); [|done]. eapply onward_trans; [exact Hm|apply Hh].
Qed.

Lemma forward_tmux args : forward (_tmux args).
Proof. intros s. split; cbn; [lia|lia|by left]. Qed.

Lemma forward_is_alive : forward is_alive.
Proof.
  apply forward_try; [|by intros _; apply forward_still].
  apply forward_bind; [apply forward_tmux|by intros _; apply forward_still].
Qed.

Lemma forward_capture full : forward (_capture_resilient full).
Proof.
  intros s. unfold _capture_resilient.
  assert (onward s (capture_pane full s).2) as Hc by apply forward_tmux.
  destruct (capture_pane full s) as [[pane|e] s1] eqn:Ec; cbn in Hc.
  - destruct full; [exact Hc|]. unfold capture_pane, _tmux in Ec. injection Ec as Er <-.
    unfold mbind, M_bind. split; cbn; [lia|lia|]. right. exists (steps s), pane. split; [lia|done].
  - eapply onward_trans; [exact Hc|]. apply forward_bind; [apply forward_is_alive|]. intros alive.
    apply forward_bind; [by apply forward_still|]. intros last. by destruct alive; apply forward_still.
Qed.

Lemma forward_first_hit predicates pane :
  Forall (λ kp, ∀ pane, forward (kp.2 pane)) predicates → forward (first_hit predicates pane).
Proof.
  induction 1 as [|[k p] l Hp _ IH]; cbn [first_hit]; [by apply forward_still|].
  apply forward_bind; [apply Hp|]. intros [|]; [by apply forward_still|done].
Qed.

(** A wait with a deadline ends after as many polls as sleeps fit before it. *)
Lemma poll_ends fuel predicates d s : (0 < poll_interval)%Z →
  Forall (λ kp, ∀ pane, forward (kp.2 pane)) predicates →
  (d - now s <= Z.of_nat fuel * poll_interval)%Z →
  (poll (S fuel) predicates (Some d) s).1 ≠ Ok Polling.
Proof.
  intros Hi Hp. revert s. induction fuel as [|fuel IH]; intros s Hd; cbn [poll].
  all: unfold mbind, M_bind; pose proof (forward_capture false s) as Hc;
    destruct (_capture_resilient false s) as [[pane|e] s1]; [|done]; cbn in Hc.
  all: pose proof (forward_first_hit predicates pane Hp s1) as Hh;
    destruct (first_hit predicates pane s1) as [[[k|]|e] s2]; [done| |done]; cbn in Hh.
  all: cbn [gets past]; destruct (Z.leb_spec d (now s2)); [done|].
  all: destruct Hc as [Hc _ _], Hh as [Hh _ _].
  - lia.
  - cbn [sleep modify]. apply IH. cbn [now]. lia.
Qed.

Lemma forward_poll fuel predicates deadline : (0 <= poll_interval)%Z →
  Forall (λ kp, ∀ pane, forward (kp.2 pane)) predicates → forward (poll fuel predicates deadline).
Proof.
  intros Hi Hp. induction fuel as [|fuel IH]; cbn [poll]; [by apply forward_still|].
  apply forward_bind; [apply forward_capture|]. intros pane.
  apply forward_bind; [by apply forward_first_hit|]. intros [key|]; [by apply forward_still|].
  apply forward_bind; [by apply forward_still|]. intros t. destruct (past deadline t); [by apply forward_still|].
  apply forward_bind; [|by intros _]. intros s. split; cbn; [lia|lia|by left].
Qed.

(** ** What a turn's result means *)

(** A finding of the probe between two commands that is not the one from before
    the prompt. *)
Definition fresh_verdict (lo hi : nat) (baseline : option pystr) (v : CompletionVerdict) : Prop :=
  ∃ probe k, completion_probe driver = Some probe ∧ lo ≤ k ≤ hi ∧ probe_once probe k = Some v ∧
    v_done v = true ∧ marker v ≠ baseline.

(** The screen shows the end of the turn and the probe has nothing to say. *)
Definition screen_done s : Prop :=
  done_signal driver (last_pane_or_empty s) = true ∧
  ∀ probe, completion_probe driver = Some probe → probe_once probe (steps s) = None.

Lemma capture_shown s pane s' : _capture_resilient false s = (Ok pane, s') →
  pane = last_pane_or_empty s' ∧ probe_box s' = probe_box s ∧ status s' = status s.
Proof.
  unfold _capture_resilient. unfold capture_pane, _tmux. destruct (runner _ _ _) as [p|e].
  { by intros [= <- <-]. }
  unfold is_alive, try_except, _tmux, mbind, M_bind. cbn.
  destruct (runner _ _ _) as [p|e']; cbn; [by intros [= <- <-]|]. case_bool_decide; by cbn.
Qed.

Lemma ok_true b pane s s' : _ok b pane s = (Ok true, s') → pane = last_pane_or_empty s →
  probe_box s = None →
  probe_box s' = None ∧ screen_done s' ∨
  ∃ v, fresh_verdict (steps s) (steps s') b v ∧ probe_box s' = Some v.
Proof.
  unfold _ok, screen_done, fresh_verdict. intros Hok -> Hb.
  destruct (completion_probe driver) as [probe|]; [|by cbn in Hok; injection Hok as Hd <-; left].
  unfold mbind, M_bind in Hok. cbn in Hok. destruct (probe_once probe (steps s)) as [v|] eqn:Ev.
  - destruct (v_done v) eqn:Ed, (bool_decide_reflect (marker v ≠ b)); cbn in Hok; try done.
    injection Hok as <-. right. exists v. split; [|done]. by exists probe, (steps s).
  - cbn in Hok. injection Hok as Hd <-. left. split; [done|]. split; [done|]. by intros ? [= <-].
Qed.

Lemma ok_false b pane s s' : _ok b pane s = (Ok false, s') → s' = s.
Proof.
  unfold _ok. destruct (completion_probe driver) as [probe|]; [|by intros [= _ <-]].
  unfold mbind, M_bind. cbn. destruct (probe_once probe (steps s)) as [v|]; [|by intros [= _ <-]].
  destruct (v_done v && bool_decide (marker v ≠ b)); [done|]. by intros [= <-].
Qed.

Lemma ok_never_raises b pane s : ∃ r, (_ok b pane s).1 = Ok r.
Proof.
  unfold _ok. destruct (completion_probe driver) as [probe|]; [|by eexists].
  unfold mbind, M_bind. cbn. destruct (probe_once probe (steps s)) as [v|]; [|by eexists].
  destruct (v_done v && bool_decide (marker v ≠ b)); by eexists.
Qed.

(** What the end of a wait tells, when no verdict was stored before it. *)
Definition ended (lo : nat) b deadline s (e : wait_end) : Prop :=
  match e with
  | Hit key =>
      key = §"ok" ∧ (probe_box s = None ∧ screen_done s ∨
        ∃ v, fresh_verdict lo (steps s) b v ∧ probe_box s = Some v) ∨
      key = §"needs_input" ∧ probe_box s = None ∧
        ∃ f, needs_input_signal driver = Some f ∧ f (last_pane_or_empty s) = true
  | Deadline => past deadline (now s) = true
  | Polling => True
  end.

Lemma first_hit_turn lo b pane s r s' : lo ≤ steps s → pane = last_pane_or_empty s → probe_box s = None →
  first_hit (turn_predicates b) pane s = (Ok r, s') →
  match r with
  | Some key => ∀ deadline, ended lo b deadline s' (Hit key)
  | None => s' = s
  end.
Proof.
  intros Hlo Hp Hb. unfold turn_predicates. cbn [first_hit]. unfold mbind, M_bind.
  destruct (_ok b pane s) as [[[|]|e] s1] eqn:Eo; [| |done].
  { intros [= <- <-] deadline. left. split; [done|].
    destruct (ok_true b pane s s1) as [Hs|(v & Hv & Hx)]; [done|done|done|by left|right].
    exists v. split; [|done]. destruct Hv as (probe & k & Hpr & Hk & Hv). exists probe, k. split; [done|]. split; [lia|done]. }
  apply ok_false in Eo as ->. destruct (needs_input_signal driver) as [f|] eqn:En; [|by intros [= <- <-]].
  cbn. destruct (f pane) eqn:Ef; intros [= <- <-]; [|done]. intros deadline. right.
  split; [done|]. split; [done|]. exists f. by rewrite <- Hp.
Qed.

Lemma poll_turn lo b fuel deadline s e s' : lo ≤ steps s → probe_box s = None →
  poll fuel (turn_predicates b) deadline s = (Ok e, s') → ended lo b deadline s' e.
Proof.
  revert s. induction fuel as [|fuel IH]; intros s Hlo Hb; cbn [poll]; [by intros [= <- <-]|].
  unfold mbind, M_bind. pose proof (on_steps _ _ (forward_capture false s)) as Hs.
  destruct (_capture_resilient false s) as [[pane|e1] s1] eqn:Ec; [|done]. cbn in Hs.
  apply capture_shown in Ec as (Hp & Hb1 & _).
  destruct (first_hit (turn_predicates b) pane s1) as [[[key|]|e1] s2] eqn:Eh; [| |done].
  { intros [= <- <-]. apply (first_hit_turn lo) in Eh; [apply Eh|lia|done|by rewrite Hb1]. }
  apply (first_hit_turn lo) in Eh as ->; [|lia|done|by rewrite Hb1]. cbn [gets].
  destruct (past deadline (now s1)) eqn:Ep; [by intros [= <- <-]|].
  apply IH; cbn; [lia|by rewrite Hb1].
Qed.

(** What the result of a turn begun in [s] says; [sb] is the moment before the
    prompt was typed, and [b] the marker of the turn before. *)
Definition meaning b timeout s sb (r : TurnResult) s' : Prop :=
  match turn_status_of r with
  | TOk => (∃ s1, onward sb s1 ∧ onward s1 s' ∧ screen_done s1) ∨
      ∃ v, fresh_verdict (steps sb) (steps s') b v ∧ v_status v = VOk ∧ ∀ t, v_text v = Some t → text r = t
  | TTimeout => ∃ d, timeout = Some d ∧ (0 < d)%Z ∧ (now s + d <= now s')%Z
  | TNeedsInput =>
      (∃ s1 f, onward sb s1 ∧ onward s1 s' ∧
         needs_input_signal driver = Some f ∧ f (last_pane_or_empty s1) = true) ∨
      ∃ v, fresh_verdict (steps sb) (steps s') b v ∧ v_status v = VNeedsInput
  | TError => ∃ v, fresh_verdict (steps sb) (steps s') b v ∧ v_status v = VError
  end.

Lemma forward_read before prompt verdict : forward (read_turn before prompt verdict).
Proof.
  unfold read_turn. destruct (verdict ≫= v_text); [by apply forward_still|].
  destruct (read_answer driver); (apply forward_bind; [apply forward_capture|]; intros ?;
    apply forward_bind; [by apply forward_still|by intros ?; apply forward_still]).
Qed.

Lemma read_verdict before prompt v t s p s' : v_text v = Some t →
  read_turn before prompt (Some v) s = (Ok p, s') → p.1 = t.
Proof. unfold read_turn. cbn. intros ->. by intros [= <- <-]. Qed.

Lemma forward_submit prompt : forward (submit driver prompt) → forward (submit_prompt prompt).
Proof.
  intros Hf. apply forward_try; [done|]. intros e. apply forward_bind; [apply forward_is_alive|].
  intros alive. apply forward_bind; [by apply forward_still|]. intros last. by destruct alive; apply forward_still.
Qed.

Lemma baseline_same s r s' : baseline_marker s = (r, s') → s' = s.
Proof. unfold baseline_marker. destruct (completion_probe driver); by intros [= _ <-]. Qed.

Lemma past_deadline timeout t0 t : past (deadline_of timeout t0) t = true →
  ∃ d, timeout = Some d ∧ (0 < d)%Z ∧ (t0 + d <= t)%Z.
Proof.
  unfold past, deadline_of. destruct timeout as [d|]; [|done]. destruct (Z.leb_spec d 0); [done|].
  intros Hle. exists d. split; [done|]. lia.
Qed.

Lemma forward_turn_predicates b : Forall (λ kp, ∀ pane, forward (kp.2 pane)) (turn_predicates b).
Proof.
  constructor.
  - intros pane. unfold _ok. cbn [snd]. destruct (completion_probe driver) as [probe|]; [|by apply forward_still].
    apply forward_bind; [by apply forward_still|]. intros [v|]; [|by apply forward_still].
    by destruct (v_done v && _); apply forward_still.
  - destruct (needs_input_signal driver); [|constructor]. apply Forall_singleton. intros pane. by apply forward_still.
Qed.

Lemma fresh_later lo hi hi' b v : hi ≤ hi' → fresh_verdict lo hi b v → fresh_verdict lo hi' b v.
Proof. intros Hle (probe & k & Hp & Hk & Hv). exists probe, k. split; [done|]. split; [lia|done]. Qed.

Lemma finish_sound b timeout t0 before prompt start e s sb s4 r s' : e ≠ Polling →
  ended (steps sb) b (deadline_of timeout t0) s4 e → (now s <= t0)%Z → onward sb s4 →
  finish_turn before prompt start e s4 = (Ok (Some r), s') →
  status s' = Idle ∧ meaning b timeout s sb r s'.
Proof.
  intros Hne He Hle Ho. unfold finish_turn. unfold mbind at 1, M_bind at 1. cbn [gets].
  set (verdict := if decide _ then probe_box s4 else None). unfold mbind at 1, M_bind at 1.
  pose proof (forward_read before prompt verdict s4) as Hf.
  destruct (read_turn before prompt verdict s4) as [[[t raw]|] s5] eqn:Er; [|done]. cbn in Hf.
  munfold. cbn [set_status set_active modify]. intros [= <- <-]. split; [done|]. set (s' := {| steps := _ |}).
  assert (onward s4 s') as Hf' by (by eapply onward_trans; [exact Hf|apply onward_still]).
  pose proof (on_steps _ _ Hf') as Hst. unfold meaning. cbn [turn_status_of text].
  destruct e as [key| |]; [| |done].
  - cbn [turn_end]. cbn [ended] in He. subst verdict.
    destruct He as [[-> Hor]|(-> & _ & f & Hn & Hfp)]; [|by left; exists s4, f].
    rewrite (decide_True _ _ (eq_refl (Hit (§"ok")))) in *. rewrite decide_True by done.
    destruct Hor as [[-> Hd]|(v & Hv & Hb)]; [by left; exists s4|]. rewrite Hb in *. unfold verdict_end.
    apply (fresh_later _ _ _ _ _ Hst) in Hv.
    destruct (v_status v) eqn:Ev; [right|right|]; exists v; split; try done. split; [done|].
    intros t' Ht. symmetry. by apply (read_verdict _ _ _ _ _ _ _ Ht) in Er.
  - cbn [turn_end]. apply past_deadline in He as (d & Hd & Hp & Hn). exists d. split; [done|].
    pose proof (on_time _ _ Hf'). lia.
Qed.

Lemma send_turn_sound fuel prompt start timeout s r s' : (0 <= poll_interval)%Z →
  (∀ p, forward (submit driver p)) → _send_turn fuel prompt start timeout s = (Ok (Some r), s') →
  status s' = Idle ∧ ∃ pane sb b, _capture_resilient false s = (Ok pane, sb) ∧
    baseline_marker sb = (Ok b, sb) ∧ meaning b timeout s sb r s'.
Proof.
  intros Hi Hsub. unfold _send_turn, mbind, M_bind.
  pose proof (forward_capture false s) as F1.
  destruct (_capture_resilient false s) as [[pane|e] sb] eqn:Ec; [|done].
  destruct (baseline_marker sb) as [[b|e] s1] eqn:Eb; [|done]. pose proof (baseline_same _ _ _ Eb) as ->.
  pose proof (forward_submit prompt (Hsub prompt) sb) as F2.
  destruct (submit_prompt prompt sb) as [[[]|e] s2]; [|done]. cbn [set_box modify].
  set (s3 := {| steps := _ |}). unfold _wait_for_any, mbind, M_bind. cbn [gets].
  pose proof (forward_poll fuel (turn_predicates b) (deadline_of timeout (now s3)) Hi (forward_turn_predicates b) s3) as F3.
  destruct (poll fuel _ _ s3) as [[e|] s4] eqn:Ep; [|done]. cbn in F1, F2, F3.
  pose proof (on_steps _ _ F2) as Hst. pose proof (on_time _ _ F1) as T1. pose proof (on_time _ _ F2) as T2.
  pose proof (poll_turn (steps sb) b fuel _ s3 e s4 ltac:(cbn; lia) eq_refl Ep) as He.
  destruct (decide (e = Polling)) as [->|Hne]; [done|].
  intros Hr. assert (Hfin : finish_turn pane prompt start e s4 = (Ok (Some r), s')) by by destruct e.
  destruct (finish_sound b timeout (now s3) pane prompt start e s sb s4 r s' Hne He ltac:(cbn; lia)) as [Hid Hm].
  - eapply onward_trans; [exact F2|]. eapply onward_trans; [|exact F3]. by apply onward_still.
  - done.
  - split; [done|]. by exists pane, sb, b.
Qed.

(** What the result of a turn means.  ["ok"]: since just before the prompt, the
    screen showed the end of the turn while the probe had nothing to say, or the
    probe found a finished turn that is not the one from before, whose text is
    then the answer.  ["timeout"]: a timeout was set and has passed.
    ["needs_input"]: the screen showed a question since, or the probe said so of
    a new turn.  ["error"]: the session is gone, and its state says so, or the
    probe said so of a new turn.  Whatever it is, the session is left idle or
    dead. *)
Theorem send_means fuel prompt timeout s r s' : (0 <= poll_interval)%Z →
  (∀ p, forward (submit driver p)) → send fuel prompt timeout s = (Ok (Some r), s') →
  (status s' = Dead ∧ turn_status_of r = TError) ∨
  status s' = Idle ∧ ∃ pane sb b, _capture_resilient false (set_status Busy s).2 = (Ok pane, sb) ∧
    baseline_marker sb = (Ok b, sb) ∧ meaning b timeout s sb r s'.
Proof.
  intros Hi Hsub. unfold send, mbind, M_bind. cbn [set_status modify snd]. set (busy := {| steps := _ |}).
  destruct (_send_turn fuel prompt (now s) timeout busy) as [[o|e] s1] eqn:Et.
  - intros [= -> ->]. right. apply send_turn_sound in Et as (Hid & pane & sb & b & Hc & Hb & Hm); [|done|done].
    split; [done|]. by exists pane, sb, b.
  - destruct e; try done. intros [= <- <-]. by left.
Qed.

(** ** Turns end *)

Lemma wait_ends fuel predicates d s : (0 < poll_interval)%Z → (0 < d <= Z.of_nat fuel * poll_interval)%Z →
  Forall (λ kp, ∀ pane, forward (kp.2 pane)) predicates →
  (_wait_for_any (S fuel) predicates (Some d) s).1 ≠ Ok Polling.
Proof.
  intros Hi Hd Hp. unfold _wait_for_any, mbind, M_bind. cbn [gets deadline_of].
  destruct (Z.leb_spec d 0); [lia|]. apply poll_ends; [done|done|lia].
Qed.

Lemma finish_not_None before prompt start e s : (finish_turn before prompt start e s).1 ≠ Ok None.
Proof.
  unfold finish_turn, mbind, M_bind. cbn [gets].
  by destruct (read_turn _ _ _ s) as [[[t raw]|] s1].
Qed.

Lemma send_ends fuel prompt d s : (0 < poll_interval)%Z → (0 < d <= Z.of_nat fuel * poll_interval)%Z →
  (send (S fuel) prompt (Some d) s).1 ≠ Ok None.
Proof.
  intros Hi Hd. unfold send, mbind, M_bind. cbn [set_status modify]. set (busy := {| steps := _ |}).
  assert ((_send_turn (S fuel) prompt (now s) (Some d) busy).1 ≠ Ok None) as Ht.
  { unfold _send_turn, mbind, M_bind. destruct (_capture_resilient false busy) as [[pane|e] s1]; [|done].
    destruct (baseline_marker s1) as [[b|e] s2]; [|done].
    destruct (submit_prompt prompt s2) as [[[]|e] s3]; [|done]. cbn [set_box modify].
    set (s4 := {| steps := _ |}).
    pose proof (wait_ends fuel (turn_predicates b) d s4 Hi Hd (forward_turn_predicates b)) as Hw.
    destruct (_wait_for_any _ _ _ s4) as [[[key| |]|e] s5]; try done; apply finish_not_None. }
  destruct (_send_turn _ _ _ _ busy) as [[o|[]] s1]; done.
Qed.

Lemma open_ends fuel d s : (0 < poll_interval)%Z → (0 < d <= Z.of_nat fuel * poll_interval)%Z →
  (open (S fuel) d s).1 ≠ Ok false.
Proof.
  intros Hi Hd. unfold open, mbind, M_bind. destruct (_tmux new_session_argv s) as [[o|e] s1]; [|done].
  destruct (send_text _ s1) as [[[]|e] s2]; [|done]. destruct (send_keys _ s2) as [[[]|e] s3]; [|done].
  unfold _wait_for.
  pose proof (wait_ends fuel [(§"hit", λ pane, mret (ready_signal driver pane))] d s3 Hi Hd) as Hw.
  destruct (_wait_for_any _ _ _ s3) as [[[key| |]|e] s4].
  - destruct (run_handlers _ s4) as [[[]|e] s5]; done.
  - destruct (try_except _ _ _ s4) as [[tail|e] s5]; [|done]. unfold _fail_startup, mbind, M_bind.
    by destruct (suppress _ _ s5) as [[[]|e] s6].
  - exfalso. apply Hw; [|done]. apply Forall_singleton. intros pane. by apply forward_still.
  - destruct e; try done. unfold _fail_startup, mbind, M_bind. by destruct (suppress _ _ s4) as [[[]|e] s5].
Qed.

(** Closing, whatever comes of it, kills the session last. *)
Lemma close_kills s : last (sent (suppress (λ _, true) close s).2) = Some [§"kill-session"; §"-t"; tmux_name].
Proof.
  unfold suppress, close, mbind, M_bind, _tmux. by destruct (runner _ _ _); cbn [sent snd fst set_status modify]; rewrite last_snoc.
Qed.

(** ** Failures *)

(** What a failing command raises: it ended with an error, or could not be run. *)
Definition honest_runner : Prop :=
  ∀ k args e, runner w k args = Raise e → e = CalledProcessError ∨ e = OSError.

Lemma is_alive_raises s e s' : is_alive s = (Raise e, s') → e ≠ CalledProcessError.
Proof.
  unfold is_alive, try_except, mbind, M_bind, _tmux. destruct (runner _ _ _) as [o|e']; [done|].
  case_bool_decide; [done|]. by intros [= <- _].
Qed.

Lemma capture_raises full s e s' : _capture_resilient full s = (Raise e, s') → e ≠ CalledProcessError.
Proof.
  unfold _capture_resilient, mbind, M_bind. destruct (capture_pane full s) as [[pane|e1] s1]; [by destruct full|].
  destruct (is_alive s1) as [[[|]|e2] s2] eqn:Ea; cbn; [done|by intros [= <- _]|].
  intros [= <- _]. by apply is_alive_raises in Ea.
Qed.

Lemma first_hit_total b pane s : ∃ r, (first_hit (turn_predicates b) pane s).1 = Ok r.
Proof.
  unfold turn_predicates. cbn [first_hit]. unfold mbind, M_bind. destruct (ok_never_raises b pane s) as [r Hr].
  destruct (_ok b pane s) as [[[|]|e] s1]; [by eexists| |done].
  destruct (needs_input_signal driver) as [f|]; [|by eexists]. cbn. destruct (f pane); by eexists.
Qed.

Lemma poll_raises b fuel deadline s e s' :
  poll fuel (turn_predicates b) deadline s = (Raise e, s') → e ≠ CalledProcessError.
Proof.
  revert s. induction fuel as [|fuel IH]; intros s; cbn [poll]; [done|]. unfold mbind, M_bind.
  destruct (_capture_resilient false s) as [[pane|e1] s1] eqn:Ec; [|by intros [= <- _]; apply capture_raises in Ec].
  destruct (first_hit_total b pane s1) as [r Hr].
  destruct (first_hit _ pane s1) as [[[key|]|e1] s2]; [done| |done]. cbn [gets].
  destruct (past deadline (now s2)); [done|]. apply IH.
Qed.

Lemma read_raises before prompt verdict s e s' :
  (∀ f p q, read_answer driver = Some f → f p q ≠ Raise CalledProcessError) →
  (∀ d, extract driver d ≠ Raise CalledProcessError) →
  read_turn before prompt verdict s = (Raise e, s') → e ≠ CalledProcessError.
Proof.
  intros Hr Hx. unfold read_turn. destruct (verdict ≫= v_text); [done|]. unfold mbind, M_bind.
  destruct (read_answer driver) as [f|].
  - destruct (_capture_resilient false s) as [[pane|e1] s1] eqn:Ec; [|by intros [= <- _]; apply capture_raises in Ec].
    cbn. specialize (Hr f pane prompt eq_refl). destruct (f pane prompt); cbn; [done|]. intros [= <- _]. congruence.
  - destruct (_capture_resilient true s) as [[pane|e1] s1] eqn:Ec; [|by intros [= <- _]; apply capture_raises in Ec].
    cbn. specialize (Hx (_compute_delta before pane)). destruct (extract _ _); cbn; [done|]. intros [= <- _]. congruence.
Qed.

(** A session that dies in a turn is a result, not an error of tmux.  [send]
    never lets the failure of a tmux command out, unless it was the one that
    typed the prompt and the session is still there after it; and it never lets
    out that the session is gone. *)
Theorem send_failures fuel prompt timeout s e s' :
  (∀ f p q, read_answer driver = Some f → f p q ≠ Raise CalledProcessError) →
  (∀ d, extract driver d ≠ Raise CalledProcessError) →
  send fuel prompt timeout s = (Raise e, s') →
  (∀ last, e ≠ SessionVanished last) ∧
  (e = CalledProcessError → ∃ s1 s2, submit driver prompt s1 = (Raise CalledProcessError, s2) ∧
     is_alive s2 = (Ok true, s')).
Proof.
  intros Hr Hx. unfold send, mbind, M_bind. cbn [set_status modify]. set (busy := {| steps := _ |}).
  destruct (_send_turn fuel prompt (now s) timeout busy) as [[o|e1] s1] eqn:Et; [done|].
  intros He. assert (e1 = e ∧ s1 = s' ∧ ∀ last, e1 ≠ SessionVanished last) as (-> & -> & Hv).
  { by destruct e1; try done; injection He as <- <-. }
  split; [done|]. intros ->. clear He Hv. revert Et. unfold _send_turn, mbind, M_bind.
  destruct (_capture_resilient false busy) as [[pane|e] s2] eqn:Ec;
    [|by intros [= -> _]; apply capture_raises in Ec].
  destruct (baseline_marker s2) as [[b|e] s3] eqn:Eb.
  2: { unfold baseline_marker in Eb. by destruct (completion_probe driver). }
  destruct (submit_prompt prompt s3) as [[[]|e] s4] eqn:Es.
  - cbn [set_box modify]. set (s5 := {| steps := _ |}). unfold _wait_for_any, mbind, M_bind. cbn [gets].
    destruct (poll fuel _ _ s5) as [[e|e] s6] eqn:Ep; [|by intros [= -> _]; apply poll_raises in Ep].
    intros Ht. assert (finish_turn pane prompt (now s) e s6 = (Raise CalledProcessError, s')) as Hfin by by destruct e.
    exfalso. revert Hfin. unfold finish_turn, mbind, M_bind. cbn [gets].
    destruct (read_turn _ _ _ s6) as [[[t raw]|e'] s7] eqn:Er; [done|]. intros [= -> _].
    by apply read_raises in Er.
  - intros [= -> ->]. revert Es. unfold submit_prompt, try_except, mbind, M_bind.
    destruct (submit driver prompt s3) as [[[]|e] s5] eqn:Eu; [done|].
    case_bool_decide as He; [subst e|by intros [= -> _]].
    destruct (is_alive s5) as [[[|]|e] s6] eqn:Ea; cbn [gets]; [| |by intros [= -> _]; apply is_alive_raises in Ea].
    + intros [= <-]. by exists s3, s5.
    + done.
Qed.

(** Which failures are not a failed start. *)
Definition no_startup_error {A} (m : M turn_state A) : Prop :=
  ∀ s tail, (m s).1 ≠ Raise (TmuxStartupError tail).

Lemma no_startup_bind {A B} (m : M turn_state A) (f : A → M turn_state B) :
  no_startup_error m → (∀ a, no_startup_error (f a)) → no_startup_error (m ≫= f).
Proof.
  intros Hm Hf s tail. unfold mbind, M_bind. specialize (Hm s tail).
  destruct (m s) as [[a|e] s1]; [apply Hf|]. intros He. apply Hm. cbn in *. congruence.
Qed.

Lemma no_startup_try {A} p (m : M turn_state A) h :
  no_startup_error m → (∀ e, no_startup_error (h e)) → no_startup_error (try_except p m h).
Proof.
  intros Hm Hh s tail. unfold try_except. specialize (Hm s tail). destruct (m s) as [[a|e] s1]; [done|].
  destruct (p e); [apply Hh|done].
Qed.

Section honest.
Context (Hrun : honest_runner).

Lemma tmux_no_startup args : no_startup_error (_tmux args).
Proof. intros s tail. cbn. intros He. by destruct (Hrun _ _ _ He). Qed.

Lemma send_keys_no_startup keys : no_startup_error (send_keys keys).
Proof. apply no_startup_bind; [apply tmux_no_startup|]. by intros ? s tail. Qed.

Lemma send_text_no_startup t : no_startup_error (send_text t).
Proof.
  unfold send_text. destruct t as [|c t]; [apply send_keys_no_startup|].
  induction (chunks _ _ _) as [|p l IH]; cbn [send_pieces]; [by intros s tail|].
  apply no_startup_bind; [apply send_keys_no_startup|]. by intros _.
Qed.

Lemma capture_no_startup full : no_startup_error (_capture_resilient full).
Proof.
  assert (no_startup_error is_alive) as Ha.
  { apply no_startup_try; [|by intros e s tail]. apply no_startup_bind; [apply tmux_no_startup|by intros ? s tail]. }
  intros s tail. unfold _capture_resilient. destruct (capture_pane full s) as [[pane|e] s1]; [by destruct full|].
  unfold mbind, M_bind. specialize (Ha s1 tail). destruct (is_alive s1) as [[[|]|e'] s2]; [done|done|]. intros He. apply Ha. cbn in *. congruence.
Qed.

Lemma wait_for_end fuel predicate timeout s : 
  match _wait_for fuel predicate timeout s with
  | (Ok (Hit _), s') => predicate (last_pane_or_empty s') = true
  | (Raise (TmuxStartupError _), _) => False
  | _ => True
  end.
Proof.
  unfold _wait_for, _wait_for_any, mbind, M_bind. cbn [gets]. generalize (deadline_of timeout (now s)) as dl.
  intros dl. revert s. induction fuel as [|fuel IH]; intros s; cbn [poll]; [done|]. unfold mbind, M_bind.
  pose proof (capture_no_startup false s) as Hn.
  destruct (_capture_resilient false s) as [[pane|e] s1] eqn:Ec.
  2: { destruct e; try done. by apply (Hn tail). }
  apply capture_shown in Ec as (-> & _). cbn [first_hit]. unfold mbind, M_bind. cbn.
  destruct (predicate (last_pane_or_empty s1)) eqn:Ep; [done|]. cbn.
  destruct (past dl (now s1)); [done|]. apply IH.
Qed.

Lemma fail_startup_run {A} tail s : ∃ s', _fail_startup (A := A) tail s = (Raise (TmuxStartupError tail), s') ∧
  status s' = Dead ∧ last (sent s') = Some [§"kill-session"; §"-t"; tmux_name].
Proof.
  unfold _fail_startup, mbind, M_bind, suppress, close, mbind, M_bind, _tmux.
  destruct (runner _ _ _) as [o|e]; eexists; split; [done| |done|]; split; try done; cbn [sent];
    by rewrite last_snoc.
Qed.

Lemma try_total {A} (m : M turn_state A) a s : ∃ b s', try_except (λ _, true) m (λ _, mret a) s = (Ok b, s').
Proof. unfold try_except. destruct (m s) as [[b|e] s1]; by eexists _, _. Qed.

Lemma handlers_no_startup l : Forall (λ h, no_startup_error h.2) l → no_startup_error (run_handlers l).
Proof.
  induction 1 as [|[trigger action] l Ha _ IH]; cbn [run_handlers]; [by intros s tail|].
  apply no_startup_bind.
  { apply no_startup_try; [apply tmux_no_startup|by intros e s tail]. }
  intros pane. apply no_startup_bind; [|by intros _]. by destruct (trigger pane).
Qed.

Lemma forward_handlers l : Forall (λ h, forward h.2) l → forward (run_handlers l).
Proof.
  induction 1 as [|[trigger action] l Ha _ IH]; cbn [run_handlers]; [by apply forward_still|].
  apply forward_bind; [apply forward_try; [apply forward_tmux|by intros e; apply forward_still]|].
  intros pane. apply forward_bind; [|by intros _]. destruct (trigger pane); [done|by apply forward_still].
Qed.

Lemma forward_send_text t : forward (send_text t).
Proof.
  assert (∀ u, forward (send_literal u)) as Hl.
  { intros u. apply forward_bind; [apply forward_tmux|by intros _; apply forward_still]. }
  unfold send_text. destruct t as [|c t]; [apply Hl|].
  induction (chunks _ _ _) as [|p l IH]; cbn [send_pieces]; [by apply forward_still|].
  apply forward_bind; [apply Hl|by intros _].
Qed.

(** A failed start ends with the session killed and marked dead. *)
Lemma open_startup_error fuel ready_timeout s :
  Forall (λ h, no_startup_error h.2) (exception_handlers driver) →
  match open fuel ready_timeout s with
  | (Raise (TmuxStartupError tail), s') =>
      status s' = Dead ∧ last (sent s') = Some [§"kill-session"; §"-t"; tmux_name]
  | _ => True
  end.
Proof.
  intros Hh. unfold open, mbind, M_bind. pose proof (tmux_no_startup new_session_argv s) as H1.
  destruct (_tmux new_session_argv s) as [[o|e] s1]; [|destruct e; try done; by destruct (H1 tail)].
  pose proof (send_text_no_startup (launch_command driver) s1) as H2.
  destruct (send_text _ s1) as [[[]|e] s2]; [|destruct e; try done; by destruct (H2 tail)].
  pose proof (send_keys_no_startup [§"Enter"] s2) as H3.
  destruct (send_keys _ s2) as [[[]|e] s3]; [|destruct e; try done; by destruct (H3 tail)].
  pose proof (wait_for_end fuel (ready_signal driver) (Some ready_timeout) s3) as Hw.
  destruct (_wait_for _ _ _ s3) as [[[key| |]|e] s4].
  - pose proof (handlers_no_startup _ Hh s4) as H4.
    destruct (run_handlers _ s4) as [[[]|e] s5]; [done|]. destruct e; try done. by destruct (H4 tail).
  - match goal with |- context [try_except _ ?m _ s4] =>
      destruct (try_total m ([] : pystr) s4) as (t & s5 & ->) end.
    by destruct (fail_startup_run (A := bool) t s5) as (s6 & -> & Hs & Hl).
  - done.
  - destruct e; try done. set (t := match _pane_tail last_pane 20 with [] => _ | _ => _ end).
    by destruct (fail_startup_run (A := wait_end) t s4) as (s6 & -> & Hs & Hl).
Qed.

(** A session is ready or gone.  When [open] returns, tmux has since shown a
    screen on which the agent is ready, and the session says so; when it reports
    a failed start, the session is marked dead and the last thing done was to
    kill it. *)
Theorem open_ready_or_gone fuel ready_timeout s : (0 <= poll_interval)%Z → _last_pane s = None →
  ready_signal driver [] = false →
  Forall (λ h, forward h.2 ∧ no_startup_error h.2) (exception_handlers driver) →
  match open fuel ready_timeout s with
  | (Ok true, s') => status s' = Ready ∧ ∃ k pane, steps s ≤ k < steps s' ∧
      runner w k screen_args = Ok pane ∧ ready_signal driver pane = true
  | (Raise (TmuxStartupError tail), s') =>
      status s' = Dead ∧ last (sent s') = Some [§"kill-session"; §"-t"; tmux_name]
  | _ => True
  end.
Proof.
  intros Hi Hnone Hempty [Hfw Hh]%Forall_and. pose proof (open_startup_error fuel ready_timeout s Hh) as Hgone.
  destruct (open fuel ready_timeout s) as [[[|]|e] s'] eqn:E; [clear Hgone|done|exact Hgone].
  revert E. unfold open, mbind, M_bind. pose proof (forward_tmux new_session_argv s) as F1.
  destruct (_tmux new_session_argv s) as [[o|e] s1]; [|done].
  pose proof (forward_send_text (launch_command driver) s1) as F2.
  destruct (send_text _ s1) as [[[]|e] s2]; [|done].
  assert (onward s2 (send_keys [§"Enter"] s2).2) as F3.
  { apply forward_bind; [apply forward_tmux|by intros _; apply forward_still]. }
  destruct (send_keys _ s2) as [[[]|e] s3]; [|done].
  pose proof (wait_for_end fuel (ready_signal driver) (Some ready_timeout) s3) as Hw.
  assert (onward s3 (_wait_for fuel (ready_signal driver) (Some ready_timeout) s3).2) as F4.
  { apply forward_poll; [done|]. apply Forall_singleton. intros pane. by apply forward_still. }
  destruct (_wait_for _ _ _ s3) as [[[key| |]|e] s4]; cbn in F1, F2, F3, F4.
  - pose proof (forward_handlers _ Hfw s4) as F5. destruct (run_handlers _ s4) as [[[]|e] s5]; [|done].
    cbn in F5 |- *. intros [= <-]. split; [done|]. pose proof (on_steps _ _ F5) as S5.
    destruct (on_pane _ _ (onward_trans _ _ _ F1 (onward_trans _ _ _ F2 (onward_trans _ _ _ F3 F4))))
      as [Hp|(k & p & Hk & Hr & Hp)]; unfold last_pane_or_empty in Hw; rewrite Hp in Hw.
    { rewrite Hnone in Hw. cbn in Hw. congruence. }
    exists k, p. cbn. split; [lia|done].
  - destruct (try_except _ _ _ s4) as [[t|e] s5]; [|done].
    by destruct (fail_startup_run (A := bool) t s5) as (s6 & -> & _).
  - done.
  - destruct e; try done. set (t := match _pane_tail last_pane 20 with [] => _ | _ => _ end).
    by destruct (fail_startup_run (A := wait_end) t s4) as (s6 & -> & _).
Qed.
End honest.

(** ** How many commands a run takes *)

(** At most [n] commands and sleeps. *)
Definition takes {A} (m : M turn_state A) (n : nat) : Prop := ∀ s, steps (m s).2 ≤ steps s + n.

Lemma takes_ret {A} (a : A) : takes (mret a) 0.
Proof. intros s. cbn. lia. Qed.
Lemma takes_raise {A} e : takes (A := A) (raise e) 0.
Proof. intros s. cbn. lia. Qed.
Lemma takes_gets {A} (f : turn_state → A) : takes (gets f) 0.
Proof. intros s. cbn. lia. Qed.
Lemma takes_res {A} (r : res A) : takes (lift_res r) 0.
Proof. intros s. destruct r; cbn; lia. Qed.
Lemma takes_weaken {A} (m : M turn_state A) n n' : takes m n → n ≤ n' → takes m n'.
Proof. intros Hm Hn s. specialize (Hm s). lia. Qed.
Lemma takes_bind {A B} (m : M turn_state A) (f : A → M turn_state B) n n' :
  takes m n → (∀ a, takes (f a) n') → takes (m ≫= f) (n + n').
Proof.
  intros Hm Hf s. unfold mbind, M_bind. specialize (Hm s). destruct (m s) as [[a|e] s1]; cbn in *; [|lia].
  specialize (Hf a s1). lia.
Qed.
Lemma takes_try {A} p (m : M turn_state A) h n n' :
  takes m n → (∀ e, takes (h e) n') → takes (try_except p m h) (n + n').
Proof.
  intros Hm Hh s. unfold try_except. specialize (Hm s). destruct (m s) as [[a|e] s1]; cbn in *; [lia|].
  destruct (p e); cbn; [|lia]. specialize (Hh e s1). lia.
Qed.
Lemma takes_tmux args : takes (_tmux args) 1.
Proof. intros s. cbn. lia. Qed.
Lemma takes_sleep d : takes (sleep d) 1.
Proof. intros s. cbn. lia. Qed.
Lemma takes_status st : takes (set_status st) 0.
Proof. intros s. cbn. lia. Qed.
Lemma takes_keys keys : takes (send_keys keys) 1.
Proof. apply (takes_bind _ _ 1 0); [apply takes_tmux|intros; apply takes_ret]. Qed.

(** The pieces a text is typed in. *)
Definition pieces (t : pystr) : nat := S (length t / _SEND_TEXT_CHUNK).
Lemma length_chunks fuel n t : 0 < n → length (chunks fuel n t) * n < length t + n.
Proof.
  intros Hn. revert t. induction fuel as [|fuel IH]; intros [|c t]; cbn [chunks]; try (cbn; lia).
  specialize (IH (drop n (c :: t))). cbn [length] in *. rewrite length_drop in IH. cbn [length] in IH.
  destruct (chunks fuel n (drop n (c :: t))) as [|x l] eqn:E; [cbn; lia|]. cbn [length] in *. nia.
Qed.
Lemma takes_send_text t : takes (send_text t) (pieces t).
Proof.
  assert (∀ l, takes (send_pieces l) (length l)) as Hl.
  { induction l as [|p l IH]; [apply takes_ret|]. cbn [send_pieces length]. apply (takes_bind _ _ 1); [apply takes_keys|]. by intros _. }
  unfold send_text, pieces. destruct t as [|c t]; [eapply takes_weaken; [apply takes_keys|cbn; lia]|].
  eapply takes_weaken; [apply Hl|].
  pose proof (length_chunks (length (c :: t)) _SEND_TEXT_CHUNK (c :: t) ltac:(unfold _SEND_TEXT_CHUNK; lia)) as Hc.
  set (k := length (chunks _ _ _)) in *. assert (0 < _SEND_TEXT_CHUNK) as Hn by (unfold _SEND_TEXT_CHUNK; lia).
  pose proof (Nat.div_mod (length (c :: t)) _SEND_TEXT_CHUNK ltac:(lia)) as Hdiv.
  pose proof (Nat.mod_upper_bound (length (c :: t)) _SEND_TEXT_CHUNK ltac:(lia)) as Hmod.
  set (q := length (c :: t) / _SEND_TEXT_CHUNK) in *. set (n := _SEND_TEXT_CHUNK) in *. nia.
Qed.
Lemma takes_capture full : takes (_capture_resilient full) 2.
Proof.
  intros s. unfold _capture_resilient. assert (steps (capture_pane full s).2 ≤ steps s + 1) as H1 by apply takes_tmux.
  destruct (capture_pane full s) as [[pane|e] s1]; cbn [snd] in H1.
  - destruct full; munfold; cbn; lia.
  - assert (takes (alive ← is_alive; last ← gets last_pane_or_empty;
      if alive : bool then mret last else raise (SessionVanished last)) 1) as H2.
    { apply (takes_bind _ _ 1 0).
      - apply (takes_try _ _ _ 1 0); [|intros; apply takes_ret].
        apply (takes_bind _ _ 1 0); [apply takes_tmux|intros; apply takes_ret].
      - intros alive. apply (takes_bind _ _ 0 0); [apply takes_gets|]. intros last.
        destruct alive; [apply takes_ret|apply takes_raise]. }
    specialize (H2 s1). lia.
Qed.
Lemma takes_first_hit predicates pane :
  Forall (λ kp, ∀ pane, takes (kp.2 pane) 0) predicates → takes (first_hit predicates pane) 0.
Proof.
  induction 1 as [|[k p] l Hp _ IH]; cbn [first_hit]; [apply takes_ret|].
  apply (takes_bind _ _ 0 0); [apply Hp|]. intros [|]; [apply takes_ret|done].
Qed.
Lemma takes_wait fuel predicates timeout :
  Forall (λ kp, ∀ pane, takes (kp.2 pane) 0) predicates → takes (_wait_for_any fuel predicates timeout) (3 * fuel).
Proof.
  intros Hp. apply (takes_bind _ _ 0 (3 * fuel)); [apply takes_gets|]. intros t. generalize (deadline_of timeout t) as dl. intros dl.
  induction fuel as [|fuel IH]; cbn [poll]; [apply takes_ret|]. replace (3 * S fuel) with (2 + (0 + (0 + (1 + 3 * fuel)))) by lia.
  apply takes_bind; [apply takes_capture|]. intros pane. apply takes_bind; [by apply takes_first_hit|].
  intros [key|]; [eapply takes_weaken; [apply takes_ret|lia]|]. apply takes_bind; [apply takes_gets|]. intros t'.
  destruct (past dl t'); [eapply takes_weaken; [apply takes_ret|lia]|]. apply takes_bind; [apply takes_sleep|by intros _].
Qed.
Lemma takes_turn_predicates b : Forall (λ kp, ∀ pane, takes (kp.2 pane) 0) (turn_predicates b).
Proof.
  constructor.
  - intros pane s. cbn [snd]. unfold _ok, mbind, M_bind. destruct (completion_probe driver) as [probe|]; [|cbn; lia].
    cbn [gets]. destruct ((probe_once probe ∘ steps) s) as [v|]; [|cbn; lia]. destruct (_ && _); cbn; lia.
  - destruct (needs_input_signal driver); constructor; [|constructor]. intros pane. apply takes_ret.
Qed.

Lemma takes_press_enter rb bu fs n path baseline : takes (press_enter rb bu fs n path baseline) (n * (1 + 2 * _SUBMIT_VERIFY_POLLS)).
Proof.
  assert (∀ k, takes (verify rb bu fs k path baseline) (2 * k)) as Hv.
  { induction k as [|k IH]; cbn [verify]; [apply takes_ret|]. replace (2 * S k) with (1 + (1 + 2 * k)) by lia.
    apply takes_bind.
    - unfold confirmed. destruct baseline as [b|].
      + apply (takes_weaken _ 0); [|lia]. apply (takes_bind _ _ 0 0); [apply takes_gets|intros; apply takes_ret].
      + apply (takes_bind _ _ 1 0); [apply takes_tmux|intros; apply takes_ret].
    - intros [|]; [eapply takes_weaken; [apply takes_ret|lia]|]. apply takes_bind; [apply takes_sleep|by intros _]. }
  induction n as [|n IH]; cbn [press_enter]; [apply takes_ret|]. cbn [Nat.mul].
  apply (takes_weaken _ (1 + (2 * _SUBMIT_VERIFY_POLLS + n * (1 + 2 * _SUBMIT_VERIFY_POLLS)))); [|lia].
  apply takes_bind; [apply takes_keys|]. intros _. apply takes_bind; [apply Hv|].
  intros [|]; [eapply takes_weaken; [apply takes_ret|lia]|exact IH].
Qed.

(** Claude Code's [submit] looks at the screen or the transcript 60 times at most. *)
Lemma takes_claude_submit rb bu tp fs prompt : takes (claude_submit rb bu tp fs prompt) (pieces prompt + 124).
Proof.
  assert (∀ n, takes (confirm_busy bu n) (2 * n)) as Hb.
  { induction n as [|n IH]; cbn [confirm_busy]; [apply takes_ret|]. replace (2 * S n) with (1 + (1 + 2 * n)) by lia.
    apply takes_bind; [apply takes_tmux|]. intros pane. destruct (bu pane); [eapply takes_weaken; [apply takes_ret|lia]|].
    apply takes_bind; [apply takes_sleep|by intros _]. }
  apply takes_bind; [apply takes_send_text|]. intros _.
  apply (takes_bind _ _ 1 123); [apply takes_sleep|]. intros _.
  apply (takes_bind _ _ 0 123); [apply takes_gets|]. intros path.
  apply (takes_bind _ _ 0 123); [apply takes_gets|]. intros baseline.
  apply (takes_bind _ _ 75 48); [apply takes_press_enter|]. intros _. apply Hb.
Qed.
Lemma takes_fail {A} tail : takes (_fail_startup (A := A) tail) 1.
Proof.
  apply (takes_bind _ _ 1 0).
  - intros s. unfold suppress, close, mbind, M_bind, _tmux. destruct (runner _ _ _); cbn; lia.
  - intros _. apply (takes_bind _ _ 0 0); [apply takes_status|intros _; apply takes_raise].
Qed.
Lemma takes_handlers n l : Forall (λ h, takes h.2 n) l → takes (run_handlers l) (length l * (1 + n)).
Proof.
  induction 1 as [|[trigger action] l Ha _ IH]; cbn [run_handlers length]; [apply takes_ret|]. cbn [Nat.mul].
  apply (takes_weaken _ (1 + (n + length l * (1 + n)))); [|lia]. apply takes_bind.
  - apply (takes_try _ _ _ 1 0); [apply takes_tmux|intros; apply takes_ret].
  - intros pane. apply takes_bind; [|by intros _].
    destruct (trigger pane); [exact Ha|eapply takes_weaken; [apply takes_ret|lia]].
Qed.

Lemma takes_open fuel ready_timeout n : Forall (λ h, takes h.2 n) (exception_handlers driver) →
  takes (open fuel ready_timeout)
    (1 + (pieces (launch_command driver) + (1 + (3 * fuel + 1 + (length (exception_handlers driver) * (1 + n) + 2))))).
Proof.
  intros Hh. apply takes_bind; [apply takes_tmux|]. intros _. apply takes_bind; [apply takes_send_text|]. intros _.
  apply takes_bind; [apply takes_keys|]. intros _. apply takes_bind.
  - intros s. assert (takes (_wait_for fuel (ready_signal driver) (Some ready_timeout)) (3 * fuel)) as Hw.
    { apply takes_wait, Forall_singleton. intros pane. apply takes_ret. }
    specialize (Hw s). destruct (_wait_for _ _ _ s) as [[v|e] s1]; cbn [snd] in *; [lia|].
    destruct e; cbn [snd]; try lia. match goal with |- context [_fail_startup ?t s1] => pose proof (takes_fail (A := wait_end) t s1) end. lia.
  - intros [key| |].
    + apply (takes_weaken _ (length (exception_handlers driver) * (1 + n) + 0)); [|lia].
      apply takes_bind; [by apply takes_handlers|]. intros _ s. munfold. cbn. lia.
    + eapply (takes_weaken _ (1 + 1)); [|lia]. apply takes_bind; [|intros t; apply takes_fail].
      apply (takes_try _ _ _ 1 0); [|intros; apply takes_ret]. apply (takes_bind _ _ 1 0); [apply takes_tmux|intros; apply takes_ret].
    + eapply takes_weaken; [apply takes_ret|lia].
Qed.

Lemma takes_send fuel prompt timeout c : takes (submit driver prompt) c →
  takes (send fuel prompt timeout) (2 + (c + 1 + (3 * fuel + 2))).
Proof.
  intros Hc. assert (∀ start, takes (_send_turn fuel prompt start timeout) (2 + (c + 1 + (3 * fuel + 2)))) as Ht.
  { intros start. apply takes_bind; [apply takes_capture|]. intros pane.
    apply (takes_bind _ _ 0 (c + 1 + (3 * fuel + 2))).
    - unfold baseline_marker. destruct (completion_probe driver); [|apply takes_ret].
      apply (takes_bind _ _ 0 0); [apply takes_gets|intros; apply takes_ret].
    - intros b. apply takes_bind.
      + apply takes_try; [exact Hc|]. intros e. apply (takes_bind _ _ 1 0).
        * apply (takes_try _ _ _ 1 0); [|intros; apply takes_ret].
          apply (takes_bind _ _ 1 0); [apply takes_tmux|intros; apply takes_ret].
        * intros alive. apply (takes_bind _ _ 0 0); [apply takes_gets|]. intros l. destruct alive; apply takes_raise.
      + intros _. apply (takes_bind _ _ 0 (3 * fuel + 2)); [by intros s; munfold; cbn; lia|]. intros _.
        apply takes_bind; [apply takes_wait, takes_turn_predicates|]. intros e.
        assert (takes (finish_turn pane prompt start e) 2) as Hf; [|by destruct e; [..|eapply takes_weaken; [apply takes_ret|lia]]].
        apply (takes_bind _ _ 0 2); [apply takes_gets|]. intros box. apply (takes_bind _ _ 2 0).
        * unfold read_turn. destruct (_ ≫= v_text); [eapply takes_weaken; [apply takes_ret|lia]|].
          destruct (read_answer driver); (apply (takes_bind _ _ 2 0); [apply takes_capture|]); intros q;
            (apply (takes_bind _ _ 0 0); [apply takes_res|intros; apply takes_ret]).
        * intros [t raw] s. munfold. cbn. lia. }
  intros s. unfold send, mbind, M_bind. cbn [set_status modify]. set (busy := {| steps := _ |}).
  specialize (Ht (now s) busy). change (steps busy) with (steps s) in Ht.
  destruct (_send_turn _ _ _ _ busy) as [[o|e] s1]; cbn [snd] in Ht |- *; [lia|]. destruct e; cbn; lia.
Qed.

(** C33. A bounded turn ends.  Take an agent program whose way of submitting a prompt
    takes at most [c] commands and sleeps ([takes_claude_submit]: Claude Code's takes one
    per thousand characters and 124 more), whose actions at the start take at most [n],
    and a tmux whose commands fail, if they do, by ending with an error or not starting.
    Whatever tmux, the agent and the transcript otherwise do, and however slow they are,
    starting a session and sending it one prompt with a timeout is over, with a result or
    an exception, after a number of commands and sleeps that is linear in the number of
    polls that fit into the longer of the two timeouts.  A session that was opened and is
    not to be kept is killed at the end, whatever became of the turn; one whose agent was
    not ready in time or vanished is killed too.  If starting it failed in another way (a
    tmux command or an action at the start raised), that is the result and nothing more
    is done: such a session, if tmux has it, is left running. *)
Theorem launch_and_run_ends fuel prompt keep_alive d c n s : honest_runner →
  Forall (λ h, no_startup_error h.2 ∧ takes h.2 n) (exception_handlers driver) →
  takes (submit driver prompt) c → (0 < poll_interval)%Z →
  (0 < d <= Z.of_nat fuel * poll_interval)%Z → (30000000 <= Z.of_nat fuel * poll_interval)%Z →
  let '(r, s') := launch_and_run (S fuel) prompt keep_alive (Some d) s in
  r ≠ Ok None ∧
  steps s' ≤ steps s + pieces (launch_command driver) + c +
    length (exception_handlers driver) * (1 + n) + 6 * S fuel + 11 ∧
  match open (S fuel) 30000000 s with
  | (Ok _, _) => keep_alive = false → last (sent s') = Some [§"kill-session"; §"-t"; tmux_name]
  | (Raise (TmuxStartupError _), _) => last (sent s') = Some [§"kill-session"; §"-t"; tmux_name]
  | (Raise e, s1) => r = Raise e ∧ s' = s1
  end.
Proof.
  intros Hrun [Hh Hn]%Forall_and Hc Hi Hd Ho. unfold launch_and_run, mbind, M_bind.
  pose proof (open_ends fuel 30000000 s Hi ltac:(lia)) as Hopen.
  pose proof (open_startup_error Hrun (S fuel) 30000000 s Hh) as Hgone.
  pose proof (takes_open (S fuel) 30000000 n Hn s) as Ht.
  destruct (open (S fuel) 30000000 s) as [[[|]|e] s1]; cbn [snd] in Ht; [|done|].
  - unfold turn_then_close. pose proof (send_ends fuel prompt d s1 Hi Hd) as Hs.
    pose proof (takes_send (S fuel) prompt (Some d) c Hc s1) as Hts.
    destruct (send _ _ _ s1) as [r s2]. cbn [snd] in Hts. split; [done|]. split.
    + destruct keep_alive; [lia|].
      assert (steps (suppress (λ _, true) close s2).2 ≤ steps s2 + 1) as H1; [|lia].
      unfold suppress, close, mbind, M_bind, _tmux. destruct (runner _ _ _); cbn; lia.
    + intros ->. apply close_kills.
  - split; [done|]. split; [lia|]. destruct e; try done. apply Hgone.
Qed.

(** Long text is typed in pieces that tmux accepts and that make up the text. *)
Theorem send_text_typed t s s' : send_text t s = (Ok tt, s') →
  ∃ pieces, sent s' = sent s ++ map (λ p, [§"send-keys"; §"-t"; tmux_name; §"-l"; §"--"; p]) pieces ∧
    concat pieces = t ∧ Forall (λ p, length p ≤ _SEND_TEXT_CHUNK) pieces.
Proof.
  assert (∀ l s s', send_pieces l s = (Ok tt, s') →
    sent s' = sent s ++ map (λ p, [§"send-keys"; §"-t"; tmux_name; §"-l"; §"--"; p]) l) as Hl.
  { clear. induction l as [|p l IH]; intros s s'; cbn [send_pieces].
    - intros [= <-]. by rewrite app_nil_r.
    - unfold mbind, M_bind, send_literal, send_keys, mbind, M_bind, _tmux.
      destruct (runner _ _ _); [|done]. intros Hs%IH. cbn in Hs. rewrite Hs. by rewrite <- app_assoc. }
  unfold send_text. destruct t as [|c t].
  - intros Hs. exists [[]]. split; [|split; [done|constructor; [cbn; lia|constructor]]].
    apply (Hl [[]]). unfold send_pieces, mbind, M_bind. by rewrite Hs.
  - intros Hs%Hl. exists (chunks (length (c :: t)) _SEND_TEXT_CHUNK (c :: t)). split; [done|].
    destruct (chunks_spec (length (c :: t)) _SEND_TEXT_CHUNK (c :: t)) as [Hc Hf];
      [unfold _SEND_TEXT_CHUNK; lia|done|]. split; [done|]. eapply Forall_impl; [done|]. by intros p [].
Qed.
End session.

(** ** Evaluation *)

Section demo.
(** A tmux whose screen at the [k]-th command is given; every other command
    succeeds. *)
Definition demo_outside (screen : nat → option pystr) : outside :=
  {| runner := λ k args,
       if decide (head args = Some (§"capture-pane"))
       then match screen k with Some p => Ok p | None => Raise CalledProcessError end
       else Ok [];
     delay := λ _, 1000%N; wall := λ k, Z.of_nat k |}.

Definition demo_driver (w : outside) probe : AgentDriver :=
  {| launch_command := §"agent"; session_env := None; ready_signal := contains (§"ready");
     exception_handlers := []; submit := λ p, send_text w (§"a") p;; send_keys w (§"a") [§"Enter"];
     done_signal := contains (§"done"); needs_input_signal := Some (contains (§"?"));
     completion_probe := probe; read_answer := None; extract := λ d, Ok d |}.

Definition fresh_session : turn_state :=
  {| steps := 0; now := 0; status := Starting; _last_pane := None; last_active_at := None;
     sent := []; probe_box := None |}.

(** The screen [before], then from the fourth command on [after]. *)
Definition screens (before after : pystr) (k : nat) : option pystr :=
  if decide (k < 4) then Some before else Some after.

Definition two_lines (a b : pystr) : pystr := a ++ [10%N] ++ b.

Definition demo_turn probe after :=
  let w := demo_outside (screens (§"> ") after) in
  send w (demo_driver w probe) (§"a") 300000 5 (§"hi") (Some 900000%Z) fresh_session.

Example demo_answer :
  match demo_turn None (two_lines (§"> ") (§"42 done")) with
  | (Ok (Some r), _) => text r = §"42 done" ∧ turn_status_of r = TOk
  | _ => False
  end.
Proof. vm_compute. split; reflexivity. Qed.

(** A probe that could not be read just before the prompt lets the answer of the
    turn before pass for the new one. *)
Definition old_verdict : CompletionVerdict :=
  {| v_done := true; v_text := Some (§"old answer"); marker := Some (§"m1"); v_status := VOk |}.
Example stale_answer_after_failed_probe :
  match demo_turn (Some (λ k, if decide (k <= 1) then Raise OSError else Ok (Some old_verdict)))
                  (§"working") with
  | (Ok (Some r), _) => text r = §"old answer" ∧ turn_status_of r = TOk
  | _ => False
  end.
Proof. vm_compute. split; reflexivity. Qed.

Lemma forward_demo_submit w probe p : forward w (§"a") (submit (demo_driver w probe) p).
Proof.
  apply forward_bind; [apply forward_send_text|]. intros _.
  apply forward_bind; [apply forward_tmux|by intros _; apply forward_still].
Qed.

Lemma send_means_witness :
  let w := demo_outside (screens (§"> ") (§"> working")) in
  match send w (demo_driver w None) (§"a") 300000 5 (§"hi") (Some 900000%Z) fresh_session with
  | (Ok (Some r), s') => turn_status_of r = TTimeout ∧ (900000 <= now s')%Z
  | _ => False
  end.
Proof.
  intros w.
  destruct (send w (demo_driver w None) (§"a") 300000 5 (§"hi") (Some 900000%Z) fresh_session)
    as [[[r|]|e] s'] eqn:E.
  2, 3: exfalso; vm_compute in E; discriminate.
  assert (Hr : turn_status_of r = TTimeout).
  { assert (match (send w (demo_driver w None) (§"a") 300000 5 (§"hi") (Some 900000%Z) fresh_session).1 with
            | Ok (Some r) => turn_status_of r | _ => TOk end = TTimeout) as Ht by (vm_compute; reflexivity).
    rewrite E in Ht. exact Ht. }
  split; [exact Hr|].
  destruct (send_means w (demo_driver w None) (§"a") 300000 5 (§"hi") (Some 900000%Z) fresh_session r s'
    ltac:(lia) (forward_demo_submit w None) E) as [[_ He]|(_ & pane & sb & b & _ & _ & Hm)]; [rewrite Hr in He; discriminate He|].
  unfold meaning in Hm. rewrite Hr in Hm. destruct Hm as (d & [= <-] & _ & Hd). exact Hd.
Defined.

(** The same driver with Claude Code's way of submitting. *)
Definition patient_driver (w : outside) : AgentDriver :=
  {| launch_command := §"agent"; session_env := None; ready_signal := contains (§"ready");
     exception_handlers := [];
     submit := claude_submit w (§"a") 300000 (contains (§"> ")) (contains (§"esc to interrupt")) (λ _, None) (λ _ _, None);
     done_signal := contains (§"done"); needs_input_signal := Some (contains (§"?"));
     completion_probe := None; read_answer := None; extract := λ d, Ok d |}.

(** An agent that is ready and never done. *)
Lemma launch_and_run_ends_witness :
  let w := demo_outside (λ _, Some (§"ready")) in
  let '(r, s') := launch_and_run w (patient_driver w) (§"a") (§"/") None [] (§"200") (§"50") 300000 101 (§"hi")
    false (Some 30000000%Z) fresh_session in
  r ≠ Ok None ∧ steps s' ≤ 743 ∧ last (sent s') = Some [§"kill-session"; §"-t"; §"a"].
Proof.
  intros w. assert (Hh : honest_runner w).
  { intros k args e. cbn. by destruct (decide _); [|intros; discriminate]. }
  pose proof (launch_and_run_ends w (patient_driver w) (§"a") (§"/") None [] (§"200") (§"50") 300000
    100 (§"hi") false 30000000 125 0 fresh_session Hh (Forall_nil_2 _)
    (takes_claude_submit w (§"a") 300000 _ _ _ _ (§"hi")) ltac:(lia) ltac:(lia) ltac:(lia)) as Hl.
  destruct (launch_and_run _ _ _ _ _ _ _ _ _ _ _ _ _ _) as [r s']. destruct Hl as (Hr & Ht & Hc).
  split; [exact Hr|]. split; [exact Ht|].
  destruct (open w (patient_driver w) (§"a") (§"/") None [] (§"200") (§"50") 300000 101 30000000 fresh_session)
    as [[b|e] s1] eqn:E; [by apply Hc|exfalso; vm_compute in E; discriminate E].
Defined.

Lemma send_failures_witness :
  let w := {| runner := λ k args, if decide (last args = Some (§"hi")) then Raise CalledProcessError else Ok [];
              delay := λ _, 0%N; wall := λ _, 0%Z |} in
  let '(r, s') := send w (demo_driver w None) (§"a") 300000 5 (§"hi") None fresh_session in
  r = Raise CalledProcessError ∧ ∃ s2, is_alive w (§"a") s2 = (Ok true, s').
Proof.
  intros w.
  destruct (send w (demo_driver w None) (§"a") 300000 5 (§"hi") None fresh_session) as [r s'] eqn:E.
  assert (Hr : r = Raise CalledProcessError).
  { assert ((send w (demo_driver w None) (§"a") 300000 5 (§"hi") None fresh_session).1
              = Raise CalledProcessError) as Ht by (vm_compute; reflexivity).
    rewrite E in Ht. exact Ht. }
  subst r. split; [reflexivity|].
  destruct (send_failures w (demo_driver w None) (§"a") 300000 5 (§"hi") None fresh_session
    CalledProcessError s') as [_ Hf]; [intros f p q Hn; discriminate|intros d; discriminate|exact E|].
  destruct (Hf eq_refl) as (s1 & s2 & _ & Ha). exists s2. exact Ha.
Defined.

Lemma open_ready_or_gone_witness :
  let w := demo_outside (λ _, Some (§"> ")) in
  let '(r, s') := open w (demo_driver w None) (§"a") (§"/") None [] (§"200") (§"50") 300000 5 900000 fresh_session in
  r = Raise (TmuxStartupError (§"> ")) ∧ status s' = Dead ∧
  last (sent s') = Some [§"kill-session"; §"-t"; §"a"].
Proof.
  intros w.
  assert (Hh : honest_runner w).
  { intros k args e. cbn. by destruct (decide _); [|intros; discriminate]. }
  pose proof (open_ready_or_gone w (demo_driver w None) (§"a") (§"/") None [] (§"200") (§"50") 300000 Hh
    5 900000 fresh_session ltac:(lia) eq_refl eq_refl (Forall_nil_2 _)) as Ho.
  assert (Hr : (open w (demo_driver w None) (§"a") (§"/") None [] (§"200") (§"50") 300000 5 900000 fresh_session).1
    = Raise (TmuxStartupError (§"> "))) by (vm_compute; reflexivity).
  destruct (open w _ _ _ _ _ _ _ _ _ _ _) as [r s']. cbn in Hr. subst r. split; [reflexivity|exact Ho].
Defined.
End demo.
