(* ===== verification/ScheduleExec.v ===== *)
(** * Running a scheduled task and deciding whether to speak

    server/services/schedule_executor.py: the execution of a command or a recipe
    as one [RunOutcome], the decision whether its end is worth a notification
    and in which words, the delivery, and the test for a task that should have
    run and did not.  The processes and recipes themselves, the desktop's
    notifier and the configured channels are interfaces. *)

From Stdlib Require Import QArith.
From S2P Require Import Prelude PyStr Json Env Params Password.
From stdpp Require Import prelude gmap list strings.

(** [json.loads] ([None] for [JSONDecodeError]) and
    [json.dumps(v, ensure_ascii=False, sort_keys=True)]. *)
Class JsonText := { json_loads : pystr → option json; json_dumps : json → pystr }.

(** How a shell command ends. *)
Inductive proc_end :=
  | Completed (returncode : Z) (out err : pystr)
  | TimedOut
  | Crashed (message : pystr).

(** What happens when, at a moment, a command is run in a directory ([None]: the
    home directory) or a recipe with parameters, within a number of seconds; and
    how many microseconds it takes.  A recipe returns a value or raises. *)
Class Executor := {
  shell_run : Z → json → Z → option json → proc_end * Z;
  recipe_run : Z → json → json → Z → (json + pystr) * Z;
  exn_text : exn → pystr;
}.

(** The ways out: the two notifiers of the desktop, whether each is installed
    and whether running it raises, and a channel's delivery. *)
Class Outbound := {
  has_osascript : bool;
  has_notify_send : bool;
  notifier_run : pystr → pystr → res unit;
  channel_send : json → pystr → json → res jdict;
}.

Definition NOTIFY_EXCERPT_LIMIT : nat := 600.
Definition FAILURE_ESCALATION_POINTS : list Z := [1; 2; 5; 10; 20; 50; 100]%Z.
Definition STALENESS_PERIODS : Z := 3.

Record RunOutcome := {
  out_ok : bool;
  out_kind : json;
  exit_code : option Z;
  stdout : pystr;
  stderr : pystr;
  duration_ms : Z;
  error : pystr;
  notify_text : option pystr;
  digest : pystr;
  payload : jdict;
}.

(** An outcome with the fields a failure to run leaves at their defaults. *)
Definition failed_outcome (kind : json) (error : pystr) (duration_ms : Z) : RunOutcome :=
  {| out_ok := false; out_kind := kind; exit_code := None; stdout := []; stderr := [];
     duration_ms := duration_ms; error := error; notify_text := None; digest := [];
     payload := [] |}.

(** [a or b] on strings. *)
Definition sor (a b : pystr) : pystr := match a with [] => b | _ => a end.

(** [str(z)] of an integer. *)
Definition str_of_Z (z : Z) : pystr :=
  if Z.ltb z 0 then 45%N :: str_of_N (Z.to_N (- z)) else str_of_N (Z.to_N z).

Section executor.
Context `{Unicode, PyRepr, Crypto, LocalTime, JsonText, Executor, Outbound}.
Implicit Types (schedule : jdict) (outcome : RunOutcome) (now : Z).

(** [int(v)]. *)
Definition py_int (v : json) : res Z :=
  match v with
  | JInt z => Ok z
  | JBool b => Ok (if b then 1 else 0)%Z
  | JFloat q => Ok (Z.quot (Qnum q) (Zpos (Qden q)))
  | JStr s => match int_of_str s with Some z => Ok z | None => Raise ValueError end
  | _ => Raise TypeError
  end.

(** ** Execution *)

Definition _digest (text : pystr) : pystr :=
  take 16 (sha256_hex (concat (map utf8_char
    (map (λ c, if is_surrogate c then 63%N else c) text)))).

Definition _coerce_payload (result : json) : json :=
  match result with
  | JObj d =>
      match dget (§"output") d with
      | Some (JObj inner) => JObj inner
      | Some (JStr inner) => default result (json_loads inner)
      | _ => result
      end
  | JStr s => default (JObj [(§"raw", JStr s)]) (json_loads s)
  | _ => JObj [(§"raw", JStr (py_str result))]
  end.

Definition _extract_notify_field (payload : json) : option pystr :=
  match payload with
  | JObj d =>
      (fix go keys := match keys with
         | [] => None
         | key :: keys =>
             match dget key d with
             | Some (JStr v) => match strip v with [] => go keys | t => Some t end
             | _ => go keys
             end
         end) [§"notify"; §"summary"; §"notify_text"]
  | _ => None
  end.

Definition _VOLATILE_KEYS : list pystr :=
  [§"generated_at"; §"created_at"; §"at"; §"at_local"; §"timestamp"; §"elapsed_sec";
   §"duration_ms"; §"last_run_at"; §"last_run_local"; §"rate_remaining"; §"api_cost";
   §"pages_fetched"; §"stopped_reason"; §"url"; §"data_dir"].

Definition _stable_for_digest (payload : json) (fallback : pystr) : pystr :=
  match payload with
  | JObj d => json_dumps (JObj (filter (λ kv, kv.1 ∉ _VOLATILE_KEYS) d))
  | _ => fallback
  end.

Definition execute_recipe (now : Z) (recipe params : json) (timeout : Z) : RunOutcome * Z :=
  let '(r, took) := recipe_run now recipe params timeout in
  match r with
  | inr e => (failed_outcome (JStr (§"recipe")) e (took / 1000), took)
  | inl result =>
      let pl := _coerce_payload result in
      let out := if truthy pl then json_dumps pl else py_str result in
      let d := match pl with JObj d => d | _ => [] end in
      let ok := negb (bool_decide (dget (§"success") d = Some (JBool false))) in
      ({| out_ok := ok; out_kind := JStr (§"recipe"); exit_code := Some (if ok then 0 else 1)%Z;
          stdout := out; stderr := []; duration_ms := took / 1000;
          error := if ok then []
                   else py_str (jor (jget (§"error") d) (JStr (¶"配方返回 success=false")));
          notify_text := _extract_notify_field pl;
          digest := _digest (_stable_for_digest pl out); payload := d |}, took)
  end.

Definition execute_command (now : Z) (command : json) (timeout : Z) (cwd : json) : RunOutcome * Z :=
  let '(e, took) := shell_run now command timeout (if truthy cwd then Some cwd else None) in
  match e with
  | TimedOut =>
      (failed_outcome (JStr (§"command")) (¶"命令超时（" ++ str_of_Z timeout ++ ¶"s 未结束）") (took / 1000), took)
  | Crashed m => (failed_outcome (JStr (§"command")) m (took / 1000), took)
  | Completed rc out err =>
      let out := strip out in let err := strip err in
      let ok := Z.eqb rc 0 in
      ({| out_ok := ok; out_kind := JStr (§"command"); exit_code := Some rc; stdout := out; stderr := err;
          duration_ms := took / 1000;
          error := if ok then []
                   else take NOTIFY_EXCERPT_LIMIT (sor err (sor out (¶"退出码 " ++ str_of_Z rc)));
          notify_text := None; digest := _digest out; payload := [] |}, took)
  end.

(** [schedule.get("kind") or ("recipe" if schedule.get("recipe") else "prompt")]. *)
Definition kind_of schedule : json :=
  jor (jget (§"kind") schedule)
      (JStr (if truthy (jget (§"recipe") schedule) then §"recipe" else §"prompt")).

Definition run_scheduled now schedule : res (RunOutcome * Z) :=
  timeout ← py_int (jor (jget (§"timeout") schedule) (JInt 300));
  if str_is (§"command") (kind_of schedule) then
    Ok (execute_command now (jor (jget (§"command") schedule) (JStr [])) timeout
          (jget (§"cwd") schedule))
  else if str_is (§"recipe") (kind_of schedule) then
    Ok (execute_recipe now (jor (jget (§"recipe") schedule) (JStr []))
          (jor (jget (§"params") schedule) (JObj [])) timeout)
  else Raise ValueError.

(** ** Whether to speak *)

Record NotifyDecision := { should : bool; text : pystr; reason : pystr }.
Definition silent (reason : pystr) : NotifyDecision :=
  {| should := false; text := []; reason := reason |}.
Definition speak (text reason : pystr) : NotifyDecision :=
  {| should := true; text := text; reason := reason |}.

(** [schedule.get("name") or schedule.get("id", "")], as an f-string prints it. *)
Definition name_of schedule : pystr :=
  py_str (jor (jget (§"name") schedule) (default (JStr []) (dget (§"id") schedule))).

Definition _success_text (name : pystr) outcome (always : bool) : pystr :=
  let head := ¶"「" ++ name ++ ¶"」" ++ (if always then ¶"本轮完成" else ¶"输出有变化") in
  let body := sor (default [] (notify_text outcome)) (sor (stdout outcome) (¶"（无输出）")) in
  let body :=
    if decide (NOTIFY_EXCERPT_LIMIT < length body)
    then take NOTIFY_EXCERPT_LIMIT body ++ ¶"…（已截断，完整结果见任务产出）" else body in
  head ++ 10%N :: body.

(** [schedule.get("notify") or {}]. *)
Definition notify_cfg schedule : res jdict := as_obj (jor (jget (§"notify") schedule) (JObj [])).

Definition failures_of (prev : jdict) : res Z :=
  py_int (default (JInt 0) (dget (§"consecutive_failures") prev)).

Definition failure_text (name : pystr) outcome (fails : Z) : pystr :=
  let detail := take NOTIFY_EXCERPT_LIMIT
    (sor (error outcome) (sor (stderr outcome) (¶"（没有错误信息）"))) in
  let times := if Z.eqb fails 1 then [] else ¶"（已连续失败 " ++ str_of_Z fails ++ ¶" 次）" in
  ¶"❌ 定时任务「" ++ name ++ ¶"」失败" ++ times ++ 10%N :: detail.

Definition recovered_text (name : pystr) outcome (prior : json) : pystr :=
  ¶"✅ 定时任务「" ++ name ++ ¶"」恢复正常（此前连续失败 " ++ py_str prior ++ ¶" 次）" ++
  10%N :: sor (default [] (notify_text outcome)) (¶"本轮已正常完成").

Definition decide_notification schedule outcome (prev : jdict) : res NotifyDecision :=
  cfg ← notify_cfg schedule;
  let on := default (JStr (§"change")) (dget (§"on") cfg) in
  let name := name_of schedule in
  if str_is (§"never") on then Ok (silent (§"notify.on=never"))
  else if negb (out_ok outcome) then
    before ← failures_of prev;
    let fails := (before + 1)%Z in
    if decide (fails ∈ FAILURE_ESCALATION_POINTS)
    then Ok (speak (failure_text name outcome fails) (§"failure #" ++ str_of_Z fails))
    else Ok (silent (§"failure #" ++ str_of_Z fails ++ ¶" 收敛中"))
  else
    before ← failures_of prev;
    if Z.ltb 0 before && negb (str_is (§"failure") on) then
      Ok (speak (recovered_text name outcome (jget (§"consecutive_failures") prev)) (§"recovered"))
    else if str_is (§"failure") on then Ok (silent (¶"notify.on=failure 且本轮成功"))
    else if str_is (§"always") on then
      Ok (speak (_success_text name outcome true) (§"notify.on=always"))
    else if str_is (§"recipe") (out_kind outcome) then
      match notify_text outcome with
      | Some ((_ :: _) as t) => Ok (speak (¶"「" ++ name ++ ¶"」" ++ t) (¶"recipe 报了 notify"))
      | _ => Ok (silent (¶"recipe 没报 notify，视为无新鲜事"))
      end
    else if negb (truthy (jget (§"last_digest") prev)) then Ok (silent (¶"首轮，只记基线不通知"))
    else if str_is (digest outcome) (jget (§"last_digest") prev)
    then Ok (silent (¶"输出与上次相同"))
    else Ok (speak (_success_text name outcome false) (¶"输出与上次不同")).

(** ** A task that did not run *)

(** [f"{x:.0f}"]. *)
Definition fmt0 (q : Q) : pystr := str_of_Z (round_half_even q).

Definition staleness_text schedule (overdue : Z) : pystr :=
  let hours := (inject_Z overdue / 3600000000)%Q in
  let span := if Qle_bool 1 hours then fmt0 hours ++ ¶" 小时"
              else fmt0 (inject_Z overdue / 60000000)%Q ++ ¶" 分钟" in
  ¶"⚠️ 定时任务「" ++ name_of schedule ++ ¶"」已经 " ++ span ++ ¶" 没有成功运行了。" ++ 10%N ::
  ¶"最后一次成功：" ++ py_str (jor (jget (§"last_success_at") schedule) (JStr (¶"从来没有成功过"))) ++
  ¶"。" ++ 10%N :: ¶"这条提醒本身说明调度器还活着——不跑的是这个任务，去看 " ++
  ¶"frago schedule history " ++ py_str (jget (§"id") schedule) ++ ¶"。".

(** [datetime.fromisoformat(v).replace(tzinfo=None)]. *)
Definition wall_of (v : json) : res Z :=
  match v with
  | JStr s => match iso_wall s with Some t => Ok t | None => Raise ValueError end
  | _ => Raise TypeError
  end.

Definition is_stale schedule now (period_seconds : option Z) : res (option Z) :=
  match period_seconds with
  | None => Ok None
  | Some p =>
      if Z.leb p 0 then Ok None
      else
        let from_creation : res (option Z) :=
          match dget (§"created_at") schedule with
          | None => Ok None
          | Some v => match wall_of v with
                      | Ok t => Ok (Some t)
                      | Raise e => if decide (e = ValueError) then Ok None else Raise e
                      end
          end in
        let last_ok := jget (§"last_success_at") schedule in
        ref ← (if truthy last_ok then
                 match wall_of last_ok with
                 | Ok t => Ok (Some t)
                 | Raise e => if decide (e = ValueError) then from_creation else Raise e
                 end
               else from_creation);
        match ref with
        | None => Ok None
        | Some ref =>
            slack ← timedelta (inject_Z (p * STALENESS_PERIODS));
            let overdue := (now - ref - slack)%Z in
            if Z.ltb 0 overdue then Ok (Some overdue) else Ok None
        end
  end.

(** ** Delivery *)

(** [_resolve_channel_names], over the configuration file ([None] when it is
    missing or does not parse). *)
Definition channel_list (raw : jdict) : res (list json) :=
  ingestion ← as_obj (jor (jget (§"task_ingestion") raw) (JObj []));
  py_iter (jor (jget (§"channels") ingestion) (JArr [])).
Definition _resolve_channel_names (config : option json) : res (list json) :=
  match config with
  | None => Ok []
  | Some doc =>
      raw ← as_obj doc;
      channels ← channel_list raw;
      ds ← map_res as_obj channels;
      Ok (filter (λ v, truthy v = true) (map (jget (§"name")) ds))
  end.

Definition _deliver_desktop schedule (text : pystr) : jdict :=
  let title := ¶"frago · " ++ py_str (jor (jget (§"name") schedule) (JStr (¶"定时任务"))) in
  let body := take 240 (map (λ c, if (c =? 10)%N then 32%N else c) text) in
  if has_osascript || has_notify_send then
    match notifier_run title body with
    | Ok _ => [(§"status", JStr (§"ok")); (§"target", JStr (§"desktop"))]
    | Raise e => [(§"status", JStr (§"error")); (§"target", JStr (§"desktop"));
                  (§"error", JStr (exn_text e))]
    end
  else [(§"status", JStr (§"error")); (§"target", JStr (§"desktop"));
        (§"error", JStr (¶"本机没有可用的系统通知命令"))].

(** The message of an unknown target, which lists the known ones, is left out. *)
Definition deliver (config : option json) schedule (text : pystr) (pa_enqueue : bool) : res jdict :=
  cfg ← notify_cfg schedule;
  let target := jor (jget (§"to") cfg) (JStr (§"desktop")) in
  let context := jor (jget (§"context") cfg) (JObj []) in
  if str_is (§"pa") target then
    if pa_enqueue
    then Ok [(§"status", JStr (§"queued")); (§"target", JStr (§"pa")); (§"message", JStr text)]
    else Ok [(§"status", JStr (§"error")); (§"error", JStr (¶"PA 队列不可用"))]
  else if str_is (§"desktop") target then Ok (_deliver_desktop schedule text)
  else
    names ← _resolve_channel_names config;
    if existsb (py_eq target) names then
      match channel_send target text context with
      | Ok r => Ok [(§"status", default (JStr (§"ok")) (dget (§"status") r)); (§"target", target)]
      | Raise e => Ok [(§"status", JStr (§"error")); (§"target", target); (§"error", JStr (exn_text e))]
      end
    else Ok [(§"status", JStr (§"error")); (§"target", target)].

(** ** When a schedule speaks *)

(** When the end of a run is worth a notification.  Unless it was switched
    off: a failure exactly when it is the 1st, 2nd, 5th, 10th, 20th, 50th or
    100th in a row; a success, unless only failures were asked for, when it ends
    a row of failures, when every run was asked for, when the recipe itself
    wrote something to say, or when a command's output differs from the one
    before. *)
Theorem notifies_iff schedule outcome prev cfg fails :
  notify_cfg schedule = Ok cfg → failures_of prev = Ok fails →
  ∃ decision, decide_notification schedule outcome prev = Ok decision ∧
  let on := default (JStr (§"change")) (dget (§"on") cfg) in
  let last := jget (§"last_digest") prev in
  (should decision = true ↔
     on ≠ JStr (§"never") ∧
     if out_ok outcome then
       on ≠ JStr (§"failure") ∧
       ((0 < fails)%Z ∨ on = JStr (§"always") ∨
        (if decide (out_kind outcome = JStr (§"recipe"))
         then ∃ t, notify_text outcome = Some t ∧ t ≠ []
         else truthy last = true ∧ last ≠ JStr (digest outcome)))
     else (fails + 1)%Z ∈ FAILURE_ESCALATION_POINTS).
Proof.
  intros Hcfg Hf. unfold decide_notification, mbind, res_bind. rewrite Hcfg, Hf. cbv zeta.
  set (on := default _ (dget _ cfg)). set (last := jget (§"last_digest") prev).
  destruct (str_is (§"never") on) eqn:En.
  { apply str_is_iff in En. eexists. split; [done|]. split; [done|]. by intros [? _]. }
  apply str_is_false in En. destruct (out_ok outcome); cbn [negb]; cycle 1.
  { case_decide; (eexists; split; [done|]); cbn; naive_solver. }
  destruct (str_is (§"failure") on) eqn:Ef; rewrite ?andb_false_r, ?andb_true_r.
  { apply str_is_iff in Ef. eexists. split; [done|]. cbn. naive_solver. }
  apply str_is_false in Ef. destruct (0 <? fails)%Z eqn:E0.
  { apply Z.ltb_lt in E0. eexists. split; [done|]. cbn. naive_solver. }
  apply Z.ltb_ge in E0. destruct (str_is (§"always") on) eqn:Ea.
  { apply str_is_iff in Ea. eexists. split; [done|]. cbn. naive_solver. }
  apply str_is_false in Ea. destruct (str_is (§"recipe") (out_kind outcome)) eqn:Er.
  - apply str_is_iff in Er. rewrite decide_True by done.
    destruct (notify_text outcome) as [[|x t]|]; (eexists; split; [done|]); cbn.
    + split; [done|]. intros (_ & _ & [?|[?|(t & [= <-] & ?)]]); [lia|done|done].
    + split; [|done]. intros _. split; [done|]. split; [done|]. right. right. by eexists.
    + split; [done|]. intros (_ & _ & [?|[?|(t & ? & ?)]]); [lia|done|done].
  - apply str_is_false in Er. rewrite decide_False by done. destruct (truthy last) eqn:El; cbn [negb].
    + destruct (str_is (digest outcome) last) eqn:Eg.
      * apply str_is_iff in Eg. eexists. split; [done|]. cbn. naive_solver lia.
      * apply str_is_false in Eg. eexists. split; [done|]. cbn. naive_solver.
    + eexists. split; [done|]. cbn. naive_solver lia.
Qed.

(** When a task counts as not having run: it has a positive period, and more
    than three periods have passed since its last success, or since its creation
    if it never succeeded or the note of it cannot be read. *)
Theorem is_stale_iff schedule now p created overdue :
  (0 < p <= 1000000000000)%Z →
  (∃ v, dget (§"created_at") schedule = Some v ∧ wall_of v = Ok created) →
  (∀ v, dget (§"last_success_at") schedule = Some v → v = JNull ∨ ∃ t, v = JStr t) →
  is_stale schedule now (Some p) = Ok (Some overdue) ↔
  let since := match jget (§"last_success_at") schedule with
               | JStr t => default created (iso_wall t)
               | _ => created
               end in
  (0 < overdue)%Z ∧ now = (since + 3000000 * p + overdue)%Z.
Proof.
  intros Hp (v & Hv & Hc) Hok.
  assert (timedelta (inject_Z (p * STALENESS_PERIODS)) = Ok (3000000 * p)%Z) as Htd.
  { rewrite timedelta_int by (unfold STALENESS_PERIODS; lia). f_equal. unfold STALENESS_PERIODS. lia. } unfold is_stale, mbind, res_bind.
  rewrite (proj2 (Z.leb_gt p 0)) by lia. rewrite Hv, Hc, Htd. cbv zeta.
  assert (∀ r : Z, (if Z.ltb 0 (now - r - 3000000 * p) then Ok (Some (now - r - 3000000 * p)%Z)
      else Ok None) = Ok (Some overdue) ↔ (0 < overdue)%Z ∧ now = (r + 3000000 * p + overdue)%Z) as Hr.
  { intros r. destruct (Z.ltb_spec 0 (now - r - 3000000 * p)); split; try done; try lia.
    - intros [= <-]. lia.
    - intros [? ->]. do 2 f_equal. lia. }
  unfold jget. destruct (dget (§"last_success_at") schedule) as [w|] eqn:Ew; cbn.
  - destruct (Hok w eq_refl) as [->|[t ->]]; cbn; [apply Hr|].
    destruct (iso_wall t) as [r|] eqn:Et; cbn; case_bool_decide as Ht; try apply Hr.
    destruct t; [by rewrite iso_wall_empty in Et|done].
  - apply Hr.
Qed.
End executor.

(** ** An executor for evaluation *)
Module ExecDemo.
#[export] Existing Instance ascii_db.
#[export] Existing Instance repr_mark.
#[export] Existing Instance toy_crypto.
#[export] Existing Instance char_clock.
#[export] Instance texts : JsonText := {| json_loads _ := None; json_dumps _ := [] |}.
(** Every command prints [ok] and takes a second. *)
#[export] Instance shell : Executor :=
  {| shell_run _ _ _ _ := (Completed 0 (§"ok") [], 1000000%Z);
     recipe_run _ _ _ _ := (inl (JObj []), 1000000%Z); exn_text _ := §"error" |}.
#[export] Instance no_desktop : Outbound :=
  {| has_osascript := false; has_notify_send := false; notifier_run _ _ := Ok tt;
     channel_send _ _ _ := Ok [] |}.

(** A schedule of its own name that speaks when its output changes. *)
Definition watch : jdict :=
  [(§"id", JStr (§"w")); (§"notify", JObj [(§"on", JStr (§"change"))])].
Definition quiet_failures (n : Z) : jdict :=
  [(§"last_digest", JNull); (§"consecutive_failures", JInt n)].
End ExecDemo.

Section demo.
Import ExecDemo.

(** The fifth failure in a row is told, the sixth is not. *)
Lemma notifies_iff_witness :
  (∃ dec, decide_notification watch (failed_outcome JNull (§"no") 0) (quiet_failures 4) = Ok dec ∧
          should dec = true) ∧
  (∃ dec, decide_notification watch (failed_outcome JNull (§"no") 0) (quiet_failures 5) = Ok dec ∧
          should dec = false).
Proof.
  split.
  - destruct (notifies_iff watch (failed_outcome JNull (§"no") 0) (quiet_failures 4)
      [(§"on", JStr (§"change"))] 4 eq_refl eq_refl) as (dec & Hd & Hs).
    exists dec. split; [done|]. apply Hs. split; [vm_compute; congruence|].
    apply (bool_decide_eq_true_1 _). vm_compute. reflexivity.
  - destruct (notifies_iff watch (failed_outcome JNull (§"no") 0) (quiet_failures 5)
      [(§"on", JStr (§"change"))] 5 eq_refl eq_refl) as (dec & Hd & Hs).
    exists dec. split; [done|]. destruct (should dec); [|done]. destruct (proj1 Hs eq_refl) as [_ Hp].
    exfalso. revert Hp. apply (bool_decide_eq_false_1 _). vm_compute. reflexivity.
Defined.
End demo.
