(* ===== verification/Scheduler.v ===== *)
(** * The scheduler

    server/services/scheduler_service.py: the list of schedules in its file, the
    operations on it, and the loop that runs what is due.

    A schedule is a Python dictionary and the code passes it around by
    reference: [self._schedules] is a list of references, [_load] creates new
    dictionaries from the file, and the loop keeps iterating over the list it
    started with.  The state therefore has a store of dictionaries ([objects]),
    addressed by their position, and [_schedules] is a list of addresses.

    Outside are croniter, the primary agent's queue, and what running a task
    does (ScheduleExec.v).  Time passes while a task runs and between two ticks;
    the rest of a tick happens at one moment. *)

From Stdlib Require Import QArith.
From S2P Require Import Prelude PyStr Json Env Params Password ScheduleExec.
From stdpp Require Import prelude gmap list strings.

(** [croniter(expr, base).get_next(datetime)]: the first moment after [base]
    that the expression names; an expression it cannot read raises. *)
Class Croniter := {
  cron_next : json → Z → res Z;
  cron_next_after : ∀ e base t, cron_next e base = Ok t → (base < t)%Z;
}.

(** The hex digits of the [n]-th [uuid.uuid4()] of the process. *)
Class Uuid := uuid_hex : nat → pystr.

(** Whether the primary agent's queue takes a message; else awaiting it raises. *)
Class PrimaryAgent := pa_accepts : Z → jdict → bool.

(** What a tick does to the world outside. *)
Inductive event :=
  | Ran (schedule : jdict) (when : Z)
  | Noticed (schedule : jdict) (text : pystr)
  | Enqueued (message : jdict).

Record service := {
  (** the file: absent, unparsable, or a document *)
  schedules_file : option (option json);
  writable : bool;
  config_file : option json;
  objects : list jdict;
  _schedules : list nat;
  _active_schedule_ids : list json;
  _pa_enqueue : bool;
  clock : Z;
  uptime : Z;
  last_staleness_check : Z;
  drawn : nat;
  events : list event;
}.

Definition set_file (s : service) (f : option (option json)) : service :=
  {| schedules_file := f; writable := writable s; config_file := config_file s;
     objects := objects s; _schedules := _schedules s;
     _active_schedule_ids := _active_schedule_ids s; _pa_enqueue := _pa_enqueue s;
     clock := clock s; uptime := uptime s; last_staleness_check := last_staleness_check s;
     drawn := drawn s; events := events s |}.
Definition set_objects (s : service) (o : list jdict) (l : list nat) : service :=
  {| schedules_file := schedules_file s; writable := writable s; config_file := config_file s;
     objects := o; _schedules := l;
     _active_schedule_ids := _active_schedule_ids s; _pa_enqueue := _pa_enqueue s;
     clock := clock s; uptime := uptime s; last_staleness_check := last_staleness_check s;
     drawn := drawn s; events := events s |}.
Definition set_active (s : service) (a : list json) : service :=
  {| schedules_file := schedules_file s; writable := writable s; config_file := config_file s;
     objects := objects s; _schedules := _schedules s;
     _active_schedule_ids := a; _pa_enqueue := _pa_enqueue s;
     clock := clock s; uptime := uptime s; last_staleness_check := last_staleness_check s;
     drawn := drawn s; events := events s |}.
Definition pass_time (d : Z) (s : service) : service :=
  {| schedules_file := schedules_file s; writable := writable s; config_file := config_file s;
     objects := objects s; _schedules := _schedules s;
     _active_schedule_ids := _active_schedule_ids s; _pa_enqueue := _pa_enqueue s;
     clock := clock s + d; uptime := uptime s + d; last_staleness_check := last_staleness_check s;
     drawn := drawn s; events := events s |}.
Definition set_checked (s : service) (t : Z) : service :=
  {| schedules_file := schedules_file s; writable := writable s; config_file := config_file s;
     objects := objects s; _schedules := _schedules s;
     _active_schedule_ids := _active_schedule_ids s; _pa_enqueue := _pa_enqueue s;
     clock := clock s; uptime := uptime s; last_staleness_check := t;
     drawn := drawn s; events := events s |}.
Definition log (e : event) (s : service) : service :=
  {| schedules_file := schedules_file s; writable := writable s; config_file := config_file s;
     objects := objects s; _schedules := _schedules s;
     _active_schedule_ids := _active_schedule_ids s; _pa_enqueue := _pa_enqueue s;
     clock := clock s; uptime := uptime s; last_staleness_check := last_staleness_check s;
     drawn := drawn s; events := events s ++ [e] |}.
Definition draw (s : service) : service :=
  {| schedules_file := schedules_file s; writable := writable s; config_file := config_file s;
     objects := objects s; _schedules := _schedules s;
     _active_schedule_ids := _active_schedule_ids s; _pa_enqueue := _pa_enqueue s;
     clock := clock s; uptime := uptime s; last_staleness_check := last_staleness_check s;
     drawn := S (drawn s); events := events s |}.

Definition TICK_INTERVAL : Z := 5000000.

Section service.
Context `{Unicode, PyRepr, Crypto, LocalTime, JsonText, Executor, Outbound}.
Context `{Croniter, Uuid, PrimaryAgent}.
Implicit Types (s : service) (a : nat) (d schedule : jdict).

(** ** Objects *)

Definition deref s a : jdict := default [] (objects s !! a).
Definition obj a : M service jdict := gets (λ s, deref s a).
Definition getitem (k : pystr) a : M service json :=
  d ← obj a;
  match dget k d with Some v => mret v | None => raise KeyError end.
Definition setitem (k : pystr) (v : json) a : M service unit :=
  modify (λ s, set_objects s (alter (dset k v) a (objects s)) (_schedules s)).

(** [hash(v)], which a set asks for. *)
Definition hashable (v : json) : M service unit :=
  match v with JArr _ | JObj _ => raise TypeError | _ => mret tt end.
Definition is_active (v : json) : M service bool :=
  hashable v;; gets (λ s, existsb (py_eq v) (_active_schedule_ids s)).
Definition active_add (v : json) : M service unit :=
  hashable v;;
  modify (λ s, if existsb (py_eq v) (_active_schedule_ids s) then s
               else set_active s (_active_schedule_ids s ++ [v])).
Definition active_discard (v : json) s : service :=
  set_active s (filter (λ w, py_eq v w = false) (_active_schedule_ids s)).

Definition try_finally {A} (m : M service A) (f : service → service) : M service A := λ s,
  let '(r, s') := m s in (r, f s').

(** ** The file *)

Definition setdefault (k : pystr) (v : json) d : jdict := if dmem k d then d else dset k v d.

(** [f"执行 recipe {recipe}" if recipe else ""]. *)
Definition recipe_prompt (recipe : json) : json :=
  JStr (if truthy recipe then ¶"执行 recipe " ++ py_str recipe else []).

Definition _migrate_schedule d : jdict :=
  let d := setdefault (§"name") (default (JStr (§"unnamed")) (dget (§"recipe_name") d)) d in
  let d := setdefault (§"prompt") (recipe_prompt (default (JStr []) (dget (§"recipe_name") d))) d in
  let d := if dmem (§"recipe_name") d
           then setdefault (§"recipe") (jget (§"recipe_name") d) d else d in
  let d := setdefault (§"cron") JNull d in
  let d := setdefault (§"overlap") (JStr (§"skip")) d in
  let d := setdefault (§"timeout") (JInt 300) d in
  let d := setdefault (§"history") (JArr []) d in
  let d := setdefault (§"reply_channel") JNull d in
  let d := setdefault (§"reply_context") (JObj []) d in
  let d := setdefault (§"kind")
             (JStr (if truthy (jor (jget (§"recipe") d) (jget (§"recipe_name") d))
                    then §"recipe" else §"prompt")) d in
  let d := setdefault (§"command") JNull d in
  let d := setdefault (§"cwd") JNull d in
  let d := setdefault (§"notify")
             (JObj [(§"on", JStr (§"never")); (§"to", JNull); (§"context", JObj [])]) d in
  let d := setdefault (§"last_success_at") JNull d in
  let d := setdefault (§"last_digest") JNull d in
  let d := setdefault (§"consecutive_failures") (JInt 0) d in
  setdefault (§"staleness_notified_at") JNull d.

(** An element that is no object has no [get], or does not support [in].  (A
    string or list that happens to contain every field name is treated alike.) *)
Definition migrate_value (v : json) : res jdict :=
  match v with
  | JObj d => Ok (_migrate_schedule d)
  | JStr _ | JArr _ => Raise AttributeError
  | _ => Raise TypeError
  end.

Definition load_list (doc : json) : res (list jdict) :=
  data ← as_obj doc;
  l ← py_iter (default (JArr []) (dget (§"schedules") data));
  map_res migrate_value l.

Definition fill s (ds : list jdict) : service :=
  set_objects s (objects s ++ ds) (seq (length (objects s)) (length ds)).

Definition _load : M service unit := λ s,
  match schedules_file s with
  | None | Some None => (Ok tt, fill s [])
  | Some (Some doc) =>
      match load_list doc with
      | Ok ds => (Ok tt, fill s ds)
      | Raise e => (Raise e, s)
      end
  end.

Definition dump (ds : list jdict) : json := JObj [(§"schedules", JArr (map JObj ds))].
Definition _save : M service unit := λ s,
  if writable s
  then (Ok tt, set_file s (Some (Some (dump (map (deref s) (_schedules s))))))
  else (Raise OSError, s).

(** The first schedule of [self._schedules] with an id; each one looked at must
    have one. *)
Fixpoint find_id (schedule_id : json) (l : list nat) : M service (option nat) :=
  match l with
  | [] => mret None
  | a :: l =>
      v ← getitem (§"id") a;
      if py_eq v schedule_id then mret (Some a) else find_id schedule_id l
  end.
Definition find_schedule (schedule_id : json) : M service (option nat) :=
  l ← gets _schedules; find_id schedule_id l.

(** [history = s.setdefault("history", []); history.append(entry)] and the cut
    to the last fifty. *)
Definition append_history (entry : json) a : M service unit :=
  d ← obj a;
  match default (JArr []) (dget (§"history") d) with
  | JArr l => setitem (§"history") (JArr (lastn 50 (l ++ [entry]))) a
  | _ => raise AttributeError
  end.

(** [s.get("last_run_at", _now_utc().isoformat())]. *)
Definition triggered_at a : M service json :=
  d ← obj a; now ← gets clock;
  mret (default (JStr (isoformat now)) (dget (§"last_run_at") d)).

Definition opt_str (o : option pystr) : json := match o with Some t => JStr t | None => JNull end.
Definition opt_int (o : option Z) : json := match o with Some z => JInt z | None => JNull end.

Definition update_schedule_result (schedule_id : json) (status : pystr) (task_id : option pystr)
    : M service unit :=
  _load;;
  found ← find_schedule schedule_id;
  match found with
  | None => mret tt
  | Some a =>
      setitem (§"last_status") (JStr status) a;;
      at_ ← triggered_at a;
      append_history (JObj [(§"triggered_at", at_); (§"status", JStr status);
                            (§"msg_id", JStr []); (§"task_id", opt_str task_id)]) a;;
      _save;;
      hashable schedule_id;;
      modify (active_discard schedule_id)
  end.

(** ** Operations on the list *)

(** The arguments of [add_schedule]. *)
Record new_schedule := {
  ns_recipe_name : option pystr; ns_interval_seconds : option Z; ns_params : option jdict;
  ns_start_at : option pystr; ns_end_at : option pystr; ns_name : option pystr;
  ns_prompt : option pystr; ns_cron : option pystr; ns_overlap : pystr; ns_timeout : Z;
  ns_reply_channel : option pystr; ns_reply_context : option jdict;
  ns_command : option pystr; ns_cwd : option pystr; ns_notify : option jdict;
}.

Definition schedule_of (n : new_schedule) (uid : pystr) (now : Z) : jdict :=
  let recipe_name := default [] (ns_recipe_name n) in
  let command := default [] (ns_command n) in
  let kind := match command, recipe_name with
              | _ :: _, _ => §"command" | [], _ :: _ => §"recipe" | [], [] => §"prompt" end in
  let name := sor (default [] (ns_name n))
                (sor recipe_name (sor (take 40 command) (§"unnamed"))) in
  let prompt := sor (default [] (ns_prompt n))
                  (match recipe_name with [] => [] | r => ¶"执行 recipe " ++ r end) in
  let notify := match ns_notify n with
                | Some ((_ :: _) as d) => d
                | _ => [(§"on", JStr (§"change")); (§"to", JNull); (§"context", JObj [])]
                end in
  [(§"id", JStr (§"sch_" ++ take 8 uid)); (§"name", JStr name); (§"kind", JStr kind);
   (§"prompt", JStr prompt); (§"recipe", opt_str (ns_recipe_name n));
   (§"recipe_name", opt_str (ns_recipe_name n)); (§"command", opt_str (ns_command n));
   (§"cwd", opt_str (ns_cwd n)); (§"notify", JObj notify);
   (§"params", JObj (default [] (ns_params n)));
   (§"interval_seconds", opt_int (ns_interval_seconds n)); (§"cron", opt_str (ns_cron n));
   (§"overlap", JStr (ns_overlap n)); (§"timeout", JInt (ns_timeout n));
   (§"start_at", opt_str (ns_start_at n)); (§"end_at", opt_str (ns_end_at n));
   (§"reply_channel", opt_str (ns_reply_channel n));
   (§"reply_context", JObj (default [] (ns_reply_context n))); (§"enabled", JBool true);
   (§"created_at", JStr (isoformat now)); (§"last_run_at", JNull); (§"last_status", JNull);
   (§"last_success_at", JNull); (§"last_digest", JNull); (§"consecutive_failures", JInt 0);
   (§"staleness_notified_at", JNull); (§"run_count", JInt 0); (§"history", JArr [])].

Definition add_schedule (n : new_schedule) : M service jdict :=
  _load;;
  s ← get_st;
  let schedule := schedule_of n (uuid_hex (drawn s)) (clock s) in
  modify draw;;
  modify (λ s, set_objects s (objects s ++ [schedule])
                 (_schedules s ++ [length (objects s)]));;
  _save;;
  mret schedule.

(** [[s for s in self._schedules if s["id"] != schedule_id]]. *)
Fixpoint others (schedule_id : json) (l : list nat) : M service (list nat) :=
  match l with
  | [] => mret []
  | a :: l =>
      v ← getitem (§"id") a;
      rest ← others schedule_id l;
      mret (if py_eq v schedule_id then rest else a :: rest)
  end.

Definition remove_schedule (schedule_id : json) : M service bool :=
  _load;;
  l ← gets _schedules;
  rest ← others schedule_id l;
  modify (λ s, set_objects s (objects s) rest);;
  if decide (length rest < length l) then _save;; mret true else mret false.

Definition toggle_schedule (schedule_id : json) : M service (option bool) :=
  _load;;
  found ← find_schedule schedule_id;
  match found with
  | None => mret None
  | Some a =>
      enabled ← getitem (§"enabled") a;
      setitem (§"enabled") (JBool (negb (truthy enabled))) a;;
      _save;;
      mret (Some (negb (truthy enabled)))
  end.

Definition list_schedules : M service (list jdict) :=
  _load;; gets (λ s, map (deref s) (_schedules s)).

(** ** What is due *)

Definition _parse_dt (v : json) : res (option Z) :=
  if truthy v then t ← wall_of v; Ok (Some t) else Ok None.

(** [timedelta(seconds=v)]. *)
Definition seconds_of (v : json) : res Z :=
  match number_of v with Some q => timedelta q | None => Raise TypeError end.

(** [except (ValueError, KeyError)]. *)
Definition bad_cron (e : exn) : bool := bool_decide (e = ValueError ∨ e = KeyError).
Definition catch_cron {A} (r : res A) (x : A) : res A :=
  match r with Raise e => if bad_cron e then Ok x else Raise e | _ => r end.

(** [base = last_run or _parse_dt(schedule.get("created_at")) or now]. *)
Definition cron_base schedule (last_run : option Z) (now : Z) : res Z :=
  match last_run with
  | Some t => Ok t
  | None => c ← _parse_dt (jget (§"created_at") schedule); Ok (default now c)
  end.

Definition _is_due schedule (now : Z) : res bool :=
  last_run ← _parse_dt (jget (§"last_run_at") schedule);
  let cron_expr := jget (§"cron") schedule in
  let interval := jget (§"interval_seconds") schedule in
  if truthy cron_expr then
    catch_cron (base ← cron_base schedule last_run now;
                next_run ← cron_next cron_expr base;
                Ok (Z.leb next_run now)) false
  else if truthy interval then
    due_at ← match last_run with
             | Some t => d ← seconds_of interval; datetime_add t d
             | None => Ok now
             end;
    Ok (Z.leb due_at now)
  else Ok false.

Definition _next_run_at schedule (now : Z) : res (option Z) :=
  last_run ← _parse_dt (jget (§"last_run_at") schedule);
  let cron_expr := jget (§"cron") schedule in
  let interval := jget (§"interval_seconds") schedule in
  if truthy cron_expr then
    catch_cron (base ← cron_base schedule last_run now;
                t ← cron_next cron_expr base; Ok (Some t)) None
  else if truthy interval then
    match last_run with
    | Some t => d ← seconds_of interval; t' ← datetime_add t d; Ok (Some t')
    | None => Ok (Some now)
    end
  else Ok None.

Definition _period_seconds schedule (now : Z) : res (option Z) :=
  let interval := jget (§"interval_seconds") schedule in
  let cron_expr := jget (§"cron") schedule in
  if truthy interval then z ← py_int interval; Ok (Some z)
  else if truthy cron_expr then
    catch_cron (first ← cron_next cron_expr now;
                second ← cron_next cron_expr first;
                Ok (Some (Z.quot (second - first) 1000000))) None
  else Ok None.

(** ** Execution *)

Definition pa_send (message : jdict) : M service unit := λ s,
  if pa_accepts (clock s) message then (Ok tt, log (Enqueued message) s) else (Raise RuntimeError, s).

Definition _enqueue_notice schedule (text : pystr) : M service unit :=
  s ← get_st;
  if negb (_pa_enqueue s) then mret tt
  else
    modify draw;;
    pa_send [(§"type", JStr (§"message"));
             (§"msg_id", JStr (§"schnotice_" ++ take 8 (uuid_hex (drawn s))));
             (§"channel", jor (jget (§"reply_channel") schedule) (JStr (§"schedule")));
             (§"prompt", JStr text);
             (§"reply_context", default (JObj []) (dget (§"reply_context") schedule))].

Definition _execute_via_pa a : M service unit :=
  schedule_id ← getitem (§"id") a;
  schedule ← obj a;
  s ← get_st;
  if negb (_pa_enqueue s) then mret tt
  else
    last_run_at ← getitem (§"last_run_at") a;
    modify draw;;
    let message :=
      [(§"type", JStr (§"scheduled_task"));
       (§"msg_id", JStr (§"sch_msg_" ++ take 8 (uuid_hex (drawn s))));
       (§"channel", jor (jget (§"reply_channel") schedule) (JStr (§"schedule")));
       (§"schedule_id", schedule_id);
       (§"schedule_name",
          default (default (JStr (§"unnamed")) (dget (§"recipe_name") schedule))
                  (dget (§"name") schedule));
       (§"prompt", default (JStr []) (dget (§"prompt") schedule));
       (§"recipe", default (jget (§"recipe_name") schedule) (dget (§"recipe") schedule));
       (§"params", jor (jget (§"params") schedule) (JObj []));
       (§"reply_context", default (JObj []) (dget (§"reply_context") schedule));
       (§"triggered_at", last_run_at);
       (§"last_status", jget (§"last_status") schedule);
       (§"run_count", default (JInt 0) (dget (§"run_count") schedule))] in
    suppress (λ _, true) (pa_send message;; active_add schedule_id).

(** [ex.run_scheduled], a crash of which is an outcome too. *)
Definition run_native schedule : M service RunOutcome := λ s,
  let s := log (Ran schedule (clock s)) s in
  match run_scheduled (clock s) schedule with
  | Ok (outcome, took) => (Ok outcome, pass_time took s)
  | Raise e => (Ok (failed_outcome (default (JStr (§"?")) (dget (§"kind") schedule)) (exn_text e) 0), s)
  end.

Definition notify_after schedule (decision : NotifyDecision) : M service json :=
  if should decision then
    s ← get_st;
    modify (log (Noticed schedule (text decision)));;
    result ← lift_res (deliver (config_file s) schedule (text decision) (_pa_enqueue s));
    if str_is (§"queued") (jget (§"status") result) then
      _enqueue_notice schedule (text decision);; mret (JStr (§"ok"))
    else mret (jget (§"status") result)
  else mret (JStr (§"skipped")).

(** Success resets the count of failures and moves the fingerprint on; failure
    only counts. *)
Definition note_outcome outcome a : M service unit :=
  setitem (§"last_status") (JStr (if out_ok outcome then §"success" else §"failed")) a;;
  if out_ok outcome then
    now ← gets clock;
    setitem (§"last_success_at") (JStr (isoformat now)) a;;
    setitem (§"last_digest") (JStr (digest outcome)) a;;
    setitem (§"consecutive_failures") (JInt 0) a;;
    setitem (§"staleness_notified_at") JNull a
  else
    d ← obj a;
    z ← lift_res (py_int (default (JInt 0) (dget (§"consecutive_failures") d)));
    setitem (§"consecutive_failures") (JInt (z + 1)) a.

(** The state a run leaves on its schedule. *)
Definition write_back outcome (decision : NotifyDecision) (notify_status : json) a : M service unit :=
  note_outcome outcome a;;
  at_ ← triggered_at a;
  d ← obj a;
  append_history (JObj
    [(§"triggered_at", at_);
     (§"status", JStr (if out_ok outcome then §"success" else §"failed"));
     (§"kind", jget (§"kind") d); (§"exit_code", opt_int (exit_code outcome));
     (§"duration_ms", JInt (duration_ms outcome)); (§"error", JStr (take 300 (error outcome)));
     (§"notified", JBool (should decision)); (§"notify_status", notify_status);
     (§"notify_reason", JStr (reason decision)); (§"task_id", JNull)]) a;;
  _save.

Definition _execute_native a : M service unit :=
  schedule_id ← getitem (§"id") a;
  schedule ← obj a;
  let prev := [(§"last_digest", jget (§"last_digest") schedule);
               (§"consecutive_failures",
                  default (JInt 0) (dget (§"consecutive_failures") schedule))] in
  outcome ← run_native schedule;
  decision ← lift_res (decide_notification schedule outcome prev);
  notify_status ← notify_after schedule decision;
  _load;;
  found ← find_schedule schedule_id;
  match found with
  | Some b => write_back outcome decision notify_status b
  | None => mret tt
  end.

(** [v + 1]. *)
Definition plus_one (v : json) : res json :=
  match v with
  | JInt z => Ok (JInt (z + 1))
  | JBool b => Ok (JInt (if b then 2 else 1))
  | JFloat q => Ok (JFloat (q + 1))
  | _ => Raise TypeError
  end.

(** [_execute], up to the choice of the executor. *)
Definition mark_run a : M service unit :=
  now ← gets clock;
  setitem (§"last_run_at") (JStr (isoformat now)) a;;
  d ← obj a;
  n ← lift_res (plus_one (default (JInt 0) (dget (§"run_count") d)));
  setitem (§"run_count") n a;;
  _save.

(** [kind in ("command", "recipe")]. *)
Definition is_native schedule : bool :=
  str_is (§"command") (kind_of schedule) || str_is (§"recipe") (kind_of schedule).

Definition _execute a : M service unit :=
  schedule_id ← getitem (§"id") a;
  d ← obj a;
  busy ← (if str_is (§"skip") (default (JStr (§"skip")) (dget (§"overlap") d))
          then is_active schedule_id else mret false);
  if (busy : bool) then mret tt
  else
    mark_run a;;
    d ← obj a;
    if is_native d then
      active_add schedule_id;;
      try_finally (_execute_native a) (active_discard schedule_id)
    else _execute_via_pa a.

(** ** One round of the loop *)

(** [not schedule.get("enabled", True)]. *)
Definition enabled_of schedule : bool := truthy (default (JBool true) (dget (§"enabled") schedule)).

(** Whether nobody is told about a schedule that does not run. *)
Definition unheard schedule : res bool :=
  cfg ← notify_cfg schedule;
  Ok (match dget (§"on") cfg with
      | None | Some JNull => true
      | Some v => str_is (§"never") v
      end).

Definition check_stale_one (now : Z) a : M service unit :=
  schedule ← obj a;
  if negb (enabled_of schedule) then mret tt
  else
    quiet ← lift_res (unheard schedule);
    if (quiet : bool) then mret tt
    else if truthy (jget (§"staleness_notified_at") schedule) then mret tt
    else
      period ← lift_res (_period_seconds schedule now);
      stale ← lift_res (is_stale schedule now period);
      match stale with
      | None => mret tt
      | Some overdue =>
          s ← get_st;
          let text := staleness_text schedule overdue in
          modify (log (Noticed schedule text));;
          result ← lift_res (deliver (config_file s) schedule text (_pa_enqueue s));
          (if str_is (§"queued") (jget (§"status") result) then _enqueue_notice schedule text
           else mret tt);;
          setitem (§"staleness_notified_at") (JStr (isoformat now)) a;;
          _save
      end.

Fixpoint for_each (f : nat → M service unit) (l : list nat) : M service unit :=
  match l with
  | [] => mret tt
  | a :: l => f a;; for_each f l
  end.

Definition _check_staleness : M service unit :=
  now ← gets clock;
  l ← gets _schedules;
  for_each (check_stale_one now) l.

Definition visit (now : Z) a : M service unit :=
  schedule ← obj a;
  if negb (enabled_of schedule) then mret tt
  else
    start ← lift_res (_parse_dt (jget (§"start_at") schedule));
    end_ ← lift_res (_parse_dt (jget (§"end_at") schedule));
    if match start with Some t => Z.ltb now t | None => false end then mret tt
    else if match end_ with Some t => Z.ltb t now | None => false end then
      setitem (§"enabled") (JBool false) a;;
      _save
    else
      due ← lift_res (_is_due schedule now);
      if (due : bool) then _execute a else mret tt.

(** The body of [_loop]: the file is read, and the list it gave is gone through
    whatever [self._schedules] becomes meanwhile. *)
Definition tick : M service unit :=
  _load;;
  now ← gets clock;
  s ← get_st;
  (if Z.ltb 1800000000 (uptime s - last_staleness_check s) then
     modify (λ s, set_checked s (uptime s));;
     suppress (λ _, true) _check_staleness
   else mret tt);;
  l ← gets _schedules;
  for_each (visit now) l.

(** [n] rounds, each followed by the wait; an exception ends the loop for good. *)
Fixpoint _loop (n : nat) : M service unit :=
  match n with
  | O => mret tt
  | S n => tick;; modify (pass_time TICK_INTERVAL);; _loop n
  end.

(** ** Records and their migration *)

(** Every field [_migrate_schedule] provides is there. *)
Definition has_fields d : Prop :=
  Forall (λ k, dmem k d = true)
    [§"name"; §"prompt"; §"cron"; §"overlap"; §"timeout"; §"history"; §"reply_channel";
     §"reply_context"; §"kind"; §"command"; §"cwd"; §"notify"; §"last_success_at";
     §"last_digest"; §"consecutive_failures"; §"staleness_notified_at"] ∧
  (dmem (§"recipe_name") d = true → dmem (§"recipe") d = true).

Lemma setdefault_mem k v d : dmem k (setdefault k v d) = true.
Proof.
  unfold setdefault. destruct (dmem k d) eqn:E; [done|]. unfold dmem. by rewrite dget_dset_eq.
Qed.

Lemma setdefault_keeps k v d k' : dmem k' d = true → dmem k' (setdefault k v d) = true.
Proof.
  unfold setdefault. destruct (dmem k d) eqn:E; [done|]. unfold dmem in *.
  destruct (decide (k' = k)) as [->|Hne]; [by rewrite dget_dset_eq|by rewrite dget_dset_ne].
Qed.

Lemma setdefault_get k v d k' w : dget k' d = Some w → dget k' (setdefault k v d) = Some w.
Proof.
  unfold setdefault, dmem. destruct (dget k d) eqn:E; [done|]. intros Hw.
  destruct (decide (k' = k)) as [->|Hne]; [congruence|by rewrite dget_dset_ne].
Qed.

Lemma setdefault_present k v d : dmem k d = true → setdefault k v d = d.
Proof. unfold setdefault. by intros ->. Qed.

Lemma setdefault_other k v d k' : k' ≠ k → dmem k' (setdefault k v d) = dmem k' d.
Proof.
  intros Hne. unfold setdefault, dmem. destruct (dget k d); [done|]. by rewrite dget_dset_ne.
Qed.

#[local] Strategy opaque [lit ulit].
Ltac fresh_key := vm_compute; congruence.
Ltac not_member := refine (proj1 (bool_decide_eq_true _) _); vm_compute; reflexivity.
Ltac member := solve [repeat first [apply list_elem_of_here | apply list_elem_of_further]].

Lemma migrate_keeps d k v : dget k d = Some v → dget k (_migrate_schedule d) = Some v.
Proof.
  intros Hv. unfold _migrate_schedule. cbv zeta.
  repeat first [apply setdefault_get | case_match]; assumption.
Qed.

Lemma migrate_has_fields d : has_fields (_migrate_schedule d).
Proof.
  split.
  - repeat (apply Forall_cons_2; [unfold _migrate_schedule; cbv zeta;
      repeat first [apply setdefault_mem | apply setdefault_keeps | case_match]|]). by apply Forall_nil.
  - unfold _migrate_schedule. cbv zeta. set (d2 := setdefault (§"prompt") _ _).
    intros Hr. repeat rewrite setdefault_other in Hr by fresh_key.
    repeat apply setdefault_keeps. destruct (dmem (§"recipe_name") d2) eqn:Er; [|congruence].
    apply setdefault_mem.
Qed.

Lemma migrate_id d : has_fields d → _migrate_schedule d = d.
Proof.
  intros [Hf Hr]. rewrite Forall_forall in Hf. unfold _migrate_schedule. cbv zeta.
  assert (∀ k v, k ∈ [§"name"; §"prompt"; §"cron"; §"overlap"; §"timeout"; §"history";
    §"reply_channel"; §"reply_context"; §"kind"; §"command"; §"cwd"; §"notify";
    §"last_success_at"; §"last_digest"; §"consecutive_failures"; §"staleness_notified_at"] →
    setdefault k v d = d) as Hd by (intros; by apply setdefault_present, Hf).
  rewrite (Hd (§"name")), (Hd (§"prompt")) by member.
  assert ((if dmem (§"recipe_name") d then setdefault (§"recipe") (jget (§"recipe_name") d) d
           else d) = d) as ->.
  { destruct (dmem (§"recipe_name") d); [|done]. by apply setdefault_present, Hr. }
  rewrite !Hd by member. done.
Qed.

Lemma has_fields_dset k v d : (k = §"recipe_name" → False) → has_fields d → has_fields (dset k v d).
Proof.
  assert (∀ k', dmem k' d = true → dmem k' (dset k v d) = true) as Hm.
  { intros k'. unfold dmem. destruct (decide (k' = k)) as [->|]; [by rewrite dget_dset_eq|].
    by rewrite dget_dset_ne. }
  intros Hk [Hf Hr]. split; [eapply Forall_impl; eauto|]. intros Hn. apply Hm, Hr. revert Hn.
  unfold dmem. by rewrite dget_dset_ne by (intros <-; by apply Hk).
Qed.

(** ** Reading and writing the store *)

(** What [_load] makes of the file. *)
Definition stored s : res (list jdict) :=
  match schedules_file s with
  | None | Some None => Ok []
  | Some (Some doc) => load_list doc
  end.
(** The records [self._schedules] refers to. *)
Definition listed s : list jdict := map (deref s) (_schedules s).
Definition addressed s : Prop := Forall (λ a, a < length (objects s)) (_schedules s).
Definition upd s a d : service := set_objects s (<[a := d]> (objects s)) (_schedules s).
Definition saved s : service := set_file s (Some (Some (dump (listed s)))).

Lemma load_run s :
  _load s = match stored s with Ok ds => (Ok tt, fill s ds) | Raise e => (Raise e, s) end.
Proof. unfold _load, stored. by destruct (schedules_file s) as [[]|]. Qed.

Lemma setitem_run k v a s : setitem k v a s = (Ok tt, upd s a (dset k v (deref s a))).
Proof.
  unfold setitem, modify, upd. do 3 f_equal. unfold deref.
  destruct (objects s !! a) as [d|] eqn:E; simpl.
  - apply list_eq. intros i. destruct (decide (i = a)) as [->|Hne].
    + rewrite list_lookup_alter_eq, E. simpl.
      rewrite list_lookup_insert_eq; [done|]. by eapply lookup_lt_Some.
    + by rewrite list_lookup_alter_ne, list_lookup_insert_ne by done.
  - rewrite list_insert_ge by by apply lookup_ge_None_1. apply list_eq. intros i.
    destruct (decide (i = a)) as [->|Hne]; [by rewrite list_lookup_alter_eq, E|].
    by rewrite list_lookup_alter_ne.
Qed.

Lemma getitem_run k a s v : dget k (deref s a) = Some v → getitem k a s = (Ok v, s).
Proof. unfold getitem, obj. munfold. by intros ->. Qed.

Lemma deref_upd_eq s a d : a < length (objects s) → deref (upd s a d) a = d.
Proof. intros. unfold deref, upd. simpl. by rewrite list_lookup_insert_eq. Qed.
Lemma deref_upd_ne s a d b : a ≠ b → deref (upd s a d) b = deref s b.
Proof. intros. unfold deref, upd. simpl. by rewrite list_lookup_insert_ne. Qed.
Lemma upd_upd s a d d' : upd (upd s a d) a d' = upd s a d'.
Proof. unfold upd, set_objects. simpl. by rewrite list_insert_insert_eq. Qed.
Lemma length_upd s a d : length (objects (upd s a d)) = length (objects s).
Proof. apply length_insert. Qed.

Lemma deref_fill s ds a : a < length (objects s) → deref (fill s ds) a = deref s a.
Proof. intros. unfold deref, fill. simpl. by rewrite lookup_app_l. Qed.

Lemma listed_fill s ds : listed (fill s ds) = ds.
Proof.
  unfold listed, fill, deref. simpl. apply list_eq. intros i.
  rewrite list_lookup_fmap. destruct (decide (i < length ds)) as [Hi|Hi].
  - rewrite lookup_seq_lt by done. simpl. rewrite lookup_app_r by lia.
    replace (length (objects s) + i - length (objects s)) with i by lia.
    by destruct (lookup_lt_is_Some_2 ds i Hi) as [d ->].
  - rewrite lookup_seq_ge, (lookup_ge_None_2 ds) by lia. done.
Qed.

Lemma addressed_fill s ds : addressed (fill s ds).
Proof.
  unfold addressed, fill. simpl. apply Forall_forall. intros a Ha%elem_of_seq.
  rewrite length_app. lia.
Qed.

Lemma save_run s : writable s = true → _save s = (Ok tt, saved s).
Proof. unfold _save, saved, listed. by intros ->. Qed.

Lemma load_dump ds : Forall has_fields ds → load_list (dump ds) = Ok ds.
Proof.
  intros Hf.
  assert (load_list (dump ds) = map_res migrate_value (map JObj ds)) as ->.
  { unfold load_list, dump, as_obj. unfold mbind, res_bind. cbn -[map_res migrate_value].
    by rewrite decide_True by done. }
  induction Hf as [|d ds Hd Hf IH]; [done|]. cbn [map map_res migrate_value].
  rewrite migrate_id by done. unfold mbind, res_bind in *. by rewrite IH.
Qed.

Lemma stored_saved s : Forall has_fields (listed s) → stored (saved s) = Ok (listed s).
Proof. apply load_dump. Qed.

Lemma stored_has_fields s ds : stored s = Ok ds → Forall has_fields ds.
Proof.
  unfold stored. destruct (schedules_file s) as [[doc|]|]; [|by intros [= <-]..].
  unfold load_list, mbind, res_bind. destruct (as_obj doc) as [data|]; [|done].
  destruct (py_iter _) as [l|]; [|done]. intros Hm%map_res_Forall2.
  induction Hm as [|v d l ds Hv Hm IH]; constructor; [|done].
  unfold migrate_value in Hv. destruct v; try done. injection Hv as <-. apply migrate_has_fields.
Qed.

(** ** What running a task touches *)

(** The part of the state that time, messages and random values leave alone. *)
Definition store s :=
  (schedules_file s, writable s, config_file s, objects s, _schedules s,
   _active_schedule_ids s, _pa_enqueue s, last_staleness_check s).
(** The ids of the schedules run so far. *)
Definition ran s : list json :=
  omap (λ e, match e with Ran d _ => Some (jget (§"id") d) | _ => None end) (events s).

Definition delivers s d : Prop := ∀ t, ∃ r, deliver (config_file s) d t (_pa_enqueue s) = Ok r.
(** The fields a run writes back, in the shapes it can write to. *)
Definition tidy d : Prop :=
  (∃ l, dget (§"history") d = Some (JArr l)) ∧
  ∃ z, py_int (default (JInt 0) (dget (§"consecutive_failures") d)) = Ok z.
Definition outcome_fields : list pystr :=
  [§"last_status"; §"last_success_at"; §"last_digest"; §"consecutive_failures";
   §"staleness_notified_at"; §"history"].
Definition kept d d' : Prop := ∀ k, k ∉ outcome_fields → dget k d' = dget k d.
Definition string_id d : Prop := ∃ i, dget (§"id") d = Some (JStr i).
Definition distinct (ds : list jdict) : Prop :=
  Forall string_id ds ∧ NoDup (map (jget (§"id")) ds).

Lemma log_ran e s : ran (log e s) =
  ran s ++ match e with Ran d _ => [jget (§"id") d] | _ => [] end.
Proof. unfold ran, log. simpl. rewrite omap_app. by destruct e. Qed.

Lemma notice_run d t s : (∀ t m, pa_accepts t m = true) → ∃ s',
  _enqueue_notice d t s = (Ok tt, s') ∧ store s' = store s ∧ ran s' = ran s ∧ clock s' = clock s.
Proof.
  intros Hpa. unfold _enqueue_notice. munfold. destruct (_pa_enqueue s); cbn [negb]; [|eauto].
  unfold pa_send. rewrite Hpa. eexists. split; [done|]. split_and!; [done| |done].
  rewrite log_ran. cbn. by rewrite app_nil_r.
Qed.

Lemma notify_after_run d dec s : (∀ t m, pa_accepts t m = true) → delivers s d → ∃ v s',
  notify_after d dec s = (Ok v, s') ∧ store s' = store s ∧ ran s' = ran s ∧ clock s' = clock s.
Proof.
  intros Hpa Hd. unfold notify_after. munfold. destruct (should dec); [|by eauto 10].
  destruct (Hd (text dec)) as [r Hr]. rewrite Hr.
  destruct (str_is _ _).
  - destruct (notice_run d (text dec) (log (Noticed d (text dec)) s) Hpa) as (s' & -> & Hs & Hn & Hc).
    exists (JStr (§"ok")), s'. split_and!; [done|done| |done]. by rewrite Hn, log_ran, app_nil_r.
  - eexists _, _. split; [done|]. split_and!; [done| |done]. by rewrite log_ran, app_nil_r.
Qed.

Lemma run_native_run d s : ∃ o s', run_native d s = (Ok o, s') ∧ store s' = store s ∧
  ran s' = ran s ++ [jget (§"id") d].
Proof.
  unfold run_native. destruct (run_scheduled _ _) as [[o took]|e].
  - eexists _, _. split; [done|]. split; [done|]. by rewrite <- (log_ran (Ran d (clock s))).
  - eexists _, _. split; [done|]. split; [done|]. by rewrite log_ran.
Qed.

Lemma decide_total d o prev cfg z : notify_cfg d = Ok cfg → failures_of prev = Ok z →
  ∃ dec, decide_notification d o prev = Ok dec.
Proof.
  intros Hc Hz. unfold decide_notification, mbind, res_bind. rewrite Hc, Hz.
  repeat case_match; eauto.
Qed.

Lemma find_id_run s l k d i : distinct (map (deref s) l) → map (deref s) l !! k = Some d →
  dget (§"id") d = Some (JStr i) → ∃ a, l !! k = Some a ∧ find_id (JStr i) l s = (Ok (Some a), s).
Proof.
  unfold distinct. revert k. induction l as [|a l IH]; intros k [Hs Hn] Hk Hi; [by destruct k|].
  cbn [map] in *. inversion_clear Hs as [|? ? [j Hj] Hs'].
  apply NoDup_cons in Hn as [Hnin Hn].
  cbn [find_id]. munfold. rewrite (getitem_run _ _ _ _ Hj). destruct k as [|k].
  - injection Hk as <-. exists a. split; [done|]. rewrite Hi in Hj. injection Hj as <-.
    cbn. by rewrite bool_decide_eq_true_2.
  - destruct (IH k (conj Hs' Hn) Hk Hi) as (b & Hb & Hf). exists b. split; [done|].
    assert (i ≠ j) as Hne.
    { intros ->. apply Hnin. rewrite (dget_jget _ _ _ Hj). apply list_elem_of_fmap.
      exists d. split; [by rewrite (dget_jget _ _ _ Hi)|]. by eapply list_elem_of_lookup_2. }
    cbn. by rewrite bool_decide_eq_false_2.
Qed.

Lemma kept_dset d d' k v : k ∈ outcome_fields → kept d d' → kept d (dset k v d').
Proof. intros Hk Hd k' Hk'. rewrite dget_dset_ne; [by apply Hd|]. by intros ->. Qed.

Lemma append_history_run e a s l : a < length (objects s) →
  dget (§"history") (deref s a) = Some (JArr l) →
  append_history e a s
  = (Ok tt, upd s a (dset (§"history") (JArr (lastn 50 (l ++ [e]))) (deref s a))).
Proof. intros Ha Hl. unfold append_history, obj. munfold. rewrite Hl. apply setitem_run. Qed.

Lemma note_outcome_run o a s : a < length (objects s) → tidy (deref s a) →
  has_fields (deref s a) → ∃ d', note_outcome o a s = (Ok tt, upd s a d') ∧
  kept (deref s a) d' ∧ tidy d' ∧ has_fields d' ∧
  dget (§"consecutive_failures") d' = Some (JInt (if out_ok o then 0
    else match py_int (default (JInt 0) (dget (§"consecutive_failures") (deref s a))) with
         | Ok z => z + 1 | Raise _ => 0 end)).
Proof.
  intros Ha [[l Hl] [z Hz]] Hf. unfold note_outcome, obj. munfold. rewrite setitem_run.
  assert (kept (deref s a) (deref s a)) as Hk by done.
  destruct (out_ok o).
  - do 4 (rewrite setitem_run, upd_upd, deref_upd_eq by (rewrite ?length_upd; done)).
    eexists. split; [done|]. split_and!.
    + repeat apply kept_dset; try member. done.
    + split; [exists l; by fields|exists 0%Z; by fields].
    + by repeat (apply has_fields_dset; [vm_compute; congruence|]).
    + by fields.
  - rewrite deref_upd_eq by done. rewrite dget_dset_ne by fresh_key.
    rewrite Hz. rewrite setitem_run, upd_upd, deref_upd_eq by done.
    eexists. split; [done|]. split_and!.
    + repeat apply kept_dset; try member. done.
    + split; [exists l; by fields|exists (z + 1)%Z; by fields].
    + by repeat (apply has_fields_dset; [vm_compute; congruence|]).
    + by fields.
Qed.

Lemma write_back_run o dec ns a s : writable s = true → a < length (objects s) →
  tidy (deref s a) → has_fields (deref s a) → ∃ d',
  write_back o dec ns a s = (Ok tt, saved (upd s a d')) ∧
  kept (deref s a) d' ∧ tidy d' ∧ has_fields d'.
Proof.
  intros Hw Ha Ht Hf. destruct (note_outcome_run o a s Ha Ht Hf) as (d & Hn & Hk & Htd & Hfd & _).
  destruct Htd as [[l Hl] [z Hz]]. unfold write_back, triggered_at, obj. munfold. rewrite Hn.
  erewrite append_history_run; [|by rewrite length_upd|by rewrite deref_upd_eq].
  rewrite deref_upd_eq, upd_upd, save_run by done. eexists. split; [done|]. split_and!.
  - apply kept_dset; [member|done].
  - split; [eexists; by fields|exists z; by fields].
  - apply has_fields_dset; [vm_compute; congruence|done].
Qed.

Lemma store_deref s s' : store s' = store s → deref s' = deref s.
Proof.
  intros Hs. assert (objects s' = objects s) as Ho by (unfold store in Hs; congruence).
  unfold deref. by rewrite Ho.
Qed.
Lemma store_stored s s' : store s' = store s → stored s' = stored s.
Proof.
  intros Hs. unfold stored.
  assert (schedules_file s' = schedules_file s) as -> by (unfold store in Hs; congruence). done.
Qed.

Lemma listed_upd s a d k : NoDup (_schedules s) → addressed s → _schedules s !! k = Some a →
  listed (upd s a d) = <[k := d]> (listed s).
Proof.
  intros Hn Ha Hk. assert (a < length (objects s)) as Hlt.
  { by eapply Forall_lookup_1 in Ha. }
  unfold listed. cbn [_schedules upd set_objects]. apply list_eq. intros j.
  rewrite list_lookup_fmap. destruct (decide (j = k)) as [->|Hne].
  - rewrite list_lookup_insert_eq by (rewrite length_fmap; by eapply lookup_lt_Some).
    rewrite Hk. simpl. by rewrite deref_upd_eq.
  - rewrite list_lookup_insert_ne, list_lookup_fmap by done.
    destruct (_schedules s !! j) as [b|] eqn:Hj; [|done]. simpl. rewrite deref_upd_ne; [done|].
    intros ->. by eapply Hne, NoDup_lookup.
Qed.

Lemma listed_upd_out s a d : a ∉ _schedules s → listed (upd s a d) = listed s.
Proof.
  intros Ha. unfold listed. cbn [_schedules upd set_objects]. apply map_ext_in.
  intros b Hb%list_elem_of_In. rewrite deref_upd_ne; [done|]. by intros ->.
Qed.

(** A record of a freshly loaded list: its address, and its replacement. *)
Lemma deref_fill_new s ds k d : ds !! k = Some d → deref (fill s ds) (length (objects s) + k) = d.
Proof.
  intros Hk. unfold deref, fill. cbn. rewrite lookup_app_r by lia.
  replace (length (objects s) + k - length (objects s)) with k by lia. by rewrite Hk.
Qed.

Lemma listed_fill_upd s ds k d : k < length ds →
  listed (upd (fill s ds) (length (objects s) + k) d) = <[k := d]> ds.
Proof.
  intros Hk. rewrite (listed_upd _ _ _ k), listed_fill; [done|apply NoDup_seq|apply addressed_fill|].
  by apply lookup_seq.
Qed.

Lemma find_schedule_run s ds k d i : distinct ds → ds !! k = Some d →
  dget (§"id") d = Some (JStr i) →
  find_schedule (JStr i) (fill s ds) = (Ok (Some (length (objects s) + k)), fill s ds).
Proof.
  intros Hdis Hk Hi. unfold find_schedule. munfold.
  destruct (find_id_run (fill s ds) (_schedules (fill s ds)) k d i) as (b & Hb & Hf); try done.
  - by change (distinct (listed (fill s ds))); rewrite listed_fill.
  - by change (listed (fill s ds) !! k = Some d); rewrite listed_fill.
  - rewrite Hf. cbn in Hb. by apply lookup_seq in Hb as [-> _].
Qed.

(** What a native execution of a schedule does, given the dictionary it was
    called with and the records in the file: the task is run once, and the
    record of that id takes the outcome. *)
Lemma execute_native_run s a i ds k c cfg z :
  (∀ t m, pa_accepts t m = true) → writable s = true →
  dget (§"id") (deref s a) = Some (JStr i) → delivers s (deref s a) →
  notify_cfg (deref s a) = Ok cfg →
  py_int (default (JInt 0) (dget (§"consecutive_failures") (deref s a))) = Ok z →
  stored s = Ok ds → distinct ds → ds !! k = Some c → dget (§"id") c = Some (JStr i) → tidy c →
  ∃ c' s1, _execute_native a s = (Ok tt, saved (upd (fill s1 ds) (length (objects s) + k) c')) ∧
    store s1 = store s ∧ ran s1 = ran s ++ [JStr i] ∧
    kept c c' ∧ tidy c' ∧ has_fields c'.
Proof.
  intros Hpa Hw Hi Hdel Hcfg Hz Hst Hdis Hk Hci Ht. unfold _execute_native, obj. munfold.
  rewrite (getitem_run _ _ _ _ Hi).
  destruct (run_native_run (deref s a) s) as (o & s1 & -> & Hs1 & Hr1).
  edestruct (decide_total (deref s a) o) as [dec ->]; [done|by apply Hz|].
  destruct (notify_after_run (deref s a) dec s1 Hpa) as (v & s2 & -> & Hs2 & Hr2 & _).
  { unfold delivers. injection Hs1 as ? ? Hc ? ? ? Hp ?. rewrite Hc, Hp. exact Hdel. }
  rewrite load_run, (store_stored s s2), Hst by congruence.
  assert (objects s2 = objects s) as Ho by (unfold store in *; congruence).
  rewrite (find_schedule_run s2 ds k c i), Ho by done.
  pose proof (deref_fill_new s2 ds k c Hk) as Hd. rewrite Ho in Hd.
  destruct (write_back_run o dec v (length (objects s) + k) (fill s2 ds)) as (c' & -> & Hkc & Htc & Hfc).
  - unfold store in *. cbn. congruence.
  - cbn. rewrite length_app, Ho. apply lookup_lt_Some in Hk. lia.
  - by rewrite Hd.
  - rewrite Hd. apply stored_has_fields in Hst. by eapply Forall_lookup_1 in Hst.
  - rewrite Hd in Hkc. exists c', s2. split_and!; [done|congruence| |done..].
    by rewrite Hr2, Hr1, (dget_jget _ _ _ Hi).
Qed.

(** ** One round *)

(** The reads of a schedule that decide about it, when they succeed. *)
Definition in_window (now : Z) d : bool :=
  match _parse_dt (jget (§"start_at") d), _parse_dt (jget (§"end_at") d) with
  | Ok start, Ok end_ =>
      match start with Some t => Z.leb t now | None => true end &&
      match end_ with Some t => Z.leb now t | None => true end
  | _, _ => false
  end.
Definition due (now : Z) d : bool := match _is_due d now with Ok b => b | Raise _ => false end.
(** Skipped because an earlier trigger is still with the primary agent. *)
Definition busy (active : list json) d : bool :=
  str_is (§"skip") (default (JStr (§"skip")) (dget (§"overlap") d)) &&
  existsb (py_eq (jget (§"id") d)) active.
Definition fires (now : Z) (active : list json) d : bool :=
  enabled_of d && in_window now d && due now d && negb (busy active d).

(** A record on which a round does not raise. *)
Record ready (config : option json) (pa : bool) (now : Z) d : Prop := {
  ready_start : ∃ o, _parse_dt (jget (§"start_at") d) = Ok o;
  ready_end : ∃ o, _parse_dt (jget (§"end_at") d) = Ok o;
  ready_due : ∃ b, _is_due d now = Ok b;
  ready_count : ∃ n, plus_one (default (JInt 0) (dget (§"run_count") d)) = Ok n;
  ready_notify : ∃ r, deliver config d [] pa = Ok r;
  ready_tidy : tidy d;
}.

(** A schedule with its run noted. *)
Definition marked (now : Z) (n : json) d : jdict :=
  dset (§"run_count") n (dset (§"last_run_at") (JStr (isoformat now)) d).

Lemma mark_run_run a s n : writable s = true → a < length (objects s) →
  plus_one (default (JInt 0) (dget (§"run_count") (deref s a))) = Ok n →
  mark_run a s = (Ok tt, saved (upd s a (marked (clock s) n (deref s a)))).
Proof.
  intros Hw Ha Hn. unfold mark_run, obj. munfold. rewrite setitem_run, deref_upd_eq by done.
  rewrite dget_dset_ne by fresh_key. rewrite Hn, setitem_run, upd_upd, deref_upd_eq by done.
  by apply save_run.
Qed.

Lemma deliver_total config pa d d' t : jget (§"notify") d' = jget (§"notify") d →
  (∃ r, deliver config d [] pa = Ok r) → ∃ r, deliver config d' t pa = Ok r.
Proof.
  intros Hn [r Hr]. revert Hr. unfold deliver, notify_cfg. rewrite Hn. unfold mbind, res_bind.
  destruct (as_obj _) as [cfg|]; [|done].
  repeat (case_match; simplify_eq/=; eauto).
Qed.

Lemma deliver_cfg config pa d r : deliver config d [] pa = Ok r → ∃ cfg, notify_cfg d = Ok cfg.
Proof. unfold deliver, mbind, res_bind. destruct (notify_cfg d); [eauto|done]. Qed.

(** The active ids changed for one id at most. *)
Definition only_id (i : pystr) (l l' : list json) : Prop :=
  ∀ v, v ≠ JStr i → (∃ j, v = JStr j) → existsb (py_eq v) l' = existsb (py_eq v) l.

Lemma only_id_add i l : only_id i l (l ++ [JStr i]).
Proof.
  intros v Hv [j ->]. rewrite existsb_app. simpl. rewrite bool_decide_eq_false_2 by congruence.
  by rewrite !orb_false_r.
Qed.

Lemma only_id_discard i l : only_id i l (filter (λ w, py_eq (JStr i) w = false) l).
Proof.
  intros v Hv [j ->]. induction l as [|w l IH]; [done|]. rewrite filter_cons. case_decide as Hw.
  - cbn [existsb]. by rewrite IH.
  - cbn [existsb]. rewrite IH. destruct w; cbn in Hw |- *; try done.
    destruct (bool_decide_reflect (i = s)); [|done]. subst.
    by rewrite bool_decide_eq_false_2 by congruence.
Qed.

Lemma only_id_trans i l l' l'' : only_id i l l' → only_id i l' l'' → only_id i l l''.
Proof. intros Ha Hb v Hv Hj. by rewrite (Hb v Hv Hj), (Ha v Hv Hj). Qed.

Lemma active_add_run i s : ∃ l,
  active_add (JStr i) s = (Ok tt, set_active s l) ∧ only_id i (_active_schedule_ids s) l.
Proof.
  unfold active_add, hashable. munfold. case_match.
  - exists (_active_schedule_ids s). split; [by destruct s|done].
  - eexists. split; [done|apply only_id_add].
Qed.

Lemma via_pa_run a s i v : (∀ t m, pa_accepts t m = true) →
  dget (§"id") (deref s a) = Some (JStr i) → dget (§"last_run_at") (deref s a) = Some v →
  ∃ s' l, _execute_via_pa a s = (Ok tt, s') ∧ store s' = store (set_active s l) ∧
    only_id i (_active_schedule_ids s) l ∧ ran s' = ran s.
Proof.
  intros Hpa Hi Hv. unfold _execute_via_pa, obj. munfold. rewrite (getitem_run _ _ _ _ Hi).
  destruct (_pa_enqueue s); cbn [negb].
  - rewrite (getitem_run _ _ _ _ Hv). unfold suppress, pa_send. cbv zeta. rewrite Hpa.
    match goal with |- context [active_add (JStr i) ?st] =>
      destruct (active_add_run i st) as (l & -> & Hl); exists (set_active st l), l end.
    split_and!; [done|done|done|]. change (ran (set_active ?x _)) with (ran x).
    rewrite log_ran. cbn. by rewrite app_nil_r.
  - exists s, (_active_schedule_ids s). split_and!; by destruct s.
Qed.

(** The state in the middle of a round: [done] are the stored records of the
    schedules gone through, [rest] and [ds] the addresses and records to come.
    While [f] holds, the list gone through is still [self._schedules]; after the
    first native run it is not. *)
Record midway (now : Z) (active : list json) (f : bool) (done : list jdict) (s : service)
    (rest : list nat) (ds : list jdict) : Prop := {
  mid_writable : writable s = true;
  mid_listed : listed s = done ++ ds;
  mid_stored : stored s = Ok (listed s);
  mid_addressed : addressed s;
  mid_nodup : NoDup (_schedules s);
  mid_rest : map (deref s) rest = ds;
  mid_in : Forall (λ a, a < length (objects s)) rest;
  mid_rest_nodup : NoDup rest;
  mid_fresh : if f then ∃ pre, _schedules s = pre ++ rest
              else Forall (λ a, a ∉ _schedules s) rest;
  mid_distinct : distinct (listed s);
  mid_ready : Forall (ready (config_file s) (_pa_enqueue s) now) ds;
  mid_active : Forall (λ d, existsb (py_eq (jget (§"id") d)) (_active_schedule_ids s)
                            = existsb (py_eq (jget (§"id") d)) active) ds;
}.

Lemma distinct_insert l k d c : distinct l → l !! k = Some d →
  dget (§"id") c = dget (§"id") d → distinct (<[k := c]> l).
Proof.
  intros [Hs Hn] Hk Hc. split.
  - apply Forall_insert; [done|]. unfold string_id. rewrite Hc. by eapply Forall_lookup_1 in Hs.
  - rewrite list_fmap_insert. replace (jget (§"id") c) with (jget (§"id") d) by (unfold jget; by rewrite Hc).
    rewrite list_insert_id; [done|]. by rewrite list_lookup_fmap, Hk.
Qed.

(** Nothing happens to the next schedule. *)
Lemma midway_skip now A f done s a rest d ds :
  midway now A f done s (a :: rest) (d :: ds) → midway now A f (done ++ [d]) s rest ds.
Proof.
  intros [? Hl ? ? ? Hr Hi Hn Hf ? Hrd Ha]. cbn [map] in Hr. injection Hr as Hd Hr.
  inversion_clear Hi. inversion_clear Hn. inversion_clear Hrd. inversion_clear Ha.
  split; try done.
  - by rewrite <- app_assoc.
  - destruct f; [|by inversion Hf]. destruct Hf as [pre ->]. exists (pre ++ [a]).
    by rewrite <- app_assoc.
Qed.

Lemma midway_head_stored now A done s a rest d ds :
  midway now A true done s (a :: rest) (d :: ds) → _schedules s !! length done = Some a.
Proof.
  intros M. destruct (mid_fresh _ _ _ _ _ _ _ M) as [pre Hp].
  assert (length pre = length done) as Hlen.
  { pose proof (mid_listed _ _ _ _ _ _ _ M) as Hl. apply (f_equal length) in Hl.
    pose proof (mid_rest _ _ _ _ _ _ _ M) as Hr. apply (f_equal length) in Hr.
    unfold listed in Hl. rewrite length_map in Hl, Hr. rewrite Hp, !length_app in Hl. lia. }
  rewrite Hp, lookup_app_r by lia. by replace (length done - length pre) with 0 by lia.
Qed.

(** The dictionary of the next schedule is replaced and the list saved: this
    reaches the file exactly while the list is still [self._schedules]. *)
Lemma midway_edit now A f done s a rest d ds d' :
  midway now A f done s (a :: rest) (d :: ds) → has_fields d' → dget (§"id") d' = dget (§"id") d →
  let s' := saved (upd s a d') in
  let c := if f then d' else d in
  listed s' = done ++ c :: ds ∧ midway now A f (done ++ [c]) s' rest ds.
Proof.
  intros M Hf Hid s' c.
  assert (listed s' = done ++ c :: ds) as Hls.
  { subst s' c. change (listed (saved ?x)) with (listed x). destruct f.
    - rewrite (listed_upd _ _ _ (length done)); [|apply M..|by eapply midway_head_stored].
      rewrite (mid_listed _ _ _ _ _ _ _ M).
      by rewrite <- (Nat.add_0_r (length done)), insert_app_r.
    - rewrite listed_upd_out; [by rewrite (mid_listed _ _ _ _ _ _ _ M)|].
      pose proof (mid_fresh _ _ _ _ _ _ _ M) as Hfr. by inversion Hfr. }
  split; [done|]. pose proof (stored_has_fields _ _ (mid_stored _ _ _ _ _ _ _ M)) as Hfl.
  destruct M as [? Hl ? ? ? Hr Hi Hn Hfr Hdis Hrd Ha]. cbn [map] in Hr. injection Hr as Hd Hr.
  inversion_clear Hi. apply NoDup_cons in Hn as [Hna Hn]. inversion_clear Hrd. inversion_clear Ha.
  rewrite Hl in Hfl, Hdis.
  assert (Forall has_fields (listed s')) as Hfl'.
  { rewrite Hls. apply Forall_app in Hfl as [? Hc]. inversion_clear Hc. apply Forall_app.
    split; [done|]. constructor; [by destruct f|done]. }
  split; try done.
  - by rewrite Hls, <- app_assoc.
  - exact (stored_saved (upd s a d') Hfl').
  - unfold addressed. change (objects s') with (objects (upd s a d')). by rewrite length_upd.
  - rewrite <- Hr. apply map_ext_in. intros b Hb%list_elem_of_In.
    change (deref s' b) with (deref (upd s a d') b). rewrite deref_upd_ne; [done|]. by intros ->.
  - change (objects s') with (objects (upd s a d')). by rewrite length_upd.
  - destruct f; [|by inversion Hfr]. destruct Hfr as [pre Hp]. exists (pre ++ [a]).
    rewrite <- app_assoc. exact Hp.
  - rewrite Hls. replace (done ++ c :: ds) with (<[length done := c]> (done ++ d :: ds)).
    + apply (distinct_insert _ _ d); [done|by rewrite list_lookup_middle|by subst c; destruct f].
    + by rewrite <- (Nat.add_0_r (length done)), insert_app_r.
Qed.

(** Time passed, messages went out and the active ids changed for an id none of
    the schedules to come has. *)
Lemma midway_active now A f done s rest ds s' l i :
  midway now A f done s rest ds → store s' = store (set_active s l) →
  only_id i (_active_schedule_ids s) l → Forall (λ d, jget (§"id") d ≠ JStr i) ds →
  midway now A f done s' rest ds.
Proof.
  intros [Hw Hl Hst Had Hnd Hr Hi Hn Hf Hdis Hrd Ha] Hs Ho Hne.
  assert (writable s' = writable s ∧ config_file s' = config_file s ∧ objects s' = objects s ∧
    _schedules s' = _schedules s ∧ _active_schedule_ids s' = l ∧ _pa_enqueue s' = _pa_enqueue s)
    as (Ew & Ec & Eo & Es & Ea & Ep) by (unfold store in Hs; simpl in Hs; split_and!; congruence).
  assert (deref s' = deref s) as Ed by (unfold deref; by rewrite Eo).
  assert (listed s' = listed s) as El by (unfold listed; by rewrite Ed, Es).
  assert (stored s' = stored s) as Est by by rewrite (store_stored (set_active s l)).
  split; unfold addressed in *; rewrite ?Ew, ?El, ?Est, ?Es, ?Eo, ?Ed, ?Ec, ?Ep, ?Ea; try done.
  rewrite Hl in Hdis. destruct Hdis as [Hid _]. apply Forall_app in Hid as [_ Hid].
  rewrite Forall_forall in Ha, Hne, Hid |- *. intros d Hd. rewrite <- Ha by done.
  apply Ho; [by apply Hne|]. destruct (Hid d Hd) as [j Hj]. exists j. by apply dget_jget.
Qed.

Lemma midway_native now A f done s rest ds a c i cfg z :
  midway now A f (done ++ [c]) s rest ds → (∀ t m, pa_accepts t m = true) →
  dget (§"id") (deref s a) = Some (JStr i) → delivers s (deref s a) →
  notify_cfg (deref s a) = Ok cfg →
  py_int (default (JInt 0) (dget (§"consecutive_failures") (deref s a))) = Ok z →
  dget (§"id") c = Some (JStr i) → tidy c →
  ∃ c' s', _execute_native a s = (Ok tt, s') ∧ ran s' = ran s ++ [JStr i] ∧ kept c c' ∧
    _active_schedule_ids s' = _active_schedule_ids s ∧
    midway now A false (done ++ [c']) s' rest ds.
Proof.
  intros [Hw Hl Hst Had Hnd Hr Hi Hn Hf Hdis Hrd Ha] Hpa Hid Hdel Hcfg Hz Hci Ht.
  assert (listed s !! length done = Some c) as Hk.
  { rewrite Hl, <- app_assoc. by apply list_lookup_middle. }
  destruct (execute_native_run s a i (listed s) (length done) c cfg z)
    as (c' & s1 & Hrun & Hs1 & Hran & Hkc & Htc & Hfc); try done.
  exists c'. eexists. split; [exact Hrun|]. set (b := length (objects s) + length done).
  assert (writable s1 = writable s ∧ config_file s1 = config_file s ∧ objects s1 = objects s ∧
    _active_schedule_ids s1 = _active_schedule_ids s ∧ _pa_enqueue s1 = _pa_enqueue s)
    as (Ew & Ec & Eo & Ea & Ep) by (unfold store in Hs1; split_and!; congruence).
  set (s2 := fill s1 (listed s)).
  assert (listed (upd s2 b c') = done ++ c' :: ds) as Hl'.
  { unfold s2, b. rewrite <- Eo, listed_fill_upd by by eapply lookup_lt_Some.
    by rewrite Hl, <- app_assoc, <- (Nat.add_0_r (length done)), insert_app_r. }
  assert (Forall has_fields (listed (upd s2 b c'))) as Hfl.
  { pose proof (stored_has_fields _ _ Hst) as Hh. rewrite Hl, <- app_assoc in Hh. rewrite Hl'.
    apply Forall_app in Hh as [? Hh]. inversion_clear Hh. apply Forall_app. split; [done|]. by constructor. }
  assert (∀ x, x ∈ rest → x < length (objects s)) as Hlt by by apply Forall_forall.
  split_and!; [exact Hran|done|exact Ea|]. split; try done.
  - by change (writable s1 = true); rewrite Ew.
  - rewrite <- app_assoc. exact Hl'.
  - exact (stored_saved (upd s2 b c') Hfl).
  - unfold addressed. change (objects (saved ?x)) with (objects x). rewrite length_upd. apply addressed_fill.
  - apply NoDup_seq.
  - rewrite <- Hr. apply map_ext_in. intros x Hx%list_elem_of_In. specialize (Hlt x Hx).
    change (deref (saved ?y) x) with (deref y x). rewrite deref_upd_ne by (unfold b; lia).
    unfold s2. rewrite deref_fill by (rewrite Eo; lia). by rewrite (store_deref s s1).
  - change (objects (saved ?x)) with (objects x). rewrite length_upd. cbn. rewrite Eo, length_app.
    eapply Forall_impl; [done|]. cbn beta. lia.
  - apply Forall_forall. intros x Hx. specialize (Hlt x Hx). cbn. rewrite Eo.
    rewrite elem_of_seq. lia.
  - change (distinct (listed (upd s2 b c'))). rewrite Hl'. rewrite Hl, <- app_assoc in Hdis.
    replace (done ++ c' :: ds) with (<[length done := c']> (done ++ c :: ds)).
    + eapply distinct_insert; [done|by rewrite list_lookup_middle|]. apply Hkc. not_member.
    + by rewrite <- (Nat.add_0_r (length done)), insert_app_r.
  - cbn. rewrite Ec, Ep. done.
  - cbn. by rewrite Ea.
Qed.

(** Whether the run of a schedule shows in its stored record. *)
Definition noted (b : bool) d c : Prop :=
  dget (§"id") c = dget (§"id") d ∧
  if b then (∃ t, dget (§"last_run_at") c = Some (JStr (isoformat t))) ∧
            Ok (jget (§"run_count") c) = plus_one (default (JInt 0) (dget (§"run_count") d))
  else dget (§"last_run_at") c = dget (§"last_run_at") d ∧
       dget (§"run_count") c = dget (§"run_count") d.

Lemma noted_kept b d c c' : noted b d c → kept c c' → noted b d c'.
Proof.
  intros [Hi Hb] Hk.
  assert (dget (§"id") c' = dget (§"id") c) as Ei by (apply Hk; not_member).
  assert (dget (§"last_run_at") c' = dget (§"last_run_at") c) as El by (apply Hk; not_member).
  assert (dget (§"run_count") c' = dget (§"run_count") c) as Er by (apply Hk; not_member).
  split; [by rewrite Ei|]. unfold jget. by rewrite El, Er.
Qed.

Lemma noted_marked f t n d : plus_one (default (JInt 0) (dget (§"run_count") d)) = Ok n →
  noted f d (if f then marked t n d else d).
Proof.
  intros Hn. unfold noted. destruct f; [|done]. unfold marked. fields.
  split_and!; [done|by exists t|done].
Qed.

Lemma tidy_marked t n d : tidy d → tidy (marked t n d).
Proof. unfold tidy, marked. by fields. Qed.

Lemma midway_head now A f done s a rest d ds : midway now A f done s (a :: rest) (d :: ds) →
  deref s a = d ∧ a < length (objects s) ∧ has_fields d ∧
  ready (config_file s) (_pa_enqueue s) now d ∧
  existsb (py_eq (jget (§"id") d)) (_active_schedule_ids s) = existsb (py_eq (jget (§"id") d)) A ∧
  ∃ i, dget (§"id") d = Some (JStr i) ∧ Forall (λ e, jget (§"id") e ≠ JStr i) ds.
Proof.
  intros [Hw Hl Hst Had Hnd Hr Hi Hn Hfr [Hids Hdis] Hrd Ha].
  pose proof (stored_has_fields _ _ Hst) as Hh. rewrite Hl in Hh, Hids, Hdis.
  cbn [map] in Hr. injection Hr as Hd Hr. apply Forall_cons in Hi as [Hi _].
  apply Forall_cons in Hrd as [Hrd _]. apply Forall_cons in Ha as [Ha _].
  apply Forall_app in Hh as [_ Hh]. apply Forall_app in Hids as [_ Hids].
  apply Forall_cons in Hh as [Hh _]. apply Forall_cons in Hids as [[i Hid] Hids].
  split_and!; try done. exists i. split; [done|].
  rewrite map_app in Hdis. apply NoDup_app in Hdis as (_ & _ & Hdis). cbn [map] in Hdis.
  apply NoDup_cons in Hdis as [Hdis _]. apply Forall_forall. intros e He Hei. apply Hdis.
  rewrite (dget_jget _ _ _ Hid), <- Hei. by apply list_elem_of_fmap_2.
Qed.

(** The choice of the executor, for a schedule [a] whose record is [c]. *)
Lemma dispatch_step now A f done s a rest c ds i cfg z v :
  midway now A f (done ++ [c]) s rest ds → (∀ t m, pa_accepts t m = true) →
  dget (§"id") (deref s a) = Some (JStr i) → delivers s (deref s a) →
  notify_cfg (deref s a) = Ok cfg →
  py_int (default (JInt 0) (dget (§"consecutive_failures") (deref s a))) = Ok z →
  dget (§"last_run_at") (deref s a) = Some v →
  dget (§"id") c = Some (JStr i) → tidy c → Forall (λ e, jget (§"id") e ≠ JStr i) ds →
  ∃ c' s',
  (if is_native (deref s a) then
     active_add (JStr i);; try_finally (_execute_native a) (active_discard (JStr i))
   else _execute_via_pa a) s = (Ok tt, s') ∧
  midway now A (f && negb (is_native (deref s a))) (done ++ [c']) s' rest ds ∧ kept c c' ∧
  ran s' = ran s ++ (if is_native (deref s a) then [JStr i] else []).
Proof.
  intros M Hpa Hid Hdel Hcfg Hz Hv Hci Ht Hoth. destruct (is_native (deref s a)).
  - rewrite andb_false_r. munfold. destruct (active_add_run i s) as (l & -> & Hl).
    pose proof (midway_active _ _ _ _ _ _ _ (set_active s l) l i M eq_refl Hl Hoth) as M1.
    destruct (midway_native now A f done (set_active s l) rest ds a c i cfg z M1)
      as (c' & s' & Hrun & Hran & Hk & Ha & M2); try done.
    exists c', (active_discard (JStr i) s'). unfold try_finally. rewrite Hrun.
    split_and!; [done| |done|exact Hran].
    by eapply (midway_active _ _ _ _ s'); [done|done|apply only_id_discard|].
  - rewrite andb_true_r, app_nil_r.
    destruct (via_pa_run a s i v) as (s' & l & -> & Hs & Hl & Hran); try done.
    exists c, s'. split_and!; [done| |done|done]. by eapply midway_active.
Qed.

(** The execution of the next schedule, when nothing of it is under way. *)
Lemma execute_step now A f done s a rest d ds :
  midway now A f done s (a :: rest) (d :: ds) → (∀ t m, pa_accepts t m = true) →
  busy A d = false → ∃ c s',
  _execute a s = (Ok tt, s') ∧
  midway now A (f && negb (is_native d)) (done ++ [c]) s' rest ds ∧ noted f d c ∧
  ran s' = ran s ++ (if is_native d then [jget (§"id") d] else []).
Proof.
  intros M Hpa Hb.
  destruct (midway_head _ _ _ _ _ _ _ _ _ M)
    as (Hd & Hi & Hf & [_ _ _ [n Hcnt] Hnot Htidy] & Ha & i & Hid & Hoth).
  unfold _execute, obj. munfold. rewrite (getitem_run _ _ _ (JStr i)), Hd by by rewrite Hd.
  assert ((if str_is (§"skip") (default (JStr (§"skip")) (dget (§"overlap") d))
           then is_active (JStr i) else λ s, (Ok false, s)) s = (Ok false, s)) as ->.
  { unfold busy in Hb. rewrite (dget_jget _ _ _ Hid) in Hb, Ha. destruct (str_is _ _); [|done].
    unfold is_active, hashable. munfold. rewrite Ha. cbn [andb] in Hb. by rewrite Hb. }
  cbn beta iota.
  rewrite (mark_run_run _ _ n), Hd by (rewrite ?Hd; first [done|apply M]).
  destruct (midway_edit now A f done s a rest d ds (marked (clock s) n d) M) as [_ M'];
    [by repeat (apply has_fields_dset; [vm_compute; congruence|])|by unfold marked; fields|].
  set (s1 := saved (upd s a (marked (clock s) n d))) in *.
  assert (deref s1 a = marked (clock s) n d) as Hd1 by by apply deref_upd_eq.
  assert (is_native (marked (clock s) n d) = is_native d) as Hnat.
  { unfold is_native, kind_of, marked. by fields. }
  destruct Hnot as [r Hnot]. destruct (deliver_cfg _ _ _ _ Hnot) as [cfg Hcfg].
  pose proof Htidy as [_ [z Hz]].
  destruct (dispatch_step now A f done s1 a rest _ ds i cfg z (JStr (isoformat (clock s))) M')
    as (c' & s' & Hrun & M2 & Hk & Hran); try done; rewrite ?Hd1.
  - unfold marked. by fields.
  - intros t. eapply deliver_total; [|by exists r]. unfold marked. by fields.
  - unfold notify_cfg, marked. by fields.
  - unfold marked. by fields.
  - unfold marked. by fields.
  - destruct f; [unfold marked; by fields|done].
  - destruct f; [by apply tidy_marked|done].
  - rewrite Hd1, Hnat in Hrun, M2, Hran. exists c', s'.
    split_and!; [by rewrite Hnat|done| |by rewrite Hran, (dget_jget _ _ _ Hid)].
    eapply noted_kept; [by eapply noted_marked|done].
Qed.

Lemma visit_step now A f done s a rest d ds :
  midway now A f done s (a :: rest) (d :: ds) → (∀ t m, pa_accepts t m = true) → ∃ c s',
  visit now a s = (Ok tt, s') ∧
  midway now A (f && negb (fires now A d && is_native d)) (done ++ [c]) s' rest ds ∧
  noted (f && fires now A d) d c ∧
  ran s' = ran s ++ (if fires now A d && is_native d then [jget (§"id") d] else []).
Proof.
  intros M Hpa.
  destruct (midway_head _ _ _ _ _ _ _ _ _ M)
    as (Hd & Hi & Hf & [[st Hst] [en Hen] [b Hdue] Hcnt Hnot Htidy] & Ha & i & Hid & Hoth).
  assert (∃ c s', (Ok tt, s) = (Ok tt, s') ∧ midway now A f (done ++ [c]) s' rest ds ∧
    noted false d c ∧ ran s' = ran s ++ []) as Hskip.
  { exists d, s. split_and!; [done|by eapply midway_skip|done|by rewrite app_nil_r]. }
  unfold visit, obj. munfold. rewrite Hd. unfold fires, in_window, due. rewrite Hst, Hen, Hdue.
  destruct (enabled_of d); cbn [negb andb]; [|by rewrite andb_false_r, andb_true_r].
  assert ((match st with Some t => Z.leb t now | None => true end)
          = negb match st with Some t => Z.ltb now t | None => false end) as ->.
  { destruct st; [|done]. by rewrite Z.leb_antisym. }
  assert ((match en with Some t => Z.leb now t | None => true end)
          = negb match en with Some t => Z.ltb t now | None => false end) as ->.
  { destruct en; [|done]. by rewrite Z.leb_antisym. }
  destruct (match st with Some t => Z.ltb now t | None => false end); cbn [negb andb];
    [by rewrite andb_false_r, andb_true_r|].
  destruct (match en with Some t => Z.ltb t now | None => false end); cbn [negb andb].
  { rewrite andb_false_r, andb_true_r, setitem_run, save_run, Hd by apply M.
    destruct (midway_edit now A f done s a rest d ds (dset (§"enabled") (JBool false) d) M) as [_ M'];
      [by apply has_fields_dset; [vm_compute; congruence|]|by fields|].
    eexists _, _. split_and!; [done|exact M'| |by rewrite app_nil_r].
    unfold noted. destruct f; by fields. }
  destruct b; cbn [andb]; [|by rewrite andb_false_r, andb_true_r].
  destruct (busy A d) eqn:Hb; cbn [negb andb].
  - rewrite andb_false_r, andb_true_r. unfold _execute, obj. munfold.
    rewrite (getitem_run _ _ _ (JStr i)), Hd by by rewrite Hd.
    unfold busy in Hb. apply andb_true_iff in Hb as [Hs Hb]. rewrite Hs.
    unfold is_active, hashable. munfold. rewrite (dget_jget _ _ _ Hid) in Ha, Hb.
    by rewrite Ha, Hb.
  - rewrite andb_true_r. by apply execute_step.
Qed.

(** The records after a round, against those before it. *)
Fixpoint round (now : Z) (A : list json) (f : bool) (ds cs : list jdict) : Prop :=
  match ds, cs with
  | [], [] => True
  | d :: ds, c :: cs =>
      noted (f && fires now A d) d c ∧ round now A (f && negb (fires now A d && is_native d)) ds cs
  | _, _ => False
  end.

Lemma visits_run now A rest : (∀ t m, pa_accepts t m = true) → ∀ f done s ds,
  midway now A f done s rest ds → ∃ cs s',
  for_each (visit now) rest s = (Ok tt, s') ∧ stored s' = Ok (done ++ cs) ∧ round now A f ds cs ∧
  ran s' = ran s ++ map (jget (§"id")) (filter (λ d, fires now A d && is_native d = true) ds).
Proof.
  intros Hpa. induction rest as [|a rest IH]; intros f done s ds M.
  { exists [], s. pose proof (mid_rest _ _ _ _ _ _ _ M) as <-.
    split_and!; [done| |done|by rewrite app_nil_r].
    by rewrite (mid_stored _ _ _ _ _ _ _ M), (mid_listed _ _ _ _ _ _ _ M). }
  destruct ds as [|d ds]; [by pose proof (mid_rest _ _ _ _ _ _ _ M)|].
  destruct (visit_step now A f done s a rest d ds M Hpa) as (c & s1 & Hv & M1 & Hn & Hr).
  destruct (IH _ _ _ _ M1) as (cs & s' & Hf & Hst & Hround & Hr').
  exists (c :: cs), s'. cbn [for_each]. munfold. rewrite Hv, Hf. split_and!; [done| |done|].
  - by rewrite Hst, <- app_assoc.
  - rewrite Hr', Hr, <- app_assoc. rewrite filter_cons.
    destruct (fires now A d && is_native d); case_decide; by simplify_eq.
Qed.

(** ** The staleness check

    It can note on a schedule that its silence was reported, and whatever else
    happens in it, an exception included, the round goes on from there. *)

Lemma kept_refl d : kept d d.
Proof. done. Qed.
Lemma kept_trans d d' d'' : kept d d' → kept d' d'' → kept d d''.
Proof. intros Ha Hb k Hk. by rewrite Hb, Ha. Qed.
Lemma kept_jget k d d' : kept d d' → k ∉ outcome_fields → jget k d' = jget k d.
Proof. intros Hk Hn. unfold jget. by rewrite (Hk k Hn). Qed.

Lemma kept_is_due d d' now : kept d d' → _is_due d' now = _is_due d now.
Proof.
  intros Hk. unfold _is_due, cron_base. by rewrite !(kept_jget _ d d' Hk) by not_member.
Qed.
Lemma kept_fires now A d d' : kept d d' → fires now A d' = fires now A d.
Proof.
  intros Hk. unfold fires, in_window, due, busy, enabled_of.
  rewrite (kept_is_due d d') by done. rewrite !(kept_jget _ d d' Hk) by not_member.
  rewrite (Hk (§"enabled")), (Hk (§"overlap")) by not_member. done.
Qed.
Lemma kept_native d d' : kept d d' → is_native d' = is_native d.
Proof.
  intros Hk. unfold is_native, kind_of. by rewrite !(kept_jget _ d d' Hk) by not_member.
Qed.
Lemma kept_ready config pa now d d' : kept d d' → tidy d' → ready config pa now d → ready config pa now d'.
Proof.
  intros Hk Ht [Hst Hen Hdue Hcnt Hnot _].
  split; rewrite ?(kept_is_due d d'), ?(kept_jget _ d d' Hk) by (done || not_member); try done.
  - by rewrite (Hk (§"run_count")) by not_member.
  - eapply deliver_total; [|done]. apply kept_jget; [done|not_member].
Qed.
Lemma kept_noted b d d' c : kept d d' → noted b d' c → noted b d c.
Proof.
  intros Hk. unfold noted.
  by rewrite (Hk (§"id")), (Hk (§"last_run_at")), (Hk (§"run_count")) by not_member.
Qed.
Lemma kept_round now A f ds ds' cs : Forall2 kept ds ds' → round now A f ds' cs → round now A f ds cs.
Proof.
  intros Hk. revert f cs. induction Hk as [|d d' ds ds' Hd Hk IH]; intros f [|c cs]; try done.
  cbn [round]. rewrite (kept_fires now A d d'), (kept_native d d') by done. intros [Hn Hr].
  split; [by eapply kept_noted|by apply IH].
Qed.
Lemma kept_due now A ds ds' : Forall2 kept ds ds' →
  map (jget (§"id")) (filter (λ d, fires now A d && is_native d = true) ds')
  = map (jget (§"id")) (filter (λ d, fires now A d && is_native d = true) ds).
Proof.
  induction 1 as [|d d' ds ds' Hd Hk IH]; [done|]. rewrite !filter_cons.
  rewrite (kept_fires now A d d'), (kept_native d d') by done.
  case_decide; [|done]. cbn [map]. rewrite IH. f_equal. apply kept_jget; [done|not_member].
Qed.

(** A record of the list at the start of a round is replaced and the list saved. *)
Lemma loaded_edit now A s ds k a d d' : midway now A true [] s (_schedules s) ds →
  _schedules s !! k = Some a → ds !! k = Some d → has_fields d' → kept d d' → tidy d' →
  let s' := saved (upd s a d') in midway now A true [] s' (_schedules s') (<[k := d']> ds).
Proof.
  intros [Hw Hl Hst Had Hnd Hr Hi Hn _ Hdis Hrd Ha] Hk Hd Hf Hkd Ht s'. cbn [app] in Hl.
  assert (listed s' = <[k := d']> ds) as Hl'.
  { change (listed s') with (listed (upd s a d')). by rewrite (listed_upd _ _ _ k), Hl. }
  assert (Forall (λ a, a < length (objects s')) (_schedules s')) as Hin.
  { change (objects s') with (objects (upd s a d')). by rewrite length_upd. }
  assert (dget (§"id") d' = dget (§"id") d) as Hid by (apply Hkd; not_member).
  pose proof (stored_has_fields _ _ Hst) as Hfl. rewrite Hl in Hfl, Hdis.
  split; try done; rewrite ?Hl'; try done.
  - rewrite <- Hl'. apply (stored_saved (upd s a d')). change (listed (upd s a d')) with (listed s').
    rewrite Hl'. by apply Forall_insert.
  - by exists [].
  - by eapply distinct_insert.
  - apply Forall_insert; [done|]. eapply kept_ready; [done..|]. by eapply Forall_lookup_1 in Hrd.
  - apply Forall_insert; [done|]. eapply Forall_lookup_1 in Ha; [|done].
    by rewrite (kept_jget _ d d') by (done || not_member).
Qed.

(** The list at the start of a round after a part of the check. *)
Definition still now A (l : list nat) s (ds : list jdict) s' : Prop :=
  _schedules s' = l ∧ ran s' = ran s ∧
  ∃ ds', Forall2 kept ds ds' ∧ midway now A true [] s' (_schedules s') ds'.

Lemma kept_all ds : Forall2 kept ds ds.
Proof. induction ds; by constructor. Qed.

Lemma midway_same now A f done s rest ds s' : midway now A f done s rest ds →
  store s' = store s → midway now A f done s' rest ds.
Proof.
  intros [Hw Hl Hst Had Hnd Hr Hi Hn Hf Hdis Hrd Ha] Hs.
  assert (writable s' = writable s ∧ config_file s' = config_file s ∧ objects s' = objects s ∧
    _schedules s' = _schedules s ∧ _active_schedule_ids s' = _active_schedule_ids s ∧
    _pa_enqueue s' = _pa_enqueue s)
    as (Ew & Ec & Eo & Es & Ea & Ep) by (unfold store in Hs; split_and!; congruence).
  pose proof (store_deref _ _ Hs) as Ed.
  assert (listed s' = listed s) as El by (unfold listed; by rewrite Ed, Es).
  split; unfold addressed in *;
    by rewrite ?(store_stored s s' Hs), ?Ew, ?El, ?Es, ?Eo, ?Ed, ?Ec, ?Ep, ?Ea.
Qed.

Lemma still_quiet now A s ds s' : midway now A true [] s (_schedules s) ds →
  store s' = store s → ran s' = ran s → still now A (_schedules s) s ds s'.
Proof.
  intros M Hs Hr. assert (_schedules s' = _schedules s) as E by (unfold store in Hs; congruence).
  split_and!; [done|done|]. exists ds. split; [apply kept_all|]. rewrite E. by eapply midway_same.
Qed.

Lemma notice_quiet d t s : ∃ r s', _enqueue_notice d t s = (r, s') ∧ store s' = store s ∧ ran s' = ran s.
Proof.
  unfold _enqueue_notice. munfold. destruct (_pa_enqueue s); cbn [negb]; [|eauto].
  unfold pa_send. case_match; eexists _, _; (split; [done|]); split; try done.
  rewrite log_ran. cbn. by rewrite app_nil_r.
Qed.

(** One schedule of the check. *)
Lemma check_stale_one_run now A t s ds k a : midway now A true [] s (_schedules s) ds →
  _schedules s !! k = Some a → ∃ r s', check_stale_one t a s = (r, s') ∧ still now A (_schedules s) s ds s'.
Proof.
  intros M Hk. assert (∃ d, ds !! k = Some d ∧ deref s a = d) as (d & Hd & Hda).
  { exists (deref s a). split; [|done]. rewrite <- (mid_rest _ _ _ _ _ _ _ M).
    by rewrite list_lookup_fmap, Hk. }
  assert (∀ r : res unit, ∃ r' s', (r, s) = (r', s') ∧ still now A (_schedules s) s ds s') as Hquiet.
  { intros r. exists r, s. split; [done|]. by apply still_quiet. }
  unfold check_stale_one, obj. munfold. rewrite Hda.
  destruct (enabled_of d); [cbn [negb]|apply Hquiet].
  destruct (unheard d) as [[]|]; [apply Hquiet| |apply Hquiet].
  destruct (truthy _); [apply Hquiet|]. destruct (_period_seconds d t) as [p|]; [|apply Hquiet].
  destruct (is_stale d t p) as [[o|]|]; [|apply Hquiet..]. cbv zeta.
  set (s1 := log _ s).
  assert (store s1 = store s ∧ ran s1 = ran s) as [Hs1 Hr1].
  { split; [done|]. unfold s1. by rewrite log_ran, app_nil_r. }
  destruct (deliver _ _ _ _) as [result|]; [|by eexists _, _; split; [done|]; apply still_quiet].
  assert (∃ r s2, (if str_is (§"queued") (jget (§"status") result)
    then _enqueue_notice d (staleness_text d o) else λ s, (Ok tt, s)) s1 = (r, s2) ∧
    store s2 = store s ∧ ran s2 = ran s) as (r & s2 & Hrun & Hs2 & Hr2).
  { destruct (str_is _ _); [|by eauto]. destruct (notice_quiet d (staleness_text d o) s1) as (r & s2 & ? & ? & ?).
    exists r, s2. split_and!; congruence. }
  munfold. rewrite Hrun. destruct r as [[]|]; [|by eexists _, _; split; [done|]; apply still_quiet].
  assert (midway now A true [] s2 (_schedules s2) ds) as M2.
  { replace (_schedules s2) with (_schedules s) by (unfold store in Hs2; congruence). by eapply midway_same. }
  rewrite setitem_run, (store_deref s s2), Hda by done. rewrite save_run by apply M2.
  eexists _, _. split; [done|].
  assert (_schedules s2 = _schedules s) as E by (unfold store in Hs2; congruence).
  split_and!; [exact E|exact Hr2|]. set (d' := dset _ _ d). exists (<[k := d']> ds).
  assert (kept d d') as Hkd by (apply kept_dset; [member|done]).
  assert (tidy d → tidy d') as Htd by (unfold tidy, d'; by fields).
  split; [rewrite <- (list_insert_id ds k d) at 1 by done; by apply Forall2_insert; [apply kept_all|]|].
  pose proof (stored_has_fields _ _ (mid_stored _ _ _ _ _ _ _ M)) as Hfl.
  rewrite (mid_listed _ _ _ _ _ _ _ M) in Hfl. eapply Forall_lookup_1 in Hfl; [|exact Hd].
  pose proof (mid_ready _ _ _ _ _ _ _ M) as Hrd. eapply Forall_lookup_1 in Hrd; [|exact Hd].
  eapply (loaded_edit now A s2 ds k a d d'); [done|by rewrite E|done| |done|apply Htd, Hrd].
  by apply has_fields_dset; [vm_compute; congruence|].
Qed.

Lemma check_staleness_run now A t l : ∀ s ds, midway now A true [] s (_schedules s) ds →
  (∀ a, a ∈ l → a ∈ _schedules s) →
  ∃ r s', for_each (check_stale_one t) l s = (r, s') ∧ still now A (_schedules s) s ds s'.
Proof.
  induction l as [|a l IH]; intros s ds M Hin.
  { exists (Ok tt), s. split; [done|]. by apply still_quiet. }
  cbn [for_each]. munfold. destruct (list_elem_of_lookup_1 _ _ (Hin a (list_elem_of_here _ _))) as [k Hk].
  destruct (check_stale_one_run now A t s ds k a M Hk) as (r & s1 & -> & E1 & R1 & ds1 & K1 & M1).
  destruct r as [[]|]; [|eexists _, s1; split; [done|]; split_and!; eauto].
  destruct (IH s1 ds1 M1) as (r & s2 & Hrun & E2 & R2 & ds2 & K2 & M2).
  { rewrite E1. intros b Hb. by apply Hin, list_elem_of_further. }
  exists r, s2. split; [exact Hrun|]. split_and!; [congruence..|]. exists ds2. split; [|done].
  clear -K1 K2. revert ds2 K2. induction K1 as [|d d1 ds ds1 Hd K1 IH]; intros ds2 K2;
    inversion_clear K2; constructor; eauto using kept_trans.
Qed.

Lemma loaded now A s ds : writable s = true → stored s = Ok ds → distinct ds → A = _active_schedule_ids s →
  Forall (ready (config_file s) (_pa_enqueue s) now) ds →
  midway now A true [] (fill s ds) (_schedules (fill s ds)) ds.
Proof.
  intros Hw Hst Hdis -> Hrd. pose proof (stored_has_fields _ _ Hst) as Hf.
  split; try done; try (rewrite listed_fill; done).
  - apply addressed_fill.
  - apply NoDup_seq.
  - apply listed_fill.
  - apply addressed_fill.
  - apply NoDup_seq.
  - by exists [].
  - by apply Forall_true.
Qed.

Lemma tick_run s ds : (∀ t m, pa_accepts t m = true) → writable s = true → stored s = Ok ds →
  distinct ds → Forall (ready (config_file s) (_pa_enqueue s) (clock s)) ds → ∃ cs s',
  tick s = (Ok tt, s') ∧ stored s' = Ok cs ∧ round (clock s) (_active_schedule_ids s) true ds cs ∧
  ran s' = ran s ++ map (jget (§"id"))
    (filter (λ d, fires (clock s) (_active_schedule_ids s) d && is_native d = true) ds).
Proof.
  intros Hpa Hw Hst Hdis Hrd. unfold tick. munfold. rewrite load_run, Hst.
  assert (∃ s1, (if Z.ltb 1800000000 (uptime (fill s ds) - last_staleness_check (fill s ds))
    then λ s, suppress (λ _, true) _check_staleness (set_checked s (uptime s)) else λ s, (Ok tt, s)) (fill s ds)
    = (Ok tt, s1) ∧ ran s1 = ran s ∧ ∃ ds1, Forall2 kept ds ds1 ∧
    midway (clock s) (_active_schedule_ids s) true [] s1 (_schedules s1) ds1) as (s1 & Hc & Hr1 & ds1 & Hk & M).
  { destruct (Z.ltb _ _).
    - change (set_checked (fill s ds) (uptime (fill s ds))) with (fill (set_checked s (uptime s)) ds).
      set (s0 := fill (set_checked s (uptime s)) ds). unfold suppress, _check_staleness. munfold.
      destruct (check_staleness_run (clock s) (_active_schedule_ids s) (clock s0) (_schedules s0) s0 ds)
        as (r & s1 & -> & E & R & ds1 & K & M); [by apply loaded|done|].
      exists s1. split; [by destruct r as [[]|]|]. by split; [|eauto].
    - exists (fill s ds). split_and!; [done|done|]. exists ds. split; [apply kept_all|]. by apply loaded. }
  munfold. lazymatch goal with |- context [let (_, _) := ?x in _] => replace x with (@Ok unit tt, s1) by by rewrite <- Hc end.
  destruct (visits_run (clock s) (_active_schedule_ids s) (_schedules s1) Hpa true []
    s1 ds1 M) as (cs & s' & Hv & Hs & Hr & Hran).
  exists cs, s'. split_and!; [exact Hv|exact Hs|by eapply kept_round|].
  by rewrite Hran, Hr1, (kept_due _ _ ds ds1).
Qed.

Lemma round_lookup now A f ds cs k d : round now A f ds cs → ds !! k = Some d →
  ∃ c, cs !! k = Some c ∧
    noted (f && negb (existsb (λ e, fires now A e && is_native e) (take k ds)) && fires now A d) d c.
Proof.
  revert f cs k. induction ds as [|e ds IH]; intros f [|c cs] [|k]; try done.
  - intros [Hn _] [= <-]. exists c. split; [done|]. cbn [take existsb negb]. by rewrite andb_true_r.
  - intros [_ Hr] Hk. destruct (IH _ _ _ Hr Hk) as (c' & Hc & Hn). exists c'. split; [done|].
    cbn [take existsb]. by rewrite negb_orb, andb_assoc.
Qed.

(** ** The round's guarantees *)

(** C21. A round of the scheduler runs what is due.  Suppose the file can be
    written, its records have distinct ids and fields that can be read, and the
    primary agent's queue takes every message.  Then a round returns, whether or
    not it makes the half-hourly check for silent schedules first, and the
    commands and recipes it started are, in the order of the file and each once,
    exactly those that are enabled, inside their window, due, and not still under
    way.  (A record with a date that cannot be read ends the loop:
    [bad_date_stops_loop].) *)
Theorem tick_runs_due s ds : (∀ t m, pa_accepts t m = true) → writable s = true →
  stored s = Ok ds → distinct ds →
  Forall (ready (config_file s) (_pa_enqueue s) (clock s)) ds →
  ∃ s', tick s = (Ok tt, s') ∧
  ran s' = ran s ++ map (jget (§"id"))
    (filter (λ d, fires (clock s) (_active_schedule_ids s) d && is_native d = true) ds).
Proof. intros. edestruct tick_run as (cs & s' & Ht & _ & _ & Hr); [done..|]. by exists s'. Qed.

(** A round notes only its first run.  Going through the list, the scheduler
    notes each run on the dictionary of its old list; once one command or recipe
    has run and the file has been read again, these notes no longer reach the
    file.  So of the schedules that fire, the stored record shows the run
    ([last_run_at], [run_count]) exactly for those with no command or recipe
    fired before them; the others are stored as if they had not run, and stay
    due. *)
Theorem tick_notes_only_first s ds : (∀ t m, pa_accepts t m = true) → writable s = true →
  stored s = Ok ds → distinct ds →
  Forall (ready (config_file s) (_pa_enqueue s) (clock s)) ds →
  ∃ s' cs, tick s = (Ok tt, s') ∧ stored s' = Ok cs ∧ length cs = length ds ∧
  ∀ k d, ds !! k = Some d → ∃ c, cs !! k = Some c ∧
    let earlier := existsb (λ e, fires (clock s) (_active_schedule_ids s) e && is_native e) (take k ds) in
    if fires (clock s) (_active_schedule_ids s) d && negb earlier
    then (∃ t, dget (§"last_run_at") c = Some (JStr (isoformat t))) ∧
         Ok (jget (§"run_count") c) = plus_one (default (JInt 0) (dget (§"run_count") d))
    else dget (§"last_run_at") c = dget (§"last_run_at") d ∧
         dget (§"run_count") c = dget (§"run_count") d.
Proof.
  intros. edestruct tick_run as (cs & s' & Ht & Hst & Hr & _); [done..|]. exists s', cs.
  split_and!; [done|done| |].
  - revert Hr. generalize true. clear. revert cs. induction ds as [|d ds IH]; intros [|c cs] f; try done.
    intros [_ Hr]. cbn. f_equal. by eapply IH.
  - intros k d Hk. destruct (round_lookup _ _ _ _ _ _ _ Hr Hk) as (c & Hc & _ & Hn).
    exists c. split; [done|]. cbv zeta. by rewrite andb_comm.
Qed.

(** A file with an end date that does not parse stops the loop: the round raises
    before anything behind that schedule is looked at. *)
Lemma bad_date_stops_loop s d ds t n : stored s = Ok (d :: ds) → enabled_of d = true →
  (∃ o, _parse_dt (jget (§"start_at") d) = Ok o) →
  jget (§"end_at") d = JStr t → t ≠ [] → iso_wall t = None →
  (uptime s - last_staleness_check s <= 1800000000)%Z →
  ∃ s', _loop (S n) s = (Raise ValueError, s') ∧ ran s' = ran s.
Proof.
  intros Hst He [o Ho] Hend Ht Hiso Hup. cbn [_loop]. unfold tick. munfold. rewrite load_run, Hst.
  change (uptime (fill s ?l)) with (uptime s).
  change (last_staleness_check (fill s ?l)) with (last_staleness_check s).
  rewrite (proj2 (Z.ltb_ge _ _)) by lia.
  change (_schedules (fill s (d :: ds)))
    with (length (objects s) :: seq (S (length (objects s))) (length ds)).
  assert (deref (fill s (d :: ds)) (length (objects s)) = d) as Hd.
  { unfold deref, fill. cbn. by rewrite lookup_app_r, Nat.sub_diag. }
  cbn [for_each]. unfold visit, obj. munfold. rewrite Hd, He, Ho, Hend. cbn [negb].
  unfold _parse_dt, wall_of. cbn [truthy]. rewrite bool_decide_eq_true_2, Hiso by done.
  by eexists.
Qed.

(** ** The list operations *)

Lemma others_run s l i : Forall string_id (map (deref s) l) →
  ∃ rest, others (JStr i) l s = (Ok rest, s) ∧
    map (deref s) rest = filter (λ d, jget (§"id") d ≠ JStr i) (map (deref s) l) ∧
    length rest ≤ length l ∧
    (length rest < length l ↔ JStr i ∈ map (jget (§"id")) (map (deref s) l)).
Proof.
  induction l as [|a l IH]; intros Hs.
  { exists []. cbn. split_and!; [done|done|done|]. split; [lia|by intros ?%elem_of_nil]. }
  cbn [map] in Hs. inversion_clear Hs as [|? ? [j Hj] Hs'].
  destruct (IH Hs') as (rest & Hr & Hm & Hle & Hlt).
  cbn [others map]. munfold. rewrite (getitem_run _ _ _ _ Hj), Hr. rewrite filter_cons.
  rewrite (dget_jget _ _ _ Hj). cbn [py_eq number_of].
  destruct (decide (j = i)) as [->|Hne].
  - rewrite bool_decide_eq_true_2, decide_False by (done || tauto). exists rest.
    split_and!; [done|done|cbn; lia|]. cbn [length]. split; [|lia]. intros _. apply list_elem_of_here.
  - rewrite bool_decide_eq_false_2, decide_True by (done || congruence). exists (a :: rest).
    cbn [map length]. split_and!; [done|by rewrite Hm|lia|].
    rewrite elem_of_cons, <- Hlt. split; [intros; right; lia|]. intros [[=]|?]; [by subst|lia].
Qed.

Lemma find_schedule_none s l i : Forall string_id (map (deref s) l) →
  JStr i ∉ map (jget (§"id")) (map (deref s) l) → find_id (JStr i) l s = (Ok None, s).
Proof.
  induction l as [|a l IH]; intros Hs Hn; [done|]. cbn [map] in *.
  inversion_clear Hs as [|? ? [j Hj] Hs']. cbn [find_id]. munfold. rewrite (getitem_run _ _ _ _ Hj).
  rewrite elem_of_cons, (dget_jget _ _ _ Hj) in Hn. cbn [py_eq number_of].
  rewrite bool_decide_eq_false_2 by naive_solver. apply IH; naive_solver.
Qed.

Lemma schedule_of_fields n uid now : has_fields (schedule_of n uid now).
Proof. split; [|by vm_compute]. repeat constructor. Qed.

Lemma add_schedule_run n s ds : writable s = true → stored s = Ok ds →
  let rec := schedule_of n (uuid_hex (drawn s)) (clock s) in
  ∃ s', add_schedule n s = (Ok rec, s') ∧ stored s' = Ok (ds ++ [rec]).
Proof.
  intros Hw Hst rec. unfold add_schedule. munfold. rewrite load_run, Hst.
  match goal with |- context [_save ?x] => set (s1 := x) end.
  assert (listed s1 = ds ++ [rec]) as Hl.
  { unfold s1, listed. cbn [_schedules set_objects draw fill]. rewrite map_app. f_equal.
    - transitivity (listed (fill s ds)); [|apply listed_fill]. unfold listed.
      apply map_ext_in. intros a Ha%list_elem_of_In%elem_of_seq. unfold deref. cbn.
      by rewrite lookup_app_l by (rewrite length_app; cbn in Ha; lia).
    - cbn [map]. unfold deref. cbn. by rewrite lookup_app_r, Nat.sub_diag by lia. }
  rewrite save_run by done. exists (saved s1). split; [done|]. rewrite <- Hl. apply stored_saved.
  rewrite Hl. apply Forall_app. split; [by eapply stored_has_fields|]. constructor; [|done].
  apply schedule_of_fields.
Qed.

Lemma remove_schedule_run i s ds : writable s = true → stored s = Ok ds → distinct ds →
  ∃ s', remove_schedule (JStr i) s = (Ok (bool_decide (JStr i ∈ map (jget (§"id")) ds)), s') ∧
        stored s' = Ok (filter (λ d, jget (§"id") d ≠ JStr i) ds).
Proof.
  intros Hw Hst [Hids Hnd]. unfold remove_schedule. munfold. rewrite load_run, Hst.
  destruct (others_run (fill s ds) (_schedules (fill s ds)) i) as (rest & Hr & Hm & Hle & Hlt).
  { by fold (listed (fill s ds)); rewrite listed_fill. }
  fold (listed (fill s ds)) in Hm, Hlt. rewrite listed_fill in Hm, Hlt. rewrite Hr.
  set (s1 := set_objects (fill s ds) (objects (fill s ds)) rest).
  assert (listed s1 = filter (λ d, jget (§"id") d ≠ JStr i) ds) as Hl by exact Hm.
  case_decide as Hd.
  - rewrite save_run by done. exists (saved s1). rewrite bool_decide_eq_true_2 by by apply Hlt.
    split; [done|]. rewrite <- Hl. apply stored_saved. rewrite Hl.
    apply stored_has_fields in Hst. by apply filter_Forall.
  - exists s1. rewrite bool_decide_eq_false_2 by (rewrite <- Hlt; done). split; [done|].
    rewrite filter_all; [exact Hst|]. intros d Hin Heq. apply Hd, Hlt.
    rewrite <- Heq. by apply list_elem_of_fmap_2.
Qed.

Lemma stored_edit s ds k d d' : stored s = Ok ds → ds !! k = Some d → has_fields d' →
  stored (saved (upd (fill s ds) (length (objects s) + k) d')) = Ok (<[k := d']> ds).
Proof.
  intros Hst Hk Hf. rewrite <- (listed_fill_upd s) by by eapply lookup_lt_Some.
  apply stored_saved. rewrite listed_fill_upd by by eapply lookup_lt_Some.
  apply Forall_insert; [|done]. by eapply stored_has_fields.
Qed.

Lemma toggle_schedule_run i s ds k d e : writable s = true → stored s = Ok ds → distinct ds →
  ds !! k = Some d → dget (§"id") d = Some (JStr i) → dget (§"enabled") d = Some e →
  ∃ s', toggle_schedule (JStr i) s = (Ok (Some (negb (truthy e))), s') ∧
        stored s' = Ok (<[k := dset (§"enabled") (JBool (negb (truthy e))) d]> ds).
Proof.
  intros Hw Hst Hdis Hk Hi He. unfold toggle_schedule. munfold. rewrite load_run, Hst.
  rewrite (find_schedule_run s ds k d i) by done. pose proof (deref_fill_new s ds k d Hk) as Hd.
  rewrite (getitem_run _ _ _ e), setitem_run, Hd, save_run by by rewrite ?Hd.
  eexists. split; [done|]. eapply stored_edit; [done..|].
  apply has_fields_dset; [vm_compute; congruence|]. pose proof (stored_has_fields _ _ Hst) as Hf.
  by eapply Forall_lookup_1 in Hf.
Qed.

Lemma toggle_schedule_none i s ds : stored s = Ok ds → distinct ds →
  JStr i ∉ map (jget (§"id")) ds →
  ∃ s', toggle_schedule (JStr i) s = (Ok None, s') ∧ stored s' = Ok ds.
Proof.
  intros Hst [Hids _] Hn. unfold toggle_schedule, find_schedule. munfold. rewrite load_run, Hst.
  rewrite find_schedule_none; [by exists (fill s ds)|..];
    fold (listed (fill s ds)); by rewrite listed_fill.
Qed.

Lemma only_discarded i l : existsb (py_eq (JStr i)) (filter (λ w, py_eq (JStr i) w = false) l) = false.
Proof.
  apply existsb_false_Forall, Forall_forall. by intros w [Hw _]%list_elem_of_filter.
Qed.

(** The result of a task the primary agent took: the record shows the status, the
    history has it as its last entry and at most fifty of them, and the schedule
    is no longer under way. *)
Lemma update_result_run i status task s ds k d : writable s = true → stored s = Ok ds →
  distinct ds → ds !! k = Some d → dget (§"id") d = Some (JStr i) → tidy d →
  ∃ d' s', update_schedule_result (JStr i) status task s = (Ok tt, s') ∧
  stored s' = Ok (<[k := d']> ds) ∧ dget (§"last_status") d' = Some (JStr status) ∧
  (∃ l e, dget (§"history") d' = Some (JArr (l ++ [e])) ∧ length l < 50) ∧
  existsb (py_eq (JStr i)) (_active_schedule_ids s') = false.
Proof.
  intros Hw Hst Hdis Hk Hi [[h Hh] _]. unfold update_schedule_result, triggered_at, obj. munfold.
  rewrite load_run, Hst, (find_schedule_run s ds k d i), setitem_run by done.
  pose proof (deref_fill_new s ds k d Hk) as Hd. rewrite Hd.
  assert (length (objects s) + k < length (objects (fill s ds))) as Hlt.
  { cbn. rewrite length_app. apply lookup_lt_Some in Hk. lia. }
  erewrite append_history_run;
    [|by rewrite length_upd|by rewrite deref_upd_eq, dget_dset_ne by (done || fresh_key)].
  rewrite upd_upd, deref_upd_eq, save_run by done. unfold hashable. munfold.
  eexists _, _. split; [done|]. split_and!.
  - eapply stored_edit; [done..|]. do 2 (apply has_fields_dset; [vm_compute; congruence|]).
    pose proof (stored_has_fields _ _ Hst) as Hf. by eapply Forall_lookup_1 in Hf.
  - by fields.
  - rewrite dget_dset_eq. unfold lastn. rewrite length_app. cbn [length].
    destruct (decide (length h < 50)) as [Hs|Hs].
    + exists h. eexists. replace (length h + 1 - 50) with 0 by lia. done.
    + exists (drop (length h + 1 - 50) h). eexists. rewrite length_drop. split; [|lia].
      by rewrite drop_app_le by lia.
  - apply only_discarded.
Qed.

(** The operations on the schedules implement those on a plain list.  When
    the file can be written and its records have distinct ids, adding appends a
    complete record, removing deletes exactly the record of that id and says
    whether there was one, toggling flips [enabled] of that record only, a
    result lands on that record only and frees the schedule, and listing returns
    what is stored. *)
Theorem schedule_list_refines s ds : writable s = true → stored s = Ok ds → distinct ds →
  (∀ n, let rec := schedule_of n (uuid_hex (drawn s)) (clock s) in
     ∃ s', add_schedule n s = (Ok rec, s') ∧ stored s' = Ok (ds ++ [rec])) ∧
  (∀ i, ∃ s', remove_schedule (JStr i) s
                = (Ok (bool_decide (JStr i ∈ map (jget (§"id")) ds)), s') ∧
              stored s' = Ok (filter (λ d, jget (§"id") d ≠ JStr i) ds)) ∧
  (∀ i, JStr i ∉ map (jget (§"id")) ds →
     ∃ s', toggle_schedule (JStr i) s = (Ok None, s') ∧ stored s' = Ok ds) ∧
  (∀ i k d e, ds !! k = Some d → dget (§"id") d = Some (JStr i) → dget (§"enabled") d = Some e →
     ∃ s', toggle_schedule (JStr i) s = (Ok (Some (negb (truthy e))), s') ∧
           stored s' = Ok (<[k := dset (§"enabled") (JBool (negb (truthy e))) d]> ds)) ∧
  (∀ i status task k d, ds !! k = Some d → dget (§"id") d = Some (JStr i) → tidy d →
     ∃ d' s', update_schedule_result (JStr i) status task s = (Ok tt, s') ∧
       stored s' = Ok (<[k := d']> ds) ∧ dget (§"last_status") d' = Some (JStr status) ∧
       (∃ l e, dget (§"history") d' = Some (JArr (l ++ [e])) ∧ length l < 50) ∧
       existsb (py_eq (JStr i)) (_active_schedule_ids s') = false) ∧
  ∃ s', list_schedules s = (Ok ds, s') ∧ stored s' = Ok ds.
Proof.
  intros Hw Hst Hdis. split_and!.
  - intros. by apply add_schedule_run.
  - intros. by apply remove_schedule_run.
  - intros. by apply toggle_schedule_none.
  - intros. by eapply toggle_schedule_run.
  - intros. by eapply update_result_run.
  - unfold list_schedules. munfold. rewrite load_run, Hst. exists (fill s ds). split; [|done].
    do 2 f_equal. apply listed_fill.
Qed.

(** Loading completes old records.  Whatever object the file holds, the
    record made of it has every field the scheduler relies on, keeps each field
    it had with its value, and is left alone by a second migration. *)
Theorem migrated_record d :
  has_fields (_migrate_schedule d) ∧
  (∀ k v, dget k d = Some v → dget k (_migrate_schedule d) = Some v) ∧
  _migrate_schedule (_migrate_schedule d) = _migrate_schedule d.
Proof.
  split_and!; [apply migrate_has_fields|intros; by apply migrate_keeps|].
  apply migrate_id, migrate_has_fields.
Qed.
End service.

(** ** A small scheduler, for evaluation

    Two hourly commands, both never run. *)
Module Sched.
Export ExecDemo.
(** Every expression means: the next minute. *)
Lemma minutely_after (e : json) base t : Ok (base + 60000000)%Z = Ok t → (base < t)%Z.
Proof. intros [= <-]. lia. Qed.
#[export] Instance minutely : Croniter :=
  {| cron_next _ base := Ok (base + 60000000)%Z; cron_next_after := minutely_after |}.
#[export] Instance counter : Uuid := λ n, str_of_N (N.of_nat n).
#[export] Instance listener : PrimaryAgent := λ _ _, true.

Definition empty : service :=
  {| schedules_file := None; writable := true; config_file := None; objects := [];
     _schedules := []; _active_schedule_ids := []; _pa_enqueue := true; clock := 1000000000;
     uptime := 7200000000; last_staleness_check := 0; drawn := 0; events := [] |}.
Definition hourly (command : pystr) : new_schedule :=
  {| ns_recipe_name := None; ns_interval_seconds := Some 3600%Z; ns_params := None;
     ns_start_at := None; ns_end_at := None; ns_name := None; ns_prompt := None; ns_cron := None;
     ns_overlap := §"skip"; ns_timeout := 300; ns_reply_channel := None;
     ns_reply_context := None; ns_command := Some command; ns_cwd := None; ns_notify := None |}.
Definition two : service := ((add_schedule (hourly (§"a"));; add_schedule (hourly (§"b"))) empty).2.
Definition records : list jdict :=
  [schedule_of (hourly (§"a")) (§"0") 1000000000; schedule_of (hourly (§"b")) (§"1") 1000000000].
End Sched.

Section demo.
Import Sched.

(** Over two rounds the second schedule runs twice within its hour. *)
Example second_schedule_runs_twice :
  ran (_loop 2 two).2 = [JStr (§"sch_0"); JStr (§"sch_1"); JStr (§"sch_1")].
Proof. vm_compute. reflexivity. Qed.

Lemma two_stored : stored two = Ok records.
Proof. vm_compute. reflexivity. Qed.
Lemma two_distinct : distinct records.
Proof.
  split.
  - repeat constructor; eexists; vm_compute; reflexivity.
  - apply (bool_decide_eq_true_1 _). vm_compute. reflexivity.
Qed.
Lemma two_ready : Forall (ready (config_file two) (_pa_enqueue two) (clock two)) records.
Proof.
  repeat constructor; eexists; vm_compute; reflexivity.
Qed.

Lemma tick_runs_due_witness : ∃ s', tick two = (Ok tt, s') ∧
  ran s' = [JStr (§"sch_0"); JStr (§"sch_1")].
Proof.
  destruct (tick_runs_due two records) as (s' & Ht & Hr);
    [done|done|apply two_stored|apply two_distinct|apply two_ready|].
  exists s'. split; [done|]. rewrite Hr. vm_compute. reflexivity.
Defined.

Lemma tick_notes_only_first_witness : ∃ s' cs d c,
  tick two = (Ok tt, s') ∧ stored s' = Ok cs ∧ cs !! 1 = Some c ∧ records !! 1 = Some d ∧
  fires (clock two) [] d = true ∧ dget (§"last_run_at") c = Some JNull.
Proof.
  destruct (tick_notes_only_first two records) as (s' & cs & Ht & Hst & _ & Hc);
    [done|done|apply two_stored|apply two_distinct|apply two_ready|].
  edestruct (Hc 1) as (c & Hk & Hl); [reflexivity|]. cbv zeta in Hl.
  match type of Hl with context [if ?b then _ else _] =>
    assert (b = false) as Hb by (vm_compute; reflexivity); rewrite Hb in Hl end.
  destruct Hl as [Hl _].
  exists s', cs. eexists. exists c. split; [done|]. split; [done|]. split; [done|].
  split; [reflexivity|]. split; [vm_compute; reflexivity|]. rewrite Hl. vm_compute. reflexivity.
Defined.

Lemma schedule_list_refines_witness : ∃ s', remove_schedule (JStr (§"sch_0")) two = (Ok true, s') ∧
  stored s' = Ok [schedule_of (hourly (§"b")) (§"1") 1000000000].
Proof.
  destruct (schedule_list_refines two records) as (_ & Hr & _);
    [done|apply two_stored|apply two_distinct|].
  destruct (Hr (§"sch_0")) as (s' & Hs & Hst). exists s'. split; [rewrite Hs|rewrite Hst];
    vm_compute; reflexivity.
Defined.
End demo.
