(* ===== verification/Executions.v ===== *)
(** * Records of recipe executions

    recipes/execution.py: the life of one execution, its states and its form on
    disk.  recipes/execution_store.py: one file for each execution in a directory
    of its month, and an index of the latest ones.  What the two promise together
    is a map from ids to executions ([recorded]); the index is an optimisation
    that lookups must not depend on. *)

From S2P Require Import Prelude PyStr Json Env Params ScheduleExec.
From stdpp Require Import prelude gmap list strings.

(** ** One execution (recipes/execution.py) *)

Inductive ExecutionStatus := PENDING | RUNNING | SUCCEEDED | FAILED | TIMEOUT | CANCELLED.

#[export] Instance status_eq_dec : EqDecision ExecutionStatus.
Proof. solve_decision. Defined.

(** The enum's [value], and [ExecutionStatus(value)]. *)
Definition status_value (st : ExecutionStatus) : pystr :=
  match st with
  | PENDING => §"pending" | RUNNING => §"running" | SUCCEEDED => §"succeeded"
  | FAILED => §"failed" | TIMEOUT => §"timeout" | CANCELLED => §"cancelled"
  end.
Definition all_statuses : list ExecutionStatus := [PENDING; RUNNING; SUCCEEDED; FAILED; TIMEOUT; CANCELLED].
Definition status_of (v : json) : res ExecutionStatus :=
  match List.find (λ st, str_is (status_value st) v) all_statuses with
  | Some st => Ok st
  | None => Raise ValueError
  end.

Definition VALID_TRANSITIONS (st : ExecutionStatus) : list ExecutionStatus :=
  match st with
  | PENDING => [RUNNING; CANCELLED]
  | RUNNING => [SUCCEEDED; FAILED; TIMEOUT; CANCELLED]
  | SUCCEEDED | FAILED | TIMEOUT | CANCELLED => []
  end.

(** The fields that are not interpreted are JSON values as they were given. *)
Record Execution := {
  ex_id : json;
  ex_recipe_name : json;
  ex_status : ExecutionStatus;
  ex_params : json;
  ex_created_at : option Z;
  ex_started_at : option Z;
  ex_completed_at : option Z;
  ex_data : json;
  ex_error : json;
  ex_exit_code : json;
  ex_runtime : json;
  ex_duration_ms : json;
  ex_timeout_seconds : json;
  ex_source : json;
  ex_workflow_id : json;
  ex_step_index : json;
}.

Definition is_terminal (e : Execution) : bool := Nat.eqb (length (VALID_TRANSITIONS (ex_status e))) 0.

Definition transition_to (now : Z) (new_status : ExecutionStatus) (e : Execution) : res Execution :=
  if decide (new_status ∈ VALID_TRANSITIONS (ex_status e)) then
    Ok {| ex_id := ex_id e; ex_recipe_name := ex_recipe_name e; ex_status := new_status;
          ex_params := ex_params e; ex_created_at := ex_created_at e;
          ex_started_at := if decide (new_status = RUNNING) then Some now else ex_started_at e;
          ex_completed_at := ex_completed_at e; ex_data := ex_data e; ex_error := ex_error e;
          ex_exit_code := ex_exit_code e; ex_runtime := ex_runtime e;
          ex_duration_ms := ex_duration_ms e; ex_timeout_seconds := ex_timeout_seconds e;
          ex_source := ex_source e; ex_workflow_id := ex_workflow_id e;
          ex_step_index := ex_step_index e |}
  else Raise InvalidTransitionError.

Section execution.
Context `{LocalTime, PyRepr}.

Definition _dt (t : option Z) : json := match t with Some t => JStr (isoformat t) | None => JNull end.

Definition to_dict (e : Execution) : jdict :=
  [(§"id", ex_id e); (§"recipe_name", ex_recipe_name e);
   (§"status", JStr (status_value (ex_status e))); (§"params", ex_params e);
   (§"created_at", _dt (ex_created_at e)); (§"started_at", _dt (ex_started_at e));
   (§"completed_at", _dt (ex_completed_at e)); (§"data", ex_data e); (§"error", ex_error e);
   (§"exit_code", ex_exit_code e); (§"runtime", ex_runtime e);
   (§"duration_ms", ex_duration_ms e); (§"timeout_seconds", ex_timeout_seconds e);
   (§"source", ex_source e); (§"workflow_id", ex_workflow_id e);
   (§"step_index", ex_step_index e)].

(** The store writes moments without a zone, so reading one back drops none. *)
Definition _parse_moment (v : json) : res (option Z) :=
  match v with JNull => Ok None | _ => t ← wall_of v; Ok (Some t) end.

Definition item (k : pystr) (d : jdict) : res json :=
  match dget k d with Some v => Ok v | None => Raise KeyError end.

Definition from_dict (d : jdict) : res Execution :=
  i ← item (§"id") d;
  name ← item (§"recipe_name") d;
  status ← item (§"status") d;
  st ← status_of status;
  created ← item (§"created_at") d;
  created_at ← _parse_moment created;
  started_at ← _parse_moment (jget (§"started_at") d);
  completed_at ← _parse_moment (jget (§"completed_at") d);
  Ok {| ex_id := i; ex_recipe_name := name; ex_status := st;
        ex_params := default (JObj []) (dget (§"params") d); ex_created_at := created_at;
        ex_started_at := started_at; ex_completed_at := completed_at;
        ex_data := jget (§"data") d; ex_error := jget (§"error") d;
        ex_exit_code := jget (§"exit_code") d; ex_runtime := jget (§"runtime") d;
        ex_duration_ms := jget (§"duration_ms") d;
        ex_timeout_seconds := jget (§"timeout_seconds") d; ex_source := jget (§"source") d;
        ex_workflow_id := jget (§"workflow_id") d; ex_step_index := jget (§"step_index") d |}.

(** What a new execution is asked for. *)
Record request := {
  rq_recipe_name : pystr; rq_params : jdict; rq_source : json; rq_timeout_seconds : json;
  rq_workflow_id : json; rq_step_index : json;
}.

Definition _generate_execution_id (uuid : pystr) : pystr := §"exec_" ++ take 12 uuid.

(** [Execution.create]. *)
Definition new_execution (uuid : pystr) (now : Z) (r : request) : Execution :=
  {| ex_id := JStr (_generate_execution_id uuid); ex_recipe_name := JStr (rq_recipe_name r);
     ex_status := PENDING; ex_params := JObj (rq_params r); ex_created_at := Some now;
     ex_started_at := None; ex_completed_at := None; ex_data := JNull; ex_error := JNull;
     ex_exit_code := JNull; ex_runtime := JNull; ex_duration_ms := JNull;
     ex_timeout_seconds := rq_timeout_seconds r; ex_source := rq_source r;
     ex_workflow_id := rq_workflow_id r; ex_step_index := rq_step_index r |}.

(** *** States *)

(** A series of attempted transitions; one that raises changes nothing.  Counts
    the ones that succeeded. *)
Fixpoint attempts (l : list (Z * ExecutionStatus)) (e : Execution) : Execution * nat :=
  match l with
  | [] => (e, 0)
  | (now, st) :: l =>
      match transition_to now st e with
      | Ok e' => let '(e'', n) := attempts l e' in (e'', S n)
      | Raise _ => attempts l e
      end
  end.

(** How many transitions a state still allows. *)
Definition rank (st : ExecutionStatus) : nat :=
  match st with PENDING => 2 | RUNNING => 1 | _ => 0 end.

Lemma transition_rank now st e e' : transition_to now st e = Ok e' →
  rank (ex_status e') < rank (ex_status e) ∧ ex_status e' = st.
Proof.
  unfold transition_to. case_decide as Hst; [|done]. intros [= <-]. simpl. split; [|done].
  destruct (ex_status e); set_solver by lia.
Qed.

Lemma attempts_rank l e : (attempts l e).2 + rank (ex_status (attempts l e).1) ≤ rank (ex_status e).
Proof.
  revert e. induction l as [|[now st] l IH]; intros e; simpl; [done|].
  destruct (transition_to now st e) as [e'|err] eqn:Et; [|apply IH].
  apply transition_rank in Et as [Hr _]. specialize (IH e'). destruct (attempts l e') as [e'' n].
  simpl in *. lia.
Qed.

(** An execution comes to rest.  Whatever transitions are attempted on it, in
    whatever order and however often, at most two succeed on a new execution; it
    is at rest exactly when no transition is possible any more, and once it is,
    every further attempt fails and leaves it as it is. *)
Theorem execution_settles uuid now r l : let '(e, n) := attempts l (new_execution uuid now r) in
  n ≤ 2 ∧ (is_terminal e = true ↔ ∀ t st, transition_to t st e = Raise InvalidTransitionError) ∧
  (is_terminal e = true → ∀ l', attempts l' e = (e, 0)).
Proof.
  pose proof (attempts_rank l (new_execution uuid now r)) as Hr.
  destruct (attempts l (new_execution uuid now r)) as [e n]. simpl in Hr.
  assert (is_terminal e = true ↔ VALID_TRANSITIONS (ex_status e) = []) as Ht.
  { unfold is_terminal. destruct (ex_status e); simpl; done. }
  assert (is_terminal e = true → ∀ t st, transition_to t st e = Raise InvalidTransitionError) as Hno.
  { intros Hv%Ht t st. unfold transition_to. rewrite Hv. by rewrite decide_False by apply not_elem_of_nil. }
  split_and!; [lia| |].
  - split; [done|]. intros Hall. apply Ht. destruct (VALID_TRANSITIONS (ex_status e)) as [|st vs] eqn:Ev; [done|].
    specialize (Hall 0%Z st). unfold transition_to in Hall. rewrite Ev in Hall.
    rewrite decide_True in Hall by apply list_elem_of_here. done.
  - intros Hterm l'. induction l' as [|[t st] l' IH]; simpl; [done|]. by rewrite Hno.
Qed.

(** *** The form on disk *)

Definition representable (t : option Z) : Prop :=
  match t with Some t => (datetime_min <= t <= datetime_max)%Z | None => True end.
Definition moments_ok (e : Execution) : Prop :=
  representable (ex_created_at e) ∧ representable (ex_started_at e) ∧ representable (ex_completed_at e).

Lemma parse_moment_dt t : representable t → _parse_moment (_dt t) = Ok t.
Proof.
  destruct t as [t|]; simpl; [|done]. intros Ht. unfold mbind, res_bind.
  by rewrite iso_wall_isoformat.
Qed.

Lemma status_of_value st : status_of (JStr (status_value st)) = Ok st.
Proof. destruct st; vm_compute; reflexivity. Qed.

Lemma from_to_dict e : moments_ok e → from_dict (to_dict e) = Ok e.
Proof.
  intros (Hc & Hs & Hd). unfold from_dict, item, mbind, res_bind.
  change (dget (§"id") (to_dict e)) with (Some (ex_id e)).
  change (dget (§"recipe_name") (to_dict e)) with (Some (ex_recipe_name e)).
  change (dget (§"status") (to_dict e)) with (Some (JStr (status_value (ex_status e)))).
  change (dget (§"created_at") (to_dict e)) with (Some (_dt (ex_created_at e))).
  change (jget (§"started_at") (to_dict e)) with (_dt (ex_started_at e)).
  change (jget (§"completed_at") (to_dict e)) with (_dt (ex_completed_at e)).
  cbn beta iota. rewrite status_of_value, !parse_moment_dt by done. by destruct e.
Qed.
End execution.

(** ** The store (recipes/execution_store.py) *)

(** The year and month of a moment in the proleptic Gregorian calendar. *)
Definition year_month (t : Z) : Z * Z :=
  let z := (t / 86400000000 + 719468)%Z in
  let doe := (z mod 146097)%Z in
  let yoe := ((doe - doe / 1460 + doe / 36524 - doe / 146096) / 365)%Z in
  let doy := (doe - (365 * yoe + yoe / 4 - yoe / 100))%Z in
  let mp := ((5 * doy + 2) / 153)%Z in
  let m := if Z.ltb mp 10 then (mp + 3)%Z else (mp - 9)%Z in
  ((yoe + z / 146097 * 400 + if Z.leb m 2 then 1 else 0)%Z, m).

(** A record's file: the month's directory and the stem of [<stem>.json]. *)
Abbreviation place := (Z * Z * pystr)%type.

(** What [store_dir.rglob(stem + ".json")] yields, of the files there are; a stem
    without wildcards matches its own name.  (The index file itself is left out.) *)
Class Rglob := {
  rglob : list place → pystr → list place;
  rglob_in : ∀ l stem p, p ∈ rglob l stem → p ∈ l;
  rglob_plain : ∀ l stem, Forall (λ c, c ∉ [42; 63; 91; 47]%N) stem →
    rglob l stem = filter (λ p, p.2 = stem) l;
}.

(** The length of [json.dumps(data)], where it does not raise. *)
Class DumpLength := dump_length : json → N.

Definition MAX_STORED_DATA_SIZE : N := 102400.
Definition DEFAULT_INDEX_LIMIT : nat := 200.
Definition AUTO_CLEANUP_INTERVAL : nat := 100.
Definition AUTO_CLEANUP_MAX_COUNT : nat := 1000.

(** A file that does not parse is [None].  [disk_ok] says whether files can be
    opened for writing and removed; directories can be made. *)
Record ExecutionStore := {
  files : dict place (option json);
  index_file : option (option json);
  disk_ok : bool;
  _create_count : nat;
}.

Definition set_files (s : ExecutionStore) (f : dict place (option json)) : ExecutionStore :=
  {| files := f; index_file := index_file s; disk_ok := disk_ok s; _create_count := _create_count s |}.
Definition set_index (s : ExecutionStore) (i : option (option json)) : ExecutionStore :=
  {| files := files s; index_file := i; disk_ok := disk_ok s; _create_count := _create_count s |}.
Definition count_create (s : ExecutionStore) : ExecutionStore :=
  {| files := files s; index_file := index_file s; disk_ok := disk_ok s;
     _create_count := S (_create_count s) |}.

Section store.
Context `{LocalTime, PyRepr, Rglob, DumpLength}.
Implicit Types (s : ExecutionStore) (e : Execution).

Definition _load_index s : list json :=
  match index_file s with Some (Some (JArr l)) => l | _ => [] end.

(** Both writers log an [OSError] and go on; a document that cannot be printed or
    encoded raises through them.  The index is written beside its file first and
    keeps its content then. *)
Definition _save_index (l : list json) : M ExecutionStore unit :=
  if negb (printable (JArr l)) then raise ValueError
  else
    s ← get_st;
    if negb (disk_ok s) then mret tt
    else if encodable (JArr l) then modify (λ s, set_index s (Some (Some (JArr l))))
    else raise ValueError.

(** [created_at.year] on a missing moment raises. *)
Definition _execution_file_path e : res place :=
  match ex_created_at e with
  | Some t => Ok (year_month t, py_str (ex_id e))
  | None => Raise AttributeError
  end.
(** The file of an execution is opened, and with that emptied, before its text is
    encoded. *)
Definition _save_execution e : M ExecutionStore unit :=
  p ← lift_res (_execution_file_path e);
  if negb (printable (JObj (to_dict e))) then raise ValueError
  else
    s ← get_st;
    if negb (disk_ok s) then mret tt
    else if encodable (JObj (to_dict e)) then
      modify (λ s, set_files s (dset p (Some (JObj (to_dict e))) (files s)))
    else
      modify (λ s, set_files s (dset p None (files s)));;
      raise ValueError.

(** Only a document that does not parse and a missing key are caught. *)
Definition _load_execution_file (p : place) s : res (option Execution) :=
  match dget p (files s) with
  | None | Some None => Ok None
  | Some (Some (JObj d)) =>
      match from_dict d with
      | Ok e => Ok (Some e)
      | Raise err => if decide (err = KeyError) then Ok None else Raise err
      end
  | Some (Some _) => Raise TypeError
  end.

Definition _file_path_from_entry (entry : jdict) : option place :=
  let created_at_str := jget (§"created_at") entry in
  let exec_id := jget (§"id") entry in
  if truthy created_at_str && truthy exec_id then
    match wall_of created_at_str with
    | Ok t => Some (year_month t, py_str exec_id)
    | Raise _ => None
    end
  else None.

(** The record an index entry leads to. *)
Definition entry_place (entry : jdict) s : option place :=
  match _file_path_from_entry entry with
  | Some p => if dmem p (files s) then Some p else None
  | None => None
  end.

(** Going through the index: an entry of that id whose file exists decides. *)
Fixpoint get_indexed (execution_id : pystr) (index : list json) s
    : res (option (option Execution)) :=
  match index with
  | [] => Ok None
  | v :: index =>
      entry ← as_obj v;
      match str_is execution_id (jget (§"id") entry), entry_place entry s with
      | true, Some p => r ← _load_execution_file p s; Ok (Some r)
      | _, _ => get_indexed execution_id index s
      end
  end.

Definition get (execution_id : pystr) s : res (option Execution) :=
  found ← get_indexed execution_id (_load_index s) s;
  match found with
  | Some r => Ok r
  | None =>
      match rglob (dkeys (files s)) execution_id with
      | p :: _ => _load_execution_file p s
      | [] => Ok None
      end
  end.

Definition entry_of e : json :=
  JObj [(§"id", ex_id e); (§"recipe_name", ex_recipe_name e);
        (§"status", JStr (status_value (ex_status e)));
        (§"created_at", _dt (ex_created_at e)); (§"workflow_id", ex_workflow_id e)].

(** The first entry of that id is replaced; [None] when there is none. *)
Fixpoint replace_entry (i : json) (entry : json) (index : list json) : res (option (list json)) :=
  match index with
  | [] => Ok None
  | v :: index =>
      d ← as_obj v;
      if py_eq (jget (§"id") d) i then Ok (Some (entry :: index))
      else r ← replace_entry i entry index; Ok (option_map (cons v) r)
  end.

Definition _update_index e : M ExecutionStore unit :=
  index ← gets _load_index;
  replaced ← lift_res (replace_entry (ex_id e) (entry_of e) index);
  let index := default (entry_of e :: index) replaced in
  _save_index (take DEFAULT_INDEX_LIMIT index).

(** The entries past the limit go, with their files; an entry whose file cannot
    be removed stays, one whose file is missing goes. *)
Fixpoint remove_old (old : list json) : M ExecutionStore (nat * list json) :=
  match old with
  | [] => mret (0, [])
  | v :: old =>
      entry ← lift_res (as_obj v);
      s ← get_st;
      match entry_place entry s with
      | None => remove_old old
      | Some p =>
          if disk_ok s then
            modify (λ s, set_files s (ddel p (files s)));;
            r ← remove_old old; mret (S r.1, r.2)
          else r ← remove_old old; mret (r.1, v :: r.2)
      end
  end.

Definition cleanup (max_count : nat) : M ExecutionStore nat :=
  index ← gets _load_index;
  if decide (length index <= max_count) then mret 0
  else
    r ← remove_old (drop max_count index);
    _save_index (take max_count index ++ r.2);;
    mret r.1.

Definition _maybe_cleanup : M ExecutionStore unit :=
  modify count_create;;
  n ← gets _create_count;
  if Nat.eqb (n mod AUTO_CLEANUP_INTERVAL) 0
  then suppress (λ _, true) (cleanup AUTO_CLEANUP_MAX_COUNT;; mret tt)
  else mret tt.

Definition create (uuid : pystr) (now : Z) (r : request) : M ExecutionStore Execution :=
  let e := new_execution uuid now r in
  _save_execution e;;
  _update_index e;;
  _maybe_cleanup;;
  mret e.

Definition load (execution_id : pystr) : M ExecutionStore Execution := λ s,
  match get execution_id s with
  | Ok (Some e) => (Ok e, s)
  | Ok None => (Raise ValueError, s)
  | Raise err => (Raise err, s)
  end.

Definition transition (now : Z) (execution_id : pystr) (st : ExecutionStatus)
    : M ExecutionStore Execution :=
  e ← load execution_id;
  e ← lift_res (transition_to now st e);
  _save_execution e;;
  _update_index e;;
  mret e.

(** The data that is kept: a document too long is replaced by its keys, one that cannot
    be printed by a mark. *)
Definition truncate (data : option json) : json :=
  match data with
  | None => JNull
  | Some v =>
      if negb (printable v) then JObj [(§"_truncated", JBool true); (§"keys", JNull)]
      else if (MAX_STORED_DATA_SIZE <? dump_length v)%N then
        JObj [(§"_truncated", JBool true);
              (§"keys", match v with JObj d => JArr (JStr <$> dkeys d) | _ => JNull end)]
      else v
  end.

(** How a run ended. *)
Record ending := {
  en_data : option json; en_error : json; en_exit_code : json; en_duration_ms : json;
  en_runtime : option pystr;
}.

Definition completed (now : Z) (n : ending) e : Execution :=
  {| ex_id := ex_id e; ex_recipe_name := ex_recipe_name e; ex_status := ex_status e;
     ex_params := ex_params e; ex_created_at := ex_created_at e;
     ex_started_at := ex_started_at e; ex_completed_at := Some now;
     ex_data := truncate (en_data n); ex_error := en_error n; ex_exit_code := en_exit_code n;
     ex_runtime := match en_runtime n with Some r => JStr r | None => ex_runtime e end;
     ex_duration_ms := en_duration_ms n; ex_timeout_seconds := ex_timeout_seconds e;
     ex_source := ex_source e; ex_workflow_id := ex_workflow_id e;
     ex_step_index := ex_step_index e |}.

Definition complete (now : Z) (execution_id : pystr) (st : ExecutionStatus) (n : ending)
    : M ExecutionStore Execution :=
  e ← load execution_id;
  e ← lift_res (transition_to now st e);
  let e := completed now n e in
  _save_execution e;;
  _update_index e;;
  mret e.

(** [list_recent]: the index from its start, filtered and cut, then the files. *)
Fixpoint select_entries (recipe_name : option pystr) (status : option ExecutionStatus)
    (limit : nat) (index : list json) : res (list jdict) :=
  match index with
  | [] => Ok []
  | v :: index =>
      entry ← as_obj v;
      if match recipe_name with
         | Some ((_ :: _) as n) => negb (str_is n (jget (§"recipe_name") entry))
         | _ => false
         end then select_entries recipe_name status limit index
      else if match status with
              | Some st => negb (str_is (status_value st) (jget (§"status") entry))
              | None => false
              end then select_entries recipe_name status limit index
      else match limit with
           | S (S _ as limit) => r ← select_entries recipe_name status limit index; Ok (entry :: r)
           | _ => Ok [entry]
           end
  end.

Fixpoint load_entries (entries : list jdict) s : res (list Execution) :=
  match entries with
  | [] => Ok []
  | entry :: entries =>
      r ← match entry_place entry s with
          | Some p => _load_execution_file p s
          | None => Ok None
          end;
      l ← load_entries entries s;
      Ok (match r with Some e => e :: l | None => l end)
  end.

Definition list_recent (recipe_name : option pystr) (limit : nat) (status : option ExecutionStatus) s
    : res (list Execution) :=
  entries ← select_entries recipe_name status limit (_load_index s);
  load_entries entries s.

(** ** The map the store keeps *)

(** An execution that has a place. *)
Definition valid e : Prop :=
  moments_ok e ∧ (∃ i, ex_id e = JStr i ∧ i ≠ []) ∧ ∃ t, ex_created_at e = Some t.

(** One whose text can be written. *)
Definition written e : bool := printable (JObj (to_dict e)) && encodable (JObj (to_dict e)).

(** A file is a record, or was emptied by a write that failed. *)
Definition indexed s (v : json) : Prop :=
  ∃ e p, v = entry_of e ∧ valid e ∧ written e = true ∧ _execution_file_path e = Ok p ∧ dmem p (files s) = true.
Record store_ok s : Prop := {
  ok_disk : disk_ok s = true;
  ok_names : NoDup (map snd (dkeys (files s)));
  ok_files : ∀ p v, dget p (files s) = Some (Some v) →
    ∃ e, v = JObj (to_dict e) ∧ valid e ∧ written e = true ∧ _execution_file_path e = Ok p;
  ok_index : Forall (indexed s) (_load_index s);
}.

(** The execution recorded under an id: the file of that name, in whichever
    month. *)
Definition recorded s (i : pystr) : option Execution :=
  match filter (λ p : place, p.2 = i) (dkeys (files s)) with
  | p :: _ => match _load_execution_file p s with Ok r => r | Raise _ => None end
  | [] => None
  end.

(** *** What can be written *)

Lemma printable_obj d : printable (JObj d) = true ↔ Forall (λ kv : pystr * json, printable kv.2 = true) d.
Proof. cbn. rewrite forallb_forall, Forall_forall. setoid_rewrite list_elem_of_In. done. Qed.
Lemma encodable_obj d : encodable (JObj d) = true ↔
  Forall (λ kv : pystr * json, encodable_str kv.1 = true ∧ encodable kv.2 = true) d.
Proof.
  cbn. rewrite forallb_forall, Forall_forall. setoid_rewrite list_elem_of_In. setoid_rewrite andb_true_iff. done.
Qed.
Lemma printable_arr l : printable (JArr l) = true ↔ Forall (λ v, printable v = true) l.
Proof. cbn. rewrite forallb_forall, Forall_forall. setoid_rewrite list_elem_of_In. done. Qed.
Lemma encodable_arr l : encodable (JArr l) = true ↔ Forall (λ v, encodable v = true) l.
Proof. cbn. rewrite forallb_forall, Forall_forall. setoid_rewrite list_elem_of_In. done. Qed.

(** What the text of an execution depends on: its fields, each by itself. *)
Definition fields_of e : list json :=
  [ex_id e; ex_recipe_name e; ex_params e; ex_data e; ex_error e; ex_exit_code e; ex_runtime e; ex_duration_ms e;
   ex_timeout_seconds e; ex_source e; ex_workflow_id e; ex_step_index e].
Lemma moment_writes t : printable (_dt t) = true ∧ encodable (_dt t) = true.
Proof. destruct t as [t|]; [|done]. split; [done|]. cbn. apply encodable_ascii, isoformat_ascii. Qed.
Lemma status_writes st : printable (JStr (status_value st)) = true ∧ encodable (JStr (status_value st)) = true.
Proof. by destruct st. Qed.

Lemma printable_fields e : printable (JObj (to_dict e)) = true ↔ Forall (λ v, printable v = true) (fields_of e).
Proof.
  rewrite printable_obj. unfold to_dict, fields_of. rewrite !Forall_cons, !Forall_nil. cbn [fst snd].
  pose proof (moment_writes (ex_created_at e)). pose proof (moment_writes (ex_started_at e)).
  pose proof (moment_writes (ex_completed_at e)). pose proof (status_writes (ex_status e)). tauto.
Qed.
Lemma encodable_fields e : encodable (JObj (to_dict e)) = true ↔ Forall (λ v, encodable v = true) (fields_of e).
Proof.
  assert (Forall (λ kv : pystr * json, encodable_str kv.1 = true) (to_dict e)) as Hk
    by (unfold to_dict; repeat (constructor; [vm_compute; reflexivity|]); constructor).
  rewrite encodable_obj, Forall_and. transitivity (Forall (λ kv : pystr * json, encodable kv.2 = true) (to_dict e)); [tauto|].
  unfold to_dict, fields_of. rewrite !Forall_cons, !Forall_nil. cbn [fst snd].
  pose proof (moment_writes (ex_created_at e)). pose proof (moment_writes (ex_started_at e)).
  pose proof (moment_writes (ex_completed_at e)). pose proof (status_writes (ex_status e)). tauto.
Qed.
Lemma written_fields e : written e = true ↔ Forall (λ v, printable v = true ∧ encodable v = true) (fields_of e).
Proof. unfold written. by rewrite andb_true_iff, printable_fields, encodable_fields, Forall_and. Qed.

Lemma entry_written e : written e = true → printable (entry_of e) = true ∧ encodable (entry_of e) = true.
Proof.
  rewrite written_fields. unfold fields_of. rewrite !Forall_cons. intros ((Pi & Ei) & (Pn & En) & _ & _ & _ & _ & _ & _ & _ & _ & (Pw & Ew) & _).
  destruct (moment_writes (ex_created_at e)) as [Pc Ec]. destruct (status_writes (ex_status e)) as [Ps Es].
  unfold entry_of. rewrite printable_obj, encodable_obj, !Forall_cons, !Forall_nil. cbn [fst snd].
  split; [done|]. split_and!; done.
Qed.

Lemma index_written s l : Forall (indexed s) l → printable (JArr l) = true ∧ encodable (JArr l) = true.
Proof.
  intros Hl. rewrite printable_arr, encodable_arr, <- Forall_and. eapply Forall_impl; [exact Hl|].
  intros v (e & p & -> & _ & Hw & _). by apply entry_written.
Qed.

(** *** Looking up *)

Lemma path_id e p : _execution_file_path e = Ok p → valid e → ex_id e = JStr p.2 ∧ p.2 ≠ [].
Proof.
  intros Hp (_ & (i & Hi & Hne) & _). unfold _execution_file_path in Hp.
  destruct (ex_created_at e); [|done]. injection Hp as <-. rewrite Hi. by split.
Qed.

Lemma filter_name l p : NoDup (map snd l) → p ∈ l →
  filter (λ q : place, q.2 = p.2) l = [p].
Proof.
  induction l as [|q l IH]; intros Hn Hp; [by apply elem_of_nil in Hp|].
  cbn [map] in Hn. apply NoDup_cons in Hn as [Hq Hn]. rewrite filter_cons.
  apply elem_of_cons in Hp as [->|Hp].
  - rewrite decide_True by done. f_equal. apply elem_of_nil_inv. intros r [Hr Hin]%list_elem_of_filter.
    apply Hq. rewrite <- Hr. by apply list_elem_of_fmap_2.
  - rewrite decide_False; [by apply IH|]. intros He. apply Hq. rewrite He. by apply list_elem_of_fmap_2.
Qed.

Lemma load_place s p : store_ok s → dmem p (files s) = true →
  _load_execution_file p s = Ok (recorded s p.2) ∧
  ∀ e, recorded s p.2 = Some e → valid e ∧ written e = true ∧ _execution_file_path e = Ok p.
Proof.
  intros Hs Hp. pose proof Hp as Hk%dmem_dkeys. unfold dmem in Hp.
  destruct (dget p (files s)) as [v|] eqn:Hv; [|done].
  assert (∃ r, _load_execution_file p s = Ok r ∧
    ∀ e, r = Some e → valid e ∧ written e = true ∧ _execution_file_path e = Ok p) as (r & Hl & Hr).
  { unfold _load_execution_file. rewrite Hv. destruct v as [v|]; [|by exists None].
    destruct (ok_files s Hs p v Hv) as (e & -> & He & Hw & Hpath). exists (Some e).
    rewrite from_to_dict; [|apply He]. split; [done|]. by intros ? [= <-]. }
  assert (recorded s p.2 = r) as -> by (unfold recorded; by rewrite (filter_name _ p (ok_names s Hs) Hk), Hl).
  done.
Qed.

Lemma entry_place_of s e p : valid e → _execution_file_path e = Ok p → dmem p (files s) = true →
  ∃ d, entry_of e = JObj d ∧ jget (§"id") d = JStr p.2 ∧ entry_place d s = Some p.
Proof.
  intros He Hp Hm. destruct (path_id e p Hp He) as [Hi Hne].
  unfold entry_of. eexists. split; [done|]. split; [exact Hi|].
  unfold entry_place, _file_path_from_entry.
  match goal with |- context [jget (§"created_at") ?d] =>
    change (jget (§"created_at") d) with (_dt (ex_created_at e));
    change (jget (§"id") d) with (ex_id e) end.
  rewrite Hi. destruct He as ((Hc & _) & _ & t & Ht). unfold _execution_file_path in Hp.
  rewrite Ht in Hp, Hc |- *. rewrite Hi in Hp. injection Hp as Hp.
  cbn [_dt truthy wall_of py_str]. rewrite iso_wall_isoformat by done.
  rewrite !bool_decide_eq_true_2 by (done || by apply isoformat_not_empty). cbn [andb].
  by rewrite Hp, Hm.
Qed.

Lemma get_indexed_run s i index : store_ok s → Forall (indexed s) index →
  get_indexed i index s = Ok None ∨ get_indexed i index s = Ok (Some (recorded s i)).
Proof.
  intros Hs Hi. induction Hi as [|v index (e & p & -> & He & _ & Hp & Hm) Hi IH]; [by left|].
  destruct (entry_place_of s e p He Hp Hm) as (d & -> & Hid & Hpl).
  cbn [get_indexed as_obj]. unfold mbind, res_bind. rewrite Hid, Hpl. cbn [str_is].
  case_bool_decide as Heq; [|exact IH]. right. destruct (load_place s p Hs Hm) as [-> _]. by rewrite <- Heq.
Qed.

Definition plain (i : pystr) : Prop := Forall (λ c, c ∉ [42; 63; 91; 47]%N) i.

(** A lookup does not depend on the index. *)
Lemma get_run s i : store_ok s → plain i → get i s = Ok (recorded s i).
Proof.
  intros Hs Hpl. unfold get, mbind, res_bind.
  destruct (get_indexed_run s i _ Hs (ok_index s Hs)) as [->| ->]; [|done].
  rewrite rglob_plain by done. destruct (filter _ _) as [|p l] eqn:Ef; [unfold recorded; by rewrite Ef|].
  assert (p ∈ p :: l) as Hp by apply list_elem_of_here.
  rewrite <- Ef in Hp. apply list_elem_of_filter in Hp as [<- Hp%dmem_dkeys]. by apply load_place.
Qed.

(** *** Writing *)

Lemma replace_entry_run i entry index (P : json → Prop) :
  P entry → Forall P index → Forall (λ v, ∃ d, v = JObj d) index →
  ∃ r, replace_entry i entry index = Ok r ∧ Forall P (default (entry :: index) r).
Proof.
  intros He Hi Ho. assert (∃ r, replace_entry i entry index = Ok r ∧
    match r with Some l => Forall P l | None => True end) as (r & -> & Hr).
  { induction Ho as [|v index [d ->] Ho IH]; [by exists None|]. inversion_clear Hi as [|? ? Hd Hi'].
    cbn [replace_entry as_obj]. unfold mbind, res_bind. destruct (py_eq _ i).
    - eexists. split; [done|]. by constructor.
    - destruct (IH Hi') as (r & -> & Hr). eexists. split; [done|]. destruct r; simpl; [by constructor|done]. }
  exists r. split; [done|]. destruct r; simpl; [done|by constructor].
Qed.

Lemma dmem_dset (p q : place) v (d : dict place (option json)) : dmem q d = true → dmem q (dset p v d) = true.
Proof.
  unfold dmem. destruct (decide (q = p)) as [->|Hne]; [by rewrite dget_dset_eq|by rewrite dget_dset_ne].
Qed.
Lemma dmem_dset_eq (p : place) v (d : dict place (option json)) : dmem p (dset p v d) = true.
Proof. unfold dmem. by rewrite dget_dset_eq. Qed.

(** Where a new record may go: over the old one, or under a name not taken. *)
Definition free_for s (p : place) : Prop :=
  dmem p (files s) = true ∨ ∀ q, q ∈ dkeys (files s) → q.2 ≠ p.2.

Lemma free_keys s p v : store_ok s → free_for s p →
  NoDup (map snd (dkeys (dset p v (files s)))) ∧
  ∀ j, j ≠ p.2 → filter (λ q : place, q.2 = j) (dkeys (dset p v (files s)))
                = filter (λ q : place, q.2 = j) (dkeys (files s)).
Proof.
  intros Hs Hf. destruct (dget p (files s)) as [w|] eqn:Hw.
  { rewrite (dkeys_dset_old _ _ _ _ Hw). split; [apply Hs|done]. }
  assert (dkeys (dset p v (files s)) = dkeys (files s) ++ [p]) as ->.
  { rewrite dset_new by done. unfold dkeys. by rewrite fmap_app. }
  assert (∀ q, q ∈ dkeys (files s) → q.2 ≠ p.2) as Hnew.
  { destruct Hf as [Hf|Hf]; [|done]. unfold dmem in Hf. by rewrite Hw in Hf. }
  split.
  - rewrite map_app. apply NoDup_app. split_and!; [apply Hs| |by apply NoDup_singleton].
    intros x (q & -> & Hq)%list_elem_of_fmap Hx. apply list_elem_of_singleton in Hx. by eapply Hnew.
  - intros j Hj. rewrite filter_app, filter_cons, decide_False by done. by rewrite app_nil_r.
Qed.

(** The file of [p] becomes [v]: a record of that place, or empty. *)
Definition fits (p : place) (v : option json) (r : option Execution) : Prop :=
  match r with
  | Some e => v = Some (JObj (to_dict e)) ∧ valid e ∧ written e = true ∧ _execution_file_path e = Ok p
  | None => v = None
  end.

Lemma put_file s p v r : store_ok s → free_for s p → fits p v r → let s' := set_files s (dset p v (files s)) in
  store_ok s' ∧ ∀ j, recorded s' j = if decide (j = p.2) then r else recorded s j.
Proof.
  intros Hs Hf Hv s'. destruct (free_keys s p v Hs Hf) as [Hn Hother].
  assert (store_ok s') as Hs'.
  { split; [apply Hs|exact Hn| |].
    - intros q x Hq. cbn in Hq. destruct (decide (q = p)) as [->|Hne].
      + rewrite dget_dset_eq in Hq. injection Hq as ->. destruct r as [e|]; [|done].
        destruct Hv as ([= ->] & ?). by exists e.
      + rewrite dget_dset_ne in Hq by done. by apply (ok_files s Hs).
    - eapply Forall_impl; [apply Hs|]. intros x (e' & q & ? & ? & ? & ? & ?). exists e', q.
      split_and!; try done. by apply dmem_dset. }
  split; [done|]. intros j. destruct (decide (j = p.2)) as [->|Hj].
  - destruct (load_place s' p Hs') as [Hl _]; [apply dmem_dset_eq|].
    enough (_load_execution_file p s' = Ok r) by congruence. unfold _load_execution_file. cbn.
    rewrite dget_dset_eq. destruct r as [e|]; [|by rewrite Hv]. destruct Hv as (-> & He & _).
    by rewrite from_to_dict by apply He.
  - unfold recorded. cbn [files set_files s']. rewrite Hother by done.
    destruct (filter _ _) as [|q ps] eqn:Eq; [done|].
    assert (q ∈ q :: ps) as Hq by apply list_elem_of_here.
    rewrite <- Eq in Hq. apply list_elem_of_filter in Hq as [Hqj _].
    unfold _load_execution_file. cbn [files set_files s']. by rewrite dget_dset_ne by congruence.
Qed.

Lemma update_index_run s e : store_ok s → indexed s (entry_of e) →
  ∃ l, _update_index e s = (Ok tt, set_index s (Some (Some (JArr l)))) ∧ Forall (indexed s) l ∧ length l ≤ DEFAULT_INDEX_LIMIT.
Proof.
  intros Hs Hent. destruct (replace_entry_run (ex_id e) (entry_of e) (_load_index s) _ Hent (ok_index s Hs)) as (r & Hr & Hall).
  { eapply Forall_impl; [apply Hs|]. intros v (e' & q & -> & _). by eexists. }
  exists (take DEFAULT_INDEX_LIMIT (default (entry_of e :: _load_index s) r)).
  apply (Forall_take _ DEFAULT_INDEX_LIMIT) in Hall.
  assert (length (take DEFAULT_INDEX_LIMIT (default (entry_of e :: _load_index s) r)) ≤ DEFAULT_INDEX_LIMIT) as Hlen
    by (rewrite length_take; apply Nat.le_min_l).
  revert Hall Hlen. unfold _update_index, _save_index. munfold. rewrite Hr.
  generalize (take DEFAULT_INDEX_LIMIT (default (entry_of e :: _load_index s) r)) as l. intros l Hall Hlen.
  destruct (index_written s l Hall) as [Hp He]. rewrite Hp. cbn [negb]. rewrite (ok_disk s Hs). cbn [negb]. by rewrite He.
Qed.

(** What a write leaves under the id: the new record; nothing if its text cannot be
    encoded; what was there if it cannot be printed. *)
Definition after_write e (old : option Execution) : option Execution :=
  if written e then Some e else if printable (JObj (to_dict e)) then None else old.

Lemma put_run s e p : store_ok s → valid e → _execution_file_path e = Ok p → free_for s p →
  ∃ s', (_save_execution e;; _update_index e) s = (if written e then Ok tt else Raise ValueError, s') ∧ store_ok s' ∧
    (written e = true → length (_load_index s') ≤ DEFAULT_INDEX_LIMIT ∧
       files s' = dset p (Some (JObj (to_dict e))) (files s)) ∧
    ∀ j, recorded s' j = if decide (j = p.2) then after_write e (recorded s j) else recorded s j.
Proof.
  intros Hs He Hp Hf. unfold after_write. unfold _save_execution at 1. munfold. rewrite Hp.
  destruct (written e) eqn:Hw; [|destruct (printable (JObj (to_dict e))) eqn:Hpr].
  - pose proof Hw as [-> Hen]%andb_true_iff. cbn [negb]. rewrite (ok_disk s Hs). cbn [negb]. rewrite Hen.
    destruct (put_file s p (Some (JObj (to_dict e))) (Some e) Hs Hf) as [Hs1 Hrec]; [done|].
    set (s1 := set_files s _) in *. destruct (update_index_run s1 e Hs1) as (l & -> & Hl & Hlen).
    { exists e, p. split_and!; try done. apply dmem_dset_eq. }
    eexists. split_and!; [done| |done|exact Hrec]. destruct Hs1 as [A B C _]. by split.
  - assert (encodable (JObj (to_dict e)) = false) as Hen by (unfold written in Hw; by rewrite Hpr in Hw).
    cbn [negb]. rewrite (ok_disk s Hs). cbn [negb]. rewrite Hen. cbn [raise]. destruct (put_file s p None None Hs Hf eq_refl) as [Hs1 Hrec]. by eexists.
  - exists s. split_and!; [done..|]. intros j. by case_decide.
Qed.

Lemma set_index_count s : store_ok s → store_ok (count_create s).
Proof. intros [? ? ? ?]. by split. Qed.

(** The automatic cleanup finds at most as many entries as the index keeps, which
    is fewer than it would leave. *)
Lemma maybe_cleanup_run s : length (_load_index s) ≤ DEFAULT_INDEX_LIMIT →
  _maybe_cleanup s = (Ok tt, count_create s).
Proof.
  intros Hl. unfold _maybe_cleanup. munfold. destruct (_ =? 0); [|done].
  unfold suppress, cleanup. munfold. change (_load_index (count_create s)) with (_load_index s).
  rewrite decide_True; [done|]. etrans; [done|]. apply (bool_decide_eq_true_1 _). vm_compute. reflexivity.
Qed.

Definition fresh_id s (i : pystr) : Prop := ∀ p, p ∈ dkeys (files s) → p.2 ≠ i.
Lemma fresh_unrecorded s i : fresh_id s i → recorded s i = None.
Proof.
  intros Hf. unfold recorded. destruct (filter _ _) as [|p l] eqn:Ef; [done|].
  assert (p ∈ p :: l) as Hin by apply list_elem_of_here.
  rewrite <- Ef in Hin. apply list_elem_of_filter in Hin as [Hpi Hin]. by destruct (Hf p Hin).
Qed.

Lemma create_run uuid now r s : store_ok s → (datetime_min <= now <= datetime_max)%Z →
  let e := new_execution uuid now r in let i := _generate_execution_id uuid in
  fresh_id s i →
  ∃ s', create uuid now r s = (if written e then Ok e else Raise ValueError, s') ∧ store_ok s' ∧
    (written e = true → files s' = dset (year_month now, i) (Some (JObj (to_dict e))) (files s)) ∧
    ∀ j, recorded s' j = if decide (j = i) then (if written e then Some e else None) else recorded s j.
Proof.
  intros Hs Hnow e i Hi.
  destruct (put_run s e (year_month now, i) Hs) as (s1 & Hput & Hs1 & Hl & Hrec).
  - split_and!; [done|by exists i|by exists now].
  - done.
  - by right.
  - assert (∀ j, recorded s1 j = if decide (j = i) then (if written e then Some e else None) else recorded s j) as Hrec'.
    { intros j. rewrite Hrec. cbn [snd]. case_decide as Hj; [|done]. subst j. unfold after_write.
      destruct (written e); [done|]. destruct (printable _); [done|]. by apply fresh_unrecorded. }
    unfold create. fold e. revert Hput. munfold.
    destruct (_save_execution e s) as [[[]|] s0].
    + intros ->. destruct (written e); [|by exists s1]. destruct (Hl eq_refl) as [Hlen Hfiles].
      exists (count_create s1). rewrite maybe_cleanup_run by done. split_and!; [done|by apply set_index_count|done|exact Hrec'].
    + destruct (written e); [done|]. intros [= -> ->]. by exists s1.
Qed.

Lemma load_run_spec s i : store_ok s → plain i →
  load i s = (match recorded s i with Some e => Ok e | None => Raise ValueError end, s).
Proof. intros Hs Hi. unfold load. rewrite (get_run s i Hs Hi). by destruct (recorded s i). Qed.

Lemma recorded_inv s i e : store_ok s → recorded s i = Some e →
  ∃ p, p.2 = i ∧ dmem p (files s) = true ∧ valid e ∧ written e = true ∧ _execution_file_path e = Ok p.
Proof.
  intros Hs He. assert (∃ p, p.2 = i ∧ dmem p (files s) = true) as (p & <- & Hm).
  { revert He. unfold recorded. destruct (filter _ _) as [|p l] eqn:Ef; [done|]. intros _.
    assert (p ∈ p :: l) as Hp by apply list_elem_of_here.
    rewrite <- Ef in Hp. apply list_elem_of_filter in Hp as [Hpi Hp%dmem_dkeys]. by exists p. }
  destruct (load_place s p Hs Hm) as [_ Hv]. destruct (Hv e He) as (? & ? & ?). by exists p.
Qed.

(** Writing an execution back with another state. *)
Lemma rewrite_run s i e e' : store_ok s → recorded s i = Some e → valid e' →
  ex_id e' = ex_id e → ex_created_at e' = ex_created_at e →
  ∃ s', (_save_execution e';; _update_index e') s = (if written e' then Ok tt else Raise ValueError, s') ∧ store_ok s' ∧
    ∀ j, recorded s' j = if decide (j = i) then after_write e' (Some e) else recorded s j.
Proof.
  intros Hs Hr Hv Hid Hc. destruct (recorded_inv s i e Hs Hr) as (p & <- & Hm & _ & _ & Hp).
  destruct (put_run s e' p Hs Hv) as (s' & ? & ? & _ & Hrec); [|by left|].
  { unfold _execution_file_path in *. by rewrite Hc, Hid. }
  exists s'. split_and!; [done|done|]. intros j. rewrite Hrec. case_decide as Hj; [|done]. subst j. by rewrite Hr.
Qed.

Lemma transition_valid now st e e' : valid e → (datetime_min <= now <= datetime_max)%Z →
  transition_to now st e = Ok e' →
  valid e' ∧ ex_id e' = ex_id e ∧ ex_created_at e' = ex_created_at e ∧ fields_of e' = fields_of e.
Proof.
  intros ((Hc & Hst & Hd) & Hi & Ht) Hnow. unfold transition_to. case_decide; [|done].
  intros [= <-]. split; [|done]. split; [|done]. split_and!; [done| |done].
  cbn. by case_decide.
Qed.

Lemma transition_run now i st s : store_ok s → (datetime_min <= now <= datetime_max)%Z → plain i →
  match recorded s i with
  | None => transition now i st s = (Raise ValueError, s)
  | Some e =>
      match transition_to now st e with
      | Raise _ => transition now i st s = (Raise InvalidTransitionError, s)
      | Ok e' => ∃ s', transition now i st s = (Ok e', s') ∧ store_ok s' ∧
                   ∀ j, recorded s' j = if decide (j = i) then Some e' else recorded s j
      end
  end.
Proof.
  intros Hs Hnow Hi. unfold transition. munfold. rewrite load_run_spec by done.
  destruct (recorded s i) as [e|] eqn:Hr; [|done].
  destruct (transition_to now st e) as [e'|err] eqn:Ht; cycle 1.
  { unfold transition_to in Ht. case_decide; [done|]. by injection Ht as <-. }
  destruct (recorded_inv s i e Hs Hr) as (p & _ & _ & Hv & Hw & _).
  destruct (transition_valid now st e e' Hv Hnow Ht) as (Hv' & Hid & Hc & Hfd).
  destruct (rewrite_run s i e e' Hs Hr Hv' Hid Hc) as (s' & Hput & Hs' & Hrec).
  assert (written e' = true) as Hw' by (apply written_fields; rewrite Hfd; by apply written_fields).
  unfold after_write in Hrec. rewrite Hw' in Hput, Hrec.
  exists s'. split; [|done]. revert Hput. munfold.
  destruct (_save_execution e' s) as [[[]|] s0]; [|done]. by intros ->.
Qed.

Lemma complete_run now i st n s : store_ok s → (datetime_min <= now <= datetime_max)%Z → plain i →
  match recorded s i with
  | None => complete now i st n s = (Raise ValueError, s)
  | Some e =>
      match transition_to now st e with
      | Raise _ => complete now i st n s = (Raise InvalidTransitionError, s)
      | Ok e' => let e'' := completed now n e' in
          ∃ s', complete now i st n s = (if written e'' then Ok e'' else Raise ValueError, s') ∧ store_ok s' ∧
                ∀ j, recorded s' j = if decide (j = i) then after_write e'' (Some e) else recorded s j
      end
  end.
Proof.
  intros Hs Hnow Hi. unfold complete. munfold. rewrite load_run_spec by done.
  destruct (recorded s i) as [e|] eqn:Hr; [|done].
  destruct (transition_to now st e) as [e'|err] eqn:Ht; cycle 1.
  { unfold transition_to in Ht. case_decide; [done|]. by injection Ht as <-. }
  destruct (recorded_inv s i e Hs Hr) as (p & _ & _ & Hv & _ & _).
  destruct (transition_valid now st e e' Hv Hnow Ht) as (((? & ? & ?) & ? & ?) & Hid & Hc & _).
  destruct (rewrite_run s i e (completed now n e') Hs Hr) as (s' & Hput & Hs' & Hrec);
    [split_and!; done|done|done|].
  exists s'. split; [|done]. revert Hput. munfold.
  destruct (_save_execution (completed now n e') s) as [[[]|] s0]; [|by destruct (written _); [|intros [= -> ->]]].
  intros ->. by destruct (written _).
Qed.

(** C23. The store is a map from ids to executions.  While files can be opened for
    writing, whatever the index has dropped: a lookup finds exactly what is recorded
    under the id; creating records the new execution and touches no other; a
    transition, and the completion of a run, replace the one record they name, and only
    by a step the states allow; a step they do not allow, and an id there is no record
    of, raise and change nothing.  A new record or a completion whose text cannot be
    written raises too: with an integer too long to print nothing changes, with half a
    surrogate pair in a string the one record it names is lost. *)
Theorem store_refines_map s : store_ok s →
  (∀ i, plain i → get i s = Ok (recorded s i)) ∧
  (∀ uuid now r, (datetime_min <= now <= datetime_max)%Z → fresh_id s (_generate_execution_id uuid) →
     let e := new_execution uuid now r in
     ∃ s', create uuid now r s = (if written e then Ok e else Raise ValueError, s') ∧ store_ok s' ∧
       ∀ j, recorded s' j = if decide (j = _generate_execution_id uuid)
                            then (if written e then Some e else None) else recorded s j) ∧
  (∀ now i st, (datetime_min <= now <= datetime_max)%Z → plain i →
     match recorded s i with
     | None => transition now i st s = (Raise ValueError, s)
     | Some e =>
         match transition_to now st e with
         | Raise _ => transition now i st s = (Raise InvalidTransitionError, s)
         | Ok e' => ∃ s', transition now i st s = (Ok e', s') ∧ store_ok s' ∧
                      ∀ j, recorded s' j = if decide (j = i) then Some e' else recorded s j
         end
     end) ∧
  (∀ now i st n, (datetime_min <= now <= datetime_max)%Z → plain i →
     match recorded s i with
     | None => complete now i st n s = (Raise ValueError, s)
     | Some e =>
         match transition_to now st e with
         | Raise _ => complete now i st n s = (Raise InvalidTransitionError, s)
         | Ok e' => let e'' := completed now n e' in
             ∃ s', complete now i st n s = (if written e'' then Ok e'' else Raise ValueError, s') ∧ store_ok s' ∧
                   ∀ j, recorded s' j = if decide (j = i) then after_write e'' (Some e) else recorded s j
         end
     end).
Proof.
  intros Hs. split_and!.
  - intros. by apply get_run.
  - intros uuid now r Hnow Hi. destruct (create_run uuid now r s Hs Hnow Hi) as (s' & ? & ? & _ & ?).
    by exists s'.
  - intros. by apply transition_run.
  - intros. by apply complete_run.
Qed.

(** The automatic cleanup never cleans.  Creating an execution adds its file
    and removes none, however many there are and however often executions were
    created: the index the cleanup works on holds at most 200 entries, and it
    leaves anything up to 1000 alone. *)
Theorem create_never_cleans uuid now r s : store_ok s → (datetime_min <= now <= datetime_max)%Z →
  fresh_id s (_generate_execution_id uuid) → written (new_execution uuid now r) = true →
  ∃ e s', create uuid now r s = (Ok e, s') ∧ store_ok s' ∧
    length (files s') = S (length (files s)) ∧
    ∀ p v, dget p (files s) = Some v → dget p (files s') = Some v.
Proof.
  intros Hs Hnow Hi Hw. destruct (create_run uuid now r s Hs Hnow Hi) as (s' & Hc & Hs' & Hf & _).
  rewrite Hw in Hc. specialize (Hf Hw).
  assert (dget (year_month now, _generate_execution_id uuid) (files s) = None) as Hnew.
  { apply dget_None. intros Hin. by eapply Hi. }
  eexists _, s'. split_and!; [exact Hc|done|by rewrite Hf, length_dset_new|].
  intros p v Hp. rewrite Hf, dget_dset_ne; [done|]. intros ->. congruence.
Qed.
End store.

(** ** Evaluation *)

Section demo.
#[local] Existing Instance repr_mark.
#[local] Existing Instance char_clock.
Lemma named_in (l : list place) (stem : pystr) p : p ∈ filter (λ q : place, q.2 = stem) l → p ∈ l.
Proof. by intros [_ ?]%list_elem_of_filter. Qed.
#[local] Instance by_name : Rglob :=
  {| rglob l stem := filter (λ q : place, q.2 = stem) l; rglob_in := named_in;
     rglob_plain _ _ _ := eq_refl |}.
#[local] Instance short : DumpLength := λ _, 0%N.

Definition demo_store : ExecutionStore :=
  {| files := []; index_file := None; disk_ok := true; _create_count := 99 |}.
Definition demo_request : request :=
  {| rq_recipe_name := §"notes"; rq_params := []; rq_source := JNull;
     rq_timeout_seconds := JNull; rq_workflow_id := JNull; rq_step_index := JNull |}.

Lemma demo_store_ok : store_ok demo_store.
Proof. split; [done|apply NoDup_nil_2|done|done]. Qed.

(** Created, started, and not startable again. *)
Lemma store_refines_map_witness : ∃ s' s'' e,
  create (§"abc") 0 demo_request demo_store = (Ok (new_execution (§"abc") 0 demo_request), s') ∧
  get (§"exec_abc") s' = Ok (Some (new_execution (§"abc") 0 demo_request)) ∧
  transition 7 (§"exec_abc") RUNNING s' = (Ok e, s'') ∧
  transition 8 (§"exec_abc") RUNNING s'' = (Raise InvalidTransitionError, s'').
Proof.
  assert (plain (§"exec_abc")) as Hp by (apply (bool_decide_eq_true_1 _); vm_compute; reflexivity).
  assert (∀ t, (0 <= t < 9)%Z → (datetime_min <= t <= datetime_max)%Z) as Hr.
  { unfold datetime_min, datetime_max. lia. }
  destruct (store_refines_map demo_store demo_store_ok) as (_ & Hc & _).
  destruct (Hc (§"abc") 0%Z demo_request (Hr 0%Z ltac:(lia))) as (s' & H1 & Hs' & Hrec).
  { intros p Hin. by apply elem_of_nil in Hin. }
  assert (written (new_execution (§"abc") 0 demo_request) = true) as Hw by (vm_compute; reflexivity).
  rewrite Hw in H1, Hrec.
  assert (recorded s' (§"exec_abc") = Some (new_execution (§"abc") 0 demo_request)) as Hr0.
  { rewrite Hrec. by rewrite decide_True by (vm_compute; reflexivity). }
  destruct (store_refines_map s' Hs') as (Hg & _ & Ht & _).
  specialize (Ht 7%Z (§"exec_abc") RUNNING (Hr 7%Z ltac:(lia)) Hp). rewrite Hr0 in Ht.
  destruct Ht as (s'' & H2 & Hs'' & Hrec2).
  destruct (store_refines_map s'' Hs'') as (_ & _ & Ht2 & _).
  specialize (Ht2 8%Z (§"exec_abc") RUNNING (Hr 8%Z ltac:(lia)) Hp).
  rewrite Hrec2, decide_True in Ht2 by done.
  eexists s', s'', _. split_and!; [exact H1|by rewrite (Hg _ Hp), Hr0|exact H2|exact Ht2].
Defined.

(** A recipe that ends with half a surrogate pair in its result loses its record. *)
Definition demo_going : ExecutionStore :=
  ((create (§"abc") 0 demo_request;; transition 7 (§"exec_abc") RUNNING) demo_store).2.
Definition half_pair : ending :=
  {| en_data := Some (JStr [55296%N]); en_error := JNull; en_exit_code := JInt 0; en_duration_ms := JInt 1;
     en_runtime := None |}.
Lemma surrogate_loses_record : option_map ex_status (recorded demo_going (§"exec_abc")) = Some RUNNING ∧
  let '(r, s) := complete 8 (§"exec_abc") SUCCEEDED half_pair demo_going in
  r = Raise ValueError ∧ recorded s (§"exec_abc") = None.
Proof. vm_compute. by repeat split. Qed.

(** The hundredth creation, at which the cleanup is tried. *)
Lemma create_never_cleans_witness : ∃ e s',
  create (§"abc") 0 demo_request demo_store = (Ok e, s') ∧ length (files s') = 1.
Proof.
  destruct (create_never_cleans (§"abc") 0 demo_request demo_store demo_store_ok)
    as (e & s' & Hc & _ & Hl & _).
  - unfold datetime_min, datetime_max. lia.
  - intros p Hin. by apply elem_of_nil in Hin.
  - vm_compute. reflexivity.
  - exists e, s'. by split.
Defined.
End demo.
