(* ===== verification/Metadata.v ===== *)
(** * A recipe's metadata

    recipes/metadata.py: [parse_metadata_file], from the text of a [recipe.md] to
    a [RecipeMetadata], and [validate_metadata].  The YAML reader is an
    interface; what it returns is a document as in Json.v (a date it would make
    of an unquoted stamp is not distinguished from a string). *)

From S2P Require Import Prelude PyStr Json Params Password ScheduleExec.
From stdpp Require Import prelude gmap list strings.

(** [yaml.safe_load]; [None] is [YAMLError]. *)
Class Yaml := yaml_load : pystr → option json.

(** The fields as the document gives them; their types are not checked here. *)
Record RecipeMetadata := {
  md_name : json;
  md_type : json;
  md_runtime : json;
  md_version : json;
  md_description : json;
  md_use_cases : json;
  md_output_targets : json;
  md_inputs : json;
  md_outputs : json;
  md_dependencies : json;
  md_tags : json;
  md_secrets : json;
  md_system_packages : json;
  md_no_proxy : json;
  md_daemon : json;
  md_restart_policy : json;
  md_warnings : json;
  md_flow : json;
  md_ui_from : json;
  md_created_at : option pystr;
  md_updated_at : option pystr;
}.

(** [s.partition(sep)]: what is before and after the first [sep]. *)
Fixpoint split_first (sep s : pystr) : option (pystr * pystr) :=
  if starts_with sep s then Some ([], drop (length sep) s)
  else match s with
       | [] => None
       | c :: s' => match split_first sep s' with
                    | Some (a, b) => Some (c :: a, b)
                    | None => None
                    end
       end.

Lemma starts_with_cut p c a b : c ∉ p → starts_with p (a ++ c :: b) = starts_with p a.
Proof.
  revert a. induction p as [|x p IH]; intros a Hc; [done|]. apply not_elem_of_cons in Hc as [Hx Hp].
  destruct a as [|y a]; cbn; [by rewrite (proj2 (N.eqb_neq x c))|]. by rewrite IH.
Qed.

Lemma split_first_cut p c a b : p ≠ [] → c ∉ p → contains p a = false →
  split_first p (a ++ c :: p ++ b) = Some (a ++ [c], b).
Proof.
  intros Hp Hc. induction a as [|x a IH]; intros Ha; cbn [app].
  - cbn [split_first]. assert (starts_with p (c :: p ++ b) = false) as ->.
    { destruct p as [|y p]; [done|]. apply not_elem_of_cons in Hc as [Hx _]. cbn. by rewrite (proj2 (N.eqb_neq y c)). }
    assert (split_first p (p ++ b) = Some ([], b)) as ->; [|done].
    destruct p as [|y p]; [done|]. cbn [app split_first]. change (y :: p ++ b) with ((y :: p) ++ b).
    by rewrite starts_with_app, drop_app_length.
  - cbn [contains] in Ha. apply orb_false_iff in Ha as [Hs Ha]. cbn [split_first].
    change (x :: a ++ c :: p ++ b) with ((x :: a) ++ c :: p ++ b). rewrite starts_with_cut, Hs by done.
    cbn [app]. by rewrite IH.
Qed.

Section metadata.
Context `{Unicode, PyRepr, Yaml}.

Definition _iso_or_none (value : json) : option pystr :=
  match value with
  | JNull => None
  | JStr s => match strip s with [] => None | t => Some t end
  | v => Some (py_str v)
  end.

Definition build_metadata (data : jdict) : option RecipeMetadata :=
  name ← dget (§"name") data;
  type ← dget (§"type") data;
  runtime ← dget (§"runtime") data;
  version ← dget (§"version") data;
  description ← dget (§"description") data;
  use_cases ← dget (§"use_cases") data;
  output_targets ← dget (§"output_targets") data;
  let get k dflt := default dflt (dget k data) in
  Some {| md_name := name; md_type := type; md_runtime := runtime; md_version := version;
          md_description := description; md_use_cases := use_cases;
          md_output_targets := output_targets; md_inputs := get (§"inputs") (JObj []);
          md_outputs := get (§"outputs") (JObj []);
          md_dependencies := get (§"dependencies") (JArr []);
          md_tags := get (§"tags") (JArr []); md_secrets := get (§"secrets") (JObj []);
          md_system_packages := get (§"system_packages") (JBool false);
          md_no_proxy := get (§"no_proxy") (JBool false);
          md_daemon := get (§"daemon") (JBool false);
          md_restart_policy := get (§"restart_policy") (JStr (§"on-failure"));
          md_warnings := get (§"warnings") (JArr []); md_flow := get (§"flow") (JArr []);
          md_ui_from := get (§"ui_from") JNull;
          md_created_at := _iso_or_none (get (§"created_at") JNull);
          md_updated_at := _iso_or_none (get (§"updated_at") JNull) |}.

(** The text between the first two [---]; [None] stands for a file that cannot
    be read. *)
Definition parse_metadata_file (content : option pystr) : res RecipeMetadata :=
  match content with
  | None => Raise MetadataParseError
  | Some text =>
      if negb (starts_with (§"---") text) then Raise MetadataParseError
      else match split_first (§"---") (drop 3 text) with
           | None => Raise MetadataParseError
           | Some (front, _) =>
               match yaml_load (strip front) with
               | Some (JObj data) =>
                   match build_metadata data with
                   | Some m => Ok m
                   | None => Raise MetadataParseError
                   end
               | _ => Raise MetadataParseError
               end
           end
  end.

(** ** Validation *)

Inductive md_error :=
  | BadName | BadType | BadRuntime | BadVersion | BadDescription | NoUseCase | NoTarget
  | BadTarget | BadRestartPolicy
  | BadInput (name : pystr)
  | BadSecretName (name : pystr) | SecretNotDict (name : pystr)
  | SecretNoType (name : pystr) | SecretBadType (name : pystr) | SecretBadRequired (name : pystr).

(** [x in v] for a string [x]. *)
Definition py_in (x : pystr) (v : json) : res bool :=
  match v with
  | JObj d => Ok (dmem x d)
  | JStr s => Ok (contains x s)
  | JArr l => Ok (existsb (str_is x) l)
  | _ => Raise TypeError
  end.

Definition one_of (l : list pystr) (v : json) : bool := existsb (λ s, str_is s v) l.

Definition word_char (c : N) : bool :=
  ((48 <=? c) && (c <=? 57) || (65 <=? c) && (c <=? 90) || (97 <=? c) && (c <=? 122) ||
   (c =? 95))%N.

(** [re.match] of [^[a-zA-Z0-9_-]+$] and of [^[a-zA-Z_][a-zA-Z0-9_]*$]; [$] also
    matches before a final newline. *)
Definition name_match (s : pystr) : bool :=
  bool_decide (chomp s ≠ []) && forallb (λ c, word_char c || (c =? 45)%N) (chomp s).
Definition secret_match (s : pystr) : bool :=
  match chomp s with
  | c :: r => word_char c && negb ((48 <=? c) && (c <=? 57))%N && forallb word_char r
  | [] => false
  end.

(** [re.match] of [^\d+\.\d+(\.\d+)?$]. *)
Definition digits (s : pystr) : bool :=
  bool_decide (s ≠ []) && forallb (λ c, bool_decide (is_Some (digit_of c))) s.
Definition version_match (s : pystr) : bool :=
  match split_on 46 (chomp s) with
  | [a; b] => digits a && digits b
  | [a; b; c] => digits a && digits b && digits c
  | _ => false
  end.

(** [re.match(…, v)] and [len(v)], which raise on a value of another type. *)
Definition match_str (p : pystr → bool) (v : json) : res bool :=
  match v with JStr s => Ok (p s) | _ => Raise TypeError end.
Definition len_of (v : json) : res Z :=
  match py_len v with Some n => Ok n | None => Raise TypeError end.

Definition error_if (b : bool) (e : md_error) : list md_error := if b then [e] else [].

Definition name_errors (v : json) : res (list md_error) :=
  if truthy v then ok ← match_str name_match v; Ok (error_if (negb ok) BadName) else Ok [BadName].
Definition description_errors (v : json) : res (list md_error) :=
  if truthy v then n ← len_of v; Ok (error_if (Z.ltb 200 n) BadDescription) else Ok [BadDescription].
(** [not v or len(v) == 0]. *)
Definition empty_errors (e : md_error) (v : json) : res (list md_error) :=
  if truthy v then n ← len_of v; Ok (error_if (Z.eqb n 0) e) else Ok [e].
Definition target_errors (v : json) : res (list md_error) :=
  l ← py_iter v;
  Ok (concat (map (λ t, error_if (negb (one_of [§"stdout"; §"file"; §"clipboard"] t)) BadTarget) l)).

Definition input_errors (v : json) : res (list md_error) :=
  d ← as_obj v;
  ls ← map_res (λ nd : pystr * json,
    t ← py_in (§"type") nd.2;
    if negb t then Ok [BadInput nd.1]
    else r ← py_in (§"required") nd.2; Ok (error_if (negb r) (BadInput nd.1))) d;
  Ok (concat ls).

Definition secret_errors1 (nd : pystr * json) : list md_error :=
  error_if (negb (secret_match nd.1)) (BadSecretName nd.1) ++
  match nd.2 with
  | JObj def =>
      match dget (§"type") def with
      | None => [SecretNoType nd.1]
      | Some t =>
          error_if (negb (one_of [§"string"; §"number"; §"boolean"; §"object"; §"array"] t))
            (SecretBadType nd.1)
      end ++
      match dget (§"required") def with
      | Some (JBool _) | None => []
      | Some _ => [SecretBadRequired nd.1]
      end
  | _ => [SecretNotDict nd.1]
  end.
Definition secret_errors (v : json) : res (list md_error) :=
  d ← as_obj v; Ok (concat (map secret_errors1 d)).

Definition metadata_errors (m : RecipeMetadata) : res (list md_error) :=
  e1 ← name_errors (md_name m);
  let e2 := error_if (negb (one_of [§"atomic"; §"workflow"] (md_type m))) BadType in
  let e3 := error_if (negb (one_of [§"chrome-js"; §"python"; §"shell"] (md_runtime m))) BadRuntime in
  v ← match_str version_match (md_version m);
  let e4 := error_if (negb v) BadVersion in
  e5 ← description_errors (md_description m);
  e6 ← empty_errors NoUseCase (md_use_cases m);
  e7 ← empty_errors NoTarget (md_output_targets m);
  e8 ← target_errors (md_output_targets m);
  let e9 := error_if (negb (one_of [§"always"; §"on-failure"; §"never"] (md_restart_policy m)))
              BadRestartPolicy in
  e10 ← input_errors (md_inputs m);
  e11 ← secret_errors (md_secrets m);
  Ok (e1 ++ e2 ++ e3 ++ e4 ++ e5 ++ e6 ++ e7 ++ e8 ++ e9 ++ e10 ++ e11).

Definition validate_metadata (m : RecipeMetadata) : res unit :=
  es ← metadata_errors m;
  match es with [] => Ok tt | _ => Raise RecipeValidationError end.

(** ** What validation guarantees *)

Definition in_strings (l : list pystr) (v : json) : Prop := ∃ t, v = JStr t ∧ t ∈ l.
(** A value with a length, above zero. *)
Definition some_of (v : json) : Prop :=
  truthy v = true ∧ match v with JStr _ | JArr _ | JObj _ => True | _ => False end.

Record well_formed (m : RecipeMetadata) : Prop := {
  wf_name : ∃ s, md_name m = JStr s ∧ name_match s = true;
  wf_type : in_strings [§"atomic"; §"workflow"] (md_type m);
  wf_runtime : in_strings [§"chrome-js"; §"python"; §"shell"] (md_runtime m);
  wf_version : ∃ s, md_version m = JStr s ∧ version_match s = true;
  wf_description : some_of (md_description m) ∧ ∃ n, py_len (md_description m) = Some n ∧ (n <= 200)%Z;
  wf_use_cases : some_of (md_use_cases m);
  wf_targets : some_of (md_output_targets m) ∧ ∃ l, py_iter (md_output_targets m) = Ok l ∧
    Forall (in_strings [§"stdout"; §"file"; §"clipboard"]) l;
  wf_restart : in_strings [§"always"; §"on-failure"; §"never"] (md_restart_policy m);
  wf_inputs : ∃ d, md_inputs m = JObj d ∧ Forall (λ nd : pystr * json,
    py_in (§"type") nd.2 = Ok true ∧ py_in (§"required") nd.2 = Ok true) d;
  wf_secrets : ∃ d, md_secrets m = JObj d ∧ Forall (λ nd : pystr * json,
    secret_match nd.1 = true ∧ ∃ def t, nd.2 = JObj def ∧ dget (§"type") def = Some t ∧
    in_strings [§"string"; §"number"; §"boolean"; §"object"; §"array"] t ∧
    match dget (§"required") def with Some v => ∃ b, v = JBool b | None => True end) d;
}.

Lemma Ok_inj {A} (x y : A) : Ok x = Ok y → x = y.
Proof. congruence. Qed.

Lemma error_if_nil b e : error_if b e = [] ↔ b = false.
Proof. by destruct b. Qed.

Lemma one_of_iff l v : one_of l v = true ↔ in_strings l v.
Proof.
  unfold one_of, in_strings. rewrite existsb_exists. setoid_rewrite <- list_elem_of_In.
  setoid_rewrite str_is_iff. naive_solver.
Qed.

Lemma choice_nil l v e : error_if (negb (one_of l v)) e = [] ↔ in_strings l v.
Proof. by rewrite error_if_nil, negb_false_iff, one_of_iff. Qed.

Lemma name_nil v : name_errors v = Ok [] ↔ ∃ s, v = JStr s ∧ name_match s = true.
Proof.
  unfold name_errors, match_str, mbind, res_bind. split.
  - destruct (truthy v); [|done]. destruct v; try done. intros [= He].
    apply error_if_nil, negb_false_iff in He. eauto.
  - intros (s & -> & Hs). cbn [truthy]. assert (s ≠ []) as Hne by by intros ->.
    rewrite bool_decide_eq_true_2, Hs by done. done.
Qed.

Lemma version_nil v e : (ok ← match_str version_match v; Ok (error_if (negb ok) e)) = Ok [] ↔
  ∃ s, v = JStr s ∧ version_match s = true.
Proof.
  unfold match_str, mbind, res_bind. split.
  - destruct v; try done. intros [= He]. apply error_if_nil, negb_false_iff in He. eauto.
  - intros (s & -> & ->). done.
Qed.

Lemma sized_some v : truthy v = true → is_Some (py_len v) → some_of v.
Proof. intros Ht [n Hn]. split; [done|]. by destruct v. Qed.

Lemma description_nil v : description_errors v = Ok [] ↔
  some_of v ∧ ∃ n, py_len v = Some n ∧ (n <= 200)%Z.
Proof.
  unfold description_errors, len_of, mbind, res_bind. split.
  - destruct (truthy v) eqn:Ht; [|done]. destruct (py_len v) as [n|] eqn:Hn; [|done].
    intros [= He]. apply error_if_nil, Z.ltb_ge in He. split; [by apply sized_some|eauto].
  - intros ([Ht _] & n & Hn & Hle). rewrite Ht, Hn. f_equal. by apply error_if_nil, Z.ltb_ge.
Qed.

Lemma truthy_length v n : truthy v = true → py_len v = Some n → (n =? 0)%Z = false.
Proof.
  destruct v as [| | | |s|l|d]; try done; cbn; intros Ht [= <-]; apply Z.eqb_neq;
    [destruct s|destruct l|destruct d]; cbn in *; by try lia.
Qed.

Lemma empty_nil e v : empty_errors e v = Ok [] ↔ some_of v.
Proof.
  unfold empty_errors, len_of, mbind, res_bind. split.
  - destruct (truthy v) eqn:Ht; [|done]. destruct (py_len v) as [n|] eqn:Hn; [|done].
    intros _. by apply sized_some.
  - intros [Ht Hs]. rewrite Ht. destruct (py_len v) as [n|] eqn:Hn; [|by destruct v].
    by rewrite (truthy_length v n).
Qed.

Lemma concat_nil_iff {A B} (f : A → list B) l : concat (map f l) = [] ↔ Forall (λ x, f x = []) l.
Proof.
  induction l as [|x l IH]; cbn; [split; [constructor|done]|]. rewrite app_nil_iff, IH.
  split; [intros []; by constructor|by inversion 1].
Qed.

Lemma target_nil v : target_errors v = Ok [] ↔
  ∃ l, py_iter v = Ok l ∧ Forall (in_strings [§"stdout"; §"file"; §"clipboard"]) l.
Proof.
  unfold target_errors, mbind, res_bind. destruct (py_iter v) as [l|]; [|split; [done|naive_solver]].
  split.
  - intros He%Ok_inj. exists l. split; [done|]. apply concat_nil_iff in He.
    eapply Forall_impl; [done|]. intros t Ht. by apply choice_nil in Ht.
  - intros (l' & [= <-] & Hl). f_equal. apply concat_nil_iff.
    eapply Forall_impl; [done|]. intros t Ht. by apply choice_nil.
Qed.

Lemma input_nil v : input_errors v = Ok [] ↔
  ∃ d, v = JObj d ∧ Forall (λ nd : pystr * json,
    py_in (§"type") nd.2 = Ok true ∧ py_in (§"required") nd.2 = Ok true) d.
Proof.
  unfold input_errors. destruct v as [| | | | | |d]; try (split; [done|naive_solver]).
  unfold mbind at 1, res_bind at 1. cbn [as_obj]. rewrite map_res_nil. split.
  - intros Hf. exists d. split; [done|]. eapply Forall_impl; [done|]. intros [n def]. cbn.
    unfold mbind, res_bind. destruct (py_in (§"type") def) as [[]|]; [|done..]. cbn [negb].
    destruct (py_in (§"required") def) as [[]|]; [|done..]. done.
  - intros (d' & [= <-] & Hf). eapply Forall_impl; [done|]. intros [n def] [Ht Hr]. cbn in *.
    unfold mbind, res_bind. by rewrite Ht, Hr.
Qed.

Lemma secret_nil v : secret_errors v = Ok [] ↔
  ∃ d, v = JObj d ∧ Forall (λ nd : pystr * json,
    secret_match nd.1 = true ∧ ∃ def t, nd.2 = JObj def ∧ dget (§"type") def = Some t ∧
    in_strings [§"string"; §"number"; §"boolean"; §"object"; §"array"] t ∧
    match dget (§"required") def with Some v => ∃ b, v = JBool b | None => True end) d.
Proof.
  unfold secret_errors, mbind, res_bind. destruct v as [| | | | | |d]; try (split; [done|naive_solver]).
  cbn [as_obj].
  assert (∀ nd : pystr * json, secret_errors1 nd = [] ↔
    secret_match nd.1 = true ∧ ∃ def t, nd.2 = JObj def ∧ dget (§"type") def = Some t ∧
    in_strings [§"string"; §"number"; §"boolean"; §"object"; §"array"] t ∧
    match dget (§"required") def with Some v => ∃ b, v = JBool b | None => True end) as Hone.
  { intros [n def]. unfold secret_errors1. cbn [fst snd].
    rewrite app_nil_iff, error_if_nil, negb_false_iff.
    destruct def as [| | | | | |def]; try naive_solver.
    rewrite app_nil_iff. destruct (dget (§"type") def) as [t|] eqn:Et.
    - rewrite choice_nil. split.
      + intros (Hm & Ht & Hr). split; [done|]. exists def, t. split_and!; try done.
        destruct (dget (§"required") def) as [[]|]; try done. by eexists.
      + intros (Hm & def' & t' & [= <-] & Et' & Ht & Hr). rewrite Et in Et'. injection Et' as <-.
        split; [done|]. split; [done|].
        destruct (dget (§"required") def) as [v|]; [|done]. by destruct Hr as [b ->].
    - split; [naive_solver|]. intros (_ & def' & t' & [= <-] & Et' & _). congruence. }
  split.
  - intros He%Ok_inj. exists d. split; [done|]. apply concat_nil_iff in He.
    eapply Forall_impl; [done|]. intros nd Hnd. by apply Hone.
  - intros (d' & [= <-] & Hf). f_equal. apply concat_nil_iff. eapply Forall_impl; [done|].
    intros nd Hnd. by apply Hone.
Qed.

(** What validation accepts, in the terms of the code. *)
Lemma validate_well_formed m : validate_metadata m = Ok tt ↔ well_formed m.
Proof.
  assert (validate_metadata m = Ok tt ↔ metadata_errors m = Ok []) as ->.
  { unfold validate_metadata, mbind, res_bind. by destruct (metadata_errors m) as [[]|]. }
  unfold metadata_errors. split.
  - intros He. unfold mbind, res_bind in He.
    destruct (name_errors _) as [e1|] eqn:E1; [|done].
    destruct (match_str _ _) as [v|] eqn:E4; [|done].
    destruct (description_errors _) as [e5|] eqn:E5; [|done].
    destruct (empty_errors NoUseCase _) as [e6|] eqn:E6; [|done].
    destruct (empty_errors NoTarget _) as [e7|] eqn:E7; [|done].
    destruct (target_errors _) as [e8|] eqn:E8; [|done].
    destruct (input_errors _) as [e10|] eqn:E10; [|done].
    destruct (secret_errors _) as [e11|] eqn:E11; [|done].
    apply Ok_inj in He. rewrite !app_nil_iff, !choice_nil in He.
    destruct He as (-> & Ht & Hr & Hv & -> & -> & -> & -> & Hp & -> & ->).
    split; try done; try (by apply name_nil); try (by apply description_nil);
      try (by apply input_nil); try (by apply secret_nil); try (by eapply empty_nil).
    + apply (version_nil _ BadVersion). unfold mbind, res_bind. by rewrite E4, Hv.
    + split; [by eapply empty_nil|by apply target_nil].
  - intros [Hn Ht Hr Hv Hd Hu [Hs Htg] Hp Hi Hsec].
    apply name_nil in Hn. apply (version_nil _ BadVersion) in Hv. apply description_nil in Hd.
    apply (empty_nil NoUseCase) in Hu. apply (empty_nil NoTarget) in Hs. apply target_nil in Htg.
    apply input_nil in Hi. apply secret_nil in Hsec. unfold mbind, res_bind in *.
    destruct (match_str _ _) as [v|]; [|done]. apply Ok_inj in Hv.
    rewrite Hn, Hd, Hu, Hs, Htg, Hi, Hsec, Hv.
    apply (choice_nil _ _ BadType) in Ht. apply (choice_nil _ _ BadRuntime) in Hr.
    apply (choice_nil _ _ BadRestartPolicy) in Hp. by rewrite Ht, Hr, Hp.
Qed.

(** ** The documented format

    resources/book/recipe-fields.md, the tables of fields. *)

Definition LETTERS : pystr := §"abcdefghijklmnopqrstuvwxyzABCDEFGHIJKLMNOPQRSTUVWXYZ".
Definition DIGITS : pystr := §"0123456789".
(** One or more decimal digits. *)
Definition numeral (s : pystr) : Prop := s ≠ [] ∧ Forall (λ c, is_Some (digit_of c)) s.

Record documented (m : RecipeMetadata) : Prop := {
  doc_name : ∃ s, md_name m = JStr s ∧ s ≠ [] ∧ Forall (λ c, c ∈ LETTERS ++ DIGITS ++ §"_-") s;
  doc_type : md_type m = JStr (§"atomic") ∨ md_type m = JStr (§"workflow");
  doc_runtime : md_runtime m = JStr (§"chrome-js") ∨ md_runtime m = JStr (§"python") ∨ md_runtime m = JStr (§"shell");
  doc_version : ∃ a b rest, md_version m = JStr (a ++ §"." ++ b ++ rest) ∧ numeral a ∧ numeral b ∧
    (rest = [] ∨ ∃ c, rest = §"." ++ c ∧ numeral c);
  doc_description : ∃ s, md_description m = JStr s ∧ s ≠ [] ∧ length s ≤ 200;
  doc_use_cases : ∃ l, md_use_cases m = JArr l ∧ l ≠ [];
  doc_targets : ∃ l, md_output_targets m = JArr l ∧ l ≠ [] ∧
    ∀ v, v ∈ l → v = JStr (§"stdout") ∨ v = JStr (§"file") ∨ v = JStr (§"clipboard");
  doc_restart : md_restart_policy m = JStr (§"always") ∨ md_restart_policy m = JStr (§"on-failure") ∨
    md_restart_policy m = JStr (§"never");
  doc_inputs : ∃ d, md_inputs m = JObj d ∧ ∀ n v, (n, v) ∈ d →
    ∃ def, v = JObj def ∧ is_Some (dget (§"type") def) ∧ is_Some (dget (§"required") def);
  doc_secrets : ∃ d, md_secrets m = JObj d ∧ ∀ n v, (n, v) ∈ d →
    (∃ c r, n = c :: r ∧ c ∈ LETTERS ++ §"_" ∧ Forall (λ c, c ∈ LETTERS ++ DIGITS ++ §"_") r) ∧
    ∃ def t, v = JObj def ∧ dget (§"type") def = Some (JStr t) ∧
      t ∈ [§"string"; §"number"; §"boolean"; §"object"; §"array"] ∧
      ∀ q, dget (§"required") def = Some q → q = JBool true ∨ q = JBool false;
}.

(** The fields have the types [RecipeMetadata] declares for them, as far as
    validation does not look, and no name or version ends in a newline. *)
Definition unbroken (s : pystr) : Prop := last s ≠ Some 10%N.
Record as_declared (m : RecipeMetadata) : Prop := {
  pl_name : ∀ s, md_name m = JStr s → unbroken s;
  pl_version : ∀ s, md_version m = JStr s → unbroken s;
  pl_description : ∃ s, md_description m = JStr s;
  pl_use_cases : ∃ l, md_use_cases m = JArr l;
  pl_targets : ∃ l, md_output_targets m = JArr l;
  pl_inputs : ∀ d n v, md_inputs m = JObj d → (n, v) ∈ d → ∃ def, v = JObj def;
  pl_secrets : ∀ d n v, md_secrets m = JObj d → (n, v) ∈ d → unbroken n;
}.

Lemma chomp_unbroken s : unbroken s → chomp s = s.
Proof.
  unfold unbroken, chomp. destruct s as [|c s _] using rev_ind; [done|]. rewrite last_snoc, reverse_snoc.
  intros Hc. by rewrite (proj2 (N.eqb_neq c 10)) by congruence.
Qed.
Lemma unbroken_Forall (P : N → Prop) s : ¬ P 10%N → Forall P s → unbroken s.
Proof. intros Hn Hf Hl. rewrite Forall_forall in Hf. by apply Hn, Hf, last_Some_elem_of. Qed.

(** The characters of a word. *)
Lemma below_128 (f g : N → bool) :
  forallb (λ n, Bool.eqb (f (N.of_nat n)) (g (N.of_nat n))) (seq 0 128) = true → ∀ c, (c < 128)%N → f c = g c.
Proof.
  intros Hf c Hc. rewrite forallb_forall in Hf. specialize (Hf (N.to_nat c)). rewrite N2Nat.id in Hf.
  apply eqb_prop, Hf, in_seq. lia.
Qed.
Lemma listed_chars (f : N → bool) l : (∀ c, (128 <= c)%N → f c = false) → Forall (λ c, (c < 128)%N) l →
  forallb (λ n, Bool.eqb (f (N.of_nat n)) (bool_decide (N.of_nat n ∈ l))) (seq 0 128) = true →
  ∀ c, f c = true ↔ c ∈ l.
Proof.
  intros Hhigh Hl Hf c. destruct (decide (c < 128)%N) as [Hc|Hc].
  - rewrite (below_128 f (λ c, bool_decide (c ∈ l)) Hf c Hc). apply bool_decide_eq_true.
  - rewrite Hhigh by lia. split; [done|]. rewrite Forall_forall in Hl. intros Hin. specialize (Hl c Hin). lia.
Qed.
Lemma small_literal l : forallb (λ c, (c <? 128)%N) l = true → Forall (λ c, (c < 128)%N) l.
Proof.
  intros Hl. apply Forall_forall. intros c Hc%list_elem_of_In. rewrite forallb_forall in Hl.
  by apply N.ltb_lt, Hl.
Qed.
Lemma word_char_high c : (128 <= c)%N → word_char c = false.
Proof.
  intros Hc. unfold word_char. rewrite (proj2 (N.leb_gt c 57)), (proj2 (N.leb_gt c 90)), (proj2 (N.leb_gt c 122)), (proj2 (N.eqb_neq c 95)) by lia.
  by rewrite !andb_false_r.
Qed.
Lemma name_char_iff c : word_char c || (c =? 45)%N = true ↔ c ∈ LETTERS ++ DIGITS ++ §"_-".
Proof.
  apply (listed_chars (λ c, word_char c || (c =? 45)%N)); [|by apply small_literal|vm_compute; reflexivity].
  intros x Hx. by rewrite word_char_high, (proj2 (N.eqb_neq x 45)) by lia.
Qed.
Lemma word_char_iff c : word_char c = true ↔ c ∈ LETTERS ++ DIGITS ++ §"_".
Proof. apply listed_chars; [apply word_char_high|by apply small_literal|vm_compute; reflexivity]. Qed.
Lemma first_char_iff c : word_char c && negb ((48 <=? c) && (c <=? 57))%N = true ↔ c ∈ LETTERS ++ §"_".
Proof.
  apply (listed_chars (λ c, word_char c && negb ((48 <=? c) && (c <=? 57))%N)); [|by apply small_literal|vm_compute; reflexivity].
  intros x Hx. by rewrite word_char_high.
Qed.

Lemma forallb_iff_Forall {A} (f : A → bool) (P : A → Prop) l : (∀ x, f x = true ↔ P x) → forallb f l = true ↔ Forall P l.
Proof.
  intros Hf. rewrite forallb_forall, Forall_forall. setoid_rewrite <- list_elem_of_In.
  split; intros Hl x Hx; by apply Hf, Hl.
Qed.

Lemma name_match_iff s : unbroken s →
  name_match s = true ↔ s ≠ [] ∧ Forall (λ c, c ∈ LETTERS ++ DIGITS ++ §"_-") s.
Proof.
  intros Hu. unfold name_match. rewrite chomp_unbroken, andb_true_iff, bool_decide_eq_true by done.
  by rewrite (forallb_iff_Forall _ (λ c, c ∈ LETTERS ++ DIGITS ++ §"_-")) by apply name_char_iff.
Qed.
Lemma secret_match_iff s : unbroken s → secret_match s = true ↔
  ∃ c r, s = c :: r ∧ c ∈ LETTERS ++ §"_" ∧ Forall (λ c, c ∈ LETTERS ++ DIGITS ++ §"_") r.
Proof.
  intros Hu. unfold secret_match. rewrite chomp_unbroken by done. destruct s as [|c r]; [naive_solver|].
  rewrite andb_true_iff, first_char_iff, (forallb_iff_Forall _ _ _ word_char_iff). naive_solver.
Qed.
Lemma digits_iff s : digits s = true ↔ numeral s.
Proof.
  unfold digits, numeral. rewrite andb_true_iff, bool_decide_eq_true.
  by rewrite (forallb_iff_Forall _ (λ c, is_Some (digit_of c))) by (intros; apply bool_decide_eq_true).
Qed.
Lemma numeral_no_dot s : numeral s → 46%N ∉ s.
Proof. intros [_ Hs] Hd. rewrite Forall_forall in Hs. specialize (Hs _ Hd). by destruct Hs. Qed.
Lemma numeral_unbroken s : numeral s → unbroken s.
Proof. intros [_ Hs]. eapply unbroken_Forall; [|exact Hs]. by intros []. Qed.
Lemma unbroken_app a b : b ≠ [] → unbroken (a ++ b) ↔ unbroken b.
Proof. intros Hb. unfold unbroken. destruct b as [|x b _] using rev_ind; [done|]. by rewrite app_assoc, !last_snoc. Qed.

Lemma version_match_iff s : unbroken s → version_match s = true ↔
  ∃ a b rest, s = a ++ §"." ++ b ++ rest ∧ numeral a ∧ numeral b ∧ (rest = [] ∨ ∃ c, rest = §"." ++ c ∧ numeral c).
Proof.
  intros Hu. unfold version_match. rewrite chomp_unbroken by done. split.
  - pose proof (split_on_join 46 s) as Hj. destruct (split_on 46 s) as [|a [|b [|c [|? ?]]]]; try done; cbn [join_with] in Hj.
    + rewrite andb_true_iff, !digits_iff. intros [Ha Hb]. exists a, b, []. rewrite app_nil_r. by split_and!; [|..|left].
    + rewrite !andb_true_iff, !digits_iff. intros [[Ha Hb] Hc]. exists a, b, (§"." ++ c). split_and!; [done..|]. right. by exists c.
  - intros (a & b & rest & -> & Ha & Hb & [->|(c & -> & Hc)]).
    + rewrite app_nil_r. change (a ++ §"." ++ b) with (a ++ 46%N :: b).
      rewrite split_on_cons, split_on_last by by apply numeral_no_dot. by rewrite !(proj2 (digits_iff _)).
    + change (a ++ §"." ++ b ++ §"." ++ c) with (a ++ 46%N :: b ++ 46%N :: c).
      rewrite !split_on_cons, split_on_last by by apply numeral_no_dot. by rewrite !(proj2 (digits_iff _)).
Qed.
Lemma version_unbroken a b rest : numeral b → (rest = [] ∨ ∃ c, rest = §"." ++ c ∧ numeral c) →
  unbroken (a ++ §"." ++ b ++ rest).
Proof.
  intros Hb Hr. assert (unbroken (b ++ rest) ∧ b ++ rest ≠ []) as [Hu Hne].
  { destruct Hb as [Hne Hb]. split; [|by destruct b].
    destruct Hr as [->|(c & -> & Hc)]; [rewrite app_nil_r; by apply numeral_unbroken|].
    assert (c ≠ []) as Hc' by apply Hc. apply unbroken_app; [by destruct c|]. apply unbroken_app; [done|].
    by apply numeral_unbroken. }
  apply unbroken_app; [by destruct b|]. by apply unbroken_app.
Qed.

Lemma documented_as_declared m : documented m → as_declared m.
Proof.
  intros [(s & Hs & _ & Hc) _ _ (a & b & rest & Hv & _ & Hb & Hr) (t & Ht & _) (l & Hl & _) (l' & Hl' & _) _ (d & Hd & Hi) (d' & Hd' & Hsec)].
  split.
  - rewrite Hs. intros ? [= <-]. eapply unbroken_Forall; [|exact Hc]. apply (bool_decide_eq_true_1 _). vm_compute. reflexivity.
  - rewrite Hv. intros ? [= <-]. by apply version_unbroken.
  - eauto.
  - eauto.
  - eauto.
  - rewrite Hd. intros ? n v [= <-] Hin. destruct (Hi n v Hin) as (def & -> & _). eauto.
  - rewrite Hd'. intros ? n v [= <-] Hin. destruct (Hsec n v Hin) as [(c & r & -> & Hc1 & Hr1) _].
    eapply (unbroken_Forall (λ c, c ∈ LETTERS ++ DIGITS ++ §"_"));
      [apply (bool_decide_eq_true_1 _); vm_compute; reflexivity|]. constructor; [|done].
    apply elem_of_app in Hc1 as [Hc1|Hc1]; apply elem_of_app; [by left|right; apply elem_of_app; by right].
Qed.

Lemma in_strings_2 a b v : in_strings [a; b] v ↔ v = JStr a ∨ v = JStr b.
Proof. unfold in_strings. setoid_rewrite elem_of_cons. setoid_rewrite list_elem_of_singleton. naive_solver. Qed.
Lemma in_strings_3 a b c v : in_strings [a; b; c] v ↔ v = JStr a ∨ v = JStr b ∨ v = JStr c.
Proof. unfold in_strings. do 2 setoid_rewrite elem_of_cons. setoid_rewrite list_elem_of_singleton. naive_solver. Qed.

Lemma documented_well_formed m : documented m → well_formed m.
Proof.
  intros D. pose proof (documented_as_declared m D) as [Pn Pv _ _ _ _ Psec].
  destruct D as [(s & Hs & Hne & Hc) Ht Hrt Hv (t & Hd & Hdne & Hlen) (u & Hu & Hune) (l & Hl & Hlne & Htg) Hrs (d & Hi & Hin) (e & He & Hsec)].
  split; [|by apply in_strings_2|by apply in_strings_3| | | | |by apply in_strings_3| |].
  - exists s. split; [done|]. by apply name_match_iff; [apply Pn|].
  - destruct Hv as (a & b & rest & Hv & Hp). eexists. split; [exact Hv|]. apply version_match_iff; [by apply Pv|]. by exists a, b, rest.
  - rewrite Hd. split; [by split; [apply bool_decide_eq_true|]|]. exists (Z.of_nat (length t)). split; [done|lia].
  - rewrite Hu. split; [by destruct u|done].
  - rewrite Hl. split; [split; [by destruct l|done]|]. exists l. split; [done|]. apply Forall_forall.
    intros v Hvl. by apply in_strings_3, Htg.
  - exists d. split; [done|]. apply Forall_forall. intros [n v] Hnv. destruct (Hin n v Hnv) as (def & -> & [x Hx] & [y Hy]).
    cbn. unfold dmem. by rewrite Hx, Hy.
  - exists e. split; [done|]. apply Forall_forall. intros [n v] Hnv.
    destruct (Hsec n v Hnv) as (Hname & def & ty & -> & Hty & Hin' & Hq). cbn [fst snd]. split.
    + apply secret_match_iff; [by eapply Psec|done].
    + exists def, (JStr ty). split_and!; [done..|by exists ty|]. destruct (dget (§"required") def) as [q|]; [|done].
      destruct (Hq q eq_refl) as [-> | ->]; by eexists.
Qed.

Lemma well_formed_documented m : well_formed m → as_declared m → documented m.
Proof.
  intros [(s & Hs & Hm) Ht Hrt (v & Hv & Hvm) [[Hdt _] (n & Hn & Hle)] [Hu _] [[Htt _] (l & Hl & Htg)] Hrs (d & Hi & Hin) (e & He & Hsec)]
    [Pn Pv [t Pt] [u Pu] [l' Pl] Pi Psec].
  split; [|by apply in_strings_2|by apply in_strings_3| | | | |by apply in_strings_3| |].
  - exists s. split; [done|]. apply name_match_iff; [by apply Pn|done].
  - apply version_match_iff in Hvm as (a & b & rest & -> & Hp); [|by apply Pv]. by exists a, b, rest.
  - exists t. rewrite Pt in Hn. injection Hn as <-. split; [done|]. split; [|lia].
    rewrite Pt in Hdt. by apply bool_decide_eq_true in Hdt.
  - exists u. split; [done|]. rewrite Pu in Hu. by destruct u.
  - exists l'. rewrite Pl in Hl, Htt. injection Hl as ->. split; [done|]. split; [by destruct l|].
    rewrite Forall_forall in Htg. intros x Hx. by apply in_strings_3, Htg.
  - exists d. split; [done|]. intros k x Hx. destruct (Pi d k x Hi Hx) as [def ->]. exists def. split; [done|].
    rewrite Forall_forall in Hin. specialize (Hin _ Hx) as [Hx1 Hx2]. cbn in Hx1, Hx2. unfold dmem in *.
    split; [by destruct (dget (§"type") def)|by destruct (dget (§"required") def)].
  - exists e. split; [done|]. intros k x Hx. rewrite Forall_forall in Hsec.
    destruct (Hsec _ Hx) as (Hname & def & ty & Hdef & Hty & (q & -> & Hq) & Hreq). cbn [fst snd] in *. split.
    + apply secret_match_iff; [by eapply Psec|done].
    + exists def, q. split_and!; [done..|]. intros r Hr. rewrite Hr in Hreq. destruct Hreq as [[|] ->]; auto.
Qed.


End metadata.

(** ** Evaluation *)
Module MetadataDemo.
#[local] Existing Instances ascii_db repr_mark.

Definition described (name description use_cases : json) : RecipeMetadata :=
  {| md_name := name; md_type := JStr (§"atomic"); md_runtime := JStr (§"python"); md_version := JStr (§"1.0");
     md_description := description; md_use_cases := use_cases; md_output_targets := JArr [JStr (§"stdout")];
     md_inputs := JObj []; md_outputs := JObj []; md_dependencies := JArr []; md_tags := JArr [];
     md_secrets := JObj []; md_system_packages := JBool false; md_no_proxy := JBool false; md_daemon := JBool false;
     md_restart_policy := JStr (§"never"); md_warnings := JArr []; md_flow := JArr []; md_ui_from := JNull;
     md_created_at := None; md_updated_at := None |}.

Example sample_accepted :
  validate_metadata (described (JStr (§"a-b_1")) (JStr (§"text")) (JArr [JStr (§"case")])) = Ok tt.
Proof. vm_compute. reflexivity. Qed.
Example space_refused :
  validate_metadata (described (JStr (§"a b")) (JStr (§"text")) (JArr [JStr (§"case")])) = Raise RecipeValidationError.
Proof. vm_compute. reflexivity. Qed.

(** Accepted and not documented: a line end after the name, a description that is a
    list, one string in place of the list of use cases. *)
Example newline_name_accepted :
  validate_metadata (described (JStr (§"a" ++ [10%N])) (JStr (§"text")) (JArr [JStr (§"case")])) = Ok tt.
Proof. vm_compute. reflexivity. Qed.
Example list_description_accepted :
  validate_metadata (described (JStr (§"a")) (JArr [JInt 1]) (JArr [JStr (§"case")])) = Ok tt.
Proof. vm_compute. reflexivity. Qed.
Example string_use_cases_accepted :
  validate_metadata (described (JStr (§"a")) (JStr (§"text")) (JStr (§"case"))) = Ok tt.
Proof. vm_compute. reflexivity. Qed.
End MetadataDemo.
