(* ===== verification/Registry.v ===== *)
(** * The recipe registry

    recipes/registry.py: the directories recipes are searched in, the scan that
    indexes them by name and source, the test whether a new scan is needed, and
    the lookups.  The directories are a [tree] the operations read; a file or
    directory that cannot be examined has no modification time. *)

From S2P Require Import Prelude PyStr Json Params Password InvocationCtx ScheduleExec Metadata.
From stdpp Require Import prelude gmap list strings.

(** ** What is on disk *)

(** A [recipe.md]: its text, unless it cannot be read, and its time. *)
Record md_file := { mf_text : option pystr; mf_mtime : option Z }.

(** An entry of a category's directory: its [recipe.md] and the names of the
    other files in it. *)
Record folder := {
  fo_name : pystr;
  fo_is_dir : bool;
  fo_mtime : option Z;
  fo_md : option md_file;
  fo_files : list pystr;
}.

(** A category's directory; listing it may fail. *)
Record category := { ca_mtime : option Z; ca_entries : option (list folder) }.

(** A search path that exists: its categories that exist, by relative path. *)
Record root := { ro_mtime : option Z; ro_cats : dict path category }.
Abbreviation tree := (dict path root).

Definition SUBDIRS : list path := [[§"atomic"; §"chrome"]; [§"atomic"; §"system"]; [§"workflows"]].

(** The categories of a root in the order the code visits them. *)
Definition cats_of (r : root) : list (path * category) :=
  omap (λ sub, match dget sub (ro_cats r) with Some c => Some (sub, c) | None => None end) SUBDIRS.

(** ** The registry *)

Definition SOURCE_PRIORITY : list pystr := [§"User"; §"Community"; §"Official"].

Record Recipe := {
  metadata : RecipeMetadata;
  script_path : path;
  metadata_path : path;
  source : pystr;
  base : path;
}.

Record RecipeRegistry := {
  search_paths : list path;
  recipes : dict pystr (dict pystr Recipe);
  _last_scan_mtimes : dict path Z;
}.

Definition set_recipes (g : RecipeRegistry) (d : dict pystr (dict pystr Recipe)) : RecipeRegistry :=
  {| search_paths := search_paths g; recipes := d; _last_scan_mtimes := _last_scan_mtimes g |}.
Definition set_mtimes (g : RecipeRegistry) (m : dict path Z) : RecipeRegistry :=
  {| search_paths := search_paths g; recipes := recipes g; _last_scan_mtimes := m |}.

Section registry.
Context `{Unicode, PyRepr, Yaml, Paths}.
Implicit Types (g : RecipeRegistry) (t : tree) (name : pystr).

(** [_setup_search_paths]: the user's, the community's and the packaged recipes,
    those that exist ([official] is the package's directory, if it has one). *)
Definition user_path : path := home ++ [§".frago"; §"recipes"].
Definition community_path : path := home ++ [§".frago"; §"community-recipes"].
Definition _setup_search_paths (official : option path) t : list path :=
  filter (λ p, dmem p t = true)
    ([user_path; community_path] ++ match official with Some p => [p] | None => [] end).

Definition new_registry (official : option path) t : RecipeRegistry :=
  {| search_paths := _setup_search_paths official t; recipes := []; _last_scan_mtimes := [] |}.

Definition _get_source_label (p : path) : pystr :=
  if contains (§"community-recipes") (path_str p) then §"Community"
  else if contains (§".frago/recipes") (path_str p) || contains (§".frago\recipes") (path_str p)
  then §"User" else §"Official".

(** [self._last_scan_mtimes[p] = p.stat().st_mtime], skipped when [stat] fails. *)
Definition note_mtime (p : path) (m : option Z) : M RecipeRegistry unit :=
  modify (λ g, match m with Some z => set_mtimes g (dset p z (_last_scan_mtimes g)) | None => g end).

Fixpoint each {A} (f : A → M RecipeRegistry unit) (l : list A) : M RecipeRegistry unit :=
  match l with [] => mret tt | x :: l => f x;; each f l end.

Definition _find_script_file (dir : path) (files : list pystr) (runtime : json) : option path :=
  let ext := if str_is (§"chrome-js") runtime then [§"recipe.js"]
             else if str_is (§"python") runtime then [§"recipe.py"]
             else if str_is (§"shell") runtime then [§"recipe.sh"] else [] in
  match ext with
  | f :: _ => if decide (f ∈ files) then Some (dir ++ [f]) else None
  | [] => None
  end.

(** The recipe of a directory, if it has a readable, valid description and the
    script the description asks for. *)
Definition recipe_of (src : pystr) (dir : path) (f : folder) (m : md_file) : option Recipe :=
  match parse_metadata_file (mf_text m) with
  | Raise _ => None
  | Ok md =>
      match validate_metadata md with
      | Raise _ => None
      | Ok _ =>
          match _find_script_file dir (fo_files f) (md_runtime md) with
          | None => None
          | Some script =>
              Some {| metadata := md; script_path := script; metadata_path := dir ++ [§"recipe.md"];
                      source := src; base := dir |}
          end
      end
  end.

(** [metadata.name] of a validated recipe. *)
Definition name_of_recipe (r : Recipe) : pystr :=
  match md_name (metadata r) with JStr s => s | _ => [] end.

Definition add_recipe (r : Recipe) (d : dict pystr (dict pystr Recipe)) : dict pystr (dict pystr Recipe) :=
  dset (name_of_recipe r) (dset (source r) r (default [] (dget (name_of_recipe r) d))) d.

Definition _register_recipe (src : pystr) (dir : path) (f : folder) (m : md_file)
    : M RecipeRegistry unit :=
  match recipe_of src dir f m with
  | None => mret tt
  | Some r =>
      modify (λ g, set_recipes g (add_recipe r (recipes g)));;
      note_mtime (dir ++ [§"recipe.md"]) (mf_mtime m)
  end.

Definition scan_folder (src : pystr) (dir : path) (f : folder) : M RecipeRegistry unit :=
  if fo_is_dir f then
    match fo_md f with
    | Some m => _register_recipe src (dir ++ [fo_name f]) f m
    | None => mret tt
    end
  else mret tt.

Definition _scan_directory (base_path : path) (src : pystr) (r : root) : M RecipeRegistry unit :=
  each (λ sc : path * category,
    match ca_entries sc.2 with
    | None => raise OSError
    | Some l => each (scan_folder src (base_path ++ sc.1)) l
    end) (cats_of r).

(** The times of a root, its categories and the directories in them. *)
Definition note_root (p : path) (r : root) : M RecipeRegistry unit :=
  note_mtime p (ro_mtime r);;
  each (λ sc : path * category,
    note_mtime (p ++ sc.1) (ca_mtime sc.2);;
    each (λ f, if fo_is_dir f then note_mtime (p ++ sc.1 ++ [fo_name f]) (fo_mtime f) else mret tt)
      (default [] (ca_entries sc.2))) (cats_of r).

Definition scan_path t (p : path) : M RecipeRegistry unit :=
  match dget p t with
  | None => mret tt
  | Some r => note_root p r;; _scan_directory p (_get_source_label p) r
  end.

(** ** Dependencies *)

Definition is_workflow (r : Recipe) : bool := str_is (§"workflow") (md_type (metadata r)).

(** The names a workflow says it needs, as the loop over the field sees them. *)
Definition dependencies_of (r : Recipe) : res (list json) :=
  py_iter (jor (md_dependencies (metadata r)) (JArr [])).

(** [dep_name not in self.recipes]; a list or object cannot be looked up. *)
Definition missing (d : dict pystr (dict pystr Recipe)) (dep : json) : res bool :=
  match dep with
  | JStr n => Ok (negb (dmem n d))
  | JArr _ | JObj _ => Raise TypeError
  | _ => Ok true
  end.

Definition invalid (d : dict pystr (dict pystr Recipe)) (r : Recipe) : res bool :=
  if is_workflow r then
    deps ← dependencies_of r;
    ms ← map_res (missing d) deps;
    Ok (existsb id ms)
  else Ok false.

(** The (name, source) pairs to remove, decided on the index as it is. *)
Definition invalid_recipes (d : dict pystr (dict pystr Recipe)) : res (list (pystr * pystr)) :=
  ls ← map_res (λ ns : pystr * dict pystr Recipe,
    l ← map_res (λ sr : pystr * Recipe, b ← invalid d sr.2; Ok (if b : bool then [(ns.1, sr.1)] else [])) ns.2;
    Ok (concat l)) d;
  Ok (concat ls).

Definition remove_recipe (d : dict pystr (dict pystr Recipe)) (ns : pystr * pystr)
    : dict pystr (dict pystr Recipe) :=
  match dget ns.1 d with
  | None => d
  | Some sources =>
      match ddel ns.2 sources with
      | [] => ddel ns.1 d
      | rest => dset ns.1 rest d
      end
  end.

Definition _validate_dependencies : M RecipeRegistry unit := λ g,
  match invalid_recipes (recipes g) with
  | Ok l => (Ok tt, set_recipes g (foldl remove_recipe (recipes g) l))
  | Raise e => (Raise e, g)
  end.

Definition scan t : M RecipeRegistry unit :=
  modify (λ g, set_mtimes (set_recipes g []) []);;
  l ← gets search_paths;
  each (scan_path t) l;;
  _validate_dependencies.

(** ** Whether to scan again *)

(** The paths looked at below a root, each with its current time; [None] when a
    directory cannot be listed. *)
Definition folder_paths (dir : path) (f : folder) : list (path * option Z) :=
  if fo_is_dir f then
    (dir ++ [fo_name f], fo_mtime f) ::
    match fo_md f with
    | Some m => [(dir ++ [fo_name f; §"recipe.md"], mf_mtime m)]
    | None => []
    end
  else [].
Fixpoint cat_paths (p : path) (l : list (path * category)) : option (list (path * option Z)) :=
  match l with
  | [] => Some []
  | (sub, c) :: l =>
      entries ← ca_entries c;
      rest ← cat_paths p l;
      Some ((p ++ sub, ca_mtime c) :: concat (map (folder_paths (p ++ sub)) entries) ++ rest)
  end.

(** [p] is not recorded, has changed since, or cannot be examined. *)
Definition changed g (pm : path * option Z) : bool :=
  match pm.2, dget pm.1 (_last_scan_mtimes g) with
  | Some z, Some z' => Z.ltb z' z
  | _, _ => true
  end.

Definition root_changed g t (p : path) : bool :=
  match dget p t with
  | None => false
  | Some r =>
      match cat_paths p (cats_of r) with
      | None => true
      | Some l => existsb (changed g) ((p, ro_mtime r) :: l)
      end
  end.

Definition needs_rescan t g : bool := existsb (root_changed g t) (search_paths g).

(** [get_registry] and [invalidate_registry], over the module's one instance. *)
Definition get_registry (official : option path) t (inst : option RecipeRegistry)
    : res RecipeRegistry * option RecipeRegistry :=
  match inst with
  | Some g => (Ok g, inst)
  | None =>
      match scan t (new_registry official t) with
      | (Ok _, g) => (Ok g, Some g)
      | (Raise e, g) => (Raise e, Some g)
      end
  end.
Definition invalidate_registry (inst : option RecipeRegistry) : option RecipeRegistry := None.

(** ** Lookups *)

(** [s.capitalize()], the first letter's title case taken to be its upper case. *)
Definition capitalize (s : pystr) : pystr :=
  match s with c :: r => str_upper [c] ++ str_lower r | [] => [] end.

(** The version of the highest priority. *)
Fixpoint first_of (l : list pystr) (sources : dict pystr Recipe) : option Recipe :=
  match l with
  | [] => None
  | s :: l => match dget s sources with Some r => Some r | None => first_of l sources end
  end.

Definition find g name (src : option pystr) : res Recipe :=
  match dget name (recipes g) with
  | None => Raise RecipeNotFoundError
  | Some sources =>
      match src with
      | Some ((_ :: _) as src) =>
          match dget (capitalize src) sources with
          | Some r => Ok r
          | None => Raise RecipeNotFoundError
          end
      | _ =>
          match first_of SOURCE_PRIORITY sources with
          | Some r => Ok r
          | None => Raise RecipeNotFoundError
          end
      end
  end.

Definition recipe_leb (r r' : Recipe) : bool := str_leb (name_of_recipe r) (name_of_recipe r').

Definition list_all g (include_all_sources : bool) : list Recipe :=
  isort recipe_leb (concat (map (λ ns : pystr * dict pystr Recipe,
    if include_all_sources then dvals ns.2
    else match first_of SOURCE_PRIORITY ns.2 with Some r => [r] | None => [] end) (recipes g))).

Definition get_by_source g (src : pystr) : list Recipe :=
  isort recipe_leb (omap (λ ns : pystr * dict pystr Recipe, dget (capitalize src) ns.2) (recipes g)).

Definition find_all_sources g name : list (pystr * path) :=
  match dget name (recipes g) with
  | None => []
  | Some sources =>
      omap (λ s, match dget s sources with Some r => Some (s, base r) | None => None end)
        SOURCE_PRIORITY
  end.

(** ** Matching free text *)

(** [s.split()]. *)
Fixpoint words_go (w s : pystr) : list pystr :=
  match s with
  | [] => match w with [] => [] | _ => [reverse w] end
  | c :: s =>
      if is_space c then match w with [] => words_go [] s | _ => reverse w :: words_go [] s end
      else words_go (c :: w) s
  end.
Definition words (s : pystr) : list pystr := words_go [] s.

(** [v.lower()]. *)
Definition lower_of (v : json) : res pystr :=
  match v with JStr s => Ok (str_lower s) | _ => Raise AttributeError end.

Definition use_case_score (text : pystr) (use_case : json) : res nat :=
  uc ← lower_of use_case;
  Ok (if contains uc text || contains text uc then 2
      else if decide (2 <= length (filter (λ w, w ∈ words text) (remove_dups (words uc)))) then 1 else 0).
Definition tag_score (text : pystr) (tag : json) : res nat :=
  t ← lower_of tag; Ok (if contains t text then 1 else 0).

Definition score (text : pystr) (r : Recipe) : res nat :=
  use_cases ← py_iter (md_use_cases (metadata r));
  a ← map_res (use_case_score text) use_cases;
  tags ← py_iter (md_tags (metadata r));
  b ← map_res (tag_score text) tags;
  Ok (sum_list a + sum_list b).

Fixpoint best (text : pystr) (l : list (pystr * dict pystr Recipe)) (match_ : option pystr) (top : nat)
    : res (option pystr * nat) :=
  match l with
  | [] => Ok (match_, top)
  | (name, sources) :: l =>
      match first_of SOURCE_PRIORITY sources with
      | None => best text l match_ top
      | Some r =>
          n ← score text r;
          if decide (top < n) then best text l (Some name) n else best text l match_ top
      end
  end.

Definition exact_match g (text : pystr) : res (option pystr) :=
  let text := strip (str_lower text) in
  match List.find (λ name, contains (str_lower name) text) (dkeys (recipes g)) with
  | Some name => Ok (Some name)
  | None =>
      b ← best text (recipes g) None 0;
      Ok (if decide (2 <= b.2) then b.1 else None)
  end.

(** ** What is registered *)

Abbreviation index := (dict pystr (dict pystr Recipe)).
Definition registered (d : index) name (src : pystr) (r : Recipe) : Prop :=
  ∃ sources, dget name d = Some sources ∧ dget src sources = Some r.

(** Every name has a version, and every version is where it belongs. *)
Record index_ok (d : index) : Prop := {
  io_wf : dict_wf d;
  io_sources : ∀ name sources, dget name d = Some sources → dict_wf sources ∧ sources ≠ [];
  io_recipe : ∀ name src r, registered d name src r →
    name_of_recipe r = name ∧ source r = src ∧ src ∈ SOURCE_PRIORITY ∧
    validate_metadata (metadata r) = Ok tt;
}.

Lemma registered_add d r name src r' :
  registered (add_recipe r d) name src r' ↔
  if decide (name = name_of_recipe r ∧ src = source r) then r' = r else registered d name src r'.
Proof.
  unfold registered, add_recipe. destruct (decide (name = name_of_recipe r)) as [->|Hn].
  - rewrite dget_dset_eq. destruct (decide (src = source r)) as [->|Hs].
    + rewrite decide_True by done. split.
      * intros (sources & [= <-] & Hr). rewrite dget_dset_eq in Hr. congruence.
      * intros ->. eexists. split; [done|]. by rewrite dget_dset_eq.
    + rewrite decide_False by naive_solver. split.
      * intros (sources & [= <-] & Hr). rewrite dget_dset_ne in Hr by done.
        destruct (dget (name_of_recipe r) d) as [l|]; [by exists l|done].
      * intros (sources & Hd & Hr). eexists. split; [done|]. by rewrite dget_dset_ne, Hd by done.
  - rewrite decide_False by naive_solver. by rewrite dget_dset_ne by done.
Qed.

Lemma index_ok_add d r : index_ok d → source r ∈ SOURCE_PRIORITY →
  validate_metadata (metadata r) = Ok tt → index_ok (add_recipe r d).
Proof.
  intros [Hwf Hs Hr] Hsrc Hv. split.
  - by apply dset_wf.
  - intros name sources. unfold add_recipe. destruct (decide (name = name_of_recipe r)) as [->|Hn].
    + rewrite dget_dset_eq. intros [= <-]. split.
      * apply dset_wf. destruct (dget (name_of_recipe r) d) as [l|] eqn:El; [by eapply Hs|].
        apply NoDup_nil_2.
      * destruct (default [] _) as [|[k v] l]; [done|]. cbn. by case_decide.
    + rewrite dget_dset_ne by done. apply Hs.
  - intros name src r' Hreg%registered_add. case_decide as Hd; [|by apply Hr].
    destruct Hd as [-> ->]. by subst.
Qed.

(** The last recipe of a list under a name and source. *)
Definition last_of name (src : pystr) (l : list Recipe) : option Recipe :=
  last (filter (λ r, name_of_recipe r = name ∧ source r = src) l).

Lemma registered_fold l name src r :
  registered (foldl (λ d r, add_recipe r d) [] l) name src r ↔ last_of name src l = Some r.
Proof.
  induction l as [|x l IH] using rev_ind.
  { unfold last_of. cbn. split; [|done]. by intros (sources & ? & _). }
  rewrite foldl_app. cbn [foldl]. rewrite registered_add. unfold last_of.
  rewrite filter_app, filter_cons. destruct (decide (name_of_recipe x = name ∧ source x = src)) as [Hx|Hx].
  - rewrite decide_True by naive_solver. rewrite filter_nil, last_snoc. naive_solver.
  - rewrite decide_False by naive_solver. rewrite filter_nil, app_nil_r. apply IH.
Qed.

(** ** Lookups by priority *)

Fixpoint position (s : pystr) (l : list pystr) : nat :=
  match l with [] => 0 | x :: l => if decide (x = s) then 0 else S (position s l) end.

Lemma first_of_spec l sources :
  match first_of l sources with
  | Some r => ∃ s, s ∈ l ∧ dget s sources = Some r ∧
      ∀ s' r', s' ∈ l → dget s' sources = Some r' → position s l ≤ position s' l
  | None => ∀ s, s ∈ l → dget s sources = None
  end.
Proof.
  induction l as [|x l IH]; cbn [first_of]; [by intros s Hs%elem_of_nil|].
  destruct (dget x sources) as [r|] eqn:Ex.
  - exists x. split; [apply list_elem_of_here|]. split; [done|]. intros s' r' _ _. cbn.
    rewrite decide_True by done. lia.
  - destruct (first_of l sources) as [r|].
    + destruct IH as (s & Hs & Hr & Hmin). exists s. split; [by apply list_elem_of_further|].
      split; [done|]. intros s' r' Hs' Hr'. cbn.
      rewrite decide_False by congruence. destruct (decide (x = s')); [congruence|].
      apply elem_of_cons in Hs' as [->|Hs']; [done|]. apply le_n_S. by eapply Hmin.
    + intros s [->|Hs]%elem_of_cons; [done|by apply IH].
Qed.

(** A name means its version of highest priority.  In an index as a scan
    builds it, looking a name up without a source returns a registered version
    such that no other is of higher priority (the user's own before the
    community's before the packaged), and fails exactly when there is none; with
    a source it returns the version registered under it or fails. *)
Theorem find_highest_priority g name : index_ok (recipes g) →
  match find g name None with
  | Ok r => registered (recipes g) name (source r) r ∧
      ∀ src' r', registered (recipes g) name src' r' →
        position (source r) SOURCE_PRIORITY ≤ position src' SOURCE_PRIORITY
  | Raise e => e = RecipeNotFoundError ∧ ∀ src r, ¬ registered (recipes g) name src r
  end ∧
  ∀ src, src ≠ [] →
    match find g name (Some src) with
    | Ok r => registered (recipes g) name (capitalize src) r
    | Raise e => e = RecipeNotFoundError ∧ ∀ r, ¬ registered (recipes g) name (capitalize src) r
    end.
Proof.
  intros [Hwf Hs Hr]. unfold find. destruct (dget name (recipes g)) as [sources|] eqn:En; cycle 1.
  { split; [split; [done|]; by intros src r (? & ? & _); congruence|].
    intros src Hne. split; [done|]. by intros r (? & ? & _); congruence. }
  assert (∀ src r, registered (recipes g) name src r ↔ dget src sources = Some r) as Hreg.
  { intros src r. unfold registered. naive_solver. }
  split.
  - pose proof (first_of_spec SOURCE_PRIORITY sources) as Hf.
    destruct (first_of SOURCE_PRIORITY sources) as [r|].
    + destruct Hf as (s & Hin & Hget & Hmin).
      assert (source r = s) as <- by by apply (Hr name s r), Hreg.
      split; [by apply Hreg|]. intros src' r' Hr'. eapply (Hmin src' r'); [|by apply Hreg].
      by apply (Hr name src' r').
    + split; [done|]. intros src r Hr'. pose proof (Hr name src r Hr') as (_ & _ & Hin & _).
      apply Hreg in Hr'. rewrite Hf in Hr' by done. done.
  - intros src Hne. destruct src as [|c src]; [done|].
    destruct (dget (capitalize (c :: src)) sources) as [r|] eqn:Ec; [by apply Hreg|].
    split; [done|]. intros r Hr'%Hreg. congruence.
Qed.

(** ** What a scan registers *)

Definition offered_folder (src : pystr) (dir : path) (f : folder) : list Recipe :=
  if fo_is_dir f then
    match fo_md f with
    | Some m => match recipe_of src (dir ++ [fo_name f]) f m with Some r => [r] | None => [] end
    | None => []
    end
  else [].
Definition offered_cat (src : pystr) (p : path) (sc : path * category) : list Recipe :=
  concat (map (offered_folder src (p ++ sc.1)) (default [] (ca_entries sc.2))).
Definition offered_path t (p : path) : list Recipe :=
  match dget p t with
  | None => []
  | Some r => concat (map (offered_cat (_get_source_label p) p) (cats_of r))
  end.
(** Every usable recipe below the search paths, in the order they are met. *)
Definition offered t (ps : list path) : list Recipe := concat (map (offered_path t) ps).

Definition listable t (ps : list path) : Prop :=
  ∀ p r, p ∈ ps → dget p t = Some r → Forall (λ sc : path * category, is_Some (ca_entries sc.2)) (cats_of r).

(** A computation that only adds these recipes to the index. *)
Definition adds (f : M RecipeRegistry unit) (l : list Recipe) : Prop :=
  ∀ g, ∃ g', f g = (Ok tt, g') ∧ recipes g' = foldl (λ d r, add_recipe r d) (recipes g) l ∧
    search_paths g' = search_paths g.

Lemma adds_bind f f' l l' : adds f l → adds f' l' → adds (f;; f') (l ++ l').
Proof.
  intros Hf Hf' g. destruct (Hf g) as (g1 & E1 & R1 & S1). destruct (Hf' g1) as (g2 & E2 & R2 & S2).
  exists g2. munfold. rewrite E1, E2. rewrite foldl_app, <- R1. split_and!; congruence.
Qed.

Lemma adds_each {A} (f : A → M RecipeRegistry unit) (h : A → list Recipe) l :
  Forall (λ x, adds (f x) (h x)) l → adds (each f l) (concat (map h l)).
Proof. induction 1 as [|x l Hx Hl IH]; cbn; [by intros g; exists g|by apply adds_bind]. Qed.

Lemma adds_nothing {A} (f : A → M RecipeRegistry unit) l :
  (∀ x, adds (f x) []) → adds (each f l) [].
Proof.
  intros Hf. replace [] with (concat (map (λ _ : A, @nil Recipe) l)).
  - apply adds_each, Forall_true. done.
  - induction l; cbn; done.
Qed.

Lemma adds_mtime p m : adds (note_mtime p m) [].
Proof. intros g. eexists. split; [done|]. by destruct m. Qed.

Lemma adds_folder src dir f : adds (scan_folder src dir f) (offered_folder src dir f).
Proof.
  unfold scan_folder, offered_folder, _register_recipe. destruct (fo_is_dir f); [|by intros g; exists g].
  destruct (fo_md f) as [m|]; [|by intros g; exists g].
  destruct (recipe_of _ _ f m) as [r|]; [|by intros g; exists g].
  rewrite <- (app_nil_r [r]). apply adds_bind; [|apply adds_mtime]. by intros g; eexists.
Qed.

Lemma adds_path t p : (∀ r, dget p t = Some r →
    Forall (λ sc : path * category, is_Some (ca_entries sc.2)) (cats_of r)) →
  adds (scan_path t p) (offered_path t p).
Proof.
  intros Hl. unfold scan_path, offered_path. destruct (dget p t) as [r|]; [|by intros g; exists g].
  change (concat (map (offered_cat (_get_source_label p) p) (cats_of r)))
    with ([] ++ concat (map (offered_cat (_get_source_label p) p) (cats_of r))).
  apply adds_bind.
  - unfold note_root. change (@nil Recipe) with (@nil Recipe ++ []).
    apply adds_bind; [apply adds_mtime|]. apply adds_nothing. intros sc.
    change (@nil Recipe) with (@nil Recipe ++ []). apply adds_bind; [apply adds_mtime|].
    apply adds_nothing. intros f. destruct (fo_is_dir f); [apply adds_mtime|by intros g; exists g].
  - unfold _scan_directory. apply adds_each. eapply Forall_impl; [by apply Hl|].
    intros [sub c] [l Hc]. cbn in *. unfold offered_cat. cbn. rewrite Hc. cbn.
    apply adds_each, Forall_true. intros f. apply adds_folder.
Qed.

Lemma source_label p : _get_source_label p ∈ SOURCE_PRIORITY.
Proof. unfold _get_source_label, SOURCE_PRIORITY. repeat case_match; repeat constructor. Qed.

Lemma offered_ok t ps : Forall (λ r, source r ∈ SOURCE_PRIORITY ∧
  validate_metadata (metadata r) = Ok tt) (offered t ps).
Proof.
  apply Forall_forall. intros r Hr. unfold offered in Hr.
  apply list_elem_of_In, in_concat in Hr as (l & Hl & Hr). apply in_map_iff in Hl as (p & <- & _).
  unfold offered_path in Hr. destruct (dget p t) as [ro|]; [|done].
  apply in_concat in Hr as (l & Hl & Hr). apply in_map_iff in Hl as (sc & <- & _).
  apply in_concat in Hr as (l & Hl & Hr). apply in_map_iff in Hl as (f & <- & _).
  unfold offered_folder, recipe_of in Hr. destruct (fo_is_dir f); [|done].
  destruct (fo_md f) as [m|]; [|done]. destruct (parse_metadata_file _) as [md|]; [|done].
  destruct (validate_metadata md) as [[]|] eqn:Hv; [|done].
  destruct (_find_script_file _ _ _); [|done]. destruct Hr as [<-|[]]. split; [apply source_label|done].
Qed.

Lemma index_ok_fold l : Forall (λ r, source r ∈ SOURCE_PRIORITY ∧ validate_metadata (metadata r) = Ok tt) l →
  index_ok (foldl (λ d r, add_recipe r d) [] l).
Proof.
  induction l as [|r l IH] using rev_ind; intros Hl.
  - split; [apply NoDup_nil_2|done|]. by intros ? ? ? (? & ? & _).
  - apply Forall_app in Hl as [Hl [[Hs Hv] _]%Forall_cons]. rewrite foldl_app. cbn.
    apply index_ok_add; auto.
Qed.

(** *** Removing *)

Lemma registered_remove d n src0 name src r : index_ok d →
  registered (remove_recipe d (n, src0)) name src r ↔
  registered d name src r ∧ ¬ (name = n ∧ src = src0).
Proof.
  intros [Hwf Hs _]. unfold remove_recipe. cbn [fst snd].
  destruct (dget n d) as [sources|] eqn:En; cycle 1.
  { split; [|by intros []]. intros Hr. split; [done|]. intros [-> _]. destruct Hr as (? & ? & _). congruence. }
  destruct (Hs n sources En) as [Hws _].
  assert (∀ src r, dget src (ddel src0 sources) = Some r ↔ dget src sources = Some r ∧ src ≠ src0) as Hdel.
  { intros s r'. destruct (decide (s = src0)) as [->|Hne]; [by rewrite dget_ddel_eq by done; naive_solver|].
    rewrite dget_ddel_ne by done. naive_solver. }
  destruct (decide (name = n)) as [->|Hne].
  - transitivity (dget src (ddel src0 sources) = Some r).
    + unfold registered. destruct (ddel src0 sources) as [|x rest].
      * rewrite dget_ddel_eq by done. naive_solver.
      * rewrite dget_dset_eq. naive_solver.
    + rewrite Hdel. unfold registered. rewrite En. naive_solver.
  - transitivity (registered d name src r); [|naive_solver]. unfold registered.
    destruct (ddel src0 sources); [by rewrite dget_ddel_ne by done|by rewrite dget_dset_ne by done].
Qed.

Lemma index_ok_remove d ns : index_ok d → index_ok (remove_recipe d ns).
Proof.
  intros Hok. destruct ns as [n src0]. split.
  - destruct Hok as [Hwf _ _]. unfold remove_recipe. cbn [fst snd]. destruct (dget n d) as [l|]; [|done].
    destruct (ddel src0 l); [by apply ddel_wf|by apply dset_wf].
  - destruct Hok as [Hwf Hs _]. intros name sources. unfold remove_recipe. cbn [fst snd].
    destruct (dget n d) as [l|] eqn:En; [|apply Hs]. destruct (Hs n l En) as [Hwl _].
    destruct (ddel src0 l) as [|x rest] eqn:Ed.
    + destruct (decide (name = n)) as [->|Hne]; [by rewrite dget_ddel_eq|].
      rewrite dget_ddel_ne by done. apply Hs.
    + destruct (decide (name = n)) as [->|Hne].
      * rewrite dget_dset_eq. intros [= <-]. split; [|done]. rewrite <- Ed. by apply ddel_wf.
      * rewrite dget_dset_ne by done. apply Hs.
  - intros name src r [Hr _]%registered_remove; [|done]. by apply (io_recipe d Hok).
Qed.

Lemma registered_removes d l : index_ok d →
  (∀ name src r, registered (foldl remove_recipe d l) name src r ↔
     registered d name src r ∧ (name, src) ∉ l) ∧
  index_ok (foldl remove_recipe d l).
Proof.
  revert d. induction l as [|[n s] l IH]; intros d Hok; cbn [foldl].
  - split; [|done]. intros name src r. split; [|by intros []]. intros ?. split; [done|]. apply not_elem_of_nil.
  - destruct (IH (remove_recipe d (n, s))) as [Hr Hok']; [by apply index_ok_remove|].
    split; [|done]. intros name src r. rewrite Hr, registered_remove by done.
    rewrite elem_of_cons. naive_solver.
Qed.

(** *** Dependencies *)

Definition checkable (d : index) : Prop :=
  ∀ name src r, registered d name src r → ∃ b, invalid d r = Ok b.

Lemma elem_registered d name sources src r : index_ok d →
  (name, sources) ∈ d → (src, r) ∈ sources → registered d name src r.
Proof.
  intros [Hwf Hs _] Hn Hr. exists sources. assert (dget name d = Some sources) as Hd by by apply dget_elem.
  split; [done|]. apply dget_elem; [|done]. by apply (Hs name sources).
Qed.

Lemma invalid_recipes_run d : index_ok d → checkable d → ∃ l, invalid_recipes d = Ok l ∧
  ∀ name src r, registered d name src r → ((name, src) ∈ l ↔ invalid d r = Ok true).
Proof.
  intros Hok Hc. set (inv r := match invalid d r with Ok b => b | Raise _ => false end).
  set (row (ns : pystr * dict pystr Recipe) :=
    concat (map (λ sr : pystr * Recipe, if inv sr.2 then [(ns.1, sr.1)] else []) ns.2)).
  exists (concat (map row d)). split.
  - unfold invalid_recipes. rewrite (map_res_fun _ row); [done|]. intros [name sources] Hn. cbn [fst snd].
    rewrite (map_res_fun _ (λ sr : pystr * Recipe, if inv sr.2 then [(name, sr.1)] else [])); [done|].
    intros [src r] Hr. cbn [fst snd].
    destruct (Hc name src r) as [b Hb]; [by eapply elem_registered|].
    unfold mbind, res_bind, inv. by rewrite Hb.
  - intros name src r (sources & Hn & Hr). rewrite list_elem_of_In, in_concat.
    assert (∀ b, invalid d r = Ok b → inv r = b) as Hinv by (unfold inv; by intros b ->).
    destruct (Hc name src r) as [b Hb]; [by exists sources|]. split.
    + intros (x & Hx & Hin). apply in_map_iff in Hx as ([n ss] & <- & Hns). unfold row in Hin.
      apply in_concat in Hin as (y & Hy & Hin). apply in_map_iff in Hy as ([s r'] & <- & Hs).
      cbn [fst snd] in *. destruct (inv r') eqn:Ei; [|done]. destruct Hin as [[= -> ->]|[]].
      apply list_elem_of_In in Hns, Hs.
      assert (registered d name src r') as (ss' & Hn' & Hr') by by eapply elem_registered.
      assert (r' = r) as -> by congruence. rewrite Hb. f_equal. by rewrite <- (Hinv b).
    + intros Ht. exists (row (name, sources)). split.
      * apply in_map, list_elem_of_In. by apply dget_Some_elem.
      * unfold row. apply in_concat. exists [(name, src)]. split; [|by left].
        apply in_map_iff. exists (src, r). cbn [fst snd]. rewrite (Hinv true Ht). split; [done|].
        apply list_elem_of_In. by apply dget_Some_elem.
Qed.

(** Whether a recipe's dependencies are all among the names of an index. *)
Definition satisfied (d : index) (r : Recipe) : Prop := invalid d r = Ok false.

Lemma scan_run t g : listable t (search_paths g) →
  let found := foldl (λ d r, add_recipe r d) [] (offered t (search_paths g)) in
  checkable found →
  ∃ g', scan t g = (Ok tt, g') ∧ index_ok (recipes g') ∧
  ∀ name src r, registered (recipes g') name src r ↔
    last_of name src (offered t (search_paths g)) = Some r ∧ satisfied found r.
Proof.
  intros Hl found Hc. set (g0 := set_mtimes (set_recipes g []) []).
  assert (adds (each (scan_path t) (search_paths g)) (offered t (search_paths g))) as Ha.
  { apply adds_each, Forall_forall. intros p Hp. apply adds_path. intros r Hr. by eapply Hl. }
  destruct (Ha g0) as (g1 & E1 & R1 & _). change (recipes g1 = found) in R1.
  assert (index_ok found) as Hok by apply index_ok_fold, offered_ok.
  destruct (invalid_recipes_run found Hok Hc) as (l & Hinv & Hin).
  exists (set_recipes g1 (foldl remove_recipe found l)).
  unfold scan, _validate_dependencies. munfold. fold g0.
  change (search_paths g0) with (search_paths g). rewrite E1, R1, Hinv. split; [done|].
  cbn [recipes set_recipes].
  destruct (registered_removes found l Hok) as [Hreg Hok']. split; [done|].
  intros name src r. rewrite Hreg. unfold found at 1. rewrite registered_fold. unfold satisfied. split.
  - intros [Hlast Hn]. split; [done|]. apply registered_fold in Hlast.
    destruct (Hc name src r Hlast) as [[] Hb]; [|done]. exfalso. by apply Hn, (Hin name src r).
  - intros [Hlast Hs]. split; [done|]. apply registered_fold in Hlast.
    rewrite (Hin name src r Hlast). congruence.
Qed.

(** *** The specification: places, what is usable there, and what it needs *)

(** A directory below a search path, with the source it counts for. *)
Abbreviation place := (pystr * path * folder)%type.
Definition places_at t (p : path) : list place :=
  match dget p t with
  | None => []
  | Some r => concat (map (λ sc : path * category,
      map (λ f, (_get_source_label p, p ++ sc.1 ++ [fo_name f], f)) (default [] (ca_entries sc.2))) (cats_of r))
  end.
(** All of them, in the order of the search paths and categories. *)
Definition places t (ps : list path) : list place := concat (map (places_at t) ps).

(** The script a runtime runs. *)
Inductive script_of : json → pystr → Prop :=
  | js_script : script_of (JStr (§"chrome-js")) (§"recipe.js")
  | py_script : script_of (JStr (§"python")) (§"recipe.py")
  | sh_script : script_of (JStr (§"shell")) (§"recipe.sh").

(** A directory with a [recipe.md] that reads as a valid description and the script
    of its runtime beside it. *)
Definition usable (pl : place) (r : Recipe) : Prop :=
  let '(src, dir, f) := pl in
  fo_is_dir f = true ∧ ∃ m md script, fo_md f = Some m ∧ parse_metadata_file (mf_text m) = Ok md ∧
    validate_metadata md = Ok tt ∧ script_of (md_runtime md) script ∧ script ∈ fo_files f ∧
    r = {| metadata := md; script_path := dir ++ [script]; metadata_path := dir ++ [§"recipe.md"];
           source := src; base := dir |}.

(** The last usable directory of a name and source. *)
Definition found_last (l : list place) name (src : pystr) (r : Recipe) : Prop :=
  ∃ before pl after, l = before ++ pl :: after ∧ usable pl r ∧ name_of_recipe r = name ∧ source r = src ∧
    ∀ pl' r', pl' ∈ after → usable pl' r' → ¬ (name_of_recipe r' = name ∧ source r' = src).
Definition found_name (l : list place) name : Prop := ∃ pl r, pl ∈ l ∧ usable pl r ∧ name_of_recipe r = name.

(** What a workflow says it needs: nothing, or a list of things that are neither
    lists nor objects. *)
Inductive needs : Recipe → list json → Prop :=
  | needs_nothing r : truthy (md_dependencies (metadata r)) = false → needs r []
  | needs_list r l : md_dependencies (metadata r) = JArr l →
      Forall (λ v, match v with JArr _ | JObj _ => False | _ => True end) l → needs r l.
Definition a_workflow (r : Recipe) : Prop := md_type (metadata r) = JStr (§"workflow").
(** Everything a workflow needs is the name of something usable. *)
Definition provided (l : list place) (r : Recipe) : Prop :=
  a_workflow r → ∀ deps dep, needs r deps → dep ∈ deps → ∃ n, dep = JStr n ∧ found_name l n.

(** *** The scan meets it *)

Definition recipe_at (pl : place) : option Recipe :=
  let '(src, dir, f) := pl in if fo_is_dir f then fo_md f ≫= recipe_of src dir f else None.

Lemma recipe_script_found dir files rt script : _find_script_file dir files rt = Some script ↔
  ∃ f, script_of rt f ∧ f ∈ files ∧ script = dir ++ [f].
Proof.
  unfold _find_script_file. split.
  - cbv zeta. repeat (let E := fresh in match goal with |- context [str_is ?x rt] => destruct (str_is x rt) eqn:E end;
      [case_decide; [|done]; intros [= <-]; apply str_is_iff in E as ->; eexists; (split; [constructor|by split])|]).
    done.
  - intros (f & Hs & Hf & ->). destruct Hs; cbn [str_is]; repeat case_bool_decide; try done; by rewrite decide_True.
Qed.

Lemma usable_iff pl r : usable pl r ↔ recipe_at pl = Some r.
Proof.
  destruct pl as [[src dir] f]. unfold usable, recipe_at, recipe_of. destruct (fo_is_dir f); [|naive_solver].
  split.
  - intros (_ & m & md & script & Hm & Hp & Hv & Hs & Hin & ->). rewrite Hm. cbn. rewrite Hp, Hv.
    by rewrite (proj2 (recipe_script_found dir (fo_files f) (md_runtime md) (dir ++ [script]))) by eauto.
  - destruct (fo_md f) as [m|]; [|done]. cbn. destruct (parse_metadata_file _) as [md|] eqn:Hp; [|done].
    destruct (validate_metadata md) as [[]|] eqn:Hv; [|done].
    destruct (_find_script_file _ _ _) as [script|] eqn:Hs; [|done]. intros [= <-].
    apply recipe_script_found in Hs as (x & Hx & Hin & ->). split; [done|]. by exists m, md, x.
Qed.

Lemma omap_concat {A B} (f : A → option B) ls : omap f (concat ls) = concat (map (omap f) ls).
Proof. induction ls as [|l ls IH]; [done|]. cbn [concat map]. by rewrite omap_app, IH. Qed.

Lemma offered_places t ps : offered t ps = omap recipe_at (places t ps).
Proof.
  unfold offered, places. rewrite omap_concat, map_map. f_equal. apply map_ext. intros p.
  unfold offered_path, places_at. destruct (dget p t) as [ro|]; [|done].
  rewrite omap_concat, map_map. f_equal. apply map_ext. intros sc. unfold offered_cat.
  induction (default [] (ca_entries sc.2)) as [|f l IH]; [done|]. cbn [map concat omap list_omap].
  rewrite IH. unfold offered_folder, recipe_at. rewrite <- app_assoc. destruct (fo_is_dir f); [|done].
  destruct (fo_md f) as [m|]; [|done]. cbn. by destruct (recipe_of _ _ f m).
Qed.

Lemma last_of_places l name src r : last_of name src (omap recipe_at l) = Some r ↔ found_last l name src r.
Proof.
  induction l as [|pl l IH] using rev_ind.
  { split; [done|]. by intros ([|? ?] & pl & after & ? & _). }
  rewrite omap_app. unfold last_of. rewrite filter_app. cbn [omap list_omap].
  assert (found_last (l ++ [pl]) name src r ↔ (recipe_at pl = Some r ∧ name_of_recipe r = name ∧ source r = src) ∨
    (∀ r', recipe_at pl = Some r' → ¬ (name_of_recipe r' = name ∧ source r' = src)) ∧ found_last l name src r) as ->.
  { split.
    - intros (before & x & after & E & Hu & Hn & Hs & Ha). destruct after as [|y after] using rev_ind.
      + apply app_inj_tail in E as [-> ->]. left. by rewrite <- usable_iff.
      + rewrite app_comm_cons, app_assoc in E. apply app_inj_tail in E as [-> <-]. right. split.
        * intros r' Hr'. apply (Ha pl); [apply elem_of_app; right; apply list_elem_of_here|]. by apply usable_iff.
        * exists before, x, after. split_and!; [done..|]. intros pl' r' Hin. apply Ha. apply elem_of_app. by left.
    - intros [(Hr & Hn & Hs)|(Hno & before & x & after & -> & Hu & Hn & Hs & Ha)].
      + exists l, pl, []. rewrite usable_iff. split_and!; [done..|]. by intros ? ? ?%elem_of_nil.
      + exists before, x, (after ++ [pl]). split_and!; [by rewrite <- app_assoc|done..|].
        intros pl' r' [Hin|Hin%list_elem_of_singleton]%elem_of_app; [by apply Ha|]. subst. rewrite usable_iff. apply Hno. }
  destruct (recipe_at pl) as [x|] eqn:Ex.
  - rewrite filter_cons. case_decide as Hx.
    + rewrite filter_nil, last_snoc. naive_solver.
    + rewrite filter_nil, app_nil_r, <- IH. unfold last_of. naive_solver.
  - rewrite filter_nil, app_nil_r, <- IH. unfold last_of. naive_solver.
Qed.

Lemma index_names l name :
  dmem name (foldl (λ d r, add_recipe r d) [] l) = true ↔ ∃ r, r ∈ l ∧ name_of_recipe r = name.
Proof.
  induction l as [|x l IH] using rev_ind; [split; [done|]; by intros (r & ?%elem_of_nil & _)|].
  rewrite foldl_app. cbn [foldl]. unfold add_recipe at 1, dmem.
  destruct (decide (name = name_of_recipe x)) as [->|Hne].
  - rewrite dget_dset_eq. split; [|done]. intros _. exists x. split; [|done].
    apply elem_of_app. right. apply list_elem_of_here.
  - rewrite dget_dset_ne by done. unfold dmem in IH. rewrite IH. split.
    + intros (r & Hr & Hn). exists r. split; [|done]. apply elem_of_app. by left.
    + intros (r & [Hr|Hr%list_elem_of_singleton]%elem_of_app & Hn); [by exists r|congruence].
Qed.

Lemma found_name_index l name :
  dmem name (foldl (λ d r, add_recipe r d) [] (omap recipe_at l)) = true ↔ found_name l name.
Proof.
  rewrite index_names. unfold found_name. setoid_rewrite list_elem_of_omap. setoid_rewrite usable_iff. naive_solver.
Qed.

Lemma missing_iff l dep : match dep with JArr _ | JObj _ => False | _ => True end →
  ∃ b, missing (foldl (λ d r, add_recipe r d) [] (omap recipe_at l)) dep = Ok b ∧
    (b = false ↔ ∃ n, dep = JStr n ∧ found_name l n).
Proof.
  intros Hd. destruct dep; try done; eexists; (split; [done|]); try (split; [done|]; by intros (n & ? & _)).
  rewrite negb_false_iff, found_name_index. naive_solver.
Qed.

Lemma needs_unique r l l' : needs r l → needs r l' → l = l'.
Proof.
  intros N1 N2. destruct N1 as [r Hf|r l1 Hl _], N2 as [r Hf'|r l2 Hl' _]; [done| | |congruence].
  - rewrite Hl' in Hf. by destruct l2.
  - rewrite Hl in Hf'. by destruct l1.
Qed.

(** What the code decides of a workflow. *)
Lemma invalid_iff l r : (a_workflow r → ∃ deps, needs r deps) →
  ∃ b, invalid (foldl (λ d r, add_recipe r d) [] (omap recipe_at l)) r = Ok b ∧ (b = false ↔ provided l r).
Proof.
  intros Hneeds. unfold invalid, is_workflow. destruct (str_is (§"workflow") _) eqn:Ew.
  2: { exists false. split; [done|]. split; [|done]. intros _ Hw. apply str_is_false in Ew. done. }
  apply str_is_iff in Ew. destruct (Hneeds Ew) as [deps Hd]. set (d := foldl _ _ _).
  assert (dependencies_of r = Ok deps) as ->.
  { unfold dependencies_of, jor. destruct Hd as [r' Hf|r' ds Hl _]; [by rewrite Hf|]. rewrite Hl. by destruct ds. }
  assert (∀ dep, dep ∈ deps → ∃ b, missing d dep = Ok b ∧ (b = false ↔ ∃ n, dep = JStr n ∧ found_name l n)) as Hm.
  { intros dep Hin. apply missing_iff. destruct Hd as [|r' ds _ Hall]; [by apply elem_of_nil in Hin|].
    rewrite Forall_forall in Hall. by apply Hall. }
  destruct (map_res_total (missing d) deps) as [ms Hms]; [naive_solver|]. cbn. rewrite Hms. cbn.
  apply map_res_Forall2 in Hms. exists (existsb id ms). split; [done|]. rewrite existsb_false_Forall. split.
  - intros Hall _ deps' dep Hd' Hin. rewrite (needs_unique _ _ _ Hd' Hd) in Hin.
    destruct (Forall2_elem_l _ _ _ _ Hms Hin) as (b & Hb & Hmb). rewrite Forall_forall in Hall.
    destruct (Hm dep Hin) as (b' & Hb' & Hiff). apply Hiff. assert (b' = b) as -> by congruence. by apply Hall.
  - intros Hp. apply Forall_forall. intros b Hb. destruct (Forall2_elem_r _ _ _ _ Hms Hb) as (dep & Hin & Hmb).
    destruct (Hm dep Hin) as (b' & Hb' & Hiff). assert (b' = b) as <- by congruence. apply Hiff. by eapply Hp.
Qed.

Lemma and_iff_compat (P Q R : Prop) : (P → (Q ↔ R)) → (P ∧ Q ↔ P ∧ R).
Proof. tauto. Qed.

End registry.

(** ** Evaluation

    Three workflows in the user's directory, in this order: [a] needs [b], [b]
    needs a recipe nobody has, [c] needs nothing and is also packaged. *)
Module RegDemo.
#[export] Existing Instance ascii_db.
#[export] Existing Instance repr_mark.
#[export] Existing Instance posix_paths.

Definition front (name : pystr) (deps : json) : json :=
  JObj [(§"name", JStr name); (§"type", JStr (§"workflow")); (§"runtime", JStr (§"python"));
        (§"version", JStr (§"1.0")); (§"description", JStr (§"demo"));
        (§"use_cases", JArr [JStr (§"demo")]); (§"output_targets", JArr [JStr (§"stdout")]);
        (§"dependencies", deps)].
(** A reader that knows four documents. *)
#[export] Instance four_documents : Yaml := λ s,
  if decide (s = §"a") then Some (front (§"a") (JArr [JStr (§"b")]))
  else if decide (s = §"b") then Some (front (§"b") (JArr [JStr (§"nobody")]))
  else if decide (s = §"c") then Some (front (§"c") JNull)
  else if decide (s = §"bad") then Some (front (§"bad") (JInt 5)) else None.

Definition workflow (doc : pystr) : folder :=
  {| fo_name := doc; fo_is_dir := true; fo_mtime := Some 1%Z;
     fo_md := Some {| mf_text := Some (§"--- " ++ doc ++ §" ---"); mf_mtime := Some 1%Z |};
     fo_files := [§"recipe.md"; §"recipe.py"] |}.
Definition one_root (l : list folder) : root :=
  {| ro_mtime := Some 1%Z; ro_cats := [([§"workflows"], {| ca_mtime := Some 1%Z; ca_entries := Some l |})] |}.
Definition packaged : path := [§"opt"; §"recipes"].
Definition disk : tree :=
  [(user_path, one_root [workflow (§"a"); workflow (§"b"); workflow (§"c")]);
   (packaged, one_root [workflow (§"c")])].
Definition fresh : RecipeRegistry := new_registry (Some packaged) disk.
Definition scanned : RecipeRegistry := (scan disk fresh).2.
End RegDemo.

Section demo.
Import RegDemo.

(** One pass over the dependencies: [b] goes, and [a], which needs it, stays. *)
Example dependency_chain_kept : dkeys (recipes scanned) = [§"a"; §"c"].
Proof. vm_compute. reflexivity. Qed.

(** A workflow whose dependencies are a number passes validation and makes the
    scan of everything raise. *)
Example bad_dependencies_break_scan :
  (scan [(user_path, one_root [workflow (§"c"); workflow (§"bad")])] fresh).1 = Raise TypeError.
Proof. vm_compute. reflexivity. Qed.

(** Nothing changed since the scan. *)
Example quiet_after_scan : needs_rescan disk scanned = false.
Proof. vm_compute. reflexivity. Qed.

Lemma disk_listable : listable disk (search_paths fresh).
Proof.
  intros p r _ Hr. unfold disk in Hr. cbn [dget] in Hr.
  repeat case_decide; simplify_eq; repeat constructor; by eexists.
Qed.

Lemma disk_checkable :
  checkable (foldl (λ d r, add_recipe r d) [] (offered disk (search_paths fresh))).
Proof.
  set (found := foldl _ _ _).
  assert (index_ok found) as Hok by apply index_ok_fold, offered_ok.
  assert (Forall (λ ns : pystr * dict pystr Recipe, Forall (λ sr : pystr * Recipe,
    is_Some (match invalid found sr.2 with Ok b => Some b | Raise _ => None end)) ns.2) found) as Hf.
  { apply (bool_decide_eq_true_1 _). vm_compute. reflexivity. }
  intros name src r (sources & Hn & Hr). apply dget_Some_elem in Hn, Hr.
  rewrite Forall_forall in Hf. specialize (Hf _ Hn). rewrite Forall_forall in Hf.
  destruct (Hf _ Hr) as [b Hb]. cbn [snd] in Hb. destruct (invalid found r) as [b'|]; [by exists b'|done].
Qed.

(** What they need is a list of names, or nothing. *)
Definition needs_names (r : Recipe) : bool :=
  match md_dependencies (metadata r) with
  | JNull => true
  | JArr l => forallb (λ v, match v with JStr _ => true | _ => false end) l
  | _ => false
  end.
Lemma needs_names_ok r : needs_names r = true → ∃ deps, needs r deps.
Proof.
  unfold needs_names. destruct (md_dependencies (metadata r)) eqn:E; try done.
  - intros _. exists []. apply needs_nothing. by rewrite E.
  - intros Hl. eexists. apply (needs_list _ _ E), Forall_forall. intros v Hv%list_elem_of_In.
    rewrite forallb_forall in Hl. specialize (Hl v Hv). by destruct v.
Qed.
Lemma disk_needs pl r : pl ∈ places disk (search_paths fresh) → usable pl r → a_workflow r → ∃ deps, needs r deps.
Proof.
  intros Hin Hu%usable_iff _. apply needs_names_ok.
  assert (forallb (λ pl, match recipe_at pl with Some r => needs_names r | None => true end)
    (places disk (search_paths fresh)) = true) as Hall by (vm_compute; reflexivity).
  rewrite forallb_forall in Hall. specialize (Hall pl). rewrite Hu in Hall. by apply Hall, list_elem_of_In.
Qed.


Lemma scanned_ok : index_ok (recipes scanned).
Proof.
  destruct (scan_run disk fresh disk_listable disk_checkable) as (g & Hs & Hok & _).
  unfold scanned. by rewrite Hs.
Qed.

(** [c] is the user's; the packaged one is found under its source. *)
Lemma find_highest_priority_witness : ∃ r r',
  find scanned (§"c") None = Ok r ∧ source r = §"User" ∧
  find scanned (§"c") (Some (§"official")) = Ok r' ∧
  registered (recipes scanned) (§"c") (§"Official") r' ∧
  find scanned (§"b") None = Raise RecipeNotFoundError ∧
  ∀ src r, ¬ registered (recipes scanned) (§"b") src r.
Proof.
  destruct (find_highest_priority scanned (§"c") scanned_ok) as [_ Hs].
  specialize (Hs (§"official") ltac:(done)).
  destruct (find_highest_priority scanned (§"b") scanned_ok) as [Hb _].
  assert (find scanned (§"b") None = Raise RecipeNotFoundError) as Eb by (vm_compute; reflexivity).
  rewrite Eb in Hb.
  destruct (find scanned (§"c") None) as [r|] eqn:E; [|exfalso; revert E; vm_compute; discriminate].
  destruct (find scanned (§"c") (Some (§"official"))) as [r'|] eqn:E';
    [|exfalso; revert E'; vm_compute; discriminate].
  exists r, r'. split; [done|]. split; [revert E; vm_compute; by intros [= <-]|].
  split; [done|]. split; [exact Hs|]. split; [done|]. apply Hb.
Defined.
End demo.
