(* ===== verification/Installer.v ===== *)
(** * Installing recipes

    recipes/installer.py: recipes copied from the community repository or a local
    directory into the community directory, the manifest that records them, their
    update and removal; and the guard of server/services/
    community_recipe_service.py against overwriting a newer version. *)

From S2P Require Import Prelude PyStr Json Env InvocationCtx Metadata Registry.
From stdpp Require Import prelude gmap list strings.

(** ** The disk *)

Inductive node := Dir | File (text : pystr).

#[export] Instance node_eq_dec : EqDecision node.
Proof. solve_decision. Defined.

(** No symbolic links; paths are absolute and without [..].  The manifest's file
    and the directory [.installed] it is kept in are not part of it (see
    [installer]). *)
Abbreviation disk := (gmap path node).

(** Where a path leads. *)
Fixpoint real_from (above p : path) : path :=
  match p with
  | [] => above
  | c :: p => real_from (if decide (c = §"..") then removelast above else above ++ [c]) p
  end.
Definition real (p : path) : path := real_from [] p.

Implicit Types (d : disk) (p q src dst : path).

Definition exists_at p d : bool := bool_decide (is_Some (d !! real p)).
Definition text_at p d : option pystr := match d !! real p with Some (File t) => Some t | _ => None end.

Definition under p q : Prop := p `prefix_of` q.
#[export] Instance under_dec p q : Decision (under p q).
Proof. apply _. Defined.

Definition without p d : disk := filter (λ kn, ¬ under p kn.1) d.

(** [shutil.rmtree(p)]. *)
Definition rmtree p d : res disk :=
  match d !! real p with
  | Some Dir => Ok (without (real p) d)
  | _ => Raise OSError
  end.

(** [p.mkdir(parents=True, exist_ok=True)]. *)
Fixpoint prefixes_from (above p : path) : list path :=
  match p with [] => [] | c :: p => (above ++ [c]) :: prefixes_from (above ++ [c]) p end.
Definition prefixes p : list path := prefixes_from [] p.
Definition make_dirs p d : res disk :=
  if existsb (λ q, match d !! q with Some (File _) => true | _ => false end) (prefixes (real p)) then Raise OSError
  else Ok (d ∪ list_to_map (map (λ q, (q, Dir)) (prefixes (real p)))).

(** [shutil.ignore_patterns("__pycache__", "*.pyc", ".git", ".DS_Store")]. *)
Definition ends_with (suffix s : pystr) : bool := bool_decide (suffix `suffix_of` s).
Definition ignored (name : pystr) : bool :=
  bool_decide (name ∈ [§"__pycache__"; §".git"; §".DS_Store"]) || ends_with (§".pyc") name.

(** [shutil.copytree]: what is left out are the ignored names below [src] and the
    files that cannot be read, which make it raise at the end.  A source above its
    target's parent is copied by shutil into itself until a path is too long; that is
    not followed here, and what is said about installations excludes it ([apart]). *)
Definition copies (unreadable : path → bool) src dst d : list (path * node) :=
  omap (λ kn, if decide (under src kn.1) then
                let r := drop (length src) kn.1 in
                if existsb ignored r then None
                else match kn.2 with
                     | File t => if unreadable kn.1 then None else Some (dst ++ r, File t)
                     | Dir => Some (dst ++ r, Dir)
                     end
              else None) (map_to_list d).
Definition has_unreadable (unreadable : path → bool) src d : bool :=
  existsb (λ kn, bool_decide (under src kn.1) && negb (existsb ignored (drop (length src) kn.1)) &&
                 match kn.2 with File _ => unreadable kn.1 | Dir => false end) (map_to_list d).
Definition copytree (unreadable : path → bool) (src0 dst0 : path) d : res unit * disk :=
  let src := real src0 in
  let dst := real dst0 in
  match d !! src, d !! dst with
  | Some Dir, None =>
      (if has_unreadable unreadable src d then Raise OSError else Ok tt, list_to_map (copies unreadable src dst d) ∪ d)
  | _, _ => (Raise OSError, d)
  end.

(** ** The manifest *)

Record InstalledRecipeInfo := {
  ir_name : json; ir_source_type : json; ir_source_url : json; ir_version : json;
  ir_installed_at : json; ir_recipe_type : json; ir_runtime : json;
}.

Definition info_to_dict (i : InstalledRecipeInfo) : jdict :=
  [(§"name", ir_name i); (§"source_type", ir_source_type i); (§"source_url", ir_source_url i);
   (§"version", ir_version i); (§"installed_at", ir_installed_at i); (§"recipe_type", ir_recipe_type i);
   (§"runtime", ir_runtime i)].

Definition field (k : pystr) (m : jdict) : res json := match dget k m with Some v => Ok v | None => Raise KeyError end.
Definition info_from_dict (v : json) : res InstalledRecipeInfo :=
  m ← match v with JObj m => Ok m | _ => Raise TypeError end;
  n ← field (§"name") m; st ← field (§"source_type") m; u ← field (§"source_url") m;
  ver ← field (§"version") m; at_ ← field (§"installed_at") m; rt ← field (§"recipe_type") m;
  r ← field (§"runtime") m;
  Ok {| ir_name := n; ir_source_type := st; ir_source_url := u; ir_version := ver; ir_installed_at := at_;
        ir_recipe_type := rt; ir_runtime := r |}.

Record InstallManifest := { schema_version : json; installed : dict pystr InstalledRecipeInfo }.
Definition empty_manifest : InstallManifest := {| schema_version := JStr (§"1.0"); installed := [] |}.

Definition manifest_entries (l : jdict) : res (dict pystr InstalledRecipeInfo) :=
  map_res (λ kv, i ← info_from_dict kv.2; Ok (kv.1, i)) l.
Definition manifest_of (v : json) : res InstallManifest :=
  data ← as_obj v;
  rs ← as_obj (default (JObj []) (dget (§"recipes") data));
  l ← manifest_entries rs;
  Ok {| schema_version := default (JStr (§"1.0")) (dget (§"schema_version") data); installed := l |}.

(** [InstallManifest.load]: [None] without a file, [Some None] for one that is no
    JSON. *)
Definition load_manifest (f : option (option json)) : InstallManifest :=
  match f with
  | Some (Some v) => match manifest_of v with Ok m => m | Raise _ => empty_manifest end
  | _ => empty_manifest
  end.
Definition manifest_json (m : InstallManifest) : json :=
  JObj [(§"schema_version", schema_version m);
        (§"recipes", JObj (map (λ ni, (ni.1, JObj (info_to_dict ni.2))) (installed m)))].

(** ** Sources *)

(** The contents of a directory of the community repository, as the API and the
    downloads give them; [None] for a request that fails. *)
Inductive remote :=
  | RFile (name : pystr) (content : option pystr)
  | RDir (name : pystr) (contents : option (list remote))
  | ROther.

Inductive answer := NotFound | Unreachable | Listing (l : list remote).

(** The working directory, the temporary directory of an installation, the files
    that cannot be read, and the repository's answer for the directory of a name. *)
Class Sources := {
  cwd : path;
  temp_dir : path;
  unreadable : path → bool;
  github : pystr → answer;
}.

(** The disk, the manifest's file, and the manifest once it was read. *)
Record installer := {
  on_disk : disk;
  manifest_file : option (option json);
  _manifest : option InstallManifest;
}.

Implicit Types (s : installer) (name now : pystr).

Definition set_disk d s : installer :=
  {| on_disk := d; manifest_file := manifest_file s; _manifest := _manifest s |}.
Definition cached (m : InstallManifest) s : installer :=
  {| on_disk := on_disk s; manifest_file := manifest_file s; _manifest := Some m |}.

(** A new installer reads the manifest when it first needs it. *)
Definition new_installer d (f : option (option json)) : installer :=
  {| on_disk := d; manifest_file := f; _manifest := None |}.
Definition manifest_now s : InstallManifest := default (load_manifest (manifest_file s)) (_manifest s).
Definition manifest : M installer InstallManifest := λ s, (Ok (manifest_now s), cached (manifest_now s) s).
Definition _save_manifest : M installer unit :=
  m ← manifest;
  modify (λ s, {| on_disk := on_disk s; manifest_file := Some (Some (manifest_json m)); _manifest := _manifest s |}).

(** Changing the entries of the manifest in memory. *)
Definition with_installed (f : dict pystr InstalledRecipeInfo → dict pystr InstalledRecipeInfo) : M installer unit :=
  m ← manifest;
  modify (cached {| schema_version := schema_version m; installed := f (installed m) |}).

(** An operation on the disk. *)
Definition disk_op (f : disk → res disk) : M installer unit := λ s,
  match f (on_disk s) with Ok d => (Ok tt, set_disk d s) | Raise e => (Raise e, s) end.

Definition WORKFLOWS : path := [§"workflows"].
Definition ATOMIC_CHROME : path := [§"atomic"; §"chrome"].
Definition ATOMIC_SYSTEM : path := [§"atomic"; §"system"].
Definition place_of (type runtime : json) : path :=
  if str_is (§"workflow") type then WORKFLOWS
  else if str_is (§"chrome-js") runtime then ATOMIC_CHROME else ATOMIC_SYSTEM.

Section install.
Context `{Unicode, PyRepr, Yaml, Paths, Sources}.

(** [shutil.rmtree(p)], which takes the manifest with it if that is below [p]. *)
Definition manifest_path : path := real (community_path ++ [§".installed"; §"manifest.json"]).
Definition remove_tree p : M installer unit := λ s,
  match rmtree p (on_disk s) with
  | Ok d => (Ok tt, {| on_disk := d;
                       manifest_file := if decide (under (real p) manifest_path) then None else manifest_file s;
                       _manifest := _manifest s |})
  | Raise e => (Raise e, s)
  end.

Fixpoint download_item (i : remote) (dir : path) : M disk unit :=
  match i with
  | RFile n (Some t) => modify (insert (real (path_join dir n)) (File t))
  | RFile _ None | RDir _ None => raise RecipeInstallError
  | RDir n (Some l) =>
      d ← get_st;
      d ← lift_res (make_dirs (path_join dir n) d);
      put_st d;;
      (fix go (l : list remote) : M disk unit :=
         match l with [] => mret tt | i :: l => download_item i (path_join dir n);; go l end) l
  | ROther => mret tt
  end.
Fixpoint download_items (l : list remote) (dir : path) : M disk unit :=
  match l with [] => mret tt | i :: l => download_item i dir;; download_items l dir end.
Definition _download_github_directory (l : list remote) (dir : path) : M disk unit :=
  d ← get_st;
  d ← lift_res (make_dirs dir d);
  put_st d;;
  download_items l dir.

(** The description of a recipe directory; any failure is an install error. *)
Definition checked_metadata (source_dir : path) d : res RecipeMetadata :=
  if negb (exists_at (source_dir ++ [§"recipe.md"]) d) then Raise RecipeInstallError
  else
    match (m ← parse_metadata_file (text_at (source_dir ++ [§"recipe.md"]) d); _ ← validate_metadata m; Ok m) with
    | Ok m => Ok m
    | Raise _ => Raise RecipeInstallError
    end.

Definition chosen_name (name_override : option pystr) (m : RecipeMetadata) : res pystr :=
  match name_override with
  | Some ((_ :: _) as n) => Ok n
  | _ => match md_name m with JStr n => Ok n | _ => Raise TypeError end
  end.

Definition _install_recipe_dir (source_dir : path) (source_type source_url : pystr) (force : bool)
    (name_override : option pystr) now : M installer pystr :=
  s ← get_st;
  m ← lift_res (checked_metadata source_dir (on_disk s));
  name ← lift_res (chosen_name name_override m);
  let target_parent := community_path ++ place_of (md_type m) (md_runtime m) in
  let target_dir := path_join target_parent name in
  (if exists_at target_dir (on_disk s) then
     if negb force then raise (RecipeAlreadyExistsError (path_str target_dir))
     else remove_tree target_dir
   else mret tt);;
  disk_op (make_dirs target_parent);;
  (λ s, let (r, d) := copytree unreadable source_dir target_dir (on_disk s) in (r, set_disk d s));;
  with_installed (dset name
    {| ir_name := JStr name; ir_source_type := JStr source_type; ir_source_url := JStr source_url;
       ir_version := md_version m; ir_installed_at := JStr now; ir_recipe_type := md_type m;
       ir_runtime := md_runtime m |});;
  _save_manifest;;
  mret name.

(** The temporary directory goes whatever happens. *)
Definition _install_from_community name (force : bool) (name_override : option pystr) now : M installer pystr :=
  match github name with
  | NotFound | Unreachable => raise RecipeInstallError
  | Listing l => λ s,
      let temp_path := path_join temp_dir name in
      let (r, d) := _download_github_directory l temp_path (on_disk s) in
      let (r, s) := match r with
                    | Raise e => (Raise e, set_disk d s)
                    | Ok _ => _install_recipe_dir temp_path (§"community") (§"community:" ++ name) force name_override now (set_disk d s)
                    end in
      (r, set_disk (without temp_dir (on_disk s)) s)
  end.

Definition _install_from_local_path (source_path : path) (force : bool) (name_override : option pystr) now : M installer pystr :=
  s ← get_st;
  if negb (exists_at source_path (on_disk s)) then raise RecipeInstallError
  else _install_recipe_dir source_path (§"local_path") (path_str source_path) force name_override now.

(** [install], with [_parse_source]. *)
Definition install (source : pystr) (force : bool) (name_override : option pystr) now : M installer pystr :=
  if starts_with (§"community:") source then _install_from_community (drop 10 source) force name_override now
  else
    s ← get_st;
    if exists_at (path_join cwd source) (on_disk s) then
      _install_from_local_path (path_join cwd source) force name_override now
    else raise RecipeInstallError.

Definition _find_installed_recipe name d : option path :=
  list_find (λ p, exists_at p d = true)
    (map (λ sub, path_join (community_path ++ sub) name) [ATOMIC_CHROME; ATOMIC_SYSTEM; WORKFLOWS]) ≫= λ ip, Some ip.2.

Definition uninstall name : M installer bool :=
  m ← manifest;
  s ← get_st;
  match match dget name (installed m) with
        | Some i => Some (path_join (community_path ++ place_of (ir_recipe_type i) (ir_runtime i)) name)
        | None => _find_installed_recipe name (on_disk s)
        end with
  | None => mret false
  | Some recipe_dir =>
      (if exists_at recipe_dir (on_disk s) then remove_tree recipe_dir else mret tt);;
      (if dmem name (installed m) then with_installed (ddel name);; _save_manifest else mret tt);;
      mret true
  end.

Definition update name now : M installer pystr :=
  m ← manifest;
  match dget name (installed m) with
  | None => raise RecipeInstallError
  | Some i => match ir_source_url i with
              | JStr u => install u true None now
              | _ => raise AttributeError
              end
  end.

Fixpoint update_each now (l : list pystr) : M installer (list (pystr * bool)) :=
  match l with
  | [] => mret []
  | name :: l => λ s,
      let (r, s) := update name now s in
      (rs ← update_each now l; mret ((name, match r with Ok _ => true | Raise _ => false end) :: rs)) s
  end.
Definition update_all now : M installer (list (pystr * bool)) :=
  m ← manifest; update_each now (dkeys (installed m)).
Definition list_installed : M installer (list InstalledRecipeInfo) := m ← manifest; mret (dvals (installed m)).
End install.

(** ** What the disk operations do *)

Lemma without_lookup p d q : without p d !! q = if decide (under p q) then None else d !! q.
Proof.
  unfold without. case_decide as Hu.
  - apply map_lookup_filter_None. right. intros n _ Hn. by apply Hn.
  - destruct (d !! q) as [n|] eqn:E.
    + by apply map_lookup_filter_Some.
    + apply map_lookup_filter_None. by left.
Qed.

Lemma elem_prefixes_from above p q : q ∈ prefixes_from above p ↔
  ∃ r, r ≠ [] ∧ r `prefix_of` p ∧ q = above ++ r.
Proof.
  revert above. induction p as [|c p IH]; intros above; cbn.
  - split; [by intros []%elem_of_nil|]. intros (r & Hr & [k Hp] & _). by destruct r.
  - rewrite elem_of_cons, IH. split.
    + intros [->|(r & Hr & [k ->] & ->)]; [exists [c]; repeat split; [done|by eexists]|].
      exists (c :: r). rewrite <- app_assoc. repeat split; [done|]. by exists k.
    + intros (r & Hr & [k Hp] & ->). destruct r as [|c' r]; [done|]. injection Hp as -> ->.
      destruct r as [|c2 r]; [by left|]. right. exists (c2 :: r). rewrite <- app_assoc. repeat split; [done|by eexists].
Qed.
Lemma elem_prefixes p q : q ∈ prefixes p ↔ q ≠ [] ∧ q `prefix_of` p.
Proof.
  unfold prefixes. rewrite elem_prefixes_from. split; [by intros (r & ? & ? & ->)|]. intros [? ?]. by exists q.
Qed.

Lemma make_dirs_lookup p d d' q : make_dirs p d = Ok d' →
  d' !! q = if decide (q ∈ prefixes (real p) ∧ d !! q = None) then Some Dir else d !! q.
Proof.
  unfold make_dirs. destruct (existsb _ _); [done|]. intros [= <-]. rewrite lookup_union.
  destruct (d !! q) as [n|] eqn:E.
  - rewrite decide_False by (intros [_ ?]; done). by destruct (list_to_map _ !! q).
  - rewrite option_union_left_id. case_decide as Hq.
    + destruct Hq as [Hq _]. apply elem_of_list_to_map_1'.
      * by intros y [q' [[= _ ->] _]]%list_elem_of_fmap.
      * apply list_elem_of_fmap. by exists q.
    + apply not_elem_of_list_to_map_1. intros (kn & -> & [q' [-> Hq']]%list_elem_of_fmap)%list_elem_of_fmap. by apply Hq.
Qed.

Lemma elem_copies bad src dst d q n : (q, n) ∈ copies bad src dst d ↔
  ∃ r, q = dst ++ r ∧ d !! (src ++ r) = Some n ∧ existsb ignored r = false ∧
       match n with File _ => bad (src ++ r) = false | Dir => True end.
Proof.
  unfold copies. rewrite list_elem_of_omap. split.
  - intros ([k n'] & Hk%elem_of_map_to_list & Hs). cbn in Hs. case_decide as Hu; [|done]. destruct Hu as [r ->].
    rewrite drop_app_length in Hs. destruct (existsb ignored r) eqn:Hi; [done|].
    destruct n' as [|t]; [injection Hs as <- <-; by exists r|].
    destruct (bad (src ++ r)) eqn:Hb; [done|]. injection Hs as <- <-. by exists r.
  - intros (r & -> & Hd & Hi & Hn). exists (src ++ r, n). split; [by apply elem_of_map_to_list|]. cbn.
    rewrite decide_True by by exists r. rewrite drop_app_length, Hi. destruct n; [done|]. by rewrite Hn.
Qed.

Lemma copies_lookup bad src dst d q n : (list_to_map (copies bad src dst d) : disk) !! q = Some n ↔ (q, n) ∈ copies bad src dst d.
Proof.
  split; [apply elem_of_list_to_map_2|]. intros Hq. apply elem_of_list_to_map_1'; [|done]. intros n' Hn'.
  apply elem_copies in Hq as (r & -> & Hd & _), Hn' as (r' & Heq & Hd' & _). apply app_inv_head in Heq as <-. congruence.
Qed.

(** A copy: what is below the target is the source without what is ignored, and
    nothing else changes. *)
Lemma copytree_lookup bad src dst d d' : copytree bad src dst d = (Ok tt, d') →
  (∀ q, under (real dst) q → d !! q = None) →
  (∀ r, d' !! (real dst ++ r) = if existsb ignored r then None else d !! (real src ++ r)) ∧
  (∀ q, ¬ under (real dst) q → d' !! q = d !! q).
Proof.
  unfold copytree. destruct (d !! real src) as [[]|]; [|done..]. destruct (d !! real dst); [done|].
  destruct (has_unreadable _ _ _) eqn:Hb; [done|]. intros [= <-] Hfree. split.
  - intros r. rewrite lookup_union, (Hfree (real dst ++ r)), option_union_right_id by by exists r.
    destruct (list_to_map _ !! (real dst ++ r)) as [n|] eqn:El.
    + apply copies_lookup, elem_copies in El as (r' & Heq & Hd & Hi & _). apply app_inv_head in Heq as <-. by rewrite Hi.
    + destruct (existsb ignored r) eqn:Hi; [done|]. destruct (d !! (real src ++ r)) as [n|] eqn:Hd; [|done].
      assert ((real dst ++ r, n) ∈ copies bad (real src) (real dst) d) as Hin.
      { apply elem_copies. exists r. repeat split; try done. destruct n as [|t]; [done|].
        destruct (bad (real src ++ r)) eqn:Eb; [|done]. exfalso. revert Hb. apply not_false_iff_true, existsb_exists.
        exists (real src ++ r, File t). split; [by apply list_elem_of_In, elem_of_map_to_list|]. cbn.
        rewrite bool_decide_eq_true_2 by by exists r. by rewrite drop_app_length, Hi, Eb. }
      apply copies_lookup in Hin. congruence.
  - intros q Hq. rewrite lookup_union. destruct (list_to_map _ !! q) as [n|] eqn:El; [|by rewrite option_union_left_id].
    apply copies_lookup, elem_copies in El as (r & -> & _). destruct Hq. by exists r.
Qed.

(** A disk on which everything is in a directory. *)
Definition disk_ok d : Prop := ∀ p c, is_Some (d !! (p ++ [c])) → p = [] ∨ d !! p = Some Dir.

Lemma disk_ok_below d p r : disk_ok d → p ≠ [] → d !! p = None → d !! (p ++ r) = None.
Proof.
  intros Hd Hp Hn. induction r as [|c r IH] using rev_ind; [by rewrite app_nil_r|].
  destruct (d !! (p ++ r ++ [c])) as [n|] eqn:E; [|done]. exfalso. rewrite app_assoc in E.
  destruct (Hd (p ++ r) c) as [Hnil|Hdir]; [by eexists| |congruence]. by apply app_nil in Hnil as [? _].
Qed.

Section installing.
Context `{Unicode, PyRepr, Yaml, Paths, Sources}.

Definition target_of name (m : RecipeMetadata) : path :=
  path_join (community_path ++ place_of (md_type m) (md_runtime m)) name.

Definition new_info name (source_type source_url now : pystr) (m : RecipeMetadata) : InstalledRecipeInfo :=
  {| ir_name := JStr name; ir_source_type := JStr source_type; ir_source_url := JStr source_url;
     ir_version := md_version m; ir_installed_at := JStr now; ir_recipe_type := md_type m; ir_runtime := md_runtime m |}.

(** The steps of a successful installation: the target cleared, its parent made,
    the copy, the manifest. *)
Record installs (src : path) (no : option pystr) (st url now : pystr) s name s' (m : RecipeMetadata) (d1 d2 : disk) : Prop := {
  ins_checked : checked_metadata src (on_disk s) = Ok m;
  ins_name : chosen_name no m = Ok name;
  ins_clear : d1 = without (real (target_of name m)) (on_disk s) ∧ on_disk s !! real (target_of name m) = Some Dir ∨
              d1 = on_disk s ∧ on_disk s !! real (target_of name m) = None;
  ins_mkdir : make_dirs (community_path ++ place_of (md_type m) (md_runtime m)) d1 = Ok d2;
  ins_copy : copytree unreadable src (target_of name m) d2 = (Ok tt, on_disk s');
  ins_manifest : ∃ m0,
    (m0 = manifest_now s ∨ under (real (target_of name m)) manifest_path ∧ m0 = default empty_manifest (_manifest s)) ∧
    manifest_now s' = {| schema_version := schema_version m0;
                         installed := dset name (new_info name st url now m) (installed m0) |};
  ins_file : manifest_file s' = Some (Some (manifest_json (manifest_now s')));
}.

Lemma ins_kept_manifest src no st url now s name s' m d1 d2 : installs src no st url now s name s' m d1 d2 →
  ¬ under (real (target_of name m)) manifest_path →
  manifest_now s' = {| schema_version := schema_version (manifest_now s);
                       installed := dset name (new_info name st url now m) (installed (manifest_now s)) |}.
Proof. intros Hins Hn. destruct (ins_manifest _ _ _ _ _ _ _ _ _ _ _ Hins) as (m0 & [->|[? _]] & Hm); [exact Hm|done]. Qed.

Lemma disk_op_inv f s u s' : disk_op f s = (Ok u, s') → ∃ d, f (on_disk s) = Ok d ∧ s' = set_disk d s.
Proof. unfold disk_op. destruct (f (on_disk s)) as [d|] eqn:E; [|done]. intros [= _ <-]. by exists d. Qed.

Lemma install_dir_inv src st url force no now s name s' :
  _install_recipe_dir src st url force no now s = (Ok name, s') → ∃ m d1 d2, installs src no st url now s name s' m d1 d2.
Proof.
  unfold _install_recipe_dir. intros (? & ? & [= <- <-] & Hi)%M_bind_ok.
  apply M_bind_ok in Hi as (m & ? & [= Em <-] & Hi). apply M_bind_ok in Hi as (n & ? & [= En <-] & Hi).
  apply M_bind_ok in Hi as ([] & s1 & Hclear & Hi). apply M_bind_ok in Hi as ([] & s2 & Hmk & Hi).
  apply M_bind_ok in Hi as ([] & s3 & Hcopy & Hi). apply M_bind_ok in Hi as ([] & s4 & Hm & Hi).
  apply M_bind_ok in Hi as ([] & s5 & Hsave & [= <- <-]).
  apply disk_op_inv in Hmk as (d2 & Hd2 & ->). fold (target_of n m) in *.
  destruct (copytree _ _ _ _) as [r d3] eqn:Ec in Hcopy. injection Hcopy as -> <-. injection Hm as <-. injection Hsave as <-.
  assert (∃ d1, on_disk s1 = d1 ∧ _manifest s1 = _manifest s ∧
    (manifest_file s1 = manifest_file s ∨ under (real (target_of n m)) manifest_path ∧ manifest_file s1 = None) ∧
    (d1 = without (real (target_of n m)) (on_disk s) ∧ on_disk s !! real (target_of n m) = Some Dir ∨
     d1 = on_disk s ∧ on_disk s !! real (target_of n m) = None)) as (d1 & <- & Hc1 & Hf1 & Hd1).
  { unfold exists_at in Hclear. case_bool_decide as Hex.
    - destruct force; [|done]. unfold remove_tree in Hclear.
      cbn [negb] in Hclear. destruct (rmtree (target_of n m) (on_disk s)) as [d1|] eqn:Er in Hclear; [|done]. injection Hclear as <-. unfold rmtree in Er.
      destruct (on_disk s !! real (target_of n m)) as [[]|]; try done. injection Er as <-.
      eexists. split; [done|]. split; [done|]. split; [cbn; case_decide; auto|by left].
    - injection Hclear as <-. exists (on_disk s). split_and!; [done..|by left|]. right. split; [done|].
      by apply eq_None_not_Some. }
  exists m, (on_disk s1), d2. split; try done. exists (manifest_now s1). split; [|done]. unfold manifest_now at 1 3. rewrite Hc1.
  destruct Hf1 as [->|[Hu ->]]; [by left|by right].
Qed.

Definition parent_of (m : RecipeMetadata) : path := community_path ++ place_of (md_type m) (md_runtime m).

Definition manifest_dir : path := real (community_path ++ [§".installed"]).

(** The source and the target have nothing to do with each other, nor the target
    with the directory of the manifest. *)
Record apart (src : path) name (m : RecipeMetadata) : Prop := {
  apart_target : real (target_of name m) ≠ [];
  apart_below : ¬ under (real (target_of name m)) (real src);
  apart_above : ¬ under (real src) (real (target_of name m));
  apart_parent : ¬ under (real src) (real (parent_of m));
  apart_manifest : ¬ under (real (target_of name m)) manifest_path ∧
                   ¬ under manifest_dir (real (target_of name m));
}.

Section installed.
Context (src : path) (no : option pystr) (st url now name : pystr) (s s' : installer) (m : RecipeMetadata) (d1 d2 : disk).
Hypothesis Hins : installs src no st url now s name s' m d1 d2.
Hypothesis Hok : disk_ok (on_disk s).
Hypothesis Hapart : apart src name m.
Let dst := real (target_of name m).

Lemma cleared_lookup q : d1 !! q = if decide (under dst q) then None else on_disk s !! q.
Proof.
  destruct (ins_clear _ _ _ _ _ _ _ _ _ _ _ Hins) as [[-> _]|[-> Hn]]; [apply without_lookup|].
  case_decide as Hu; [|done]. destruct Hu as [r ->]. apply disk_ok_below; [done|apply Hapart|done].
Qed.

Lemma target_free : d2 !! dst = None.
Proof.
  pose proof (ins_copy _ _ _ _ _ _ _ _ _ _ _ Hins) as Hc. unfold copytree in Hc. fold dst in Hc.
  destruct (d2 !! real src) as [[]|]; try done. by destruct (d2 !! dst).
Qed.

Lemma parent_lookup q : d2 !! q = if decide (q ∈ prefixes (real (parent_of m)) ∧ d1 !! q = None) then Some Dir else d1 !! q.
Proof. apply make_dirs_lookup, Hins. Qed.

Lemma parent_outside q : q ∈ prefixes (real (parent_of m)) → ¬ under dst q.
Proof.
  intros [_ Hq]%elem_prefixes Hu. pose proof target_free as Hf. rewrite parent_lookup, cleared_lookup in Hf.
  rewrite (decide_True (P := under dst dst)) in Hf by (by exists []; rewrite app_nil_r).
  rewrite decide_True in Hf; [done|]. split; [|done]. apply elem_prefixes. split; [apply Hapart|]. by etrans.
Qed.

Lemma installed_lookup :
  (∀ r, on_disk s' !! (dst ++ r) = if existsb ignored r then None else on_disk s !! (real src ++ r)) ∧
  (∀ q, ¬ under dst q → on_disk s' !! q = on_disk s !! q ∨
     on_disk s !! q = None ∧ on_disk s' !! q = Some Dir ∧ q ∈ prefixes (real (parent_of m))).
Proof.
  destruct (copytree_lookup _ _ _ _ _ (ins_copy _ _ _ _ _ _ _ _ _ _ _ Hins)) as [Hin Hout].
  { intros q Hq. rewrite parent_lookup, cleared_lookup, (decide_True (P := under dst q)) by done.
    rewrite decide_False; [done|]. intros [Hp _]. by apply (parent_outside q). }
  split.
  - intros r. fold dst in Hin. rewrite Hin. destruct (existsb ignored r); [done|].
    rewrite parent_lookup, cleared_lookup, (decide_False (P := under dst _)).
    + rewrite decide_False; [done|]. intros [[_ Hp]%elem_prefixes _]. apply (apart_parent _ _ _ Hapart).
      unfold under. etrans; [|exact Hp]. by exists r.
    + intros Hu. destruct (prefix_weak_total dst (real src) (real src ++ r)) as [Hd|Hd]; [done|by exists r|..];
        [by apply (apart_below _ _ _ Hapart)|by apply (apart_above _ _ _ Hapart)].
  - intros q Hq. rewrite (Hout q Hq), parent_lookup, cleared_lookup, (decide_False (P := under dst q)) by done.
    case_decide as Hp; [|by left]. right. by destruct Hp.
Qed.

Lemma target_made : on_disk s' !! dst = Some Dir.
Proof.
  destruct installed_lookup as [Hin _]. specialize (Hin []). rewrite !app_nil_r in Hin. rewrite Hin. cbn [existsb].
  pose proof (ins_copy _ _ _ _ _ _ _ _ _ _ _ Hins) as Hc. unfold copytree in Hc.
  destruct (d2 !! real src) as [[]|] eqn:Es; try done. rewrite parent_lookup, cleared_lookup in Es.
  rewrite (decide_False (P := under dst _)) in Es by apply Hapart. case_decide as Hp; [|done].
  destruct Hp as [[_ Hp]%elem_prefixes _]. by destruct (apart_parent _ _ _ Hapart).
Qed.
End installed.
End installing.

Lemma info_roundtrip i : info_from_dict (JObj (info_to_dict i)) = Ok i.
Proof. by destruct i. Qed.

Lemma manifest_roundtrip m : load_manifest (Some (Some (manifest_json m))) = m.
Proof.
  unfold load_manifest.
  transitivity (match (l ← manifest_entries (map (λ ni, (ni.1, JObj (info_to_dict ni.2))) (installed m));
                       Ok {| schema_version := schema_version m; installed := l |}) with
                | Ok m => m | Raise _ => empty_manifest end); [reflexivity|].
  assert (manifest_entries (map (λ ni, (ni.1, JObj (info_to_dict ni.2))) (installed m)) = Ok (installed m)) as ->; [|by destruct m].
  unfold manifest_entries. induction (installed m) as [|[n i] l IH]; [done|].
  cbn [map map_res fst snd]. unfold mbind, res_bind in *. by rewrite info_roundtrip, IH.
Qed.

Section results.
Context `{Unicode, PyRepr, Yaml, Paths, Sources}.

(** C27. A recipe that installs, from a directory apart from the target and at a place
    apart from the manifest's directory ([apart]), is there, whole, and nothing else
    moves. Below the target lie exactly the files of the source that are not ignored, with their
    contents; outside it nothing changes but directories made on the way to it;
    the manifest holds the recipe's entry besides the others as they were, and a
    new installer reads that same manifest back. *)
Theorem installed_whole src st url force no now s name s' m :
  _install_recipe_dir src st url force no now s = (Ok name, s') →
  checked_metadata src (on_disk s) = Ok m → disk_ok (on_disk s) → apart src name m →
  let dst := real (target_of name m) in
  (∀ r, on_disk s' !! (dst ++ r) = if existsb ignored r then None else on_disk s !! (real src ++ r)) ∧
  (∀ q, ¬ under dst q → on_disk s' !! q = on_disk s !! q ∨
     on_disk s !! q = None ∧ on_disk s' !! q = Some Dir ∧ q ∈ prefixes (real (parent_of m))) ∧
  (∀ n, dget n (installed (manifest_now s')) =
     if decide (n = name) then Some (new_info name st url now m) else dget n (installed (manifest_now s))) ∧
  manifest_now (new_installer (on_disk s') (manifest_file s')) = manifest_now s'.
Proof.
  intros Hi Hm Hok Ha dst. destruct (install_dir_inv _ _ _ _ _ _ _ _ _ Hi) as (m' & d1 & d2 & Hins).
  pose proof (ins_checked _ _ _ _ _ _ _ _ _ _ _ Hins) as Hm'. rewrite Hm in Hm'. injection Hm' as <-.
  destruct (installed_lookup _ _ _ _ _ _ _ _ _ _ _ Hins Hok Ha) as [H1' H2']. split; [exact H1'|]. split; [exact H2'|]. split.
  - intros n. rewrite (ins_kept_manifest _ _ _ _ _ _ _ _ _ _ _ Hins) by apply Ha. cbn.
    case_decide as Hn; [subst; apply dget_dset_eq|by apply dget_dset_ne].
  - unfold manifest_now at 1. cbn. rewrite (ins_file _ _ _ _ _ _ _ _ _ _ _ Hins). apply manifest_roundtrip.
Qed.

(** *** Removal *)

Definition dir_of name (i : InstalledRecipeInfo) : path :=
  path_join (community_path ++ place_of (ir_recipe_type i) (ir_runtime i)) name.

Lemma uninstall_run name i s : dget name (installed (manifest_now s)) = Some i →
  on_disk s !! real (dir_of name i) = Some Dir →
  ∃ s', uninstall name s = (Ok true, s') ∧ on_disk s' = without (real (dir_of name i)) (on_disk s) ∧
    manifest_now s' = {| schema_version := schema_version (manifest_now s); installed := ddel name (installed (manifest_now s)) |}.
Proof.
  intros Hi Hd. unfold uninstall, mbind at 1, M_bind at 1, manifest at 1. unfold mbind at 1, M_bind at 1, get_st. rewrite Hi.
  fold (dir_of name i). cbn [cached on_disk]. unfold exists_at. rewrite bool_decide_eq_true_2 by by rewrite Hd.
  unfold mbind at 1, M_bind at 1, remove_tree, rmtree. cbn [cached on_disk]. rewrite Hd.
  assert (dmem name (installed (manifest_now s)) = true) as -> by (unfold dmem; by rewrite Hi). by eexists.
Qed.

(** C38. Removing a recipe undoes its installation.  Take a successful installation at
    a place apart from its source and from the manifest's directory ([apart]).  Removing
    the recipe by its name then succeeds and leaves nothing at its place; everywhere else
    every file is as it was before the installation, the only thing left are directories
    made on the way; the manifest has no entry of it and the other entries as they were.
    So if nothing was at that place before, every file of the disk is as it was.  (What
    an installation by force replaced is not brought back.) *)
Theorem uninstall_restores src st url force no now s name s' m :
  _install_recipe_dir src st url force no now s = (Ok name, s') →
  checked_metadata src (on_disk s) = Ok m → disk_ok (on_disk s) → apart src name m →
  dict_wf (installed (manifest_now s)) →
  let dst := real (target_of name m) in
  let as_before d := ∀ q, d !! q = on_disk s !! q ∨
    on_disk s !! q = None ∧ d !! q = Some Dir ∧ q ∈ prefixes (real (parent_of m)) in
  ∃ s'', uninstall name s' = (Ok true, s'') ∧
    (∀ q, under dst q → on_disk s'' !! q = None) ∧
    (∀ q, ¬ under dst q → on_disk s'' !! q = on_disk s !! q ∨
       on_disk s !! q = None ∧ on_disk s'' !! q = Some Dir ∧ q ∈ prefixes (real (parent_of m))) ∧
    (on_disk s !! dst = None → as_before (on_disk s'')) ∧
    (∀ n, dget n (installed (manifest_now s'')) = if decide (n = name) then None else dget n (installed (manifest_now s))).
Proof.
  intros Hi Hm Hok Ha Hwf dst as_before. destruct (install_dir_inv _ _ _ _ _ _ _ _ _ Hi) as (m' & d1 & d2 & Hins).
  pose proof (ins_checked _ _ _ _ _ _ _ _ _ _ _ Hins) as Hm'. rewrite Hm in Hm'. injection Hm' as <-.
  destruct (installed_lookup _ _ _ _ _ _ _ _ _ _ _ Hins Hok Ha) as [Hin Hout]. fold dst in Hin, Hout.
  pose proof (ins_kept_manifest _ _ _ _ _ _ _ _ _ _ _ Hins (proj1 (apart_manifest _ _ _ Ha))) as Hman.
  pose proof (target_made _ _ _ _ _ _ _ _ _ _ _ Hins Hok Ha) as Hd.
  destruct (uninstall_run name (new_info name st url now m) s') as (s'' & Hu & Hdisk & Hm'');
    [rewrite Hman; apply dget_dset_eq|done|]. change (real (dir_of _ _)) with dst in Hdisk.
  assert (∀ q, under dst q → on_disk s'' !! q = None) as Hgone by (intros q Hq; by rewrite Hdisk, without_lookup, decide_True).
  assert (∀ q, ¬ under dst q → on_disk s'' !! q = on_disk s !! q ∨
     on_disk s !! q = None ∧ on_disk s'' !! q = Some Dir ∧ q ∈ prefixes (real (parent_of m))) as Helse.
  { intros q Hq. rewrite Hdisk, without_lookup, decide_False by done. by apply Hout. }
  exists s''. split_and!; [done..| |].
  - intros Hn q. destruct (decide (under dst q)) as [Hq|Hq]; [|by apply Helse]. left. rewrite Hgone by done.
    destruct Hq as [r ->]. symmetry. apply disk_ok_below; [done|apply Ha|done].
  - intros n. rewrite Hm'', Hman. cbn. case_decide as Hne; [subst; by apply dget_ddel_eq, dset_wf|].
    rewrite dget_ddel_ne, dget_dset_ne by done. done.
Qed.
End results.

Section mistakes.
Context `{Unicode, PyRepr, Yaml, Paths, Sources}.

(** Installing a recipe over itself destroys it: with [force], from a directory
    that lies in the target (as when the path of the installed recipe is given),
    the target is removed before it is read; the installation fails, nothing is
    left of the recipe, and the manifest still lists it. *)
Theorem reinstall_in_place_destroys src st url no now s m name :
  checked_metadata src (on_disk s) = Ok m → chosen_name no m = Ok name →
  let dst := real (target_of name m) in
  under dst (real src) → on_disk s !! dst = Some Dir → ¬ under dst (real (parent_of m)) →
  ¬ under dst manifest_path →
  ∃ s', _install_recipe_dir src st url true no now s = (Raise OSError, s') ∧
    (∀ q, under dst q → on_disk s' !! q = None) ∧ manifest_now s' = manifest_now s.
Proof.
  intros Hm Hn dst Hsrc Hd Hpar Hman. unfold _install_recipe_dir, mbind at 1, M_bind at 1, get_st, lift_res.
  rewrite Hm. unfold mbind at 1, M_bind at 1. rewrite Hn. unfold mbind at 1, M_bind at 1. fold (target_of name m) (parent_of m).
  unfold mbind at 1, M_bind at 1. unfold exists_at. fold dst. rewrite bool_decide_eq_true_2 by by rewrite Hd. cbn [negb].
  unfold remove_tree, rmtree. fold dst. rewrite Hd, (decide_False (P := under dst manifest_path)) by done. unfold mbind at 1, M_bind at 1, disk_op. cbn [set_disk on_disk].
  destruct (make_dirs (parent_of m) (without dst (on_disk s))) as [d2|e] eqn:Ed.
  - assert (∀ q, under dst q → d2 !! q = None) as Hfree.
    { intros q Hq. rewrite (make_dirs_lookup _ _ _ _ Ed), without_lookup, (decide_True (P := under dst q)) by done.
      rewrite decide_False; [done|]. intros [[_ Hp]%elem_prefixes _]. destruct Hpar. by etrans. }
    unfold mbind at 1, M_bind at 1, copytree. cbn [set_disk on_disk]. rewrite (Hfree _ Hsrc). by eexists.
  - unfold make_dirs in Ed. destruct (existsb _ _); [|done]. injection Ed as <-. eexists. split; [done|]. split; [|done].
    intros q Hq. cbn. by rewrite without_lookup, decide_True.
Qed.

(** A blank name removes a whole category: [uninstall] of the empty name, or of
    a name made of dots and slashes only, finds the directory of all browser
    recipes and removes it, reporting success. *)
Theorem uninstall_blank_wipes name s :
  components name = [] → starts_with (§"/") name = false → dget name (installed (manifest_now s)) = None →
  on_disk s !! real (community_path ++ ATOMIC_CHROME) = Some Dir →
  ∃ s', uninstall name s = (Ok true, s') ∧ on_disk s' = without (real (community_path ++ ATOMIC_CHROME)) (on_disk s).
Proof.
  intros Hc Hs Hn Hd. unfold uninstall, mbind at 1, M_bind at 1, manifest at 1. unfold mbind at 1, M_bind at 1, get_st. rewrite Hn.
  assert (∀ p, path_join p name = p) as Hp by (intros p; unfold path_join; by rewrite Hs, Hc, app_nil_r).
  assert (_find_installed_recipe name (on_disk s) = Some (community_path ++ ATOMIC_CHROME)) as Hf.
  { unfold _find_installed_recipe. cbn [map list_find]. rewrite !Hp.
    rewrite decide_True; [done|]. unfold exists_at. by rewrite bool_decide_eq_true_2 by by rewrite Hd. }
  cbn [cached on_disk]. rewrite Hf. unfold exists_at. rewrite bool_decide_eq_true_2 by by rewrite Hd.
  unfold mbind at 1, M_bind at 1, remove_tree, rmtree. cbn [cached on_disk]. rewrite Hd.
  assert (dmem name (installed (manifest_now s)) = false) as -> by (unfold dmem; by rewrite Hn). by eexists.
Qed.

(** A manifest that cannot be read is taken for an empty one and written over:
    after the next installation only that recipe is on record. *)
Theorem unreadable_manifest_forgotten src st url force no now d name s' :
  _install_recipe_dir src st url force no now (new_installer d (Some None)) = (Ok name, s') →
  dkeys (installed (load_manifest (manifest_file s'))) = [name].
Proof.
  intros (m & d1 & d2 & Hins)%install_dir_inv. rewrite (ins_file _ _ _ _ _ _ _ _ _ _ _ Hins), manifest_roundtrip.
  destruct (ins_manifest _ _ _ _ _ _ _ _ _ _ _ Hins) as (m0 & Hm0 & ->). by destruct Hm0 as [->|[_ ->]].
Qed.
End mistakes.

(** ** Updates *)

(** A component as [components] leaves it. *)
Definition plain_component (c : pystr) : Prop := c ≠ [] ∧ c ≠ §"." ∧ 47%N ∉ c.

Lemma split_path c p : 47%N ∉ c → Forall (λ c, 47%N ∉ c) p →
  split_on 47 (c ++ concat (map (λ c, 47%N :: c) p)) = c :: p.
Proof.
  revert c. induction p as [|c' p IH]; intros c Hc Hp; cbn; [rewrite app_nil_r; by apply split_on_last|].
  apply Forall_cons in Hp as [Hc' Hp]. rewrite split_on_cons by done. by rewrite IH.
Qed.

Lemma components_path p : Forall plain_component p → components (path_str p) = p.
Proof.
  intros Hp. unfold components. assert (split_on 47 (path_str p) = [] :: p ∨ p = []) as [->| ->].
  - destruct p as [|c p]; [by right|left]. cbn [path_str]. apply (split_path []); [by intros []%elem_of_nil|].
    eapply Forall_impl; [exact Hp|]. by intros ? (_ & _ & ?).
  - rewrite filter_cons, decide_False by (intros [? _]; done). induction Hp as [|c p (H1 & H2 & _) _ IH]; [done|].
    by rewrite filter_cons, decide_True, IH.
  - done.
Qed.

Section updates.
Context `{Unicode, PyRepr, Yaml, Paths, Sources}.

(** The source recorded for a local directory leads back to it. *)
Lemma install_recorded p force no now s : Forall plain_component p →
  install (path_str p) force no now s =
  if exists_at p (on_disk s) then _install_recipe_dir p (§"local_path") (path_str p) force no now s else (Raise RecipeInstallError, s).
Proof.
  intros Hp. unfold install. assert (starts_with (§"community:") (path_str p) = false) as -> by by destruct p as [|[|]].
  assert (path_join cwd (path_str p) = p) as ->.
  { unfold path_join. assert (starts_with (§"/") (path_str p) = true) as -> by by destruct p. by apply components_path. }
  unfold mbind, M_bind, get_st. destruct (exists_at p (on_disk s)) eqn:Ex; [|done].
  unfold _install_from_local_path, mbind, M_bind, get_st. by rewrite Ex.
Qed.

(** An update forgets the name a recipe was given: a recipe installed from a
    directory under another name than its description has is updated under the
    description's name. The update reports success, the given name keeps its old
    entry and every file of it stays as it was, and a recipe of the description's
    name is replaced, whatever it was. *)
Theorem update_forgets_name n p i m n' now s r s' :
  dget n (installed (manifest_now s)) = Some i → ir_source_url i = JStr (path_str p) → Forall plain_component p →
  checked_metadata p (on_disk s) = Ok m → md_name m = JStr n' → n ≠ n' →
  disk_ok (on_disk s) → apart p n' m →
  update n now s = (Ok r, s') →
  let dst := real (target_of n' m) in
  r = n' ∧ dget n (installed (manifest_now s')) = Some i ∧
  (∀ q t, ¬ under dst q → on_disk s' !! q = Some (File t) ↔ on_disk s !! q = Some (File t)) ∧
  (∀ c, on_disk s' !! (dst ++ [c]) = if ignored c then None else on_disk s !! (real p ++ [c])).
Proof.
  intros Hi Hu Hp Hm Hn Hne Hok Ha Hup dst. revert Hup. unfold update, mbind, M_bind, manifest. rewrite Hi, Hu.
  rewrite install_recorded by done. cbn [cached on_disk]. destruct (exists_at p (on_disk s)); [|done].
  intros (m' & d1 & d2 & Hins)%install_dir_inv.
  pose proof (ins_checked _ _ _ _ _ _ _ _ _ _ _ Hins) as Hm'. cbn [cached on_disk] in Hm'. rewrite Hm in Hm'. injection Hm' as <-.
  pose proof (ins_name _ _ _ _ _ _ _ _ _ _ _ Hins) as Hr. unfold chosen_name in Hr. rewrite Hn in Hr. injection Hr as <-.
  split; [done|]. destruct (installed_lookup _ _ _ _ _ _ _ _ _ _ _ Hins Hok Ha) as [Hin Hout]. cbn [cached on_disk] in Hin, Hout.
  split; [rewrite (ins_kept_manifest _ _ _ _ _ _ _ _ _ _ _ Hins) by apply Ha; cbn; by rewrite dget_dset_ne|]. split.
  - intros q t Hq. destruct (Hout q Hq) as [->|(-> & -> & _)]; [done|]. split; congruence.
  - intros c. specialize (Hin [c]). cbn [existsb] in Hin. by rewrite orb_false_r in Hin.
Qed.
End updates.

(** ** What the registry makes of it *)

Definition files_in p d : list pystr :=
  omap (λ kn, if decide (under p kn.1) then
                match drop (length p) kn.1, kn.2 with [c], File _ => Some c | _, _ => None end
              else None) (map_to_list d).

(** A directory as the scan of the registry sees it. *)
Definition folder_at p name d : folder :=
  {| fo_name := name; fo_is_dir := bool_decide (d !! p = Some Dir); fo_mtime := None;
     fo_md := match d !! (p ++ [§"recipe.md"]) with
              | Some (File t) => Some {| mf_text := Some t; mf_mtime := None |}
              | Some Dir => Some {| mf_text := None; mf_mtime := None |}
              | None => None
              end;
     fo_files := files_in p d |}.

Lemma elem_files_in p d c : c ∈ files_in p d ↔ ∃ t, d !! (p ++ [c]) = Some (File t).
Proof.
  unfold files_in. rewrite list_elem_of_omap. split.
  - intros ([q n] & Hq%elem_of_map_to_list & Hs). cbn in Hs. case_decide as Hu; [|done]. destruct Hu as [r ->].
    rewrite drop_app_length in Hs. destruct r as [|c' [|]]; try done. destruct n as [|t]; [done|]. injection Hs as ->. eauto.
  - intros [t Ht]. exists (p ++ [c], File t). split; [by apply elem_of_map_to_list|]. cbn.
    rewrite decide_True by by exists [c]. by rewrite drop_app_length.
Qed.

Lemma real_from_snoc above p c : c ≠ §".." → real_from above (p ++ [c]) = real_from above p ++ [c].
Proof.
  intros Hc. revert above. induction p as [|c' p IH]; intros above; cbn [app real_from]; [by rewrite decide_False|]. apply IH.
Qed.
Lemma real_snoc p c : c ≠ §".." → real (p ++ [c]) = real p ++ [c].
Proof. apply real_from_snoc. Qed.

Section seen.
Context `{Unicode, PyRepr, Yaml, Paths, Sources}.

(** The script a description asks for. *)
Definition script_of (m : RecipeMetadata) : option pystr :=
  if str_is (§"chrome-js") (md_runtime m) then Some (§"recipe.js")
  else if str_is (§"python") (md_runtime m) then Some (§"recipe.py")
  else if str_is (§"shell") (md_runtime m) then Some (§"recipe.sh") else None.

Lemma find_script m f dir files : script_of m = Some f → f ∈ files →
  _find_script_file dir files (md_runtime m) = Some (dir ++ [f]).
Proof.
  unfold script_of, _find_script_file. intros Hs Hf. repeat case_match; simplify_eq/=; try done;
    by rewrite ?decide_True in * by done.
Qed.

Lemma script_kept m f : script_of m = Some f → ignored f = false.
Proof. unfold script_of. repeat case_match; intros; simplify_eq; vm_compute; done. Qed.

Lemma checked_inv src d m : checked_metadata src d = Ok m →
  ∃ t, d !! (real src ++ [§"recipe.md"]) = Some (File t) ∧ parse_metadata_file (Some t) = Ok m ∧ validate_metadata m = Ok tt.
Proof.
  unfold checked_metadata, mbind, res_bind. destruct (negb _); [done|]. unfold text_at. rewrite real_snoc by done.
  destruct (parse_metadata_file _) as [m'|] eqn:Ep; [|done]. destruct (validate_metadata m') as [[]|] eqn:Ev; [|done].
  intros [= ->]. destruct (d !! _) as [[|t]|]; [discriminate Ep| |discriminate Ep]. by exists t.
Qed.

(** A recipe installed under a name of the user's choice is not found by that
    name: the registry takes the name from the description. The installation
    reports the chosen name, the directory bears it and is complete - description
    and script - but what the registry registers for it is the description's name,
    and with only that recipe on record a lookup of the chosen name fails. *)
Theorem chosen_name_not_found src st url force n n' now s s' m f t g label :
  _install_recipe_dir src st url force (Some n) now s = (Ok n, s') →
  checked_metadata src (on_disk s) = Ok m → md_name m = JStr n' → n ≠ n' →
  script_of m = Some f → on_disk s !! (real src ++ [f]) = Some (File t) →
  disk_ok (on_disk s) → apart src n m →
  let dir := real (target_of n m) in
  let fo := folder_at dir n (on_disk s') in
  ∃ md r, fo_is_dir fo = true ∧ fo_md fo = Some md ∧ recipe_of label dir fo md = Some r ∧ name_of_recipe r = n' ∧
    Registry.find (set_recipes g (add_recipe r [])) n None = Raise RecipeNotFoundError.
Proof.
  intros Hi Hm Hn Hne Hf Ht Hok Ha dir fo. destruct (install_dir_inv _ _ _ _ _ _ _ _ _ Hi) as (m' & d1 & d2 & Hins).
  pose proof (ins_checked _ _ _ _ _ _ _ _ _ _ _ Hins) as Hm'. rewrite Hm in Hm'. injection Hm' as <-.
  destruct (installed_lookup _ _ _ _ _ _ _ _ _ _ _ Hins Hok Ha) as [Hin _]. fold dir in Hin.
  pose proof (target_made _ _ _ _ _ _ _ _ _ _ _ Hins Hok Ha) as Hd. fold dir in Hd.
  destruct (checked_inv _ _ _ Hm) as (text & Htext & Hp & Hv).
  pose proof (Hin [§"recipe.md"]) as Hmd. rewrite Htext in Hmd. change (existsb ignored _) with false in Hmd.
  pose proof (Hin [f]) as Hscript. cbn [existsb] in Hscript. rewrite (script_kept _ _ Hf), Ht in Hscript. cbn in Hscript.
  exists {| mf_text := Some text; mf_mtime := None |},
    {| metadata := m; script_path := dir ++ [f]; metadata_path := dir ++ [§"recipe.md"]; source := label; base := dir |}.
  split; [by apply bool_decide_eq_true|]. split; [cbn; by rewrite Hmd|]. split; [|split; [by unfold name_of_recipe; cbn; rewrite Hn|]].
  - unfold recipe_of. cbn [mf_text]. rewrite Hp, Hv. cbn [fo fo_files folder_at].
    rewrite (find_script m f) by (done || (apply elem_files_in; eauto)). done.
  - unfold Registry.find, add_recipe, name_of_recipe. cbn. rewrite Hn. by rewrite decide_False.
Qed.
End seen.

(** ** The server's guard (server/services/community_recipe_service.py) *)

(** Each request makes a new installer. *)
Record community := { c_disk : disk; c_manifest : option (option json); _cache : option (list jdict) }.

Definition run_installer {A} (f : M installer A) (c : community) : res A * community :=
  let (r, s) := f (new_installer (c_disk c) (c_manifest c)) in
  (r, {| c_disk := on_disk s; c_manifest := manifest_file s; _cache := _cache c |}).
Definition drop_cache (c : community) : community :=
  {| c_disk := c_disk c; c_manifest := c_manifest c; _cache := None |}.

(** [a > b] on tuples. *)
Fixpoint tuple_gt (a b : list Z) : bool :=
  match a, b with
  | [], _ => false
  | _ :: _, [] => true
  | x :: a, y :: b => if (x =? y)%Z then tuple_gt a b else (y <? x)%Z
  end.

Section guard.
Context `{Unicode, PyRepr, Yaml, Paths, Sources}.

Definition _parse_version (v : json) : list Z :=
  match v with
  | JStr t => match mapM int_of_str (split_on 46 (strip t)) with Some l => l | None => [0%Z] end
  | _ => [0%Z]
  end.

Definition _read_disk_version (existing_path : pystr) d : json :=
  match parse_metadata_file (text_at (path_join cwd existing_path ++ [§"recipe.md"]) d) with
  | Ok m => md_version m
  | Raise _ => JStr (§"0")
  end.

Definition _get_community_version name (c : community) : json :=
  match list_find (λ r, str_is name (jget (§"name") r) && truthy (jget (§"version") r) = true) (default [] (_cache c)) with
  | Some (_, r) => jget (§"version") r
  | None => JStr (§"0")
  end.

Definition _should_protect_disk_version name (existing_path : pystr) (c : community) : bool :=
  tuple_gt (_parse_version (_read_disk_version existing_path (c_disk c))) (_parse_version (_get_community_version name c)).

(** The name installed, or nothing for an error. *)
Definition install_recipe name (force : bool) now (c : community) : option pystr * community :=
  match run_installer (install (§"community:" ++ name) force None now) c with
  | (Ok n, c) => (Some n, drop_cache c)
  | (Raise (RecipeAlreadyExistsError p), c) =>
      if _should_protect_disk_version name p c then (None, c)
      else match run_installer (install (§"community:" ++ name) true None now) c with
           | (Ok n, c) => (Some n, drop_cache c)
           | (Raise _, c) => (None, c)
           end
  | (Raise _, c) => (None, c)
  end.

Definition update_recipe name now (c : community) : option pystr * community :=
  match run_installer (update name now) c with
  | (Ok n, c) => (Some n, drop_cache c)
  | (Raise _, c) => (None, c)
  end.

Definition uninstall_recipe name (c : community) : option pystr * community :=
  match run_installer (uninstall name) c with
  | (Ok true, c) => (Some name, drop_cache c)
  | (_, c) => (None, c)
  end.

(** After a recipe was installed, the guard against overwriting a newer version
    refuses every reinstallation: the list of community recipes was dropped, so the
    repository's version counts as 0, and any recipe on disk whose version has a
    positive first number is taken for newer, however old it is. *)
Theorem guard_without_list_refuses name now c n c1 name2 now2 c2 (p : pystr) v x l :
  install_recipe name false now c = (Some n, c1) →
  run_installer (install (§"community:" ++ name2) false None now2) c1 = (Raise (RecipeAlreadyExistsError p), c2) →
  _read_disk_version p (c_disk c2) = JStr v → mapM int_of_str (split_on 46 (strip v)) = Some (x :: l) → (0 < x)%Z →
  install_recipe name2 false now2 c1 = (None, c2).
Proof.
  intros Hi Hr Hv Hp Hx. assert (_cache c1 = None) as Hc.
  { revert Hi. unfold install_recipe. repeat case_match; intros; simplify_eq; done. }
  unfold install_recipe. rewrite Hr. assert (_cache c2 = None) as Hc2.
  { revert Hr. unfold run_installer. destruct (install _ _ _ _ _). by intros [= _ <-]. }
  assert (_should_protect_disk_version name2 p c2 = true) as ->; [|done].
  unfold _should_protect_disk_version, _get_community_version. rewrite Hv, Hc2. unfold _parse_version at 1. rewrite Hp.
  change (_parse_version _) with [0%Z]. cbn. destruct (Z.eqb_spec x 0); [lia|]. by apply Z.ltb_lt.
Qed.
End guard.

(** ** Concrete runs *)

Module InstallerDemo.
#[local] Existing Instances ascii_db repr_mark posix_paths RegDemo.four_documents.

Definition repo : Sources :=
  {| cwd := []; temp_dir := [§"tmp"; §"x"]; unreadable _ := false;
     github n := if decide (n = §"c") then Listing [RFile (§"recipe.md") (Some (§"--- c ---")); RFile (§"recipe.py") (Some (§"new"))]
                 else NotFound |}.
#[local] Existing Instance repo.

Definition work : path := [§"home"; §"owner"; §"work"].
Definition on_machine (l : list (path * node)) : disk :=
  list_to_map (map (λ q, (q, Dir)) [[§"home"]; [§"home"; §"owner"]; work; [§"tmp"]; [§"tmp"; §"x"]] ++ l).

Definition recipe_at (p : path) (code : string) : list (path * node) :=
  [(p, Dir); (p ++ [§"recipe.md"], File (§"--- c ---")); (p ++ [§"recipe.py"], File (§code));
   (p ++ [§"__pycache__"], Dir); (p ++ [§"__pycache__"; §"x.pyc"], File (§"junk"))].
Definition source_dir : path := work ++ [§"mine"].
Definition machine : disk := on_machine (recipe_at source_dir "v1").

Lemma disk_ok_check d :
  forallb (λ kn, match kn.1 with
                 | [] => true
                 | _ => bool_decide (removelast kn.1 = []) || bool_decide (d !! removelast kn.1 = Some Dir)
                 end) (map_to_list d) = true → disk_ok d.
Proof.
  intros Hd p c [n Hn]. rewrite forallb_Forall_true, Forall_forall in Hd.
  specialize (Hd (p ++ [c], n) (proj2 (elem_of_map_to_list _ _ _) Hn)). cbn in Hd.
  destruct (p ++ [c]) eqn:E; [by destruct p|]. rewrite <- E, removelast_last in Hd.
  apply orb_true_iff in Hd as [Hd|Hd]; apply bool_decide_eq_true in Hd; auto.
Qed.

Definition fresh_installer : installer := new_installer machine None.
Definition c_meta : RecipeMetadata :=
  {| md_name := JStr (§"c"); md_type := JStr (§"workflow"); md_runtime := JStr (§"python"); md_version := JStr (§"1.0");
     md_description := JStr (§"demo"); md_use_cases := JArr [JStr (§"demo")]; md_output_targets := JArr [JStr (§"stdout")];
     md_inputs := JObj []; md_outputs := JObj []; md_dependencies := JNull; md_tags := JArr []; md_secrets := JObj [];
     md_system_packages := JBool false; md_no_proxy := JBool false; md_daemon := JBool false;
     md_restart_policy := JStr (§"on-failure"); md_warnings := JArr []; md_flow := JArr []; md_ui_from := JNull;
     md_created_at := None; md_updated_at := None |}.

Definition today : pystr := §"2026-01-05".
Abbreviation add src force no s :=
  (_install_recipe_dir src (§"local_path") (path_str src) force no today s).
Definition with_c : installer := (add source_dir false None fresh_installer).2.
Definition c_dir : path := community_path ++ [§"workflows"; §"c"].

Lemma machine_ok : disk_ok machine.
Proof. apply disk_ok_check. vm_compute. reflexivity. Qed.
Lemma source_apart n : n ∈ [§"c"; §"mine"] → apart source_dir n c_meta.
Proof. intros Hn. apply elem_of_cons in Hn as [->|[->|[]%elem_of_nil]%elem_of_cons]; split; apply (bool_decide_unpack _); vm_compute; exact I. Qed.

(** Evaluation. Of an operation only the result is evaluated: the state it leaves
    is named by the operation itself. *)
Lemma ends_with_result {S R : Type} (m : R * S) r : m.1 = r → m = (r, m.2).
Proof. intros <-. by destruct m. Qed.
Ltac run := match goal with |- _ = ?y => vm_cast_no_check (eq_refl y) end.
Ltac ran := match goal with |- ?m = (?r, _) => refine (ends_with_result m r _); run end.
Ltac holds := apply (bool_decide_unpack _); vm_cast_no_check I.

Lemma add_c : add source_dir false None fresh_installer = (Ok (§"c"), with_c).
Proof. ran. Qed.
Lemma c_described : checked_metadata source_dir machine = Ok c_meta.
Proof. run. Qed.

Lemma installed_whole_witness :
  on_disk with_c !! (real (target_of (§"c") c_meta) ++ [§"recipe.py"]) = on_disk fresh_installer !! (real source_dir ++ [§"recipe.py"]).
Proof.
  destruct (installed_whole source_dir (§"local_path") (path_str source_dir) false None today fresh_installer (§"c") with_c c_meta)
    as (Hin & _); [exact add_c|exact c_described|apply machine_ok|apply source_apart; by left|].
  exact (Hin [§"recipe.py"]).
Defined.

Lemma uninstall_restores_witness : ∃ s, uninstall (§"c") with_c = (Ok true, s) ∧ dget (§"c") (installed (manifest_now s)) = None ∧
  ∀ q, on_disk s !! q = on_disk fresh_installer !! q ∨
    on_disk fresh_installer !! q = None ∧ on_disk s !! q = Some Dir ∧ q ∈ prefixes (real (parent_of c_meta)).
Proof.
  destruct (uninstall_restores source_dir (§"local_path") (path_str source_dir) false None today fresh_installer (§"c") with_c c_meta)
    as (s & Hu & _ & _ & Hall & Hm); [exact add_c|exact c_described|apply machine_ok|apply source_apart; by left|constructor|].
  exists s. split; [exact Hu|]. split; [exact (Hm (§"c"))|]. intros q. apply Hall. run.
Defined.

Lemma reinstall_in_place_destroys_witness :
  ∃ s, add c_dir true None with_c = (Raise OSError, s) ∧ on_disk s !! (real (target_of (§"c") c_meta) ++ [§"recipe.py"]) = None.
Proof.
  destruct (reinstall_in_place_destroys c_dir (§"local_path") (path_str c_dir) None today with_c c_meta (§"c"))
    as (s & Hs & Hgone & _); [run|run|holds|run|holds|holds|].
  exists s. split; [exact Hs|]. apply Hgone. by exists [§"recipe.py"].
Defined.

Definition chrome_dir : path := community_path ++ [§"atomic"; §"chrome"].
Definition browsing : installer :=
  new_installer (on_machine [(chrome_dir, Dir); (chrome_dir ++ [§"a"], Dir); (chrome_dir ++ [§"a"; §"recipe.js"], File (§"x"))]) None.

Lemma uninstall_blank_wipes_witness :
  ∃ s, uninstall (§".") browsing = (Ok true, s) ∧ on_disk s = without (real (community_path ++ ATOMIC_CHROME)) (on_disk browsing).
Proof. apply (uninstall_blank_wipes (§".") browsing); run. Defined.

Definition on_bad_manifest : installer := (add source_dir false None (new_installer machine (Some None))).2.
Lemma unreadable_manifest_forgotten_witness : dkeys (installed (load_manifest (manifest_file on_bad_manifest))) = [§"c"].
Proof.
  apply (unreadable_manifest_forgotten source_dir (§"local_path") (path_str source_dir) false None today machine). ran.
Defined.

(** Installed as [mine], and updated after the source has changed. *)
Definition as_mine : installer := (add source_dir false (Some (§"mine")) fresh_installer).2.
Definition edited : installer := set_disk (<[source_dir ++ [§"recipe.py"] := File (§"v2")]> (on_disk as_mine)) as_mine.
Definition mine_dir : path := community_path ++ [§"workflows"; §"mine"].
Definition updated : installer := (update (§"mine") today edited).2.

Lemma edited_ok : disk_ok (on_disk edited).
Proof. apply disk_ok_check. run. Qed.
Lemma source_plain : Forall plain_component source_dir.
Proof. repeat constructor; try discriminate; holds. Qed.

Lemma update_forgets_name_witness :
  update (§"mine") today edited = (Ok (§"c"), updated) ∧ on_disk updated !! (mine_dir ++ [§"recipe.py"]) = Some (File (§"v1")).
Proof.
  assert (update (§"mine") today edited = (Ok (§"c"), updated)) as Hu by ran. split; [exact Hu|].
  destruct (update_forgets_name (§"mine") source_dir (new_info (§"mine") (§"local_path") (path_str source_dir) today c_meta)
    c_meta (§"c") today edited (§"c") updated) as (_ & _ & Hfiles & _);
    [run|reflexivity|apply source_plain|run|reflexivity|discriminate|apply edited_ok|apply source_apart; by left|exact Hu|].
  apply Hfiles; [holds|run].
Defined.

Lemma chosen_name_not_found_witness : ∃ r,
  Registry.find (set_recipes (new_registry None []) (add_recipe r [])) (§"mine") None = Raise RecipeNotFoundError ∧ name_of_recipe r = §"c".
Proof.
  destruct (chosen_name_not_found source_dir (§"local_path") (path_str source_dir) false (§"mine") (§"c") today fresh_installer
    as_mine c_meta (§"recipe.py") (§"v1") (new_registry None []) (§"Community")) as (md & r & _ & _ & _ & Hn & Hf);
    [ran|exact c_described|reflexivity|discriminate|reflexivity|run|apply machine_ok|apply source_apart; right; by left|].
  by exists r.
Defined.

(** The repository's [c] was installed, and is asked for again. *)
Definition server : community :=
  {| c_disk := on_machine []; c_manifest := None; _cache := Some [[(§"name", JStr (§"c")); (§"version", JStr (§"1.0"))]] |}.
Definition after_first : community := (install_recipe (§"c") false today server).2.
Definition after_second : community := (run_installer (install (§"community:c") false None today) after_first).2.

Lemma guard_without_list_refuses_witness : install_recipe (§"c") false today after_first = (None, after_second).
Proof.
  apply (guard_without_list_refuses (§"c") today server (§"c") after_first (§"c") today after_second (path_str c_dir) (§"1.0") 1 [0%Z]);
    [ran|ran|run|run|lia].
Defined.

End InstallerDemo.
