(* ===== verification/TodoStore.v ===== *)
(** * The to-do store

    todo/store.py: one JSON file for each to-do, named after its day and a slug of
    its title; creation, lookup by unique prefix, editing and the sorted list.
    The slug is an interface.  A reference with a slash in it, which would leave
    the directory, is outside the model. *)

From Stdlib Require Import QArith Sorted.
From S2P Require Import Prelude PyStr Json Params ScheduleExec Metadata.
From stdpp Require Import prelude gmap list strings.

(** [slugify(title, max_length=32, word_boundary=True, save_order=True)]. *)
Class Slugify := slugify : pystr → pystr.

(** [date.today()]: as [%Y%m%d] and as an ISO date. *)
Record day := { compact : pystr; iso_date : pystr }.

Definition STATUSES : list pystr := [§"todo"; §"doing"; §"done"; §"dropped"].
Definition PRIORITIES : list pystr := [§"low"; §"normal"; §"high"].
Definition _ACTIVE : list pystr := [§"todo"; §"doing"].

(** The fields other than the id are whatever the file holds. *)
Record Todo := {
  td_id : pystr;
  td_title : json;
  td_summary : json;
  td_status : json;
  td_priority : json;
  td_tags : json;
  td_created : json;
  td_updated : json;
  td_done_at : json;
  td_context : json;
  td_steps : json;
  td_done_when : json;
  td_links : json;
}.

(** The directory: by stem, the document each [<stem>.json] parses to. *)
Abbreviation todo_dir := (dict pystr (option json)).

Definition asdict (t : Todo) : jdict :=
  [(§"id", JStr (td_id t)); (§"title", td_title t); (§"summary", td_summary t);
   (§"status", td_status t); (§"priority", td_priority t); (§"tags", td_tags t);
   (§"created", td_created t); (§"updated", td_updated t); (§"done_at", td_done_at t);
   (§"context", td_context t); (§"steps", td_steps t); (§"done_when", td_done_when t);
   (§"links", td_links t)].

Definition _write (t : Todo) : M todo_dir unit := modify (dset (td_id t) (Some (JObj (asdict t)))).

(** Unknown keys are dropped, missing ones take the defaults, the id is the
    file's name. *)
Definition _load_file (stem : pystr) (doc : option json) : res Todo :=
  match doc with
  | Some (JObj raw) =>
      let get k dflt := default dflt (dget k raw) in
      Ok {| td_id := stem; td_title := get (§"title") (JStr stem);
            td_summary := get (§"summary") JNull; td_status := get (§"status") (JStr (§"todo"));
            td_priority := get (§"priority") (JStr (§"normal")); td_tags := get (§"tags") (JArr []);
            td_created := get (§"created") (JStr []); td_updated := get (§"updated") (JStr []);
            td_done_at := get (§"done_at") JNull; td_context := get (§"context") JNull;
            td_steps := get (§"steps") (JArr []); td_done_when := get (§"done_when") (JArr []);
            td_links := get (§"links") (JArr []) |}
  | _ => Raise ValueError
  end.

Section store.
Context `{Unicode, Slugify}.
Implicit Types (d : todo_dir) (t : Todo) (ref : pystr).

(** ** Names *)

(** [f"{stem}-{n}"]. *)
Definition numbered (stem : pystr) (n : N) : pystr := stem ++ 45%N :: str_of_N n.

(** The loop of [_make_id] from a candidate on, for a number of rounds; [None]
    when they are used up. *)
Fixpoint free_name (fuel : nat) (stem candidate : pystr) (n : N) d : option pystr :=
  if dmem candidate d then
    match fuel with
    | O => None
    | S fuel => free_name fuel stem (numbered stem n) (n + 1) d
    end
  else Some candidate.

Definition id_stem (today : day) (title : pystr) : pystr :=
  match slugify title with [] => compact today | s => compact today ++ 45%N :: s end.

(** As many rounds as there are files are enough ([make_id_free]). *)
Definition _make_id (today : day) (title : pystr) d : option pystr :=
  free_name (length d) (id_stem today title) (id_stem today title) 2 d.

Definition prefixed ref d : list pystr := filter (λ s, starts_with ref s = true) (dkeys d).

Definition resolve_id ref d : res pystr :=
  if dmem ref d then Ok ref
  else match isort str_leb (prefixed ref d) with
       | [] => Raise KeyError
       | [s] => Ok s
       | _ => Raise ValueError
       end.

(** ** Operations *)

(** The arguments of [add] besides the title. *)
Record new_todo := {
  nt_summary : json; nt_priority : pystr; nt_status : pystr; nt_tags : list pystr;
  nt_context : json; nt_steps : list pystr; nt_done_when : list pystr; nt_links : list pystr;
}.

Definition todo_of (today : day) (i title : pystr) (n : new_todo) : Todo :=
  {| td_id := i; td_title := JStr (strip title); td_summary := nt_summary n;
     td_status := JStr (nt_status n); td_priority := JStr (nt_priority n);
     td_tags := JArr (map JStr (nt_tags n)); td_created := JStr (iso_date today);
     td_updated := JStr (iso_date today);
     td_done_at := if decide (nt_status n = §"done") then JStr (iso_date today) else JNull;
     td_context := nt_context n; td_steps := JArr (map JStr (nt_steps n));
     td_done_when := JArr (map JStr (nt_done_when n)); td_links := JArr (map JStr (nt_links n)) |}.

(** [None] would be a search for a name that does not end. *)
Definition add (today : day) (title : pystr) (n : new_todo) : M todo_dir (option Todo) := λ d,
  match strip title with
  | [] => (Raise ValueError, d)
  | _ =>
      if decide (nt_priority n ∉ PRIORITIES) then (Raise ValueError, d)
      else if decide (nt_status n ∉ STATUSES) then (Raise ValueError, d)
      else match _make_id today title d with
           | None => (Ok None, d)
           | Some i =>
               let t := todo_of today i title n in
               (_write t;; mret (Some t)) d
           end
  end.

Definition get ref d : res Todo :=
  i ← resolve_id ref d;
  _load_file i (default None (dget i d)).

(** [setattr(todo, key, value)] for an editable field; [None] for another. *)
Definition set_field (k : pystr) (v : json) t : option Todo :=
  let with_ title summary status priority tags context steps done_when links :=
    Some {| td_id := td_id t; td_title := title; td_summary := summary; td_status := status;
            td_priority := priority; td_tags := tags; td_created := td_created t;
            td_updated := td_updated t; td_done_at := td_done_at t; td_context := context;
            td_steps := steps; td_done_when := done_when; td_links := links |} in
  let '(title, summary, status, priority) := (td_title t, td_summary t, td_status t, td_priority t) in
  let '(tags, context, steps, done_when, links) :=
    (td_tags t, td_context t, td_steps t, td_done_when t, td_links t) in
  if decide (k = §"title") then with_ v summary status priority tags context steps done_when links
  else if decide (k = §"summary") then with_ title v status priority tags context steps done_when links
  else if decide (k = §"status") then with_ title summary v priority tags context steps done_when links
  else if decide (k = §"priority") then with_ title summary status v tags context steps done_when links
  else if decide (k = §"tags") then with_ title summary status priority v context steps done_when links
  else if decide (k = §"context") then with_ title summary status priority tags v steps done_when links
  else if decide (k = §"steps") then with_ title summary status priority tags context v done_when links
  else if decide (k = §"done_when") then with_ title summary status priority tags context steps v links
  else if decide (k = §"links") then with_ title summary status priority tags context steps done_when v
  else None.

Fixpoint apply_changes (changes : jdict) t : res Todo :=
  match changes with
  | [] => Ok t
  | (k, v) :: changes =>
      match v with
      | JNull => apply_changes changes t
      | _ =>
          match set_field k v t with
          | None => Raise ValueError
          | Some t' =>
              if decide (k = §"status") then
                if one_of STATUSES v then apply_changes changes t' else Raise ValueError
              else if decide (k = §"priority") then
                if one_of PRIORITIES v then apply_changes changes t' else Raise ValueError
              else apply_changes changes t'
          end
      end
  end.

Definition stamped (updated done_at : json) t : Todo :=
  {| td_id := td_id t; td_title := td_title t; td_summary := td_summary t;
     td_status := td_status t; td_priority := td_priority t; td_tags := td_tags t;
     td_created := td_created t; td_updated := updated; td_done_at := done_at;
     td_context := td_context t; td_steps := td_steps t; td_done_when := td_done_when t;
     td_links := td_links t |}.

Definition update (today : day) ref (changes : jdict) : M todo_dir Todo :=
  d ← get_st;
  t ← lift_res (get ref d);
  t ← lift_res (apply_changes changes t);
  let done_at := if str_is (§"done") (jget (§"status") changes) && negb (truthy (td_done_at t))
                 then JStr (iso_date today) else td_done_at t in
  let t := stamped (JStr (iso_date today)) done_at t in
  _write t;;
  mret t.

Definition mark_done (today : day) ref : M todo_dir Todo :=
  d ← get_st;
  t ← lift_res (get ref d);
  if str_is (§"done") (td_status t) then mret t
  else match set_field (§"status") (JStr (§"done")) t with
       | None => mret t
       | Some t =>
           let t := stamped (JStr (iso_date today)) (JStr (iso_date today)) t in
           _write t;;
           mret t
       end.

Definition remove ref : M todo_dir pystr :=
  d ← get_st;
  i ← lift_res (resolve_id ref d);
  modify (ddel i);;
  mret i.

(** ** The list *)

(** [_PRIORITY_ORDER.get(priority, 1)]; a list or object cannot be looked up. *)
Definition prio_order (v : json) : res nat :=
  match v with
  | JArr _ | JObj _ => Raise TypeError
  | _ => Ok (if str_is (§"high") v then 0 else if str_is (§"low") v then 2 else 1)
  end.

(** The [created] of a to-do as the sort compares it: two strings, two numbers,
    or nothing at all compare; anything else does not. *)
Inductive created_key := KStr (s : pystr) | KNum (q : Q) | KNull.
Definition key_of (v : json) : option created_key :=
  match v with
  | JStr s => Some (KStr s)
  | JNull => Some KNull
  | _ => KNum <$> number_of v
  end.
Definition same_kind (a b : option created_key) : bool :=
  match a, b with
  | Some (KStr _), Some (KStr _) | Some (KNum _), Some (KNum _) | Some KNull, Some KNull => true
  | _, _ => false
  end.

(** A to-do with its sort key. *)
Abbreviation keyed := (nat * option created_key * Todo)%type.
Definition keyed_of t : res keyed :=
  p ← prio_order (td_priority t); Ok (p, key_of (td_created t), t).

Definition clash (a b : keyed) : bool := Nat.eqb a.1.1 b.1.1 && negb (same_kind a.1.2 b.1.2).
Fixpoint clashes (l : list keyed) : bool :=
  match l with [] => false | a :: l => existsb (clash a) l || clashes l end.

(** The order of the tuples [(priority, created, id)].  Keys of two kinds, which
    the sort never gets to, are put by kind. *)
Definition kind_rank (a : option created_key) : nat :=
  match a with Some (KStr _) => 0 | Some (KNum _) => 1 | Some KNull => 2 | None => 3 end.
Definition created_le (a b : option created_key) : bool :=
  match a, b with
  | Some (KStr s), Some (KStr s') => str_leb s s'
  | Some (KNum q), Some (KNum q') => Qle_bool q q'
  | _, _ => Nat.leb (kind_rank a) (kind_rank b)
  end.
Definition keyed_leb : keyed → keyed → bool :=
  lex (λ a b, Nat.leb a.1.1 b.1.1)
    (lex (λ a b, created_le a.1.2 b.1.2) (λ a b, str_leb (td_id a.2) (td_id b.2))).

(** Two dates that do not compare abort the sort: a sort has to compare the
    neighbours of its result. *)
Definition sort_todos (l : list Todo) : res (list Todo) :=
  ks ← map_res keyed_of l;
  if clashes ks then Raise TypeError else Ok (map snd (isort keyed_leb ks)).

(** The files that load, in the order of their names. *)
Definition loaded d : list Todo :=
  omap (λ i, match _load_file i (default None (dget i d)) with Ok t => Some t | Raise _ => None end)
    (isort (λ a b, str_leb (a ++ §".json") (b ++ §".json")) (dkeys d)).

(** [if wanted: todos = [t for t in todos if test(t, wanted)]]. *)
Definition optional_filter (wanted : option pystr) (f : pystr → Todo → res bool) (l : list Todo)
    : res (list Todo) :=
  match wanted with Some ((_ :: _) as w) => filter_res (f w) l | _ => Ok l end.

Definition list_todos (status priority tag : option pystr) d : res (list Todo) :=
  l ← optional_filter status (λ w t, Ok (str_is w (td_status t))) (loaded d);
  l ← optional_filter priority (λ w t, Ok (str_is w (td_priority t))) l;
  l ← optional_filter tag (λ w t, py_in w (td_tags t)) l;
  sort_todos l.

Definition next_todo d : res (option Todo) :=
  l ← list_todos None None None d;
  Ok (List.find (λ t, one_of _ACTIVE (td_status t)) l).

(** ** Names are free *)

Lemma numbered_inj stem n m : numbered stem n = numbered stem m → n = m.
Proof. unfold numbered. intros E. apply app_inv_head in E. injection E as E. by apply str_of_N_inj. Qed.

Lemma numbered_longer stem n : numbered stem n ≠ stem.
Proof.
  unfold numbered. intros E. apply (f_equal length) in E. rewrite length_app in E. cbn in E. lia.
Qed.

(** The candidates tried from a round on. *)
Definition candidates (stem : pystr) (n : N) (k : nat) : list pystr :=
  map (λ j, numbered stem (n + N.of_nat j)) (seq 0 k).

Lemma free_name_none fuel stem c n d : free_name fuel stem c n d = None →
  ∀ x, x ∈ c :: candidates stem n fuel → dmem x d = true.
Proof.
  revert c n. induction fuel as [|fuel IH]; intros c n; cbn [free_name].
  - destruct (dmem c d) eqn:E; [|done]. intros _ x [->|[]%elem_of_nil]%elem_of_cons. done.
  - destruct (dmem c d) eqn:E; [|done]. intros Hn x [->|Hx]%elem_of_cons; [done|].
    apply (IH _ _ Hn). unfold candidates in *. cbn [seq map] in Hx.
    rewrite <- seq_shift, map_map in Hx. rewrite elem_of_cons in Hx |- *.
    destruct Hx as [->|Hx]; [left; f_equal; lia|]. right.
    apply list_elem_of_fmap in Hx as (j & -> & Hj). apply list_elem_of_fmap. exists j.
    split; [f_equal; lia|done].
Qed.

Lemma free_name_some fuel stem c n d i : free_name fuel stem c n d = Some i → dget i d = None.
Proof.
  revert c n. induction fuel as [|fuel IH]; intros c n; cbn; destruct (dmem c d) eqn:E; try done;
    [|apply IH|]; intros [= <-]; unfold dmem in E; by destruct (dget c d).
Qed.

Lemma candidates_NoDup stem n k : NoDup (stem :: candidates stem n k).
Proof.
  apply NoDup_cons. split.
  - intros (j & E & _)%list_elem_of_fmap. by eapply numbered_longer.
  - apply NoDup_fmap_2_strong; [|apply NoDup_seq]. intros i j _ _ E%numbered_inj. lia.
Qed.

Lemma make_id_free today title d : ∃ i, _make_id today title d = Some i ∧ dget i d = None.
Proof.
  unfold _make_id. destruct (free_name _ _ _ _ _) as [i|] eqn:E.
  - exists i. split; [done|]. by eapply free_name_some.
  - exfalso. pose proof (free_name_none _ _ _ _ _ E) as Hall. set (stem := id_stem today title) in *.
    pose proof (candidates_NoDup stem 2 (length d)) as Hnd.
    assert (length (stem :: candidates stem 2 (length d)) ≤ length (dkeys d)) as Hl.
    { apply NoDup_incl_length; [by apply NoDup_ListNoDup|]. intros x Hx%list_elem_of_In.
      apply list_elem_of_In. specialize (Hall x Hx). unfold dmem in Hall.
      destruct (dget x d) as [v|] eqn:Ev; [|done]. apply dget_Some_elem in Ev.
      by apply (list_elem_of_fmap_2 fst) in Ev. }
    unfold candidates, dkeys in Hl. rewrite length_cons, length_map, length_seq, length_fmap in Hl. lia.
Qed.

(** ** Creation *)

Lemma load_asdict t : _load_file (td_id t) (Some (JObj (asdict t))) = Ok t.
Proof. by destruct t. Qed.

(** Adding a to-do always ends, and never overwrites one.  Exactly a title
    with text, a known priority and a known status are accepted; then the search
    for a name ends with one no file has, whatever files there are, the new to-do
    is stored under it, every other file is as before, and reading the name back
    gives the to-do. *)
Theorem add_ends_fresh today title n d :
  if decide (strip title ≠ [] ∧ nt_priority n ∈ PRIORITIES ∧ nt_status n ∈ STATUSES) then
    ∃ t d', add today title n d = (Ok (Some t), d') ∧ dget (td_id t) d = None ∧
      (∀ j, j ≠ td_id t → dget j d' = dget j d) ∧ get (td_id t) d' = Ok t ∧
      td_title t = JStr (strip title)
  else add today title n d = (Raise ValueError, d).
Proof.
  unfold add. destruct (strip title) as [|c s] eqn:Et; [by rewrite decide_False by naive_solver|].
  destruct (decide (nt_priority n ∈ PRIORITIES)) as [Hp|Hp]; cycle 1.
  { rewrite decide_False by naive_solver. by rewrite decide_True. }
  rewrite (decide_False (P := nt_priority n ∉ PRIORITIES)) by naive_solver.
  destruct (decide (nt_status n ∈ STATUSES)) as [Hs|Hs]; cycle 1.
  { rewrite decide_False by naive_solver. by rewrite decide_True. }
  rewrite (decide_False (P := nt_status n ∉ STATUSES)) by naive_solver.
  rewrite decide_True by naive_solver. destruct (make_id_free today title d) as (i & -> & Hi).
  eexists _, _. split; [done|]. cbn [td_id todo_of]. split; [done|].
  split; [intros; by apply dget_dset_ne|]. split; [|cbn; by rewrite Et].
  unfold get, resolve_id, dmem, mbind, res_bind. rewrite !dget_dset_eq. apply (load_asdict (todo_of _ _ _ _)).
Qed.

(** ** References *)

(** A reference means one to-do or nothing: the to-do of exactly that id, or
    else the only one whose id starts with it; it is refused as unknown exactly
    when no id starts with it, and as ambiguous exactly when several do. *)
Theorem resolve_id_unique ref d : dict_wf d →
  match resolve_id ref d with
  | Ok i => i ∈ dkeys d ∧
      (i = ref ∨ ref ∉ dkeys d ∧ ref `prefix_of` i ∧ ∀ j, j ∈ dkeys d → ref `prefix_of` j → j = i)
  | Raise e => ref ∉ dkeys d ∧
      ((e = KeyError ∧ ∀ j, j ∈ dkeys d → ¬ ref `prefix_of` j) ∨
       (e = ValueError ∧ ∃ j k, j ≠ k ∧ j ∈ dkeys d ∧ k ∈ dkeys d ∧
          ref `prefix_of` j ∧ ref `prefix_of` k))
  end.
Proof.
  intros Hwf. unfold resolve_id, dmem. destruct (dget ref d) as [v|] eqn:Er.
  { apply dget_Some_elem, (list_elem_of_fmap_2 fst) in Er. by split; [|left]. }
  apply dget_None in Er.
  assert (∀ j, j ∈ isort str_leb (prefixed ref d) ↔ j ∈ dkeys d ∧ ref `prefix_of` j) as Hin.
  { intros j. rewrite elem_of_isort. unfold prefixed. rewrite list_elem_of_filter, starts_with_spec.
    unfold prefix. naive_solver. }
  assert (NoDup (isort str_leb (prefixed ref d))) as Hnd.
  { rewrite isort_perm. by apply NoDup_filter. }
  destruct (isort str_leb (prefixed ref d)) as [|i [|k l]].
  - split; [done|]. left. split; [done|]. intros j Hj Hp. eapply not_elem_of_nil, Hin. by split.
  - destruct (proj1 (Hin i)) as [Hi Hp]; [apply list_elem_of_here|]. split; [done|]. right.
    split_and!; [done|done|]. intros j Hj Hpj. by apply list_elem_of_singleton, Hin.
  - split; [done|]. right. split; [done|].
    destruct (proj1 (Hin i)) as [Hi Hp]; [apply list_elem_of_here|].
    destruct (proj1 (Hin k)) as [Hk Hq]; [apply list_elem_of_further, list_elem_of_here|].
    exists i, k. split_and!; try done. apply NoDup_cons in Hnd as [Hn _]. intros ->.
    apply Hn, list_elem_of_here.
Qed.

(** ** Editing *)

Lemma get_inv ref d t : get ref d = Ok t →
  ∃ v, resolve_id ref d = Ok (td_id t) ∧ dget (td_id t) d = Some v.
Proof.
  unfold get, mbind, res_bind. destruct (resolve_id ref d) as [i|] eqn:Er; [|done].
  destruct (dget i d) as [v|] eqn:Ev; [|done]. cbn. unfold _load_file.
  destruct v as [[| | | | | |raw]|]; try done. intros [= <-]. cbn. eauto.
Qed.

Lemma resolve_dset ref i v v' d : dget i d = Some v → resolve_id ref (dset i v' d) = resolve_id ref d.
Proof.
  intros Hi. unfold resolve_id, prefixed. rewrite (dkeys_dset_old _ _ _ _ Hi).
  assert (dmem ref (dset i v' d) = dmem ref d) as ->; [|done].
  unfold dmem. destruct (decide (ref = i)) as [->|Hne]; [by rewrite dget_dset_eq, Hi|].
  by rewrite dget_dset_ne.
Qed.

Lemma get_written ref d t t' : get ref d = Ok t → td_id t' = td_id t →
  get ref (dset (td_id t') (Some (JObj (asdict t'))) d) = Ok t'.
Proof.
  intros (v & Hr & Hv)%get_inv Hid. unfold get, mbind, res_bind.
  rewrite Hid, (resolve_dset _ _ _ _ _ Hv), Hr, dget_dset_eq, <- Hid. apply load_asdict.
Qed.

(** Finishing a to-do.  Whatever unambiguous reference names it, the to-do is
    stored as done with a date, nothing else of it changes but the note of the
    edit, no other file changes, and doing it again, on any later day, changes
    nothing: the original date stays. *)
Theorem mark_done_once today ref d t : get ref d = Ok t →
  ∃ t' d', mark_done today ref d = (Ok t', d') ∧ get ref d' = Ok t' ∧
    td_status t' = JStr (§"done") ∧ td_id t' = td_id t ∧ td_title t' = td_title t ∧
    td_priority t' = td_priority t ∧ td_created t' = td_created t ∧
    td_done_at t' = (if decide (td_status t = JStr (§"done")) then td_done_at t
                     else JStr (iso_date today)) ∧
    (∀ j, j ≠ td_id t → dget j d' = dget j d) ∧
    ∀ later, mark_done later ref d' = (Ok t', d').
Proof.
  intros Hg. unfold mark_done at 1. munfold. rewrite Hg.
  destruct (str_is (§"done") (td_status t)) eqn:Es.
  { pose proof Es as Es'. apply str_is_iff in Es'. exists t, d. split; [done|]. split; [done|].
    rewrite decide_True by done. split_and!; try done.
    intros later. unfold mark_done. munfold. by rewrite Hg, Es. }
  apply str_is_false in Es. rewrite decide_False by done.
  change (set_field (§"status") (JStr (§"done")) t) with (Some
    {| td_id := td_id t; td_title := td_title t; td_summary := td_summary t;
       td_status := JStr (§"done"); td_priority := td_priority t; td_tags := td_tags t;
       td_created := td_created t; td_updated := td_updated t; td_done_at := td_done_at t;
       td_context := td_context t; td_steps := td_steps t; td_done_when := td_done_when t;
       td_links := td_links t |}). cbn beta iota zeta.
  match goal with |- context [_write ?x] => set (t' := x) end.
  assert (get ref (dset (td_id t') (Some (JObj (asdict t'))) d) = Ok t') as Hg' by by eapply get_written.
  exists t'. eexists. split; [done|]. split; [done|]. split_and!; try done.
  - intros j Hj. by apply dget_dset_ne.
  - intros later. unfold mark_done. munfold. rewrite Hg'. cbn [td_status t' stamped].
    by rewrite (proj2 (str_is_iff (§"done") (JStr (§"done"))) eq_refl).
Qed.

(** ** Order *)

Lemma created_le_total a b : created_le a b = true ∨ created_le b a = true.
Proof.
  destruct a as [[s|q|]|], b as [[s'|q'|]|]; cbn; try (by left); try (by right).
  - apply str_leb_total.
  - rewrite !Qle_bool_iff. destruct (Qlt_le_dec q q'); [left; by apply Qlt_le_weak|by right].
Qed.

Lemma created_le_trans a b c : created_le a b = true → created_le b c = true → created_le a c = true.
Proof.
  destruct a as [[s|q|]|], b as [[s'|q'|]|], c as [[s''|q''|]|]; cbn; try done.
  - apply str_leb_trans.
  - rewrite !Qle_bool_iff. apply Qle_trans.
Qed.

Lemma keyed_total a b : keyed_leb a b = true ∨ keyed_leb b a = true.
Proof.
  apply lex_total.
  - intros. rewrite !Nat.leb_le. lia.
  - apply lex_total; intros; [apply created_le_total|apply str_leb_total].
Qed.

Lemma keyed_trans a b c : keyed_leb a b = true → keyed_leb b c = true → keyed_leb a c = true.
Proof.
  apply lex_trans.
  - intros x y z. rewrite !Nat.leb_le. lia.
  - apply lex_trans; intros x y z; [apply created_le_trans|apply str_leb_trans].
Qed.

(** [t] comes no later than [t'] in the list. *)
Definition before t t' : Prop :=
  ∃ k k', keyed_of t = Ok k ∧ keyed_of t' = Ok k' ∧ keyed_leb k k' = true.

(** To-dos whose dates compare. *)
Definition comparable (l : list Todo) : Prop :=
  ∃ ks, map_res keyed_of l = Ok ks ∧ clashes ks = false.

Lemma keyed_snd t k : keyed_of t = Ok k → k.2 = t.
Proof. unfold keyed_of, mbind, res_bind. destruct (prio_order _); [|done]. by intros [= <-]. Qed.

Lemma sort_todos_run l : comparable l → ∃ l', sort_todos l = Ok l' ∧ l' ≡ₚ l ∧ StronglySorted before l'.
Proof.
  intros (ks & Hk & Hc). unfold sort_todos, mbind, res_bind. rewrite Hk, Hc. eexists. split; [done|].
  apply map_res_Forall2 in Hk. split.
  - rewrite isort_perm. assert (map snd ks = l) as ->; [|done].
    induction Hk as [|t k l ks Ht Hk IH]; [done|]. cbn in *. rewrite (keyed_snd _ _ Ht). f_equal.
    apply IH. cbn in Hc. by apply orb_false_iff in Hc as [_ ?].
  - assert (Forall (λ k : keyed, keyed_of k.2 = Ok k) (isort keyed_leb ks)) as Hf.
    { rewrite isort_perm. clear Hc. induction Hk as [|t k l ks Ht Hk IH]; constructor; [|done].
      by rewrite (keyed_snd _ _ Ht). }
    pose proof (isort_sorted keyed_leb keyed_total keyed_trans ks) as Hs.
    induction Hs as [|k ks' Hs IH Hall]; cbn; constructor; inversion_clear Hf as [|? ? Hk' Hf'].
    + by apply IH.
    + apply Forall_fmap. rewrite Forall_forall in Hall, Hf' |- *. intros k' Hin. exists k, k'.
      split_and!; [done|by apply Hf'|by apply Hall].
Qed.

Lemma find_first (f : Todo → bool) l : StronglySorted before l →
  match List.find f l with
  | Some t => t ∈ l ∧ f t = true ∧ ∀ t', t' ∈ l → f t' = true → t' = t ∨ before t t'
  | None => ∀ t, t ∈ l → f t = false
  end.
Proof.
  induction 1 as [|t l Hs IH Hall]; cbn; [by intros t ?%elem_of_nil|]. destruct (f t) eqn:Ef.
  - split; [apply list_elem_of_here|]. split; [done|]. intros t' [->|Hin]%elem_of_cons; [by left|].
    right. rewrite Forall_forall in Hall. by apply Hall.
  - destruct (List.find f l) as [u|].
    + destruct IH as (Hu & Hfu & Hmin). split; [by apply list_elem_of_further|]. split; [done|].
      intros t' [->|Hin]%elem_of_cons; [congruence|by apply Hmin].
    + intros t' [->|Hin]%elem_of_cons; [done|by apply IH].
Qed.

(** The list is in order, and [next] is the most urgent.  While the dates of
    the to-dos compare, the list returns every to-do whose file loads, once, by
    priority, then date, then id; and the next one is active with no active one
    before it, and missing only when none is active. *)
Theorem next_is_most_urgent d : comparable (loaded d) →
  ∃ l, list_todos None None None d = Ok l ∧ l ≡ₚ loaded d ∧ StronglySorted before l ∧
  match next_todo d with
  | Ok (Some t) => t ∈ loaded d ∧ one_of _ACTIVE (td_status t) = true ∧
      ∀ t', t' ∈ loaded d → one_of _ACTIVE (td_status t') = true → t' = t ∨ before t t'
  | Ok None => ∀ t, t ∈ loaded d → one_of _ACTIVE (td_status t) = false
  | Raise _ => False
  end.
Proof.
  intros Hc. destruct (sort_todos_run _ Hc) as (l & Hs & Hp & Hsort). exists l.
  assert (list_todos None None None d = Ok l) as Hl by exact Hs.
  split_and!; [done|done|done|]. unfold next_todo, mbind, res_bind. rewrite Hl.
  pose proof (find_first (λ t, one_of _ACTIVE (td_status t)) l Hsort) as Hf.
  destruct (List.find _ l) as [t|].
  - destruct Hf as (Ht & Ha & Hmin). split; [by rewrite <- Hp|]. split; [done|].
    intros t' Ht'. apply Hmin. by rewrite Hp.
  - intros t Ht. apply Hf. by rewrite Hp.
Qed.
End store.

(** ** Evaluation *)

Section demo.
#[local] Existing Instance ascii_db.
#[local] Instance keep : Slugify := id.

Definition monday : day := {| compact := §"20260105"; iso_date := §"2026-01-05" |}.
Definition plain_todo : new_todo :=
  {| nt_summary := JNull; nt_priority := §"normal"; nt_status := §"todo"; nt_tags := [];
     nt_context := JNull; nt_steps := []; nt_done_when := []; nt_links := [] |}.
(** Two to-dos of the same title. *)
Definition two_todos : todo_dir :=
  ((add monday (§"tea") plain_todo;; add monday (§"tea") plain_todo) []).2.

Example numbered_names : dkeys two_todos = [§"20260105-tea"; §"20260105-tea-2"].
Proof. vm_compute. reflexivity. Qed.

(** One file with a number for a date aborts the list, although a malformed file
    is meant to be skipped. *)
Example mixed_dates_abort_list :
  list_todos None None None
    (dset (§"x") (Some (JObj [(§"created", JInt 20260105)])) two_todos) = Raise TypeError.
Proof. vm_compute. reflexivity. Qed.

Lemma resolve_id_unique_witness :
  resolve_id (§"20260105-tea") two_todos = Ok (§"20260105-tea") ∧
  ∃ j k, j ≠ k ∧ j ∈ dkeys two_todos ∧ k ∈ dkeys two_todos ∧
    (§"2026") `prefix_of` j ∧ (§"2026") `prefix_of` k.
Proof.
  split; [vm_compute; reflexivity|].
  assert (dict_wf two_todos) as Hwf by (apply (bool_decide_eq_true_1 _); vm_compute; reflexivity).
  pose proof (resolve_id_unique (§"2026") two_todos Hwf) as Hr.
  assert (resolve_id (§"2026") two_todos = Raise ValueError) as E by (vm_compute; reflexivity).
  rewrite E in Hr. destruct Hr as (_ & [[? _]|[_ Hjk]]); [done|exact Hjk].
Defined.

Lemma mark_done_once_witness : ∃ t' d',
  mark_done monday (§"20260105-tea") two_todos = (Ok t', d') ∧ td_status t' = JStr (§"done") ∧
  ∀ later, mark_done later (§"20260105-tea") d' = (Ok t', d').
Proof.
  destruct (get (§"20260105-tea") two_todos) as [t|] eqn:E; [|exfalso; revert E; vm_compute; discriminate].
  destruct (mark_done_once monday (§"20260105-tea") two_todos t E)
    as (t' & d' & Hm & _ & Hs & _ & _ & _ & _ & _ & _ & Hl).
  exists t', d'. split; [exact Hm|]. split; [exact Hs|exact Hl].
Defined.

Lemma next_is_most_urgent_witness : ∃ t, next_todo two_todos = Ok (Some t) ∧
  one_of _ACTIVE (td_status t) = true.
Proof.
  destruct (next_is_most_urgent two_todos) as (l & _ & _ & _ & Hn).
  { unfold comparable. eexists. split; vm_compute; reflexivity. }
  destruct (next_todo two_todos) as [[t|]|] eqn:E; [|exfalso; revert E; vm_compute; discriminate..].
  exists t. split; [done|apply Hn].
Defined.
End demo.
