(* ===== verification/Supervisor.v ===== *)
(** * Keeping a recipe alive

    server/services/recipe_supervisor.py: the loop that spawns a daemon recipe,
    waits for its end, decides by the restart policy whether to spawn it again,
    and waits before it does.  What the process and the operator do is a script
    of turns. *)

From S2P Require Import Prelude PyStr.
From stdpp Require Import prelude list strings.

Inductive RestartPolicy := Always | OnFailure | Never.

Record SupervisedRecipe := {
  sr_recipe : pystr;
  restart_policy : RestartPolicy;
  max_backoff : Z;
  initial_backoff : Z;
  startup_delay : Z;
  sr_name : option pystr;
}.

Definition label (s : SupervisedRecipe) : pystr :=
  match sr_name s with Some ((_ :: _) as n) => n | _ => sr_recipe s end.

(** What one round of the loop meets: whether the spawn succeeds, the return code
    the process has once it is terminated, and whether the stop event fires while
    the process runs or during the wait after it. *)
Record turn := { spawns : bool; returncode : option Z; stop_running : bool; stop_waiting : bool }.

Section supervisor.
Context (spec : SupervisedRecipe).

Definition _should_restart (rc : option Z) : bool :=
  match restart_policy spec with
  | Never => false
  | Always => true
  | OnFailure => negb (bool_decide (rc = Some 0%Z))
  end.

(** How a supervision ends: the script is over and the recipe is supervised on,
    the stop event, or the policy. *)
Inductive ending := Supervising (backoff : Z) | Stopped | NotRestarted (rc : option Z).

(** The loop of [run], with the waits it sat through and the number of restarts. *)
Fixpoint run_from (backoff : Z) (turns : list turn) : list Z * nat * ending :=
  match turns with
  | [] => ([], 0, Supervising backoff)
  | t :: turns =>
      let backoff := if spawns t then initial_backoff spec else backoff in
      let rc := if spawns t then returncode t else None in
      if stop_running t then ([], 0, Stopped)
      else if negb (_should_restart rc) then ([], 0, NotRestarted rc)
      else if stop_waiting t then ([], 0, Stopped)
      else
        let '(waits, restarts, e) := run_from (Z.min (backoff * 2) (max_backoff spec)) turns in
        (backoff :: waits, S restarts, e)
  end.

(** [run]: nothing is spawned when the stop event is set before the start. *)
Definition run (stop_at_start : bool) (turns : list turn) : list Z * nat * ending :=
  if stop_at_start then ([], 0, Stopped) else run_from (initial_backoff spec) turns.

(** ** How long it waits *)

Lemma waits_bounded backoff turns w : (0 <= initial_backoff spec <= max_backoff spec)%Z →
  (initial_backoff spec <= backoff <= max_backoff spec)%Z → w ∈ (run_from backoff turns).1.1 →
  (initial_backoff spec <= w <= max_backoff spec)%Z.
Proof.
  intros Hi. revert backoff. induction turns as [|t turns IH]; intros b Hb; cbn [run_from].
  { by intros ?%elem_of_nil. }
  destruct (stop_running t); [by intros ?%elem_of_nil|].
  destruct (negb (_should_restart _)); [by intros ?%elem_of_nil|].
  destruct (stop_waiting t); [by intros ?%elem_of_nil|].
  set (b' := if spawns t then _ else b). assert (initial_backoff spec <= b' <= max_backoff spec)%Z as Hb'.
  { subst b'. destruct (spawns t); lia. }
  specialize (IH (Z.min (b' * 2) (max_backoff spec)) ltac:(lia)).
  destruct (run_from _ turns) as [[ws n] e]. cbn. intros [->|Hw]%elem_of_cons; [done|by apply IH].
Qed.

(** A recipe that starts and dies is restarted at a constant pace.  As long as
    every spawn succeeds, whatever the recipe then does, every wait before a
    restart is the initial one: the doubling of the delay never takes effect,
    since a successful spawn resets it. *)
Theorem crash_loop_never_backs_off stop turns : Forall (λ t, spawns t = true) turns →
  Forall (λ w, w = initial_backoff spec) (run stop turns).1.1.
Proof.
  intros Ht. unfold run. destruct stop; [constructor|]. generalize (initial_backoff spec) at 2 as b.
  induction Ht as [|t turns Hs Ht IH]; intros b; cbn [run_from]; [constructor|]. rewrite Hs.
  destruct (stop_running t); [constructor|]. destruct (negb _); [constructor|].
  destruct (stop_waiting t); [constructor|].
  specialize (IH (Z.min (initial_backoff spec * 2) (max_backoff spec))).
  destruct (run_from _ turns) as [[ws n] e]. by constructor.
Qed.

(** A turn after which the recipe is spawned again. *)
Definition code_of (t : turn) : option Z := if spawns t then returncode t else None.
Definition restarting (t : turn) : bool :=
  negb (stop_running t) && _should_restart (code_of t) && negb (stop_waiting t).
Fixpoint leading (turns : list turn) : nat :=
  match turns with t :: turns => if restarting t then S (leading turns) else 0 | [] => 0 end.

Lemma run_from_leading turns b : let '(waits, restarts, e) := run_from b turns in
  length waits = restarts ∧ restarts = leading turns ∧
  match turns !! restarts with
  | None => ∃ b, e = Supervising b
  | Some t => if stop_running t || _should_restart (code_of t) then e = Stopped
              else e = NotRestarted (code_of t)
  end.
Proof.
  revert b. induction turns as [|t turns IH]; intros b; cbn [run_from leading].
  { split; [done|split; [done|by exists b]]. }
  unfold restarting. fold (code_of t).
  destruct (stop_running t) eqn:Es; cbn [negb andb]; [by split_and!; cbn; rewrite ?Es|].
  destruct (_should_restart (code_of t)) eqn:Er; cbn [negb andb];
    [|by split_and!; cbn; rewrite ?Es, ?Er].
  destruct (stop_waiting t); cbn [negb]; [by split_and!; cbn; rewrite ?Es, ?Er|].
  specialize (IH (Z.min ((if spawns t then initial_backoff spec else b) * 2) (max_backoff spec))).
  destruct (run_from _ turns) as [[ws n] e]. destruct IH as (Hl & Hn & He).
  split_and!; [cbn; by rewrite Hl|by rewrite Hn|done].
Qed.

(** When supervision goes on.  A restart follows a turn exactly when the stop
    event stayed unset through it and the policy asks for one: always, never, or
    unless the recipe ended with code zero, a failed spawn counting as a failure.
    There is one wait before each restart, between the initial delay and the
    maximum, and the first turn without a restart ends the supervision, with the
    reason it gives. *)
Theorem restarts_by_policy turns : (0 <= initial_backoff spec <= max_backoff spec)%Z →
  let '(waits, restarts, e) := run false turns in
  length waits = restarts ∧ Forall (λ w, (initial_backoff spec <= w <= max_backoff spec)%Z) waits ∧
  restarts = leading turns ∧
  match turns !! restarts with
  | None => ∃ b, e = Supervising b
  | Some t => if stop_running t || _should_restart (code_of t) then e = Stopped
              else e = NotRestarted (code_of t)
  end.
Proof.
  intros Hi. pose proof (waits_bounded (initial_backoff spec) turns) as Hw. unfold run.
  pose proof (run_from_leading turns (initial_backoff spec)) as Hr.
  destruct (run_from _ turns) as [[ws n] e]. destruct Hr as (Hl & Hn & He). split_and!; try done.
  apply Forall_forall. intros w Hin. apply Hw; [done|lia|done].
Qed.
End supervisor.

(** ** Evaluation *)

Section demo.
Definition demo_spec : SupervisedRecipe :=
  {| sr_recipe := §"hud"; restart_policy := OnFailure; max_backoff := 60; initial_backoff := 2;
     startup_delay := 5; sr_name := None |}.
Definition crash : turn :=
  {| spawns := true; returncode := Some 1%Z; stop_running := false; stop_waiting := false |}.
Definition unspawnable : turn :=
  {| spawns := false; returncode := None; stop_running := false; stop_waiting := false |}.
Definition clean : turn :=
  {| spawns := true; returncode := Some 0%Z; stop_running := false; stop_waiting := false |}.

(** Only failed spawns back off. *)
Example failed_spawns_back_off :
  (run demo_spec false (replicate 7 unspawnable)).1.1 = [2; 4; 8; 16; 32; 60; 60]%Z.
Proof. reflexivity. Qed.

Lemma crash_loop_never_backs_off_witness :
  Forall (λ w, w = 2%Z) (run demo_spec false (replicate 20 crash)).1.1.
Proof.
  apply (crash_loop_never_backs_off demo_spec false (replicate 20 crash)). by apply Forall_replicate.
Defined.

Lemma restarts_by_policy_witness : ∃ ws,
  run demo_spec false [crash; unspawnable; clean; crash] = (ws, 2, NotRestarted (Some 0%Z)) ∧
  Forall (λ w, (2 <= w <= 60)%Z) ws.
Proof.
  pose proof (restarts_by_policy demo_spec [crash; unspawnable; clean; crash] ltac:(cbn; lia)) as Hr.
  exists [2; 4]%Z. split; [reflexivity|]. apply Hr.
Defined.
End demo.
