(* ===== verification/EnvLoader.v ===== *)
(** * The environment a recipe starts with

    recipes/env_loader.py: parsing a [.env] file, merging the levels, and the
    cache between calls. *)

From S2P Require Import Prelude PyStr.
From stdpp Require Import prelude gmap list strings.

Abbreviation environ := (gmap pystr pystr).

(** What is outside: the process's own variables, and the texts of the user's and
    the project's file ([None] for one that is missing or cannot be read). *)
Record env_files := {
  os_environ : environ;
  user_env : option pystr;
  project_env : option pystr;
}.

(** ** Parsing *)

Definition key_start (c : N) : bool :=
  ((65 <=? c) && (c <=? 90) || (97 <=? c) && (c <=? 122) || (c =? 95))%N.
Definition key_char (c : N) : bool := key_start c || ((48 <=? c) && (c <=? 57))%N.

(** The longest prefix of key characters and the rest. *)
Fixpoint span_key (s : pystr) : pystr * pystr :=
  match s with
  | c :: s' => if key_char c then let '(k, r) := span_key s' in (c :: k, r) else ([], s)
  | [] => ([], [])
  end.

(** The pattern of a line: a name, the sign [=], and anything. *)
Definition match_line (line : pystr) : option (pystr * pystr) :=
  match span_key line with
  | (c :: k, e :: value) => if key_start c && (e =? 61)%N then Some (c :: k, value) else None
  | _ => None
  end.

(** Quotes of one kind around the whole value go. *)
Definition quoted_by (q : N) (v : pystr) : bool :=
  bool_decide (head v = Some q) && bool_decide (last v = Some q).
Definition unquote (v : pystr) : pystr :=
  if quoted_by 34 v || quoted_by 39 v then removelast (tail v) else v.

Definition assignment (line : pystr) : option (pystr * pystr) :=
  let line := strip line in
  if bool_decide (line = []) || starts_with (§"#") line then None
  else match match_line line with
       | Some (key, value) => Some (key, unquote (strip value))
       | None => None
       end.

Definition assign (m : environ) (line : pystr) : environ :=
  match assignment line with Some (k, v) => <[k := v]> m | None => m end.

Definition load_env_file (content : option pystr) : environ :=
  match content with
  | Some text => foldl assign ∅ (splitlines text)
  | None => ∅
  end.

(** ** Merging *)

(** [load_all], over the cache; what it returns is a copy. *)
Definition load_all (f : env_files) (clear_cache : bool) : M (option environ) environ := λ cache,
  match cache with
  | Some m => if clear_cache then
                let merged := load_env_file (project_env f) ∪ (load_env_file (user_env f) ∪ os_environ f) in
                (Ok merged, Some merged)
              else (Ok m, cache)
  | None =>
      let merged := load_env_file (project_env f) ∪ (load_env_file (user_env f) ∪ os_environ f) in
      (Ok merged, Some merged)
  end.

(** [shared] is the workflow context's, [cli] what the command line gives. *)
Definition resolve_for_recipe (f : env_files) (cli : environ) (shared : option environ)
  : M (option environ) environ :=
  merged ← load_all f false;
  mret (cli ∪ (default ∅ shared ∪ merged)).

(** ** What is read *)

(** The value the last assigning line gives. *)
Fixpoint last_assigned (k : pystr) (lines : list pystr) : option pystr :=
  match lines with
  | [] => None
  | l :: lines =>
      match last_assigned k lines with
      | Some v => Some v
      | None => match assignment l with Some (k', v) => if decide (k' = k) then Some v else None | None => None end
      end
  end.

Lemma load_env_file_lookup text k : load_env_file (Some text) !! k = last_assigned k (splitlines text).
Proof.
  cbn. assert (∀ m, foldl assign m (splitlines text) !! k
                    = match last_assigned k (splitlines text) with Some v => Some v | None => m !! k end) as ->.
  { induction (splitlines text) as [|l ls IH]; intros m; cbn; [done|]. rewrite IH.
    destruct (last_assigned k ls); [done|]. unfold assign. destruct (assignment l) as [[k' v]|]; [|done].
    case_decide as Hk; [subst; by rewrite lookup_insert_eq|by rewrite lookup_insert_ne]. }
  by destruct (last_assigned k (splitlines text)).
Qed.

Definition level (o : option pystr) (rest : option pystr) : option pystr :=
  match o with Some v => Some v | None => rest end.

Lemma lookup_level (a b : environ) k : (a ∪ b) !! k = level (a !! k) (b !! k).
Proof. rewrite lookup_union. by destruct (a !! k), (b !! k). Qed.

(** Which level decides a variable.  Reading the files for the first time, a
    recipe gets each variable from the first of the command line, the workflow,
    the project's file, the user's file and the process that has it, and from a
    file the last line that assigns it; later calls see the files as they were
    then, whatever they hold now. *)
Theorem resolve_priority f f' cli cli' shared shared' k :
  ∃ m cache, resolve_for_recipe f cli shared None = (Ok m, Some cache) ∧
  let files := level (project_env f ≫= λ t, last_assigned k (splitlines t))
                (level (user_env f ≫= λ t, last_assigned k (splitlines t)) (os_environ f !! k)) in
  m !! k = level (cli !! k) (level (default ∅ shared !! k) files) ∧
  ∃ m', resolve_for_recipe f' cli' shared' (Some cache) = (Ok m', Some cache) ∧
    m' !! k = level (cli' !! k) (level (default ∅ shared' !! k) files).
Proof.
  assert (∀ o, load_env_file o !! k = o ≫= λ t, last_assigned k (splitlines t)) as Hf.
  { intros [t|]; [apply load_env_file_lookup|]. cbn. apply lookup_empty. }
  eexists _, _. split; [reflexivity|]. cbn zeta. rewrite <- !Hf. split; [by rewrite !lookup_level|].
  eexists. split; [reflexivity|]. by rewrite !lookup_level.
Qed.

(** ** Round trip *)

Lemma span_key_app k r : Forall (λ c, key_char c = true) k → span_key (k ++ 61%N :: r) = (k, 61%N :: r).
Proof. induction 1 as [|c k Hc _ IH]; cbn [span_key app]; [done|]. by rewrite Hc, IH. Qed.

Lemma key_char_plain c : key_char c = true → is_space c = false ∧ c ≠ 35%N ∧ c ≠ 61%N.
Proof.
  unfold key_char, key_start, is_space. intros Hc.
  rewrite !orb_true_iff, !andb_true_iff, !N.leb_le, N.eqb_eq in Hc.
  split_and!; [|lia|lia]. rewrite !orb_false_iff, !andb_false_iff, !N.leb_gt.
  rewrite bool_decide_eq_false, !elem_of_cons, elem_of_nil. split_and!; lia.
Qed.

(** A line [KEY="value"] is read back, whatever the value holds, as long as it is
    one line. *)
Theorem assignment_quoted c k v : key_start c = true → Forall (λ c, key_char c = true) k →
  assignment (c :: k ++ 61%N :: 34%N :: v ++ [34%N]) = Some (c :: k, v).
Proof.
  intros Hc Hk. assert (key_char c = true) as Hkc by (unfold key_char; by rewrite Hc).
  destruct (key_char_plain c Hkc) as (Hsp & Hsharp & _). unfold assignment.
  replace (c :: k ++ 61%N :: 34%N :: v ++ [34%N]) with (c :: (k ++ 61%N :: 34%N :: v) ++ [34%N])
    by (by rewrite <- app_assoc).
  rewrite strip_ends by done. cbn [starts_with lit].
  rewrite bool_decide_eq_false_2 by done. cbn [orb].
  replace (starts_with (§"#") (c :: (k ++ 61%N :: 34%N :: v) ++ [34%N])) with false
    by (change (starts_with (§"#") _) with ((35 =? c)%N && true); by rewrite (proj2 (N.eqb_neq 35 c))).
  rewrite <- app_assoc. cbn [app]. unfold match_line.
  change (c :: k ++ 61%N :: 34%N :: v ++ [34%N]) with ((c :: k) ++ 61%N :: 34%N :: v ++ [34%N]).
  rewrite span_key_app by by constructor. rewrite Hc. cbn [andb N.eqb Pos.eqb].
  rewrite strip_ends by done. unfold unquote, quoted_by. cbn [head hd_error].
  rewrite app_comm_cons, last_snoc, bool_decide_eq_true_2 by done. cbn. by rewrite removelast_last.
Qed.

(** ** Evaluation *)

Section demo.
Definition demo_files : env_files :=
  {| os_environ := {[ §"A" := §"os"; §"B" := §"os" ]};
     user_env := Some (§"A=1" ++ [10%N] ++ §"# B=2" ++ [10%N] ++ §"A='two'");
     project_env := None |}.
Example demo_resolved :
  match resolve_for_recipe demo_files ∅ None None with
  | (Ok m, _) => m !! §"A" = Some (§"two") ∧ m !! §"B" = Some (§"os")
  | _ => False
  end.
Proof. vm_compute. split; reflexivity. Qed.
End demo.
