(* ===== verification/Runner.v ===== *)
(** * Running a recipe

    recipes/runner.py: finding a recipe, checking its parameters, assembling its
    environment, recording the execution, starting the process for its runtime,
    and recording how it ended; and cancelling a run.  The processes are an
    interface; the machine is not Windows. *)

From Stdlib Require Import QArith.
From S2P Require Import Prelude PyStr Json Env InvocationCtx Params Password ScheduleExec Executions Metadata Registry EnvLoader.
From stdpp Require Import prelude gmap list strings.

(** A process the runner starts. *)
Record launch := {
  l_cmd : list pystr;
  l_env : environ;
  l_cwd : option path;
  l_timeout : option Z;
}.

(** What is outside: what the last of the processes started does and how many
    microseconds it takes, whether a script may be executed, the interpreter on
    the path, JSON text and the texts of errors.  Exit codes are machine integers. *)
Class Runtime := {
  process_end : list launch → proc_end * N;
  process_code : ∀ ls code out err, (process_end ls).1 = Completed code out err → (Z.abs code < 2 ^ 32)%Z;
  script_executable : path → res bool;
  which_python3 : option pystr;
  dumps : json → pystr;
  loads_error : pystr → pystr;
  exn_message : exn → pystr;
}.

Record runner_state := {
  store : ExecutionStore;
  env_cache : option environ;
  launched : list launch;
  opened : list json;
  clock : Z;
}.

(** What a run finds: the index of recipes, the variables, the file of secrets
    ([Some None] when it does not parse), whether its directory can be made, the
    run the command line is in, and the random part of the new id. *)
Record run_world := {
  rw_registry : RecipeRegistry;
  rw_files : env_files;
  rw_secrets : option (option json);
  rw_workdir_ok : bool;
  rw_current_run : option pystr;
  rw_uuid : pystr;
}.

Record run_request := {
  q_name : pystr;
  q_params : jdict;
  q_env : environ;
  q_workflow : option environ;
  q_source : option pystr;
  q_timeout : option Z;
  q_step_index : json;
  q_ctx : option InvocationContext;
}.

(** How the attempt to run a script fails: as [RecipeExecutionError], or as any
    other exception with its text. *)
Inductive failure := ExecError (exit_code : Z) (message : pystr) | OtherError (message : pystr).

Definition in_store {A} (m : M ExecutionStore A) : M runner_state A := λ s,
  let '(r, st) := m (store s) in
  (r, {| store := st; env_cache := env_cache s; launched := launched s; opened := opened s; clock := clock s |}).
Definition in_cache {A} (m : M (option environ) A) : M runner_state A := λ s,
  let '(r, c) := m (env_cache s) in
  (r, {| store := store s; env_cache := c; launched := launched s; opened := opened s; clock := clock s |}).
Definition note_opened (url : json) : M runner_state unit := modify (λ s,
  {| store := store s; env_cache := env_cache s; launched := launched s; opened := opened s ++ [url];
     clock := clock s |}).

Section runner.
Context `{Unicode, PyRepr, Paths, LocalTime, JsonText, Rglob, DumpLength, Regex, Runtime}.
Implicit Types (w : run_world) (q : run_request) (s : runner_state) (name : pystr) (env : environ).

(** ** Processes *)

Definition _run_subprocess (l : launch) : M runner_state proc_end := λ s,
  let ls := launched s ++ [l] in
  let '(r, d) := process_end ls in
  (Ok r, {| store := store s; env_cache := env_cache s; launched := ls; opened := opened s;
            clock := clock s + Z.of_N d |}).

(** The text of a [RecipeExecutionError]. *)
Definition error_text name (exit_code : Z) (stderr detail : pystr) : pystr :=
  §"Recipe '" ++ name ++ §"' execution failed (exit code: " ++ str_of_Z exit_code ++ §")" ++
  match sor detail stderr with [] => [] | reason => §": " ++ reason end.
Definition exec_error name (exit_code : Z) (stderr detail : pystr) : failure :=
  ExecError exit_code (error_text name exit_code stderr detail).

Definition _recipe_failure_reason (stdout stderr : pystr) : pystr :=
  let reported :=
    match stdout with
    | [] => None
    | _ => match json_loads stdout with
           | Some (JObj d) =>
               match dget (§"error") d with
               | Some (JStr e) => match strip e with [] => None | t => Some t end
               | _ => None
               end
           | _ => None
           end
    end in
  match reported with
  | Some t => t
  | None =>
      match last (filter (λ l, strip l ≠ []) (splitlines (strip stderr))) with
      | Some l => strip l
      | None => []
      end
  end.

(** [f"{n / 1024 / 1024:.2f}"]. *)
Definition megabytes (n : nat) : pystr :=
  let z := round_half_even (inject_Z (Z.of_nat n) * 100 / 1048576) in
  str_of_Z (z / 100) ++ §"." ++ str_of_Z (z mod 100 / 10) ++ str_of_Z (z mod 10).

Definition OUTPUT_LIMIT : N := 10 * 1024 * 1024.

Definition timeout_text (timeout : option Z) : pystr :=
  match timeout with
  | Some t => if (t =? 0)%Z then §"Execution timeout" else §"Execution timeout (" ++ str_of_Z t ++ §"s)"
  | None => §"Execution timeout"
  end.

(** What the three runtimes make of the end of their process: [detail] says
    whether a failure's own reason is looked for, [plain_text] whether output that
    is not JSON is passed on as text. *)
Definition read_output name (detail plain_text : bool) (timeout : option Z) (r : proc_end)
  : failure + (json * pystr) :=
  match r with
  | TimedOut => inl (exec_error name (-1) (timeout_text timeout) [])
  | Crashed message => inl (OtherError message)
  | Completed returncode out err =>
      if negb (returncode =? 0)%Z then
        inl (exec_error name returncode err (if detail then _recipe_failure_reason out err else []))
      else if (OUTPUT_LIMIT <? N.of_nat (length out))%N then
        inl (exec_error name (-1) (§"Recipe output too large: " ++ megabytes (length out) ++
               §"MB (limit: 10MB)") [])
      else
        match json_loads out with
        | Some data => inr (data, err)
        | None =>
            if plain_text then inr (JObj [(§"result", JStr (strip out))], err)
            else inl (exec_error name (-1) (§"JSON parsing failed: " ++ loads_error out ++ 10%N ::
                   §"Output: " ++ out) [])
        end
  end.

Abbreviation attempt := (M runner_state (failure + (json * pystr))).

(** [window.__FRAGO_PARAMS__] is set by a process of its own, within 30 seconds. *)
Definition inject_params name (params : jdict) env : M runner_state (option failure) :=
  match params with
  | [] => mret None
  | _ =>
      r ← _run_subprocess
        {| l_cmd := [§"frago"; §"browser"; §"exec-js";
                     §"window.__FRAGO_PARAMS__ = " ++ dumps (JObj params)];
           l_env := env; l_cwd := None; l_timeout := Some 30%Z |};
      mret (match r with
            | Completed returncode _ err =>
                if (returncode =? 0)%Z then None
                else Some (exec_error name returncode (§"Parameter injection failed: " ++ err) [])
            | TimedOut => Some (exec_error name (-1) (§"Parameter injection timeout") [])
            | Crashed message => Some (OtherError message)
            end)
  end.

Definition _run_chrome_js name (script : path) (params : jdict) env (timeout : option Z) : attempt :=
  injected ← inject_params name params env;
  match injected with
  | Some f => mret (inl f)
  | None =>
      r ← _run_subprocess
        {| l_cmd := [§"frago"; §"browser"; §"exec-js"; path_str script; §"--return-value"];
           l_env := env; l_cwd := None; l_timeout := timeout |};
      mret (read_output name true true timeout r)
  end.

Definition python_launch (script : path) (params : jdict) env (system_python : bool)
    (timeout : option Z) (cwd : option path) : launch :=
  let env := <[§"PYTHONIOENCODING" := §"utf-8"]> env in
  if system_python then
    {| l_cmd := [default (§"/usr/bin/python3") which_python3; path_str script; dumps (JObj params)];
       l_env := delete (§"VIRTUAL_ENV") (delete (§"PYTHONHOME") env); l_cwd := cwd; l_timeout := timeout |}
  else
    {| l_cmd := [§"uv"; §"run"; path_str script; dumps (JObj params)];
       l_env := env; l_cwd := cwd; l_timeout := timeout |}.

Definition _run_python name (script : path) (params : jdict) env (system_python : bool)
    (timeout : option Z) (cwd : option path) : attempt :=
  r ← _run_subprocess (python_launch script params env system_python timeout cwd);
  mret (read_output name true false timeout r).

Definition _run_shell name (script : path) (params : jdict) env (timeout : option Z)
    (cwd : option path) : attempt :=
  match script_executable script with
  | Raise e => mret (inl (OtherError (exn_message e)))
  | Ok false =>
      mret (inl (exec_error name (-1)
        (§"Script does not have execute permission: " ++ path_str script) []))
  | Ok true =>
      r ← _run_subprocess
        {| l_cmd := [path_str script; dumps (JObj params)]; l_env := env; l_cwd := cwd;
           l_timeout := timeout |};
      mret (read_output name false false timeout r)
  end.

(** ** Secrets and parameters *)

(** [v["k"]]. *)
Definition subscript (k : pystr) (v : json) : res json :=
  match v with
  | JObj d => match dget k d with Some x => Ok x | None => Raise KeyError end
  | _ => Raise TypeError
  end.

(** [d.get(k, {})] with a key from a document. *)
Definition get_by (k : json) (d : jdict) : res json :=
  match k with
  | JStr k => Ok (default (JObj []) (dget k d))
  | JArr _ | JObj _ => Raise TypeError
  | _ => Ok (JObj [])
  end.

(** A recipe's own entry of the file, or the one it refers to. *)
Definition secrets_entry (config : option (option json)) name : res json :=
  match config with
  | None => Ok (JObj [])
  | Some None => Raise ValueError
  | Some (Some v) =>
      all_config ← as_obj v;
      let raw := default (JObj []) (dget name all_config) in
      is_ref ← py_in (§"$ref") raw;
      if is_ref : bool then r ← subscript (§"$ref") raw; get_by r all_config else Ok raw
  end.

Fixpoint pick_secrets (keys : list pystr) (raw : json) : res jdict :=
  match keys with
  | [] => Ok []
  | k :: keys =>
      there ← py_in k raw;
      if there : bool then v ← subscript k raw; rest ← pick_secrets keys raw; Ok ((k, v) :: rest)
      else pick_secrets keys raw
  end.

Definition secret_missing (picked : jdict) (kv : pystr * json) : bool :=
  match kv.2 with JObj d => bool_field (§"required") d && negb (dmem kv.1 picked) | _ => false end.

Definition _resolve_secrets (config : option (option json)) name (schema : jdict) : res jdict :=
  raw ← secrets_entry config name;
  picked ← pick_secrets (dkeys schema) raw;
  if existsb (secret_missing picked) schema then Raise RecipeValidationError else Ok picked.

Definition with_secrets w name (m : RecipeMetadata) env : res environ :=
  if truthy (md_secrets m) then
    schema ← as_obj (md_secrets m);
    secrets ← _resolve_secrets (rw_secrets w) name schema;
    Ok (<[§"FRAGO_SECRETS" := dumps (JObj secrets)]> env)
  else Ok env.

(** The declared inputs, each an object. *)
Definition inputs_of (v : json) : res (dict pystr jdict) :=
  d ← as_obj v;
  map_res (λ kv : pystr * json, x ← as_obj kv.2; Ok (kv.1, x)) d.

Definition _validate_params (m : RecipeMetadata) (params : jdict) : res unit :=
  inputs ← inputs_of (md_inputs m);
  validate_params inputs params false.

(** ** The run itself *)

Definition PROXY_KEYS : list pystr :=
  [§"HTTP_PROXY"; §"HTTPS_PROXY"; §"ALL_PROXY"; §"http_proxy"; §"https_proxy"; §"all_proxy"].

Definition process_env w (m : RecipeMetadata) (execution_id : pystr) env : environ :=
  let env := if truthy (md_no_proxy m) then foldl (λ e k, delete k e) env PROXY_KEYS else env in
  match env !! §"FRAGO_CURRENT_RUN" with
  | Some _ => env
  | None => <[§"FRAGO_CURRENT_RUN" := match rw_current_run w with
                                      | Some ((_ :: _) as i) => i
                                      | _ => execution_id
                                      end]> env
  end.

Definition dispatch (r : Recipe) name (params : jdict) env (timeout : option Z) (cwd : option path)
  : attempt :=
  let m := metadata r in
  if str_is (§"chrome-js") (md_runtime m) then _run_chrome_js name (script_path r) params env timeout
  else if str_is (§"python") (md_runtime m) then
    _run_python name (script_path r) params env (truthy (md_system_packages m)) timeout cwd
  else if str_is (§"shell") (md_runtime m) then _run_shell name (script_path r) params env timeout cwd
  else mret (inl (exec_error name (-1) (§"Unsupported runtime type: " ++ py_str (md_runtime m)) [])).

(** The [open_url] of a result is obeyed for the owner only. *)
Definition handle_open_url (ctx : option InvocationContext) (data : json) : M runner_state unit :=
  match data with
  | JObj d =>
      if bool_field (§"open_url") d then
        if match ctx with Some c => is_visitor c | None => false end then mret tt
        else note_opened (jget (§"open_url") d)
      else mret tt
  | _ => mret tt
  end.

Definition run_ending (m : RecipeMetadata) (data : option json) (error : json) (exit_code : Z)
    (duration : Z) : ending :=
  {| en_data := data; en_error := error; en_exit_code := JInt exit_code;
     en_duration_ms := JInt (Z.quot duration 1000); en_runtime := Some (py_str (md_runtime m)) |}.
Definition error_doc (code message : pystr) : json := JObj [(§"code", JStr code); (§"message", JStr message)].

(** The two [except] clauses. *)
Definition record_failure (m : RecipeMetadata) name (execution_id : pystr) (start : Z) (f : failure)
  : M runner_state jdict :=
  now ← gets clock;
  match f with
  | ExecError code message =>
      in_store (complete now execution_id
        (if contains (§"timeout") (str_lower message) then TIMEOUT else FAILED)
        (run_ending m None (error_doc (§"EXECUTION_ERROR") message) code (now - start)));;
      raise (RecipeExecutionError code message)
  | OtherError message =>
      in_store (complete now execution_id FAILED
        (run_ending m None (error_doc (§"EXECUTION_ERROR") message) (-1) (now - start)));;
      raise (RecipeExecutionError (-1) (error_text name (-1) message []))
  end.

Definition success_result (m : RecipeMetadata) name (execution_id : pystr) (data : json)
    (stderr : pystr) (duration : Z) : jdict :=
  [(§"success", JBool true); (§"data", data); (§"stderr", JStr stderr); (§"error", JNull);
   (§"execution_time", JFloat (duration # 1000000)); (§"execution_id", JStr execution_id);
   (§"recipe_name", JStr name); (§"runtime", md_runtime m)].

(** A failure to record the success is itself recorded as a failure. *)
Definition record_success (m : RecipeMetadata) name (execution_id : pystr) (start now : Z) (data : json)
    (err : pystr) : M runner_state jdict := λ s,
  match in_store (complete now execution_id SUCCEEDED
          (run_ending m (match data with JNull => None | _ => Some data end) JNull 0 (now - start))) s with
  | (Ok _, s') => (Ok (success_result m name execution_id data err (now - start)), s')
  | (Raise e, s') => record_failure m name execution_id start (OtherError (exn_message e)) s'
  end.

(** The end of the [try] and its clauses. *)
Definition conclude (m : RecipeMetadata) name (execution_id : pystr) (start : Z)
    (ctx : option InvocationContext) (r : failure + (json * pystr)) : M runner_state jdict :=
  match r with
  | inl f => record_failure m name execution_id start f
  | inr (data, err) =>
      now ← gets clock;
      handle_open_url ctx data;;
      record_success m name execution_id start now data err
  end.

Definition _run_with_execution w (execution_id : pystr) name (r : Recipe) (params : jdict) env
    (timeout : option Z) (ctx : option InvocationContext) : M runner_state jdict :=
  env ← lift_res (apply_to_env env ctx);
  let run_cwd := if rw_workdir_ok w then Some (working_dir name ctx) else None in
  now ← gets clock;
  in_store (transition now execution_id RUNNING);;
  result ← dispatch r name params (process_env w (metadata r) execution_id env) timeout run_cwd;
  conclude (metadata r) name execution_id now ctx result.

Definition execution_request q : request :=
  {| rq_recipe_name := q_name q; rq_params := q_params q;
     rq_source := match q_source q with Some x => JStr x | None => JNull end;
     rq_timeout_seconds := match q_timeout q with Some t => JInt t | None => JNull end;
     rq_workflow_id := JNull; rq_step_index := q_step_index q |}.

(** Everything before the execution is registered. *)
Definition prepare_run w q : M runner_state (Recipe * environ) :=
  r ← lift_res (Registry.find (rw_registry w) (q_name q) (q_source q));
  lift_res (_validate_params (metadata r) (q_params q));;
  env ← in_cache (resolve_for_recipe (rw_files w) (q_env q) (q_workflow q));
  env ← lift_res (with_secrets w (q_name q) (metadata r) env);
  mret (r, env).

Definition run_recipe w q : M runner_state jdict :=
  '(r, env) ← prepare_run w q;
  now ← gets clock;
  in_store (create (rw_uuid w) now (execution_request q));;
  _run_with_execution w (_generate_execution_id (rw_uuid w)) (q_name q) r (q_params q) env
    (q_timeout q) (q_ctx q).

(** [run_async]: the same checks, the record, and the job for the background. *)
Definition run_async w q : M runner_state (pystr * M runner_state unit) :=
  '(r, env) ← prepare_run w q;
  now ← gets clock;
  in_store (create (rw_uuid w) now (execution_request q));;
  let i := _generate_execution_id (rw_uuid w) in
  mret (i, suppress (λ _, true)
    (_run_with_execution w i (q_name q) r (q_params q) env (q_timeout q) (q_ctx q);; mret tt)).

(** [cancel]: [proc] is the entry of [_active_processes], if there is one, and
    whether its process still runs; a process that is killed ends. *)
Definition cancel (proc : option bool) (execution_id : pystr) : M runner_state bool :=
  if decide (proc = Some true) then
    now ← gets clock;
    in_store (complete now execution_id CANCELLED
      {| en_data := None; en_error := error_doc (§"CANCELLED") (§"Execution cancelled by user");
         en_exit_code := JInt (-15); en_duration_ms := JNull; en_runtime := None |});;
    mret true
  else mret false.

(** ** What a run leaves alone *)

(** The variables that carry the context are the same. *)
Definition same_context env env' : Prop :=
  env' !! CALLER_ENV = env !! CALLER_ENV ∧ env' !! SLOT_ENV = env !! SLOT_ENV ∧
  env' !! DATA_DIR_ENV = env !! DATA_DIR_ENV.

Lemma current_same env env' : same_context env env' → current env' = current env.
Proof. intros (E1 & E2 & E3). unfold current, _read. by rewrite E1, E2, E3. Qed.

Lemma same_context_trans e1 e2 e3 : same_context e1 e2 → same_context e2 e3 → same_context e1 e3.
Proof. unfold same_context. intros (-> & -> & ->). done. Qed.

Lemma same_context_insert env k v : k ∉ [CALLER_ENV; SLOT_ENV; DATA_DIR_ENV] → same_context env (<[k := v]> env).
Proof. intros Hk. split_and!; rewrite lookup_insert_ne; [done| |done| |done|]; intros ->; apply Hk; set_solver. Qed.

Lemma same_context_delete env k : k ∉ [CALLER_ENV; SLOT_ENV; DATA_DIR_ENV] → same_context env (delete k env).
Proof. intros Hk. split_and!; rewrite lookup_delete_ne; [done| |done| |done|]; intros ->; apply Hk; set_solver. Qed.

(** A step of the processes: nothing but the list of processes and the clock. *)
Record stepped (D : Z) env s s' : Prop := {
  st_store : store s' = store s;
  st_opened : opened s' = opened s;
  st_clock : (clock s <= clock s' <= clock s + D)%Z;
  st_launched : ∃ ls, launched s' = launched s ++ ls ∧ Forall (λ l, same_context env (l_env l)) ls;
}.

Lemma stepped_same env s : stepped 0 env s s.
Proof. split; [done|done|lia|]. exists []. by rewrite app_nil_r. Qed.

Lemma stepped_trans D D' env s s1 s2 : stepped D env s s1 → stepped D' env s1 s2 → stepped (D + D') env s s2.
Proof.
  intros [A1 A2 A3 (l1 & A4 & A5)] [B1 B2 B3 (l2 & B4 & B5)]. split; [congruence|congruence|lia|].
  exists (l1 ++ l2). rewrite B4, A4, app_assoc. split; [done|]. by apply Forall_app.
Qed.

Lemma stepped_mono D D' env s s' : (D <= D')%Z → stepped D env s s' → stepped D' env s s'.
Proof. intros Hd [A1 A2 A3 A4]. split; [done|done|lia|done]. Qed.

Lemma literal_not_context (k : string) : bool_decide (§k ∉ [CALLER_ENV; SLOT_ENV; DATA_DIR_ENV]) = true →
  §k ∉ [CALLER_ENV; SLOT_ENV; DATA_DIR_ENV].
Proof. apply bool_decide_eq_true_1. Qed.

Lemma same_context_deletes keys env : Forall (λ k, k ∉ [CALLER_ENV; SLOT_ENV; DATA_DIR_ENV]) keys →
  same_context env (foldl (λ e k, delete k e) env keys).
Proof.
  intros Hk. revert env. induction Hk as [|k keys Hk _ IH]; intros env; cbn; [by split_and!|].
  eapply same_context_trans; [by apply same_context_delete|apply IH].
Qed.

Lemma process_env_context w m i env : same_context env (process_env w m i env).
Proof.
  unfold process_env.
  set (env1 := if truthy _ then _ else env). assert (same_context env env1) as Hp.
  { subst env1. destruct (truthy _); [|by split_and!]. apply same_context_deletes.
    unfold PROXY_KEYS. repeat (constructor; [apply literal_not_context; reflexivity|]). constructor. }
  destruct (env1 !! _); [done|]. eapply same_context_trans; [done|].
  apply same_context_insert, literal_not_context. reflexivity.
Qed.

Section bounded.
Context (D : Z) (Hd : ∀ ls, (Z.of_N (process_end ls).2 <= D)%Z).

Lemma bound_nonneg : (0 <= D)%Z.
Proof. specialize (Hd []). lia. Qed.

Lemma subprocess_run l env s : same_context env (l_env l) →
  ∃ r s', _run_subprocess l s = (Ok r, s') ∧ stepped D env s s'.
Proof.
  intros Hl. unfold _run_subprocess. specialize (Hd (launched s ++ [l])).
  destruct (process_end (launched s ++ [l])) as [r d]. cbn in Hd. eexists _, _. split; [done|].
  split; [done|done|cbn; lia|]. exists [l]. split; [done|]. by apply Forall_singleton.
Qed.

Lemma python_context script params env sys timeout cwd :
  same_context env (l_env (python_launch script params env sys timeout cwd)).
Proof.
  unfold python_launch. assert (same_context env (<[§"PYTHONIOENCODING" := §"utf-8"]> env)) as Hp.
  { apply same_context_insert, literal_not_context. reflexivity. }
  destruct sys; [|exact Hp].
  eapply same_context_trans; [exact Hp|]. eapply same_context_trans;
    apply same_context_delete, literal_not_context; reflexivity.
Qed.

(** What the record keeps of an outcome. *)
Definition stored (out : failure + (json * pystr)) : json :=
  match out with
  | inl (ExecError _ message) | inl (OtherError message) => JStr message
  | inr (data, _) => truncate (match data with JNull => None | _ => Some data end)
  end.
Definition small_code (out : failure + (json * pystr)) : Prop :=
  match out with inl (ExecError code _) => (Z.abs code < 2 ^ 32)%Z | _ => True end.
(** The runtime can be written, or what the outcome says of it cannot either. *)
Definition runtime_writes (m : RecipeMetadata) (out : failure + (json * pystr)) : Prop :=
  encodable_str (py_str (md_runtime m)) = true ∨ encodable (stored out) = false.

Lemma read_output_small name detail text timeout ls :
  small_code (read_output name detail text timeout (process_end ls).1).
Proof.
  destruct ((process_end ls).1) as [code out err| |msg] eqn:E; [|done..].
  apply process_code in E. unfold read_output. destruct (negb _); [exact E|]. destruct (_ <? _)%N; [done|].
  destruct (json_loads out); [done|]. by destruct text.
Qed.

(** A process started in an environment ends, and what is read off its end is a
    machine integer's worth. *)
Lemma subprocess_read l env s name detail text timeout : same_context env (l_env l) →
  ∃ p s', _run_subprocess l s = (Ok p, s') ∧ stepped D env s s' ∧ small_code (read_output name detail text timeout p) ∧
    ∀ code out err, p = Completed code out err → (Z.abs code < 2 ^ 32)%Z.
Proof.
  intros Hl. unfold _run_subprocess. pose proof (Hd (launched s ++ [l])) as Hb.
  pose proof (read_output_small name detail text timeout (launched s ++ [l])) as Hr.
  pose proof (process_code (launched s ++ [l])) as Hc.
  destruct (process_end (launched s ++ [l])) as [r d]. cbn in Hb, Hr, Hc. eexists _, _. split; [done|].
  split_and!; [|done|intros; by eapply Hc]. split; [done|done|cbn; lia|]. exists [l]. split; [done|]. by apply Forall_singleton.
Qed.

Lemma literal_runtime m out (t : string) : str_is (§t) (md_runtime m) = true → encodable_str (§t) = true → runtime_writes m out.
Proof. intros E%str_is_iff Ht. left. by rewrite E. Qed.

Lemma unsupported_writes name t : encodable_str t = false →
  encodable_str (error_text name (-1) (§"Unsupported runtime type: " ++ t) []) = false.
Proof.
  intros Ht. assert (error_text name (-1) (§"Unsupported runtime type: " ++ t) [] =
    (§"Recipe '" ++ name ++ §"' execution failed (exit code: " ++ str_of_Z (-1) ++ §"): Unsupported runtime type: ") ++ t) as ->.
  { unfold error_text. rewrite <- !app_assoc. reflexivity. }
  by rewrite encodable_str_app, Ht, andb_false_r.
Qed.

Lemma dispatch_run r name params env timeout cwd s :
  ∃ out s', dispatch r name params env timeout cwd s = (Ok out, s') ∧ stepped (2 * D) env s s' ∧
    small_code out ∧ runtime_writes (metadata r) out.
Proof.
  pose proof bound_nonneg as Hb.
  assert (Hsame : ∀ s, stepped (2 * D) env s s) by (intros; eapply stepped_mono; [|apply stepped_same]; lia).
  assert (Hmono : ∀ s s', stepped D env s s' → stepped (2 * D) env s s') by (intros; eapply stepped_mono; [|done]; lia).
  unfold dispatch. destruct (str_is (§"chrome-js") _) eqn:E1; [|destruct (str_is (§"python") _) eqn:E2; [|destruct (str_is (§"shell") _) eqn:E3]].
  - pose proof (λ out, literal_runtime _ out "chrome-js" E1 eq_refl) as Hrt.
    unfold _run_chrome_js, inject_params. destruct params as [|kv params]; unfold mbind, M_bind; cbn [mret M_ret].
    + edestruct (subprocess_read) as (p & s1 & -> & Hs & Hsm & _); [done|]. cbn. eexists _, _. split; [done|]. eauto.
    + edestruct (λ l s, subprocess_read l env s name true true None) as (p & s1 & -> & Hs & _ & Hcode); [done|]. cbn.
      destruct p as [code out err| |msg]; [destruct (code =? 0)%Z|..].
      2-4: eexists _, _; split; [done|]; split_and!; [by apply Hmono| |done]; first [done|by eapply (Hcode _ _ _ eq_refl)].
      edestruct (subprocess_read) as (p & s2 & -> & Hs2 & Hsm & _); [done|]. cbn. eexists _, _. split; [done|].
      split_and!; [|done|done]. eapply stepped_mono; [|by eapply stepped_trans]. lia.
  - pose proof (λ out, literal_runtime _ out "python" E2 eq_refl) as Hrt. unfold _run_python, mbind, M_bind.
    edestruct (subprocess_read) as (p & s1 & -> & Hs & Hsm & _); [apply python_context|]. cbn. eexists _, _. split; [done|]. eauto.
  - pose proof (λ out, literal_runtime _ out "shell" E3 eq_refl) as Hrt.
    unfold _run_shell. destruct (script_executable (script_path r)) as [[|]|e]; [|by eexists _, _; split_and!..].
    unfold mbind, M_bind. edestruct (subprocess_read) as (p & s1 & -> & Hs & Hsm & _); [done|]. cbn. eexists _, _.
    split; [done|]. eauto.
  - eexists _, _. split; [done|]. split_and!; [done|done|]. unfold runtime_writes.
    destruct (encodable_str (py_str (md_runtime (metadata r)))) eqn:E; [by left|right]. by apply (unsupported_writes name).
Qed.
End bounded.

(** ** How a run is recorded *)

Definition in_range (t : Z) : Prop := (datetime_min <= t <= datetime_max)%Z.

(** The record of a run that has ended, and what its caller gets. *)
Definition ended_as (x : Execution) (r : res jdict) : Prop :=
  match ex_status x with
  | SUCCEEDED => ∃ result data, r = Ok result ∧ dget (§"success") result = Some (JBool true) ∧
      dget (§"execution_id") result = Some (ex_id x) ∧ dget (§"data") result = Some data ∧
      ex_data x = truncate (match data with JNull => None | _ => Some data end) ∧ ex_exit_code x = JInt 0
  | FAILED | TIMEOUT => ∃ code message, r = Raise (RecipeExecutionError code message) ∧
      ex_exit_code x = JInt code
  | _ => False
  end.

(** An ending whose numbers can be printed, and whether its texts can be encoded. *)
Record plain_ending (n : ending) : Prop := {
  pe_error : printable (en_error n) = true;
  pe_code : printable (en_exit_code n) = true ∧ encodable (en_exit_code n) = true;
  pe_duration : printable (en_duration_ms n) = true ∧ encodable (en_duration_ms n) = true;
}.
Definition ending_writes (n : ending) : bool :=
  encodable (truncate (en_data n)) && encodable (en_error n) &&
  match en_runtime n with Some t => encodable_str t | None => true end.

Lemma truncate_printable data : printable (truncate data) = true.
Proof.
  unfold truncate. destruct data as [v|]; [|done]. destruct (printable v) eqn:E; [|done]. cbn [negb].
  destruct (_ <? _)%N; [|done]. destruct v; try done. cbn. rewrite andb_true_r.
  apply forallb_forall. intros x (k & <- & _)%in_map_iff. done.
Qed.

Lemma completed_writes now n e : written e = true → plain_ending n →
  printable (JObj (to_dict (completed now n e))) = true ∧ written (completed now n e) = ending_writes n.
Proof.
  intros Hw [Pe [Pc Ec] [Pd Ed]]. apply written_fields in Hw. unfold fields_of in Hw. rewrite !Forall_cons in Hw.
  destruct Hw as (Hi & Hn & Hps & _ & _ & _ & Hrt & _ & Hto & Hso & Hwf & Hst & _).
  assert (printable (ex_runtime (completed now n e)) = true) as Pr by (cbn; destruct (en_runtime n); [done|exact (proj1 Hrt)]).
  assert (encodable (ex_runtime (completed now n e)) = match en_runtime n with Some t => encodable_str t | None => true end) as Er
    by (unfold completed, ex_runtime at 1; destruct (en_runtime n); [reflexivity|exact (proj2 Hrt)]).
  assert (printable (JObj (to_dict (completed now n e))) = true) as Hp.
  { apply printable_fields. unfold fields_of. rewrite !Forall_cons. cbn [completed ex_id ex_recipe_name ex_params ex_data
      ex_error ex_exit_code ex_runtime ex_duration_ms ex_timeout_seconds ex_source ex_workflow_id ex_step_index] in *.
    split_and!; try tauto; try done. apply truncate_printable. }
  split; [done|]. unfold written. rewrite Hp. cbn [andb]. apply eq_true_iff_eq. unfold ending_writes.
  rewrite <- Er, encodable_fields, !andb_true_iff. unfold fields_of. rewrite !Forall_cons, Forall_nil.
  cbn [completed ex_id ex_recipe_name ex_params ex_data ex_error ex_exit_code ex_runtime ex_duration_ms ex_timeout_seconds
    ex_source ex_workflow_id ex_step_index] in *. tauto.
Qed.

Lemma complete_from_running now i st n st0 e : store_ok st0 → in_range now → plain i →
  recorded st0 i = Some e → ex_status e = RUNNING →
  st ∈ [SUCCEEDED; FAILED; TIMEOUT; CANCELLED] → plain_ending n →
  ∃ e' st1, complete now i st n st0 = (if ending_writes n then Ok (completed now n e') else Raise ValueError, st1) ∧
    store_ok st1 ∧ ex_status e' = st ∧ ex_id e' = ex_id e ∧
    ∀ j, recorded st1 j = if decide (j = i) then (if ending_writes n then Some (completed now n e') else None)
                          else recorded st0 j.
Proof.
  intros Hs Hn Hp He Hr Hst Hpl. pose proof (complete_run now i st n st0 Hs Hn Hp) as Hc. rewrite He in Hc.
  unfold transition_to in Hc. rewrite decide_True in Hc by (by rewrite Hr).
  destruct Hc as (st1 & Hc & Hs1 & Hrec). set (e' := {| ex_id := ex_id e |}) in *.
  destruct (completed_writes now n e') as [Hpr Hw]; [|done|].
  { destruct (recorded_inv st0 i e Hs He) as (_ & _ & _ & _ & Hw & _). apply written_fields in Hw. by apply written_fields. }
  exists e', st1. unfold after_write in Hrec. rewrite Hw, Hpr in Hrec. rewrite Hw in Hc. split_and!; done.
Qed.

Lemma in_store_run {A} (m : M ExecutionStore A) s r st : m (store s) = (r, st) →
  in_store m s = (r, {| store := st; env_cache := env_cache s; launched := launched s;
                        opened := opened s; clock := clock s |}).
Proof. unfold in_store. by intros ->. Qed.

(** What the end of a run does to a record that is running: its final state, or, when
    that cannot be encoded, its loss. *)
Record concluded i (out : failure + (json * pystr)) s (r : res jdict) s' : Prop := {
  co_store : store_ok (store s');
  co_clock : clock s' = clock s;
  co_launched : launched s' = launched s;
  co_opened : ∃ l, opened s' = opened s ++ l;
  co_record : if encodable (stored out)
              then ∃ x, recorded (store s') i = Some x ∧ ex_id x = JStr i ∧ ended_as x r
              else recorded (store s') i = None ∧ ∃ e, r = Raise e;
  co_others : ∀ j, j ≠ i → recorded (store s') j = recorded (store s) j;
}.

Lemma error_doc_writes t : encodable (error_doc (§"EXECUTION_ERROR") t) = encodable_str t.
Proof. transitivity (true && (true && encodable_str t && true)); [reflexivity|]. by rewrite andb_true_r. Qed.

Lemma run_ending_plain m data message code d : (Z.abs code < 2 ^ 32)%Z → (Z.abs d < 2 ^ 64)%Z →
  plain_ending (run_ending m data (match message with Some t => error_doc (§"EXECUTION_ERROR") t | None => JNull end) code d).
Proof.
  intros Hc Hd. split; cbn [run_ending en_error en_exit_code en_duration_ms en_runtime].
  - by destruct message.
  - split; [|done]. cbn. apply int_printable_small. lia.
  - split; [|done]. cbn. apply int_printable_small. pose proof (Z.quot_abs d 1000 ltac:(done)) as E.
    rewrite <- E. pose proof (Z.quot_le_upper_bound (Z.abs d) (Z.abs 1000) (Z.abs d)). lia.
Qed.

Lemma writes_stored m out : runtime_writes m out →
  encodable (stored out) && encodable_str (py_str (md_runtime m)) = encodable (stored out).
Proof. intros [->| ->]; [by rewrite andb_true_r|done]. Qed.

Lemma record_failure_run m name i start f s e : store_ok (store s) → in_range (clock s) → plain i →
  recorded (store s) i = Some e → ex_status e = RUNNING → ex_id e = JStr i →
  small_code (inl f) → runtime_writes m (inl f) → (Z.abs (clock s - start) < 2 ^ 64)%Z →
  let '(r, s') := record_failure m name i start f s in concluded i (inl f) s r s' ∧ opened s' = opened s.
Proof.
  intros Hs Hn Hp He Hr Hid Hc Hrt Hd. unfold record_failure, mbind, M_bind. cbn [gets].
  set (st := match f with ExecError _ message => if contains (§"timeout") (str_lower message) then TIMEOUT else FAILED | OtherError _ => FAILED end).
  set (message := match f with ExecError _ t | OtherError t => t end).
  set (code := match f with ExecError c _ => c | OtherError _ => (-1)%Z end).
  assert (Z.abs code < 2 ^ 32)%Z as Hcode by (subst code; destruct f; [exact Hc|done]).
  set (n := run_ending m None (error_doc (§"EXECUTION_ERROR") message) code (clock s - start)).
  destruct (complete_from_running (clock s) i st n (store s) e Hs Hn Hp He Hr) as (e' & st1 & Hcm & Hs1 & Hst & Hid' & Hrec).
  { subst st. destruct f; [destruct (contains _ _)|]; set_solver. }
  { by apply (run_ending_plain m None (Some message)). }
  assert (ending_writes n = encodable (stored (inl f))) as Hw.
  { rewrite <- (writes_stored m (inl f) Hrt). unfold ending_writes. cbn [n run_ending en_data en_error en_runtime truncate].
    f_equal. change (encodable JNull) with true. cbn [andb]. rewrite error_doc_writes. subst message. by destruct f. }
  rewrite Hw in Hcm, Hrec.
  assert (∃ err, (match f with
    | ExecError code message => in_store (complete (clock s) i (if contains (§"timeout") (str_lower message) then TIMEOUT else FAILED)
        (run_ending m None (error_doc (§"EXECUTION_ERROR") message) code (clock s - start)));;
        raise (RecipeExecutionError code message)
    | OtherError message => in_store (complete (clock s) i FAILED
        (run_ending m None (error_doc (§"EXECUTION_ERROR") message) (-1) (clock s - start)));;
        raise (RecipeExecutionError (-1) (error_text name (-1) message []))
    end : M runner_state jdict) s = (Raise err, {| store := st1; env_cache := env_cache s; launched := launched s; opened := opened s; clock := clock s |}) ∧
    (encodable (stored (inl f)) = true → ∃ text, err = RecipeExecutionError code text)) as (err & E & Herr).
  { subst st n message code. destruct f as [c t|t]; unfold mbind, M_bind; rewrite (in_store_run _ _ _ _ Hcm);
      destruct (encodable _); (eexists; split; [reflexivity|]); [by eexists|done|by eexists|done]. }
  unfold mbind, M_bind in E. rewrite E. split; [|done].
  split; cbn [store clock launched opened]; [done|done|done|by exists []; rewrite app_nil_r| |intros j Hj; by rewrite Hrec, decide_False].
  rewrite Hrec, decide_True by done. destruct (encodable (stored (inl f))) eqn:En; [|by split; [|eexists]].
  destruct (Herr eq_refl) as [text ->]. exists (completed (clock s) n e'). split; [done|]. split; [cbn; congruence|].
  unfold ended_as. cbn [completed ex_status]. rewrite Hst. subst st. destruct f; [destruct (contains _ _)|]; by exists code, text.
Qed.

Lemma open_url_run ctx data s : ∃ s', handle_open_url ctx data s = (Ok tt, s') ∧ store s' = store s ∧
  launched s' = launched s ∧ clock s' = clock s ∧ (∃ l, opened s' = opened s ++ l) ∧
  (∀ c, ctx = Some c → is_visitor c = true → opened s' = opened s).
Proof.
  assert (∃ l, opened s = opened s ++ l) as Hn by (exists []; by rewrite app_nil_r).
  unfold handle_open_url. destruct data; try by eexists.
  destruct (bool_field _ _); [|by eexists]. destruct ctx as [c|].
  - destruct (is_visitor c) eqn:Ev; [by eexists|]. eexists. split; [done|]. split_and!; [done|done|done|by eexists|].
    intros c' [= <-] Hv. congruence.
  - eexists. split; [done|]. split_and!; [done|done|done|by eexists|done].
Qed.

Lemma conclude_run m name i start ctx out s e : store_ok (store s) → in_range (clock s) → plain i →
  recorded (store s) i = Some e → ex_status e = RUNNING → ex_id e = JStr i →
  small_code out → runtime_writes m out → (Z.abs (clock s - start) < 2 ^ 64)%Z →
  let '(r, s') := conclude m name i start ctx out s in
  concluded i out s r s' ∧ (∀ c, ctx = Some c → is_visitor c = true → opened s' = opened s).
Proof.
  intros Hs Hn Hp He Hr Hid Hsm Hrt Hd. unfold conclude. destruct out as [f|[data err]].
  { pose proof (record_failure_run m name i start f s e Hs Hn Hp He Hr Hid Hsm Hrt Hd) as Hf.
    destruct (record_failure _ _ _ _ _ s) as [r s']. destruct Hf as [Hc Ho]. by split. }
  unfold mbind, M_bind. cbn [gets].
  destruct (open_url_run ctx data s) as (s1 & -> & E1 & E2 & E3 & (l & E4) & E5).
  unfold record_success. set (n := run_ending _ _ _ _ _). rewrite <- E1 in Hs, He.
  destruct (complete_from_running (clock s) i SUCCEEDED n (store s1) e Hs Hn Hp He Hr)
    as (e' & st1 & Hc & Hs1 & Hst & Hid' & Hrec); [set_solver|by apply (run_ending_plain m _ None)|].
  assert (ending_writes n = encodable (stored (inr (data, err)))) as Hw.
  { rewrite <- (writes_stored m _ Hrt). unfold ending_writes. cbn [n run_ending en_data en_error en_runtime].
    by rewrite andb_true_r. }
  rewrite Hw in Hc, Hrec. rewrite (in_store_run _ _ _ _ Hc). destruct (encodable (stored _)) eqn:En.
  - split; [|done]. split; cbn [store clock launched opened]; [done|done|done|by exists l| |].
    + rewrite En. exists (completed (clock s) n e'). rewrite Hrec, decide_True by done. split; [done|].
      assert (ex_id (completed (clock s) n e') = JStr i) as Hx by (cbn; congruence). split; [done|].
      unfold ended_as. rewrite Hx. cbn [completed ex_status]. rewrite Hst.
      by exists (success_result m name i data err (clock s - start)), data.
    + intros j Hj. rewrite Hrec, decide_False by done. by rewrite E1.
  - set (s2 := {| store := st1 |}).
    assert (∃ err', record_failure m name i start (OtherError (exn_message ValueError)) s2 = (Raise err', s2)) as [err' ->].
    { pose proof (complete_run (clock s2) i FAILED (run_ending m None (error_doc (§"EXECUTION_ERROR") (exn_message ValueError))
        (-1) (clock s2 - start)) (store s2) Hs1 ltac:(cbn; by rewrite E3) Hp) as Hc2.
      change (store s2) with st1 in Hc2 at 1. rewrite Hrec, decide_True in Hc2 by done.
      unfold record_failure, mbind, M_bind. cbn [gets]. rewrite (in_store_run _ _ _ _ Hc2). by eexists. }
    split; [|done]. split; cbn [s2 store clock launched opened]; [done|done|done|by exists l| |].
    + rewrite En. split; [by rewrite Hrec, decide_True|by eexists].
    + intros j Hj. rewrite Hrec, decide_False by done. by rewrite E1.
Qed.

Lemma prepare_same w q s : let s1 := (prepare_run w q s).2 in
  store s1 = store s ∧ launched s1 = launched s ∧ opened s1 = opened s ∧ clock s1 = clock s.
Proof.
  unfold prepare_run, mbind, M_bind, lift_res. destruct (Registry.find _ _ _) as [r|e]; [|done].
  destruct (_validate_params _ _) as [[]|e]; [|done]. unfold in_cache.
  destruct (resolve_for_recipe _ _ _ (env_cache s)) as [[env|e] c]; [|done].
  by destruct (with_secrets _ _ _ _).
Qed.

(** What the process made of the run, if it came to one. *)
Definition attempted w (i : pystr) name (r : Recipe) (params : jdict) env (timeout : option Z)
    (ctx : option InvocationContext) s : option (failure + (json * pystr)) :=
  match apply_to_env env ctx, in_store (transition (clock s) i RUNNING) s with
  | Ok env, (Ok _, s) =>
      match dispatch r name params (process_env w (metadata r) i env) timeout
              (if rw_workdir_ok w then Some (working_dir name ctx) else None) s with
      | (Ok out, _) => Some out
      | _ => None
      end
  | _, _ => None
  end.
Definition run_outcome w q s : option (failure + (json * pystr)) :=
  match prepare_run w q s with
  | (Ok (r, env), s) =>
      match in_store (create (rw_uuid w) (clock s) (execution_request q)) s with
      | (Ok _, s) => attempted w (_generate_execution_id (rw_uuid w)) (q_name q) r (q_params q) env (q_timeout q) (q_ctx q) s
      | _ => None
      end
  | _ => None
  end.

Lemma run_with_execution_run D w i name r params env timeout ctx s e :
  (∀ ls, (Z.of_N (process_end ls).2 <= D)%Z) → (datetime_min <= clock s)%Z → (clock s + 2 * D <= datetime_max)%Z →
  store_ok (store s) → plain i → recorded (store s) i = Some e → ex_status e = PENDING → ex_id e = JStr i →
  let '(res, s') := _run_with_execution w i name r params env timeout ctx s in
  store_ok (store s') ∧ (∀ j, j ≠ i → recorded (store s') j = recorded (store s) j) ∧
  (∀ c, ctx = Some c → is_visitor c = true → opened s' = opened s) ∧
  match apply_to_env env ctx with
  | Raise err => attempted w i name r params env timeout ctx s = None ∧
      res = Raise err ∧ launched s' = launched s ∧ recorded (store s') i = Some e
  | Ok env' =>
      (∃ ls, launched s' = launched s ++ ls ∧ Forall (λ l, same_context env' (l_env l)) ls) ∧
      ∃ out, attempted w i name r params env timeout ctx s = Some out ∧
        if encodable (stored out) then ∃ x, recorded (store s') i = Some x ∧ ended_as x res
        else recorded (store s') i = None ∧ ∃ err, res = Raise err
  end.
Proof.
  intros HD Hlo Hhi Hs Hp He Hpend Hid. pose proof (bound_nonneg D HD) as H0'.
  unfold _run_with_execution, attempted, mbind, M_bind, lift_res. destruct (apply_to_env env ctx) as [env'|err]; [|done].
  cbn [gets]. pose proof (transition_run (clock s) i RUNNING (store s) Hs ltac:(unfold in_range; lia) Hp) as Ht.
  rewrite He in Ht. unfold transition_to in Ht. rewrite decide_True in Ht by (rewrite Hpend; set_solver).
  destruct Ht as (st1 & Ht & Hs1 & Hrec). rewrite (in_store_run _ _ _ _ Ht). set (s1 := {| store := st1 |}).
  set (env2 := process_env w (metadata r) i env'). set (cwd := if rw_workdir_ok w then _ else None).
  destruct (dispatch_run D HD r name params env2 timeout cwd s1) as (out & s2 & -> & [A1 A2 A3 (ls & A4 & A5)] & Hsm & Hrt).
  set (e1 := {| ex_id := ex_id e |}) in Hrec. cbn in A3.
  assert (recorded (store s2) i = Some e1) as He1 by (rewrite A1; cbn; by rewrite Hrec, decide_True).
  assert (Z.abs (clock s2 - clock s) < 2 ^ 64)%Z as Hd.
  { unfold datetime_min, datetime_max in *. change (2 ^ 64)%Z with 18446744073709551616%Z. lia. }
  pose proof (conclude_run (metadata r) name i (clock s) ctx out s2 e1) as Hc.
  destruct (conclude _ _ _ _ _ _ s2) as [res s3].
  destruct Hc as [[B1 _ B2 (l & B3) B4 B5] B6]; [by rewrite A1|unfold in_range; lia|done..|].
  split; [done|]. split; [intros j Hj; rewrite B5, A1 by done; cbn; by rewrite Hrec, decide_False|].
  split; [intros c Hcx Hv; rewrite (B6 c Hcx Hv), A2; done|]. split.
  - exists ls. rewrite B2, A4. split; [done|]. eapply Forall_impl; [exact A5|]. intros la Hl.
    eapply same_context_trans; [apply process_env_context|exact Hl].
  - exists out. split; [done|]. destruct (encodable (stored out)); [|done]. destruct B4 as (x & Hx & _ & Hend). by exists x.
Qed.

(** C15. A run is recorded as it ended.  Whatever the recipe, its files and its
    process do, a run leaves every other record alone, and its own tells what
    happened.  If it came to a process or a refusal of one, and what the record is to
    keep of that can be encoded, the record says it succeeded exactly when the caller
    gets a result, whose data it holds, and that it failed or timed out exactly when the
    caller gets the execution error whose code it holds.  If it cannot be encoded, which
    takes half a surrogate pair in the data or the message, there is no record and the
    caller gets an exception.  A run that came to nothing raised, started no process, and
    has no record; or it is left pending, only for a context that names no slot or
    directory. *)
Theorem run_is_recorded D w q s : (∀ ls, (Z.of_N (process_end ls).2 <= D)%Z) →
  (datetime_min <= clock s)%Z → (clock s + 2 * D <= datetime_max)%Z → store_ok (store s) →
  let i := _generate_execution_id (rw_uuid w) in
  fresh_id (store s) i → plain i →
  let '(r, s') := run_recipe w q s in
  store_ok (store s') ∧ (∀ j, j ≠ i → recorded (store s') j = recorded (store s) j) ∧
  match run_outcome w q s with
  | Some out =>
      if encodable (stored out) then ∃ x, recorded (store s') i = Some x ∧ ended_as x r
      else recorded (store s') i = None ∧ ∃ e, r = Raise e
  | None => launched s' = launched s ∧
      (recorded (store s') i = None ∧ (∃ e, r = Raise e) ∨
       ∃ x, recorded (store s') i = Some x ∧ ex_status x = PENDING ∧ r = Raise InvalidInvocationContext)
  end.
Proof.
  intros HD Hlo Hhi Hs i Hf Hp. pose proof (bound_nonneg D HD) as H0'. unfold run_recipe, run_outcome, mbind, M_bind.
  pose proof (prepare_same w q s) as Hprep. destruct (prepare_run w q s) as [[[r env]|e] s1].
  2: { destruct Hprep as (E1 & E2 & _). cbn in E1, E2. rewrite E1. split; [done|]. split; [done|]. split; [done|]. left.
       split; [by apply fresh_unrecorded|by eexists]. }
  destruct Hprep as (E1 & E2 & _ & E4). cbn in E1, E2, E4. cbn [gets]. rewrite E4.
  rewrite <- E1 in Hs, Hf. set (x := new_execution (rw_uuid w) (clock s) (execution_request q)).
  destruct (create_run (rw_uuid w) (clock s) (execution_request q) (store s1) Hs ltac:(unfold in_range; lia) Hf)
    as (st2 & Hc & Hs2 & _ & Hrec). fold x in Hc, Hrec. fold i in Hrec.
  rewrite (in_store_run _ _ _ _ Hc). set (s2 := {| store := st2 |}). fold i. destruct (written x) eqn:Hw.
  2: { split; [done|]. split; [intros j Hj; cbn; by rewrite Hrec, decide_False, E1|]. split; [done|]. left.
       cbn. rewrite Hrec, decide_True by done. split; [done|by eexists]. }
  pose proof (run_with_execution_run D w i (q_name q) r (q_params q) env (q_timeout q) (q_ctx q) s2 x HD) as Hrun.
  destruct (_run_with_execution _ _ _ _ _ _ _ _ s2) as [res s3].
  destruct Hrun as (B1 & B2 & _ & B3); [cbn; lia|cbn; lia|done|done|cbn; by rewrite Hrec, decide_True|done|done|].
  split; [done|]. split; [intros j Hj; rewrite B2 by done; cbn; by rewrite Hrec, decide_False, E1|].
  destruct (apply_to_env env (q_ctx q)) as [env'|err] eqn:Ea.
  - destruct B3 as (_ & out & -> & Hx). done.
  - destruct B3 as (-> & -> & B4 & ->). split; [by rewrite B4; cbn|]. right. exists x. split; [done|]. split; [done|].
    revert Ea. unfold apply_to_env. destruct (q_ctx q) as [c|]; [|done]. destruct (is_visitor c); [|done].
    destruct (slot c) as [[|]|], (data_dir c); by intros [= <-].
Qed.

(** C20. A recipe's process knows for whom it runs.  Whatever the [.env] files, the
    command line, the workflow or the server's own variables say, every process
    a run starts reads back the context the run was started with, a visitor's or
    the owner's; and a visitor's run never opens a page on the owner's screen. *)
Theorem run_context_reaches_process D w q s : (∀ ls, (Z.of_N (process_end ls).2 <= D)%Z) →
  (datetime_min <= clock s)%Z → (clock s + 2 * D <= datetime_max)%Z → store_ok (store s) →
  fresh_id (store s) (_generate_execution_id (rw_uuid w)) → plain (_generate_execution_id (rw_uuid w)) →
  (∀ x, (q_ctx q ≫= slot) = Some x → strip x = x) →
  (∀ d, (q_ctx q ≫= data_dir) = Some d → strip (path_str d) = path_str d ∧ expand (path_str d) = d) →
  let s' := (run_recipe w q s).2 in
  (∃ ls, launched s' = launched s ++ ls ∧ Forall (λ l, current (l_env l) = Ok (effective (q_ctx q))) ls) ∧
  (∀ c, q_ctx q = Some c → is_visitor c = true → opened s' = opened s).
Proof.
  intros HD Hlo Hhi Hs Hf Hp Hslot Hdir. pose proof (bound_nonneg D HD) as H0'.
  unfold run_recipe, mbind, M_bind. set (i := _generate_execution_id (rw_uuid w)) in *.
  pose proof (prepare_same w q s) as Hprep. destruct (prepare_run w q s) as [[[r env]|e] s1];
    destruct Hprep as (E1 & E2 & E3 & E4); cbn in E1, E2, E3, E4 |- *.
  2: { split; [|done]. exists []. by rewrite app_nil_r. }
  rewrite <- E1 in Hs, Hf.
  destruct (create_run (rw_uuid w) (clock s1) (execution_request q) (store s1) Hs
    ltac:(unfold in_range; lia) Hf) as (st2 & Hc & Hs2 & _ & Hrec).
  rewrite (in_store_run _ _ _ _ Hc). set (s2 := {| store := st2 |}). fold i in Hrec.
  destruct (written _); cbn; [|split; [|done]; exists []; by rewrite app_nil_r].
  pose proof (run_with_execution_run D w i (q_name q) r (q_params q) env (q_timeout q) (q_ctx q) s2
    (new_execution (rw_uuid w) (clock s1) (execution_request q)) HD) as Hrun.
  destruct (_run_with_execution _ _ _ _ _ _ _ _ s2) as [res s3].
  destruct Hrun as (_ & _ & B2 & B3); [cbn; lia|cbn; lia|done|done|cbn; by rewrite Hrec, decide_True|done|done|].
  split; [|intros c Hcx Hv; cbn; by rewrite (B2 c Hcx Hv); cbn].
  destruct (apply_to_env env (q_ctx q)) as [env'|err] eqn:Ea; cbn.
  - destruct B3 as ((ls & B4 & B5) & _). exists ls. rewrite B4. cbn. rewrite E2. split; [done|].
    eapply Forall_impl; [exact B5|]. intros l Hl. rewrite (current_same _ _ Hl).
    by apply (apply_current_roundtrip env).
  - destruct B3 as (_ & _ & B4 & _). exists []. by rewrite B4, app_nil_r.
Qed.

(** *** Cancelling *)

Lemma complete_at_rest now i st n st0 e : store_ok st0 → in_range now → plain i →
  recorded st0 i = Some e → is_terminal e = true →
  complete now i st n st0 = (Raise InvalidTransitionError, st0).
Proof.
  intros Hs Hn Hp He Ht. pose proof (complete_run now i st n st0 Hs Hn Hp) as Hc. rewrite He in Hc.
  unfold transition_to in Hc. rewrite decide_False in Hc; [done|].
  unfold is_terminal in Ht. destruct (VALID_TRANSITIONS (ex_status e)); [|done]. apply not_elem_of_nil.
Qed.

Lemma conclude_at_rest m name i start ctx out s e : store_ok (store s) → in_range (clock s) → plain i →
  recorded (store s) i = Some e → is_terminal e = true →
  let '(r, s') := conclude m name i start ctx out s in
  r = Raise InvalidTransitionError ∧ store s' = store s.
Proof.
  intros Hs Hn Hp He Ht.
  assert (∀ f s1, store s1 = store s → clock s1 = clock s →
    let '(r, s') := record_failure m name i start f s1 in r = Raise InvalidTransitionError ∧ store s' = store s) as Hf.
  { intros f s1 E1 E2. rewrite <- E1 in Hs, He. rewrite <- E2 in Hn. unfold record_failure, mbind, M_bind.
    cbn [gets]. by destruct f; rewrite (in_store_run _ _ _ _ (complete_at_rest _ i _ _ _ e Hs Hn Hp He Ht)). }
  unfold conclude. destruct out as [f|[data err]]; [by apply Hf|]. unfold mbind, M_bind. cbn [gets].
  destruct (open_url_run ctx data s) as (s1 & -> & E1 & _ & E3 & _). unfold record_success.
  rewrite <- E1 in Hs, He. rewrite (in_store_run _ _ _ _ (complete_at_rest _ i _ _ _ e Hs Hn Hp He Ht)).
  apply Hf; cbn; [done|]. done.
Qed.

(** Cancelling races with the end of the run.  Both write the final state of
    the record.  Whichever comes first decides it, and the other is left with an
    invalid transition: a cancelled run raises that instead of the execution
    error, and a cancellation that comes second raises it instead of returning. *)
Theorem cancel_races_with_run m name i start ctx out s e : store_ok (store s) → in_range (clock s) →
  plain i → recorded (store s) i = Some e → ex_status e = RUNNING → ex_id e = JStr i →
  small_code out → runtime_writes m out → encodable (stored out) = true → (Z.abs (clock s - start) < 2 ^ 64)%Z →
  (let '(r1, s1) := cancel (Some true) i s in let '(r2, s2) := conclude m name i start ctx out s1 in
   r1 = Ok true ∧ r2 = Raise InvalidTransitionError ∧
   option_map ex_status (recorded (store s2) i) = Some CANCELLED) ∧
  (let '(r1, s1) := conclude m name i start ctx out s in let '(r2, s2) := cancel (Some true) i s1 in
   r2 = Raise InvalidTransitionError ∧
   ∃ x, recorded (store s2) i = Some x ∧ ended_as x r1).
Proof.
  intros Hs Hn Hp He Hr Hid Hsm Hrt Hen Hd. split.
  - unfold cancel, mbind, M_bind. rewrite decide_True by done. cbn [gets]. set (n := {| en_data := None |}).
    destruct (complete_from_running (clock s) i CANCELLED n (store s) e Hs Hn Hp He Hr)
      as (e' & st1 & Hc & Hs1 & Hst & _ & Hrec); [set_solver|by split|].
    change (ending_writes n) with true in Hc, Hrec. rewrite (in_store_run _ _ _ _ Hc). cbn [mret M_ret]. set (s1 := {| store := st1 |}).
    assert (recorded (store s1) i = Some (completed (clock s) n e')) as He1 by (cbn; by rewrite Hrec, decide_True).
    pose proof (conclude_at_rest m name i start ctx out s1 _ Hs1 Hn Hp He1) as Hc2.
    destruct (conclude _ _ _ _ _ _ s1) as [r2 s2]. destruct Hc2 as [-> Est].
    { unfold is_terminal. cbn [completed ex_status]. by rewrite Hst. }
    split; [done|]. split; [done|]. rewrite Est, He1. cbn. by rewrite Hst.
  - pose proof (conclude_run m name i start ctx out s e Hs Hn Hp He Hr Hid Hsm Hrt Hd) as Hc.
    destruct (conclude _ _ _ _ _ _ s) as [r1 s1] eqn:Ec. destruct Hc as [[B1 Hcl _ _ B4 _] _].
    rewrite Hen in B4. destruct B4 as (x & B4 & _ & B6).
    unfold cancel, mbind, M_bind. rewrite decide_True by done. cbn [gets].
    assert (is_terminal x = true) as Hx.
    { unfold ended_as in B6. unfold is_terminal. by destruct (ex_status x). }
    rewrite <- Hcl in Hn.
    rewrite (in_store_run _ _ _ _ (complete_at_rest _ i _ _ _ x B1 Hn Hp B4 Hx)). split; [done|]. by exists x.
Qed.

(** *** What the scheduler makes of a run *)

#[local] Ltac split_store :=
  cbn [gets]; match goal with |- context [in_store ?m ?s] => destruct (in_store m s) as [[?|?] ?] end.

Lemma run_result w q s d : (run_recipe w q s).1 = Ok d →
  ∃ m name i data err took, d = success_result m name i data err took.
Proof.
  unfold run_recipe, mbind, M_bind. destruct (prepare_run w q s) as [[[r env]|e] s1]; [|done].
  split_store; [|done].
  unfold _run_with_execution, mbind, M_bind, lift_res. destruct (apply_to_env _ _) as [env'|e]; [|done].
  cbn [gets]. split_store; [|done].
  destruct (dispatch _ _ _ _ _ _ _) as [[out|e] s4]; [|done].
  assert (∀ m name i st f s', (record_failure m name i st f s').1 ≠ Ok d) as Hf.
  { intros m name j st f s'. unfold record_failure, mbind, M_bind. cbn [gets].
    by destruct f; split_store. }
  unfold conclude. destruct out as [f|[data err]]; [by intros ?%Hf|]. unfold mbind, M_bind. cbn [gets].
  destruct (handle_open_url _ _ s4) as [[?|e] s5]; [|done]. unfold record_success.
  split_store; [intros [= <-]; by eexists _, _, _, _, _, _|by intros ?%Hf].
Qed.

Section scheduled.
Context `{Crypto, Executor}.
Context (is_runner : ∀ now recipe params timeout v, (recipe_run now recipe params timeout).1 = inl v →
  ∃ w q s d, (run_recipe w q s).1 = Ok d ∧ v = JObj d).

(** A scheduled recipe is never heard.  The runner hands the recipe's own JSON
    under [data], and the scheduler looks for it under [output]: so a recipe that
    ran counts as a success even when its JSON says [success: false], no [notify]
    text is ever found in what it says, and a task that speaks on change, as
    tasks do by default, says nothing after a run, unless it failed before. *)
Theorem scheduled_recipe_never_heard now schedule outcome took prev cfg v :
  run_scheduled now schedule = Ok (outcome, took) → out_kind outcome = JStr (§"recipe") →
  (∀ recipe params timeout, (recipe_run now recipe params timeout).1 = inl v) →
  notify_cfg schedule = Ok cfg → default (JStr (§"change")) (dget (§"on") cfg) = JStr (§"change") →
  failures_of prev = Ok 0%Z →
  out_ok outcome = true ∧ notify_text outcome = None ∧
  ∃ why, decide_notification schedule outcome prev = Ok (silent why).
Proof.
  intros Hrun Hk Hv Hcfg Hon Hprev.
  assert (out_ok outcome = true ∧ notify_text outcome = None) as [Hok Hnt].
  { revert Hrun. unfold run_scheduled, mbind, res_bind. destruct (py_int _) as [timeout|]; [|done].
    destruct (str_is (§"command") _).
    { intros Heq%Ok_inj. revert Heq Hk. unfold execute_command.
      destruct (shell_run _ _ _ _) as [[] ?]; by intros [= <- <-]. }
    destruct (str_is (§"recipe") _); [|done]. intros Heq%Ok_inj. revert Heq. unfold execute_recipe.
    set (rc := jor (jget (§"recipe") schedule) _). set (ps := jor (jget (§"params") schedule) _).
    pose proof (Hv rc ps timeout) as E. destruct (is_runner _ _ _ _ _ E) as (w & q & s & d & Hd & Ev).
    destruct (run_result _ _ _ _ Hd) as (m & name & i & data & err & dur & ->). subst v.
    destruct (recipe_run now rc ps timeout) as [r tk]. cbn in E. subst r. intros [= <- <-]. done. }
  split; [done|]. split; [done|]. unfold decide_notification. rewrite Hcfg. unfold mbind, res_bind.
  rewrite Hon, Hok, Hprev, Hk, Hnt. by eexists.
Qed.
End scheduled.
End runner.

(** ** A run, evaluated *)

Module RunDemo.
#[export] Existing Instance ascii_db.
#[export] Existing Instance repr_mark.
#[export] Existing Instance posix_paths.
#[export] Existing Instance char_clock.
#[export] Existing Instance toy_crypto.
(** Whatever is printed parses to a report that has something to say. *)
#[export] Instance report : JsonText :=
  {| json_loads _ := Some (JObj [(§"success", JBool false); (§"notify", JStr (§"new"))]);
     json_dumps _ := [] |}.
#[export] Instance named : Rglob :=
  {| rglob l stem := filter (λ q : place, q.2 = stem) l; rglob_in := named_in;
     rglob_plain _ _ _ := eq_refl |}.
#[export] Instance small : DumpLength := λ _, 0%N.
#[export] Instance any_text : Regex := λ _ _, Some true.
Lemma zero_code (ls : list launch) code out err :
  (Completed 0 (§"{}") [], 5%N).1 = Completed code out err → (Z.abs code < 2 ^ 32)%Z.
Proof. by intros [= <- _ _]. Qed.
(** Every process prints its report, in five microseconds. *)
#[export] Instance prints : Runtime :=
  {| process_end _ := (Completed 0 (§"{}") [], 5%N); process_code := zero_code; script_executable _ := Ok true;
     which_python3 := None; dumps _ := §"{}"; loads_error _ := []; exn_message _ := [] |}.

Definition notes : Recipe :=
  {| metadata :=
       {| md_name := JStr (§"notes"); md_type := JStr (§"atomic"); md_runtime := JStr (§"shell");
          md_version := JStr (§"1.0"); md_description := JStr (§"demo"); md_use_cases := JArr [];
          md_output_targets := JArr []; md_inputs := JObj []; md_outputs := JObj [];
          md_dependencies := JArr []; md_tags := JArr []; md_secrets := JObj [];
          md_system_packages := JBool false; md_no_proxy := JBool true; md_daemon := JBool false;
          md_restart_policy := JNull; md_warnings := JNull; md_flow := JNull; md_ui_from := JNull;
          md_created_at := None; md_updated_at := None |};
     script_path := [§"notes"; §"recipe.sh"]; metadata_path := [§"notes"; §"recipe.md"];
     source := §"User"; base := [§"notes"] |}.
Definition notes_world : run_world :=
  {| rw_registry := {| search_paths := []; recipes := [(§"notes", [(§"User", notes)])]; _last_scan_mtimes := [] |};
     rw_files := {| os_environ := {[ SLOT_ENV := §"bob"; §"HTTP_PROXY" := §"proxy" ]};
                    user_env := None; project_env := None |};
     rw_secrets := None; rw_workdir_ok := true; rw_current_run := None; rw_uuid := §"abc" |}.
Definition ann : InvocationContext :=
  {| caller := VISITOR; slot := Some (§"ann"); data_dir := Some [§"data"; §"ann"] |}.
Definition notes_request : run_request :=
  {| q_name := §"notes"; q_params := []; q_env := ∅; q_workflow := None; q_source := None;
     q_timeout := None; q_step_index := JNull; q_ctx := Some ann |}.
Definition idle : runner_state :=
  {| store := demo_store; env_cache := None; launched := []; opened := []; clock := 0 |}.

Lemma fresh_demo i : fresh_id demo_store i.
Proof. intros p Hin. by apply elem_of_nil in Hin. Qed.
Lemma plain_demo : plain (_generate_execution_id (rw_uuid notes_world)).
Proof. apply (bool_decide_eq_true_1 _). vm_compute. reflexivity. Qed.
Lemma five ls : (Z.of_N (process_end ls).2 <= 5)%Z.
Proof. cbn. lia. Qed.
End RunDemo.

Section demo.
Import RunDemo.

(** The scheduler's runner: [notes] for everything. *)
#[local] Instance runs_notes : Executor :=
  {| shell_run _ _ _ _ := (TimedOut, 0%Z); exn_text _ := [];
     recipe_run _ _ _ _ := (match (run_recipe notes_world notes_request idle).1 with
                            | Ok d => inl (JObj d) | Raise e => inr (exn_message e) end, 5%Z) |}.
Definition notes_task : jdict := [(§"id", JStr (§"n")); (§"recipe", JStr (§"notes"))].

(** [notes] says [new], and that it did not succeed; the task succeeds in silence. *)
Lemma scheduled_recipe_never_heard_witness : ∃ outcome why,
  run_scheduled 0 notes_task = Ok (outcome, 5%Z) ∧ out_ok outcome = true ∧
  decide_notification notes_task outcome [] = Ok (silent why).
Proof.
  assert (∃ d, (run_recipe notes_world notes_request idle).1 = Ok d) as [d Hd]
    by (eexists; vm_compute; reflexivity).
  assert (∀ now recipe params timeout, (recipe_run now recipe params timeout).1 = inl (JObj d)) as Hv.
  { intros now recipe params timeout. cbn [recipe_run runs_notes fst]. rewrite Hd. reflexivity. }
  assert (∃ outcome, run_scheduled 0 notes_task = Ok (outcome, 5%Z) ∧ out_kind outcome = JStr (§"recipe"))
    as (outcome & Ho & Hk) by (eexists; vm_compute; split; reflexivity).
  destruct (λ Hi, scheduled_recipe_never_heard Hi 0%Z notes_task outcome 5%Z [] [] (JObj d) Ho Hk (Hv 0%Z)
    eq_refl eq_refl eq_refl) as (Hok & _ & why & Hd').
  - intros now recipe params timeout v Ev. rewrite Hv in Ev. injection Ev as <-.
    exists notes_world, notes_request, idle, d. split; [exact Hd|reflexivity].
  - exists outcome, why. split; [exact Ho|]. split; [exact Hok|exact Hd'].
Defined.

(** A record that is running, by the store's own operations. *)
Lemma running_demo : ∃ s e, store_ok (store s) ∧ clock s = 0%Z ∧
  recorded (store s) (§"exec_abc") = Some e ∧ ex_status e = RUNNING ∧ ex_id e = JStr (§"exec_abc").
Proof.
  assert (in_range 0) as Hr by (unfold in_range, datetime_min, datetime_max; lia).
  destruct (create_run (§"abc") 0 (execution_request notes_request) demo_store demo_store_ok Hr (fresh_demo _))
    as (st & _ & Hs & _ & Hrec). change (_generate_execution_id _) with (§"exec_abc") in Hrec.
  assert (written (new_execution (§"abc") 0 (execution_request notes_request)) = true) as Hw by (vm_compute; reflexivity).
  rewrite Hw in Hrec.
  pose proof (transition_run 0 (§"exec_abc") RUNNING st Hs Hr plain_demo) as Ht.
  rewrite Hrec, decide_True in Ht by reflexivity. unfold transition_to in Ht.
  rewrite decide_True in Ht by (cbn; set_solver). destruct Ht as (st' & _ & Hs' & Hrec').
  eexists {| store := st'; env_cache := None; launched := []; opened := []; clock := 0 |}, _.
  cbn [store clock]. rewrite Hrec', decide_True by reflexivity. split_and!; [exact Hs'|done..].
Qed.

Lemma cancel_races_with_run_witness : ∃ s e, recorded (store s) (§"exec_abc") = Some e ∧
  ex_status e = RUNNING ∧
  let '(r1, s1) := cancel (Some true) (§"exec_abc") s in
  let '(r2, s2) := conclude (metadata notes) (§"notes") (§"exec_abc") 0 None (inr (JNull, [])) s1 in
  r1 = Ok true ∧ r2 = Raise InvalidTransitionError.
Proof.
  destruct running_demo as (s & e & Hs & Hc & He & Hr & Hi). exists s, e. split; [exact He|]. split; [exact Hr|].
  pose proof (cancel_races_with_run (metadata notes) (§"notes") (§"exec_abc") 0 None (inr (JNull, [])) s e Hs)
    as Hx.
  destruct Hx as [Hx _]; [unfold in_range; rewrite Hc; unfold datetime_min, datetime_max; lia
    |exact plain_demo|exact He|exact Hr|exact Hi|exact I|left; reflexivity|reflexivity|rewrite Hc; reflexivity|].
  destruct (cancel _ _ s) as [r1 s1]. destruct (conclude _ _ _ _ _ _ s1) as [r2 s2].
  destruct Hx as (H1' & H2' & _). split; [exact H1'|exact H2'].
Defined.

(** A visitor's run of [notes], recorded as the success it is. *)
Lemma run_is_recorded_witness : ∃ result x s', run_recipe notes_world notes_request idle = (Ok result, s') ∧
  recorded (store s') (§"exec_abc") = Some x ∧ ended_as x (Ok result).
Proof.
  pose proof (run_is_recorded 5 notes_world notes_request idle five ltac:(cbn; unfold datetime_min; lia)
    ltac:(cbn; unfold datetime_max; lia) demo_store_ok (fresh_demo _) plain_demo) as Hr.
  assert (match run_recipe notes_world notes_request idle with (Ok _, _) => True | _ => False end) as Hv
    by (vm_compute; exact I).
  assert (∃ out, run_outcome notes_world notes_request idle = Some out ∧ encodable (stored out) = true) as (out & Eo & Hen)
    by (eexists; split; vm_compute; reflexivity).
  rewrite Eo, Hen in Hr.
  destruct (run_recipe _ _ _) as [[result|e] s']; [|destruct Hv]. destruct Hr as (_ & _ & x & Hx & Hend).
  exists result, x, s'. split; [reflexivity|]. split; [exact Hx|exact Hend].
Defined.

(** Its process finds [ann], where the server's variables said [bob]. *)
Lemma run_context_reaches_process_witness :
  let s' := (run_recipe notes_world notes_request idle).2 in
  length (launched s') = 1 ∧ Forall (λ l, current (l_env l) = Ok ann) (launched s') ∧ opened s' = [].
Proof.
  pose proof (run_context_reaches_process 5 notes_world notes_request idle five
    ltac:(cbn; unfold datetime_min; lia) ltac:(cbn; unfold datetime_max; lia) demo_store_ok
    (fresh_demo _) plain_demo) as Hr.
  destruct Hr as ((ls & Hl & Hc) & Ho).
  - intros x [= <-]. vm_compute. reflexivity.
  - intros d [= <-]. vm_compute. split; reflexivity.
  - intros s'. split; [vm_compute; reflexivity|]. split; [|exact (Ho ann eq_refl eq_refl)].
    unfold s'. rewrite Hl. exact Hc.
Defined.
End demo.
