(* ===== verification/Tabs.v ===== *)
(** * Tabs of the driven browser

    browser/cdp/tab_manager.py: the tabs frago keeps track of, found again by the
    origin of their page and closed least recently used first; with the state
    file and the browser's list of pages that browser/cdp/tab_group_manager.py
    shares (TabGroups.v), and browser/cdp/landing.py.  The clock does not move
    within one operation. *)

From S2P Require Import Prelude PyStr.
From stdpp Require Import prelude gmap list strings.

(** [urlparse(url)], [None] when it raises; the port raises when it is read. *)
Record url_parts := { scheme : pystr; hostname : option pystr; url_port : res (option N) }.
Class Url := urlparse : pystr → option url_parts.

(** A target of the browser, as [/json/list] describes it. *)
Record page := { p_id : pystr; p_type : pystr; p_url : pystr; p_title : pystr }.

(** A tab of the tab manager; the tabs of a group have the same fields. *)
Record TabEntry := {
  tab_id : pystr;
  origin : pystr;
  url : pystr;
  title : pystr;
  last_activity : Z;
  created_at : Z;
}.

Record TabGroupState := {
  g_title : pystr;
  agent_session : pystr;
  g_created_at : Z;
  g_last_activity : Z;
  tabs : dict pystr TabEntry;
  max_tabs : Z;
  current_target_id : option pystr;
}.

(** A state file: absent, not readable as one, or of the browser at a port. *)
Inductive saved (A : Type) := Missing | Corrupt | Saved (port : Z) (a : A).
Arguments Missing {A}.
Arguments Corrupt {A}.
Arguments Saved {A} port a.

(** What the processes share: the browser, the tabs it was told to close, and the
    two state files. *)
Record chrome := {
  pages : option (list page);
  closed : list pystr;
  tab_file : saved (dict pystr TabEntry);
  group_file : saved (dict pystr TabGroupState);
}.

Definition set_tab_file (f : saved (dict pystr TabEntry)) (c : chrome) : chrome :=
  {| pages := pages c; closed := closed c; tab_file := f; group_file := group_file c |}.
Definition set_group_file (f : saved (dict pystr TabGroupState)) (c : chrome) : chrome :=
  {| pages := pages c; closed := closed c; tab_file := tab_file c; group_file := f |}.
Definition note_closed (t : pystr) (c : chrome) : chrome :=
  {| pages := pages c; closed := closed c ++ [t]; tab_file := tab_file c; group_file := group_file c |}.

(** [_get_live_tabs]: no pages when the browser does not answer. *)
Definition _get_live_tabs (c : chrome) : list page :=
  filter (λ p, p_type p = §"page") (default [] (pages c)).

(** [max(l, key=f)] and [min(l, key=f)]: the first of the extreme ones. *)
Fixpoint best_by {A} (better : A → A → bool) (l : list A) : option A :=
  match l with
  | [] => None
  | x :: l => match best_by better l with
              | None => Some x
              | Some y => Some (if better y x then y else x)
              end
  end.
Definition latest : list TabEntry → option TabEntry := best_by (λ y x, last_activity x <? last_activity y)%Z.
Definition oldest : list TabEntry → option TabEntry := best_by (λ y x, last_activity y <? last_activity x)%Z.

Lemma best_by_elem {A} (better : A → A → bool) l x : best_by better l = Some x → x ∈ l.
Proof.
  revert x. induction l as [|y l IH]; intros x; cbn; [done|]. destruct (best_by better l) as [z|].
  - intros [= <-]. destruct (better z y); [by apply list_elem_of_further, IH|apply list_elem_of_here].
  - intros [= <-]. apply list_elem_of_here.
Qed.

Lemma best_by_None {A} (better : A → A → bool) l : best_by better l = None → l = [].
Proof. destruct l as [|y l]; cbn; [done|]. by destruct (best_by better l). Qed.

Lemma oldest_least l x : oldest l = Some x → Forall (λ y, (last_activity x <= last_activity y)%Z) l.
Proof.
  revert x. unfold oldest. induction l as [|y l IH]; intros x; cbn; [done|].
  destruct (best_by _ l) as [z|] eqn:Ez.
  - specialize (IH z eq_refl). intros [= <-]. destruct (Z.ltb_spec (last_activity z) (last_activity y)).
    + constructor; [lia|done].
    + constructor; [lia|]. eapply Forall_impl; [done|]. cbn. lia.
  - apply best_by_None in Ez as ->. intros [= <-]. by repeat constructor.
Qed.

(** ** Landing page (browser/cdp/landing.py) *)

Definition LANDING_PAGE_PATH : pystr := §"/browser/dashboard".
Definition LEGACY_LANDING_PAGE_PATHS : list pystr := [§"/chrome/dashboard"].
Definition LANDING_PAGE_TITLE : pystr := §"frago".
Definition is_landing_page (u t : pystr) : bool :=
  contains LANDING_PAGE_PATH u || existsb (λ p, contains p u) LEGACY_LANDING_PAGE_PATHS ||
  bool_decide (t = LANDING_PAGE_TITLE).

(** ** The tab manager *)

Definition MAX_TABS : nat := 20.
Definition UNROUTABLE_SCHEMES : list pystr :=
  [§"about"; §"chrome"; §"chrome-extension"; §"data"; §"blob"; §"javascript"].
Definition _STANDARD_PORTS : dict pystr N := [(§"http", 80%N); (§"https", 443%N)].

Section tabs.
Context `{Unicode, Url}.

Definition extract_origin (u : pystr) : res (option pystr) :=
  match urlparse u with
  | None => Ok None
  | Some p =>
      let s := str_lower (scheme p) in
      if decide (s = [] ∨ s ∈ UNROUTABLE_SCHEMES) then Ok None
      else match hostname p with
           | None | Some [] => Ok None
           | Some h =>
               port ← url_port p;
               Ok (Some (s ++ §"://" ++ h ++
                 match port with
                 | Some n => if decide (n = 0%N ∨ dget s _STANDARD_PORTS = Some n) then []
                             else §":" ++ str_of_N n
                 | None => []
                 end))
           end
  end.

Record tab_manager := { tm_port : Z; entries : dict pystr TabEntry; tm_chrome : chrome }.
Implicit Types (s : tab_manager) (c : chrome) (e : TabEntry).

Definition set_entries (d : dict pystr TabEntry) s : tab_manager :=
  {| tm_port := tm_port s; entries := d; tm_chrome := tm_chrome s |}.
Definition in_chrome (f : chrome → chrome) s : tab_manager :=
  {| tm_port := tm_port s; entries := entries s; tm_chrome := f (tm_chrome s) |}.

(** A new manager, with what [_load_state] finds. *)
Definition new_tab_manager (port : Z) c : tab_manager :=
  {| tm_port := port;
     entries := match tab_file c with
                | Saved p d => if (p =? port)%Z then d else []
                | _ => []
                end;
     tm_chrome := c |}.

Definition _save_state : M tab_manager unit :=
  modify (λ s, in_chrome (set_tab_file (Saved (tm_port s) (entries s))) s).

Definition touched (now : Z) e : TabEntry :=
  {| tab_id := tab_id e; origin := origin e; url := url e; title := title e;
     last_activity := now; created_at := created_at e |}.

(** An entry that shows another page: the origin stays if the page has none. *)
Definition shows (o u t : pystr) e : TabEntry :=
  {| tab_id := tab_id e; origin := match o with [] => origin e | _ => o end; url := u; title := t;
     last_activity := last_activity e; created_at := created_at e |}.
Definition new_entry (now : Z) (i o u t : pystr) : TabEntry :=
  {| tab_id := i; origin := o; url := u; title := t; last_activity := now; created_at := now |}.

Definition track_live (now : Z) (d : dict pystr TabEntry) (p : page) : res (dict pystr TabEntry) :=
  o ← extract_origin (p_url p);
  let o := default [] o in
  Ok (match dget (p_id p) d with
      | Some e => dset (p_id p) (shows o (p_url p) (p_title p) e) d
      | None => dset (p_id p) (new_entry now (p_id p) o (p_url p) (p_title p)) d
      end).
Fixpoint track_all (now : Z) (ps : list page) : M tab_manager unit :=
  match ps with
  | [] => mret tt
  | p :: ps =>
      d ← gets entries;
      d ← lift_res (track_live now d p);
      modify (set_entries d);;
      track_all now ps
  end.

Definition reconcile (now : Z) : M tab_manager unit :=
  live ← gets (_get_live_tabs ∘ tm_chrome);
  match live with
  | [] => mret tt
  | _ =>
      modify (λ s, set_entries (filter (λ kv, kv.1 ∈ map p_id live) (entries s)) s);;
      track_all now live;;
      _save_state
  end.

(** The entry, with the key it stands under. *)
Definition find_tab_by_origin (o : pystr) s : option (pystr * TabEntry) :=
  best_by (λ y x, last_activity x.2 <? last_activity y.2)%Z (filter (λ ke, origin ke.2 = o) (entries s)).

(** [close_target], whose failure is only logged. *)
Definition close_target (i : pystr) : M tab_manager unit := modify (in_chrome (note_closed i)).

Definition _evict_lru_tab : M tab_manager (option pystr) :=
  s ← get_st;
  match oldest (dvals (entries s)) with
  | None => mret None
  | Some e =>
      close_target (tab_id e);;
      (if dmem (tab_id e) (entries s) then modify (set_entries (ddel (tab_id e) (entries s)))
       else raise KeyError);;
      _save_state;;
      mret (Some (tab_id e))
  end.

(** [created] is what the browser makes of the request for a tab. *)
Definition get_or_create_tab (u : pystr) (created : res pystr) (now : Z) : M tab_manager pystr :=
  o ← lift_res (extract_origin u);
  s ← get_st;
  match o with
  | None => mret (match _get_live_tabs (tm_chrome s) with p :: _ => p_id p | [] => [] end)
  | Some o =>
      match find_tab_by_origin o s with
      | Some (k, e) =>
          modify (set_entries (dset k (touched now e) (entries s)));;
          _save_state;;
          mret (tab_id e)
      | None =>
          (if decide (MAX_TABS ≤ length (entries s)) then _evict_lru_tab;; mret tt else mret tt);;
          i ← lift_res created;
          modify (λ s, set_entries (dset i (new_entry now i o u []) (entries s)) s);;
          _save_state;;
          mret i
      end
  end.

Definition track_tab (now : Z) (i u t : pystr) : M tab_manager unit :=
  o ← lift_res (extract_origin u);
  let o := default [] o in
  modify (λ s, set_entries
    (match dget i (entries s) with
     | Some e => dset i (touched now (shows o u (match t with [] => title e | _ => t end) e)) (entries s)
     | None => dset i (new_entry now i o u t) (entries s)
     end) s).

Definition touch_tab (now : Z) (i : pystr) : M tab_manager unit := modify (λ s,
  match dget i (entries s) with
  | Some e => set_entries (dset i (touched now e) (entries s)) s
  | None => s
  end).

Definition untrack_tab (i : pystr) : M tab_manager unit :=
  modify (λ s, set_entries (ddel i (entries s)) s).

Definition get_tracked_tabs s : list TabEntry :=
  isort (λ a b, last_activity b <=? last_activity a)%Z (dvals (entries s)).

Definition clear_state : M tab_manager unit :=
  modify (λ s, in_chrome (set_tab_file Missing) (set_entries [] s)).
(** ** What is tracked *)

(** Each tab stands once, under its own id. *)
Record entries_ok (d : dict pystr TabEntry) : Prop := {
  eo_wf : dict_wf d;
  eo_ids : Forall (λ ke, tab_id ke.2 = ke.1) d;
}.

Lemma entries_ok_dset d i e : entries_ok d → tab_id e = i → entries_ok (dset i e d).
Proof. intros [Hw Hi] He. split; [by apply dset_wf|by apply dset_Forall]. Qed.
Lemma entries_ok_ddel d i : entries_ok d → entries_ok (ddel i d).
Proof. intros [Hw Hi]. split; [by apply ddel_wf|by apply ddel_Forall]. Qed.
Lemma entries_ok_id d i e : entries_ok d → dget i d = Some e → tab_id e = i.
Proof. intros [_ Hi] He%dget_Some_elem. by apply (proj1 (Forall_forall _ _) Hi (i, e)). Qed.

Lemma track_live_ok now d p d' : entries_ok d → track_live now d p = Ok d' →
  entries_ok d' ∧ ∀ k, k ∈ dkeys d' ↔ k = p_id p ∨ k ∈ dkeys d.
Proof.
  intros Hd. unfold track_live, mbind, res_bind. destruct (extract_origin _) as [o|]; [|done].
  intros [= <-]. destruct (dget (p_id p) d) as [e|] eqn:Ee; (split; [|intros k; apply dkeys_dset_elem]);
    apply entries_ok_dset; try done. cbn. by apply (entries_ok_id d).
Qed.

Lemma track_all_run now ps s : entries_ok (entries s) →
  match track_all now ps s with
  | (Ok _, s') => tm_port s' = tm_port s ∧ tm_chrome s' = tm_chrome s ∧ entries_ok (entries s') ∧
      ∀ k, k ∈ dkeys (entries s') ↔ k ∈ map p_id ps ∨ k ∈ dkeys (entries s)
  | (Raise _, s') => tm_chrome s' = tm_chrome s
  end.
Proof.
  revert s. induction ps as [|p ps IH]; intros s Hs; cbn [track_all].
  { cbn. split_and!; [done|done|done|]. intros k. rewrite elem_of_nil. naive_solver. }
  unfold mbind, M_bind. cbn [gets lift_res]. destruct (track_live now (entries s) p) as [d|e] eqn:Et; [|done].
  apply track_live_ok in Et as [Hd Hk]; [|done]. cbn [modify]. specialize (IH (set_entries d s) Hd).
  destruct (track_all now ps (set_entries d s)) as [[[]|e] s']; [|done].
  destruct IH as (IH1 & IH2 & IH3 & IH4). split_and!; [done|done|done|]. intros k. rewrite IH4. cbn.
  rewrite Hk, elem_of_cons. naive_solver.
Qed.

(** Reconciling leaves exactly the tabs the browser shows, in memory and on file. *)
Lemma reconcile_run now s s' : entries_ok (entries s) → reconcile now s = (Ok tt, s') →
  let live := map p_id (_get_live_tabs (tm_chrome s)) in
  (live = [] ∧ s' = s) ∨
  (entries_ok (entries s') ∧ (∀ k, k ∈ dkeys (entries s') ↔ k ∈ live) ∧
   tm_chrome s' = set_tab_file (Saved (tm_port s) (entries s')) (tm_chrome s)).
Proof.
  intros Hs. unfold reconcile, mbind, M_bind. cbn [gets compose].
  destruct (_get_live_tabs (tm_chrome s)) as [|p ps] eqn:El; [intros [= <-]; by left|].
  cbn [modify]. set (s1 := set_entries _ s). assert (entries_ok (entries s1)) as Hs1.
  { destruct Hs as [Hw Hi]. split; [by apply filter_dict_wf|by apply filter_Forall]. }
  pose proof (track_all_run now (p :: ps) s1 Hs1) as Ht.
  destruct (track_all now (p :: ps) s1) as [[[]|e] s2]; [|done].
  destruct Ht as (T1 & T2 & T3 & T4). unfold _save_state. cbn [modify]. intros [= <-]. right.
  split; [done|]. split; [|cbn; by rewrite T1, T2]. intros k. cbn [in_chrome entries]. rewrite T4.
  split; [|by left]. intros [?|([k' e] & -> & [Hin _]%list_elem_of_filter)%list_elem_of_fmap]; done.
Qed.

(** ** Routing *)

Lemma find_tab_sound o s k e : find_tab_by_origin o s = Some (k, e) →
  (k, e) ∈ entries s ∧ origin e = o.
Proof. intros [Ho Hin]%best_by_elem%list_elem_of_filter. done. Qed.

Lemma find_tab_complete o s : find_tab_by_origin o s = None → Forall (λ ke, origin ke.2 ≠ o) (entries s).
Proof.
  intros Hn%best_by_None. apply Forall_forall. intros ke Hin Ho.
  assert (ke ∈ filter (λ ke, origin ke.2 = o) (entries s)) as Hf by by apply list_elem_of_filter.
  rewrite Hn in Hf. by apply elem_of_nil in Hf.
Qed.

Lemma evict_lru_run s : entries_ok (entries s) → entries s ≠ [] →
  ∃ e s', _evict_lru_tab s = (Ok (Some (tab_id e)), s') ∧ entries_ok (entries s') ∧
    S (length (entries s')) = length (entries s) ∧ dget (tab_id e) (entries s) = Some e ∧
    Forall (λ ke, (last_activity e <= last_activity ke.2)%Z) (entries s) ∧
    closed (tm_chrome s') = closed (tm_chrome s) ++ [tab_id e] ∧ tm_port s' = tm_port s ∧
    (∀ ke, ke ∈ entries s' → ke ∈ entries s).
Proof.
  intros Hs Hne. unfold _evict_lru_tab, mbind, M_bind. cbn [get_st].
  destruct (oldest (dvals (entries s))) as [e|] eqn:Eo.
  2: { apply best_by_None in Eo. by destruct (entries s). }
  assert (dget (tab_id e) (entries s) = Some e) as He.
  { apply best_by_elem in Eo as Hin. apply list_elem_of_fmap in Hin as ([k e'] & -> & Hin).
    apply dget_elem; [apply Hs|]. destruct Hs as [_ Hi]. rewrite Forall_forall in Hi. specialize (Hi _ Hin). cbn in Hi |- *. by rewrite Hi. }
  unfold dmem. cbn [close_target modify]. rewrite He. cbn [modify _save_state].
  eexists e, _. split; [reflexivity|]. cbn. split_and!; [by apply entries_ok_ddel| |done| |done|done|by intros ke; apply ddel_elem].
  - by apply (length_ddel_old _ e).
  - apply oldest_least in Eo. apply Forall_forall. intros ke Hin. rewrite Forall_forall in Eo. apply Eo.
    by apply list_elem_of_fmap_2.
Qed.

(** One tab for each origin, and never too many.  With at most twenty tabs
    tracked, asking for a page leads to a tracked tab of the page's origin, an
    old one when there is one; there are at most twenty afterwards, the file
    holds them, and a tab is closed only to make room: one, when twenty were
    tracked and none was of that origin, and no tracked tab had been idle for
    longer. *)
Theorem route_by_origin u created now s o : entries_ok (entries s) → length (entries s) ≤ MAX_TABS →
  extract_origin u = Ok (Some o) →
  match get_or_create_tab u created now s with
  | (Ok i, s') =>
      entries_ok (entries s') ∧ length (entries s') ≤ MAX_TABS ∧
      tab_file (tm_chrome s') = Saved (tm_port s) (entries s') ∧
      (∃ e, dget i (entries s') = Some e ∧ origin e = o) ∧
      (closed (tm_chrome s') = closed (tm_chrome s) ∨
       ∃ e, closed (tm_chrome s') = closed (tm_chrome s) ++ [tab_id e] ∧
         length (entries s) = MAX_TABS ∧ Forall (λ ke, origin ke.2 ≠ o) (entries s) ∧
         dget (tab_id e) (entries s) = Some e ∧
         Forall (λ ke, (last_activity e <= last_activity ke.2)%Z) (entries s))
  | (Raise err, _) => created = Raise err
  end.
Proof.
  intros Hs Hl Ho. unfold get_or_create_tab, mbind, M_bind. rewrite Ho. cbn [lift_res get_st].
  destruct (find_tab_by_origin o s) as [[k e]|] eqn:Ef.
  { apply find_tab_sound in Ef as [Hin Hor]. pose proof (dget_elem _ _ _ (eo_wf _ Hs) Hin) as Hg.
    pose proof (entries_ok_id _ _ _ Hs Hg) as <-. cbn. split_and!; [by apply entries_ok_dset| |done| |by left].
    - by rewrite (length_dset_old _ _ _ _ Hg).
    - eexists. rewrite dget_dset_eq. done. }
  apply find_tab_complete in Ef. case_decide as Hfull.
  - destruct (evict_lru_run s Hs) as (e & s1 & -> & Hs1 & Hl1 & He & Hlru & Hc & Hp & _); [intros Hn; rewrite Hn in Hfull; cbn in Hfull; unfold MAX_TABS in Hfull; lia|].
    cbn [mret M_ret]. destruct created as [i|err]; [|done]. cbn. split_and!; [by apply entries_ok_dset| |by rewrite Hp| |].
    + pose proof (dset_length_le i (new_entry now i o u []) (entries s1)). lia.
    + eexists. rewrite dget_dset_eq. done.
    + right. exists e. rewrite Hc. split_and!; [done|lia|done|done|done].
  - destruct created as [i|err]; [|done]. cbn. split_and!; [by apply entries_ok_dset| |done| |by left].
    + pose proof (dset_length_le i (new_entry now i o u []) (entries s)). lia.
    + eexists. rewrite dget_dset_eq. done.
Qed.
End tabs.

(** ** A concrete run *)
Module TabsDemo.
(** Every page on its own host. *)
Definition host_url : Url := λ u, Some {| scheme := §"https"; hostname := Some u; url_port := Ok None |}.
Definition empty_chrome : chrome := {| pages := Some []; closed := []; tab_file := Missing; group_file := Missing |}.

Lemma route_by_origin_witness :
  let s := new_tab_manager 9222 empty_chrome in
  match @get_or_create_tab ascii_db host_url (§"a.org") (Ok (§"T1")) 5 s with
  | (Ok i, s') => entries_ok (entries s') ∧ length (entries s') ≤ MAX_TABS
  | (Raise _, _) => False
  end.
Proof.
  intros s.
  pose proof (@route_by_origin ascii_db host_url (§"a.org") (Ok (§"T1")) 5 s (§"https://a.org")) as R.
  assert (entries_ok (entries s)) as Hs by (split; constructor).
  specialize (R Hs ltac:(vm_compute; lia) ltac:(vm_compute; reflexivity)).
  destruct (get_or_create_tab _ _ _ _) as [[i|e] s']; [|discriminate R]. by destruct R as (? & ? & _).
Defined.

(** The second request for a page of an origin leads to the first tab. *)
Example same_origin_reused :
  ((@get_or_create_tab ascii_db host_url (§"a.org") (Ok (§"T1")) 5;;
    @get_or_create_tab ascii_db host_url (§"a.org") (Ok (§"T2")) 6) (new_tab_manager 9222 empty_chrome)).1 = Ok (§"T1").
Proof. vm_compute. reflexivity. Qed.
End TabsDemo.
