(* ===== verification/TabGroups.v ===== *)
(** * Tab groups

    browser/cdp/tab_group_manager.py: the tabs each agent may use, kept in a file
    that several processes read, merge and write; and the sweeps of
    server/services/tab_cleanup_service.py and browser/cdp/launcher.py.  A manager's groups are objects: saving
    replaces those it has not changed by fresh ones read from the file, while a
    method may still hold the old one.  An operation is one step, during which the
    clock stands still; the push of the state to the dashboard changes nothing
    here and is left out. *)

From S2P Require Import Prelude PyStr Tabs.
From stdpp Require Import prelude gmap list strings.

Definition DEFAULT_MAX_TABS_PER_GROUP : Z := 5.
(** Thirty minutes, in microseconds. *)
Definition GROUP_TIMEOUT_SECONDS : Z := 1800 * 1000000.

(** A manager: its groups by reference, the objects, the names it changed and the
    names it deleted (sets, here in the order of their first insertion). *)
Record tab_groups := {
  tg_port : Z;
  names : dict pystr nat;
  heap : gmap nat TabGroupState;
  fresh : nat;
  _dirty_groups : list pystr;
  _deleted_groups : list pystr;
  tg_chrome : chrome;
}.

Definition blank : TabGroupState :=
  {| g_title := []; agent_session := []; g_created_at := 0; g_last_activity := 0; tabs := [];
     max_tabs := DEFAULT_MAX_TABS_PER_GROUP; current_target_id := None |}.

Definition with_tabs (t : dict pystr TabEntry) (c : option pystr) (g : TabGroupState) : TabGroupState :=
  {| g_title := g_title g; agent_session := agent_session g; g_created_at := g_created_at g;
     g_last_activity := g_last_activity g; tabs := t; max_tabs := max_tabs g; current_target_id := c |}.
Definition touch (now : Z) (g : TabGroupState) : TabGroupState :=
  {| g_title := g_title g; agent_session := agent_session g; g_created_at := g_created_at g;
     g_last_activity := now; tabs := tabs g; max_tabs := max_tabs g;
     current_target_id := current_target_id g |}.

(** A group read from a file written under a higher ceiling. *)
Definition clip (g : TabGroupState) : TabGroupState :=
  {| g_title := g_title g; agent_session := agent_session g; g_created_at := g_created_at g;
     g_last_activity := g_last_activity g; tabs := tabs g;
     max_tabs := Z.min (max_tabs g) DEFAULT_MAX_TABS_PER_GROUP;
     current_target_id := current_target_id g |}.

(** Adding to and removing from a set of names. *)
Definition sadd (n : pystr) (l : list pystr) : list pystr := if decide (n ∈ l) then l else l ++ [n].
Definition sdiscard (n : pystr) (l : list pystr) : list pystr := filter (λ x, x ≠ n) l.

Implicit Types (s : tab_groups) (g : TabGroupState) (name : pystr) (r : nat) (now : Z).

Definition deref s r : TabGroupState := default blank (heap s !! r).
Definition set_names (d : dict pystr nat) s : tab_groups :=
  {| tg_port := tg_port s; names := d; heap := heap s; fresh := fresh s;
     _dirty_groups := _dirty_groups s; _deleted_groups := _deleted_groups s; tg_chrome := tg_chrome s |}.
Definition set_marks (dirty deleted : list pystr) s : tab_groups :=
  {| tg_port := tg_port s; names := names s; heap := heap s; fresh := fresh s;
     _dirty_groups := dirty; _deleted_groups := deleted; tg_chrome := tg_chrome s |}.
Definition set_chrome (c : chrome) s : tab_groups :=
  {| tg_port := tg_port s; names := names s; heap := heap s; fresh := fresh s;
     _dirty_groups := _dirty_groups s; _deleted_groups := _deleted_groups s; tg_chrome := c |}.
Definition store r g s : tab_groups :=
  {| tg_port := tg_port s; names := names s; heap := <[r := g]> (heap s); fresh := fresh s;
     _dirty_groups := _dirty_groups s; _deleted_groups := _deleted_groups s; tg_chrome := tg_chrome s |}.
Definition mark_dirty name s : tab_groups := set_marks (sadd name (_dirty_groups s)) (_deleted_groups s) s.
Definition mark_deleted name s : tab_groups :=
  set_marks (sdiscard name (_dirty_groups s)) (sadd name (_deleted_groups s)) s.
Definition mutate r (f : TabGroupState → TabGroupState) : M tab_groups unit :=
  modify (λ s, store r (f (deref s r)) s).

(** A new object. *)
Definition alloc g s : nat * tab_groups :=
  (fresh s, {| tg_port := tg_port s; names := names s; heap := <[fresh s := g]> (heap s);
               fresh := S (fresh s); _dirty_groups := _dirty_groups s;
               _deleted_groups := _deleted_groups s; tg_chrome := tg_chrome s |}).
Fixpoint alloc_all (d : dict pystr TabGroupState) s : dict pystr nat * tab_groups :=
  match d with
  | [] => ([], s)
  | (name, g) :: d =>
      let '(r, s) := alloc g s in
      let '(refs, s) := alloc_all d s in
      ((name, r) :: refs, s)
  end.

(** ** The state file *)

Definition _read_disk_state (port : Z) (f : saved (dict pystr TabGroupState)) : res (dict pystr TabGroupState) :=
  match f with
  | Missing => Ok []
  | Corrupt => Raise ValueError
  | Saved p d => if (p =? port)%Z then Ok (map (λ ng, (ng.1, clip ng.2)) d) else Ok []
  end.

(** A new manager, with what [_load_state] finds. *)
Definition new_manager (port : Z) (c : chrome) : tab_groups :=
  let s := {| tg_port := port; names := []; heap := ∅; fresh := 0; _dirty_groups := [];
              _deleted_groups := []; tg_chrome := c |} in
  match _read_disk_state port (group_file c) with
  | Ok d => let '(refs, s) := alloc_all d s in set_names refs s
  | Raise _ => s
  end.

Definition merge_groups (disk ours : dict pystr nat) (dirty deleted : list pystr) : dict pystr nat :=
  foldl (λ m n, ddel n m)
    (foldl (λ m n, match dget n ours with Some r => dset n r m | None => m end) disk dirty) deleted.

Definition written s : dict pystr TabGroupState := map (λ nr, (nr.1, deref s nr.2)) (names s).

Definition _save_state : M tab_groups unit := λ s,
  match _read_disk_state (tg_port s) (group_file (tg_chrome s)) with
  | Raise e => (Raise e, s)
  | Ok disk =>
      let '(refs, s1) := alloc_all disk s in
      let s2 := set_names (merge_groups refs (names s) (_dirty_groups s) (_deleted_groups s)) s1 in
      (Ok tt, set_chrome (set_group_file (Saved (tg_port s) (written s2)) (tg_chrome s2)) s2)
  end.

(** ** Operations *)

(** [os.environ.get(...)] is [env]. *)
Definition resolve_group_name (explicit_group env : option pystr) : option pystr :=
  match explicit_group with
  | Some ((_ :: _) as n) => Some n
  | _ => match env with Some ((_ :: _) as n) => Some n | _ => None end
  end.

Definition new_group now name : TabGroupState :=
  {| g_title := name; agent_session := name; g_created_at := now; g_last_activity := now; tabs := [];
     max_tabs := DEFAULT_MAX_TABS_PER_GROUP; current_target_id := None |}.

Definition ensure_group now name : M tab_groups nat := λ s,
  match dget name (names s) with
  | Some r => (Ok r, mark_dirty name s)
  | None =>
      let '(r, s) := alloc (new_group now name) s in
      (_save_state;; mret r) (mark_dirty name (set_names (dset name r (names s)) s))
  end.

Definition _get_live_target_ids (c : chrome) : list pystr := map p_id (_get_live_tabs c).

(** The current tab after some were dropped. *)
Definition next_current (t : dict pystr TabEntry) : option pystr := tab_id <$> latest (dvals t).
Definition is_tab (c : option pystr) (t : dict pystr TabEntry) : bool :=
  match c with Some i => dmem i t | None => false end.

Definition drop_dead (live : list pystr) g : TabGroupState :=
  let t := filter (λ ie, ie.1 ∈ live) (tabs g) in
  with_tabs t (if is_tab (current_target_id g) t then current_target_id g else next_current t) g.

Definition has_dead (live : list pystr) g : bool := existsb (λ i, bool_decide (i ∉ live)) (dkeys (tabs g)).

Definition _prune_dead_tabs r : M tab_groups unit :=
  live ← gets (_get_live_target_ids ∘ tg_chrome);
  g ← gets (λ s, deref s r);
  match live with
  | [] => mret tt
  | _ => if has_dead live g then mutate r (drop_dead live);; _save_state else mret tt
  end.

Definition get_group_tabs name s : list TabEntry :=
  match dget name (names s) with
  | Some r => isort (λ a b, last_activity b <=? last_activity a)%Z (dvals (tabs (deref s r)))
  | None => []
  end.

Definition _assert_room r : M tab_groups unit :=
  g ← gets (λ s, deref s r);
  if decide (Z.of_nat (length (tabs g)) < max_tabs g)%Z then mret tt
  else raise (ChromeCommandError "GROUP_TAB_LIMIT").

Section groups.
Context `{Unicode, Url}.

Definition reuse_tab now (u o : pystr) (i : pystr) g : TabGroupState :=
  match dget i (tabs g) with
  | Some e =>
      touch now (with_tabs (dset i (touched now
        {| tab_id := tab_id e; origin := match o with [] => origin e | _ => o end; url := u;
           title := title e; last_activity := last_activity e; created_at := created_at e |}) (tabs g))
        (current_target_id g) g)
  | None => g
  end.

(** [created] is what the browser makes of the request for a tab. *)
Definition open_tab now (u : pystr) r (created : res pystr) : M tab_groups pystr :=
  i ← lift_res created;
  match i with
  | [] => raise RuntimeError
  | _ =>
      o ← lift_res (extract_origin u);
      mutate r (λ g, touch now (with_tabs (dset i (new_entry now i (default [] o) u []) (tabs g)) (Some i) g));;
      _save_state;;
      mret i
  end.

Definition reuse_current now (u : pystr) r (i : pystr) : M tab_groups pystr :=
  o ← lift_res (extract_origin u);
  g ← gets (λ s, deref s r);
  mutate r (reuse_tab now u (default [] o) i);;
  _save_state;;
  mret (match dget i (tabs g) with Some e => tab_id e | None => i end).

(** [get_or_create_tab], once the group is there. *)
Definition tab_in_group now (u : pystr) r (new : bool) (created : res pystr) : M tab_groups pystr :=
  _prune_dead_tabs r;;
  g ← gets (λ s, deref s r);
  match current_target_id g with
  | Some i => if negb new && dmem i (tabs g) then reuse_current now u r i
              else _assert_room r;; open_tab now u r created
  | None => _assert_room r;; open_tab now u r created
  end.

Definition get_or_create_tab now (u : pystr) name (new : bool) (created : res pystr) : M tab_groups pystr :=
  r ← ensure_group now name;
  tab_in_group now u r new created.
End groups.

Definition require_tab_in_group name (tab : pystr) : M tab_groups pystr := λ s,
  match dget name (names s) with
  | None => (Raise (ChromeCommandError "NO_TAB_IN_GROUP"), s)
  | Some r =>
      (_prune_dead_tabs r;;
       g ← gets (λ s, deref s r);
       match filter (λ i, starts_with tab i = true) (dkeys (tabs g)) with
       | [i] => mret i
       | _ => raise (ChromeCommandError "TAB_NOT_IN_GROUP")
       end) s
  end.

(** [self._state[name]]. *)
Definition lookup name : M tab_groups nat := λ s,
  match dget name (names s) with Some r => (Ok r, s) | None => (Raise KeyError, s) end.

Definition touch_entry now (i : pystr) (t : dict pystr TabEntry) : dict pystr TabEntry :=
  match dget i t with Some e => dset i (touched now e) t | None => t end.

Definition switch_tab now name (tab : pystr) : M tab_groups pystr :=
  full ← require_tab_in_group name tab;
  r ← lookup name;
  mutate r (λ g, with_tabs (tabs g) (Some full) g);;
  g ← gets (λ s, deref s r);
  if dmem full (tabs g) then
    mutate r (λ g, touch now (with_tabs (touch_entry now full (tabs g)) (current_target_id g) g));;
    modify (mark_dirty name);;
    _save_state;;
    mret full
  else raise KeyError.

Definition note_close (i : pystr) s : tab_groups := set_chrome (note_closed i (tg_chrome s)) s.

Definition close_tab now name (tab : pystr) : M tab_groups pystr :=
  full ← require_tab_in_group name tab;
  r ← lookup name;
  modify (note_close full);;
  g ← gets (λ s, deref s r);
  if dmem full (tabs g) then
    mutate r (λ g, let t := ddel full (tabs g) in
      touch now (with_tabs t (if decide (current_target_id g = Some full) then next_current t
                              else current_target_id g) g));;
    modify (mark_dirty name);;
    _save_state;;
    mret full
  else raise KeyError.

Definition touch_group now name : M tab_groups unit := λ s,
  match dget name (names s) with
  | None => (Ok tt, s)
  | Some r =>
      (mutate r (λ g, touch now (with_tabs
         (match current_target_id g with Some i => touch_entry now i (tabs g) | None => tabs g end)
         (current_target_id g) g));;
       modify (mark_dirty name);;
       _save_state) s
  end.

(** [close_group] and [close_group_http]: a tab that does not close is logged. *)
Definition close_group name : M tab_groups bool := λ s,
  match dget name (names s) with
  | None => (Ok false, s)
  | Some r =>
      let g := deref s r in
      let s := mark_deleted name (set_names (ddel name (names s)) s) in
      (_save_state;; mret true) (foldl (λ s i, note_close i s) s (dkeys (tabs g)))
  end.

Definition set_current_target name (i : pystr) : M tab_groups unit := λ s,
  match dget name (names s) with
  | None => (Ok tt, s)
  | Some r =>
      (mutate r (λ g, with_tabs (tabs g) (Some i) g);; modify (mark_dirty name);; _save_state) s
  end.

Definition get_current_target name s : option pystr :=
  r ← dget name (names s); current_target_id (deref s r).

(** ** Cleaning up *)

Definition drop_if_dead (live : list pystr) s r : tab_groups :=
  if has_dead live (deref s r) then store r (drop_dead live (deref s r)) s else s.
Definition forget s name : tab_groups := mark_deleted name (set_names (ddel name (names s)) s).
Definition empty_names s : list pystr :=
  map fst (filter (λ nr, tabs (deref s nr.2) = []) (names s)).

Definition reconcile : M tab_groups unit := λ s,
  match _get_live_target_ids (tg_chrome s) with
  | [] => (Ok tt, s)
  | live =>
      let changed := existsb (λ nr, has_dead live (deref s nr.2)) (names s) in
      let s := foldl (drop_if_dead live) s (dvals (names s)) in
      let empty := empty_names s in
      let s := foldl forget s empty in
      if changed || negb (bool_decide (empty = [])) then _save_state s else (Ok tt, s)
  end.

Definition cleanup_stale_groups : M tab_groups nat :=
  reconcile;;
  stale ← gets empty_names;
  match stale with
  | [] => mret 0
  | _ =>
      modify (λ s, set_names (foldl (λ d n, ddel n d) (names s) stale) s);;
      _save_state;;
      mret (length stale)
  end.

Definition _expired_group_names now s : list pystr :=
  map fst (filter (λ nr, let t := g_last_activity (deref s nr.2) in
    (0 < t)%Z ∧ (GROUP_TIMEOUT_SECONDS < now - t)%Z) (names s)).

Fixpoint close_groups (l : list pystr) : M tab_groups unit :=
  match l with [] => mret tt | n :: l => close_group n;; close_groups l end.
Definition cleanup_expired_groups now : M tab_groups nat :=
  expired ← gets (_expired_group_names now);
  close_groups expired;;
  mret (length expired).

(** ** Use by the commands and the server *)

(** The tab a command works on ([create_session], the part before the connection). *)
Definition session_target now (explicit_group env : option pystr) : M tab_groups pystr := λ s,
  match resolve_group_name explicit_group env with
  | None => (Raise (ChromeCommandError "NO_GROUP"), s)
  | Some name =>
      match get_current_target name s with
      | Some ((_ :: _) as i) => (touch_group now name;; mret i) s
      | _ => (Raise (ChromeCommandError "NO_TAB_IN_GROUP"), s)
      end
  end.

Definition build_group_index (port : Z) (c : chrome) : dict pystr pystr :=
  let s := new_manager port c in
  foldl (λ d nr, foldl (λ d i, dset i nr.1 d) d (dkeys (tabs (deref s nr.2)))) [] (names s).

Definition run_manager {A} (port : Z) (m : M tab_groups A) (c : chrome) : res A * chrome :=
  let '(r, s) := m (new_manager port c) in (r, tg_chrome s).

Definition set_pages (p : option (list page)) (c : chrome) : chrome :=
  {| pages := p; closed := closed c; tab_file := tab_file c; group_file := group_file c |}.

Section use.
Context `{Unicode, Url}.

Definition route_tab_for_navigate now (u : pystr) (explicit_group env : option pystr) (new : bool)
    (created : res pystr) (port : Z) (c : chrome) : res (pystr * pystr) * chrome :=
  match resolve_group_name explicit_group env with
  | None => (Raise (ChromeCommandError "NO_GROUP"), c)
  | Some name =>
      run_manager port (reconcile;; i ← get_or_create_tab now u name new created; mret (i, name)) c
  end.

(** Whether the sweep leaves a page alone. *)
Definition keeps (grouped managed : list pystr) (p : page) : bool :=
  is_landing_page (p_url p) (p_title p) || starts_with (§"data:text/html") (p_url p) ||
  bool_decide (p_id p ∈ grouped) || bool_decide (p_id p ∈ managed).

(** Close the pages no group and no tab manager knows; what groups know is [s].
    The browser is asked for its pages twice more. *)
Definition close_orphans now (port : Z) (pages2 pages3 : option (list page)) s : res unit * chrome :=
  let grouped := concat (map (λ nr, dkeys (tabs (deref s nr.2))) (names s)) in
  let '(r, t) := Tabs.reconcile now (new_tab_manager port (set_pages pages2 (tg_chrome s))) in
  match r with
  | Raise e => (Raise e, tm_chrome t)
  | Ok _ =>
      let managed := map tab_id (get_tracked_tabs t) in
      let orphans := filter (λ p, keeps grouped managed p = false)
        (_get_live_tabs (set_pages pages3 (tm_chrome t))) in
      (Ok tt, foldl (λ c p, note_closed (p_id p) c) (tm_chrome t) orphans)
  end.

(** The periodic sweep; and the one of the launcher when Chrome starts, which
    swallows errors. *)
Definition _do_cleanup now (port : Z) (alive : bool) (pages1 pages2 pages3 : option (list page))
    (c : chrome) : res unit * chrome :=
  if negb alive then (Ok tt, c)
  else
    let '(r, s) := (cleanup_expired_groups now;; reconcile) (new_manager port (set_pages pages1 c)) in
    match r with
    | Raise e => (Raise e, tg_chrome s)
    | Ok _ => close_orphans now port pages2 pages3 s
    end.

Definition _reconcile_tab_groups now (port : Z) (pages1 pages2 pages3 : option (list page))
    (c : chrome) : chrome :=
  let '(r, s) := reconcile (new_manager port (set_pages pages1 c)) in
  match r with
  | Raise _ => tg_chrome s
  | Ok _ => (close_orphans now port pages2 pages3 s).2
  end.
End use.

(** ** The file and the memory *)

Definition view s name : option TabGroupState := deref s <$> dget name (names s).
Definition stored s name : option TabGroupState :=
  match _read_disk_state (tg_port s) (group_file (tg_chrome s)) with
  | Ok d => dget name d
  | Raise _ => None
  end.

(** What a file that parses holds: each group once. *)
Definition file_ok (f : saved (dict pystr TabGroupState)) : Prop :=
  match f with Saved _ d => dict_wf d | _ => True end.

Lemma dget_map_snd {A B} (f : A → B) n (d : dict pystr A) :
  dget n (map (λ kv, (kv.1, f kv.2)) d) = f <$> dget n d.
Proof. induction d as [|[k v] d IH]; cbn; [done|]. by case_decide. Qed.
Lemma dkeys_map_snd {A B} (f : A → B) (d : dict pystr A) : dkeys (map (λ kv, (kv.1, f kv.2)) d) = dkeys d.
Proof. unfold dkeys. induction d as [|[k v] d IH]; cbn; [done|]. by f_equal. Qed.

Lemma read_disk_wf port f d : file_ok f → _read_disk_state port f = Ok d → dict_wf d.
Proof.
  destruct f as [| |p g]; cbn; [by intros _ [= <-]; apply NoDup_nil_2|done|].
  intros Hw. destruct (p =? port)%Z; intros [= <-]; [|by apply NoDup_nil_2].
  unfold dict_wf. by rewrite dkeys_map_snd.
Qed.

(** A manager: names once each, each with an object of its own. *)
Record mgr_ok s : Prop := {
  mo_wf : dict_wf (names s);
  mo_refs : ∀ n n' r, dget n (names s) = Some r → dget n' (names s) = Some r → n = n';
  mo_bound : ∀ n r, dget n (names s) = Some r → r < fresh s;
  mo_disk : file_ok (group_file (tg_chrome s));
}.

Lemma alloc_all_run d s : let '(refs, s') := alloc_all d s in
  tg_port s' = tg_port s ∧ names s' = names s ∧ _dirty_groups s' = _dirty_groups s ∧
  _deleted_groups s' = _deleted_groups s ∧ tg_chrome s' = tg_chrome s ∧ fresh s ≤ fresh s' ∧
  (∀ r, r < fresh s → heap s' !! r = heap s !! r) ∧ dkeys refs = dkeys d ∧
  (∀ n r, dget n refs = Some r → fresh s ≤ r < fresh s') ∧
  (∀ n n' r, dget n refs = Some r → dget n' refs = Some r → n = n') ∧
  (∀ n, deref s' <$> dget n refs = dget n d).
Proof.
  revert s. induction d as [|[n0 g] d IH]; intros s; cbn [alloc_all]; [by split_and!|].
  destruct (alloc g s) as [r0 s1] eqn:Ea. unfold alloc in Ea. injection Ea as <- <-.
  set (s1 := {| tg_port := _ |}). specialize (IH s1). destruct (alloc_all d s1) as [refs s2].
  destruct IH as (I1 & I2 & I3 & I4 & I5 & I6 & I7 & I8 & I9 & I10 & I11). cbn in I6.
  split_and!; try done; cbn.
  - lia.
  - intros r Hr. rewrite I7 by (cbn; lia). cbn. apply lookup_insert_ne. lia.
  - unfold dkeys in *. cbn. by f_equal.
  - intros n r. case_decide; [intros [= <-]; lia|]. intros Hr%I9. cbn in Hr. lia.
  - intros n n' r. case_decide as E1; case_decide as E2; [congruence| | |apply I10].
    + intros [= <-] Hr%I9. cbn in Hr. lia.
    + intros Hr%I9 [= <-]. cbn in Hr. lia.
  - intros n. case_decide; [|apply I11]. cbn. f_equal. unfold deref. rewrite I7 by (cbn; lia). cbn.
    by rewrite lookup_insert_eq.
Qed.

Lemma merge_dirty (disk ours : dict pystr nat) dirty n : dict_wf disk →
  let m := foldl (λ m n, match dget n ours with Some r => dset n r m | None => m end) disk dirty in
  dict_wf m ∧ dget n m = match decide (n ∈ dirty), dget n ours with
                         | left _, Some r => Some r | _, _ => dget n disk end.
Proof.
  revert disk. induction dirty as [|x dirty IH]; intros disk Hw; cbn [foldl].
  { split; [done|]. by rewrite decide_False by apply not_elem_of_nil. }
  destruct (IH (match dget x ours with Some r => dset x r disk | None => disk end)) as [I1 I2].
  { destruct (dget x ours); [by apply dset_wf|done]. }
  split; [done|]. rewrite I2. destruct (decide (n = x)) as [->|Hne].
  - rewrite (decide_True (P := x ∈ x :: dirty)) by apply list_elem_of_here.
    destruct (decide (x ∈ dirty)), (dget x ours) eqn:Eo; try done. by rewrite dget_dset_eq.
  - assert (n ∈ x :: dirty ↔ n ∈ dirty) as Hiff by (rewrite elem_of_cons; naive_solver).
    destruct (decide (n ∈ dirty)) as [Hi|Hi].
    + rewrite decide_True by by apply Hiff. destruct (dget n ours); [done|].
      destruct (dget x ours); [by rewrite dget_dset_ne|done].
    + rewrite decide_False by by rewrite Hiff. destruct (dget x ours); [by rewrite dget_dset_ne|done].
Qed.

Lemma merge_deleted (m : dict pystr nat) deleted n : dict_wf m →
  let m' := foldl (λ m n, ddel n m) m deleted in
  dict_wf m' ∧ dget n m' = if decide (n ∈ deleted) then None else dget n m.
Proof.
  revert m. induction deleted as [|x deleted IH]; intros m Hw; cbn [foldl].
  { split; [done|]. by rewrite decide_False by apply not_elem_of_nil. }
  destruct (IH (ddel x m) (ddel_wf x m Hw)) as [I1 I2]. split; [done|]. rewrite I2.
  destruct (decide (n = x)) as [->|Hne].
  - rewrite (decide_True (P := x ∈ x :: deleted)) by apply list_elem_of_here.
    rewrite dget_ddel_eq by done. by destruct (decide (x ∈ deleted)).
  - rewrite dget_ddel_ne by done. destruct (decide (n ∈ deleted)) as [Hi|Hi].
    + by rewrite decide_True by by apply list_elem_of_further.
    + by rewrite decide_False by (rewrite elem_of_cons; naive_solver).
Qed.

Lemma merge_get disk ours dirty deleted n : dict_wf disk →
  dict_wf (merge_groups disk ours dirty deleted) ∧
  dget n (merge_groups disk ours dirty deleted) =
    if decide (n ∈ deleted) then None
    else match decide (n ∈ dirty), dget n ours with left _, Some r => Some r | _, _ => dget n disk end.
Proof.
  intros Hw. destruct (merge_dirty disk ours dirty n Hw) as [H1 H2].
  destruct (merge_deleted _ deleted n H1) as [H3 H4]. split; [done|]. unfold merge_groups. by rewrite H4, H2.
Qed.

(** The groups after a save: a deleted one is gone, a changed one is ours, and
    every other is the one on file. *)
Definition merged s name : option TabGroupState :=
  if decide (name ∈ _deleted_groups s) then None
  else match decide (name ∈ _dirty_groups s), view s name with
       | left _, Some g => Some g
       | _, _ => stored s name
       end.

Lemma groups_save_run s : mgr_ok s → group_file (tg_chrome s) ≠ Corrupt →
  ∃ s', _save_state s = (Ok tt, s') ∧ mgr_ok s' ∧ tg_port s' = tg_port s ∧
    _dirty_groups s' = _dirty_groups s ∧ _deleted_groups s' = _deleted_groups s ∧
    tg_chrome s' = set_group_file (Saved (tg_port s) (written s')) (tg_chrome s) ∧
    fresh s ≤ fresh s' ∧ (∀ r, r < fresh s → deref s' r = deref s r) ∧
    (∀ n r, r < fresh s → dget n (names s') = Some r → dget n (names s) = Some r) ∧
    (∀ n r, dget n (names s) = Some r → n ∈ _dirty_groups s → n ∉ _deleted_groups s →
       dget n (names s') = Some r) ∧
    (∀ n, view s' n = merged s n).
Proof.
  intros [Hw Hr Hb Hd] Hc. unfold _save_state.
  destruct (_read_disk_state (tg_port s) (group_file (tg_chrome s))) as [disk|e] eqn:Er.
  2: { exfalso. apply Hc. destruct (group_file _); cbn in Er; [done|done|]. by destruct (port =? _)%Z. }
  pose proof (read_disk_wf _ _ _ Hd Er) as Hdw.
  pose proof (alloc_all_run disk s) as Ha. destruct (alloc_all disk s) as [refs s1].
  destruct Ha as (A1 & A2 & A3 & A4 & A5 & A6 & A7 & A8 & A9 & A10 & A11).
  assert (dict_wf refs) as Hrw by (unfold dict_wf; by rewrite A8).
  set (m := merge_groups _ _ _ _). assert (∀ n, dget n m = if decide (n ∈ _deleted_groups s) then None
    else match decide (n ∈ _dirty_groups s), dget n (names s) with left _, Some r => Some r | _, _ => dget n refs end) as Hm.
  { intros n. by apply merge_get. }
  assert (dict_wf m) as Hmw by (apply (merge_get refs (names s) _ _ [] Hrw)).
  assert (∀ n r, dget n m = Some r → dget n (names s) = Some r ∨ dget n refs = Some r) as Hfrom.
  { intros n r. rewrite Hm. case_decide; [done|]. case_decide; [|by right]. destruct (dget n (names s)); [by left|by right]. }
  set (s2 := set_names m s1). eexists. split; [reflexivity|].
  assert (∀ r, r < fresh s → deref s2 r = deref s r) as Hdr by (intros r Hlt; unfold deref; cbn; by rewrite A7).
  cbn. split_and!; try done.
  - split; cbn; [done| | |].
    + intros n n' r [H1|H1]%Hfrom [H2|H2]%Hfrom; [by eapply Hr| | |by eapply A10].
      * apply Hb in H1. apply A9 in H2. lia.
      * apply A9 in H1. apply Hb in H2. lia.
    + intros n r [H1|H1]%Hfrom; [apply Hb in H1; lia|apply A9 in H1; lia].
    + unfold dict_wf, written. cbn. by rewrite dkeys_map_snd.
  - by rewrite A5.
  - intros n r Hlt [?|Hx]%Hfrom; [done|]. apply A9 in Hx. lia.
  - intros n r Hn Hdi Hde. by rewrite Hm, decide_False, decide_True, Hn by done.
  - intros n. unfold view, merged. cbn [names set_chrome set_names s2]. rewrite Hm. case_decide; [done|].
    unfold stored. rewrite Er. destruct (decide (n ∈ _dirty_groups s)); [|apply A11].
    unfold view. destruct (dget n (names s)) as [r|] eqn:En; cbn; [|apply A11].
    f_equal. apply Hdr. by apply (Hb n).
Qed.

(** ** Operations keep to their group

    [Q n ks m] is a property of the ids of group [n]'s tabs and its ceiling that
    survives the loss of tabs. *)
Section keep.
Context (Q : pystr → list pystr → Z → Prop)
  (Qsub : ∀ n ks ks' m, ks' `sublist_of` ks → Q n ks m → Q n ks' m)
  (Qmax : ∀ n ks m, Q n ks m → (m <= DEFAULT_MAX_TABS_PER_GROUP)%Z)
  (Qnew : ∀ n, Q n [] DEFAULT_MAX_TABS_PER_GROUP).

Definition grouped name g : Prop := Q name (dkeys (tabs g)) (max_tabs g).

Record ginv s : Prop := {
  gi_ok : mgr_ok s;
  gi_view : ∀ n g, view s n = Some g → grouped n g;
  gi_stored : ∀ n g, stored s n = Some g → grouped n g;
}.

(** What an operation on one group may change: that group, and the marks of that
    group; and other groups already marked. *)
Record only name s s' : Prop := {
  on_port : tg_port s' = tg_port s;
  on_pages : pages (tg_chrome s') = pages (tg_chrome s);
  on_dirty : ∀ n, n ∈ _dirty_groups s' → n = name ∨ n ∈ _dirty_groups s;
  on_deleted : ∀ n, n ∈ _deleted_groups s' → n = name ∨ n ∈ _deleted_groups s;
  on_stored : ∀ n, n ≠ name → n ∉ _dirty_groups s → n ∉ _deleted_groups s → stored s' n = stored s n;
}.

Lemma only_refl name s : only name s s.
Proof. split; try done; by right. Qed.
Lemma only_trans name s1 s2 s3 : only name s1 s2 → only name s2 s3 → only name s1 s3.
Proof.
  intros [A1 A2 A3 A4 A5] [B1 B2 B3 B4 B5]. split; [congruence|congruence| | |].
  - intros n [->|?%A3]%B3; [by left|done].
  - intros n [->|?%A4]%B4; [by left|done].
  - intros n Hn Hd Hx. rewrite B5, A5; try done; [by intros [?|?]%A3|by intros [?|?]%A4].
Qed.

(** An object that no other name refers to. *)
Record owned name r s : Prop := {
  ow_bound : r < fresh s;
  ow_name : ∀ n, dget n (names s) = Some r → n = name;
}.

(** A computation that keeps to a group; one that also holds an object of it. *)
Definition safe {A} name (m : M tab_groups A) : Prop := ∀ s, ginv s → only name s (m s).2 ∧ ginv (m s).2.
Definition holds {A} name r (m : M tab_groups A) : Prop := ∀ s, ginv s → owned name r s →
  only name s (m s).2 ∧ ginv (m s).2 ∧ owned name r (m s).2.

Lemma safe_bind {A B} name (m : M tab_groups A) (f : A → M tab_groups B) :
  safe name m → (∀ a, safe name (f a)) → safe name (m ≫= f).
Proof.
  intros Hm Hf s Hs. unfold mbind, M_bind. destruct (Hm s Hs) as [O1 G1]. destruct (m s) as [[a|e] s1]; [|done].
  destruct (Hf a s1 G1) as [O2 G2]. split; [by eapply only_trans|done].
Qed.
Lemma holds_bind {A B} name r (m : M tab_groups A) (f : A → M tab_groups B) :
  holds name r m → (∀ a, holds name r (f a)) → holds name r (m ≫= f).
Proof.
  intros Hm Hf s Hs Ho. unfold mbind, M_bind. destruct (Hm s Hs Ho) as (O1 & G1 & W1).
  destruct (m s) as [[a|e] s1]; [|done]. destruct (Hf a s1 G1 W1) as (O2 & G2 & W2).
  split; [by eapply only_trans|done].
Qed.
Lemma holds_still {A} name r (m : M tab_groups A) : (∀ s, (m s).2 = s) → holds name r m.
Proof. intros Hm s Hs Ho. rewrite Hm. split; [apply only_refl|done]. Qed.
Lemma safe_still {A} name (m : M tab_groups A) : (∀ s, (m s).2 = s) → safe name m.
Proof. intros Hm s Hs. rewrite Hm. split; [apply only_refl|done]. Qed.

Lemma clip_grouped n g : grouped n g → clip g = g.
Proof.
  intros Hg%Qmax. unfold clip. destruct g as [x1 x2 x3 x4 x5 m x7]. cbn in *. f_equal. lia.
Qed.

Lemma groups_stored_saved s : (∀ n g, view s n = Some g → grouped n g) →
  group_file (tg_chrome s) = Saved (tg_port s) (written s) → ∀ n, stored s n = view s n.
Proof.
  intros Hv Hf n. unfold stored. rewrite Hf. cbn. rewrite Z.eqb_refl. unfold written, view.
  rewrite map_map. cbn. rewrite (dget_map_snd (λ r, clip (deref s r))). specialize (Hv n). unfold view in Hv.
  destruct (dget n (names s)) as [r|]; cbn in *; [|done]. by rewrite (clip_grouped n) by by apply Hv.
Qed.

(** A save, whatever the file is like. *)
Lemma save_keeps name s : ginv s → let s' := (_save_state s).2 in
  only name s s' ∧ ginv s' ∧ ∀ n r, owned n r s → owned n r s'.
Proof.
  intros [Hok Hv Hst].
  assert (group_file (tg_chrome s) = Corrupt ∨ group_file (tg_chrome s) ≠ Corrupt) as [Hc|Hc].
  { destruct (group_file (tg_chrome s)); [by right|by left|by right]. }
  { unfold _save_state. rewrite Hc. cbn. split; [apply only_refl|done]. }
  destruct (groups_save_run s Hok Hc) as (s' & -> & B1 & B2 & B3 & B4 & B5 & B6 & B7 & B8 & B9 & B10). cbn [snd].
  assert (∀ n g, view s' n = Some g → grouped n g) as Hv'.
  { intros n g. rewrite B10. unfold merged. case_decide; [done|].
    destruct (decide (n ∈ _dirty_groups s)); [|apply Hst]. destruct (view s n) eqn:Ev; [|apply Hst].
    intros [= <-]. by apply Hv. }
  assert (∀ n, stored s' n = view s' n) as Heq.
  { apply groups_stored_saved; [done|]. rewrite B5, B2. done. }
  split_and!.
  - split; [done|by rewrite B5|rewrite B3; by right|rewrite B4; by right|].
    intros n _ Hd Hx. rewrite Heq, B10. unfold merged. by rewrite decide_False, decide_False by done.
  - split; [done|done|]. intros n g. rewrite Heq. apply Hv'.
  - intros n r [Hb Hn]. split; [lia|]. intros n' Hr. by apply Hn, B8.
Qed.

Lemma save_safe name : safe name _save_state.
Proof. intros s Hs. by destruct (save_keeps name s Hs) as (? & ? & _). Qed.
Lemma save_holds name r : holds name r _save_state.
Proof. intros s Hs Ho. destruct (save_keeps name s Hs) as (? & ? & Hw). by split_and!; [| |apply Hw]. Qed.

Lemma view_store s r g n : view (store r g s) n =
  if decide (dget n (names s) = Some r) then Some g else view s n.
Proof.
  unfold view, deref. cbn. destruct (dget n (names s)) as [r'|]; cbn; [|by rewrite decide_False].
  case_decide as E; [injection E as ->; by rewrite lookup_insert_eq|].
  rewrite lookup_insert_ne by congruence. done.
Qed.

Lemma store_holds name r g s : ginv s → owned name r s →
  (dget name (names s) = Some r → grouped name g) →
  only name s (store r g s) ∧ ginv (store r g s) ∧ owned name r (store r g s).
Proof.
  intros [[Hw Hr Hb Hd] Hv Hst] [Hlt Hn] Hg. split_and!; [split; try done; by right| |done].
  split; [by split| |done]. intros n g'. rewrite view_store. case_decide as E; [|apply Hv].
  intros [= <-]. pose proof (Hn n E) as ->. by apply Hg.
Qed.

Lemma owned_grouped name r s : ginv s → dget name (names s) = Some r → grouped name (deref s r).
Proof. intros Hs Hr. apply (gi_view _ Hs). unfold view. by rewrite Hr. Qed.

Lemma mutate_holds name r f : (∀ g, grouped name g → grouped name (f g)) → holds name r (mutate r f).
Proof.
  intros Hf s Hs Ho. cbn [mutate modify snd]. apply store_holds; [done|done|].
  intros Hr. apply Hf. by apply owned_grouped.
Qed.

Lemma grouped_sub n g g' : dkeys (tabs g') `sublist_of` dkeys (tabs g) → max_tabs g' = max_tabs g →
  grouped n g → grouped n g'.
Proof. unfold grouped. intros Hs ->. by apply Qsub. Qed.

Lemma marks_keep name s dirty deleted :
  (∀ n, n ∈ dirty → n = name ∨ n ∈ _dirty_groups s) → (∀ n, n ∈ deleted → n = name ∨ n ∈ _deleted_groups s) →
  ginv s → only name s (set_marks dirty deleted s) ∧ ginv (set_marks dirty deleted s).
Proof. intros H1 H2 [[Hw Hr Hb Hd] Hv Hst]. split; [by split|]. by split; [split|..]. Qed.

Lemma elem_of_sadd n x l : n ∈ sadd x l ↔ n = x ∨ n ∈ l.
Proof.
  unfold sadd. case_decide as Hx; [|rewrite elem_of_app, list_elem_of_singleton]; naive_solver.
Qed.
Lemma elem_of_sdiscard n x l : n ∈ sdiscard x l ↔ n ≠ x ∧ n ∈ l.
Proof. unfold sdiscard. by rewrite list_elem_of_filter. Qed.

Lemma dirty_keeps name s : ginv s → only name s (mark_dirty name s) ∧ ginv (mark_dirty name s).
Proof. apply marks_keep; [intros n; by rewrite elem_of_sadd|by right]. Qed.
Lemma dirty_holds name r : holds name r (modify (mark_dirty name)).
Proof. intros s Hs Ho. destruct (dirty_keeps name s Hs). by destruct Ho. Qed.

Lemma alloc_keeps name g s : ginv s → let '(r, s') := alloc g s in
  only name s s' ∧ ginv s' ∧ owned name r s' ∧ deref s' r = g ∧ names s' = names s.
Proof.
  intros [[Hw Hr Hb Hd] Hv Hst]. unfold alloc. set (s' := {| tg_port := _ |}).
  assert (∀ r, r < fresh s → deref s' r = deref s r) as Hde.
  { intros r Hlt. unfold deref. cbn. by rewrite lookup_insert_ne by lia. }
  split_and!; [split; try done; by right| | | |done].
  - split; [split; try done| |done].
    + intros n r Hn. specialize (Hb n r Hn). cbn. lia.
    + intros n g' Hg. apply Hv. rewrite <- Hg. unfold view. cbn [names s'].
      destruct (dget n (names s)) as [r|] eqn:En; [|done]. cbn. by rewrite Hde by by eapply Hb.
  - split; cbn; [lia|]. intros n Hn. apply Hb in Hn. lia.
  - unfold deref. cbn. by rewrite lookup_insert_eq.
Qed.

Lemma ensure_keeps now name s : ginv s → let '(res, s') := ensure_group now name s in
  only name s s' ∧ ginv s' ∧ ∀ r, res = Ok r → owned name r s'.
Proof.
  intros Hs. unfold ensure_group. destruct (dget name (names s)) as [r|] eqn:Er.
  { destruct (dirty_keeps name s Hs) as [H1 H2]. split_and!; [done|done|]. intros r' [= <-].
    destruct (gi_ok _ Hs) as [Hw Hr Hb Hd]. split; cbn; [by eapply Hb|]. intros n Hn. by eapply Hr. }
  pose proof (alloc_keeps name (new_group now name) s Hs) as Ha.
  destruct (alloc (new_group now name) s) as [r s1]. destruct Ha as (O1 & G1 & W1 & D1 & N1).
  set (s2 := set_names (dset name r (names s1)) s1).
  assert (only name s1 s2 ∧ ginv s2 ∧ owned name r s2) as (O2 & G2 & W2).
  { destruct G1 as [[Hw Hr Hb Hd] Hv Hst], W1 as [Hlt Hn]. rewrite N1 in *. split_and!.
    - split; try done; by right.
    - split; [split; cbn; rewrite ?N1; [by apply dset_wf| | |done]| |done].
      + intros n n' r'. destruct (decide (n = name)) as [->|H1], (decide (n' = name)) as [->|H2]; try done;
          rewrite ?dget_dset_eq, ?dget_dset_ne by done; [| |apply Hr].
        * intros [= <-] Hx%Hn. done.
        * intros Hx [= <-]. by apply Hn in Hx.
      + intros n r'. destruct (decide (n = name)) as [->|H1]; rewrite ?dget_dset_eq, ?dget_dset_ne by done; [|apply Hb].
        by intros [= <-].
      + intros n g. unfold view. cbn [names s2 set_names]. rewrite N1.
        destruct (decide (n = name)) as [->|H1]; rewrite ?dget_dset_eq, ?dget_dset_ne by done.
        * cbn. change (deref s2 r) with (deref s1 r). rewrite D1. intros [= <-]. apply Qnew.
        * intros Hg. apply Hv. unfold view. by rewrite N1.
    - split; [done|]. cbn. intros n. rewrite N1. destruct (decide (n = name)) as [->|H1]; [done|].
      rewrite dget_dset_ne by done. by intros Hx%Hn. }
  destruct (dirty_keeps name s2 G2) as [O3 G3].
  destruct (save_keeps name _ G3) as (O4 & G4 & W4). unfold mbind, M_bind.
  destruct (_save_state (mark_dirty name s2)) as [[[]|e] s4]; cbn in *;
    (split_and!; [eauto using only_trans|done|]); intros r' [= <-]. apply W4. by destruct W2.
Qed.

Lemma dkeys_filter_sub (P : pystr * TabEntry → Prop) `{∀ x, Decision (P x)} (d : dict pystr TabEntry) :
  dkeys (filter P d) `sublist_of` dkeys d.
Proof. apply fmap_sublist, sublist_filter. Qed.
Lemma dkeys_ddel_sub i (d : dict pystr TabEntry) : dkeys (ddel i d) `sublist_of` dkeys d.
Proof.
  unfold dkeys. induction d as [|[k v] d IH]; cbn; [done|].
  case_decide; [by apply sublist_cons|by apply sublist_skip].
Qed.
Lemma dkeys_touch_entry now i t : dkeys (touch_entry now i t) = dkeys t.
Proof. unfold touch_entry. destruct (dget i t) eqn:E; [|done]. by apply (dkeys_dset_old _ _ _ _ E). Qed.

Lemma drop_dead_grouped n live g : grouped n g → grouped n (drop_dead live g).
Proof. apply grouped_sub; [apply dkeys_filter_sub|done]. Qed.

Lemma prune_holds name r : holds name r (_prune_dead_tabs r).
Proof.
  unfold _prune_dead_tabs. apply holds_bind; [by apply holds_still|]. intros live.
  apply holds_bind; [by apply holds_still|]. intros g. destruct live as [|i live]; [by apply holds_still|].
  destruct (has_dead _ g); [|by apply holds_still].
  apply holds_bind; [|intros _; apply save_holds]. apply mutate_holds. intros g'. apply drop_dead_grouped.
Qed.

(** A computation on the object a name refers to. *)
Lemma lookup_safe {A} name (m : nat → M tab_groups A) : (∀ r, holds name r (m r)) →
  safe name (r ← lookup name; m r).
Proof.
  intros Hm s Hs. unfold mbind, M_bind, lookup. destruct (dget name (names s)) as [r|] eqn:Er; [|split; [apply only_refl|done]].
  destruct (Hm r s Hs) as (O & G & _); [|done]. destruct (gi_ok _ Hs) as [Hw Hr Hb Hd].
  split; [by eapply Hb|]. intros n Hn. by eapply Hr.
Qed.

Lemma optional_safe {A} name (m : nat → M tab_groups A) (a : res A) : (∀ r, holds name r (m r)) →
  safe name (λ s, match dget name (names s) with None => (a, s) | Some r => m r s end).
Proof.
  intros Hm s Hs. pose proof (lookup_safe name m Hm s Hs) as Hl. unfold mbind, M_bind, lookup in Hl.
  destruct (dget name (names s)); [done|]. split; [apply only_refl|done].
Qed.

Lemma require_keeps name tab : safe name (require_tab_in_group name tab).
Proof.
  apply optional_safe. intros r. apply holds_bind; [apply prune_holds|]. intros _.
  apply holds_bind; [by apply holds_still|]. intros g. destruct (filter _ _) as [|i [|]]; by apply holds_still.
Qed.

Lemma mark_and_save name r : holds name r (modify (mark_dirty name);; _save_state).
Proof. apply holds_bind; [apply dirty_holds|]. intros _. apply save_holds. Qed.

Lemma switch_safe now name tab : safe name (switch_tab now name tab).
Proof.
  apply safe_bind; [apply require_keeps|]. intros full. apply lookup_safe. intros r.
  apply holds_bind; [by apply mutate_holds|]. intros _. apply holds_bind; [by apply holds_still|]. intros g.
  destruct (dmem full (tabs g)); [|by apply holds_still].
  apply holds_bind; [|intros _; apply holds_bind; [apply dirty_holds|intros _; apply holds_bind;
    [apply save_holds|intros _; by apply holds_still]]].
  apply mutate_holds. intros g'. apply grouped_sub; [|done]. cbn [tabs touch with_tabs].
  by rewrite dkeys_touch_entry.
Qed.

Lemma close_tab_safe now name tab : safe name (close_tab now name tab).
Proof.
  apply safe_bind; [apply require_keeps|]. intros full. apply lookup_safe. intros r.
  apply holds_bind.
  { intros s [[Hw Hr Hb Hd] Hv Hst] [Hlt Hn]. cbn. split_and!; [split; try done; by right| |done].
    by split; [split|..]. }
  intros _. apply holds_bind; [by apply holds_still|]. intros g.
  destruct (dmem full (tabs g)); [|by apply holds_still].
  apply holds_bind; [|intros _; apply holds_bind; [apply dirty_holds|intros _; apply holds_bind;
    [apply save_holds|intros _; by apply holds_still]]].
  apply mutate_holds. intros g'. apply grouped_sub; [|done]. cbn. apply dkeys_ddel_sub.
Qed.

Lemma touch_group_safe now name : safe name (touch_group now name).
Proof.
  apply optional_safe. intros r. apply holds_bind; [|intros _; apply mark_and_save].
  apply mutate_holds. intros g. apply grouped_sub; [|done]. cbn [tabs touch with_tabs].
  destruct (current_target_id g); [by rewrite dkeys_touch_entry|done].
Qed.

Lemma set_current_safe name i : safe name (set_current_target name i).
Proof. apply optional_safe. intros r. apply holds_bind; [by apply mutate_holds|intros _; apply mark_and_save]. Qed.

Lemma drop_name_keeps name s : ginv s →
  only name s (set_names (ddel name (names s)) s) ∧ ginv (set_names (ddel name (names s)) s).
Proof.
  intros [[Hw Hr Hb Hd] Hv Hst]. split; [split; try done; by right|].
  assert (∀ n r, dget n (ddel name (names s)) = Some r → dget n (names s) = Some r) as Hd'.
  { intros n r. destruct (decide (n = name)) as [->|]; [by rewrite dget_ddel_eq|by rewrite dget_ddel_ne]. }
  split; [split; cbn| |done].
  - by apply ddel_wf.
  - intros n n' r H1%Hd' H2%Hd'. by eapply Hr.
  - intros n r H1%Hd'. by eapply Hb.
  - done.
  - intros n g. unfold view. cbn [names set_names]. destruct (dget n (ddel name (names s))) as [r|] eqn:E; [|done].
    apply Hd' in E. intros Hg. apply Hv. unfold view. by rewrite E.
Qed.

Lemma forget_keeps name s : ginv s → only name s (forget s name) ∧ ginv (forget s name).
Proof.
  intros Hs. destruct (drop_name_keeps name s Hs) as [O1 G1]. edestruct (marks_keep name) as [O2 G2]; [| |exact G1|].
  3: by split; [eapply only_trans; [exact O1|exact O2]|exact G2].
  - cbn. intros n [_ ?]%elem_of_sdiscard. by right.
  - cbn. intros n. by rewrite elem_of_sadd.
Qed.

Lemma note_closes_keep name l s : ginv s →
  let s' := foldl (λ s i, note_close i s) s l in only name s s' ∧ ginv s'.
Proof.
  revert s. induction l as [|i l IH]; intros s Hs; cbn [foldl]; [split; [apply only_refl|done]|].
  assert (only name s (note_close i s) ∧ ginv (note_close i s)) as [O1 G1].
  { destruct Hs as [[Hw Hr Hb Hd] Hv Hst]. split; [split; try done; by right|]. by split; [split|..]. }
  destruct (IH _ G1) as [O2 G2]. split; [by eapply only_trans|done].
Qed.

Lemma close_group_safe name : safe name (close_group name).
Proof.
  intros s Hs. unfold close_group. destruct (dget name (names s)) as [r|]; [|split; [apply only_refl|done]].
  destruct (forget_keeps name s Hs) as [O1 G1].
  destruct (note_closes_keep name (dkeys (tabs (deref s r))) _ G1) as [O2 G2].
  assert (safe name (_save_state;; mret true)) as Hsv.
  { apply safe_bind; [apply save_safe|]. intros _. by apply safe_still. }
  destruct (Hsv _ G2) as [O3 G3].
  split; [|exact G3]. eapply only_trans; [exact O1|]. eapply only_trans; [exact O2|exact O3].
Qed.

(** *** Opening tabs *)

Lemma add_grouped name now (u o i : pystr) g :
  (∀ ks m, Q name ks m → (Z.of_nat (length ks) < m)%Z → Q name (ks ++ [i]) m) →
  (Z.of_nat (length (tabs g)) < max_tabs g)%Z →
  grouped name g → grouped name (touch now (with_tabs (dset i (new_entry now i o u []) (tabs g)) (Some i) g)).
Proof.
  intros Hi Hl Hg. unfold grouped. cbn [tabs touch with_tabs max_tabs]. destruct (dget i (tabs g)) as [e|] eqn:Ei.
  - by rewrite (dkeys_dset_old _ _ _ _ Ei).
  - rewrite dset_new by done. unfold dkeys in *. rewrite fmap_app. cbn. apply Hi; [done|].
    by rewrite length_fmap.
Qed.

Section open.
Context `{Unicode, Url} (name : pystr) (created : res pystr)
  (Qadd : ∀ i ks m, created = Ok i → Q name ks m → (Z.of_nat (length ks) < m)%Z → Q name (ks ++ [i]) m).

Lemma open_holds now u r : holds name r (_assert_room r;; open_tab now u r created).
Proof.
  intros s Hs Ho. unfold _assert_room, open_tab, mbind, M_bind. cbn [gets lift_res].
  case_decide as Hl; [|cbn; split; [apply only_refl|done]]. cbn [mret M_ret].
  destruct created as [[|c i]|e]; [cbn; split; [apply only_refl|done]| |cbn; split; [apply only_refl|done]].
  destruct (extract_origin u) as [o|e]; [|cbn; split; [apply only_refl|done]]. cbn [mutate modify].
  match goal with |- context [_save_state ?x] => set (s1 := x) end.
  destruct (store_holds name r (touch now (with_tabs (dset (c :: i) (new_entry now (c :: i) (default [] o) u [])
    (tabs (deref s r))) (Some (c :: i)) (deref s r))) s Hs Ho) as (O1 & G1 & W1).
  { intros Hr. apply add_grouped; [by intros ks m; apply Qadd|done|]. by apply owned_grouped. }
  destruct (save_holds name r s1 G1 W1) as (O2 & G2 & W2).
  destruct (_save_state s1) as [[[]|e] s2]; (split; [by eapply only_trans|done]).
Qed.

Lemma reuse_holds now u r i : holds name r (reuse_current now u r i).
Proof.
  apply holds_bind; [by apply holds_still|]. intros o. apply holds_bind; [by apply holds_still|]. intros g.
  apply holds_bind; [|intros _; apply holds_bind; [apply save_holds|intros _; by apply holds_still]].
  apply mutate_holds. intros g'. unfold reuse_tab. destruct (dget i (tabs g')) as [e|] eqn:Ei; [|done].
  apply grouped_sub; [|done]. cbn [tabs touch with_tabs]. by rewrite (dkeys_dset_old _ _ _ _ Ei).
Qed.

Lemma tab_in_group_holds now u r new : holds name r (tab_in_group now u r new created).
Proof.
  apply holds_bind; [apply prune_holds|]. intros _. apply holds_bind; [by apply holds_still|]. intros g.
  destruct (current_target_id g) as [i|]; [|apply open_holds].
  destruct (negb new && dmem i (tabs g)); [apply reuse_holds|apply open_holds].
Qed.

Lemma get_or_create_safe now u new : safe name (get_or_create_tab now u name new created).
Proof.
  intros s Hs. unfold get_or_create_tab, mbind, M_bind.
  pose proof (ensure_keeps now name s Hs) as He. destruct (ensure_group now name s) as [[r|e] s1];
    destruct He as (O1 & G1 & W1); [|done].
  destruct (tab_in_group_holds now u r new s1 G1 (W1 r eq_refl)) as (O2 & G2 & _).
  split; [by eapply only_trans|exact G2].
Qed.
End open.

(** *** Cleaning up *)

Lemma drop_if_dead_inv live s n r : ginv s → dget n (names s) = Some r →
  ginv (drop_if_dead live s r) ∧ names (drop_if_dead live s r) = names s.
Proof.
  intros Hs Hn. unfold drop_if_dead. destruct (has_dead live (deref s r)); [|done]. split; [|done].
  destruct (gi_ok _ Hs) as [Hw Hr Hb Hd]. apply (store_holds n); [done|split; [by eapply Hb|]|].
  - intros n' Hn'. by eapply Hr.
  - intros _. by apply drop_dead_grouped, owned_grouped.
Qed.

Lemma drop_all_inv live l s : (∀ r, r ∈ l → ∃ n, dget n (names s) = Some r) → ginv s →
  ginv (foldl (drop_if_dead live) s l).
Proof.
  revert s. induction l as [|r l IH]; intros s Hl Hs; cbn [foldl]; [done|].
  destruct (Hl r (list_elem_of_here _ _)) as [n Hn]. destruct (drop_if_dead_inv live s n r Hs Hn) as [G E].
  apply IH; [|done]. intros r' Hr'. rewrite E. by apply Hl, list_elem_of_further.
Qed.

Lemma forget_all_inv l s : ginv s → ginv (foldl forget s l).
Proof.
  revert s. induction l as [|n l IH]; intros s Hs; cbn [foldl]; [done|].
  apply IH. by destruct (forget_keeps n s Hs).
Qed.

Lemma reconcile_inv s : ginv s → ginv (reconcile s).2.
Proof.
  intros Hs. unfold reconcile. destruct (_get_live_target_ids _) as [|i live]; [done|].
  match goal with |- ginv (if ?b then _save_state ?x else _).2 => set (s1 := x); destruct b end.
  1: apply (save_keeps []).
  all: apply forget_all_inv, drop_all_inv; [|done].
  all: intros r ([n r'] & -> & Hin)%list_elem_of_fmap; exists n; apply dget_elem; [apply Hs|done].
Qed.

Lemma drop_names_inv l s : ginv s → ginv (set_names (foldl (λ d n, ddel n d) (names s) l) s).
Proof.
  revert s. induction l as [|n l IH]; intros s Hs; cbn [foldl].
  { by destruct s. }
  destruct (drop_name_keeps n s Hs) as [_ G]. apply (IH _ G).
Qed.

Lemma stale_inv s : ginv s → ginv (cleanup_stale_groups s).2.
Proof.
  intros Hs. unfold cleanup_stale_groups, mbind, M_bind. pose proof (reconcile_inv s Hs) as G.
  destruct (reconcile s) as [[[]|e] s1]; [|done]. cbn in G. cbn [gets].
  destruct (empty_names s1) as [|n l]; [done|]. cbn [modify].
  destruct (save_keeps [] _ (drop_names_inv (n :: l) s1 G)) as (_ & G2 & _).
  by destruct (_save_state _) as [[[]|e] s2].
Qed.

Lemma close_groups_inv l s : ginv s → ginv (close_groups l s).2.
Proof.
  revert s. induction l as [|n l IH]; intros s Hs; cbn [close_groups]; [done|]. unfold mbind, M_bind.
  destruct (close_group_safe n s Hs) as [_ G]. destruct (close_group n s) as [[b|e] s1]; [by apply IH|done].
Qed.

Lemma expired_inv now s : ginv s → ginv (cleanup_expired_groups now s).2.
Proof.
  intros Hs. unfold cleanup_expired_groups, mbind, M_bind. cbn [gets].
  pose proof (close_groups_inv (_expired_group_names now s) s Hs) as G.
  by destruct (close_groups _ s) as [[[]|e] s1].
Qed.
End keep.

(** ** The commands of an agent *)

Inductive command :=
  | Navigate (u : pystr) (new : bool) (created : res pystr)
  | SwitchTab (tab : pystr)
  | CloseTab (tab : pystr)
  | TouchGroup
  | SetCurrent (i : pystr)
  | CloseGroup.

Definition done_with {A} (m : M tab_groups A) : M tab_groups unit := m;; mret tt.

Section commands.
Context `{Unicode, Url}.

Definition perform now name (c : command) : M tab_groups unit :=
  match c with
  | Navigate u new created => done_with (get_or_create_tab now u name new created)
  | SwitchTab tab => done_with (switch_tab now name tab)
  | CloseTab tab => done_with (close_tab now name tab)
  | TouchGroup => touch_group now name
  | SetCurrent i => set_current_target name i
  | CloseGroup => done_with (close_group name)
  end.

Lemma perform_safe (Q : pystr → list pystr → Z → Prop)
    (Qsub : ∀ n ks ks' m, ks' `sublist_of` ks → Q n ks m → Q n ks' m)
    (Qmax : ∀ n ks m, Q n ks m → (m <= DEFAULT_MAX_TABS_PER_GROUP)%Z)
    (Qnew : ∀ n, Q n [] DEFAULT_MAX_TABS_PER_GROUP) now name c :
  (∀ u new i ks m, c = Navigate u new (Ok i) → Q name ks m → (Z.of_nat (length ks) < m)%Z → Q name (ks ++ [i]) m) →
  safe Q name (perform now name c).
Proof.
  intros Qadd. assert (∀ A (m : M tab_groups A), safe Q name m → safe Q name (done_with m)) as Hd.
  { intros A m Hm. apply safe_bind; [done|]. intros _. by apply safe_still. }
  destruct c; cbn [perform]; try apply Hd.
  - apply get_or_create_safe; [done..|]. intros i ks m ->. by eapply Qadd.
  - by apply switch_safe.
  - by apply close_tab_safe.
  - by apply touch_group_safe.
  - by apply set_current_safe.
  - by apply close_group_safe.
Qed.
End commands.

(** ** Isolation *)

(** No more than the common ceiling. *)
Definition capped (n : pystr) (ks : list pystr) (m : Z) : Prop := (m <= DEFAULT_MAX_TABS_PER_GROUP)%Z.

Lemma stored_clip s n g : stored s n = Some g → clip g = g.
Proof.
  unfold stored. destruct (group_file _) as [| |p d]; cbn; [done|done|]. destruct (p =? tg_port s)%Z; [|done].
  rewrite (dget_map_snd clip). destruct (dget n d) as [g'|]; [|done]. intros [= <-].
  unfold clip. destruct g' as [x1 x2 x3 x4 x5 m x7]. cbn. f_equal. lia.
Qed.

Lemma clip_capped g : clip g = g → (max_tabs g <= DEFAULT_MAX_TABS_PER_GROUP)%Z.
Proof. intros <-. cbn. lia. Qed.

(** A command keeps to its group.  Whatever an agent does with the tabs of its
    group, every other group is on file afterwards as it was before, as other
    processes left it, unless this process has itself changed or deleted it. *)
Theorem command_keeps_other_groups `{Unicode, Url} now name c s n : mgr_ok s →
  (∀ n g, view s n = Some g → (max_tabs g <= DEFAULT_MAX_TABS_PER_GROUP)%Z) →
  n ≠ name → n ∉ _dirty_groups s → n ∉ _deleted_groups s →
  stored (perform now name c s).2 n = stored s n.
Proof.
  intros Hok Hv Hn Hd Hx. assert (ginv capped s) as Hs.
  { split; [done|done|]. intros n' g Hg%stored_clip. by apply clip_capped. }
  destruct (perform_safe capped) with (now := now) (name := name) (c := c) (s := s) as [O _]; try done.
  by apply (on_stored _ _ _ O).
Qed.

(** *** All processes together *)

(** The tabs of a group: few, and each opened for it. *)
Definition belongs (own : gmap pystr pystr) (n : pystr) (ks : list pystr) (m : Z) : Prop :=
  (m <= DEFAULT_MAX_TABS_PER_GROUP)%Z ∧ (Z.of_nat (length ks) <= DEFAULT_MAX_TABS_PER_GROUP)%Z ∧
  ∀ i, i ∈ ks → own !! i = Some n.

Lemma belongs_sub own n ks ks' m : ks' `sublist_of` ks → belongs own n ks m → belongs own n ks' m.
Proof.
  intros Hs (H1 & H2 & H3). pose proof (sublist_length _ _ Hs). split; [done|]. split; [lia|].
  intros i Hi. apply H3. eapply elem_of_submseteq; [done|]. by apply sublist_submseteq.
Qed.
Lemma belongs_new own n : belongs own n [] DEFAULT_MAX_TABS_PER_GROUP.
Proof. split; [done|]. split; [done|]. intros i Hi. by apply elem_of_nil in Hi. Qed.
Lemma belongs_mono own own' n ks m : own ⊆ own' → belongs own n ks m → belongs own' n ks m.
Proof. intros Ho (H1 & H2 & H3). split; [done|]. split; [done|]. intros i Hi. by eapply lookup_weaken, Ho; apply H3. Qed.

(** The browser and the files, the managers of the running processes, and for
    each tab the group it was opened for. *)
Record system := { sh : chrome; procs : list tab_groups; owner : gmap pystr pystr }.

Inductive sweep := Reconcile | CleanStale | CleanExpired.
Definition do_sweep now (w : sweep) : M tab_groups unit :=
  match w with
  | Reconcile => reconcile
  | CleanStale => done_with cleanup_stale_groups
  | CleanExpired => done_with (cleanup_expired_groups now)
  end.

Definition opens (c : command) : option pystr :=
  match c with Navigate _ _ (Ok i) => Some i | _ => None end.
Definition note_owner name (c : command) (own : gmap pystr pystr) : gmap pystr pystr :=
  match opens c with Some i => <[i := name]> own | None => own end.

Section system.
Context `{Unicode, Url} (port : Z).
Implicit Types (y : system) (m : tab_groups).

(** A process starts, works on a group, or cleans up; the pages of the browser
    come and go.  The browser gives a new tab an id it has not used before. *)
Inductive sys_step : system → system → Prop :=
  | sys_start y : sys_step y {| sh := sh y; procs := procs y ++ [new_manager port (sh y)]; owner := owner y |}
  | sys_command y k m now name c :
      procs y !! k = Some m → (∀ i, opens c = Some i → owner y !! i = None) →
      let m' := (perform now name c (set_chrome (sh y) m)).2 in
      sys_step y {| sh := tg_chrome m'; procs := <[k := m']> (procs y); owner := note_owner name c (owner y) |}
  | sys_sweep y k m now w :
      procs y !! k = Some m → let m' := (do_sweep now w (set_chrome (sh y) m)).2 in
      sys_step y {| sh := tg_chrome m'; procs := <[k := m']> (procs y); owner := owner y |}
  | sys_pages y p : sys_step y {| sh := set_pages p (sh y); procs := procs y; owner := owner y |}.

Definition sys_init (c : chrome) : system := {| sh := c; procs := []; owner := ∅ |}.

(** A manager that sees the shared files keeps its invariant; a new one has it. *)
Record sys_inv y : Prop := {
  si_file : ginv (belongs (owner y)) (new_manager port (sh y));
  si_procs : Forall (λ m, tg_port m = port ∧ ginv (belongs (owner y)) (set_chrome (sh y) m)) (procs y);
}.

Lemma new_manager_run c : let s := new_manager port c in
  tg_port s = port ∧ tg_chrome s = c ∧ _dirty_groups s = [] ∧ _deleted_groups s = [] ∧
  (file_ok (group_file c) → mgr_ok s) ∧ ∀ n, view s n = stored s n.
Proof.
  unfold new_manager, stored. destruct (_read_disk_state port (group_file c)) as [d|e] eqn:Er.
  2: { cbn. rewrite Er. split_and!; try done. intros Hf. split; try done. apply NoDup_nil_2. }
  match goal with |- context [alloc_all d ?x] => set (s0 := x) end.
  pose proof (alloc_all_run d s0) as Ha. destruct (alloc_all d s0) as [refs s1].
  destruct Ha as (A1 & A2 & A3 & A4 & A5 & A6 & A7 & A8 & A9 & A10 & A11). cbn zeta. cbn. rewrite A1, A5. cbn. rewrite Er.
  split_and!; try done.
  intros Hf. split; cbn.
  - unfold dict_wf. rewrite A8. by eapply read_disk_wf.
  - intros n n' r. apply A10.
  - intros n r Hr%A9. lia.
  - by rewrite A5.
Qed.

(** A manager's invariant depends on the files only through its port. *)
Lemma ginv_elsewhere Q s m : tg_port m = tg_port s → ginv Q s → ginv Q (set_chrome (tg_chrome s) m) ↔
  (dict_wf (names m) ∧ (∀ n n' r, dget n (names m) = Some r → dget n' (names m) = Some r → n = n') ∧
   (∀ n r, dget n (names m) = Some r → r < fresh m) ∧ ∀ n g, view m n = Some g → grouped Q n g).
Proof.
  intros Hp [[_ _ _ Hd] _ Hst]. split.
  - intros [[Hw Hr Hb _] Hv _]. done.
  - intros (Hw & Hr & Hb & Hv). split; [by split|done|]. unfold stored in *. cbn in *. by rewrite Hp.
Qed.

Lemma ginv_new Q s : tg_port s = port → ginv Q s → ginv Q (new_manager port (tg_chrome s)).
Proof.
  intros Hp [[Hw Hr Hb Hd] Hv Hst]. destruct (new_manager_run (tg_chrome s)) as (N1 & N2 & _ & _ & N3 & N4).
  assert (∀ n g, stored (new_manager port (tg_chrome s)) n = Some g → grouped Q n g) as Hx.
  { intros n g. unfold stored. rewrite N1, N2, <- Hp. apply Hst. }
  split; [by apply N3|intros n g; rewrite N4; apply Hx|exact Hx].
Qed.

Lemma ginv_mono own own' s : own ⊆ own' → ginv (belongs own) s → ginv (belongs own') s.
Proof.
  intros Ho [Hok Hv Hst]. split; [done| |]; intros n g Hg; eapply belongs_mono; [done|by apply Hv|done|by apply Hst].
Qed.

Lemma set_chrome_same s : set_chrome (tg_chrome s) s = s.
Proof. by destruct s. Qed.

Lemma ginv_file Q s c : group_file c = group_file (tg_chrome s) → ginv Q s → ginv Q (set_chrome c s).
Proof.
  intros Hc [[Hw Hr Hb Hd] Hv Hst]. split; [split; try done; cbn; by rewrite Hc|done|].
  intros n g. unfold stored. cbn. rewrite Hc. apply Hst.
Qed.

(** No operation moves to another browser or touches the tab manager's file. *)
Definition fixed s := (tg_port s, tab_file (tg_chrome s)).

Lemma save_port s : fixed (_save_state s).2 = fixed s.
Proof.
  unfold _save_state. destruct (_read_disk_state _ _) as [d|e]; [|done].
  pose proof (alloc_all_run d s) as Ha. destruct (alloc_all d s) as [refs s1]. destruct Ha as (A1 & A2 & A3 & A4 & A5 & _). unfold fixed. cbn. by rewrite A1, A5.
Qed.
Lemma fold_port {A} (f : tab_groups → A → tab_groups) l s : (∀ s a, fixed (f s a) = fixed s) →
  fixed (foldl f s l) = fixed s.
Proof. intros Hf. revert s. induction l as [|a l IH]; intros s; cbn; [done|]. by rewrite IH. Qed.
Lemma reconcile_port s : fixed (reconcile s).2 = fixed s.
Proof.
  unfold reconcile. destruct (_get_live_target_ids _) as [|i live]; [done|].
  match goal with |- fixed (if ?b then _ else _).2 = _ => destruct b end.
  1: rewrite save_port.
  all: cbn [snd]; rewrite !fold_port; [done| |done]; intros s' r; unfold drop_if_dead; by destruct (has_dead _ _).
Qed.
Lemma close_groups_port l s : fixed (close_groups l s).2 = fixed s.
Proof.
  revert s. induction l as [|n l IH]; intros s; cbn [close_groups]; [done|]. unfold mbind, M_bind.
  assert (fixed (close_group n s).2 = fixed s) as Hc.
  { unfold close_group. destruct (dget n (names s)) as [r|]; [|done]. unfold mbind, M_bind.
    match goal with |- context [_save_state ?x] => pose proof (save_port x) as Hp; destruct (_save_state x) as [[?|?] s'] end;
    cbn in *; rewrite Hp, fold_port; done. }
  destruct (close_group n s) as [[b|e] s1]; [|done]. cbn in Hc. by rewrite IH.
Qed.
Lemma sweep_port now w s : fixed (do_sweep now w s).2 = fixed s.
Proof.
  destruct w; cbn [do_sweep]; [apply reconcile_port| |]; unfold done_with, mbind, M_bind.
  - unfold cleanup_stale_groups, mbind, M_bind. pose proof (reconcile_port s) as Hp.
    destruct (reconcile s) as [[[]|e] s1]; [|done]. cbn [gets]. destruct (empty_names s1); [done|]. cbn [modify].
    match goal with |- context [_save_state ?x] => pose proof (save_port x) as Hq; destruct (_save_state x) as [[?|?] s'] end;
      cbn in *; unfold fixed in *; cbn in *; congruence.
  - unfold cleanup_expired_groups, mbind, M_bind. cbn [gets].
    pose proof (close_groups_port (_expired_group_names now s) s) as Hp. by destruct (close_groups _ s) as [[?|?] ?].
Qed.

(** One process has moved from its view of the shared files to [m']. *)
Lemma process_moved own y k m m' : sys_inv y → procs y !! k = Some m → owner y ⊆ own →
  tg_port m' = port → ginv (belongs own) m' →
  sys_inv {| sh := tg_chrome m'; procs := <[k := m']> (procs y); owner := own |}.
Proof.
  intros [Hf Hp] Hk Ho Hport Hm. split; cbn; [by apply ginv_new|].
  apply Forall_insert; [|by rewrite set_chrome_same].
  eapply Forall_impl; [exact Hp|]. intros m2 [P2 G2]. split; [done|]. apply (ginv_mono _ _ _ Ho) in G2.
  apply ginv_elsewhere; [by rewrite P2, Hport|done|]. destruct G2 as [[Hw Hr Hb _] Hv _]. done.
Qed.

Lemma step_inv y y' : sys_inv y → sys_step y y' → sys_inv y'.
Proof.
  intros Hy. inversion 1 as [y0|y0 k m now name c Hk Hfresh m'|y0 k m now w Hk m'|y0 p]; subst.
  - destruct Hy as [Hf Hp]. split; cbn; [done|]. apply Forall_app. split; [done|]. apply Forall_singleton.
    destruct (new_manager_run (sh y)) as (N1 & N2 & _). split; [done|].
    rewrite <- N2 at 1. by rewrite set_chrome_same.
  - destruct (proj1 (Forall_lookup _ _) (si_procs _ Hy) k m Hk) as [Pm Gm].
    assert (owner y ⊆ note_owner name c (owner y)) as Ho.
    { unfold note_owner. destruct (opens c) as [i|]; [|done]. apply insert_subseteq. by apply Hfresh. }
    destruct (perform_safe (belongs (note_owner name c (owner y)))) with (now := now) (name := name) (c := c)
      (s := set_chrome (sh y) m) as [O G].
    + intros n ks ks' mx. apply belongs_sub.
    + by intros n ks mx [? _].
    + apply belongs_new.
    + intros u new i ks mx -> (B1 & B2 & B3) Hl. split; [done|]. rewrite length_app. cbn. split; [lia|].
      intros j [Hj|Hj]%elem_of_app; [by apply B3|]. apply list_elem_of_singleton in Hj as ->. unfold note_owner. cbn. by apply lookup_insert_eq.
    + by eapply ginv_mono.
    + eapply process_moved; [done|done|done| |exact G]. rewrite <- Pm. exact (on_port _ _ _ O).
  - destruct (proj1 (Forall_lookup _ _) (si_procs _ Hy) k m Hk) as [Pm Gm].
    assert (ginv (belongs (owner y)) m') as G.
    { destruct w; subst m'; cbn [do_sweep].
      - apply reconcile_inv; [apply belongs_sub|by intros n ks mx [? _]|done].
      - unfold done_with, mbind, M_bind. pose proof (stale_inv (belongs (owner y)) ltac:(intros *; apply belongs_sub)
          ltac:(by intros n ks mx [? _]) _ Gm) as G. by destruct (cleanup_stale_groups _) as [[?|?] ?].
      - unfold done_with, mbind, M_bind. pose proof (expired_inv (belongs (owner y))
          ltac:(by intros n ks mx [? _]) now _ Gm) as G. by destruct (cleanup_expired_groups _ _) as [[?|?] ?]. }
    eapply process_moved; [done|done|done| |exact G]. rewrite <- Pm.
    exact (f_equal fst (sweep_port now w (set_chrome (sh y) m))).
  - destruct Hy as [Hf Hp]. split; cbn.
    + destruct (new_manager_run (sh y)) as (N1 & N2 & _).
      change (set_pages p (sh y)) with (tg_chrome (set_chrome (set_pages p (sh y)) (new_manager port (sh y)))).
      apply ginv_new; [done|]. apply ginv_file; [by rewrite N2|done].
    + eapply Forall_impl; [exact Hp|]. intros m [P G]. split; [done|].
      apply (ginv_file _ (set_chrome (sh y) m)); done.
Qed.

Lemma steps_inv y y' : rtc sys_step y y' → sys_inv y → sys_inv y'.
Proof. induction 1 as [y1|y1 y2 y3 H12 _ IH]; [done|]. intros Hi. apply IH. by eapply step_inv. Qed.

(** C14. Agents share the browser and not their tabs.  However many processes work
    on the groups and clean up after them, in any order, and whatever the browser
    does, every group on file and in every process has at most five tabs, and
    each of them was opened for that group; so no tab is ever in two groups. *)
Theorem tabs_isolated c y : group_file c = Missing → rtc sys_step (sys_init c) y →
  let groups n g := stored (new_manager port (sh y)) n = Some g ∨ ∃ m, m ∈ procs y ∧ view m n = Some g in
  (∀ n g, groups n g → length (tabs g) ≤ 5 ∧ ∀ i, i ∈ dkeys (tabs g) → owner y !! i = Some n) ∧
  (∀ n n' g g' i, groups n g → groups n' g' → i ∈ dkeys (tabs g) → i ∈ dkeys (tabs g') → n = n').
Proof.
  intros Hc Hy groups. assert (sys_inv y) as Hinv.
  { apply (steps_inv _ _ Hy). split; cbn; [|constructor].
    destruct (new_manager_run c) as (_ & _ & _ & _ & N3 & _). unfold new_manager, stored, view in *. rewrite Hc in *. cbn in *.
    split; cbn; [by apply N3|done|]. unfold stored. cbn. by rewrite Hc. }
  assert (∀ n g, groups n g → length (tabs g) ≤ 5 ∧ ∀ i, i ∈ dkeys (tabs g) → owner y !! i = Some n) as Hg.
  { intros n g Hn. assert (belongs (owner y) n (dkeys (tabs g)) (max_tabs g)) as (_ & B2 & B3).
    { destruct Hinv as [Hf Hp]. destruct Hn as [Hs|(m & Hm & Hv)]; [by apply (gi_stored _ _ Hf)|].
      rewrite Forall_forall in Hp. destruct (Hp m Hm) as [_ G]. by apply (gi_view _ _ G). }
    split; [|done]. unfold dkeys in B2. rewrite length_fmap in B2. unfold DEFAULT_MAX_TABS_PER_GROUP in B2. lia. }
  split; [done|]. intros n n' g g' i Hn Hn' Hi Hi'.
  pose proof (proj2 (Hg n g Hn) i Hi). pose proof (proj2 (Hg n' g' Hn') i Hi'). congruence.
Qed.
End system.

(** ** What reconciling does

    A save replaces every group the process has not marked as changed by the one
    on file, and reconciling marks none: what it takes out of a group comes back. *)

Definition alive (live : list pystr) (t : dict pystr TabEntry) : dict pystr TabEntry :=
  filter (λ ie, ie.1 ∈ live) t.

Lemma no_dead_alive live g : has_dead live g = false → alive live (tabs g) = tabs g.
Proof.
  unfold has_dead, alive. intros Hd%existsb_false_Forall. apply filter_all. intros [i e] Hin. cbn.
  rewrite Forall_forall in Hd. specialize (Hd i (list_elem_of_fmap_2 fst _ _ Hin)).
  by apply bool_decide_eq_false_1, dec_stable in Hd.
Qed.
Lemma alive_alive live t : alive live (alive live t) = alive live t.
Proof. apply filter_all. by intros x [Hx _]%list_elem_of_filter. Qed.

Lemma drop_if_dead_frame live s r : let s' := drop_if_dead live s r in
  names s' = names s ∧ _dirty_groups s' = _dirty_groups s ∧ _deleted_groups s' = _deleted_groups s ∧
  tg_chrome s' = tg_chrome s ∧ tg_port s' = tg_port s ∧
  tabs (deref s' r) = alive live (tabs (deref s r)) ∧ ∀ r', r' ≠ r → deref s' r' = deref s r'.
Proof.
  unfold drop_if_dead. destruct (has_dead live (deref s r)) eqn:Ed.
  - split_and!; try done; intros; unfold deref; cbn; [by rewrite lookup_insert_eq|by rewrite lookup_insert_ne].
  - by rewrite no_dead_alive.
Qed.

Lemma drop_all_frame live l s : let s' := foldl (drop_if_dead live) s l in
  names s' = names s ∧ _dirty_groups s' = _dirty_groups s ∧ _deleted_groups s' = _deleted_groups s ∧
  tg_chrome s' = tg_chrome s ∧ tg_port s' = tg_port s.
Proof.
  revert s. induction l as [|r l IH]; intros s; cbn [foldl]; [by split_and!|].
  destruct (drop_if_dead_frame live s r) as (F1 & F2 & F3 & F4 & F5 & _).
  destruct (IH (drop_if_dead live s r)) as (I1 & I2 & I3 & I4 & I5). split_and!; congruence.
Qed.

Lemma drop_all_alive live l s r : r ∈ l ∨ tabs (deref s r) = alive live (tabs (deref s r)) →
  tabs (deref (foldl (drop_if_dead live) s l) r) = alive live (tabs (deref s r)).
Proof.
  revert s. induction l as [|x l IH]; intros s Hr; cbn [foldl].
  - destruct Hr as [Hr%elem_of_nil|Hr]; done.
  - destruct (drop_if_dead_frame live s x) as (_ & _ & _ & _ & _ & F6 & F7).
    destruct (decide (r = x)) as [->|Hne].
    + rewrite IH; rewrite F6, ?alive_alive; [done|]. by right.
    + rewrite IH; rewrite F7 by done; [done|]. rewrite elem_of_cons in Hr. naive_solver.
Qed.

Lemma forget_all_frame l s : let s' := foldl forget s l in
  tg_chrome s' = tg_chrome s ∧ tg_port s' = tg_port s ∧
  (∀ n, n ∈ _dirty_groups s' → n ∈ _dirty_groups s) ∧
  (∀ n, n ∈ _deleted_groups s' ↔ n ∈ l ∨ n ∈ _deleted_groups s).
Proof.
  revert s. induction l as [|x l IH]; intros s; cbn [foldl].
  - split_and!; try done. intros n. rewrite elem_of_nil. naive_solver.
  - destruct (IH (forget s x)) as (I1 & I2 & I3 & I4). split_and!; try done.
    + intros n Hn%I3. by apply elem_of_sdiscard in Hn as [_ ?].
    + intros n. rewrite I4. cbn. rewrite elem_of_sadd, elem_of_cons. naive_solver.
Qed.

Lemma no_dead_same live s : existsb (λ nr, has_dead live (deref s nr.2)) (names s) = false →
  foldl (drop_if_dead live) s (dvals (names s)) = s.
Proof.
  intros Hn%existsb_false_Forall.
  assert (Forall (λ r, has_dead live (deref s r) = false) (dvals (names s))) as Hr by by apply Forall_fmap.
  revert Hr. clear Hn. induction (dvals (names s)) as [|r l IH]; intros Hr; cbn [foldl]; [done|].
  apply Forall_cons in Hr as [Hr Hl]. unfold drop_if_dead at 2. rewrite Hr. by apply IH.
Qed.

Lemma elem_of_empty_names s n : mgr_ok s → n ∈ empty_names s ↔ ∃ g, view s n = Some g ∧ tabs g = [].
Proof.
  intros Hs. unfold empty_names, view. rewrite list_elem_of_fmap. split.
  - intros ([n' r] & -> & [He Hin]%list_elem_of_filter). cbn in *.
    apply (dget_elem n' r) in Hin; [|apply Hs]. rewrite Hin. by exists (deref s r).
  - intros (g & Hv & Hg). destruct (dget n (names s)) as [r|] eqn:En; [|done]. injection Hv as <-.
    exists (n, r). split; [done|]. apply list_elem_of_filter. split; [done|]. by apply dget_Some_elem.
Qed.

(** A save by a process that has changed nothing shows a group as it is on file;
    one it has deleted is gone. *)
Lemma save_unmarked s n : ginv capped s → group_file (tg_chrome s) ≠ Corrupt → n ∉ _dirty_groups s →
  let g := if decide (n ∈ _deleted_groups s) then None else stored s n in
  (_save_state s).1 = Ok tt ∧ mgr_ok (_save_state s).2 ∧
  view (_save_state s).2 n = g ∧ stored (_save_state s).2 n = g.
Proof.
  intros Hs Hc Hd g. destruct (groups_save_run s (gi_ok _ _ Hs) Hc) as (s' & E & B1 & B2 & B3 & B4 & B5 & B6 & B7 & B8 & B9 & B10).
  assert (view s' n = g) as Hv.
  { rewrite B10. unfold merged, g. case_decide; [done|]. by rewrite decide_False. }
  destruct (save_keeps capped (λ _ _ _ H, H) [] s Hs) as (_ & [_ Hv' _] & _). rewrite E in Hv' |- *. cbn [fst snd] in *.
  split_and!; try done. rewrite <- Hv. apply (groups_stored_saved capped (λ _ _ _ H, H)); [exact Hv'|by rewrite B5, B2].
Qed.

Lemma new_manager_capped port c : file_ok (group_file c) → ginv capped (new_manager port c).
Proof.
  intros Hf. destruct (new_manager_run port c) as (_ & _ & _ & _ & N3 & N4).
  assert (∀ n g, stored (new_manager port c) n = Some g → grouped capped n g) as Hst.
  { intros n g Hg%stored_clip. by apply clip_capped. }
  split; [by apply N3|intros n g; rewrite N4; apply Hst|exact Hst].
Qed.

(** What a process that has just started saves when it reconciles: nothing
    changed, and deleted the groups without a live tab. *)
Lemma reconcile_fresh port c : file_ok (group_file c) → _get_live_target_ids c ≠ [] →
  let s := new_manager port c in let live := _get_live_target_ids c in
  ∃ s2, ginv capped s2 ∧ tg_chrome s2 = c ∧ tg_port s2 = port ∧ _dirty_groups s2 = [] ∧
    (∀ n, n ∈ _deleted_groups s2 ↔ ∃ g, stored s n = Some g ∧ alive live (tabs g) = []) ∧
    (reconcile s = _save_state s2 ∨ reconcile s = (Ok tt, s) ∧ _deleted_groups s2 = []).
Proof.
  intros Hf Hne. destruct (new_manager_run port c) as (N1 & N2 & N3 & N4 & N5 & N6).
  pose proof (new_manager_capped port c Hf) as Hs. cbn zeta. set (s := new_manager port c) in *.
  unfold reconcile. rewrite N2. destruct (_get_live_target_ids c) as [|j live'] eqn:El; [done|].
  rewrite <- El. set (live := _get_live_target_ids c) in *. clear Hne El j live'. cbn zeta.
  destruct (drop_all_frame live (dvals (names s)) s) as (D1 & D2 & D3 & D4 & D5).
  pose proof (drop_all_alive live (dvals (names s)) s) as D6.
  set (s1 := foldl (drop_if_dead live) s (dvals (names s))) in *.
  destruct (forget_all_frame (empty_names s1) s1) as (F1 & F2 & F3 & F4).
  assert (ginv capped s1) as Hs1.
  { apply (drop_all_inv capped); [done| |done]. intros r ([n' r'] & -> & Hin)%list_elem_of_fmap.
    exists n'. apply dget_elem; [apply Hs|done]. }
  assert (∀ n, n ∈ empty_names s1 ↔ ∃ g, stored s n = Some g ∧ alive live (tabs g) = []) as He.
  { intros n. rewrite elem_of_empty_names by apply Hs1. rewrite <- N6. unfold view. rewrite D1.
    destruct (dget n (names s)) as [r|] eqn:En; cbn; [|naive_solver].
    specialize (D6 r (or_introl (list_elem_of_fmap_2 snd _ _ (dget_Some_elem _ _ _ En)))).
    split; intros (g & [= <-] & Hg); eexists; (split; [done|]); congruence. }
  exists (foldl forget s1 (empty_names s1)). split_and!; [by apply forget_all_inv|congruence|congruence| | |].
  - apply elem_of_nil_inv. intros n Hn%F3. rewrite D2, N3 in Hn. by apply elem_of_nil in Hn.
  - intros n. rewrite F4, He, D3, N4, elem_of_nil. naive_solver.
  - match goal with |- context [if ?b then _ else _] => destruct b eqn:Eb end; [by left|right].
    apply orb_false_iff in Eb as [Ech Ee%negb_false_iff%bool_decide_eq_true_1]. rewrite Ee. cbn [foldl].
    split; [|by rewrite D3, N4]. subst s1. by rewrite no_dead_same.
Qed.

Lemma reconcile_corrupt port c : group_file c = Corrupt →
  reconcile (new_manager port c) = (Ok tt, new_manager port c).
Proof.
  intros Hc. unfold new_manager, reconcile. rewrite Hc. cbn. by destruct (_get_live_target_ids c).
Qed.

Definition live_group port c n : option TabGroupState :=
  g ← stored (new_manager port c) n;
  if decide (alive (_get_live_target_ids c) (tabs g) = []) then None else Some g.

Lemma reconcile_left port c : file_ok (group_file c) → _get_live_target_ids c ≠ [] →
  let '(r, s') := reconcile (new_manager port c) in
  r = Ok tt ∧ mgr_ok s' ∧ ∀ n, view s' n = live_group port c n ∧ stored s' n = live_group port c n.
Proof.
  intros Hf Hl. destruct (reconcile_fresh port c Hf Hl) as (s2 & G & C & P & D & X & R).
  destruct (new_manager_run port c) as (N1 & N2 & N3 & N4 & N5 & N6). unfold live_group.
  assert (group_file c = Corrupt ∨ group_file c ≠ Corrupt) as [Hc|Hc] by (destruct (group_file c); [by right|by left|by right]).
  { rewrite reconcile_corrupt by done. split_and!; [done|by apply N5|]. intros n. rewrite N6. unfold stored. by rewrite N2, Hc. }
  set (s := new_manager port c) in *. set (live := _get_live_target_ids c) in *.
  assert (∀ n, (if decide (n ∈ _deleted_groups s2) then None else stored s n) =
    (g ← stored s n; if decide (alive live (tabs g) = []) then None else Some g)) as E.
  { intros n. case_decide as Hn; rewrite X in Hn; [destruct Hn as (g & -> & Hg); cbn; by rewrite decide_True|].
    destruct (stored s n) as [g|]; cbn; [|done]. rewrite decide_False; [done|]. intros Hg. apply Hn. by exists g. }
  assert (∀ n, stored s2 n = stored s n) as Est by (intros n; unfold stored; by rewrite C, P, N1, N2).
  destruct R as [->|[-> R2]].
  - assert (∀ n, n ∉ _dirty_groups s2) as D' by (intros n; rewrite D; apply not_elem_of_nil).
    assert (group_file (tg_chrome s2) ≠ Corrupt) as C' by by rewrite C.
    pose proof (λ n, save_unmarked s2 n G C' (D' n)) as V. destruct (_save_state s2) as [r s3]. cbn [fst snd] in V.
    split_and!; [apply (V [])..|]. intros n. destruct (V n) as (_ & _ & V1 & V2). by rewrite V1, V2, Est, E.
  - split_and!; [done|by apply N5|]. intros n. by rewrite <- E, R2, decide_False, N6 by apply not_elem_of_nil.
Qed.

(** Reconciling drops whole groups and nothing else.  It is meant to remove the
    tabs the browser no longer has, and the groups left empty.  A process that
    starts and reconciles, as every command and the periodic sweep do, removes
    exactly the groups without a live tab; every other group is in memory and on
    file what it was, with all its dead tabs and with a current tab that may be
    one of them. *)
Theorem reconcile_keeps_dead_tabs port c n : file_ok (group_file c) → _get_live_target_ids c ≠ [] →
  let s := new_manager port c in let s' := (reconcile s).2 in
  let left := g ← stored s n; if decide (alive (_get_live_target_ids c) (tabs g) = []) then None else Some g in
  view s' n = left ∧ stored s' n = left.
Proof.
  intros Hf Hl. pose proof (reconcile_left port c Hf Hl) as Hr. cbn zeta.
  destruct (reconcile _) as [r s']. destruct Hr as (_ & _ & Hr). apply Hr.
Qed.

(** A cleanup reports the wrong number.  [cleanup_stale_groups] is to remove
    the groups without tabs and say how many.  While the browser shows a page it
    says zero, whatever it removed; while the browser does not answer it says how
    many groups are empty and every one of them is still on file. *)
Theorem cleanup_miscounts port c : file_ok (group_file c) → group_file c ≠ Corrupt →
  let s := new_manager port c in let '(r, s') := cleanup_stale_groups s in
  (_get_live_target_ids c ≠ [] → r = Ok 0) ∧
  (_get_live_target_ids c = [] → r = Ok (length (empty_names s)) ∧ ∀ n, stored s' n = stored s n).
Proof.
  intros Hf Hc. destruct (new_manager_run port c) as (N1 & N2 & N3 & N4 & N5 & N6). cbn zeta.
  pose proof (reconcile_left port c Hf) as Hr. pose proof (new_manager_capped port c Hf) as G0. set (s := new_manager port c) in *.
  unfold cleanup_stale_groups, mbind, M_bind. destruct (decide (_get_live_target_ids c = [])) as [Hl|Hl].
  - assert (reconcile s = (Ok tt, s)) as -> by (unfold reconcile; by rewrite N2, Hl). cbn [gets].
    destruct (empty_names s) as [|x l] eqn:Ee; [done|]. cbn [modify].
    pose proof (drop_names_inv capped (x :: l) s G0) as G2. set (s2 := set_names _ s) in *.
    assert (∀ n, n ∉ _dirty_groups s2) as D' by (intros n; cbn; rewrite N3; apply not_elem_of_nil).
    assert (group_file (tg_chrome s2) ≠ Corrupt) as C' by (cbn; by rewrite N2).
    pose proof (λ n, save_unmarked s2 n G2 C' (D' n)) as V. destruct (_save_state s2) as [r s3]. cbn [fst snd] in V.
    rewrite (proj1 (V [])). split; [done|]. intros _. split; [done|]. intros n. destruct (V n) as (_ & _ & _ & ->).
    cbn. by rewrite N4, decide_False by apply not_elem_of_nil.
  - destruct (reconcile s) as [r s1]. destruct (Hr Hl) as (-> & Hok & Hv). cbn [gets].
    assert (empty_names s1 = []) as ->; [|done]. apply elem_of_nil_inv. intros n Hn.
    apply elem_of_empty_names in Hn as (g & Hg & Hg'); [|done]. rewrite (proj1 (Hv n)) in Hg. unfold live_group in Hg.
    destruct (stored _ n) as [g0|]; cbn in Hg; [|done]. case_decide as Ha; [done|]. simplify_eq. by rewrite Hg' in Ha.
Qed.

(** *** The sweep for orphans *)

Lemma reconcile_closed s : closed (tg_chrome (reconcile s).2) = closed (tg_chrome s).
Proof.
  assert (∀ x, closed (tg_chrome (_save_state x).2) = closed (tg_chrome x)) as Hsave.
  { intros x. unfold _save_state. destruct (_read_disk_state _ _) as [d|e]; [|done].
    pose proof (alloc_all_run d x) as Ha. destruct (alloc_all d x) as [refs s1].
    destruct Ha as (_ & _ & _ & _ & A5 & _). cbn. by rewrite A5. }
  unfold reconcile. destruct (_get_live_target_ids _) as [|i live]; [done|]. cbn zeta.
  destruct (drop_all_frame (i :: live) (dvals (names s)) s) as (_ & _ & _ & D & _).
  set (s1 := foldl (drop_if_dead _) s _) in *. destruct (forget_all_frame (empty_names s1) s1) as (F & _).
  match goal with |- context [if ?b then _ else _] => destruct b end; rewrite ?Hsave; cbn [snd]; by rewrite F, D.
Qed.

Section orphans.
Context `{Unicode, Url}.

Lemma no_orphan now port p2 p3 s :
  (∀ d, tab_file (tg_chrome s) = Saved port d → entries_ok d) →
  (∀ p, p ∈ default [] p3 → p_type p = §"page" → ∃ p', p' ∈ default [] p2 ∧ p_type p' = §"page" ∧ p_id p' = p_id p) →
  closed (close_orphans now port p2 p3 s).2 = closed (tg_chrome s).
Proof.
  intros Hd Hp. unfold close_orphans. set (t0 := new_tab_manager port _).
  assert (entries_ok (entries t0)) as Ht0.
  { unfold t0, new_tab_manager. cbn. destruct (tab_file _) as [| |q d] eqn:Ed; cbn; try (split; constructor).
    destruct (q =? port)%Z eqn:Eq; [|split; constructor]. apply Z.eqb_eq in Eq as ->. by apply Hd. }
  destruct (Tabs.reconcile now t0) as [[[]|e] t] eqn:Et.
  2: { revert Et. unfold Tabs.reconcile, mbind, M_bind. cbn [gets compose]. destruct (_get_live_tabs _) as [|q qs]; [done|].
       cbn [modify]. set (t1 := set_entries _ t0). assert (entries_ok (entries t1)) as Ht1.
       { destruct Ht0 as [Hw Hi]. split; [by apply filter_dict_wf|by apply filter_Forall]. }
       pose proof (track_all_run now (q :: qs) t1 Ht1) as Hr.
       destruct (track_all now (q :: qs) t1) as [[[]|e'] t2]; [done|]. intros [= _ <-]. cbn. by rewrite Hr. }
  assert (closed (tm_chrome t) = closed (tg_chrome s) ∧
    ∀ k, k ∈ map p_id (_get_live_tabs (tm_chrome t0)) → k ∈ map tab_id (get_tracked_tabs t)) as [Hcl Hm].
  { destruct (reconcile_run now t0 t Ht0 Et) as [[Hl ->]|(T1 & T2 & T3)].
    - split; [done|]. rewrite Hl. by intros k Hk%elem_of_nil.
    - rewrite T3. split; [done|]. intros k Hk%T2. apply list_elem_of_fmap in Hk as ([k' e] & -> & Hin).
      pose proof (proj1 (Forall_forall _ _) (eo_ids _ T1) _ Hin) as Hid. cbn in *. rewrite <- Hid.
      apply list_elem_of_fmap_2. unfold get_tracked_tabs. rewrite elem_of_isort. by apply (list_elem_of_fmap_2 snd _ (k', e)). }
  cbn [snd]. rewrite <- Hcl. match goal with |- context [filter ?P ?l] => assert (filter P l = []) as ->; [|done] end.
  apply elem_of_nil_inv. intros p [Hk Hin]%list_elem_of_filter. apply list_elem_of_filter in Hin as [Ht Hin].
  destruct (Hp p Hin Ht) as (p' & Hin' & Ht' & Hid). unfold keeps in Hk. rewrite (bool_decide_eq_true_2 (p_id p ∈ map tab_id _)) in Hk.
  { by rewrite orb_true_r in Hk. }
  apply Hm. rewrite <- Hid. apply list_elem_of_fmap_2. by apply list_elem_of_filter.
Qed.

(** The sweeps close no orphan.  Both the periodic sweep and the one at the
    start of Chrome are to close the pages that no group and no tab manager knows.
    But they first let the tab manager reconcile, which makes it track every page
    the browser shows.  So unless a page opens between two consecutive requests,
    whatever pages there are and whatever the groups know, the periodic sweep
    closes the tabs of expired groups only, and the one at start nothing. *)
Theorem sweeps_close_no_orphan now port p1 p2 p3 c :
  (∀ d, tab_file c = Saved port d → entries_ok d) →
  (∀ p, p ∈ default [] p3 → p_type p = §"page" → ∃ p', p' ∈ default [] p2 ∧ p_type p' = §"page" ∧ p_id p' = p_id p) →
  closed (_do_cleanup now port true p1 p2 p3 c).2 =
    closed (run_manager port (cleanup_expired_groups now) (set_pages p1 c)).2 ∧
  closed (_reconcile_tab_groups now port p1 p2 p3 c) = closed c.
Proof.
  intros Hd Hp. destruct (new_manager_run port (set_pages p1 c)) as (N1 & N2 & _).
  unfold _do_cleanup, _reconcile_tab_groups, run_manager. set (s := new_manager port _) in *. cbn [negb].
  assert (∀ s', tab_file (tg_chrome s') = tab_file (tg_chrome s) → ∀ d, tab_file (tg_chrome s') = Saved port d → entries_ok d) as Hd'.
  { intros s' ->. by rewrite N2. }
  split.
  - unfold mbind, M_bind. pose proof (sweep_port now CleanExpired s) as F1. cbn [do_sweep] in F1.
    unfold done_with, mbind, M_bind in F1. destruct (cleanup_expired_groups now s) as [[k|e] s1]; [|done]. cbn [fst snd] in F1.
    pose proof (reconcile_port s1) as F2. pose proof (reconcile_closed s1) as Hc.
    destruct (reconcile s1) as [[[]|e] s2]; [|done]. cbn [snd] in *. rewrite <- Hc. apply no_orphan; [|done].
    apply Hd'. apply (f_equal snd) in F1, F2. cbn in *. congruence.
  - pose proof (reconcile_port s) as F2. pose proof (reconcile_closed s) as Hc. rewrite N2 in Hc.
    destruct (reconcile s) as [[[]|e] s2]; [|done]. cbn [snd] in *.
    transitivity (closed (tg_chrome s2)); [|done]. apply no_orphan; [|done]. apply Hd'. exact (f_equal snd F2).
Qed.
End orphans.

(** ** Concrete runs *)
Module GroupsDemo.
Import TabsDemo.

Definition tab (i u : pystr) (t : Z) : pystr * TabEntry := (i, new_entry t i [] u []).
Definition group (n : pystr) (l : dict pystr TabEntry) : pystr * TabGroupState :=
  (n, with_tabs l (next_current l) (new_group 1 n)).
Definition browser (ids : list pystr) (d : dict pystr TabGroupState) : chrome :=
  {| pages := Some (map (λ i, {| p_id := i; p_type := §"page"; p_url := §"u"; p_title := [] |}) ids);
     closed := []; tab_file := Missing; group_file := Saved 9222 d |}.

(** Group [a] has a live tab and a dead one, group [b] a dead one only, and [e] is empty. *)
Definition shown : chrome := browser [§"T1"; §"T9"]
  [group (§"a") [tab (§"T1") (§"x") 3; tab (§"T2") (§"y") 4]; group (§"b") [tab (§"T3") (§"z") 3]; group (§"e") []].
Definition gone : chrome := set_pages None shown.

Lemma shown_ok : file_ok (group_file shown).
Proof. apply (bool_decide_unpack _). vm_compute. exact I. Qed.

Lemma command_keeps_other_groups_witness :
  let s := new_manager 9222 shown in
  stored (@perform ascii_db host_url 7 (§"a") CloseGroup s).2 (§"b") = stored s (§"b").
Proof.
  intros s. destruct (new_manager_run 9222 shown) as (_ & _ & _ & _ & N3 & _).
  apply (@command_keeps_other_groups ascii_db host_url 7 (§"a") CloseGroup s (§"b")).
  - exact (N3 shown_ok).
  - intros n g Hg. exact (gi_view _ _ (new_manager_capped 9222 shown shown_ok) n g Hg).
  - discriminate.
  - apply not_elem_of_nil.
  - apply not_elem_of_nil.
Defined.

Definition step1 : system := {| sh := empty_chrome; procs := [new_manager 9222 empty_chrome]; owner := ∅ |}.
Definition opened : tab_groups :=
  (@perform ascii_db host_url 7 (§"a") (Navigate (§"x") false (Ok (§"T1"))) (set_chrome empty_chrome (new_manager 9222 empty_chrome))).2.
Definition step2 : system :=
  {| sh := tg_chrome opened; procs := [opened]; owner := note_owner (§"a") (Navigate (§"x") false (Ok (§"T1"))) ∅ |}.

Lemma tabs_isolated_witness :
  stored (new_manager 9222 (sh step2)) (§"a") ≠ None ∧
  ∀ g, stored (new_manager 9222 (sh step2)) (§"a") = Some g → length (tabs g) ≤ 5.
Proof.
  split; [vm_compute; discriminate|]. intros g Hg.
  destruct (@tabs_isolated ascii_db host_url 9222 empty_chrome step2) as [T _].
  - reflexivity.
  - apply (rtc_l _ _ step1); [exact (sys_start 9222 (sys_init empty_chrome))|]. apply rtc_once.
    exact (sys_command 9222 step1 0 (new_manager 9222 empty_chrome) 7 (§"a") (Navigate (§"x") false (Ok (§"T1")))
      eq_refl (λ i _, lookup_empty i)).
  - by destruct (T (§"a") g (or_introl Hg)).
Defined.

Lemma reconcile_keeps_dead_tabs_witness :
  let s' := (reconcile (new_manager 9222 shown)).2 in
  (dkeys ∘ tabs <$> stored s' (§"a")) = Some [§"T1"; §"T2"] ∧ stored s' (§"b") = None.
Proof.
  cbn zeta. destruct (reconcile_keeps_dead_tabs 9222 shown (§"a") shown_ok ltac:(discriminate)) as [_ ->].
  destruct (reconcile_keeps_dead_tabs 9222 shown (§"b") shown_ok ltac:(discriminate)) as [_ ->].
  vm_compute. split; reflexivity.
Defined.

Lemma cleanup_miscounts_witness :
  let r1 := cleanup_stale_groups (new_manager 9222 shown) in
  let r2 := cleanup_stale_groups (new_manager 9222 gone) in
  r1.1 = Ok 0 ∧ r2.1 = Ok 1 ∧ stored r2.2 (§"e") = stored (new_manager 9222 gone) (§"e").
Proof.
  pose proof (cleanup_miscounts 9222 shown shown_ok ltac:(discriminate)) as R1.
  pose proof (cleanup_miscounts 9222 gone shown_ok ltac:(discriminate)) as R2. cbn zeta in R1, R2 |- *.
  destruct (cleanup_stale_groups (new_manager 9222 shown)) as [r1 s1].
  destruct (cleanup_stale_groups (new_manager 9222 gone)) as [r2 s2]. cbn [fst snd].
  split; [apply R1; discriminate|]. destruct R2 as [_ R2]. destruct (R2 eq_refl) as [-> R3]. split; [reflexivity|apply R3].
Defined.

Lemma sweeps_close_no_orphan_witness :
  closed (@_reconcile_tab_groups ascii_db host_url 7 9222 (pages shown) (pages shown) (pages shown) shown) = [].
Proof.
  destruct (@sweeps_close_no_orphan ascii_db host_url 7 9222 (pages shown) (pages shown) (pages shown) shown) as [_ R].
  - intros d [=].
  - intros p Hp Ht. exists p. done.
  - exact R.
Defined.
End GroupsDemo.
