(* ===== verification/Domains.v ===== *)
(** * Knowledge domains

    def_/registry.py, def_/schema_validator.py and def_/query_engine.py, with the
    filters of cli/def_commands.py: domains with a schema, documents saved under
    them as YAML front matter with entries, and the queries over them.  A domain
    name and a document name are single components of a path.  What a YAML text
    holds is a JSON value ([Yaml] of Metadata.v). *)

From Stdlib Require Import QArith.
From S2P Require Import Prelude PyStr Json Params Metadata.
From stdpp Require Import prelude list strings.

(** [yaml.dump(v, default_flow_style=False, allow_unicode=True)]. *)
Class YamlDump := yaml_dump : json → pystr.

(** The registry file and, for each domain directory there is, its documents by
    name. *)
Record books := { registry : option json; shelves : dict pystr (dict pystr pystr) }.

Inductive field_error :=
  | MissingField (name : json)
  | NotString (key : pystr)
  | NotAllowed (key : pystr)
  | NotList (key : pystr)
  | NotDate (key : pystr).

(** ** Python on values *)

Definition hashable (v : json) : bool := match v with JArr _ | JObj _ => false | _ => true end.

(** [v[k]] and [v.get(k)]. *)
Definition getitem (k : pystr) (v : json) : res json :=
  match v with
  | JObj d => match dget k d with Some x => Ok x | None => Raise KeyError end
  | _ => Raise TypeError
  end.
Definition py_get (k : pystr) (dflt : json) (v : json) : res json :=
  match v with
  | JObj d => Ok (default dflt (dget k d))
  | _ => Raise AttributeError
  end.

(** [x in v]. *)
Definition py_member (x v : json) : res bool :=
  match v with
  | JArr l => Ok (existsb (py_eq x) l)
  | JStr s => match x with JStr t => Ok (contains t s) | _ => Raise TypeError end
  | JObj d => if hashable x then Ok (match x with JStr k => dmem k d | _ => false end) else Raise TypeError
  | _ => Raise TypeError
  end.

(** [a < b]. *)
Fixpoint py_lt (a b : json) {struct a} : res bool :=
  match number_of a, number_of b with
  | Some x, Some y => Ok (negb (Qle_bool y x))
  | _, _ =>
      match a, b with
      | JStr s, JStr t => Ok (negb (str_leb t s))
      | JArr l, JArr l' =>
          (fix go l l' := match l, l' with
             | _, [] => Ok false
             | [], _ => Ok true
             | x :: l, y :: l' => if py_eq x y then go l l' else py_lt x y
             end) l l'
      | _, _ => Raise TypeError
      end
  end.

Definition comparable_with {A} (key : A → json) (a b : A) : bool :=
  match py_lt (key a) (key b) with Ok _ => true | Raise _ => false end.
Fixpoint all_comparable {A} (key : A → json) (l : list A) : bool :=
  match l with [] => true | a :: l => forallb (comparable_with key a) l && all_comparable key l end.

(** [sorted(l, key=..., reverse=desc)].  Two keys that do not compare abort it: no
    third key comes between them, so the sort compares two such. *)
Definition sort_leb {A} (key : A → json) (desc : bool) (a b : A) : bool :=
  match (if desc then py_lt (key a) (key b) else py_lt (key b) (key a)) with
  | Ok lt => negb lt
  | Raise _ => true
  end.
Definition py_sorted {A} (key : A → json) (desc : bool) (l : list A) : res (list A) :=
  if all_comparable key l then Ok (isort (sort_leb key desc) l) else Raise TypeError.

(** [sep.join(v)]. *)
Definition str_of (v : json) : res pystr := match v with JStr s => Ok s | _ => Raise TypeError end.
Definition py_join (sep : pystr) (l : list json) : res pystr :=
  ss ← map_res str_of l; Ok (join_with sep ss).

Definition ljust (n : nat) (s : pystr) : pystr := s ++ repeat 32%N (n - length s).

(** ** The registry *)

Definition load_registry (b : books) : jdict := as_dict (registry b).
Definition save_registry (reg : jdict) (b : books) : books :=
  {| registry := Some (JObj reg); shelves := shelves b |}.
(** [mkdir(parents=True, exist_ok=True)]. *)
Definition make_dir (name : pystr) (b : books) : books :=
  {| registry := registry b;
     shelves := match dget name (shelves b) with Some _ => shelves b | None => dset name [] (shelves b) end |}.

Definition valid_types : list pystr := [§"string"; §"enum"; §"list"; §"date"].

Definition check_field (f : json) : res unit :=
  n ← py_in (§"name") f;
  if negb n then Raise ValueError
  else
    t ← py_in (§"type") f;
    if negb t then Raise ValueError
    else
      ftype ← getitem (§"type") f;
      if negb (hashable ftype) then Raise TypeError
      else if negb (one_of valid_types ftype) then Raise ValueError
      else if str_is (§"enum") ftype then
        vs ← py_get (§"values") JNull f;
        if truthy vs then Ok tt else Raise ValueError
      else Ok tt.

Definition _validate_schema_definition (schema : jdict) : res unit :=
  match dget (§"fields") schema with
  | None => Raise ValueError
  | Some (JArr fields) => _ ← map_res check_field fields; Ok tt
  | Some _ => Raise ValueError
  end.

(** [today] is the date as [strftime] writes it. *)
Definition add_domain (today name purpose : pystr) (schema : jdict) : M books unit :=
  reg ← gets load_registry;
  if dmem name reg then raise ValueError
  else
    lift_res (_validate_schema_definition schema);;
    modify (make_dir name);;
    modify (save_registry (dset name (JObj [(§"purpose", JStr purpose); (§"schema", JObj schema);
      (§"created", JStr today)]) reg)).

Definition remove_domain (name : pystr) : M books unit :=
  reg ← gets load_registry;
  if dmem name reg then modify (save_registry (ddel name reg)) else raise ValueError.

(** What a listing says of a domain: its purpose, number of documents, date. *)
Definition list_domains (b : books) : res (list (pystr * json * nat * json)) :=
  map_res (λ nd : pystr * json,
    purpose ← py_get (§"purpose") (JStr []) nd.2;
    created ← py_get (§"created") (JStr []) nd.2;
    Ok (nd.1, purpose, length (default [] (dget nd.1 (shelves b))), created))
    (isort (λ a b, str_leb a.1 b.1) (load_registry b)).

Definition get_domain (name : pystr) (b : books) : option json := dget name (load_registry b).

(** ** Validation *)

(** The fields by name, a later one in the place of an earlier; a name that is
    not a string is no key of the data. *)
Fixpoint field_defs (fields : list json) (acc : jdict) : res jdict :=
  match fields with
  | [] => Ok acc
  | f :: fields =>
      n ← getitem (§"name") f;
      if negb (hashable n) then Raise TypeError
      else field_defs fields (match n with JStr k => dset k f acc | _ => acc end)
  end.

Definition in_data (n : json) (data : jdict) : res bool :=
  if hashable n then Ok (match n with JStr k => dmem k data | _ => false end) else Raise TypeError.

Definition required_errors (data : jdict) (f : json) : res (list field_error) :=
  r ← py_get (§"required") JNull f;
  if truthy r then
    n ← getitem (§"name") f;
    here ← in_data n data;
    Ok (if here : bool then [] else [MissingField n])
  else Ok [].

Definition is_str (v : json) : bool := match v with JStr _ => true | _ => false end.
Definition is_list (v : json) : bool := match v with JArr _ => true | _ => false end.
Definition flag (b : bool) (e : field_error) : list field_error := if b then [e] else [].

Definition type_errors (defs : jdict) (kv : pystr * json) : res (list field_error) :=
  match dget kv.1 defs with
  | None => Ok []
  | Some fd =>
      ftype ← getitem (§"type") fd;
      if str_is (§"string") ftype then Ok (flag (negb (is_str kv.2)) (NotString kv.1))
      else if str_is (§"enum") ftype then
        allowed ← py_get (§"values") (JArr []) fd;
        ok ← py_member kv.2 allowed;
        Ok (flag (negb ok) (NotAllowed kv.1))
      else if str_is (§"list") ftype then Ok (flag (negb (is_list kv.2)) (NotList kv.1))
      else if str_is (§"date") ftype then Ok (flag (negb (is_str kv.2)) (NotDate kv.1))
      else Ok []
  end.

Definition validate (schema data : jdict) : res (list field_error) :=
  fields ← py_iter (default (JArr []) (dget (§"fields") schema));
  defs ← field_defs fields [];
  missing ← map_res (required_errors data) fields;
  wrong ← map_res (type_errors defs) data;
  Ok (concat missing ++ concat wrong).

(** ** Documents *)

Record doc := { meta : json; content : json; stem : pystr }.

(** An entry with a relation has a type and two ends. *)
Inductive entry := Untagged (text : pystr) | Tagged (type from to : pystr).
Definition entry_type (e : entry) : pystr :=
  match e with Untagged _ => §"misc" | Tagged t _ _ => t end.

(** The [[...]] fields of the rest of an entry. *)
Fixpoint bracketed (fuel : nat) (rest : pystr) : option (list pystr) :=
  match fuel with
  | 0 => None
  | S fuel =>
      match split_first (§"[[") rest, split_first (§"]]") rest with
      | Some (before, _), Some (upto, rest') =>
          let start := length before + 2 in
          parts ← bracketed fuel rest';
          Some (drop start upto :: parts)
      | _, _ => Some []
      end
  end.

(** A row of a table: the text under each column. *)
Abbreviation row := (dict pystr pystr).

Section queries.
Context `{Unicode, PyRepr, Yaml, YamlDump}.

Definition _parse_entry (line : json) : entry :=
  match line with
  | JStr s =>
      if starts_with (§"[[[") s && contains (§"]]]") s then
        match split_first (§"]]]") s with
        | Some (head, rest) =>
            let parts := default [] (bracketed (S (length rest)) rest) in
            Tagged (drop 3 head) (default [] (parts !! 0)) (default [] (parts !! 1))
        | None => Untagged s
        end
      else Untagged s
  | v => Untagged (py_str v)
  end.

Definition comma_list (v : json) : pystr :=
  match v with JArr l => join_with (§", ") (map py_str l) | _ => py_str v end.

(** The entries by type, the types in the order of their first entry. *)
Definition group_entries (l : list entry) : dict pystr (list entry) := group_by entry_type l.

Definition entry_line (rel_type : pystr) (e : entry) : res pystr :=
  if decide (rel_type = §"misc") then
    match e with Untagged s => Ok (§"  - " ++ s) | Tagged _ _ _ => Raise KeyError end
  else
    match e with Tagged _ a b => Ok (§"  - " ++ a ++ ¶" → " ++ b) | Untagged _ => Raise KeyError end.

Definition group_lines (g : pystr * list entry) : res (list pystr) :=
  l ← map_res (entry_line g.1) g.2;
  Ok ([] :: (§"  [" ++ g.1 ++ §"]") :: l).

Definition _format_single_doc (d : doc) : res pystr :=
  m ← as_obj (meta d);
  let name := default (JStr (stem d)) (dget (§"name") m) in
  let fields := map (λ kv, JStr (§"  " ++ kv.1 ++ §": " ++ comma_list kv.2))
    (filter (λ kv, kv.1 ≠ §"name") (isort (λ a b, str_leb a.1 b.1) m)) in
  if negb (truthy (content d)) then py_join [10%N] (name :: fields)
  else
    entries ← py_iter (content d);
    let parsed := map _parse_entry entries in
    lines ← (if existsb (λ e, bool_decide (entry_type e ≠ §"misc")) parsed then
               ls ← map_res group_lines (group_entries parsed); Ok (concat ls)
             else Ok ([] :: map (λ e, §"  - " ++ py_str e) entries));
    py_join [10%N] (name :: fields ++ map JStr lines).

(** The text of a document, [None] for one that is not loaded. *)
Definition _parse_document (name : pystr) (text : pystr) : option doc :=
  if negb (starts_with (§"---") text) then None
  else
    parts ← split_first (§"---") (drop 3 text);
    loaded ← yaml_load parts.1;
    let body := strip parts.2 in
    let content :=
      match body with
      | [] => JArr []
      | _ =>
          match yaml_load body with
          | Some (JObj d) => default (JArr []) (dget (§"entries") d)
          | Some (JArr l) => JArr l
          | _ => JArr []
          end
      end in
    Some {| meta := jor loaded (JObj []); content := content; stem := name |}.

Definition _load_all_docs (shelf : dict pystr pystr) : list doc :=
  omap (λ nt, _parse_document nt.1 nt.2) (isort (λ a b, str_leb (a.1 ++ §".md") (b.1 ++ §".md")) shelf).

Definition matches (m : json) (kv : pystr * pystr) : res bool :=
  v ← py_get kv.1 JNull m;
  Ok (match v with
      | JNull => false
      | JArr l => existsb (str_is kv.2) l
      | _ => bool_decide (py_str v = kv.2)
      end).
Fixpoint matches_all (m : json) (filters : dict pystr pystr) : res bool :=
  match filters with
  | [] => Ok true
  | kv :: filters => b ← matches m kv; if b : bool then matches_all m filters else Ok false
  end.
Definition _apply_filters (docs : list doc) (filters : dict pystr pystr) : res (list doc) :=
  filter_res (λ d, matches_all (meta d) filters) docs.

(** *** Tables *)

Definition _MAX_COL_WIDTH : nat := 60.

Definition columns_of (fields : option (list pystr)) (keys : list pystr) : list pystr :=
  match fields with
  | Some ((_ :: _) as fs) => filter (λ f, f ∈ keys ∨ f = §"entries") fs
  | _ => isort str_leb (remove_dups keys)
  end.

Definition py_len (v : json) : res nat :=
  match v with
  | JArr l => Ok (length l)
  | JObj d => Ok (length d)
  | JStr s => Ok (length s)
  | _ => Raise TypeError
  end.

Definition cell (d : doc) (col : pystr) : res pystr :=
  if decide (col = §"entries") then n ← py_len (content d); Ok (str_of_N (N.of_nat n))
  else v ← py_get col (JStr (§"-")) (meta d); Ok (comma_list v).

Definition make_row (columns : list pystr) (d : doc) : res row :=
  cells ← map_res (cell d) columns;
  Ok (foldl (λ r cv, dset cv.1 cv.2 r) [] (zip columns cells)).

Definition at_col (dflt : pystr) (r : row) (col : pystr) : pystr := default dflt (dget col r).

Definition col_width (full : bool) (rows : list row) (col : pystr) : nat :=
  let widest := max_list_with (λ r, length (at_col [] r col)) rows in
  Nat.max (length (str_upper col)) (if full then widest else Nat.min widest _MAX_COL_WIDTH).

(** A value that is too long ends in an ellipsis; how many were. *)
Definition shorten (w : pystr → nat) (rn : row * nat) (col : pystr) : row * nat :=
  let v := at_col (§"-") rn.1 col in
  if decide (w col < length v) then (dset col (take (w col - 1) v ++ [8230%N]) rn.1, S rn.2) else rn.
Fixpoint shorten_rows (w : pystr → nat) (columns : list pystr) (rows : list row) (n : nat) : list row * nat :=
  match rows with
  | [] => ([], n)
  | r :: rows =>
      let '(r, n) := foldl (shorten w) (r, n) columns in
      let '(rows, n) := shorten_rows w columns rows n in
      (r :: rows, n)
  end.

(** [cells[:-1]], padded, and [cells[-1]] as it is. *)
Definition render (w : pystr → nat) (columns cells : list pystr) : res pystr :=
  match List.rev cells with
  | [] => Raise IndexError
  | final :: front =>
      let padded := zip_with (λ c col, ljust (w col) c) (List.rev front) (take (length columns - 1) columns) in
      Ok (join_with (§"  ") (padded ++ [final]))
  end.

Definition footer (shown total shortened : nat) : list pystr :=
  [if decide (shown < total) then §"(" ++ str_of_N (N.of_nat shown) ++ §" of " ++ str_of_N (N.of_nat total) ++ §")"
   else §"(" ++ str_of_N (N.of_nat total) ++ §" documents)"] ++
  (if decide (shortened = 0) then []
   else [str_of_N (N.of_nat shortened) ++ ¶" 处过长已截断 — 看全文: find -- --name=<doc>，看整表原样: find --full"]).

(** The lines of the table under its columns, and how many values were cut. *)
Definition table (docs : list doc) (fields : option (list pystr)) (full : bool) : res (list pystr * nat) :=
  ms ← map_res (λ d, as_obj (meta d)) docs;
  let columns := columns_of fields (concat (map dkeys ms)) in
  rows ← map_res (make_row columns) docs;
  let w := col_width full rows in
  let '(rows, shortened) := shorten_rows w columns rows 0 in
  head ← render w columns (map str_upper columns);
  rule ← render w columns (map (λ col, repeat 45%N (w col)) columns);
  lines ← map_res (λ r, render w columns (map (at_col (§"-") r) columns)) rows;
  Ok (head :: rule :: lines, shortened).

Definition _format_docs (docs : list doc) (fields : option (list pystr)) (shown total : nat) (full : bool)
    : res pystr :=
  match docs with
  | [] => Ok (§"No documents")
  | _ =>
      ls ← table docs fields full;
      Ok (join_with [10%N] (ls.1 ++ footer shown total ls.2))
  end.

(** ** Queries *)

Record query := {
  filters : option (dict pystr pystr);
  fields : option (list pystr);
  sort_by : option pystr;
  desc : bool;
  limit : option Z;
  count_only : bool;
  full : bool;
}.

Definition sort_docs (q : query) (docs : list doc) : res (list doc) :=
  match sort_by q with
  | Some ((_ :: _) as k) =>
      keyed ← map_res (λ d, v ← py_get k (JStr []) (meta d); Ok (v, d)) docs;
      sorted ← py_sorted fst (desc q) keyed;
      Ok (map snd sorted)
  | _ => Ok docs
  end.

(** [docs[:limit]], which counts from the end for a negative one. *)
Definition limited (q : query) (docs : list doc) : list doc :=
  match limit q with
  | Some z =>
      if decide (z ≠ 0 ∧ z < Z.of_nat (length docs))%Z then
        take (Z.to_nat (if decide (z < 0)%Z then Z.of_nat (length docs) + z else z)%Z) docs
      else docs
  | None => docs
  end.

(** [None] for a directory that does not exist. *)
Definition find (shelf : option (dict pystr pystr)) (q : query) : res pystr :=
  match shelf with
  | None => Ok (§"No documents (directory not found)")
  | Some shelf =>
      docs ← match filters q with
             | Some ((_ :: _) as fs) => _apply_filters (_load_all_docs shelf) fs
             | _ => Ok (_load_all_docs shelf)
             end;
      let total := length docs in
      docs ← sort_docs q docs;
      if count_only q then Ok (str_of_N (N.of_nat total) ++ §" documents")
      else
        match limited q docs with
        | [] => Ok (§"No matching documents")
        | [d] => _format_single_doc d
        | docs => _format_docs docs (fields q) (length docs) total (full q)
        end
  end.

(** [arg.split("=", 1)]; the first two characters of a flag are dropped. *)
Definition add_filter (fs : dict pystr pystr) (arg : pystr) : dict pystr pystr :=
  let arg := if starts_with (§"--") arg && has_char 61 arg then drop 2 arg else arg in
  match partition_on 61 arg with
  | (k, Some v) => dset k v fs
  | _ => fs
  end.
Definition _parse_filters (args : list pystr) : dict pystr pystr := foldl add_filter [] args.

(** ** Saving *)

(** [f"{v:<ns}"]. *)
Definition padded (n : nat) (v : json) : res pystr :=
  match v with
  | JStr s => Ok (ljust n s)
  | JBool _ | JInt _ | JFloat _ => Raise ValueError
  | _ => Raise TypeError
  end.

Definition field_line (f : json) : res pystr :=
  name ← py_get (§"name") (JStr (§"?")) f;
  ftype ← py_get (§"type") (JStr (§"?")) f;
  values ← py_get (§"values") JNull f;
  ftype ← (if str_is (§"enum") ftype && truthy values then
             l ← py_iter values; s ← py_join (§" | ") l; Ok (JStr s)
           else Ok ftype);
  required ← py_get (§"required") JNull f;
  descr ← py_get (§"description") (JStr []) f;
  name ← padded 12 name;
  ftype ← padded 10 ftype;
  let req := if truthy required then §"yes" else §"no" in
  Ok (§"  " ++ name ++ §" " ++ ftype ++ §" " ++ ljust 10 req ++ §" " ++ py_str descr).

Definition _format_schema_fields (schema : jdict) : res pystr :=
  let fs := default (JArr []) (dget (§"fields") schema) in
  if negb (truthy fs) then Ok (§"No fields defined")
  else
    l ← py_iter fs;
    lines ← map_res field_line l;
    Ok (join_with [10%N] (§"  FIELD        TYPE       REQUIRED   DESCRIPTION" ::
                          (§"  " ++ repeat 45%N 60) :: lines)).

(** The text of a document. *)
Definition document (data : jdict) (content : list json) : pystr :=
  let body := match content with
              | [] => []
              | _ => 10%N :: strip (yaml_dump (JObj [(§"entries", JArr content)]))
              end in
  §"---" ++ 10%N :: strip (yaml_dump (JObj data)) ++ 10%N :: §"---" ++ 10%N :: body ++ [10%N].

(** The data as it is written. *)
Definition front_matter (today name : pystr) (data : jdict) : jdict :=
  dset (§"updated") (JStr today) (dset (§"name") (JStr name) data).

(** [save]; whether the document was there, and the number of its entries. *)
Definition save (today : pystr) (schema : jdict) (name : pystr) (data : jdict) (content : list json)
    : M (dict pystr pystr) (bool * nat) :=
  let data := dset (§"name") (JStr name) data in
  errors ← lift_res (validate schema data);
  match errors with
  | _ :: _ => lift_res (_format_schema_fields schema);; raise ValueError
  | [] =>
      is_update ← gets (dmem name);
      modify (dset name (document (front_matter today name data) content));;
      mret (is_update, length content)
  end.
End queries.

(** ** The registry is a map *)

(** Registering a domain fails and changes nothing, or adds the domain, where
    there was none of the name, and its directory; removing one takes it off the
    registry.  Other domains, and all documents, stay. *)
Lemma add_domain_changes today name purpose schema b : let '(r, b') := add_domain today name purpose schema b in
  match r with
  | Ok _ => get_domain name b = None ∧ _validate_schema_definition schema = Ok tt ∧
      get_domain name b' = Some (JObj [(§"purpose", JStr purpose); (§"schema", JObj schema); (§"created", JStr today)]) ∧
      (∀ n, n ≠ name → get_domain n b' = get_domain n b) ∧
      (∀ n, n ≠ name → dget n (shelves b') = dget n (shelves b)) ∧
      dget name (shelves b') = Some (default [] (dget name (shelves b)))
  | Raise _ => b' = b
  end.
Proof.
  unfold add_domain, mbind, M_bind. cbn [gets]. unfold get_domain, dmem.
  destruct (dget name (load_registry b)) as [v|] eqn:Eg; [done|]. cbn [lift_res].
  destruct (_validate_schema_definition schema) as [[]|]; [|done]. cbn.
  split_and!; try done; [apply dget_dset_eq|intros n Hn; by apply dget_dset_ne|..].
  - intros n Hn. destruct (dget name (shelves b)); [done|by apply dget_dset_ne].
  - destruct (dget name (shelves b)) as [d|] eqn:Es; [done|]. cbn. by rewrite dget_dset_eq.
Qed.

Lemma remove_domain_changes name b : dict_wf (load_registry b) → let '(r, b') := remove_domain name b in
  shelves b' = shelves b ∧
  match r with
  | Ok _ => get_domain name b ≠ None ∧ get_domain name b' = None ∧ ∀ n, n ≠ name → get_domain n b' = get_domain n b
  | Raise _ => b' = b ∧ get_domain name b = None
  end.
Proof.
  intros Hw. unfold remove_domain, mbind, M_bind. cbn [gets]. unfold get_domain, dmem.
  destruct (dget name (load_registry b)) as [v|] eqn:Eg; [|done]. cbn.
  split_and!; try done; [by apply dget_ddel_eq|intros n Hn; by apply dget_ddel_ne].
Qed.

(** ** A saved document is found *)

Lemma py_eq_str s v : py_eq (JStr s) v = true → v = JStr s.
Proof. destruct v; cbn; try done. intros Hb%bool_decide_eq_true_1. by subst. Qed.

Lemma py_eq_obj d m k v : py_eq (JObj d) (JObj m) = true → dget k d = Some v →
  ∃ v', dget k m = Some v' ∧ py_eq v v' = true.
Proof.
  cbn. intros [_ Hd]%andb_prop Hk%dget_Some_elem. induction d as [|[k0 v0] d IH]; [by apply elem_of_nil in Hk|].
  apply andb_prop in Hd as [H0 Hd]. apply elem_of_cons in Hk as [[= <- <-]|Hk]; [|by apply IH].
  destruct (dget k m) as [v'|]; [by exists v'|done].
Qed.

Lemma filter_res_fun {A} (f : A → res bool) (P : A → Prop) `{∀ x, Decision (P x)} l :
  (∀ x, x ∈ l → f x = Ok (bool_decide (P x))) → filter_res f l = Ok (filter P l).
Proof.
  induction l as [|x l IH]; intros Hf; [done|]. cbn [filter_res]. unfold mbind, res_bind.
  rewrite Hf by apply list_elem_of_here. rewrite IH by (intros y Hy; by apply Hf, list_elem_of_further).
  rewrite filter_cons. by case_bool_decide; case_decide.
Qed.

Lemma filter_one (k v : pystr) (d : dict pystr pystr) : dict_wf d → dget k d = Some v →
  filter (λ kv, kv.1 = k) d = [(k, v)].
Proof.
  unfold dict_wf, dkeys. induction d as [|[k0 v0] d IH]; [done|]. cbn [fmap list_fmap map fst dget]. intros [Hk Hd]%NoDup_cons.
  rewrite filter_cons. cbn [fst]. destruct (decide (k = k0)) as [->|Hne].
  - intros [= ->]. rewrite decide_True by done. f_equal. apply elem_of_nil_inv.
    intros kv [Hkv Hin]%list_elem_of_filter. apply Hk. rewrite <- Hkv. by apply (list_elem_of_fmap_2 fst).
  - intros Hv. rewrite decide_False by (cbn; congruence). by apply IH.
Qed.

Section saving.
Context `{Unicode, PyRepr, Yaml, YamlDump}.

(** YAML reads back what it wrote: equal values, with a dictionary's keys in
    another order perhaps. *)
Record reloads (data : jdict) (entries : list json) (m : jdict) (l : list json) : Prop := {
  rl_front : yaml_load (10%N :: strip (yaml_dump (JObj data)) ++ [10%N]) = Some (JObj m);
  rl_front_eq : py_eq (JObj data) (JObj m) = true;
  rl_body : strip (yaml_dump (JObj [(§"entries", JArr entries)])) ≠ [];
  rl_entries : yaml_load (strip (yaml_dump (JObj [(§"entries", JArr entries)]))) = Some (JObj [(§"entries", JArr l)]);
  rl_entries_eq : py_eq (JArr entries) (JArr l) = true;
}.

(** No dashes in the front matter that could be taken for its end. *)
Definition dashless (data : jdict) : Prop := contains (§"---") (strip (yaml_dump (JObj data))) = false.

Lemma parse_document_written data entries m l name : reloads data entries m l → m ≠ [] → dashless data →
  _parse_document name (document data entries) = Some {| meta := JObj m; content := JArr l; stem := name |}.
Proof.
  intros [R1 R2 R3 R4 R5] Hm Hd. unfold _parse_document, document.
  set (fm := strip (yaml_dump (JObj data))) in *. set (body := match entries with [] => [] | _ => _ end).
  change (§"---" ++ 10%N :: fm ++ 10%N :: §"---" ++ 10%N :: body ++ [10%N])
    with (§"---" ++ (10%N :: fm) ++ 10%N :: §"---" ++ 10%N :: body ++ [10%N]).
  rewrite starts_with_app. cbn [negb]. rewrite (drop_app_length (§"---")).
  rewrite split_first_cut; [|done|by apply (bool_decide_unpack _)|exact Hd].
  cbn [mbind option_bind fst snd app]. rewrite R1. unfold jor. cbn [mbind option_bind truthy].
  destruct m as [|kv m]; [done|]. cbn [length Nat.eqb negb]. repeat f_equal.
  destruct entries as [|e es]; unfold body.
  - destruct l; [|done]. reflexivity.
  - cbn [app]. rewrite (strip_padded _ R3).
    destruct (strip (yaml_dump (JObj [(§"entries", JArr (e :: es))]))) as [|c t]; [done|]. by rewrite R4.
Qed.

(** Every document says the name it is filed under. *)
Definition named (shelf : dict pystr pystr) : Prop := ∀ n t d,
  dget n shelf = Some t → _parse_document n t = Some d →
  ∃ m, meta d = JObj m ∧ dget (§"name") m = Some (JStr n).

Definition by_name (n : pystr) : query :=
  {| filters := Some [(§"name", n)]; fields := None; sort_by := None; desc := false; limit := None;
     count_only := false; full := false |}.

Lemma parse_document_stem n t d : _parse_document n t = Some d → stem d = n.
Proof.
  unfold _parse_document. destruct (negb _); [done|]. destruct (split_first _ _) as [[a b]|]; cbn; [|done].
  destruct (yaml_load a); cbn; [|done]. by intros [= <-].
Qed.

(** The documents of a shelf under one name. *)
Lemma docs_at shelf n d : dict_wf shelf → dget n shelf ≫= _parse_document n = Some d →
  filter (λ x, stem x = n) (_load_all_docs shelf) = [d].
Proof.
  intros Hw Hd. destruct (dget n shelf) as [t|] eqn:Ht; [|done]. cbn in Hd. unfold _load_all_docs.
  set (leb := λ a b : pystr * pystr, str_leb _ _).
  assert (∀ l : list (pystr * pystr), filter (λ x, stem x = n) (omap (λ nt, _parse_document nt.1 nt.2) l) =
    omap (λ nt, _parse_document nt.1 nt.2) (filter (λ nt, nt.1 = n) l)) as Hf.
  { induction l as [|[n' t'] l IH]; [done|]. rewrite filter_cons. cbn [omap list_omap fst snd].
    destruct (_parse_document n' t') as [x|] eqn:Ex; case_decide as Hn; cbn in Hn; cbn [omap list_omap fst snd];
      rewrite ?Ex, ?filter_cons, ?IH; try done; apply parse_document_stem in Ex;
      [rewrite decide_True by congruence|rewrite decide_False by congruence]; done. }
  rewrite Hf. assert (filter (λ nt, nt.1 = n) (isort leb shelf) = [(n, t)]) as ->; [|cbn; by rewrite Hd].
  apply Permutation_singleton_r. rewrite isort_perm.
  rewrite (filter_one n t shelf Hw Ht). done.
Qed.

Lemma find_by_name shelf n d : dict_wf shelf → named shelf → dget n shelf ≫= _parse_document n = Some d →
  find (Some shelf) (by_name n) = _format_single_doc d.
Proof.
  intros Hw Hn Hd. unfold find. cbn [by_name filters]. unfold _apply_filters.
  rewrite (filter_res_fun _ (λ x, stem x = n)).
  - rewrite (docs_at _ _ _ Hw Hd). reflexivity.
  - intros x ([n' t'] & Hin & Hx)%list_elem_of_omap. rewrite elem_of_isort in Hin. cbn in Hx.
    destruct (Hn n' t' x) as (m & Hm & Hname); [by apply dget_elem|done|].
    apply parse_document_stem in Hx as ->. rewrite Hm. unfold matches_all, matches, py_get, mbind, res_bind.
    cbn [fst snd]. rewrite Hname. cbn. by case_bool_decide.
Qed.

End saving.

(** ** A registered schema decides *)

(** What registration leaves open: that names are strings and the values of an
    enumeration a list. *)
Record plain_field (f : json) : Prop := {
  pf_name : ∀ n, getitem (§"name") f = Ok n → ∃ s, n = JStr s;
  pf_values : ∀ v, getitem (§"type") f = Ok (JStr (§"enum")) → getitem (§"values") f = Ok v → ∃ l, v = JArr l;
}.

Record usable (f : json) : Prop := {
  us_obj : ∃ d, f = JObj d;
  us_name : ∃ n, getitem (§"name") f = Ok (JStr n);
  us_type : ∃ t, getitem (§"type") f = Ok (JStr t) ∧ t ∈ valid_types;
  us_values : getitem (§"type") f = Ok (JStr (§"enum")) → ∃ l, getitem (§"values") f = Ok (JArr l);
}.

Lemma one_of_str l v : one_of l v = true → ∃ s, v = JStr s ∧ s ∈ l.
Proof.
  unfold one_of. intros (s & Hs & Hv)%existsb_exists. destruct v; try done. cbn in Hv.
  apply bool_decide_eq_true_1 in Hv as ->. exists s. by rewrite list_elem_of_In.
Qed.

Lemma check_field_usable f : check_field f = Ok tt → plain_field f → usable f.
Proof.
  intros Hc [Hn Hv]. unfold check_field, mbind, res_bind in Hc.
  destruct (py_in (§"name") f) as [[]|] eqn:En; try done. destruct (py_in (§"type") f) as [[]|] eqn:Et; try done.
  cbn [negb] in Hc. destruct (getitem (§"type") f) as [ft|] eqn:Ef; [|done].
  destruct (hashable ft); [|done]. cbn [negb] in Hc. destruct (one_of valid_types ft) eqn:Eo; [|done].
  apply one_of_str in Eo as (t & -> & Ht). destruct f as [| | | | |l|d]; try done. cbn in En, Et.
  assert (∃ n, dget (§"name") d = Some n) as [n Hd].
  { unfold dmem in En. destruct (dget (§"name") d) as [n|]; [by exists n|done]. }
  split; [by eexists| |by exists t|].
  - destruct (Hn n) as [s ->]; [cbn; by rewrite Hd|]. exists s. cbn. by rewrite Hd.
  - intros Henum. rewrite Henum in Ef. injection Ef as <-. cbn in Hc. destruct (dget (§"values") d) as [v|] eqn:Evs; [|done].
    destruct (Hv v eq_refl) as [l ->]; [cbn; by rewrite Evs|]. exists l. cbn. by rewrite Evs.
Qed.

(** The field that speaks for a key: the last of that name. *)
Definition declared (k : pystr) (fields : list json) : option json :=
  last (filter (λ f, getitem (§"name") f = Ok (JStr k)) fields).

Lemma declared_cons k f fields : declared k (f :: fields) =
  match declared k fields with
  | Some g => Some g
  | None => if decide (getitem (§"name") f = Ok (JStr k)) then Some f else None
  end.
Proof.
  unfold declared. rewrite filter_cons. case_decide; [|by destruct (last _)].
  rewrite last_cons. by destruct (last _).
Qed.

Lemma field_defs_ok fields acc : Forall usable fields →
  ∃ defs, field_defs fields acc = Ok defs ∧ ∀ k, dget k defs =
    match declared k fields with Some f => Some f | None => dget k acc end.
Proof.
  intros Hf. revert acc. induction Hf as [|f fields Hu _ IH]; intros acc; [by exists acc|].
  cbn [field_defs]. destruct (us_name _ Hu) as [n Hn]. rewrite Hn. cbn [mbind res_bind hashable negb].
  destruct (IH (dset n f acc)) as (defs & E & Hd). exists defs. split; [done|]. intros k.
  rewrite Hd, declared_cons. destruct (declared k fields) as [g|]; [done|]. rewrite Hn.
  destruct (decide (k = n)) as [->|Hne].
  - by rewrite dget_dset_eq, decide_True.
  - rewrite dget_dset_ne by done. rewrite decide_False; [done|]. congruence.
Qed.

(** The values a field takes. *)
Definition accepts (f v : json) : Prop :=
  let typed t := getitem (§"type") f = Ok (JStr t) in
  (typed (§"string") ∨ typed (§"date") → ∃ s, v = JStr s) ∧ (typed (§"list") → ∃ l, v = JArr l) ∧
  (typed (§"enum") → ∃ l w, getitem (§"values") f = Ok (JArr l) ∧ w ∈ l ∧ py_eq v w = true).

Definition required (f : json) : Prop := ∃ r, py_get (§"required") JNull f = Ok r ∧ truthy r = true.

Lemma required_errors_ok data f : usable f → ∃ errs, required_errors data f = Ok errs ∧
  (errs = [] ↔ (required f → ∃ n, getitem (§"name") f = Ok (JStr n) ∧ n ∈ dkeys data)).
Proof.
  intros [[d ->] [n Hn] _ _]. unfold required_errors, required. cbn [py_get mbind res_bind].
  set (r := default JNull (dget (§"required") d)). destruct (truthy r) eqn:Er.
  - rewrite Hn. cbn [mbind res_bind in_data hashable]. eexists. split; [done|]. destruct (dmem n data) eqn:Ed.
    + split; [|done]. intros _ _. exists n. split; [done|]. by apply dmem_dkeys.
    + split; [done|]. intros Hq. destruct Hq as (n' & [= <-] & Hin); [by exists r|].
      apply dmem_dkeys in Hin. congruence.
  - eexists. split; [done|]. split; [|done]. intros _ (r' & [= <-] & Hr). congruence.
Qed.

Lemma is_str_iff v : is_str v = true ↔ ∃ s, v = JStr s.
Proof. destruct v; naive_solver. Qed.
Lemma is_list_iff v : is_list v = true ↔ ∃ l, v = JArr l.
Proof. destruct v; naive_solver. Qed.

Lemma type_errors_ok defs kv f : dget kv.1 defs = Some f → usable f →
  ∃ errs, type_errors defs kv = Ok errs ∧ (errs = [] ↔ accepts f kv.2).
Proof.
  destruct kv as [k v]. cbn [fst snd]. intros Hd [[d ->] _ (t & Ht & Hin) Hv]. unfold type_errors, accepts. cbn [fst snd].
  rewrite Hd, Ht in *. cbn [mbind res_bind str_is].
  assert (∀ b e, flag (negb b) e = [] ↔ b = true) as Hflag by by intros [] e.
  unfold valid_types in Hin. rewrite !elem_of_cons, elem_of_nil in Hin.
  destruct Hin as [->|[->|[->|[->|[]]]]].
  - exists (flag (negb (is_str v)) (NotString k)). split; [done|]. rewrite Hflag, is_str_iff.
    split; [intros Hs; split_and!; [done|discriminate..]|intros [Hs _]; by apply Hs; left].
  - destruct (Hv eq_refl) as [l Hl]. cbn [getitem] in Hl. destruct (dget (§"values") d) as [w|] eqn:Ew; [|done]. injection Hl as ->.
    exists (flag (negb (existsb (py_eq v) l)) (NotAllowed k)). split; [cbn; by rewrite Ew|]. rewrite Hflag, existsb_exists.
    cbn [getitem]. rewrite Ew. setoid_rewrite <- list_elem_of_In. split.
    + intros (w & Hw & He). split_and!; [intros [?|?]; discriminate|discriminate|]. intros _. by exists l, w.
    + intros (_ & _ & He). destruct (He eq_refl) as (l' & w & [= <-] & Hw & Hq). by exists w.
  - exists (flag (negb (is_list v)) (NotList k)). split; [done|]. rewrite Hflag, is_list_iff.
    split; [intros Hs; split_and!; [intros [?|?]; discriminate|done|discriminate]|intros (_ & Hs & _); by apply Hs].
  - exists (flag (negb (is_str v)) (NotDate k)). split; [done|]. rewrite Hflag, is_str_iff.
    split; [intros Hs; split_and!; [done|discriminate..]|intros [Hs _]; by apply Hs; right].
Qed.

(** Errors collected over a list, when each step collects some. *)
Lemma map_res_collect {A E} (f : A → res (list E)) (P : A → Prop) l :
  (∀ x, x ∈ l → ∃ errs, f x = Ok errs ∧ (errs = [] ↔ P x)) →
  ∃ ls, map_res f l = Ok ls ∧ (concat ls = [] ↔ ∀ x, x ∈ l → P x).
Proof.
  induction l as [|x l IH]; intros Hf; [exists []; split; [done|]; split; [by intros _ x Hx%elem_of_nil|done]|].
  destruct (Hf x (list_elem_of_here _ _)) as (errs & Ee & He).
  destruct IH as (ls & El & Hl); [intros y Hy; by apply Hf, list_elem_of_further|].
  exists (errs :: ls). cbn. unfold mbind, res_bind. rewrite Ee, El. split; [done|]. rewrite app_nil_iff, He, Hl.
  split; [intros [H1 H2] y [->|Hy]%elem_of_cons; [done|by apply H2]|].
  intros Hall. split; [apply Hall, list_elem_of_here|]. intros y Hy. by apply Hall, list_elem_of_further.
Qed.

Lemma declared_elem k fields f : declared k fields = Some f → f ∈ fields.
Proof. unfold declared. by intros [_ Hf]%last_Some_elem_of%list_elem_of_filter. Qed.

Lemma schema_fields_usable schema fields : _validate_schema_definition schema = Ok tt →
  dget (§"fields") schema = Some (JArr fields) → Forall plain_field fields → Forall usable fields.
Proof.
  unfold _validate_schema_definition. intros Hs Hf Hp. rewrite Hf in Hs. clear Hf. revert Hs.
  induction Hp as [|f fields Hpf _ IH]; [constructor|]. cbn [map_res]. unfold mbind, res_bind in *.
  destruct (check_field f) as [[]|] eqn:Ec; [|done]. intros Hr. constructor; [by apply check_field_usable|].
  apply IH. by destruct (map_res check_field fields).
Qed.

(** A registered schema decides every document.  A schema that registration
    accepts, with field names that are strings and enumerations that list their
    values, gives a verdict on any data; and the verdict is without errors just
    when every required field is there and every field that is declared holds a
    value of its type, of the last declaration where a name has several. *)
Theorem schema_decides schema fields data : _validate_schema_definition schema = Ok tt →
  dget (§"fields") schema = Some (JArr fields) → Forall plain_field fields →
  ∃ errs, validate schema data = Ok errs ∧
    (errs = [] ↔
     (∀ f, f ∈ fields → required f → ∃ n, getitem (§"name") f = Ok (JStr n) ∧ n ∈ dkeys data) ∧
     (∀ kv f, kv ∈ data → declared kv.1 fields = Some f → accepts f kv.2)).
Proof.
  intros Hs Hf Hp. pose proof (schema_fields_usable _ _ Hs Hf Hp) as Hu.
  unfold validate, mbind, res_bind.
  assert (py_iter (default (JArr []) (dget (§"fields") schema)) = Ok fields) as -> by by rewrite Hf.
  destruct (field_defs_ok fields [] Hu) as (defs & -> & Hdefs).
  rewrite Forall_forall in Hu.
  destruct (map_res_collect (required_errors data) _ fields (λ f Hin, required_errors_ok data f (Hu f Hin))) as (ms & -> & Hm).
  destruct (map_res_collect (type_errors defs) (λ kv, ∀ f, declared kv.1 fields = Some f → accepts f kv.2) data) as (ws & -> & Hw).
  { intros kv _. specialize (Hdefs kv.1). destruct (declared kv.1 fields) as [f|] eqn:Ed.
    - destruct (type_errors_ok defs kv f Hdefs) as (errs & E & He); [by eapply Hu, declared_elem|].
      exists errs. split; [done|]. rewrite He. naive_solver.
    - exists []. unfold type_errors. rewrite Hdefs. done. }
  cbn. eexists. split; [done|]. rewrite app_nil_iff, Hm, Hw. naive_solver.
Qed.

(** ** Entries *)

Lemma split_first_Some p s a b : split_first p s = Some (a, b) → s = a ++ p ++ b.
Proof.
  revert a. induction s as [|c s IH]; intros a; cbn [split_first].
  - destruct (starts_with p []) eqn:E; [|done]. apply starts_with_spec in E as [t Ht].
    symmetry in Ht. apply app_nil in Ht as [-> ->]. by intros [= <- <-].
  - destruct (starts_with p (c :: s)) eqn:E.
    + apply starts_with_spec in E as [t Ht]. rewrite Ht, drop_app_length. by intros [= <- <-].
    + destruct (split_first p s) as [[a' b']|]; [|done]. intros [= <- <-]. cbn. f_equal. by apply IH.
Qed.

Lemma split_first_clean c p a b : c ∉ a → split_first (c :: p) (a ++ (c :: p) ++ b) = Some (a, b).
Proof.
  induction a as [|x a IH]; intros Ha.
  - change ([] ++ (c :: p) ++ b) with ((c :: p) ++ b). cbn [app split_first].
    change (c :: p ++ b) with ((c :: p) ++ b). by rewrite starts_with_app, drop_app_length.
  - apply not_elem_of_cons in Ha as [Hx Ha]. rewrite <- app_comm_cons. cbn [split_first starts_with].
    rewrite (proj2 (N.eqb_neq c x)) by done. cbn [andb]. by rewrite IH.
Qed.

Lemma contains_split p s : contains p s = true ↔ is_Some (split_first p s).
Proof.
  induction s as [|c s IH]; cbn [contains split_first]; destruct (starts_with p _) eqn:E; cbn [orb];
    try (split; [intros _; by eexists|done]).
  - split; [done|by intros [x Hx]].
  - rewrite IH. destruct (split_first p s) as [[a b]|]; [split; by eexists|]. by split; intros [x Hx].
Qed.

(** The fields are all taken: every round drops at least the two brackets. *)
Lemma bracketed_ends fuel rest : length rest < fuel → is_Some (bracketed fuel rest).
Proof.
  revert rest. induction fuel as [|fuel IH]; intros rest Hl; [lia|]. cbn [bracketed].
  destruct (split_first (§"[[") rest) as [[before ?]|]; [|done].
  destruct (split_first (§"]]") rest) as [[upto rest']|] eqn:E; [|done].
  apply split_first_Some in E. apply (f_equal length) in E. rewrite !length_app in E.
  change (length (§"]]")) with 2 in E.
  destruct (IH rest') as [parts ->]; [lia|]. done.
Qed.

Section entries.
Context `{Unicode, PyRepr, Yaml, YamlDump}.

Definition relation (t a b : pystr) : pystr :=
  §"[[[" ++ t ++ §"]]]" ++ §"[[" ++ a ++ §"]]" ++ §"[[" ++ b ++ §"]]".

Lemma bracketed_field fuel a rest : 93%N ∉ a →
  bracketed (S fuel) (§"[[" ++ a ++ §"]]" ++ rest) = (a ::.) <$> bracketed fuel rest.
Proof.
  intros Ha. cbn [bracketed]. set (all := §"[[" ++ a ++ §"]]" ++ rest).
  assert (split_first (§"[[") all = Some ([], a ++ §"]]" ++ rest)) as ->.
  { exact (split_first_clean 91 [91%N] [] _ (not_elem_of_nil _)). }
  assert (split_first (§"]]") all = Some (§"[[" ++ a, rest)) as ->; [|by destruct (bracketed fuel rest)].
  apply (split_first_clean 93 [93%N] (§"[[" ++ a) rest). change (93%N ∉ 91%N :: 91%N :: a). by rewrite !not_elem_of_cons.
Qed.

Lemma parse_relation t a b : 93%N ∉ t → 93%N ∉ a → 93%N ∉ b → _parse_entry (JStr (relation t a b)) = Tagged t a b.
Proof.
  intros Ht Ha Hb. set (rest := §"[[" ++ a ++ §"]]" ++ §"[[" ++ b ++ §"]]").
  assert (split_first (§"]]]") (relation t a b) = Some (§"[[[" ++ t, rest)) as Hs.
  { apply (split_first_clean 93 [93%N; 93%N] (§"[[[" ++ t) rest). change (93%N ∉ 91%N :: 91%N :: 91%N :: t). by rewrite !not_elem_of_cons. }
  assert (contains (§"]]]") (relation t a b) = true) as Hc by (apply contains_split; by rewrite Hs).
  unfold _parse_entry. rewrite Hc, Hs. unfold relation at 1. rewrite starts_with_app. cbn [andb].
  assert (bracketed (S (length rest)) rest = Some [a; b]) as ->; [|done].
  assert (∃ n, length rest = S (S n)) as [n ->] by (unfold rest; by eexists).
  unfold rest. rewrite bracketed_field by done.
  assert (bracketed (S (S n)) (§"[[" ++ b ++ §"]]" ++ []) = Some [b]) as Hl by by rewrite bracketed_field.
  rewrite app_nil_r in Hl. by rewrite Hl.
Qed.

Lemma py_join_strs sep ss : py_join sep (map JStr ss) = Ok (join_with sep ss).
Proof.
  unfold py_join. rewrite (map_res_fun _ (λ v, match v with JStr s => s | _ => [] end)).
  - cbn. by rewrite map_map, map_id.
  - by intros v (s & -> & _)%list_elem_of_fmap.
Qed.

(** A tagged entry whose type is [misc] has no text to show. *)
Definition broken (e : entry) : bool :=
  match e with Tagged t _ _ => bool_decide (t = §"misc") | Untagged _ => false end.

Lemma group_lines_run l k es : (k, es) ∈ group_entries l →
  (k = §"misc" ∧ (∃ e, e ∈ l ∧ broken e = true) → group_lines (k, es) = Raise KeyError) ∧
  ((∃ y, group_lines (k, es) = Ok y) ∨ group_lines (k, es) = Raise KeyError) ∧
  ((∀ e, e ∈ l → broken e = false) → ∃ y, group_lines (k, es) = Ok y).
Proof.
  intros Hin. assert (es = filter (λ e, entry_type e = k) l) as ->.
  { apply (group_by_elem entry_type) in Hin. tauto. }
  assert (∀ e, e ∈ filter (λ e, entry_type e = k) l →
    if broken e then entry_line k e = Raise KeyError else ∃ y, entry_line k e = Ok y) as Hline.
  { intros e [Hk _]%list_elem_of_filter. unfold entry_line. destruct e as [s|t a b]; cbn in *; subst.
    - by eexists.
    - case_bool_decide; case_decide; try done. by eexists. }
  unfold group_lines, mbind, res_bind. cbn [fst snd]. split_and!.
  - intros [-> (e & He & Hb)]. rewrite (map_res_raises _ KeyError); [done| |].
    + intros x Hx. specialize (Hline x Hx). destruct (broken x); [by right|by left].
    + exists e. assert (e ∈ filter (λ e, entry_type e = §"misc") l) as Hf.
      { apply list_elem_of_filter. split; [|done]. destruct e as [|t a b]; [done|]. cbn in *. by apply bool_decide_eq_true_1 in Hb. }
      split; [done|]. specialize (Hline e Hf). by rewrite Hb in Hline.
  - destruct (map_res _ _) as [y|e] eqn:Em; [left; by eexists|]. right.
    apply map_res_Raise in Em as (x & Hx & Ex). specialize (Hline x Hx). destruct (broken x); [|destruct Hline as [? ?]]; congruence.
  - intros Hb. destruct (map_res_total (entry_line k) (filter (λ e, entry_type e = k) l)) as [ys ->]; [|by eexists].
    intros x Hx. specialize (Hline x Hx). rewrite Hb in Hline; [done|]. by apply list_elem_of_filter in Hx as [_ ?].
Qed.

(** One entry can make a document unreadable.  A document that says its name
    and has a list of entries is shown, unless some entry has a relation of type
    [misc] while another has a different type: then showing it fails. *)
Theorem document_shown_iff d m n l : meta d = JObj m → dget (§"name") m = Some (JStr n) → content d = JArr l →
  let parsed := map _parse_entry l in
  let unreadable := existsb broken parsed && existsb (λ e, bool_decide (entry_type e ≠ §"misc")) parsed in
  if unreadable then _format_single_doc d = Raise KeyError else ∃ text, _format_single_doc d = Ok text.
Proof.
  intros Hm Hn Hc. cbn zeta. unfold _format_single_doc, mbind, res_bind. rewrite Hm, Hc. cbn [as_obj]. rewrite Hn. cbn [default py_iter].
  set (fs := map _ (filter _ _)). assert (∃ ss, fs = map JStr ss) as [ss ->] by (eexists; unfold fs; by rewrite <- map_map).
  set (parsed := map _parse_entry l). destruct (negb (truthy (JArr l))) eqn:Et.
  { destruct l; [|done]. cbn. exists (join_with [10%N] (n :: ss)). by rewrite <- py_join_strs. }
  destruct (existsb (λ e, bool_decide _) parsed) eqn:Er; [rewrite andb_true_r|rewrite andb_false_r].
  2: { exists (join_with [10%N] (n :: ss ++ [] :: map (λ e, §"  - " ++ py_str e) l)).
       rewrite <- py_join_strs. cbn [map]. by rewrite map_app. }
  assert (∀ lines, ∃ text, py_join [10%N] (JStr n :: map JStr ss ++ map JStr lines) = Ok text) as Hj.
  { intros lines. exists (join_with [10%N] (n :: ss ++ lines)). rewrite <- py_join_strs. cbn [map]. by rewrite map_app. }
  assert (∀ e, e ∈ parsed → broken e = true → ∃ es, (§"misc", es) ∈ group_entries parsed) as Hmisc.
  { intros e He Hb. assert (e ∈ filter (λ e, entry_type e = §"misc") parsed) as Hf.
    { apply list_elem_of_filter. split; [|done]. destruct e as [|t a b]; [done|]. by apply bool_decide_eq_true_1 in Hb. }
    pose proof (group_by_get entry_type parsed (§"misc")) as Hg. destruct (filter _ parsed) as [|x es]; [by apply elem_of_nil in Hf|].
    exists (x :: es). by apply dget_Some_elem. }
  destruct (existsb broken parsed) eqn:Eb.
  - apply existsb_exists in Eb as (e & He%list_elem_of_In & Hb). destruct (Hmisc e He Hb) as [es Hes].
    rewrite (map_res_raises _ KeyError); [done| |].
    + intros [k es'] Hin. by apply (group_lines_run parsed).
    + exists (§"misc", es). split; [done|]. apply (group_lines_run parsed); [done|]. split; [done|]. by exists e.
  - apply existsb_false_Forall in Eb. rewrite Forall_forall in Eb.
    destruct (map_res_total group_lines (group_entries parsed)) as [ls ->]; [|apply Hj].
    intros [k es] Hin. by apply (group_lines_run parsed).
Qed.
(** The line an entry is shown with: its two ends if relations are shown, else as
    it is. *)
Definition entry_text (relations : bool) (v : json) : pystr :=
  match _parse_entry v with
  | Tagged _ a b => if relations then §"  - " ++ a ++ ¶" → " ++ b else §"  - " ++ py_str v
  | Untagged s => §"  - " ++ s
  end.
Definition has_relations (l : list json) : bool :=
  existsb (λ v, bool_decide (entry_type (_parse_entry v) ≠ §"misc")) l.
(** No entry has a relation of type [misc] while another has one of another type. *)
Definition showable (l : list json) : bool :=
  negb (has_relations l && existsb (λ v, broken (_parse_entry v)) l).
Definition field_text (k : pystr) (v : json) : pystr := §"  " ++ k ++ §": " ++ comma_list v.

Lemma existsb_parsed (f : entry → bool) l : existsb f (map _parse_entry l) = existsb (λ v, f (_parse_entry v)) l.
Proof. induction l as [|v l IH]; [done|]. cbn. by rewrite IH. Qed.

Lemma untagged_text v s : _parse_entry v = Untagged s → s = py_str v.
Proof.
  unfold _parse_entry. destruct v; try (by intros [= <-]). destruct (_ && _); [|by intros [= <-]].
  destruct (split_first _ _) as [[]|]; [done|by intros [= <-]].
Qed.

(** Every entry has its line among those of the groups. *)
Lemma grouped_lines l : (∀ v, v ∈ l → broken (_parse_entry v) = false) →
  ∃ ls, map_res group_lines (group_entries (map _parse_entry l)) = Ok ls ∧
    ∀ v, v ∈ l → entry_text true v ∈ concat ls.
Proof.
  intros Hb. set (parsed := map _parse_entry l).
  assert (∀ e, e ∈ parsed → broken e = false) as Hp by (by intros e (v & -> & Hv)%list_elem_of_fmap; apply Hb).
  destruct (map_res_total group_lines (group_entries parsed)) as [ls Hls].
  { intros [k es] Hin. by apply (group_lines_run parsed). }
  exists ls. split; [done|]. intros v Hv. set (e := _parse_entry v).
  assert (e ∈ parsed) as He by by apply list_elem_of_fmap_2.
  assert (e ∈ filter (λ x, entry_type x = entry_type e) parsed) as Hf by by apply list_elem_of_filter.
  pose proof (group_by_get entry_type parsed (entry_type e)) as Hg.
  destruct (filter (λ x, entry_type x = entry_type e) parsed) as [|x es]; [by apply elem_of_nil in Hf|].
  apply dget_Some_elem in Hg. apply map_res_Forall2 in Hls.
  destruct (Forall2_elem_l _ _ _ _ Hls Hg) as (lines & Hl & Hlines).
  unfold group_lines, mbind, res_bind in Hlines. cbn [fst snd] in Hlines.
  destruct (map_res (entry_line _) _) as [ys|] eqn:Em; [|done]. injection Hlines as <-. apply map_res_Forall2 in Em.
  destruct (Forall2_elem_l _ _ _ _ Em Hf) as (y & Hin & Hy).
  apply list_elem_of_In, in_concat. eexists. split; [by apply list_elem_of_In|]. apply list_elem_of_In. do 2 apply list_elem_of_further.
  replace (entry_text true v) with y; [done|]. specialize (Hp e He). unfold entry_text. fold e.
  unfold entry_line in Hy. clearbody e. destruct e as [s|t a b]; cbn [entry_type broken] in *; case_decide; try congruence.
Qed.

(** A showable document is shown with its fields and entries. *)
Lemma format_shows d m n l : meta d = JObj m → dget (§"name") m = Some (JStr n) → content d = JArr l →
  showable l = true → ∃ lines, _format_single_doc d = Ok (join_with [10%N] (n :: lines)) ∧
    (∀ k v, dget k m = Some v → k ≠ §"name" → field_text k v ∈ lines) ∧
    ∀ v, v ∈ l → entry_text (has_relations l) v ∈ lines.
Proof.
  intros Hm Hn Hc Hs. unfold _format_single_doc, mbind, res_bind. rewrite Hm, Hc. cbn [as_obj]. rewrite Hn. cbn [default py_iter].
  set (kvs := filter _ _). set (ss := map (λ kv : pystr * json, field_text kv.1 kv.2) kvs).
  assert (map (λ kv : pystr * json, JStr (§"  " ++ kv.1 ++ §": " ++ comma_list kv.2)) kvs = map JStr ss) as ->
    by (unfold ss; by rewrite map_map).
  assert (∀ k v, dget k m = Some v → k ≠ §"name" → field_text k v ∈ ss) as Hfields.
  { intros k v Hk Hne. apply (list_elem_of_fmap_2 (λ kv : pystr * json, field_text kv.1 kv.2) kvs (k, v)).
    apply list_elem_of_filter. split; [done|]. rewrite elem_of_isort. by apply dget_Some_elem. }
  assert (∀ lines, py_join [10%N] (JStr n :: map JStr ss ++ map JStr lines) = Ok (join_with [10%N] (n :: ss ++ lines))) as Hj.
  { intros lines. rewrite <- py_join_strs. cbn [map]. by rewrite map_app. }
  destruct (negb (truthy (JArr l))) eqn:Et.
  { destruct l; [|done]. exists ss. split_and!; [by rewrite <- py_join_strs|done|]. by intros v ?%elem_of_nil. }
  rewrite existsb_parsed. fold (has_relations l). unfold showable in Hs. destruct (has_relations l).
  - cbn [andb] in Hs. apply negb_true_iff, existsb_false_Forall in Hs. rewrite Forall_forall in Hs.
    destruct (grouped_lines l Hs) as (ls & -> & Hin). exists (ss ++ concat ls). split; [apply Hj|]. split.
    + intros k v Hk Hne. apply elem_of_app. left. by apply Hfields.
    + intros v Hv. apply elem_of_app. right. by apply Hin.
  - exists (ss ++ [] :: map (λ e, §"  - " ++ py_str e) l). split; [exact (Hj ([] :: map (λ e, §"  - " ++ py_str e) l))|]. split.
    + intros k v Hk Hne. apply elem_of_app. left. by apply Hfields.
    + intros v Hv. apply elem_of_app. right. apply list_elem_of_further.
      replace (entry_text false v) with (§"  - " ++ py_str v); [by apply (list_elem_of_fmap_2 (λ e, §"  - " ++ py_str e))|].
      unfold entry_text. destruct (_parse_entry v) eqn:Ev; [|done]. by rewrite (untagged_text _ _ Ev).
Qed.

(** The entries that are plain text, and the relations, spelt out. *)
Lemma format_shows_entries d m n l : meta d = JObj m → dget (§"name") m = Some (JStr n) → content d = JArr l →
  showable l = true → ∃ lines, _format_single_doc d = Ok (join_with [10%N] (n :: lines)) ∧
    (∀ k v, dget k m = Some v → k ≠ §"name" → field_text k v ∈ lines) ∧
    (∀ v, v ∈ l → entry_text (has_relations l) v ∈ lines) ∧
    (∀ s, JStr s ∈ l → starts_with (§"[[[") s = false → (§"  - " ++ s) ∈ lines) ∧
    ∀ t a b, JStr (relation t a b) ∈ l → 93%N ∉ t → 93%N ∉ a → 93%N ∉ b → t ≠ §"misc" →
      (§"  - " ++ a ++ ¶" → " ++ b) ∈ lines.
Proof.
  intros Hm Hn Hc Hs. destruct (format_shows d m n l Hm Hn Hc Hs) as (lines & E & Hf & He).
  exists lines. split_and!; [done..| |].
  - intros s Hin Hp. specialize (He _ Hin). unfold entry_text, _parse_entry in He. by rewrite Hp in He.
  - intros t a b Hin Ht Ha Hb Hne. specialize (He _ Hin). unfold entry_text in He.
    rewrite (parse_relation t a b Ht Ha Hb) in He.
    assert (has_relations l = true) as Hr; [|by rewrite Hr in He].
    apply existsb_exists. exists (JStr (relation t a b)). split; [by apply list_elem_of_In|].
    rewrite (parse_relation t a b Ht Ha Hb). by apply bool_decide_eq_true_2.
Qed.

(** C26. What is saved is found.  Take a domain where every document says the name it
    is filed under.  A save that is accepted leaves the other documents as they are and
    keeps it so; and asking for the document by its name answers a text whose first line
    is the name and which has a line for every field that was given, for the date of the
    save, and for every entry that was given: a plain text as it is, and a relation
    between two things, [[[t]]][[a]][[b]], as its two ends.  This is for front matter that does not
    contain three dashes in a row ([dashes_cut] tells what happens to such a document),
    for entries none of which has a relation of type [misc] beside one of another type
    ([document_shown_iff]: such a document cannot be shown), and for a YAML library that
    reads back values equal to those it wrote. *)
Theorem saved_is_found today schema name data entries shelf r shelf' m l :
  dict_wf shelf → named shelf → save today schema name data entries shelf = (Ok r, shelf') →
  dashless (front_matter today name data) → reloads (front_matter today name data) entries m l →
  showable l = true →
  dict_wf shelf' ∧ named shelf' ∧ (∀ n, n ≠ name → dget n shelf' = dget n shelf) ∧
  (∃ lines, find (Some shelf') (by_name name) = Ok (join_with [10%N] (name :: lines)) ∧
    (∀ k v, dget k m = Some v → k ≠ §"name" → field_text k v ∈ lines) ∧
    (∀ v, v ∈ l → entry_text (has_relations l) v ∈ lines) ∧
    (∀ s, JStr s ∈ l → starts_with (§"[[[") s = false → (§"  - " ++ s) ∈ lines) ∧
    ∀ t a b, JStr (relation t a b) ∈ l → 93%N ∉ t → 93%N ∉ a → 93%N ∉ b → t ≠ §"misc" →
      (§"  - " ++ a ++ ¶" → " ++ b) ∈ lines) ∧
  dget (§"updated") m = Some (JStr today) ∧
  py_eq (JObj (front_matter today name data)) (JObj m) = true ∧ py_eq (JArr entries) (JArr l) = true.
Proof.
  intros Hw Hn Hs Hd Hr Hshow. unfold save, mbind, M_bind in Hs. destruct (validate _ _) as [errs|]; [|done]. cbn [lift_res] in Hs.
  destruct errs as [|e errs]; [|by destruct (_format_schema_fields schema)]. cbn in Hs. injection Hs as <- <-.
  assert (front_matter today name (dset (§"name") (JStr name) data) = front_matter today name data) as Hfm.
  { unfold front_matter. f_equal. by rewrite dset_dset. }
  assert (dget (§"name") m = Some (JStr name)) as Hname.
  { destruct (py_eq_obj _ _ (§"name") (JStr name) (rl_front_eq _ _ _ _ Hr)) as (v & Hv & ->%py_eq_str); [|done].
    unfold front_matter. rewrite dget_dset_ne by done. apply dget_dset_eq. }
  assert (dget (§"updated") m = Some (JStr today)) as Hup.
  { destruct (py_eq_obj _ _ (§"updated") (JStr today) (rl_front_eq _ _ _ _ Hr)) as (v & Hv & ->%py_eq_str); [|done].
    apply dget_dset_eq. }
  assert (m ≠ []) as Hm by by intros ->.
  pose proof (parse_document_written _ _ _ _ name Hr Hm Hd) as Hp. rewrite <- Hfm in Hp.
  assert (named (dset name (document (front_matter today name (dset (§"name") (JStr name) data)) entries) shelf)) as Hn'.
  { intros n t d. destruct (decide (n = name)) as [->|Hne]; [|rewrite dget_dset_ne by done; apply Hn].
    rewrite dget_dset_eq. intros [= <-]. rewrite Hp. intros [= <-]. by exists m. }
  split_and!; [by apply dset_wf|done|intros n Hne; by apply dget_dset_ne| |done|apply Hr|apply Hr].
  erewrite find_by_name; [|by apply dset_wf|done|by rewrite dget_dset_eq]. by apply format_shows_entries.
Qed.
End entries.

(** ** Listings *)

Section listings.
Context `{Unicode, PyRepr, Yaml, YamlDump}.
Implicit Types (w : pystr → nat) (r : row) (columns : list pystr).

(** A line with a cell of its width for every column but the last, which may be
    shorter. *)
Definition aligned w columns (line : pystr) : Prop := ∃ front final,
  line = join_with (§"  ") (front ++ [final]) ∧
  map length front = map w (take (length columns - 1) columns) ∧
  ∃ col, last columns = Some col ∧ length final ≤ w col.

Lemma length_ljust n c : length c ≤ n → length (ljust n c) = n.
Proof. intros Hl. unfold ljust. rewrite length_app, repeat_length. lia. Qed.

Lemma render_aligned w columns f : columns ≠ [] → (∀ col, col ∈ columns → length (f col) ≤ w col) →
  ∃ line, render w columns (map f columns) = Ok line ∧ aligned w columns line.
Proof.
  intros Hne Hf. destruct columns as [|col front _] using rev_ind; [done|]. clear Hne.
  unfold render, aligned. rewrite <- map_rev, rev_app_distr. cbn [List.rev app map].
  rewrite length_app, Nat.add_sub, take_app_length, <- map_rev, rev_involutive.
  eexists. split; [done|]. eexists _, (f col). split; [done|]. split.
  - assert (∀ x, x ∈ front → length (f x) ≤ w x) as Hx by (intros x Hx; apply Hf, elem_of_app; by left).
    clear Hf. induction front as [|x front IH]; [done|]. cbn [map zip_with].
    rewrite length_ljust by apply Hx, list_elem_of_here. f_equal. apply IH. intros y Hy. by apply Hx, list_elem_of_further.
  - exists col. rewrite last_snoc. split; [done|]. apply Hf, elem_of_app. right. by apply list_elem_of_singleton.
Qed.

(** Cutting leaves no value wider than its column. *)
Lemma at_col_eq x v r col : at_col x (dset col v r) col = v.
Proof. unfold at_col. by rewrite dget_dset_eq. Qed.
Lemma at_col_ne x v r c col : c ≠ col → at_col x (dset col v r) c = at_col x r c.
Proof. intros Hc. unfold at_col. by rewrite dget_dset_ne. Qed.

Lemma shorten_one w r n col : (w col < length (at_col (§"-") r col) → 1 ≤ w col) →
  let r' := (shorten w (r, n) col).1 in
  length (at_col (§"-") r' col) ≤ w col ∧
  ∀ c, c ≠ col ∨ length (at_col (§"-") r c) ≤ w c → at_col (§"-") r' c = at_col (§"-") r c.
Proof.
  intros Hw1. unfold shorten. cbn [fst snd]. case_decide as Hw; cbn [fst].
  - split.
    + rewrite at_col_eq, length_app, length_take. cbn. specialize (Hw1 Hw). lia.
    + intros c Hc. destruct (decide (c = col)) as [->|Hne]; [destruct Hc; [done|lia]|]. by rewrite at_col_ne.
  - split; [lia|done].
Qed.

Lemma shorten_fits w columns r n : (∀ col, col ∈ columns → w col < length (at_col (§"-") r col) → 1 ≤ w col) →
  let r' := (foldl (shorten w) (r, n) columns).1 in
  (∀ col, col ∈ columns → length (at_col (§"-") r' col) ≤ w col) ∧
  ∀ col, length (at_col (§"-") r col) ≤ w col → at_col (§"-") r' col = at_col (§"-") r col.
Proof.
  revert r n. induction columns as [|col columns IH]; intros r n Hw1; cbn [foldl].
  { split; [by intros col Hc%elem_of_nil|done]. }
  destruct (shorten_one w r n col) as [S1 S2]; [apply Hw1, list_elem_of_here|].
  destruct (shorten w (r, n) col) as [r1 n1]. cbn [fst] in S1, S2. destruct (IH r1 n1) as [I1 I2].
  - intros c Hc. destruct (decide (c = col)) as [->|Hne]; [lia|]. rewrite S2 by by left. by apply Hw1, list_elem_of_further.
  - split.
    + intros c [->|Hc]%elem_of_cons; [|by apply I1]. by rewrite I2.
    + intros c Hc. rewrite I2; [by apply S2; right|]. rewrite S2; [done|by right].
Qed.

Lemma shorten_rows_fit w columns rows n :
  (∀ r col, r ∈ rows → col ∈ columns → w col < length (at_col (§"-") r col) → 1 ≤ w col) →
  Forall (λ r, ∀ col, col ∈ columns → length (at_col (§"-") r col) ≤ w col) (shorten_rows w columns rows n).1.
Proof.
  revert n. induction rows as [|r rows IH]; intros n Hw1; cbn [shorten_rows]; [constructor|].
  pose proof (shorten_fits w columns r n (λ c, Hw1 r c (list_elem_of_here _ _))) as [F _].
  destruct (foldl (shorten w) (r, n) columns) as [r' n']. cbn [fst] in F.
  specialize (IH n' (λ r c Hr, Hw1 r c (list_elem_of_further _ _ _ Hr))).
  destruct (shorten_rows w columns rows n') as [rows' n'']. by constructor.
Qed.

Lemma shorten_rows_length w columns rows n : length (shorten_rows w columns rows n).1 = length rows.
Proof.
  revert n. induction rows as [|r rows IH]; intros n; cbn [shorten_rows]; [done|].
  destruct (foldl _ (r, n) columns) as [r' n']. specialize (IH n'). destruct (shorten_rows w columns rows n'). cbn in *. by f_equal.
Qed.

(** A row holds a value for every column. *)
Lemma make_row_has columns d r col : make_row columns d = Ok r → col ∈ columns → ∃ v, dget col r = Some v.
Proof.
  unfold make_row, mbind, res_bind. destruct (map_res (cell d) columns) as [cells|] eqn:Em; [|done]. intros [= <-].
  assert (length columns = length cells) as Hl by (symmetry; by apply (map_res_length (cell d))).
  intros Hc. assert (col ∈ (zip columns cells).*1) as Hz by (rewrite fst_zip; [done|lia]).
  assert (∀ l r0, col ∈ l.*1 ∨ is_Some (dget col r0) → is_Some (dget col (foldl (λ r cv, dset cv.1 cv.2 r) r0 l))) as Hd.
  { clear. induction l as [|[k v] l IH]; intros r0 Hc; cbn [foldl].
    - destruct Hc as [Hc%elem_of_nil|Hc]; done.
    - apply IH. cbn in *. destruct (decide (col = k)) as [->|Hne]; [right; rewrite dget_dset_eq; by eexists|].
      rewrite dget_dset_ne by done. rewrite elem_of_cons in Hc. naive_solver. }
  destruct (Hd (zip columns cells) []) as [v Hv]; [by left|]. by exists v.
Qed.

Lemma col_width_bounds full rows col : length (str_upper col) ≤ col_width full rows col ∧
  (full = false → col_width full rows col ≤ Nat.max (length (str_upper col)) _MAX_COL_WIDTH) ∧
  ∀ r v, r ∈ rows → dget col r = Some v → col_width full rows col < length v → 1 ≤ col_width full rows col.
Proof.
  unfold col_width. set (widest := max_list_with _ rows). split_and!; [lia|intros ->; lia|].
  intros r v Hr Hv Hlt. assert (length v ≤ widest) as Hle.
  { assert (length (at_col [] r col) ≤ widest) as Hm.
    { unfold widest. clear Hlt. induction rows as [|x rows IH]; [by apply elem_of_nil in Hr|]. cbn.
      apply elem_of_cons in Hr as [<-|Hr]; [lia|]. specialize (IH Hr). lia. }
    unfold at_col in Hm. by rewrite Hv in Hm. }
  unfold _MAX_COL_WIDTH in *. destruct full; lia.
Qed.

Lemma docs_objects docs ms d : map_res (λ d, as_obj (meta d)) docs = Ok ms → d ∈ docs → ∃ m, meta d = JObj m.
Proof.
  intros Hm%map_res_Forall2 Hd. destruct (Forall2_elem_l _ _ _ d Hm Hd) as (m & _ & He).
  exists m. unfold as_obj in He. destruct (meta d); try done. by injection He as ->.
Qed.

Lemma cell_total d col : (∃ m, meta d = JObj m) → is_list (content d) = true → ∃ c, cell d col = Ok c.
Proof.
  intros [m Hm] Hl. unfold cell, mbind, res_bind. rewrite Hm. destruct (content d); try done.
  case_decide; by eexists.
Qed.

(** A listing is a table.  Whatever the documents hold, a listing either has no
    column at all, and then making it fails, or every line of it, heading, rule
    and one for each document, has the same cells side by side: each column is as
    wide on every line, and unless all of the text is asked for, no wider than
    sixty characters or its heading. *)
Theorem listing_aligned docs fields full ms : map_res (λ d, as_obj (meta d)) docs = Ok ms →
  Forall (λ d, is_list (content d) = true) docs →
  let columns := columns_of fields (concat (map dkeys ms)) in
  if decide (columns = []) then table docs fields full = Raise IndexError
  else ∃ lines k w, table docs fields full = Ok (lines, k) ∧ length lines = 2 + length docs ∧
    Forall (aligned w columns) lines ∧
    (full = false → ∀ col, w col ≤ Nat.max (length (str_upper col)) _MAX_COL_WIDTH).
Proof.
  intros Hms Hl columns.
  destruct (map_res_total (make_row columns) docs) as [rows Hrows].
  { intros d Hd. unfold make_row, mbind, res_bind. destruct (map_res_total (cell d) columns) as [cells ->]; [|by eexists].
    intros col _. apply cell_total; [by apply (docs_objects docs ms)|]. rewrite Forall_forall in Hl. by apply Hl. }
  unfold table, mbind, res_bind. rewrite Hms. fold columns. rewrite Hrows.
  set (w := col_width full rows). destruct (shorten_rows w columns rows 0) as [rows' k] eqn:Es.
  case_decide as Hc; [by rewrite Hc|].
  destruct (render_aligned w columns str_upper Hc) as (head & -> & Hhead).
  { intros col _. apply (col_width_bounds full rows col). }
  destruct (render_aligned w columns (λ col, repeat 45%N (w col)) Hc) as (rule & -> & Hrule).
  { intros col _. by rewrite repeat_length. }
  assert (Forall (λ r, ∀ col, col ∈ columns → length (at_col (§"-") r col) ≤ w col) rows') as Hfit.
  { change rows' with (rows', k).1. rewrite <- Es. apply shorten_rows_fit. intros r col Hr Hcol.
    destruct (Forall2_elem_r _ _ _ r (map_res_Forall2 _ _ _ Hrows) Hr) as (d & _ & Hd).
    destruct (make_row_has columns d r col Hd Hcol) as [v Hv].
    destruct (col_width_bounds full rows col) as (_ & _ & Hb). unfold at_col. rewrite Hv. by apply (Hb r v). }
  destruct (map_res_Forall (λ r, render w columns (map (at_col (§"-") r) columns)) (aligned w columns) rows') as (lines & Hr & Hal).
  { intros r Hr. rewrite Forall_forall in Hfit. by apply render_aligned, (Hfit r Hr). }
  rewrite Hr. exists (head :: rule :: lines), k, w. split; [done|]. split.
  { cbn. apply map_res_length in Hr, Hrows. rewrite Hr, <- Hrows. do 2 f_equal.
    change rows' with (rows', k).1. rewrite <- Es. apply shorten_rows_length. }
  split; [by repeat constructor|]. intros Hfull col. by apply col_width_bounds.
Qed.
End listings.

(** ** Dashes in the front matter *)

Lemma starts_with_long p s t : length p ≤ length s → starts_with p (s ++ t) = starts_with p s.
Proof.
  revert s. induction p as [|c p IH]; intros [|c' s] Hl; cbn in *; try done; [lia|]. rewrite IH by lia. done.
Qed.

Lemma split_first_app p s t a b : split_first p s = Some (a, b) → split_first p (s ++ t) = Some (a, b ++ t).
Proof.
  revert a. induction s as [|c s IH]; intros a Hs; pose proof (split_first_Some _ _ _ _ Hs) as Hl;
    apply (f_equal length) in Hl; rewrite !length_app in Hl.
  - cbn in Hl. destruct p; [|cbn in Hl; lia]. cbn in Hs. injection Hs as <- <-. by destruct t.
  - cbn [app split_first] in *. change (c :: s ++ t) with ((c :: s) ++ t). rewrite starts_with_long by lia.
    destruct (starts_with p (c :: s)).
    + injection Hs as <- <-. f_equal. f_equal. apply drop_app_le. lia.
    + destruct (split_first p s) as [[a' b']|] eqn:E; [|done]. injection Hs as <- <-. by rewrite (IH a').
Qed.

Section dashes.
Context `{Unicode, PyRepr, Yaml, YamlDump}.

(** Three dashes end a document's front matter wherever they are.  When the
    data of a document, its name included, is written with three dashes in it,
    saving succeeds and what is read back as the front matter is only the part
    before them. *)
Theorem dashes_cut today schema name data entries shelf r shelf' a b :
  save today schema name data entries shelf = (Ok r, shelf') →
  split_first (§"---") (strip (yaml_dump (JObj (front_matter today name data)))) = Some (a, b) →
  meta <$> (dget name shelf' ≫= _parse_document name) = (λ v, jor v (JObj [])) <$> yaml_load (10%N :: a).
Proof.
  intros Hs Hab. unfold save, mbind, M_bind in Hs. destruct (validate _ _) as [errs|]; [|done]. cbn [lift_res] in Hs.
  destruct errs as [|e errs]; [|by destruct (_format_schema_fields schema)]. cbn in Hs. injection Hs as <- <-.
  assert (front_matter today name (dset (§"name") (JStr name) data) = front_matter today name data) as ->.
  { unfold front_matter. f_equal. by rewrite dset_dset. }
  rewrite dget_dset_eq. cbn [mbind option_bind]. unfold _parse_document, document.
  set (fm := strip _) in *. set (rest := 10%N :: §"---" ++ _).
  change (§"---" ++ 10%N :: fm ++ rest) with (§"---" ++ (10%N :: fm) ++ rest).
  rewrite starts_with_app. cbn [negb]. rewrite (drop_app_length (§"---")).
  assert (split_first (§"---") (10%N :: fm) = Some (10%N :: a, b)) as Hn by (cbn; by rewrite Hab).
  rewrite (split_first_app _ _ rest _ _ Hn). cbn [mbind option_bind fst snd]. by destruct (yaml_load (10%N :: a)).
Qed.
End dashes.

(** ** Concrete runs *)
Module DomainsDemo.
(** Text, and lists of text, line by line. *)
Definition add_line (d : option jdict) (line : pystr) : option jdict :=
  d ← d;
  match line with
  | [] => Some d
  | _ =>
      match split_first (§": ") line, List.rev d with
      | Some (k, v), _ => Some (dset k (JStr v) d)
      | None, (k, JArr l) :: _ => if starts_with (§"- ") line then Some (dset k (JArr (l ++ [JStr (drop 2 line)])) d) else None
      | None, _ => if decide (last line = Some 58%N) then Some (dset (removelast line) (JArr []) d) else None
      end
  end.
Definition lines_load : Yaml := λ s, JObj <$> foldl add_line (Some []) (split_on 10 s).
Definition lines_dump : YamlDump := λ v,
  match v with
  | JObj d => concat (map (λ kv, match kv.2 with
      | JArr l => kv.1 ++ §":" ++ [10%N] ++ concat (map (λ x, match x with JStr s => §"- " ++ s ++ [10%N] | _ => [] end) l)
      | JStr s => kv.1 ++ §": " ++ s ++ [10%N]
      | _ => [] end) d)
  | _ => []
  end.
#[local] Existing Instances ascii_db repr_mark lines_load lines_dump.

Definition notes : jdict :=
  [(§"fields", JArr [JObj [(§"name", JStr (§"name")); (§"type", JStr (§"string")); (§"required", JBool true)];
                     JObj [(§"name", JStr (§"kind")); (§"type", JStr (§"enum"));
                           (§"values", JArr [JStr (§"fact"); JStr (§"rule")])]])].
Definition given : jdict := [(§"kind", JStr (§"fact"))].
Definition said : list json := [JStr (relation (§"uses") (§"a") (§"b")); JStr (§"plain")].
Definition day : pystr := §"2026-01-05".
Definition read_back : jdict := [(§"kind", JStr (§"fact")); (§"name", JStr (§"n")); (§"updated", JStr day)].

Lemma saved_is_found_witness : ∃ lines,
  find (Some (save day notes (§"n") given said []).2) (by_name (§"n")) = Ok (join_with [10%N] (§"n" :: lines)) ∧
  §"  kind: fact" ∈ lines ∧ §"  - plain" ∈ lines ∧ ¶"  - a → b" ∈ lines.
Proof.
  edestruct (saved_is_found day notes (§"n") given said [] (false, 2) (save day notes (§"n") given said []).2 read_back said)
    as (_ & _ & _ & (lines & R & Hf & _ & Hp & Hr) & _).
  - apply NoDup_nil_2.
  - intros n t d [=].
  - vm_compute. reflexivity.
  - vm_compute. reflexivity.
  - split; vm_compute; first [reflexivity|discriminate].
  - vm_compute. reflexivity.
  - exists lines. split; [exact R|]. split.
    + refine (Hf (§"kind") (JStr (§"fact")) _ _); [reflexivity|discriminate].
    + split; [refine (Hp (§"plain") _ eq_refl); apply list_elem_of_further, list_elem_of_here|].
      refine (Hr (§"uses") (§"a") (§"b") (list_elem_of_here _ _) _ _ _ _);
        first [apply (bool_decide_unpack _); exact I|discriminate].
Defined.

Example shown_document : find (Some (save day notes (§"n") given said []).2) (by_name (§"n")) =
  Ok (join_with [10%N] [§"n"; §"  kind: fact"; §"  updated: 2026-01-05"; []; §"  [uses]"; ¶"  - a → b"; [];
    §"  [misc]"; §"  - plain"]).
Proof. vm_compute. reflexivity. Qed.

Lemma schema_decides_witness : ∃ errs, validate notes given = Ok errs ∧ errs ≠ [].
Proof.
  edestruct (schema_decides notes) with (data := given) as (errs & E & Hiff).
  - vm_compute. reflexivity.
  - reflexivity.
  - repeat constructor; intros n Hn; vm_compute in Hn; try discriminate Hn; try (intros Hv; vm_compute in Hv; injection Hv as <-; by eexists);
      injection Hn as <-; by eexists.
  - exists errs. split; [exact E|]. vm_compute in E. injection E as <-. discriminate.
Defined.

Definition clash : doc := {| meta := JObj read_back; stem := §"n";
  content := JArr [JStr (relation (§"misc") (§"a") (§"b")); JStr (relation (§"uses") (§"a") (§"b"))] |}.
Lemma document_shown_iff_witness : _format_single_doc clash = Raise KeyError.
Proof.
  pose proof (document_shown_iff clash read_back (§"n") _ eq_refl eq_refl eq_refl) as R. vm_compute in R. exact R.
Defined.

Definition pair_of_docs : list doc :=
  [{| meta := JObj read_back; content := JArr []; stem := §"n" |}; {| meta := JObj given; content := JArr []; stem := §"k" |}].
Lemma listing_aligned_witness : table pair_of_docs (Some [§"nosuch"]) false = Raise IndexError.
Proof.
  pose proof (listing_aligned pair_of_docs (Some [§"nosuch"]) false [read_back; given] eq_refl) as R.
  specialize (R ltac:(repeat constructor)). cbn zeta in R. rewrite decide_True in R; [exact R|]. vm_compute. reflexivity.
Defined.

Lemma dashes_cut_witness :
  let shelf' := (save day notes (§"a---b") given said []).2 in
  meta <$> (dget (§"a---b") shelf' ≫= _parse_document (§"a---b")) =
    Some (JObj [(§"kind", JStr (§"fact")); (§"name", JStr (§"a"))]) ∧
  find (Some shelf') (by_name (§"a---b")) = Ok (§"No matching documents").
Proof.
  split; [|vm_compute; reflexivity].
  rewrite (dashes_cut day notes (§"a---b") given said [] (false, 2) _ (§"kind: fact" ++ 10%N :: §"name: a")
    (§"b" ++ 10%N :: §"updated: 2026-01-05")); vm_compute; reflexivity.
Defined.
End DomainsDemo.
