(* ===== verification/Conversations.v ===== *)
(** * Conversations

    server/services/routing/conv_key.py and thread_classifier.py (which
    conversation a message belongs to), server/services/pa_outbox.py (files waiting
    to be delivered in a conversation), the queue's gate of
    server/services/primary/helpers.py, the caches of [enqueue_message] in
    server/services/primary_agent_service.py, and delivery: server/services/
    task_lifecycle.py and server/services/primary/delivery.py. *)

From S2P Require Import Prelude PyStr Json Metadata WarmPool.
From stdpp Require Import prelude list strings.

(** ** Conversation keys *)

Record ConvKey := { channel : pystr; native_id : pystr }.

#[export] Instance ConvKey_eq_dec : EqDecision ConvKey.
Proof. solve_decision. Defined.

Inductive layer := L0 | L1 | NoLayer.
Record ClassifyResult := { cr_conv_key : option pystr; parent_ref : option pystr; cr_layer : layer }.

(** [s.split()[0]]. *)
Fixpoint until_space (s : pystr) : pystr :=
  match s with [] => [] | c :: s => if is_space c then [] else c :: until_space s end.
Definition first_word (s : pystr) : res pystr :=
  match until_space (lstrip s) with [] => Raise IndexError | w => Ok w end.

Section keys.
Context `{PyRepr}.
Implicit Type rc : jdict.

(** The value of a field, unless it is missing or false. *)
Definition given (k : pystr) rc : option pystr :=
  match dget k rc with Some v => if truthy v then Some (py_str v) else None | None => None end.

Definition _feishu rc : option ConvKey :=
  (λ i, {| channel := §"feishu"; native_id := i |}) <$> given (§"chat_id") rc.
Definition _email rc : option ConvKey :=
  (λ i, {| channel := §"email"; native_id := i |}) <$>
    match given (§"sender_id") rc with Some a => Some a | None => given (§"sender") rc end.
Definition _slack rc : option ConvKey :=
  (λ i, {| channel := §"slack"; native_id := i |}) <$> given (§"channel_id") rc.
Definition _voice rc : option ConvKey :=
  Some {| channel := §"voice"; native_id :=
    match given (§"sender_id") rc with
    | Some a => a
    | None => default (§"local") (given (§"sender") rc)
    end |}.

Definition CONV_KEY_DERIVERS : dict pystr (jdict → option ConvKey) :=
  [(§"feishu", _feishu); (§"email", _email); (§"slack", _slack); (§"voice", _voice)].

(** No context and an empty one are the same. *)
Definition derive_conv_key (ch : pystr) rc : option ConvKey :=
  deriver ← dget ch CONV_KEY_DERIVERS; deriver rc.

Definition _extract_conv_key (ch : pystr) rc : option pystr :=
  (λ k, channel k ++ 58%N :: native_id k) <$> derive_conv_key ch rc.

Definition _extract_parent_ref (ch : pystr) rc : res (option pystr) :=
  if decide (ch = §"feishu") then Ok (given (§"parent_message_id") rc)
  else if decide (ch = §"email") then
    match given (§"in_reply_to") rc with
    | Some r => Ok (Some r)
    | None =>
        match dget (§"references") rc with
        | Some (JArr (r :: _)) => Ok (Some (py_str r))
        | Some (JStr ((_ :: _) as s)) => w ← first_word s; Ok (Some w)
        | _ => Ok None
        end
    end
  else if decide (ch = §"webhook" ∨ ch = §"ui_input") then
    Ok (match given (§"conversation_id") rc with Some r => Some r | None => given (§"thread_id") rc end)
  else Ok None.

Definition classify (ch : pystr) rc : res ClassifyResult :=
  match _extract_conv_key ch rc with
  | Some ((_ :: _) as k) => Ok {| cr_conv_key := Some k; parent_ref := None; cr_layer := L0 |}
  | _ =>
      p ← _extract_parent_ref ch rc;
      match p with
      | Some ((_ :: _) as r) =>
          Ok {| cr_conv_key := Some (ch ++ §":ref:" ++ r); parent_ref := Some r; cr_layer := L1 |}
      | _ => Ok {| cr_conv_key := None; parent_ref := None; cr_layer := NoLayer |}
      end
  end.
End keys.

(** ** The outbox *)

(** [json.dumps(d, ensure_ascii=False)] of an object, and [json.loads]. *)
Class JsonLines := { line_dumps : jdict → pystr; line_loads : pystr → option json }.

(** What a path is: with the home directory filled in ([expanduser()]), where it
    leads ([expanduser().resolve()]), whether something is there, whether that is a
    directory, and the archive made of it. *)
Class Files := {
  expanduser : pystr → pystr;
  resolve : pystr → pystr;
  is_dir : pystr → bool;
  exists_at : pystr → bool;
  make_archive : pystr → res pystr;
}.

(** [Path(p).suffix] of an absolute path. *)
Definition last_component (p : pystr) : pystr := default [] (last (split_on 47 p)).
Definition suffix_of (p : pystr) : pystr :=
  match split_on 46 (last_component p) with
  | [] | [_] => []
  | [[]; _] => []
  | parts => match last parts with Some ((_ :: _) as e) => 46%N :: e | _ => [] end
  end.

Definition _IMAGE_EXTS : list pystr := [§".png"; §".jpg"; §".jpeg"; §".gif"; §".webp"; §".bmp"].

Section outbox.
Context `{Unicode, Alnum, JsonLines, Files}.

(** The files of the outbox by name. *)
Implicit Type box : dict pystr pystr.

Definition _sanitize (conv_key : pystr) : pystr :=
  map (λ c, if isalnum c || (c =? 95)%N || (c =? 45)%N then c else 95%N) conv_key.
Definition _outbox_path (conv_key : pystr) : pystr := _sanitize conv_key ++ §".jsonl".

Definition kind_of (path : pystr) : pystr :=
  if is_dir path then §"dir"
  else if bool_decide (str_lower (suffix_of path) ∈ _IMAGE_EXTS) then §"image" else §"file".

Definition box_record (kind path conv_key : pystr) : jdict :=
  [(§"kind", JStr kind); (§"path", JStr path); (§"conv_key", JStr conv_key)].

Definition records_for (conv_key : pystr) (files dirs : list pystr) : list jdict :=
  map (λ raw, let p := resolve raw in box_record (kind_of p) p conv_key) files ++
  map (λ raw, box_record (§"dir") (resolve raw) conv_key) dirs.

Definition lines_of (records : list jdict) : pystr :=
  concat (map (λ d, line_dumps d ++ [10%N]) records).

Definition append (conv_key : pystr) (files dirs : list pystr) box : list jdict * dict pystr pystr :=
  match records_for conv_key files dirs with
  | [] => ([], box)
  | records =>
      let name := _outbox_path conv_key in
      (records, dset name (default [] (dget name box) ++ lines_of records) box)
  end.

Definition read_records (text : pystr) : list json :=
  omap (λ line, match strip line with [] => None | l => line_loads l end) (splitlines text).

Definition drain (conv_key : pystr) box : list json * dict pystr pystr :=
  match dget (_outbox_path conv_key) box with
  | None => ([], box)
  | Some text => (read_records text, ddel (_outbox_path conv_key) box)
  end.

Definition peek (conv_key : pystr) box : list json :=
  match dget (_outbox_path conv_key) box with None => [] | Some text => read_records text end.
End outbox.

(** ** The queue's gate *)

Definition VALID_QUEUE_MESSAGE_TYPES : list pystr :=
  [§"user_message"; §"agent_completed"; §"agent_failed"; §"reply_failed"; §"scheduled_task";
   §"recovered_failed_task"; §"resume_failed"; §"run_failed"; §"schedule_failed"; §"worker_done"].
Definition NON_DELIVERABLE_CHANNELS : list pystr :=
  [§"reply_failed"; §"resume_failed"; §"run_failed"; §"schedule_failed"].

Definition has_all (ks : list pystr) (m : jdict) : bool := forallb (λ k, bool_field k m) ks.

(** A type that is no string is not among the valid ones; one that cannot be
    looked up in a set raises. *)
Definition _validate_queue_message (m : jdict) : res bool :=
  match jget (§"type") m with
  | JArr _ | JObj _ => Raise TypeError
  | JStr t =>
      Ok (bool_decide (t ∈ VALID_QUEUE_MESSAGE_TYPES) &&
          if decide (t = §"user_message") then
            has_all [§"channel"; §"prompt"] m && (bool_field (§"msg_id") m || bool_field (§"task_id") m)
          else if decide (t = §"agent_completed" ∨ t = §"agent_failed") then has_all [§"task_id"; §"channel"] m
          else if decide (t = §"scheduled_task") then has_all [§"msg_id"; §"schedule_id"; §"prompt"] m
          else if decide (t = §"recovered_failed_task") then
            has_all [§"task_id"; §"channel"; §"original_prompt"] m
          else if decide (t = §"worker_done") then bool_field (§"conv_key") m || bool_field (§"channel") m
          else true)
  | _ => Ok false
  end.

(** ** Delivery *)

(** Whether running a notify recipe succeeds, at its n-th call; else it raises. *)
Class Notify := notify_ok : nat → json → jdict → bool.

Record pa := {
  outbox : dict pystr pystr;
  _reply_context_cache : dict pystr json;
  _conv_route_cache : dict pystr jdict;
  _message_queue : list jdict;
  (** the calls of notify recipes that returned, and how many were made *)
  sent : list (json * jdict);
  calls : nat;
  config_file : option json;
}.

Section delivery.
Context `{Unicode, PyRepr, Alnum, JsonLines, Files, Notify}.
Implicit Types (s : pa) (rc : json).

Definition set_outbox (b : dict pystr pystr) s : pa :=
  {| outbox := b; _reply_context_cache := _reply_context_cache s; _conv_route_cache := _conv_route_cache s;
     _message_queue := _message_queue s; sent := sent s; calls := calls s; config_file := config_file s |}.
Definition set_queue (q : list jdict) s : pa :=
  {| outbox := outbox s; _reply_context_cache := _reply_context_cache s; _conv_route_cache := _conv_route_cache s;
     _message_queue := q; sent := sent s; calls := calls s; config_file := config_file s |}.
Definition set_caches (r : dict pystr json) (v : dict pystr jdict) s : pa :=
  {| outbox := outbox s; _reply_context_cache := r; _conv_route_cache := v; _message_queue := _message_queue s;
     sent := sent s; calls := calls s; config_file := config_file s |}.

(** [enqueue_message], without the event it shows on the dashboard. *)
Definition enqueue_message (m : jdict) : M pa unit :=
  ok ← lift_res (_validate_queue_message m);
  if negb ok then mret tt
  else
    let rc := jget (§"reply_context") m in
    modify (λ s,
      let conv := given (§"conv_key") m in
      let chan := given (§"channel") m in
      let cache := _reply_context_cache s in
      let cache := match conv with Some k => if truthy rc then dset (§"conv:" ++ k) rc cache else cache | None => cache end in
      let cache := match chan with Some c => if truthy rc then dset (§"channel:" ++ c) rc cache else cache | None => cache end in
      let routes := match conv, chan with
        | Some k, Some _ => dset k [(§"channel", jget (§"channel") m); (§"conv_key", JStr k);
                                    (§"reply_context", jor rc (JObj []))] (_conv_route_cache s)
        | _, _ => _conv_route_cache s end in
      set_caches cache routes s);;
    modify (λ s, set_queue (_message_queue s ++ [m]) s).

(** One call of a notify recipe. *)
Definition notify (recipe : json) (params : jdict) : M pa unit := λ s,
  let s' := {| outbox := outbox s; _reply_context_cache := _reply_context_cache s;
               _conv_route_cache := _conv_route_cache s; _message_queue := _message_queue s;
               sent := if notify_ok (calls s) recipe params then sent s ++ [(recipe, params)] else sent s;
               calls := S (calls s); config_file := config_file s |} in
  if notify_ok (calls s) recipe params then (Ok tt, s') else (Raise RuntimeError, s').

Definition _merge_reply_context (params : jdict) rc : jdict :=
  [(§"text", default (JStr []) (dget (§"text") params)); (§"reply_context", rc)] ++
  omap (λ k, match dget k params with Some v => if truthy v then Some (k, v) else None | None => None end)
    [§"html_body"; §"file_path"; §"image_path"].

(** [None] for a configuration that cannot be read. *)
Fixpoint channel_recipe (ch : json) (l : list json) : res json :=
  match l with
  | [] => Ok JNull
  | c :: l =>
      d ← as_obj c;
      if decide (dget (§"name") d = Some ch) then Ok (jget (§"notify_recipe") d) else channel_recipe ch l
  end.
Definition _resolve_notify_recipe (config : option json) (ch : json) : res json :=
  match config with
  | None => Raise ValueError
  | Some raw =>
      d ← as_obj raw;
      ti ← as_obj (jor (jget (§"task_ingestion") d) (JObj []));
      l ← py_iter (jor (jget (§"channels") ti) (JArr []));
      channel_recipe ch l
  end.

(** [None] for a record that leads nowhere. *)
Definition _attachment_params (att : jdict) rc : res (option jdict) :=
  match dget (§"path") att with
  | Some (JStr ((_ :: _) as raw)) =>
      let p := expanduser raw in
      if negb (exists_at p) then Ok None
      else
        let base := if truthy rc then [(§"reply_context", rc)] else [] in
        let kind := default (JStr (§"file")) (dget (§"kind") att) in
        if str_is (§"dir") kind then
          archive ← make_archive p; Ok (Some (base ++ [(§"file_path", JStr archive)]))
        else if str_is (§"image") kind then Ok (Some (base ++ [(§"image_path", JStr p)]))
        else Ok (Some (base ++ [(§"file_path", JStr p)]))
  | Some v => if truthy v then Raise TypeError else Ok None
  | None => Ok None
  end.

Fixpoint send_attachments (recipe : json) rc (atts : list json) : M pa unit :=
  match atts with
  | [] => mret tt
  | a :: atts =>
      d ← lift_res (as_obj a);
      p ← lift_res (_attachment_params d rc);
      match p with
      | None => send_attachments recipe rc atts
      | Some params => notify recipe params;; send_attachments recipe rc atts
      end
  end.

Definition try_send (ch : json) (params : jdict) rc (atts : list json) : M pa bool :=
  config ← gets config_file;
  recipe ← lift_res (_resolve_notify_recipe config ch);
  if negb (truthy recipe) then mret false
  else
    (match strip (str_field (§"text") params) with [] => mret tt | _ => notify recipe params end);;
    send_attachments recipe rc atts;;
    mret true.

(** [TaskLifecycle.deliver]: whether the status is [ok]. *)
Definition lifecycle_deliver (ch : json) (params : jdict) rc (atts : list json) : M pa bool := λ s,
  if str_is (§"cli") ch then (Ok true, s)
  else
    let params := if truthy rc then _merge_reply_context params rc else params in
    match try_send ch params rc atts s with
    | (Ok b, s) => (Ok b, s)
    | (Raise _, s) => (Ok false, s)
    end.

Definition reply_context_for (route : jdict) s : json :=
  jor (jget (§"reply_context") route)
    (jor (match given (§"conv_key") route with Some k => jget (§"conv:" ++ k) (_reply_context_cache s) | None => JNull end)
       (jget (§"channel:" ++ py_str (jor (jget (§"channel") route) (jget (§"type") route))) (_reply_context_cache s))).

Definition reply_failed (task_id : json) (ch : json) (err text : pystr) : jdict :=
  [(§"type", JStr (§"reply_failed")); (§"task_id", task_id); (§"channel", ch); (§"error", JStr err);
   (§"original_text", JStr text)].

(** [deliver]; [err] is the text of the error it is told. *)
Definition deliver (err text : pystr) (route : jdict) : M pa unit :=
  let text := strip text in
  let ch := jor (default (JStr []) (dget (§"channel") route)) (default (JStr []) (dget (§"type") route)) in
  match text with
  | [] => mret tt
  | _ =>
      if negb (truthy ch) then mret tt
      else if match ch with JArr _ | JObj _ => true | _ => false end then raise TypeError
      else if one_of NON_DELIVERABLE_CHANNELS ch then mret tt
      else
        rc ← gets (reply_context_for route);
        atts ← (λ s, match given (§"conv_key") route with
                     | Some k => let '(l, b) := drain k (outbox s) in (Ok l, set_outbox b s)
                     | None => (Ok [], s)
                     end);
        ok ← lifecycle_deliver ch [(§"text", JStr text)] rc atts;
        if ok : bool then mret tt
        else enqueue_message (reply_failed (jor (default (JStr []) (dget (§"task_id") route)) (JStr [])) ch err text)
  end.

(** The message of a group that says where to reply. *)
Definition route_for_group (group : list jdict) : jdict :=
  match List.find (bool_field (§"channel")) group with
  | Some m => m
  | None => default [] (head group)
  end.
End delivery.

(** ** Conversations are kept apart *)

Lemma app_sep_inj (c : N) a b x y : c ∉ a → c ∉ b → a ++ c :: x = b ++ c :: y → a = b ∧ x = y.
Proof.
  revert b. induction a as [|z a IH]; intros [|w b] Ha Hb; cbn.
  - by intros [= ->].
  - intros [= <- _]. exfalso. apply Hb. apply list_elem_of_here.
  - intros [= -> _]. exfalso. apply Ha. apply list_elem_of_here.
  - intros [= <- Hx]. apply not_elem_of_cons in Ha as [_ Ha]. apply not_elem_of_cons in Hb as [_ Hb].
    destruct (IH b Ha Hb Hx) as [-> ->]. done.
Qed.

Lemma derived_channel `{PyRepr} c rc k : derive_conv_key c rc = Some k → channel k = c ∧ 58%N ∉ c.
Proof.
  unfold derive_conv_key, CONV_KEY_DERIVERS. cbn [dget].
  repeat (case_decide; [subst c; cbn; intros Hk|]); [..|done].
  all: split; [|by apply (bool_decide_unpack _)].
  - unfold _feishu in Hk. destruct (given _ _); [|done]. by injection Hk as <-.
  - unfold _email in Hk. destruct (given _ _); [by injection Hk as <-|]. destruct (given _ _); [|done]. by injection Hk as <-.
  - unfold _slack in Hk. destruct (given _ _); [|done]. by injection Hk as <-.
  - unfold _voice in Hk. by injection Hk as <-.
Qed.

(** Different conversations never share a session by their keys.  Two messages
    that are placed by the conversation they come from get the same key only if
    they come over the same channel from the same conversation of it. *)
Theorem conversations_apart `{PyRepr} c rc c' rc' r r' :
  classify c rc = Ok r → classify c' rc' = Ok r' → cr_layer r = L0 → cr_layer r' = L0 →
  cr_conv_key r = cr_conv_key r' → c = c' ∧ derive_conv_key c rc = derive_conv_key c' rc'.
Proof.
  assert (∀ c rc r, classify c rc = Ok r → cr_layer r = L0 → ∃ k, derive_conv_key c rc = Some k ∧
    cr_conv_key r = Some (channel k ++ 58%N :: native_id k)) as Hl0.
  { clear. intros c rc r. unfold classify, _extract_conv_key. destruct (derive_conv_key c rc) as [k|] eqn:Ek; cbn [fmap option_fmap option_map].
    - destruct (channel k ++ _) as [|x y] eqn:Ex; [by apply app_nil in Ex as [_ ?]|]. intros [= <-] _. exists k. by rewrite Ex.
    - unfold mbind, res_bind. destruct (_extract_parent_ref c rc) as [[[|? ?]|]|]; intros [= <-]; done. }
  intros Hr Hr' L L'. destruct (Hl0 _ _ _ Hr L) as (k & Ek & ->). destruct (Hl0 _ _ _ Hr' L') as (k' & Ek' & ->).
  destruct (derived_channel _ _ _ Ek) as [C1 C2]. destruct (derived_channel _ _ _ Ek') as [C1' C2'].
  intros [= Heq]. destruct (app_sep_inj 58 (channel k) (channel k') (native_id k) (native_id k')) as [E1 E2]; [by rewrite C1|by rewrite C1'|done|].
  split; [congruence|]. rewrite Ek, Ek'. f_equal. destruct k, k'. cbn in *. congruence.
Qed.

(** ** What an outbox gives *)

Section outbox_facts.
Context `{Unicode, Alnum, JsonLines, Files}.

(** A record that is one line of the file and reads back. *)
Record clean (d : jdict) : Prop := {
  cl_line : Forall (λ c, is_linebreak c = false) (line_dumps d);
  cl_trim : strip (line_dumps d) = line_dumps d;
  cl_some : line_dumps d ≠ [];
  cl_back : line_loads (line_dumps d) = Some (JObj d);
}.

Lemma read_written ds : Forall clean ds → read_records (lines_of ds) = map JObj ds.
Proof.
  unfold read_records, lines_of. induction 1 as [|d ds [C1 C2 C3 C4] _ IH]; [done|]. cbn [map concat].
  rewrite <- app_assoc. cbn [app]. rewrite splitlines_line by done. cbn [omap list_omap]. rewrite C2, IH.
  destruct (line_dumps d) as [|c t]; [done|]. by rewrite C4.
Qed.

Lemma lines_app ds ds' : lines_of (ds ++ ds') = lines_of ds ++ lines_of ds'.
Proof. unfold lines_of. by rewrite map_app, concat_app. Qed.

(** A registration: the conversation, files and directories. *)
Abbreviation registration := (pystr * list pystr * list pystr)%type.
Definition reg_records (g : registration) : list jdict := records_for g.1.1 g.1.2 g.2.
Definition register (box : dict pystr pystr) (g : registration) : dict pystr pystr :=
  (append g.1.1 g.1.2 g.2 box).2.

(** The records that go to the file of a conversation. *)
Definition filed (k : pystr) (gs : list registration) : list jdict :=
  concat (map reg_records (filter (λ g, _sanitize g.1.1 = _sanitize k) gs)).

Lemma outbox_path_inj k k' : _outbox_path k = _outbox_path k' ↔ _sanitize k = _sanitize k'.
Proof. unfold _outbox_path. split; [by intros E%app_inv_tail|by intros ->]. Qed.

Lemma registered gs k : dget (_outbox_path k) (foldl register [] gs) =
  match filed k gs with [] => None | ds => Some (lines_of ds) end ∧ dict_wf (foldl register [] gs).
Proof.
  induction gs as [|g gs [IH IHw]] using rev_ind; [split; [done|apply NoDup_nil_2]|].
  rewrite foldl_snoc. set (b := foldl register [] gs) in *. unfold filed in *. rewrite filter_app, map_app, concat_app.
  rewrite filter_cons. unfold register, append. destruct (records_for g.1.1 g.1.2 g.2) as [|d ds] eqn:Er.
  - assert (concat (map reg_records (if decide (_sanitize g.1.1 = _sanitize k) then [g] else [])) = []) as Hn.
    { case_decide; [|done]. cbn. unfold reg_records. by rewrite Er. }
    cbn [filter list_filter] in *. rewrite Hn, app_nil_r. done.
  - cbn [snd]. split; [|by apply dset_wf]. case_decide as Hk.
    + assert (_outbox_path g.1.1 = _outbox_path k) as -> by by apply outbox_path_inj.
      rewrite dget_dset_eq, IH. cbn [map concat filter list_filter]. unfold reg_records at 3. rewrite Er, app_nil_r.
      destruct (concat _) as [|x l]; [done|]. exact (f_equal Some (eq_sym (lines_app (x :: l) (d :: ds)))).
    + rewrite dget_dset_ne, IH; [|by rewrite outbox_path_inj]. cbn [filter list_filter map concat]. by rewrite app_nil_r.
Qed.

(** An outbox gives back what went in, once.  Of all the files registered, for
    any conversations in any order, draining the outbox of one gives the records
    of the conversations that share its file name, in order, and nothing a second
    time; the other outboxes stay.  Conversations share a file name when their keys
    differ in characters that are replaced: then one receives the files of the
    other. *)
Theorem outbox_drains gs k : Forall (λ g, Forall clean (reg_records g)) gs →
  let box := foldl register [] gs in let '(records, box') := drain k box in
  records = map JObj (filed k gs) ∧ (drain k box').1 = [] ∧
  (∀ k', _sanitize k' ≠ _sanitize k → dget (_outbox_path k') box' = dget (_outbox_path k') box).
Proof.
  intros Hc. cbn zeta. destruct (registered gs k) as [Hr Hw]. set (box := foldl register [] gs) in *.
  assert (Forall clean (filed k gs)) as Hf.
  { unfold filed. apply Forall_concat, Forall_fmap. by apply filter_Forall. }
  unfold drain. rewrite Hr. destruct (filed k gs) as [|d ds] eqn:Ef.
  - split_and!; try done. by rewrite Hr.
  - split_and!; [by apply read_written|by rewrite dget_ddel_eq|].
    intros k' Hk. apply dget_ddel_ne. by rewrite outbox_path_inj.
Qed.
End outbox_facts.

(** ** What a failed delivery leaves *)

Section delivery_facts.
Context `{Unicode, PyRepr, Alnum, JsonLines, Files, Notify}.
Implicit Types (s : pa) (rc : json).

(** A channel that has a notify recipe. *)
Definition reachable (ch : pystr) (recipe : json) s : Prop :=
  ch ≠ [] ∧ ch ≠ §"cli" ∧ ch ∉ NON_DELIVERABLE_CHANNELS ∧
  _resolve_notify_recipe (config_file s) (JStr ch) = Ok recipe ∧ truthy recipe = true.

Lemma str_field_here k t d : str_field k ((k, JStr t) :: d) = t.
Proof. unfold str_field. cbn [dget]. rewrite decide_True by done. cbn. by destruct t. Qed.

(** A failing notify recipe fails the whole delivery at its first call. *)
Lemma lifecycle_fails ch recipe rc atts text s : reachable ch recipe s → strip text ≠ [] →
  (∀ n p, notify_ok n recipe p = false) →
  ∃ s', lifecycle_deliver (JStr ch) [(§"text", JStr text)] rc atts s = (Ok false, s') ∧
    outbox s' = outbox s ∧ sent s' = sent s ∧ _message_queue s' = _message_queue s ∧
    _reply_context_cache s' = _reply_context_cache s ∧ config_file s' = config_file s.
Proof.
  intros (Hch & Hcli & Hnd & Hr & Ht) Hs Hf. unfold lifecycle_deliver. cbn [str_is]. rewrite bool_decide_eq_false_2 by done.
  set (params := if truthy rc then _ else _).
  assert (str_field (§"text") params = text) as Hp.
  { unfold params. destruct (truthy rc); [|apply str_field_here].
    exact (str_field_here (§"text") text _). }
  unfold try_send, mbind, M_bind. cbn [gets]. rewrite Hr. cbn [lift_res]. rewrite Ht. cbn [negb]. rewrite Hp.
  destruct (strip text) as [|c t]; [done|]. unfold notify. rewrite Hf. cbn. by eexists.
Qed.

Lemma note_queued task_id ch err text s : ∃ s', enqueue_message (reply_failed task_id (JStr ch) err text) s = (Ok tt, s') ∧
  outbox s' = outbox s ∧ sent s' = sent s ∧ config_file s' = config_file s ∧
  _message_queue s' = _message_queue s ++ [reply_failed task_id (JStr ch) err text].
Proof.
  unfold enqueue_message, mbind, M_bind. assert (_validate_queue_message (reply_failed task_id (JStr ch) err text) = Ok true) as -> by done.
  cbn [lift_res negb modify]. eexists. split; [reflexivity|]. done.
Qed.

(** A reply with a text over a channel gets as far as sending. *)
Lemma deliver_start err text route ch s : strip text ≠ [] → dget (§"channel") route = Some (JStr ch) →
  ch ≠ [] → ch ∉ NON_DELIVERABLE_CHANNELS → deliver err text route s =
  (rc ← gets (reply_context_for route);
   atts ← (λ s, match given (§"conv_key") route with
                | Some k => let '(l, b) := drain k (outbox s) in (Ok l, set_outbox b s)
                | None => (Ok [], s)
                end);
   ok ← lifecycle_deliver (JStr ch) [(§"text", JStr (strip text))] rc atts;
   if ok : bool then mret tt
   else enqueue_message (reply_failed (jor (default (JStr []) (dget (§"task_id") route)) (JStr [])) (JStr ch) err (strip text))) s.
Proof.
  intros Hs Hc Hch Hnd. destruct (strip text) as [|c t] eqn:Et; [done|].
  unfold deliver. cbn zeta. rewrite Hc, Et. cbn iota. cbn [default from_option id].
  assert (jor (JStr ch) (default (JStr []) (dget (§"type") route)) = JStr ch) as ->.
  { unfold jor. cbn. by rewrite bool_decide_eq_true_2. }
  assert (truthy (JStr ch) = true) as -> by (cbn; by rewrite bool_decide_eq_true_2). cbn [negb].
  assert (one_of NON_DELIVERABLE_CHANNELS (JStr ch) = false) as ->; [|done].
  destruct (one_of _ _) eqn:Eo; [|done]. exfalso. unfold one_of in Eo. apply existsb_exists in Eo as (x & Hx%list_elem_of_In & Hb).
  cbn in Hb. apply bool_decide_eq_true_1 in Hb as ->. done.
Qed.

(** The whole delivery, when sending fails. *)
Lemma deliver_fails err text route ch recipe s : strip text ≠ [] → dget (§"channel") route = Some (JStr ch) →
  reachable ch recipe s → (∀ n p, notify_ok n recipe p = false) →
  ∃ s', deliver err text route s = (Ok tt, s') ∧ sent s' = sent s ∧ config_file s' = config_file s ∧
    outbox s' = match given (§"conv_key") route with Some k => (drain k (outbox s)).2 | None => outbox s end ∧
    _message_queue s' = _message_queue s ++
      [reply_failed (jor (default (JStr []) (dget (§"task_id") route)) (JStr [])) (JStr ch) err (strip text)].
Proof.
  intros Hs Hc Hr Hf. pose proof Hr as (Hch & _ & Hnd & _). rewrite (deliver_start err text route ch s Hs Hc Hch Hnd).
  unfold mbind, M_bind. cbn [gets]. set (rc := reply_context_for route s).
  assert (∃ atts s1, (match given (§"conv_key") route with
      | Some k => let '(l, b) := drain k (outbox s) in (Ok l, set_outbox b s) | None => (Ok [], s) end) = (Ok atts, s1) ∧
    outbox s1 = match given (§"conv_key") route with Some k => (drain k (outbox s)).2 | None => outbox s end ∧
    sent s1 = sent s ∧ _message_queue s1 = _message_queue s ∧ config_file s1 = config_file s)
    as (atts & s1 & -> & O1 & S1 & Q1 & C1).
  { destruct (given _ route) as [k|]; [|by eexists _, _]. destruct (drain k (outbox s)) as [l b]. by eexists _, _. }
  destruct (lifecycle_fails ch recipe rc atts (strip text) s1) as (s2 & -> & O2 & S2 & Q2 & _ & C2).
  { unfold reachable in *. by rewrite C1. }
  { by rewrite strip_strip. }
  { done. }
  destruct (note_queued (jor (default (JStr []) (dget (§"task_id") route)) (JStr [])) ch err (strip text) s2)
    as (s3 & -> & O3 & S3 & C3 & Q3).
  exists s3. split_and!; [done|congruence|congruence|congruence|]. by rewrite Q3, Q2, Q1.
Qed.

(** A reply that cannot be sent loses its files.  When sending over a channel
    fails, nothing is sent, the files that waited in the outbox of the conversation
    are gone from it, and what is put on the queue is the text with the channel and
    without the files or the conversation.  Answering that note, while sending
    keeps failing, puts another on the queue: the list of channels without a way
    out does not stop it. *)
Theorem failed_reply_loses_files err text route k ch recipe s :
  strip text ≠ [] → dget (§"conv_key") route = Some (JStr k) → k ≠ [] → dget (§"channel") route = Some (JStr ch) →
  reachable ch recipe s → dict_wf (outbox s) → (∀ n p, notify_ok n recipe p = false) →
  let note := reply_failed (jor (default (JStr []) (dget (§"task_id") route)) (JStr [])) (JStr ch) err (strip text) in
  let '(r, s') := deliver err text route s in
  r = Ok tt ∧ sent s' = sent s ∧ peek k (outbox s') = [] ∧ _message_queue s' = _message_queue s ++ [note] ∧
  ∀ text', strip text' ≠ [] → ∃ note', _message_queue (deliver err text' note s').2 = _message_queue s' ++ [note'] ∧
    dget (§"channel") note' = Some (JStr ch) ∧ dget (§"type") note' = Some (JStr (§"reply_failed")).
Proof.
  intros Ht Hk Hne Hc Hr Hw Hf. cbn zeta. destruct (deliver_fails err text route ch recipe s Ht Hc Hr Hf) as (s1 & -> & S1 & C1 & O1 & Q1).
  assert (given (§"conv_key") route = Some k) as Hg by (unfold given; rewrite Hk; cbn; by rewrite bool_decide_eq_true_2).
  split_and!; [done|done| |done|].
  - rewrite O1, Hg. unfold peek, drain. destruct (dget (_outbox_path k) (outbox s)) as [x|] eqn:Eb; cbn [snd]; [by rewrite dget_ddel_eq|by rewrite Eb].
  - intros text' Ht'. set (note := reply_failed _ _ _ _).
    destruct (deliver_fails err text' note ch recipe s1 Ht') as (s2 & -> & _ & _ & _ & Q2); [done| |done|].
    { unfold reachable in *. by rewrite C1. }
    eexists. split; [exact Q2|done].
Qed.

(** The parameters a record becomes, for one that leads to a file. *)
Definition as_params rc (d : jdict) : jdict :=
  match _attachment_params d rc with Ok (Some p) => p | _ => [] end.
Definition leads_to_file rc (d : jdict) : Prop := ∃ p, _attachment_params d rc = Ok (Some p).

Lemma notify_sends recipe p s : notify_ok (calls s) recipe p = true → ∃ s', notify recipe p s = (Ok tt, s') ∧
  sent s' = sent s ++ [(recipe, p)] ∧ _message_queue s' = _message_queue s ∧ outbox s' = outbox s.
Proof. intros Hn. unfold notify. rewrite Hn. by eexists. Qed.

Lemma attachments_sent recipe rc ds s : (∀ n p, notify_ok n recipe p = true) → Forall (leads_to_file rc) ds →
  ∃ s', send_attachments recipe rc (map JObj ds) s = (Ok tt, s') ∧
    sent s' = sent s ++ map (λ d, (recipe, as_params rc d)) ds ∧ _message_queue s' = _message_queue s ∧ outbox s' = outbox s.
Proof.
  intros Hn. revert s. induction ds as [|d ds IH]; intros s Hd; cbn [map send_attachments].
  - exists s. by rewrite app_nil_r.
  - apply Forall_cons in Hd as [[p Hp] Hd]. unfold mbind, M_bind. cbn [as_obj lift_res]. rewrite Hp. cbn [lift_res].
    destruct (notify_sends recipe p s) as (s1 & -> & S1 & Q1 & O1); [done|].
    destruct (IH s1 Hd) as (s2 & -> & S2 & Q2 & O2). exists s2. split_and!; [done| |congruence|congruence].
    rewrite S2, S1, <- app_assoc. unfold as_params at 2. by rewrite Hp.
Qed.

Lemma lifecycle_sends ch recipe rc ds text s : reachable ch recipe s → strip text ≠ [] →
  (∀ n p, notify_ok n recipe p = true) → Forall (leads_to_file rc) ds →
  ∃ s' p, lifecycle_deliver (JStr ch) [(§"text", JStr text)] rc (map JObj ds) s = (Ok true, s') ∧
    str_field (§"text") p = text ∧ sent s' = sent s ++ (recipe, p) :: map (λ d, (recipe, as_params rc d)) ds ∧
    _message_queue s' = _message_queue s ∧ outbox s' = outbox s.
Proof.
  intros (Hch & Hcli & Hnd & Hr & Ht) Hs Hn Hd. unfold lifecycle_deliver. cbn [str_is]. rewrite bool_decide_eq_false_2 by done.
  set (params := if truthy rc then _ else _).
  assert (str_field (§"text") params = text) as Hp.
  { unfold params. destruct (truthy rc); [|apply str_field_here]. exact (str_field_here (§"text") text _). }
  unfold try_send, mbind, M_bind. cbn [gets]. rewrite Hr. cbn [lift_res]. rewrite Ht. cbn [negb]. rewrite Hp.
  destruct (strip text) as [|c t]; [done|].
  destruct (notify_sends recipe params s) as (s1 & -> & S1 & Q1 & O1); [done|].
  destruct (attachments_sent recipe rc ds s1 Hn Hd) as (s2 & -> & S2 & Q2 & O2).
  exists s2, params. split_and!; [done|done| |congruence|congruence]. by rewrite S2, S1, <- app_assoc.
Qed.

(** A reply carries every file registered for it.  After any registrations of
    files that exist, a reply in a conversation, when sending works, goes out as
    the text and then every file registered under the file name of that
    conversation, in order, each once; the outbox is then empty and no note of a
    failure is queued. *)
Theorem reply_carries_files err text route k ch recipe s gs :
  strip text ≠ [] → dget (§"conv_key") route = Some (JStr k) → k ≠ [] → dget (§"channel") route = Some (JStr ch) →
  reachable ch recipe s → (∀ n p, notify_ok n recipe p = true) →
  outbox s = foldl register [] gs → Forall (λ g, Forall clean (reg_records g)) gs →
  let rc := reply_context_for route s in
  Forall (leads_to_file rc) (filed k gs) →
  let '(r, s') := deliver err text route s in
  r = Ok tt ∧ _message_queue s' = _message_queue s ∧ peek k (outbox s') = [] ∧
  ∃ p, str_field (§"text") p = strip text ∧
    sent s' = sent s ++ (recipe, p) :: map (λ d, (recipe, as_params rc d)) (filed k gs).
Proof.
  intros Ht Hk Hne Hc (Hch & Hcli & Hnd & Hr & Htr) Hn Ho Hclean rc Hfiles.
  assert (given (§"conv_key") route = Some k) as Hg by (unfold given; rewrite Hk; cbn; by rewrite bool_decide_eq_true_2).
  destruct (registered gs k) as [Hreg Hw]. rewrite <- Ho in Hreg, Hw.
  assert (drain k (outbox s) = (map JObj (filed k gs), (drain k (outbox s)).2) ∧ peek k (drain k (outbox s)).2 = []) as [Hdr Hpk].
  { unfold drain, peek. rewrite Hreg. destruct (filed k gs) as [|d ds] eqn:Ef; cbn [snd]; [by rewrite Hreg|].
    rewrite dget_ddel_eq by done. split; [|done]. f_equal. apply read_written. rewrite <- Ef. unfold filed.
    apply Forall_concat, Forall_fmap. by apply filter_Forall. }
  rewrite (deliver_start err text route ch s Ht Hc Hch Hnd). unfold mbind, M_bind. cbn [gets]. fold rc.
  rewrite Hg, Hdr. cbn iota.
  destruct (lifecycle_sends ch recipe rc (filed k gs) (strip text) (set_outbox (drain k (outbox s)).2 s)) as (s2 & p & -> & P2 & S2 & Q2 & O2).
  { by split_and!. }
  { by rewrite strip_strip. }
  { done. }
  { done. }
  cbn. split_and!; [done|done|by rewrite O2|]. by exists p.
Qed.
End delivery_facts.

(** ** Concrete runs *)
Module ConversationsDemo.
(** A record as [key=value;...]. *)
Definition pairs : JsonLines := {|
  line_dumps d := concat (map (λ kv, kv.1 ++ 61%N :: match kv.2 with JStr s => s | _ => [] end ++ [59%N]) d);
  line_loads s := Some (JObj (omap (λ w, match partition_on 61 w with (k, Some v) => Some (k, JStr v) | _ => None end)
    (split_on 59 s))) |}.
Definition all_there : Files := {| expanduser p := p; resolve p := p; is_dir p := starts_with (§"/d") p;
  exists_at _ := true; make_archive p := Ok (p ++ §".zip") |}.
#[local] Existing Instances ascii_db repr_mark pairs all_there.
Definition never : Notify := λ _ _ _, false.
Definition always : Notify := λ _ _ _, true.
#[local] Existing Instance ascii_alnum.

Lemma conversations_apart_witness :
  let rc := [(§"chat_id", JStr (§"oc_1"))] in let rc' := [(§"chat_id", JStr (§"oc_1")); (§"x", JNull)] in
  derive_conv_key (§"feishu") rc = derive_conv_key (§"feishu") rc'.
Proof.
  cbn zeta. eapply (conversations_apart (§"feishu") [(§"chat_id", JStr (§"oc_1"))]
    (§"feishu") [(§"chat_id", JStr (§"oc_1")); (§"x", JNull)]);
    [vm_compute; reflexivity|vm_compute; reflexivity|reflexivity|reflexivity|reflexivity].
Defined.

(** Two correspondents whose addresses differ in a dot. *)
Definition dotted : pystr := §"email:a.b".
Definition underlined : pystr := §"email:a_b".
Definition one_file : list (pystr * list pystr * list pystr) := [(dotted, [§"/r.png"], [])].

Lemma all_clean : Forall (λ g, Forall clean (reg_records g)) one_file.
Proof.
  apply Forall_singleton, Forall_singleton. split; [|vm_compute; reflexivity|discriminate|vm_compute; reflexivity].
  apply (bool_decide_unpack _). vm_compute. exact I.
Defined.

Lemma outbox_drains_witness :
  (drain underlined (foldl register [] one_file)).1 = [JObj (box_record (§"image") (§"/r.png") dotted)].
Proof.
  pose proof (outbox_drains one_file underlined all_clean) as R. cbn zeta in R.
  destruct (drain underlined (foldl register [] one_file)) as [l b]. destruct R as (-> & _ & _). vm_compute. reflexivity.
Defined.

Definition asked : jdict := [(§"type", JStr (§"user_message")); (§"channel", JStr (§"email")); (§"conv_key", JStr dotted)].
Definition ready : pa := {| outbox := foldl register [] one_file; _reply_context_cache := []; _conv_route_cache := [];
  _message_queue := []; sent := []; calls := 0;
  config_file := Some (JObj [(§"task_ingestion", JObj [(§"channels",
    JArr [JObj [(§"name", JStr (§"email")); (§"notify_recipe", JStr (§"mail"))]])])]) |}.

Lemma ready_reachable : reachable (§"email") (JStr (§"mail")) ready.
Proof. unfold reachable. split_and!; try discriminate; try reflexivity. apply (bool_decide_unpack _). vm_compute. exact I. Defined.

Definition replied (n : Notify) : res unit * pa := deliver (H4 := n) (§"down") (§"hello") asked ready.

Lemma failed_reply_loses_files_witness :
  peek dotted (outbox (replied never).2) = [] ∧ length (_message_queue (replied never).2) = 1.
Proof.
  pose proof (failed_reply_loses_files (H4 := never) (§"down") (§"hello") asked dotted (§"email") (JStr (§"mail")) ready) as R.
  specialize (R ltac:(discriminate) eq_refl ltac:(discriminate) eq_refl ready_reachable
    ltac:(apply (bool_decide_unpack _); vm_compute; exact I) (λ _ _, eq_refl)).
  cbn zeta in R. fold (replied never) in R. destruct (replied never) as [r s'].
  destruct R as (_ & _ & R1 & R2 & _). split; [exact R1|]. cbn [snd]. by rewrite R2.
Defined.

Lemma reply_carries_files_witness : ∃ p,
  sent (replied always).2 = [(JStr (§"mail"), p); (JStr (§"mail"), [(§"image_path", JStr (§"/r.png"))])].
Proof.
  pose proof (reply_carries_files (H4 := always) (§"down") (§"hello") asked dotted (§"email") (JStr (§"mail")) ready one_file) as R.
  specialize (R ltac:(discriminate) eq_refl ltac:(discriminate) eq_refl ready_reachable (λ _ _, eq_refl) eq_refl all_clean).
  cbn zeta in R. specialize (R ltac:(apply Forall_singleton; eexists; vm_compute; reflexivity)).
  fold (replied always) in R. destruct (replied always) as [r s']. destruct R as (_ & _ & _ & p & _ & R).
  exists p. cbn [snd]. rewrite R. vm_compute. reflexivity.
Defined.
End ConversationsDemo.
