(* ===== verification/Dispatch.v ===== *)
(** * Dispatch of messages to conversations

    The queue of server/services/primary_agent_service.py and its loops in
    server/services/primary/dispatcher.py: a router takes messages off the queue
    and deals them out to one queue for each conversation, and a worker for each
    conversation feeds them to its session, one group at a time.  The loops are
    coroutines of one thread: an action is what runs between two awaits. *)

From S2P Require Import Prelude PyStr Json Conversations.
From stdpp Require Import prelude list strings.

(** How feeding a group to its session ends: the turn is over, whatever came of it;
    the group goes back on the queue; or it is given up, when the session does not
    start or the group cannot be put together. *)
Inductive outcome := Fed | Requeued | GivenUp.

(** A worker waits for its queue or feeds a group. *)
Inductive worker := Waiting | Feeding (group : list jdict).

Record dispatch := {
  _message_queue : list jdict;
  (** the message the router has taken before it waits for more *)
  first : option jdict;
  _conv_queues : dict (option pystr) (list (list jdict));
  _conv_workers : dict (option pystr) worker;
  (** what was accepted so far; what was fed and given up, with the conversation *)
  accepted : list jdict;
  fed : list (option pystr * jdict);
  given_up : list (option pystr * jdict);
}.

Inductive action :=
  | Enqueue (m : jdict)
  | Gather
  | Route
  | Take (k : option pystr)
  | Finish (k : option pystr) (o : outcome)
  | Retire (k : option pystr).

Section dispatch.
Context `{PyRepr}.
Implicit Types (s : dispatch) (k : option pystr) (m : jdict).

Definition resolve_thread_id m : option pystr :=
  match given (§"conv_key") m with Some c => Some c | None => given (§"thread_id") m end.

Definition set_msg_thread_id m (tid : option pystr) : jdict :=
  match tid with Some t => dset (§"thread_id") (JStr t) m | None => m end.

(** A message as the router passes it on. *)
Definition stamp m : jdict := set_msg_thread_id m (resolve_thread_id m).

Definition set_inbox (q : list jdict) (f : option jdict) s : dispatch :=
  {| _message_queue := q; first := f; _conv_queues := _conv_queues s; _conv_workers := _conv_workers s;
     accepted := accepted s; fed := fed s; given_up := given_up s |}.
Definition set_convs (q : dict (option pystr) (list (list jdict))) (w : dict (option pystr) worker) s : dispatch :=
  {| _message_queue := _message_queue s; first := first s; _conv_queues := q; _conv_workers := w;
     accepted := accepted s; fed := fed s; given_up := given_up s |}.

(** The part of [enqueue_message] after the gate. *)
Definition enqueue m s : dispatch :=
  {| _message_queue := _message_queue s ++ [m]; first := first s; _conv_queues := _conv_queues s;
     _conv_workers := _conv_workers s; accepted := accepted s ++ [m]; fed := fed s; given_up := given_up s |}.

Definition ensure_conv_worker k s : dispatch :=
  match dget k (_conv_workers s) with
  | Some _ => s
  | None => set_convs (_conv_queues s) (dset k Waiting (_conv_workers s)) s
  end.

(** A queue that is not there yet is empty. *)
Definition queue_of s k : list (list jdict) := default [] (dget k (_conv_queues s)).

(** One round of the router's [for] loop. *)
Definition put_group s (kg : option pystr * list jdict) : dispatch :=
  ensure_conv_worker kg.1 (set_convs (dset kg.1 (queue_of s kg.1 ++ [kg.2]) (_conv_queues s)) (_conv_workers s) s).

(** The router after its pause. *)
Definition route s : dispatch :=
  match first s with
  | None => s
  | Some m =>
      let messages := m :: _message_queue s in
      let grouped := group_by resolve_thread_id messages in
      foldl put_group (set_inbox [] None s) (map (λ kg, (kg.1, map stamp kg.2)) grouped)
  end.

Definition take k s : option dispatch :=
  match dget k (_conv_workers s), dget k (_conv_queues s) with
  | Some Waiting, Some (g :: q) =>
      Some (set_convs (dset k q (_conv_queues s)) (dset k (Feeding g) (_conv_workers s)) s)
  | _, _ => None
  end.

(** The end of [dispatch_group_tmux]. *)
Definition finish k (o : outcome) s : option dispatch :=
  match dget k (_conv_workers s) with
  | Some (Feeding g) =>
      let w := dset k Waiting (_conv_workers s) in
      Some match o with
           | Fed => {| _message_queue := _message_queue s; first := first s; _conv_queues := _conv_queues s;
                       _conv_workers := w; accepted := accepted s; fed := fed s ++ map (pair k) g; given_up := given_up s |}
           | Requeued => set_convs (_conv_queues s) w (set_inbox (_message_queue s ++ g) (first s) s)
           | GivenUp => {| _message_queue := _message_queue s; first := first s; _conv_queues := _conv_queues s;
                           _conv_workers := w; accepted := accepted s; fed := fed s; given_up := given_up s ++ map (pair k) g |}
           end
  | _ => None
  end.

(** A worker that has waited long goes away; its queue stays. *)
Definition retire k s : option dispatch :=
  match dget k (_conv_workers s), queue_of s k with
  | Some Waiting, [] => Some (set_convs (_conv_queues s) (ddel k (_conv_workers s)) s)
  | _, _ => None
  end.

Definition act (a : action) s : option dispatch :=
  match a with
  | Enqueue m => Some (enqueue m s)
  | Gather =>
      match first s, _message_queue s with
      | None, m :: q => Some (set_inbox q (Some m) s)
      | _, _ => None
      end
  | Route => match first s with Some _ => Some (route s) | None => None end
  | Take k => take k s
  | Finish k o => finish k o s
  | Retire k => retire k s
  end.

Fixpoint acts (l : list action) s : option dispatch :=
  match l with [] => Some s | a :: l => s' ← act a s; acts l s' end.

Definition idle_dispatch : dispatch :=
  {| _message_queue := []; first := None; _conv_queues := []; _conv_workers := []; accepted := []; fed := []; given_up := [] |}.

(** ** What a conversation is yet to get *)

Definition feeding s k : list jdict :=
  match dget k (_conv_workers s) with Some (Feeding g) => g | _ => [] end.
Definition arriving s : list jdict := option_list (first s) ++ _message_queue s.
Definition of_key k (l : list jdict) : list jdict := map stamp (filter (λ m, resolve_thread_id m = k) l).
Definition line s k : list jdict := feeding s k ++ concat (queue_of s k) ++ of_key k (arriving s).
Definition got k (l : list (option pystr * jdict)) : list jdict := map snd (filter (λ x, x.1 = k) l).

(** Every queue that holds something has a worker. *)
Record dispatch_ok s : Prop := {
  do_workers : dict_wf (_conv_workers s);
  do_served : ∀ k, queue_of s k ≠ [] → dget k (_conv_workers s) ≠ None;
}.

Lemma got_app k l l' : got k (l ++ l') = got k l ++ got k l'.
Proof. unfold got. by rewrite filter_app, map_app. Qed.
Lemma got_pairs k k' g : got k (map (pair k') g) = if decide (k' = k) then g else [].
Proof.
  unfold got. destruct (decide (k' = k)) as [Hk|Hk]; induction g as [|m g IH]; try done; cbn [map]; rewrite filter_cons; cbn [fst].
  - rewrite decide_True by done. cbn [map snd]. f_equal. exact IH.
  - by rewrite decide_False.
Qed.
Lemma of_key_app k l l' : of_key k (l ++ l') = of_key k l ++ of_key k l'.
Proof. unfold of_key. by rewrite filter_app, map_app. Qed.

Lemma put_group_run s kg : dispatch_ok s → let s' := put_group s kg in dispatch_ok s' ∧
  (∀ k, queue_of s' k = queue_of s k ++ if decide (kg.1 = k) then [kg.2] else []) ∧
  (∀ k, feeding s' k = feeding s k) ∧ arriving s' = arriving s ∧
  accepted s' = accepted s ∧ fed s' = fed s ∧ given_up s' = given_up s.
Proof.
  intros [Hw Hs]. destruct kg as [k0 g]. cbn zeta. unfold put_group. cbn [fst snd].
  set (q' := dset k0 (queue_of s k0 ++ [g]) (_conv_queues s)).
  set (s1 := set_convs q' (_conv_workers s) s).
  assert (∀ k, default [] (dget k q') = queue_of s k ++ if decide (k0 = k) then [g] else []) as Hq.
  { intros k. unfold q'. destruct (decide (k0 = k)) as [<-|Hne]; [by rewrite dget_dset_eq|].
    rewrite dget_dset_ne by done. by rewrite app_nil_r. }
  unfold ensure_conv_worker. change (_conv_workers s1) with (_conv_workers s).
  destruct (dget k0 (_conv_workers s)) as [w|] eqn:Ew.
  - split; [split; [exact Hw|]|by split_and!]. intros k Hk. change (dget k (_conv_workers s) ≠ None).
    destruct (decide (k = k0)) as [->|Hne]; [by rewrite Ew|].
    apply Hs. revert Hk. unfold queue_of at 1. cbn. by rewrite Hq, decide_False, app_nil_r by congruence.
  - split; [split; [by apply dset_wf|]|split_and!; try done].
    + intros k Hk. cbn. destruct (decide (k = k0)) as [->|Hne]; [by rewrite dget_dset_eq|]. rewrite dget_dset_ne by done.
      apply Hs. revert Hk. unfold queue_of at 1. cbn. by rewrite Hq, decide_False, app_nil_r by congruence.
    + intros k. unfold feeding. cbn. destruct (decide (k = k0)) as [->|Hne]; [by rewrite dget_dset_eq, Ew|].
      by rewrite dget_dset_ne.
Qed.

Lemma put_groups_run l s : dispatch_ok s → NoDup (dkeys l) → let s' := foldl put_group s l in dispatch_ok s' ∧
  (∀ k, queue_of s' k = queue_of s k ++ option_list (dget k l)) ∧
  (∀ k, feeding s' k = feeding s k) ∧ arriving s' = arriving s ∧
  accepted s' = accepted s ∧ fed s' = fed s ∧ given_up s' = given_up s.
Proof.
  revert s. induction l as [|[k0 g] l IH]; intros s Hs Hn; cbn [foldl].
  - split_and!; try done. intros k. by rewrite app_nil_r.
  - apply NoDup_cons in Hn as [Hk Hn]. destruct (put_group_run s (k0, g) Hs) as (P1 & P2 & P3 & P4 & P5 & P6 & P7).
    destruct (IH _ P1 Hn) as (I1 & I2 & I3 & I4 & I5 & I6 & I7). split_and!; try congruence; try done.
    + intros k. rewrite I2, P2, <- app_assoc. cbn [fst snd dget]. f_equal. destruct (decide (k = k0)) as [->|Hne].
      * rewrite decide_True by done. assert (dget k0 l = None) as -> by by apply dget_None. done.
      * by rewrite decide_False by congruence.
Qed.

(** Routing moves every message that has arrived to the end of its conversation. *)
Lemma route_run s m : dispatch_ok s → first s = Some m → let s' := route s in dispatch_ok s' ∧
  (∀ k, line s' k = line s k) ∧ (∀ k, feeding s' k = feeding s k) ∧ arriving s' = [] ∧
  (∀ k, concat (queue_of s' k) = concat (queue_of s k) ++ of_key k (arriving s)) ∧
  accepted s' = accepted s ∧ fed s' = fed s ∧ given_up s' = given_up s.
Proof.
  intros Hs Hf. unfold route. rewrite Hf. set (s0 := set_inbox [] None s).
  set (l := map _ (group_by resolve_thread_id (m :: _message_queue s))).
  assert (dispatch_ok s0) as Hs0 by by destruct Hs.
  assert (dkeys l = dkeys (group_by resolve_thread_id (m :: _message_queue s))) as Hkeys.
  { unfold l, dkeys. rewrite <- list_fmap_compose. done. }
  destruct (put_groups_run l s0 Hs0) as (P1 & P2 & P3 & P4 & P5 & P6 & P7); [rewrite Hkeys; apply group_by_wf|].
  assert (∀ k, concat (queue_of (foldl put_group s0 l) k) = concat (queue_of s k) ++ of_key k (arriving s)) as Hq.
  { intros k. rewrite P2, concat_app. f_equal.
    assert (dget k l = map stamp <$> dget k (group_by resolve_thread_id (m :: _message_queue s))) as ->.
    { unfold l. clear. induction (group_by _ _) as [|[k0 g] d IH]; cbn; [done|]. by case_decide. }
    rewrite group_by_get. unfold of_key, arriving. rewrite Hf. cbn [option_list app].
    destruct (filter _ _) as [|x xs]; [done|]. exact (app_nil_r _). }
  split_and!; try done. intros k. unfold line. rewrite P3, Hq, P4.
  change (of_key k (arriving s0)) with (@nil jdict). by rewrite app_nil_r.
Qed.
(** *** Every action *)

(** A worker changes between waiting and feeding. *)
Lemma worker_set s k w q : dispatch_ok s → dget k (_conv_workers s) ≠ None →
  dispatch_ok (set_convs (dset k q (_conv_queues s)) (dset k w (_conv_workers s)) s).
Proof.
  intros [Hw Hs] Hk. split; [by apply dset_wf|]. intros k' Hq. cbn. destruct (decide (k' = k)) as [->|Hne].
  - by rewrite dget_dset_eq.
  - rewrite dget_dset_ne by done. apply Hs. revert Hq. unfold queue_of. cbn. by rewrite dget_dset_ne.
Qed.

Lemma take_run s k s' : dispatch_ok s → take k s = Some s' → dispatch_ok s' ∧
  (∀ k', line s' k' = line s k') ∧ accepted s' = accepted s ∧ fed s' = fed s ∧ given_up s' = given_up s.
Proof.
  intros Hs. unfold take. destruct (dget k (_conv_workers s)) as [[|g0]|] eqn:Ew; try done.
  destruct (dget k (_conv_queues s)) as [[|g q]|] eqn:Eq; try done. intros [= <-].
  split_and!; try done; [apply worker_set; [done|by rewrite Ew]|]. intros k'. unfold line, feeding, queue_of. cbn.
  destruct (decide (k' = k)) as [->|Hne]; [|by rewrite !dget_dset_ne].
  rewrite !dget_dset_eq, Ew, Eq. cbn. by rewrite <- app_assoc.
Qed.

(** The conversation whose group is done, and the others. *)
Lemma finish_run s k o s' : dispatch_ok s → finish k o s = Some s' → ∃ g, dget k (_conv_workers s) = Some (Feeding g) ∧
  dispatch_ok s' ∧ accepted s' = accepted s ∧ first s' = first s ∧ _conv_queues s' = _conv_queues s ∧
  (∀ k', feeding s' k' = if decide (k' = k) then [] else feeding s k') ∧
  fed s' = fed s ++ match o with Fed => map (pair k) g | _ => [] end ∧
  given_up s' = given_up s ++ match o with GivenUp => map (pair k) g | _ => [] end ∧
  _message_queue s' = _message_queue s ++ match o with Requeued => g | _ => [] end.
Proof.
  intros [Hw Hs]. unfold finish. destruct (dget k (_conv_workers s)) as [[|g]|] eqn:Ew; try done. intros [= Hs']. exists g.
  assert (_conv_workers s' = dset k Waiting (_conv_workers s) ∧ _conv_queues s' = _conv_queues s) as [W Q] by (destruct o; by subst).
  split_and!; [done| |by destruct o; subst|by destruct o; subst|done| |by destruct o; subst; rewrite ?app_nil_r..].
  - split; [rewrite W; by apply dset_wf|]. intros k'. unfold queue_of. rewrite Q, W. intros Hq.
    destruct (decide (k' = k)) as [->|Hne]; [by rewrite dget_dset_eq|]. rewrite dget_dset_ne by done. by apply Hs.
  - intros k'. unfold feeding. rewrite W. destruct (decide (k' = k)) as [->|Hne]; [by rewrite dget_dset_eq|by rewrite dget_dset_ne].
Qed.

Lemma retire_run s k s' : dispatch_ok s → retire k s = Some s' → dispatch_ok s' ∧
  (∀ k', line s' k' = line s k') ∧ accepted s' = accepted s ∧ fed s' = fed s ∧ given_up s' = given_up s.
Proof.
  intros [Hw Hs]. unfold retire. destruct (dget k (_conv_workers s)) as [[|g]|] eqn:Ew; try done.
  destruct (queue_of s k) eqn:Eq; try done. intros [= <-]. split_and!; try done.
  - split; [by apply ddel_wf|]. intros k' Hq. cbn. destruct (decide (k' = k)) as [->|Hne]; [done|].
    rewrite dget_ddel_ne by done. by apply Hs.
  - intros k'. unfold line, feeding. cbn. destruct (decide (k' = k)) as [->|Hne]; [by rewrite dget_ddel_eq, Ew by done|].
    by rewrite dget_ddel_ne.
Qed.

(** What an action adds to a conversation. *)
Definition added (a : action) : list jdict := match a with Enqueue m => [m] | _ => [] end.

(** Every action but a failure keeps the order of a conversation, what was fed to
    it first. *)
Lemma act_line a s s' : dispatch_ok s → act a s = Some s' → dispatch_ok s' ∧ accepted s' = accepted s ++ added a ∧
  (∀ k, match a with Finish _ Requeued | Finish _ GivenUp => True | _ =>
    got k (given_up s') = got k (given_up s) ∧
    got k (fed s') ++ line s' k = (got k (fed s) ++ line s k) ++ of_key k (added a) end).
Proof.
  intros Hs. destruct a as [m| | |k0|k0 o|k0]; cbn [act added].
  - intros [= <-]. split; [by destruct Hs|]. split; [done|]. intros k. split; [done|]. cbn [enqueue fed].
    unfold line. change (feeding (enqueue m s) k) with (feeding s k). change (queue_of (enqueue m s) k) with (queue_of s k).
    assert (arriving (enqueue m s) = arriving s ++ [m]) as ->; [|by rewrite of_key_app, !app_assoc].
    unfold arriving. cbn. by rewrite app_assoc.
  - destruct (first s) eqn:Ef; [done|]. destruct (_message_queue s) as [|m q] eqn:Eq; [done|]. intros [= <-].
    split; [by destruct Hs|]. cbn. rewrite !app_nil_r. split; [done|]. intros k. split; [done|]. rewrite app_nil_r. f_equal.
    unfold line. do 2 f_equal. unfold arriving. cbn. by rewrite Ef, Eq.
  - destruct (first s) as [m|] eqn:Ef; [|done]. intros [= <-].
    destruct (route_run s m Hs Ef) as (R1 & R2 & _ & _ & _ & R6 & R7 & R8). rewrite R6, app_nil_r.
    split_and!; [done|done|]. intros k. rewrite R7, R8, R2. cbn. by rewrite app_nil_r.
  - intros Ht. destruct (take_run s k0 s' Hs Ht) as (T1 & T2 & T3 & T4 & T5). rewrite T3, T4, T5, app_nil_r.
    split_and!; [done|done|]. intros k. rewrite T2. cbn. by rewrite app_nil_r.
  - intros Hf. destruct (finish_run s k0 o s' Hs Hf) as (g & G & F1 & F2 & F3 & F4 & F5 & F6 & F7 & F8).
    split; [done|]. rewrite app_nil_r. split; [done|]. intros k. destruct o; try done.
    rewrite F6, F7, !app_nil_r. split; [done|]. rewrite got_app, got_pairs. unfold line, queue_of, arriving. rewrite F3, F4, F5, F8, !app_nil_r.
    destruct (decide (k0 = k)) as [->|Hne]; [|by rewrite decide_False, app_nil_r by congruence].
    rewrite decide_True by done. unfold feeding. rewrite G. cbn. by rewrite <- !app_assoc.
  - intros Ht. destruct (retire_run s k0 s' Hs Ht) as (T1 & T2 & T3 & T4 & T5). rewrite T3, T4, T5, app_nil_r.
    split_and!; [done|done|]. intros k. rewrite T2. cbn. by rewrite app_nil_r.
Qed.

Lemma acts_app l l' s : acts (l ++ l') s = s' ← acts l s; acts l' s'.
Proof.
  revert s. induction l as [|a l IH]; intros s; cbn; [done|]. destruct (act a s) as [s1|]; cbn; [apply IH|done].
Qed.

Definition smooth (a : action) : bool := match a with Finish _ Requeued | Finish _ GivenUp => false | _ => true end.

Lemma acts_line l s s' : dispatch_ok s → acts l s = Some s' → dispatch_ok s' ∧
  (forallb smooth l = true → ∃ new, accepted s' = accepted s ++ new ∧
    ∀ k, got k (fed s') ++ line s' k = (got k (fed s) ++ line s k) ++ of_key k new).
Proof.
  revert s. induction l as [|a l IH]; intros s Hs; cbn [acts forallb].
  - intros [= <-]. split; [done|]. intros _. exists []. rewrite app_nil_r. split; [done|]. intros k. by rewrite app_nil_r.
  - destruct (act a s) as [s1|] eqn:Ea; [|done]. cbn. intros Hl.
    destruct (act_line a s s1 Hs Ea) as (A1 & A2 & A3). destruct (IH s1 A1 Hl) as [I1 I2]. split; [done|].
    intros [Ha Hsm]%andb_prop. destruct (I2 Hsm) as (new & E & Hn). exists (added a ++ new). rewrite E, A2, <- app_assoc.
    split; [done|]. intros k. rewrite Hn, of_key_app, app_assoc. f_equal. specialize (A3 k). destruct a as [| | | |? []|]; naive_solver.
Qed.

(** C11. Each conversation is answered in order.  Whatever the order in which the
    router and the workers run, and however the messages of conversations are
    mixed, as long as no turn fails: what has been fed to a conversation, then what
    its worker feeds, what waits in its queue, and what has arrived and is not yet
    dealt out, are the accepted messages of that conversation, each once, in the
    order they were accepted; and a queue that holds something has a worker. *)
Theorem conversation_in_order l s : acts l idle_dispatch = Some s → forallb smooth l = true →
  (∀ k, got k (fed s) ++ feeding s k ++ concat (queue_of s k) ++ of_key k (arriving s) = of_key k (accepted s)) ∧
  (∀ k, queue_of s k ≠ [] → dget k (_conv_workers s) ≠ None).
Proof.
  intros Hl Hsm. destruct (acts_line l idle_dispatch s) as [Hs Hn]; [split; [apply NoDup_nil_2|done]|done|].
  split; [|apply Hs]. destruct (Hn Hsm) as (new & E & Hk). intros k. specialize (Hk k). unfold line in Hk. rewrite Hk, E. done.
Qed.

(** ** Nothing is lost *)

(** What Python prints for a value is never empty. *)
Section conservation.
Context (repr_some : ∀ v, py_repr v ≠ []).

Lemma given_some c m t : given c m = Some t → t ≠ [].
Proof using repr_some.
  unfold given. destruct (dget c m) as [v|]; [|done]. destruct (truthy v) eqn:Ev; [|done]. intros [= <-].
  destruct v; try apply repr_some. cbn in *. by apply bool_decide_eq_true_1 in Ev.
Qed.

Lemma stamp_stable m : resolve_thread_id (stamp m) = resolve_thread_id m ∧ stamp (stamp m) = stamp m.
Proof using repr_some.
  assert (resolve_thread_id (stamp m) = resolve_thread_id m) as Hr.
  { unfold stamp. destruct (resolve_thread_id m) as [t|] eqn:Er; [|done]. cbn [set_msg_thread_id].
    unfold resolve_thread_id in *. unfold given at 1. rewrite dget_dset_ne by done. fold (given (§"conv_key") m).
    destruct (given (§"conv_key") m) as [c|]; [done|]. apply given_some in Er.
    unfold given. rewrite dget_dset_eq. cbn. by rewrite bool_decide_eq_true_2. }
  split; [done|]. unfold stamp at 1. rewrite Hr. unfold stamp. destruct (resolve_thread_id m); [|done].
  cbn. apply dset_dset.
Qed.

(** A message dealt out to a conversation is one of it. *)
Definition mine k m : Prop := resolve_thread_id m = k ∧ stamp m = m.
Definition dealt s : Prop := ∀ k, Forall (mine k) (feeding s k ++ concat (queue_of s k)).

Lemma of_key_mine k l : Forall (mine k) (of_key k l).
Proof using repr_some.
  unfold of_key. apply Forall_fmap, Forall_forall. intros m [Hk _]%list_elem_of_filter.
  destruct (stamp_stable m) as [S1 S2]. split; [by rewrite S1|done].
Qed.

Lemma of_key_dealt k k' g : Forall (mine k) g → of_key k' g = if decide (k = k') then g else [].
Proof.
  unfold of_key. induction 1 as [|m g [Hk Hm] _ IH]; [by case_decide|]. rewrite filter_cons.
  destruct (decide (k = k')) as [<-|Hne].
  - rewrite decide_True by done. cbn [map]. by rewrite Hm, IH.
  - rewrite decide_False by congruence. done.
Qed.

Lemma dealt_act a s s' : dispatch_ok s → dealt s → act a s = Some s' → dealt s'.
Proof using repr_some.
  intros Hs Hd. destruct a as [m| | |k0|k0 o|k0]; cbn [act].
  - intros [= <-]. exact Hd.
  - destruct (first s); [done|]. destruct (_message_queue s); [done|]. intros [= <-]. exact Hd.
  - destruct (first s) as [m|] eqn:Ef; [|done]. intros [= <-] k.
    destruct (route_run s m Hs Ef) as (_ & _ & R3 & _ & R5 & _). rewrite R3, R5, app_assoc. apply Forall_app.
    split; [apply Hd|apply of_key_mine].
  - intros Ht k. revert Ht. unfold take. destruct (dget k0 (_conv_workers s)) as [[|g0]|] eqn:Ew; try done.
    destruct (dget k0 (_conv_queues s)) as [[|g q]|] eqn:Eq; try done. intros [= <-]. specialize (Hd k). revert Hd.
    unfold feeding, queue_of. cbn. destruct (decide (k = k0)) as [->|Hne]; [|by rewrite !dget_dset_ne].
    by rewrite !dget_dset_eq, Ew, Eq.
  - intros Hf k. destruct (finish_run s k0 o s' Hs Hf) as (g & _ & _ & _ & _ & F4 & F5 & _).
    unfold queue_of. rewrite F4, F5. specialize (Hd k). apply Forall_app in Hd as [D1 D2]. apply Forall_app. split; [by case_decide|done].
  - intros Hr k. revert Hr. unfold retire. destruct (dget k0 (_conv_workers s)) as [[|g]|] eqn:Ew; try done.
    destruct (queue_of s k0); try done. intros [= <-]. specialize (Hd k). revert Hd. unfold feeding, queue_of. cbn.
    destruct (decide (k = k0)) as [->|Hne]; [|by rewrite dget_ddel_ne]. rewrite Ew, dget_ddel_eq; [done|apply Hs].
Qed.

(** Where the messages of a conversation are. *)
Definition whereabouts s k : list jdict := got k (fed s) ++ got k (given_up s) ++ line s k.

Lemma act_keeps a s s' k : dispatch_ok s → dealt s → act a s = Some s' →
  whereabouts s' k ≡ₚ whereabouts s k ++ of_key k (added a).
Proof using repr_some.
  intros Hs Hd Ha. destruct (act_line a s s' Hs Ha) as (_ & _ & Hl). specialize (Hl k). unfold whereabouts.
  assert (smooth a = true ∨ ∃ k0 o, a = Finish k0 o ∧ o ≠ Fed) as [Hsm|(k0 & o & -> & Ho)].
  { destruct a as [| | | |k0 [| |]|]; try (by left); right; by eexists _, _. }
  - assert (got k (given_up s') = got k (given_up s) ∧
      got k (fed s') ++ line s' k = (got k (fed s) ++ line s k) ++ of_key k (added a)) as [-> E]
      by (destruct a as [| | | |? []|]; done).
    rewrite (Permutation_app_comm (got k (given_up s)) (line s' k)), app_assoc, E.
    rewrite <- !app_assoc. f_equiv. rewrite app_assoc. rewrite (Permutation_app_comm (line s k ++ _)).
    done.
  - cbn [act] in Ha. destruct (finish_run s k0 o s' Hs Ha) as (g & G & _ & _ & F3 & F4 & F5 & F6 & F7 & F8).
    assert (Forall (mine k0) g) as Hg.
    { specialize (Hd k0). unfold feeding in Hd. rewrite G in Hd. by apply Forall_app in Hd as [? _]. }
    cbn [added]. rewrite app_nil_r. unfold line, queue_of, arriving. rewrite F3, F4, F5, F6, F7, F8, !got_app.
    unfold feeding at 2. destruct o; [done| |].
    + rewrite !app_nil_r, (app_assoc (option_list _)), (of_key_app k _ g), (of_key_dealt k0 k g Hg).
      destruct (decide (k0 = k)) as [->|Hne].
      * rewrite decide_True, G by done. cbn [app]. do 2 f_equiv. rewrite app_assoc. apply Permutation_app_comm.
      * rewrite decide_False by congruence. by rewrite app_nil_r.
    + rewrite got_pairs, !app_nil_r. f_equiv. destruct (decide (k0 = k)) as [->|Hne].
      * rewrite decide_True, G by done. by rewrite <- app_assoc.
      * rewrite decide_False by congruence. by rewrite app_nil_r.
Qed.

(** C12. No message is lost.  Whatever happens, turns that fail included: every
    message that was accepted has been fed to its conversation, or been given up, or
    is on its way there, each just once. *)
Theorem no_message_lost l s k : acts l idle_dispatch = Some s →
  got k (fed s) ++ got k (given_up s) ++ feeding s k ++ concat (queue_of s k) ++ of_key k (arriving s)
    ≡ₚ of_key k (accepted s).
Proof using repr_some.
  assert (∀ s0, dispatch_ok s0 → dealt s0 → ∀ s, acts l s0 = Some s → ∃ new, accepted s = accepted s0 ++ new ∧
    whereabouts s k ≡ₚ whereabouts s0 k ++ of_key k new) as Hrun.
  { clear s. induction l as [|a l IH]; intros s0 H0 D0 s; cbn [acts].
    - intros [= <-]. exists []. by rewrite !app_nil_r.
    - destruct (act a s0) as [s1|] eqn:Ea; [|done]. cbn. intros Hl. destruct (act_line a s0 s1 H0 Ea) as (A1 & A2 & _).
      destruct (IH s1 A1 (dealt_act a s0 s1 H0 D0 Ea) s Hl) as (new & E & Hn). exists (added a ++ new).
      rewrite E, A2, of_key_app, <- app_assoc. split; [done|]. rewrite Hn, (act_keeps a s0 s1 k H0 D0 Ea). by rewrite <- app_assoc. }
  intros Hl. destruct (Hrun idle_dispatch) with (s := s) as (new & E & Hn); [split; [apply NoDup_nil_2|done]|by intros k'|done|].
  unfold whereabouts, line in Hn. rewrite Hn, E. done.
Qed.
End conservation.

(** ** Every message gets through *)

(** The actions of the router and the workers, when turns do not fail. *)
Definition internal (a : action) : bool :=
  match a with Gather | Route | Take _ | Finish _ Fed | Retire _ => true | _ => false end.

Definition effort (w : worker) : nat := match w with Waiting => 1 | Feeding _ => 2 end.
Definition work s : nat :=
  5 * length (_message_queue s) + match first s with Some _ => 4 | None => 0 end +
  dsum (λ q, 2 * length q) (_conv_queues s) + dsum effort (_conv_workers s).

Lemma put_group_work s kg : work (put_group s kg) ≤ work s + 3.
Proof.
  unfold put_group, ensure_conv_worker. cbn [_conv_workers set_convs].
  pose proof (dsum_dset (λ q, 2 * length q) kg.1 (queue_of s kg.1 ++ [kg.2]) (_conv_queues s)) as Hq.
  assert (match dget kg.1 (_conv_queues s) with Some o => 2 * length o | None => 0 end = 2 * length (queue_of s kg.1)) as Ho.
  { unfold queue_of. by destruct (dget kg.1 (_conv_queues s)). }
  cbn beta in Hq. rewrite length_app in Hq. cbn [length] in Hq.
  destruct (dget kg.1 (_conv_workers s)) as [w|] eqn:Ew; unfold work; cbn [_message_queue first _conv_queues _conv_workers set_convs]; [lia|].
  pose proof (dsum_dset effort kg.1 Waiting (_conv_workers s)) as Hw. rewrite Ew in Hw. cbn [effort] in Hw. lia.
Qed.

Lemma put_groups_work l s : work (foldl put_group s l) ≤ work s + 3 * length l.
Proof.
  revert s. induction l as [|kg l IH]; intros s; cbn [foldl length]; [lia|].
  pose proof (IH (put_group s kg)). pose proof (put_group_work s kg). lia.
Qed.

Lemma internal_works a s s' : internal a = true → act a s = Some s' → work s' < work s.
Proof.
  destruct a as [m| | |k|k [| |]|k]; try done; intros _; cbn [act].
  - destruct (first s) eqn:Ef; [done|]. destruct (_message_queue s) as [|m q] eqn:Eq; [done|]. intros [= <-].
    unfold work. cbn [_message_queue first _conv_queues _conv_workers set_inbox]. rewrite Ef, Eq. cbn [length option_list]. lia.
  - destruct (first s) as [m|] eqn:Ef; [|done]. intros [= <-]. unfold route. rewrite Ef.
    set (l := map _ _). pose proof (put_groups_work l (set_inbox [] None s)) as Hp.
    assert (length l ≤ S (length (_message_queue s))) as Hl.
    { unfold l. rewrite length_map. exact (group_by_length resolve_thread_id (m :: _message_queue s)). }
    unfold work in *. cbn [_message_queue first _conv_queues _conv_workers set_inbox length option_list] in *. rewrite Ef. cbn [length option_list]. lia.
  - unfold take. destruct (dget k (_conv_workers s)) as [[|g0]|] eqn:Ew; try done.
    destruct (dget k (_conv_queues s)) as [[|g q]|] eqn:Eq; try done. intros [= <-].
    pose proof (dsum_dset (λ q, 2 * length q) k q (_conv_queues s)) as Hq. rewrite Eq in Hq.
    pose proof (dsum_dset effort k (Feeding g) (_conv_workers s)) as Hw. rewrite Ew in Hw.
    unfold work. cbn [_message_queue first _conv_queues _conv_workers set_convs effort length] in *. lia.
  - unfold finish. destruct (dget k (_conv_workers s)) as [[|g]|] eqn:Ew; try done. intros [= <-].
    pose proof (dsum_dset effort k Waiting (_conv_workers s)) as Hw. rewrite Ew in Hw. unfold work.
    cbn [_message_queue first _conv_queues _conv_workers effort] in *. lia.
  - unfold retire. destruct (dget k (_conv_workers s)) as [[|g]|] eqn:Ew; try done.
    destruct (queue_of s k); try done. intros [= <-]. pose proof (dsum_ddel effort k Waiting (_conv_workers s) Ew) as Hw.
    unfold work. cbn [_message_queue first _conv_queues _conv_workers set_convs effort] in *. lia.
Qed.

(** Something to do while a message is on its way. *)
Definition next_action s : option action :=
  match first s, _message_queue s with
  | Some _, _ => Some Route
  | None, _ :: _ => Some Gather
  | None, [] =>
      match List.find (λ k, match dget k (_conv_workers s) with Some (Feeding _) => true | _ => false end)
              (dkeys (_conv_workers s)) with
      | Some k => Some (Finish k Fed)
      | None => Take <$> List.find (λ k, bool_decide (queue_of s k ≠ [])) (dkeys (_conv_queues s))
      end
  end.

Lemma dget_in_keys {K V} `{EqDecision K} (k : K) (d : dict K V) v : dget k d = Some v → In k (dkeys d).
Proof. intros Hd%dget_Some_elem. apply list_elem_of_In. by apply (list_elem_of_fmap_2 fst _ (k, v)). Qed.

Lemma next_action_possible s a : dispatch_ok s → next_action s = Some a → internal a = true ∧ ∃ s', act a s = Some s'.
Proof.
  intros Hs. unfold next_action. destruct (first s) as [m|] eqn:Ef; [intros [= <-]; cbn; rewrite Ef; by eauto|].
  destruct (_message_queue s) as [|m q] eqn:Eq; [|intros [= <-]; cbn; rewrite Ef, Eq; by eauto].
  destruct (List.find _ (dkeys (_conv_workers s))) as [k|] eqn:Ew.
  - apply find_some in Ew as [_ Hk]. intros [= <-]. cbn. unfold finish.
    destruct (dget k (_conv_workers s)) as [[|g]|]; try done. by eauto.
  - destruct (List.find _ (dkeys (_conv_queues s))) as [k|] eqn:Ek; [|done]. intros [= <-].
    apply find_some in Ek as [_ Hk%bool_decide_eq_true_1]. pose proof (do_served _ Hs k Hk) as Hserved.
    cbn. unfold take. destruct (dget k (_conv_workers s)) as [[|g]|] eqn:Eg; [| |done].
    + unfold queue_of in Hk. destruct (dget k (_conv_queues s)) as [[|g q]|]; try done. by eauto.
    + exfalso. apply dget_in_keys in Eg as Hin. apply (find_none _ _ Ew) in Hin. by rewrite Eg in Hin.
Qed.

Lemma next_action_none s k : next_action s = None → line s k = [].
Proof.
  unfold next_action. destruct (first s) as [m|] eqn:Ef; [done|]. destruct (_message_queue s) as [|m q] eqn:Eq; [|done].
  destruct (List.find _ (dkeys (_conv_workers s))) as [?|] eqn:Ew; [done|].
  destruct (List.find _ (dkeys (_conv_queues s))) as [?|] eqn:Ek; [done|]. intros _.
  unfold line, arriving. rewrite Ef, Eq. change (of_key k (option_list None ++ [])) with (@nil jdict). rewrite app_nil_r.
  assert (feeding s k = []) as ->.
  { unfold feeding. destruct (dget k (_conv_workers s)) as [[|g]|] eqn:Eg; try done. exfalso.
    apply dget_in_keys in Eg as Hin. apply (find_none _ _ Ew) in Hin. by rewrite Eg in Hin. }
  destruct (queue_of s k) as [|g q] eqn:Eg; [done|]. exfalso. unfold queue_of in Eg.
  destruct (dget k (_conv_queues s)) as [q'|] eqn:Ed; [|done]. apply dget_in_keys in Ed as Hin. apply (find_none _ _ Ek) in Hin.
  unfold queue_of in Hin. rewrite Ed in Hin. cbn in *. subst. done.
Qed.

Lemma internal_acts l s s' : forallb internal l = true → acts l s = Some s' →
  length l + work s' ≤ work s ∧ forallb smooth l = true ∧ accepted s' = accepted s.
Proof.
  revert s. induction l as [|a l IH]; intros s; cbn [acts forallb length]; [by intros _ [= <-]|].
  intros [Ha Hl]%andb_prop. destruct (act a s) as [s1|] eqn:Ea; [|done]. cbn [mbind option_bind]. intros Hs.
  destruct (IH s1 Hl Hs) as (I1 & I2 & I3). pose proof (internal_works a s s1 Ha Ea).
  split; [cbn [length]; lia|]. split; [by destruct a as [| | | |? []|]|]. rewrite I3.
  destruct a as [m| | |k|k [| |]|k]; try done; cbn [act] in Ea.
  - destruct (first s); [done|]. destruct (_message_queue s); [done|]. by injection Ea as <-.
  - destruct (first s) as [m|] eqn:Ef; [|done]. injection Ea as <-. unfold route. rewrite Ef.
    generalize (map (λ kg, (kg.1, map stamp kg.2)) (group_by resolve_thread_id (m :: _message_queue s))). intros gs.
    assert (∀ x, accepted (foldl put_group x gs) = accepted x) as ->; [|done].
    induction gs as [|kg gs IHg]; intros x; cbn; [done|]. rewrite IHg. unfold put_group, ensure_conv_worker. by case_match.
  - unfold take in Ea. repeat case_match; try done. by injection Ea as <-.
  - unfold finish in Ea. repeat case_match; try done. by injection Ea as <-.
  - unfold retire in Ea. repeat case_match; try done. by injection Ea as <-.
Qed.

(** C13. Every message gets through.  Let any messages have been accepted and dealt
    out in part, without a failing turn.  From then on the router and the workers
    take only so many steps, in whatever order they run; when none of them can go
    on, every message has been fed to its conversation, in order; and such an end
    is reached. *)
Theorem messages_get_through l s : acts l idle_dispatch = Some s → forallb smooth l = true →
  (∀ l' s', forallb internal l' = true → acts l' s = Some s' → length l' ≤ work s ∧
     ((∀ a, internal a = true → act a s' = None) → ∀ k, got k (fed s') = of_key k (accepted s))) ∧
  ∃ l' s', forallb internal l' = true ∧ acts l' s = Some s' ∧ ∀ k, got k (fed s') = of_key k (accepted s).
Proof.
  intros Hl Hsm. destruct (acts_line l idle_dispatch s) as [Hs Hn]; [split; [apply NoDup_nil_2|done]|done|].
  destruct (Hn Hsm) as (new & E & Hk). cbn in E. subst new. cbn in Hk.
  assert (∀ l' s', forallb internal l' = true → acts l' s = Some s' → dispatch_ok s' ∧
    ∀ k, got k (fed s') ++ line s' k = of_key k (accepted s)) as Hend.
  { intros l' s' Hi Ha. destruct (internal_acts l' s s' Hi Ha) as (_ & Hsm' & Hacc).
    destruct (acts_line l' s s' Hs Ha) as [Hs' Hn']. split; [done|]. destruct (Hn' Hsm') as (new & E & Hk'). intros k.
    rewrite Hk', Hk. assert (new = []) as ->; [|by rewrite app_nil_r]. rewrite Hacc in E. apply (f_equal length) in E.
    rewrite length_app in E. destruct new; [done|cbn in E; lia]. }
  assert (∀ l' s', forallb internal l' = true → acts l' s = Some s' → (∀ a, internal a = true → act a s' = None) →
    ∀ k, got k (fed s') = of_key k (accepted s)) as Hstuck.
  { intros l' s' Hi Ha Hno k. destruct (Hend l' s' Hi Ha) as [Hs' Hline]. rewrite <- Hline.
    rewrite next_action_none; [by rewrite app_nil_r|]. destruct (next_action s') as [a|] eqn:En; [|done].
    destruct (next_action_possible s' a Hs' En) as (Ha2 & s2 & E2). by rewrite Hno in E2. }
  split.
  - intros l' s' Hi Ha. destruct (internal_acts l' s s' Hi Ha) as [Hw _]. split; [lia|]. by apply (Hstuck l').
  - assert (∀ n l' s', work s' < n → forallb internal l' = true → acts l' s = Some s' →
      ∃ l2 s2, forallb internal l2 = true ∧ acts l2 s = Some s2 ∧ next_action s2 = None) as Hex.
    { induction n as [|n IH]; intros l' s' Hw Hi Ha; [lia|]. destruct (next_action s') as [a|] eqn:En; [|by eauto].
      destruct (Hend l' s' Hi Ha) as [Hs' _]. destruct (next_action_possible s' a Hs' En) as (Ha2 & s2 & E2).
      pose proof (internal_works a s' s2 Ha2 E2). apply (IH (l' ++ [a]) s2); [lia|by rewrite forallb_app, Hi; cbn; rewrite Ha2|].
      rewrite acts_app, Ha. cbn. by rewrite E2. }
    destruct (Hex (S (work s)) [] s) as (l2 & s2 & Hi2 & Ha2 & En2); [lia|done|done|]. exists l2, s2. split_and!; [done|done|].
    intros k. destruct (Hend l2 s2 Hi2 Ha2) as [_ Hline]. rewrite <- Hline, (next_action_none s2 k En2). by rewrite app_nil_r.
Qed.
End dispatch.

(** ** Concrete runs *)
Module DispatchDemo.
#[local] Existing Instance repr_mark.

Definition msg (c t : pystr) : jdict := [(§"conv_key", JStr c); (§"prompt", JStr t)].
Definition conv : option pystr := Some (§"feishu:a").

(** Two conversations, the second message of one arriving while the first is fed. *)
Definition mixed : list action :=
  [Enqueue (msg (§"feishu:a") (§"1")); Enqueue (msg (§"feishu:b") (§"2")); Gather; Route; Take conv;
   Enqueue (msg (§"feishu:a") (§"3")); Gather; Route; Finish conv Fed].
Definition after_mixed : dispatch := default idle_dispatch (acts mixed idle_dispatch).

Lemma conversation_in_order_witness :
  got conv (fed after_mixed) ++ feeding after_mixed conv ++ concat (queue_of after_mixed conv) ++
    of_key conv (arriving after_mixed) = map stamp [msg (§"feishu:a") (§"1"); msg (§"feishu:a") (§"3")].
Proof.
  destruct (conversation_in_order mixed after_mixed) as [R _]; [vm_compute; reflexivity|reflexivity|].
  rewrite (R conv). vm_compute. reflexivity.
Defined.

(** A turn that fails goes to the end of its conversation. *)
Definition failing : list action :=
  [Enqueue (msg (§"feishu:a") (§"1")); Gather; Route; Take conv; Enqueue (msg (§"feishu:a") (§"2")); Gather; Route;
   Finish conv Requeued; Take conv; Finish conv Fed; Gather; Route; Take conv; Finish conv Fed].
Definition after_failing : dispatch := default idle_dispatch (acts failing idle_dispatch).

Lemma mark_some (v : json) : py_repr v ≠ [].
Proof. discriminate. Qed.

Lemma no_message_lost_witness :
  got conv (fed after_failing) ++ got conv (given_up after_failing) ++ feeding after_failing conv ++
    concat (queue_of after_failing conv) ++ of_key conv (arriving after_failing) ≡ₚ of_key conv (accepted after_failing).
Proof. apply (no_message_lost mark_some failing after_failing conv). vm_compute. reflexivity. Defined.

Example failed_turn_reorders :
  map (jget (§"prompt")) (got conv (fed after_failing)) = [JStr (§"2"); JStr (§"1")] ∧
  map (jget (§"prompt")) (of_key conv (accepted after_failing)) = [JStr (§"1"); JStr (§"2")].
Proof. vm_compute. split; reflexivity. Qed.

Lemma messages_get_through_witness : ∃ l' s', forallb internal l' = true ∧ acts l' after_mixed = Some s' ∧
  ∀ k, got k (fed s') = of_key k (accepted after_mixed).
Proof.
  destruct (messages_get_through mixed after_mixed) as [_ R]; [vm_compute; reflexivity|reflexivity|exact R].
Defined.
End DispatchDemo.
