(* ===== verification/Ingest.v ===== *)
(** * Messages coming in

    server/services/ingestion/scheduler.py: channels are polled or streamed, each
    message is checked against the ids seen before, given its conversation
    (Conversations.v) and put on the queue of the agent. *)

From S2P Require Import Prelude PyStr Json Metadata Conversations.
From stdpp Require Import prelude list strings.

Record ChannelConfig := { name : pystr; poll_recipe : pystr; notify_recipe : pystr }.

Record ingestion := {
  (** the keys of a dict, oldest first *)
  _seen_msg_ids : list pystr;
  (** the service messages are handed to, once it is registered *)
  _pa_enqueue : bool;
  service : pa;
}.

Definition _seen_cap : nat := 5000.

Implicit Types (ch : ChannelConfig) (s : ingestion) (i now : pystr) (m : jdict).

Definition set_seen (l : list pystr) s : ingestion :=
  {| _seen_msg_ids := l; _pa_enqueue := _pa_enqueue s; service := service s |}.
Definition set_service (p : pa) s : ingestion :=
  {| _seen_msg_ids := _seen_msg_ids s; _pa_enqueue := _pa_enqueue s; service := p |}.

Definition capped_ids (l : list pystr) : list pystr := if (_seen_cap <? length l)%nat then drop 1 l else l.

Definition _seen i : M ingestion bool := λ s,
  if decide (i ∈ _seen_msg_ids s) then (Ok true, s)
  else (Ok false, set_seen (capped_ids (_seen_msg_ids s ++ [i])) s).

Section ingest.
Context `{PyRepr}.

Definition msg_id_of m : pystr := py_str (default (JStr []) (dget (§"id") m)).

Definition queue_message ch i now m (rc : jdict) (r : ClassifyResult) : jdict :=
  [(§"type", JStr (§"user_message")); (§"msg_id", JStr i); (§"channel", JStr (name ch));
   (§"channel_message_id", JStr i); (§"prompt", jget (§"prompt") m); (§"reply_context", JObj rc);
   (§"conv_key", match cr_conv_key r with Some k => JStr k | None => JNull end); (§"received_at", JStr now)].

(** The call of the service; an exception of it is logged. *)
Definition hand_over (q : jdict) : M ingestion unit := λ s,
  if _pa_enqueue s then (Ok tt, set_service (enqueue_message q (service s)).2 s) else (Ok tt, s).

(** [sender] and the text are passed to [classify], which does not use them. *)
Definition ingest_message ch (msg : json) now : M ingestion bool :=
  m ← lift_res (as_obj msg);
  let i := msg_id_of m in
  if bool_decide (i = []) || negb (dmem (§"prompt") m) then mret false
  else
    dup ← _seen i;
    if (dup : bool) then mret false
    else
      rc ← lift_res (as_obj (jor (jget (§"reply_context") m) (JObj [])));
      r ← lift_res (classify (name ch) rc);
      hand_over (queue_message ch i now m rc r);;
      mret true.

Fixpoint ingest_all ch now (msgs : list json) : M ingestion nat :=
  match msgs with
  | [] => mret 0
  | msg :: msgs =>
      new ← ingest_message ch msg now;
      n ← ingest_all ch now msgs;
      mret (if (new : bool) then S n else n)
  end.

(** [result] is what running the poll recipe gives; the number of new messages is
    only logged. *)
Definition _poll_channel ch (result : res jdict) now : M ingestion unit :=
  r ← lift_res result;
  if negb (bool_field (§"success") r) then mret tt
  else
    data ← lift_res (as_obj (default (JObj []) (dget (§"data") r)));
    let messages := default (JArr []) (dget (§"messages") data) in
    if negb (truthy messages) then mret tt
    else
      msgs ← lift_res (py_iter messages);
      _ ← ingest_all ch now msgs;
      mret tt.

(** One round of [_channel_loop], which logs an exception. *)
Definition poll_round ch (result : res jdict) now s : ingestion := (_poll_channel ch result now s).2.

(** A line of a streaming recipe; [None] for one that is no JSON. *)
Definition on_stdout_line ch (line : option json) now : M ingestion unit :=
  match line with
  | None => mret tt
  | Some msg =>
      m ← lift_res (as_obj msg);
      if negb (str_is (§"message") (jget (§"type") m)) then mret tt
      else λ s, (Ok tt, (ingest_message ch msg now s).2)
  end.
End ingest.

(** ** Which messages reach the queue *)

Section queue.
Context `{PyRepr}.

(** A message with an id and a prompt. *)
Definition usable (msg : json) : option (pystr * jdict) :=
  match msg with
  | JObj m => if bool_decide (msg_id_of m = []) || negb (dmem (§"prompt") m) then None else Some (msg_id_of m, m)
  | _ => None
  end.

(** What the service is handed for it. *)
Definition addressed ch now i m : res jdict :=
  rc ← as_obj (jor (jget (§"reply_context") m) (JObj []));
  r ← classify (name ch) rc;
  Ok (queue_message ch i now m rc r).

Definition queue_of_agent s : list jdict := _message_queue (service s).

(** The gate of the queue lets a message through that has a prompt and a channel. *)
Lemma enqueue_queue q p : _message_queue (enqueue_message q p).2 =
  _message_queue p ++ match _validate_queue_message q with Ok true => [q] | _ => [] end.
Proof.
  unfold enqueue_message, mbind, M_bind, lift_res. destruct (_validate_queue_message q) as [[]|]; cbn; [done|..];
    by rewrite app_nil_r.
Qed.

Lemma validate_queued ch i now m rc r : i ≠ [] →
  _validate_queue_message (queue_message ch i now m rc r) =
  Ok (negb (bool_decide (name ch = [])) && truthy (jget (§"prompt") m)).
Proof.
  intros Hi. destruct i as [|c i]; [done|]. transitivity (Ok (truthy (JStr (name ch)) && (truthy (jget (§"prompt") m) && true) &&
    (truthy (JStr (c :: i)) || false)) : res bool); [reflexivity|]. cbn.
  by destruct (name ch), (truthy (jget (§"prompt") m)).
Qed.

(** What one message adds to the queue. *)
Lemma queue_after ch msg now s :
  queue_of_agent (ingest_message ch msg now s).2 = queue_of_agent s ++
  match usable msg with
  | Some (i, m) =>
      if bool_decide (i ∈ _seen_msg_ids s) then []
      else match addressed ch now i m with
           | Ok q => if _pa_enqueue s && negb (bool_decide (name ch = [])) && truthy (jget (§"prompt") m) then [q] else []
           | Raise _ => []
           end
  | None => []
  end.
Proof.
  unfold ingest_message, queue_of_agent, mbind, M_bind, lift_res, usable.
  destruct msg as [| | | | | |m]; cbn [as_obj]; try by rewrite app_nil_r.
  destruct (bool_decide (msg_id_of m = []) || negb (dmem (§"prompt") m)) eqn:Hu; [by rewrite app_nil_r|].
  apply orb_false_iff in Hu as [Hi%bool_decide_eq_false _]. unfold _seen.
  destruct (decide (msg_id_of m ∈ _seen_msg_ids s)) as [Hs|Hs]; [rewrite (bool_decide_eq_true_2 _ Hs)|rewrite (bool_decide_eq_false_2 _ Hs)];
    cbn [mret M_ret snd]; [by rewrite app_nil_r|]. unfold addressed, mbind, res_bind.
  destruct (as_obj _) as [rc|]; [|cbn; by rewrite app_nil_r]. destruct (classify _ rc) as [r|]; [|cbn; by rewrite app_nil_r].
  unfold hand_over. cbn [set_seen _pa_enqueue]. destruct (_pa_enqueue s); cbn [mret M_ret snd]; [|by rewrite app_nil_r].
  cbn [set_service service set_seen]. rewrite enqueue_queue, validate_queued by done.
  by destruct (negb _), (truthy _).
Qed.
End queue.

(** ** No message twice *)

(** The ids accepted so far and the last of them, which are those remembered. *)
Definition window (acc : list pystr) : list pystr := drop (length acc - _seen_cap) acc.
Definition note (acc : list pystr) i : list pystr := if decide (i ∈ window acc) then acc else acc ++ [i].

(** The same id comes again only after many others. *)
Definition spaced (acc : list pystr) : Prop := ∀ a b x,
  a < b → acc !! a = Some x → acc !! b = Some x → _seen_cap < b - a.

Lemma capped_window acc i : capped_ids (window acc ++ [i]) = window (acc ++ [i]).
Proof.
  unfold capped_ids, window. rewrite !length_app, length_drop. cbn [length]. generalize _seen_cap. intros n.
  destruct (Nat.ltb_spec n (length acc - (length acc - n) + 1)) as [Hlt|Hge].
  - replace (length acc + 1 - n) with (S (length acc - n)) by lia.
    rewrite <- drop_app_le by lia. rewrite drop_drop. f_equal. lia.
  - rewrite <- drop_app_le by lia. f_equal. lia.
Qed.

Lemma note_spaced acc i : spaced acc → spaced (note acc i).
Proof.
  intros Hs. unfold note. case_decide as Hw; [done|]. intros a b x Hab Ha Hb.
  destruct (decide (b < length acc)) as [Hlt|Hge].
  - rewrite lookup_app_l in Ha, Hb by lia. by eapply Hs.
  - apply lookup_lt_Some in Hb as Hb'. rewrite length_app in Hb'. cbn in Hb'. assert (b = length acc) as -> by lia.
    rewrite list_lookup_middle in Hb by done. injection Hb as <-. rewrite lookup_app_l in Ha by lia.
    destruct (decide (length acc - _seen_cap ≤ a)) as [Hle|]; [|lia]. destruct Hw. unfold window.
    apply list_elem_of_lookup. exists (a - (length acc - _seen_cap)). rewrite lookup_drop.
    by replace (length acc - _seen_cap + (a - (length acc - _seen_cap))) with a by lia.
Qed.

Section once.
Context `{PyRepr}.

(** Any deliveries, of any channels. *)
Definition ingest_run (l : list (ChannelConfig * json * pystr)) s : ingestion :=
  foldl (λ s d, (ingest_message d.1.1 d.1.2 d.2 s).2) s l.
Definition offered (l : list (ChannelConfig * json * pystr)) : list pystr := omap (λ d, fst <$> usable d.1.2) l.
Definition accepted (l : list (ChannelConfig * json * pystr)) : list pystr := foldl note [] (offered l).

Lemma ingest_seen ch msg now s : _seen_msg_ids (ingest_message ch msg now s).2 =
  match usable msg with
  | Some (i, _) => if decide (i ∈ _seen_msg_ids s) then _seen_msg_ids s else capped_ids (_seen_msg_ids s ++ [i])
  | None => _seen_msg_ids s
  end.
Proof.
  unfold ingest_message, mbind, M_bind, lift_res, usable. destruct msg as [| | | | | |m]; try done. cbn [as_obj].
  destruct (bool_decide _ || _); [done|]. unfold _seen. case_decide; [done|].
  destruct (as_obj _) as [rc|]; [|done]. destruct (classify _ rc) as [r|]; [|done].
  unfold hand_over. cbn. by destruct (_pa_enqueue s).
Qed.

Lemma accepted_snoc l ch msg now : accepted (l ++ [(ch, msg, now)]) =
  match usable msg with Some (i, _) => note (accepted l) i | None => accepted l end.
Proof.
  unfold accepted, offered. rewrite omap_app. cbn. destruct (usable msg) as [[i m]|]; cbn; rewrite foldl_app; done.
Qed.

Lemma run_seen l s : _seen_msg_ids s = [] → _seen_msg_ids (ingest_run l s) = window (accepted l).
Proof.
  intros Hs. induction l as [|[[ch msg] now] l IH] using rev_ind; [done|].
  rewrite accepted_snoc. unfold ingest_run. rewrite foldl_app. cbn. fold (ingest_run l s). rewrite ingest_seen, IH.
  destruct (usable msg) as [[i m]|]; [|done]. unfold note. case_decide; [done|]. apply capped_window.
Qed.

Lemma accepted_spaced l : spaced (accepted l).
Proof.
  induction l as [|[[ch msg] now] l IH] using rev_ind; [by intros ????|]. rewrite accepted_snoc.
  destruct (usable msg) as [[i m]|]; [by apply note_spaced|done].
Qed.

Definition queued_ids s : list json := jget (§"msg_id") <$> queue_of_agent s.

(** No message is queued twice while its id is remembered: in any sequence of
    deliveries over all channels, the ids of the queued messages are among the
    accepted ones, in that order; an id is accepted again only after more than five
    thousand others; and what is remembered is exactly the last five thousand
    accepted. *)
Theorem message_queued_once l s : _seen_msg_ids s = [] → queue_of_agent s = [] →
  queued_ids (ingest_run l s) `sublist_of` (JStr <$> accepted l) ∧
  spaced (accepted l) ∧ _seen_msg_ids (ingest_run l s) = window (accepted l).
Proof.
  intros Hs Hq. split; [|split; [apply accepted_spaced|by apply run_seen]].
  induction l as [|[[ch msg] now] l IH] using rev_ind; [unfold queued_ids; cbn; by rewrite Hq|].
  rewrite accepted_snoc. unfold ingest_run, queued_ids. rewrite foldl_app. cbn. fold (ingest_run l s).
  rewrite queue_after, fmap_app. fold (queued_ids (ingest_run l s)). rewrite (run_seen l s Hs).
  destruct (usable msg) as [[i m]|]; [|cbn; by rewrite app_nil_r]. unfold note.
  destruct (decide (i ∈ window (accepted l))) as [Hw|Hw].
  { rewrite (bool_decide_eq_true_2 _ Hw). cbn. by rewrite app_nil_r. }
  rewrite (bool_decide_eq_false_2 _ Hw), fmap_app. apply sublist_app; [done|].
  destruct (addressed ch now i m) as [q|] eqn:Eq; [|apply sublist_nil_l].
  destruct (_ && _ && _); [|apply sublist_nil_l]. revert Eq. unfold addressed, mbind, res_bind.
  destruct (as_obj _); [|done]. destruct (classify _ _); [|done]. by intros [= <-].
Qed.

(** C17. Exactly which messages reach the agent's queue, and as what, after any
    deliveries over all channels: those with an id that is not among the last five
    thousand accepted and a prompt that is not empty, from a channel, whose reply
    context and conversation can be read, while the service is registered.  Each is
    queued once, at the end, with its id, its channel, its prompt, its context and
    the conversation the classifier gives it; nothing else of the queue changes.
    And no id is accepted again before more than five thousand others. *)
Theorem message_queued_iff l ch msg now s : _seen_msg_ids s = [] →
  queue_of_agent (ingest_run (l ++ [(ch, msg, now)]) s) = queue_of_agent (ingest_run l s) ++
  match usable msg with
  | Some (i, m) =>
      if bool_decide (i ∈ window (accepted l)) then []
      else match addressed ch now i m with
           | Ok q => if _pa_enqueue (ingest_run l s) && negb (bool_decide (name ch = [])) && truthy (jget (§"prompt") m)
                     then [q] else []
           | Raise _ => []
           end
  | None => []
  end ∧ spaced (accepted l).
Proof.
  intros Hs. split; [|apply accepted_spaced]. rewrite <- (run_seen l s Hs). unfold ingest_run. rewrite foldl_app.
  apply queue_after.
Qed.
End once.

(** ** Messages that are dropped *)

Section dropped.
Context `{PyRepr}.

Lemma capped_last l i : i ∈ capped_ids (l ++ [i]).
Proof.
  unfold capped_ids. destruct (_ <? _)%nat eqn:Hl; [|set_solver]. destruct l as [|x l]; [discriminate Hl|].
  cbn [app drop]. set_solver.
Qed.

(** Ids are shared by all channels, and taken before a message is handed over:
    once a message with an id came in over one channel - even one whose handling
    raised, so that it never reached the queue - the next message with that id is
    dropped as a duplicate, whatever its channel and text. *)
Theorem same_id_dropped ch1 ch2 msg1 msg2 i m1 m2 now1 now2 s :
  usable msg1 = Some (i, m1) → usable msg2 = Some (i, m2) →
  let s1 := (ingest_message ch1 msg1 now1 s).2 in
  ingest_message ch2 msg2 now2 s1 = (Ok false, s1).
Proof.
  intros H1 H2 s1. assert (i ∈ _seen_msg_ids s1) as Hin.
  { subst s1. rewrite ingest_seen, H1. case_decide; [done|]. apply capped_last. }
  revert H2. unfold usable. destruct msg2 as [| | | | | |m]; try done.
  destruct (bool_decide _ || _) eqn:Hu; [done|]. intros [= <- _].
  unfold ingest_message, mbind, M_bind, lift_res. cbn [as_obj]. rewrite Hu. unfold _seen.
  by destruct (decide (msg_id_of m ∈ _seen_msg_ids s1)).
Qed.

Lemma ingest_all_raise ch now pre bad post s e s1 s2 n :
  ingest_all ch now pre s = (Ok n, s1) → ingest_message ch bad now s1 = (Raise e, s2) →
  ingest_all ch now (pre ++ bad :: post) s = (Raise e, s2).
Proof.
  revert s n. induction pre as [|msg pre IH]; intros s n; cbn [ingest_all app].
  - intros [= _ ->] Hb. unfold mbind, M_bind. by rewrite Hb.
  - unfold mbind, M_bind. destruct (ingest_message ch msg now s) as [[new|] s'] eqn:Em; [|done].
    destruct (ingest_all ch now pre s') as [[k|] s''] eqn:Ea; [|done]. intros [= _ <-] Hb. by rewrite (IH _ _ Ea Hb).
Qed.

(** One message that cannot be handled ends the poll it came with: the ones
    before it are queued, it is not, and none of those after it is looked at; the
    loop goes on as after any poll. *)
Theorem bad_message_ends_poll ch now r data pre bad post s n e s1 s2 :
  bool_field (§"success") r = true → dget (§"data") r = Some (JObj data) →
  dget (§"messages") data = Some (JArr (pre ++ bad :: post)) →
  ingest_all ch now pre s = (Ok n, s1) → ingest_message ch bad now s1 = (Raise e, s2) →
  poll_round ch (Ok r) now s = s2 ∧ queue_of_agent s2 = queue_of_agent s1.
Proof.
  intros Hr Hd Hm Hpre Hbad. split.
  - unfold poll_round, _poll_channel, mbind, M_bind, lift_res. rewrite Hr, Hd. cbn [negb default from_option id as_obj]. rewrite Hm. cbn [default from_option id].
    replace (truthy (JArr (pre ++ bad :: post))) with true by (by destruct pre). cbn [negb py_iter].
    by rewrite (ingest_all_raise _ _ _ _ _ _ _ _ _ _ Hpre Hbad).
  - pose proof (queue_after ch bad now s1) as Hq. rewrite Hbad in Hq. cbn [snd] in Hq. rewrite Hq.
    revert Hbad. unfold ingest_message, mbind, M_bind, lift_res, usable, addressed, mbind, res_bind.
    destruct bad as [| | | | | |m]; cbn [as_obj]; try by rewrite app_nil_r.
    destruct (bool_decide _ || _); [done|]. unfold _seen. destruct (decide _) as [Hs|Hs]; [done|].
    rewrite (bool_decide_eq_false_2 _ Hs).
    destruct (as_obj _) as [rc|]; [|by rewrite app_nil_r]. destruct (classify _ rc) as [c|]; [|by rewrite app_nil_r].
    unfold hand_over. cbn. by destruct (_pa_enqueue s1).
Qed.
End dropped.

(** ** Concrete runs *)

Module IngestDemo.
#[local] Existing Instance repr_mark.

Definition email : ChannelConfig := {| name := §"email"; poll_recipe := §"poll_mail"; notify_recipe := §"send_mail" |}.
Definition slack : ChannelConfig := {| name := §"slack"; poll_recipe := §"poll_slack"; notify_recipe := §"send_slack" |}.

Definition message (i text : string) (rc : jdict) : json :=
  JObj [(§"id", JStr (§i)); (§"prompt", JStr (§text)); (§"reply_context", JObj rc)].
Definition mail (i text : string) : json := message i text [(§"sender", JStr (§"a@b.c"))].
(** A mail without a sender whose references are blank. *)
Definition blank_mail : json := message "7" "hello" [(§"references", JStr (§" "))].

Definition listening : ingestion :=
  {| _seen_msg_ids := []; _pa_enqueue := true;
     service := {| outbox := []; _reply_context_cache := []; _conv_route_cache := []; _message_queue := [];
                   sent := []; calls := 0; config_file := None |} |}.

Definition morning : list (ChannelConfig * json * pystr) :=
  [(email, mail "1" "first", §"9:00"); (email, mail "2" "second", §"9:01"); (email, mail "1" "first", §"9:02");
   (slack, message "2" "other" [(§"channel_id", JStr (§"C"))], §"9:03")].

Lemma message_queued_once_witness :
  queued_ids (ingest_run morning listening) `sublist_of` [JStr (§"1"); JStr (§"2")].
Proof. exact (proj1 (message_queued_once morning listening eq_refl eq_refl)). Defined.

Lemma message_queued_iff_witness :
  length (queue_of_agent (ingest_run (take 1 morning ++ [(email, mail "2" "second", §"9:01")]) listening)) = 2%nat ∧
  queue_of_agent (ingest_run (take 2 morning ++ [(email, mail "1" "first", §"9:02")]) listening) =
  queue_of_agent (ingest_run (take 2 morning) listening).
Proof.
  split.
  - rewrite (proj1 (message_queued_iff (take 1 morning) email (mail "2" "second") (§"9:01") listening eq_refl)).
    vm_compute. reflexivity.
  - rewrite (proj1 (message_queued_iff (take 2 morning) email (mail "1" "first") (§"9:02") listening eq_refl)).
    vm_compute. reflexivity.
Defined.

Example morning_queue : map (jget (§"prompt")) (queue_of_agent (ingest_run morning listening)) = [JStr (§"first"); JStr (§"second")].
Proof. vm_compute. reflexivity. Qed.

Lemma same_id_dropped_witness :
  let s1 := (ingest_message email blank_mail (§"9:00") listening).2 in
  (ingest_message email blank_mail (§"9:00") listening).1 = Raise IndexError ∧ queue_of_agent s1 = [] ∧
  ingest_message slack (message "7" "now" []) (§"9:05") s1 = (Ok false, s1).
Proof.
  split; [vm_compute; reflexivity|]. split; [vm_compute; reflexivity|].
  refine (same_id_dropped email slack blank_mail (message "7" "now" []) (§"7") _ _ (§"9:00") (§"9:05") listening _ _);
    vm_compute; reflexivity.
Defined.

Definition batch : jdict :=
  [(§"success", JBool true); (§"data", JObj [(§"messages", JArr [mail "1" "first"; blank_mail; mail "2" "second"])])].

Lemma bad_message_ends_poll_witness :
  map (jget (§"prompt")) (queue_of_agent (poll_round email (Ok batch) (§"9:00") listening)) = [JStr (§"first")].
Proof.
  destruct (bad_message_ends_poll email (§"9:00") batch [(§"messages", JArr [mail "1" "first"; blank_mail; mail "2" "second"])]
    [mail "1" "first"] blank_mail [mail "2" "second"] listening 1 IndexError
    (ingest_message email (mail "1" "first") (§"9:00") listening).2
    (ingest_message email blank_mail (§"9:00") (ingest_message email (mail "1" "first") (§"9:00") listening).2).2)
    as [-> ->]; vm_compute; reflexivity.
Defined.

End IngestDemo.
