(* ===== verification/Watcher.v ===== *)
(** * Forwarding of answers

    session/transcript_completion.py (whether the last turn of a transcript is
    over, and its text) and server/services/primary/watcher.py, which delivers
    every new answer of the resident sessions; with the marks that
    server/services/primary/dispatcher.py, rotation.py and lifecycle.py set while
    a session is not to be listened to. *)

From S2P Require Import Prelude PyStr Json Metadata Domains.
From stdpp Require Import prelude list strings.

(** ** The verdict on a transcript *)

Definition _DONE_REASONS : list pystr := [§"end_turn"; §"stop_sequence"; §"max_tokens"].

Record TurnCompletion := {
  done : bool;
  stop_reason : json;
  final_text : pystr;
  request_id : json;
  last_uuid : json;
  pending_tool_use : bool;
}.

Definition _empty : TurnCompletion :=
  {| done := false; stop_reason := JNull; final_text := []; request_id := JNull; last_uuid := JNull;
     pending_tool_use := false |}.

(** [claude_sessions._extract_text]: a text block whose text is no string cannot
    be joined. *)
Definition text_block (b : json) : res (list pystr) :=
  match b with
  | JObj d =>
      if str_is (§"text") (jget (§"type") d) then
        t ← str_of (default (JStr []) (dget (§"text") d)); Ok [t]
      else Ok []
  | _ => Ok []
  end.
Definition _extract_text (content : json) : res pystr :=
  match content with
  | JStr s => Ok s
  | JArr l => ps ← map_res text_block l; Ok (join_with (§" ") (concat ps))
  | _ => Ok []
  end.

Definition is_answer (r : jdict) : bool :=
  str_is (§"assistant") (jget (§"type") r) && negb (bool_field (§"isSidechain") r).

Definition record_text (r : jdict) : res pystr :=
  msg ← as_obj (jor (jget (§"message") r) (JObj []));
  _extract_text (default (JStr []) (dget (§"content") msg)).

(** The records of the turn that the last one ends. *)
Definition turn_group (answers : list jdict) (terminal : jdict) : list jdict :=
  match jget (§"requestId") terminal with
  | JNull => [terminal]
  | i => filter (λ r, Params.py_eq (jget (§"requestId") r) i = true) answers
  end.

Definition verdict (answers : list jdict) (terminal : jdict) : res TurnCompletion :=
  msg ← as_obj (jor (jget (§"message") terminal) (JObj []));
  let reason := jget (§"stop_reason") msg in
  parts ← map_res record_text (turn_group answers terminal);
  if negb (hashable reason) then Raise TypeError
  else
    Ok {| done := one_of _DONE_REASONS reason; stop_reason := reason; final_text := concat parts;
          request_id := jget (§"requestId") terminal; last_uuid := jget (§"uuid") terminal;
          pending_tool_use := str_is (§"tool_use") reason |}.

Definition evaluate_records (records : list json) : res TurnCompletion :=
  rs ← map_res as_obj records;
  let answers := filter (λ r, is_answer r = true) rs in
  match last answers with
  | None => Ok _empty
  | Some terminal => verdict answers terminal
  end.

(** ** The forwarder *)

(** A transcript: when it was last written, and its records. *)
Record transcript := { t_mtime : Z; t_records : list json }.

(** What the service keeps for the forwarder; [beat] and [polled] are the local
    variables of [watch_tick]: the conversations still to look at, and the one it
    waits for. *)
Record forwarder := {
  transcripts : dict pystr transcript;
  active : list pystr;
  _conv_route_cache : dict pystr jdict;
  _last_delivered_marker : dict pystr json;
  _watch_mtime : dict pystr Z;
  _bootstrapping_convs : list pystr;
  _compacting_convs : list pystr;
  beat : list pystr;
  polled : option (pystr * (option Z * option TurnCompletion));
  (** the answers delivered: conversation, marker and text *)
  delivered : list (pystr * json * pystr);
}.

Definition FALLBACK_KEY : pystr := §"__fallback__".

Implicit Types (s : forwarder) (k : pystr).

Definition eval_conv_transcript k s : res (option TurnCompletion) :=
  match dget k (transcripts s) with
  | None => Ok None
  | Some t => tc ← evaluate_records (t_records t); Ok (Some tc)
  end.

Definition watch_poll k (since : option Z) s : res (option Z * option TurnCompletion) :=
  match dget k (transcripts s) with
  | None => Ok (None, None)
  | Some t =>
      if match since with Some z => bool_decide (t_mtime t <= z)%Z | None => false end then Ok (Some (t_mtime t), None)
      else tc ← evaluate_records (t_records t); Ok (Some (t_mtime t), Some tc)
  end.

Definition set_beat (l : list pystr) (p : option (pystr * (option Z * option TurnCompletion))) s : forwarder :=
  {| transcripts := transcripts s; active := active s; _conv_route_cache := _conv_route_cache s;
     _last_delivered_marker := _last_delivered_marker s; _watch_mtime := _watch_mtime s;
     _bootstrapping_convs := _bootstrapping_convs s; _compacting_convs := _compacting_convs s;
     beat := l; polled := p; delivered := delivered s |}.
Definition set_seen (m : dict pystr json) (d : dict pystr Z) s : forwarder :=
  {| transcripts := transcripts s; active := active s; _conv_route_cache := _conv_route_cache s;
     _last_delivered_marker := m; _watch_mtime := d;
     _bootstrapping_convs := _bootstrapping_convs s; _compacting_convs := _compacting_convs s;
     beat := beat s; polled := polled s; delivered := delivered s |}.
Definition set_skipped (b c : list pystr) s : forwarder :=
  {| transcripts := transcripts s; active := active s; _conv_route_cache := _conv_route_cache s;
     _last_delivered_marker := _last_delivered_marker s; _watch_mtime := _watch_mtime s;
     _bootstrapping_convs := b; _compacting_convs := c;
     beat := beat s; polled := polled s; delivered := delivered s |}.
Definition set_world (t : dict pystr transcript) (a : list pystr) (r : dict pystr jdict) s : forwarder :=
  {| transcripts := t; active := a; _conv_route_cache := r;
     _last_delivered_marker := _last_delivered_marker s; _watch_mtime := _watch_mtime s;
     _bootstrapping_convs := _bootstrapping_convs s; _compacting_convs := _compacting_convs s;
     beat := beat s; polled := polled s; delivered := delivered s |}.
Definition note_delivered k (m : json) (text : pystr) s : forwarder :=
  {| transcripts := transcripts s; active := active s; _conv_route_cache := _conv_route_cache s;
     _last_delivered_marker := _last_delivered_marker s; _watch_mtime := _watch_mtime s;
     _bootstrapping_convs := _bootstrapping_convs s; _compacting_convs := _compacting_convs s;
     beat := beat s; polled := polled s; delivered := delivered s ++ [(k, m, text)] |}.

Definition mark k (m : json) s : forwarder := set_seen (dset k m (_last_delivered_marker s)) (_watch_mtime s) s.

(** Whether a beat of the forwarder looks at a conversation. *)
Definition watched k s : bool :=
  bool_decide (k ≠ FALLBACK_KEY) && bool_decide (k ∉ _bootstrapping_convs s) && bool_decide (k ∉ _compacting_convs s) &&
  match dget k (_conv_route_cache s) with Some (_ :: _) => true | _ => false end.

(** [watch_tick] for one conversation, up to the wait for its transcript; an
    exception ends the whole beat ([transcript_watch_loop] logs it). *)
Definition poll s : forwarder :=
  match beat s with
  | [] => s
  | k :: rest =>
      if watched k s then
        match watch_poll k (dget k (_watch_mtime s)) s with
        | Ok r => set_beat rest (Some (k, r)) s
        | Raise _ => set_beat [] None s
        end
      else set_beat rest None s
  end.

(** And after it. *)
Definition deliver_new k (tc : TurnCompletion) s : forwarder :=
  if negb (done tc) then s
  else if negb (truthy (last_uuid tc)) || Params.py_eq (jget k (_last_delivered_marker s)) (last_uuid tc) then s
  else
    let s := mark k (last_uuid tc) s in
    match strip (final_text tc) with [] => s | text => note_delivered k (last_uuid tc) text s end.

Definition settle s : forwarder :=
  match polled s with
  | None => s
  | Some (k, (mtime, tc)) =>
      let s := set_beat (beat s) None s in
      let s := match mtime with
               | Some z => set_seen (_last_delivered_marker s) (dset k z (_watch_mtime s)) s
               | None => s
               end in
      match tc with None => s | Some tc => deliver_new k tc s end
  end.

(** [_seed_marker]: what the transcript holds now counts as delivered. *)
Definition seed_marker k s : res forwarder :=
  tc ← eval_conv_transcript k s;
  Ok (mark k (match tc with Some tc => last_uuid tc | None => JNull end) s).

(** ** What happens around it *)

Inductive happening :=
  (** a beat begins; it goes to the next conversation; the wait is over; a
      delivery raises *)
  | Tick
  | Poll
  | Settle
  | Broken
  (** a record is written to a transcript; a message leaves its route *)
  | Written (k : pystr) (r : json) (mtime : Z)
  | Routed (k : pystr) (route : jdict)
  (** a session is about to be fed: it is marked, opened, and ready *)
  | Begin (k : pystr)
  | Opened (k : pystr)
  | Ready (k : pystr)
  (** the mark is lifted on a failure, or at the end of a warm-up *)
  | Unmark (k : pystr)
  (** a compaction begins and ends, in order or not *)
  | CompactBegin (k : pystr)
  | CompactEnd (k : pystr)
  | CompactAbort (k : pystr)
  (** a session is closed for idleness, and what was kept of it is dropped *)
  | Closed (k : pystr)
  | Forgotten (k : pystr).

Definition sadd k (l : list pystr) : list pystr := if decide (k ∈ l) then l else l ++ [k].
Definition sdrop k (l : list pystr) : list pystr := filter (λ x, x ≠ k) l.

Definition records_of k s : list json :=
  match dget k (transcripts s) with Some t => t_records t | None => [] end.

Definition unmark k s : forwarder := set_skipped (sdrop k (_bootstrapping_convs s)) (_compacting_convs s) s.
Definition end_compact k s : forwarder := set_skipped (_bootstrapping_convs s) (sdrop k (_compacting_convs s)) s.

(** The tail of [compact_tmux_session], with its [finally]. *)
Definition compacted k s : forwarder :=
  end_compact k
    (match seed_marker k s with
     | Ok s => set_seen (_last_delivered_marker s) (ddel k (_watch_mtime s)) s
     | Raise _ => s
     end).

Definition forget k s : forwarder := set_seen (ddel k (_last_delivered_marker s)) (ddel k (_watch_mtime s)) s.

Definition happens (h : happening) s : forwarder :=
  match h with
  | Tick => match beat s, polled s with [], None => set_beat (active s) None s | _, _ => s end
  | Poll => match polled s with None => poll s | Some _ => s end
  | Settle => settle s
  | Broken => set_beat [] None s
  | Written k r z =>
      set_world (dset k {| t_mtime := z; t_records := records_of k s ++ [r] |} (transcripts s)) (active s) (_conv_route_cache s) s
  | Routed k route => set_world (transcripts s) (active s) (dset k route (_conv_route_cache s)) s
  | Begin k => set_skipped (sadd k (_bootstrapping_convs s)) (_compacting_convs s) s
  | Opened k => set_world (transcripts s) (sadd k (active s)) (_conv_route_cache s) s
  | Ready k => unmark k (match seed_marker k s with Ok s => s | Raise _ => s end)
  | Unmark k => unmark k s
  | CompactBegin k => set_skipped (_bootstrapping_convs s) (sadd k (_compacting_convs s)) s
  | CompactEnd k => compacted k s
  | CompactAbort k => end_compact k s
  | Closed k => set_world (transcripts s) (sdrop k (active s)) (_conv_route_cache s) s
  | Forgotten k => forget k s
  end.

Definition happen (l : list happening) s : forwarder := foldl (λ s h, happens h s) s l.

Definition quiet : forwarder :=
  {| transcripts := []; active := []; _conv_route_cache := []; _last_delivered_marker := []; _watch_mtime := [];
     _bootstrapping_convs := []; _compacting_convs := []; beat := []; polled := None; delivered := [] |}.

(** ** Every answer is delivered once *)

(** The markers of the answers of a transcript, in order. *)
Definition answer_id (r : json) : option json :=
  match r with JObj d => if is_answer d then Some (jget (§"uuid") d) else None | _ => None end.
Definition ids k s : list json := omap answer_id (records_of k s).

Definition waiting k s : bool := match polled s with Some (k', _) => bool_decide (k' = k) | None => false end.

(** No beat will act on the conversation before it is marked and ready again. *)
Definition deaf k s : bool :=
  negb (waiting k s) &&
  (bool_decide (k ∉ active s) && bool_decide (k ∉ beat s) || bool_decide (k ∈ _bootstrapping_convs s)).

Definition unmarkable k s : bool :=
  bool_decide (k ∉ active s) && bool_decide (k ∉ beat s) || bool_decide (k ∉ _bootstrapping_convs s) ||
  negb (bool_decide (jget k (_last_delivered_marker s) = JNull)).

(** The order of events the marks are there for: an answer has a marker of its
    own; a session is opened under the mark; the baseline is not moved while a
    beat waits for that transcript; the mark is lifted early only over a baseline;
    and what is kept is dropped only when no beat is to use it. *)
Definition orderly (h : happening) s : bool :=
  match h with
  | Written k r _ =>
      match answer_id r with
      | None => true
      | Some (JStr (_ :: _) as m) => bool_decide (m ∉ ids k s)
      | Some _ => false
      end
  | Opened k => bool_decide (k ∈ _bootstrapping_convs s)
  | Ready k => negb (waiting k s) && match seed_marker k s with Ok _ => true | Raise _ => unmarkable k s end
  | Unmark k => unmarkable k s
  | CompactEnd k => negb (waiting k s)
  | Forgotten k => deaf k s
  | _ => true
  end.
Fixpoint all_orderly (l : list happening) s : bool :=
  match l with [] => true | h :: l => orderly h s && all_orderly l (happens h s) end.

Definition is_id (m : json) : Prop := match m with JStr (_ :: _) => True | _ => False end.

(** The conversation is heard up to its [n]-th answer. *)
Record heard (n : nat) k s : Prop := {
  heard_marker : match n with
                 | O => jget k (_last_delivered_marker s) = JNull
                 | S i => ids k s !! i = Some (jget k (_last_delivered_marker s))
                 end;
  heard_delivered : ∀ m t, (k, m, t) ∈ delivered s → ∃ j, j < n ∧ ids k s !! j = Some m;
  heard_polled : ∀ z tc, polled s = Some (k, (z, Some tc)) →
    last_uuid tc = JNull ∨ ∃ i, ids k s !! i = Some (last_uuid tc) ∧ n ≤ S i;
}.

Definition in_step k s : Prop :=
  (jget k (_last_delivered_marker s) = JNull ∧ deaf k s = true) ∨ ∃ n, heard n k s.

Record once s : Prop := {
  once_wf : dict_wf (_last_delivered_marker s);
  once_ids : ∀ k, NoDup (ids k s) ∧ Forall is_id (ids k s);
  once_from : ∀ k m t, (k, m, t) ∈ delivered s → m ∈ ids k s;
  once_in_step : ∀ k, in_step k s;
  once_nodup : NoDup (delivered s).*1;
}.

(** *** The verdict and the markers *)

Lemma answers_ids rs ds : map_res as_obj rs = Ok ds →
  omap answer_id rs = map (jget (§"uuid")) (filter (λ r, is_answer r = true) ds).
Proof.
  intros Hm%map_res_Forall2. induction Hm as [|r d rs ds Hr _ IH]; [done|].
  destruct r; try discriminate Hr. injection Hr as ->. cbn [omap list_omap answer_id].
  rewrite filter_cons. destruct (is_answer d); cbn; by rewrite IH.
Qed.

Lemma verdict_uuid answers t tc : verdict answers t = Ok tc → last_uuid tc = jget (§"uuid") t.
Proof.
  unfold verdict, mbind, res_bind. destruct (as_obj _); [|done]. destruct (map_res _ _); [|done].
  destruct (negb _); [done|]. by intros [= <-].
Qed.

Lemma evaluate_last rs tc : evaluate_records rs = Ok tc →
  last_uuid tc = match last (omap answer_id rs) with Some m => m | None => JNull end.
Proof.
  unfold evaluate_records, mbind at 1, res_bind at 1. destruct (map_res as_obj rs) as [ds|] eqn:Ed; [|done].
  cbn zeta. rewrite (answers_ids _ _ Ed), fmap_last.
  destruct (last (filter _ ds)) as [t|]; [apply verdict_uuid|by intros [= <-]].
Qed.

(** *** The steps *)

Lemma elem_sadd k k' l : k' ∈ sadd k l ↔ k' = k ∨ k' ∈ l.
Proof. unfold sadd. case_decide; [set_solver|]. rewrite elem_of_app, list_elem_of_singleton. tauto. Qed.
Lemma elem_sdrop k k' l : k' ∈ sdrop k l ↔ k' ≠ k ∧ k' ∈ l.
Proof. unfold sdrop. by rewrite list_elem_of_filter. Qed.

Lemma deaf_spec k s : deaf k s = true ↔
  waiting k s = false ∧ (k ∉ active s ∧ k ∉ beat s ∨ k ∈ _bootstrapping_convs s).
Proof.
  unfold deaf. rewrite andb_true_iff, negb_true_iff, orb_true_iff, andb_true_iff, !bool_decide_eq_true. done.
Qed.

(** A step that leaves the markers, the answers and the deliveries of a
    conversation alone, and gives no beat a new way to it. *)
Record frame k s s' : Prop := {
  frame_ids : ids k s' = ids k s;
  frame_marker : jget k (_last_delivered_marker s') = jget k (_last_delivered_marker s);
  frame_delivered : delivered s' = delivered s;
  frame_polled : polled s' = polled s ∨ polled s' = None;
  frame_deaf : deaf k s = true → deaf k s' = true;
}.

Lemma in_step_frame k s s' : frame k s s' → in_step k s → in_step k s'.
Proof.
  intros [Hi Hm Hd Hp Hdeaf] [[Hj Hk]|[n [H1 H2 H3]]].
  - left. rewrite Hm. auto.
  - right. exists n. split; rewrite ?Hm, ?Hi, ?Hd; [done..|].
    destruct Hp as [->| ->]; [done|by intros ??].
Qed.

Lemma once_frame s s' : dict_wf (_last_delivered_marker s') → (∀ k, ids k s' = ids k s) → delivered s' = delivered s →
  (∀ k, in_step k s → in_step k s') → once s → once s'.
Proof.
  intros Hwf Hi Hd Hs [_ H1 H2 H3 H4]. split; rewrite ?Hd; [done| | | |done]; intros k; [rewrite Hi; apply H1| |auto].
  intros m t. rewrite Hi. apply H2.
Qed.

Lemma waiting_None k s : polled s = None → waiting k s = false.
Proof. unfold waiting. by intros ->. Qed.

Lemma set_beat_frame k l s : (k ∉ active s → k ∉ beat s → k ∉ l) → frame k s (set_beat l None s).
Proof.
  intros Hl. split; [done..|by right|]. rewrite !deaf_spec. cbn. intros [_ H]. split; [done|]. tauto.
Qed.

(** The baseline is moved to the end of the transcript. *)
Lemma seed_marks k s s' : seed_marker k s = Ok s' →
  s' = mark k (match last (ids k s) with Some m => m | None => JNull end) s.
Proof.
  unfold seed_marker, eval_conv_transcript, ids, records_of, mbind, res_bind.
  destruct (dget k (transcripts s)) as [t|]; [|by intros [= <-]].
  destruct (evaluate_records _) as [tc|] eqn:Ev; [|done]. intros [= <-]. by rewrite (evaluate_last _ _ Ev).
Qed.

Lemma seeded_heard k s : once s → waiting k s = false →
  heard (length (ids k s)) k (mark k (match last (ids k s) with Some m => m | None => JNull end) s).
Proof.
  intros Ho Hw. split; change (ids k (mark _ _ s)) with (ids k s); cbn [delivered polled mark set_seen _last_delivered_marker].
  - unfold jget. rewrite dget_dset_eq, last_lookup. destruct (ids k s) as [|m l] eqn:Ei; [done|]. cbn [length pred default].
    destruct ((m :: l) !! length l) as [x|] eqn:El; [done|].
    apply lookup_ge_None in El. cbn in El. lia.
  - intros m t Hd. destruct (list_elem_of_lookup_1 _ _ (once_from _ Ho _ _ _ Hd)) as [j Hj].
    exists j. split; [by eapply lookup_lt_Some|done].
  - intros z tc Hp. unfold waiting in Hw. rewrite Hp in Hw. by apply bool_decide_eq_false in Hw.
Qed.

Lemma mark_frame k k' m s : k ≠ k' → frame k s (mark k' m s).
Proof. intros Hk. split; [done| |done|by left|done]. cbn. unfold jget. by rewrite dget_dset_ne. Qed.
Lemma mark_once k m s : once s → in_step k (mark k m s) → once (mark k m s).
Proof.
  intros Ho Hk. apply (once_frame s); try done; [apply dset_wf, Ho|].
  intros k' Hs. destruct (decide (k' = k)) as [->|Hne]; [done|]. by apply (in_step_frame _ s); [apply mark_frame|].
Qed.
Lemma seed_heard k s s' : once s → waiting k s = false → seed_marker k s = Ok s' → heard (length (ids k s)) k s'.
Proof. intros Ho Hw ->%seed_marks. by apply seeded_heard. Qed.
Lemma seed_once k s s' : once s → waiting k s = false → seed_marker k s = Ok s' → once s'.
Proof.
  intros Ho Hw Hs. pose proof (seed_heard _ _ _ Ho Hw Hs) as Hh. apply seed_marks in Hs as ->.
  apply mark_once; [done|]. right. by eexists.
Qed.

Lemma heard_unmark n k k' s : heard n k s → heard n k (unmark k' s).
Proof. by intros [H1 H2 H3]. Qed.
Lemma unmark_in_step k k' s : (k = k' → unmarkable k' s = true ∨ ∃ n, heard n k s) → in_step k s → in_step k (unmark k' s).
Proof.
  intros Hu [[Hm Hd]|[n Hn]]; [|right; exists n; by apply heard_unmark].
  apply deaf_spec in Hd as [Hw Hd]. destruct (decide (k = k')) as [->|Hne].
  - destruct (Hu eq_refl) as [Hk|[n Hn]]; [|right; exists n; by apply heard_unmark].
    left. split; [done|]. apply deaf_spec. split; [done|]. cbn. unfold unmarkable in Hk.
    rewrite (bool_decide_eq_true_2 _ Hm), orb_false_r, orb_true_iff, andb_true_iff, !bool_decide_eq_true in Hk. tauto.
  - left. split; [done|]. apply deaf_spec. split; [done|]. cbn. rewrite elem_sdrop. tauto.
Qed.
Lemma unmark_once k s : unmarkable k s = true ∨ (∃ n, heard n k s) → once s → once (unmark k s).
Proof. intros Hu Ho. apply (once_frame s); try done; [apply Ho|]. intros k'. apply unmark_in_step. by intros ->. Qed.

Lemma frames_once s s' : _last_delivered_marker s' = _last_delivered_marker s → (∀ k, frame k s s') → once s → once s'.
Proof.
  intros Hm Hf Ho. apply (once_frame s); [rewrite Hm; apply Ho|intros k; apply Hf|apply (Hf [])| |done].
  intros k. apply in_step_frame, Hf.
Qed.

(** A record is written. *)
Lemma ids_written k r z s k' : ids k' (happens (Written k r z) s) =
  ids k' s ++ (if decide (k' = k) then match answer_id r with Some m => [m] | None => [] end else []).
Proof.
  unfold ids, records_of. cbn. case_decide as Hk; [subst k'|by rewrite dget_dset_ne, app_nil_r].
  rewrite dget_dset_eq. cbn [t_records]. by rewrite omap_app.
Qed.

Lemma written_once k r z s : orderly (Written k r z) s = true → once s → once (happens (Written k r z) s).
Proof.
  intros Hr [Hwf H1 H2 H3 H4]. split; [done| | | |done].
  - intros k'. rewrite ids_written. case_decide as Hk; [subst k'|by rewrite app_nil_r].
    destruct (H1 k) as [Hn Hf]. cbn in Hr. destruct (answer_id r) as [m|]; [|by rewrite app_nil_r].
    destruct m as [| | | |[|c u]| |]; try discriminate Hr. apply bool_decide_eq_true in Hr.
    rewrite NoDup_app, Forall_app. repeat split; [done| |apply NoDup_singleton|done|by repeat constructor].
    intros x Hx ->%list_elem_of_singleton. done.
  - intros k' m t Hd. rewrite ids_written. apply elem_of_app. left. by eapply H2.
  - intros k'. destruct (H3 k') as [?|[n [G1 G2 G3]]]; [by left|]. right. exists n. split; rewrite ids_written; cbn.
    + destruct n; [done|]. by apply lookup_app_l_Some.
    + intros m t (j & ? & ?)%G2. exists j. split; [done|]. by apply lookup_app_l_Some.
    + intros z' tc [?|(i & ? & ?)]%G3; [by left|]. right. exists i. split; [by apply lookup_app_l_Some|done].
Qed.

(** A beat looks at a conversation. *)
Lemma poll_last k since s z tc : watch_poll k since s = Ok (z, Some tc) →
  last_uuid tc = match last (ids k s) with Some m => m | None => JNull end.
Proof.
  unfold watch_poll, ids, records_of, mbind, res_bind. destruct (dget k (transcripts s)) as [t|]; [|done].
  destruct (match since with Some z => _ | None => _ end); [done|].
  destruct (evaluate_records _) as [tc'|] eqn:Ev; [|done]. intros [= _ <-]. by apply evaluate_last.
Qed.

Lemma heard_bound n k s : heard n k s → n ≤ length (ids k s).
Proof. intros [H1 _ _]. destruct n as [|i]; [lia|]. by apply lookup_lt_Some in H1. Qed.

Lemma watched_unmarked k s : watched k s = true → k ∉ _bootstrapping_convs s.
Proof. unfold watched. rewrite !andb_true_iff, !bool_decide_eq_true. tauto. Qed.

Lemma polled_once k rest r s : once s → polled s = None → beat s = k :: rest → watched k s = true →
  watch_poll k (dget k (_watch_mtime s)) s = Ok r → once (set_beat rest (Some (k, r)) s).
Proof.
  intros Ho Hp Hb Hw Hr. apply (once_frame s); try done; [apply Ho|]. intros k' [[Hm Hd]|[n Hn]].
  - left. split; [done|]. apply deaf_spec in Hd as [Hk' Hd]. rewrite Hb in Hd. apply deaf_spec. cbn.
    assert (k ≠ k') by (intros <-; apply watched_unmarked in Hw; destruct Hd as [[_ ?]|?]; set_solver).
    split; [by apply bool_decide_eq_false|set_solver].
  - right. exists n. pose proof (heard_bound _ _ _ Hn) as Hle. destruct Hn as [H1 H2 _]. split; [done..|].
    intros z tc [= <- ->]. rewrite (poll_last _ _ _ _ _ Hr). change (ids k (set_beat _ _ s)) with (ids k s).
    rewrite last_lookup. destruct (ids k s !! pred _) as [m|] eqn:El; [|by left]. right. eexists. split; [done|]. lia.
Qed.

Lemma poll_once s : once s → polled s = None → once (poll s).
Proof.
  intros Ho Hp. unfold poll. destruct (beat s) as [|k rest] eqn:Hb; [done|].
  assert (∀ l, (∀ x, x ∈ l → x ∈ beat s) → once (set_beat l None s)) as Hset
    by (intros l Hl; apply (frames_once s); [done| |done]; intros k1; apply set_beat_frame; intros _ ? ?; eauto).
  rewrite Hb in Hset. destruct (watched k s) eqn:Hw; [|apply Hset; intros x Hx; by right].
  destruct (watch_poll _ _ s) as [r|] eqn:Hr; [by eapply polled_once|apply Hset; intros x []%elem_of_nil].
Qed.

(** The wait is over. *)
Lemma heard_next n k s i m : heard n k s → ids k s !! i = Some m → n ≤ S i →
  jget k (_last_delivered_marker s) ≠ m → n ≤ i.
Proof.
  intros [H1 _ _] Hi Hn Hm. destruct n as [|i']; [lia|]. destruct (decide (i' = i)) as [->|]; [congruence|lia].
Qed.

Lemma note_in_step k k' m t s : k ≠ k' → in_step k' s → in_step k' (note_delivered k m t s).
Proof.
  intros Hk [?|[n [H1 H2 H3]]]; [by left|]. right. exists n. split; [done| |done].
  intros m' t' [Hd|[= -> _ _]%list_elem_of_singleton]%elem_of_app; [by eapply H2|done].
Qed.

Lemma note_once k m t s i : once s →
  (∀ m' t', (k, m', t') ∈ delivered s → ∃ j, j < i ∧ ids k s !! j = Some m') →
  ids k s !! i = Some m → polled s = None → once (note_delivered k m t (mark k m s)).
Proof.
  intros [Hwf H1 H2 H3 H4] Hh Hi Hp. split; [by apply dset_wf|done| | |].
  - intros k' m' t' [Hd|[= -> -> _]%list_elem_of_singleton]%elem_of_app; [by eapply H2|]. by eapply list_elem_of_lookup_2.
  - intros k'. destruct (decide (k = k')) as [<-|Hk].
    + right. exists (S i). split; cbn.
      * unfold jget. by rewrite dget_dset_eq.
      * intros m' t' [Hd|[= -> _]%list_elem_of_singleton]%elem_of_app; [|by exists i; split; [lia|]].
        destruct (Hh _ _ Hd) as (j & ? & ?). exists j. split; [lia|done].
      * by rewrite Hp.
    + apply note_in_step; [done|]. apply (in_step_frame _ s), H3. by apply mark_frame.
  - cbn. rewrite fmap_app, NoDup_app. split; [done|]. split; [|apply NoDup_singleton].
    intros x ([[k' m'] t'] & -> & Hd)%list_elem_of_fmap [= -> ->]%list_elem_of_singleton.
    destruct (Hh _ _ Hd) as (j & Hj & Hm).
    assert (j = i) by (destruct (H1 k) as [Hnd _]; by eapply NoDup_lookup). lia.
Qed.

Lemma py_eq_id x m : is_id m → Params.py_eq x m = true ↔ x = m.
Proof.
  destruct m as [| | | |[|c u]| |]; intros Hm; try done. destruct x; cbn; try (split; congruence).
  rewrite bool_decide_eq_true. split; congruence.
Qed.
Lemma truthy_id m : is_id m → truthy m = true.
Proof. by destruct m as [| | | |[|c u]| |]. Qed.

Lemma deliver_once n k tc s : once s → heard n k s → polled s = None →
  (last_uuid tc = JNull ∨ ∃ i, ids k s !! i = Some (last_uuid tc) ∧ n ≤ S i) → once (deliver_new k tc s).
Proof.
  intros Ho Hh Hp Hi. unfold deliver_new. destruct (negb (done tc)); [done|].
  destruct Hi as [->|(i & Hi & Hn)]; [done|]. set (m := last_uuid tc) in *.
  assert (is_id m) as Hm by (destruct (once_ids _ Ho k) as [_ Hf]; rewrite Forall_lookup in Hf; by eapply Hf).
  rewrite (truthy_id _ Hm). destruct (Params.py_eq _ m) eqn:Eq; cbn [negb orb]; [done|].
  assert (jget k (_last_delivered_marker s) ≠ m) as Hne by (intros Heq%(py_eq_id _ _ Hm); congruence).
  pose proof (heard_next _ _ _ _ _ Hh Hi Hn Hne) as Hle.
  assert (∀ m' t', (k, m', t') ∈ delivered s → ∃ j, j < i ∧ ids k s !! j = Some m') as Hd
    by (intros m' t' (j & ? & ?)%(heard_delivered _ _ _ Hh); exists j; split; [lia|done]).
  destruct (strip (final_text tc)) as [|c t].
  - apply mark_once; [done|]. right. exists (S i). split; cbn; [unfold jget; by rewrite dget_dset_eq| |by rewrite Hp].
    intros m' t' (j & ? & ?)%Hd. exists j. split; [lia|done].
  - by apply (note_once _ _ _ _ i).
Qed.

Lemma settle_once s : once s → once (settle s).
Proof.
  intros Ho. unfold settle. destruct (polled s) as [[k [z tc]]|] eqn:Hp; [|done].
  set (s1 := match z with Some z => _ | None => _ end).
  assert (∀ k, frame k s s1) as Hf.
  { intros k'. subst s1. destruct z as [z|]; (split; [done..|by right|]); rewrite !deaf_spec; cbn; tauto. }
  assert (once s1) as Ho1 by (apply (frames_once s); [by subst s1; destruct z|done|done]).
  destruct tc as [tc|]; [|done].
  destruct (once_in_step _ Ho k) as [[_ [Hw _]%deaf_spec]|[n Hn]].
  { unfold waiting in Hw. rewrite Hp in Hw. by apply bool_decide_eq_false in Hw. }
  destruct Hn as [H1 H2 H3]. specialize (H3 _ _ Hp).
  apply (deliver_once n); [done| |by subst s1; destruct z|by rewrite (frame_ids _ _ _ (Hf k))].
  split; rewrite ?(frame_ids _ _ _ (Hf k)), ?(frame_marker _ _ _ (Hf k)), ?(frame_delivered _ _ _ (Hf k)); [done..|].
  by subst s1; destruct z.
Qed.

Lemma skipped_once c s : once s → once (set_skipped (_bootstrapping_convs s) c s).
Proof. intros Ho. apply (frames_once s); [done| |done]. intros k'. by split; [..|left|]. Qed.

Lemma forget_once k s : deaf k s = true → once s → once (forget k s).
Proof.
  intros Hd Ho. pose proof (once_wf _ Ho) as Hwf. apply (once_frame s); try done; [by apply ddel_wf|]. intros k' Hs.
  destruct (decide (k' = k)) as [->|Hk].
  - left. split; [|done]. cbn. unfold jget. by rewrite dget_ddel_eq.
  - apply (in_step_frame _ s); [|done]. split; [done| |done|by left|done]. cbn. unfold jget. by rewrite dget_ddel_ne.
Qed.

(** Every orderly step keeps the account straight. *)
Lemma happens_once h s : orderly h s = true → once s → once (happens h s).
Proof.
  intros Hh Ho. destruct h as [| | | |k r z|k route|k|k|k|k|k|k|k|k|k]; cbn [happens].
  - destruct (beat s), (polled s) eqn:Hp; try done. apply (frames_once s); [done| |done].
    intros k. by apply set_beat_frame.
  - destruct (polled s) eqn:Hp; [done|]. by apply poll_once.
  - by apply settle_once.
  - apply (frames_once s); [done| |done]. intros k. apply set_beat_frame. intros _ _ []%elem_of_nil.
  - by apply written_once.
  - apply (frames_once s); [done| |done]. intros k'. by split; [..|left|].
  - apply (frames_once s); [done| |done]. intros k'. split; [done..|by left|]. rewrite !deaf_spec. cbn.
    rewrite elem_sadd. tauto.
  - apply bool_decide_eq_true in Hh. apply (frames_once s); [done| |done]. intros k'. split; [done..|by left|].
    rewrite !deaf_spec. cbn. rewrite elem_sadd. destruct (decide (k' = k)) as [->|]; tauto.
  - cbn in Hh. apply andb_true_iff in Hh as [Hw%negb_true_iff Hs].
    destruct (seed_marker k s) as [s'|] eqn:Es; [|by apply unmark_once; [left|]].
    apply unmark_once; [right; eexists; by eapply seed_heard|by eapply seed_once].
  - by apply unmark_once; [left|].
  - by apply skipped_once.
  - apply negb_true_iff in Hh. unfold compacted. apply skipped_once.
    destruct (seed_marker k s) as [s'|] eqn:Es; [|done]. apply (frames_once s'); [done| |by eapply seed_once].
    intros k'. by split; [..|left|].
  - by apply skipped_once.
  - apply (frames_once s); [done| |done]. intros k'. split; [done..|by left|]. rewrite !deaf_spec. cbn.
    rewrite elem_sdrop. tauto.
  - by apply forget_once.
Qed.

Lemma happen_once l s : all_orderly l s = true → once s → once (happen l s).
Proof.
  revert s. induction l as [|h l IH]; intros s; cbn; [done|]. intros [Hh Hl]%andb_true_iff Ho.
  by apply IH, happens_once.
Qed.

Lemma quiet_once : once quiet.
Proof.
  split; [constructor|split; constructor| | |constructor]; intros k; [intros ?? []%elem_of_nil|]. left. split; [done|].
  apply deaf_spec. split; [done|]. left. split; intros []%elem_of_nil.
Qed.

(** C16. Every answer is forwarded at most once, and only an answer: in an orderly
    run of the service - sessions opened under the mark, baselines not moved while
    a beat waits, markers dropped only for sessions no beat is to look at - no
    marker of a conversation is delivered twice, and every marker delivered is the
    uuid of an assistant record of that conversation's transcript. *)
Theorem answers_forwarded_once l : all_orderly l quiet = true →
  NoDup (delivered (happen l quiet)).*1 ∧
  ∀ k m t, (k, m, t) ∈ delivered (happen l quiet) → m ∈ ids k (happen l quiet).
Proof. intros Hl. destruct (happen_once _ _ Hl quiet_once) as [_ _ H2 _ H4]. done. Qed.

(** ** What one look delivers *)

Definition is_new k (tc : TurnCompletion) s : bool :=
  done tc && truthy (last_uuid tc) && negb (Params.py_eq (jget k (_last_delivered_marker s)) (last_uuid tc)).

Definition text_of k (tc : TurnCompletion) : list (pystr * json * pystr) :=
  match strip (final_text tc) with [] => [] | text => [(k, last_uuid tc, text)] end.

Lemma deliver_new_spec k tc s :
  delivered (deliver_new k tc s) = delivered s ++ (if is_new k tc s then text_of k tc else []) ∧
  jget k (_last_delivered_marker (deliver_new k tc s)) =
    (if is_new k tc s then last_uuid tc else jget k (_last_delivered_marker s)).
Proof.
  unfold deliver_new, is_new, text_of. destruct (done tc); cbn; [|by rewrite app_nil_r].
  destruct (truthy (last_uuid tc)); cbn; [|by rewrite app_nil_r].
  destruct (Params.py_eq _ _); cbn; [by rewrite app_nil_r|].
  unfold jget. destruct (strip (final_text tc)); cbn; rewrite dget_dset_eq, ?app_nil_r; done.
Qed.

(** One look of the forwarder at a conversation whose transcript changed
    delivers the trimmed text of the last turn exactly when that turn is over, has
    a marker, and the marker is not the one last delivered; the marker moves with
    it even if the text is blank. A second look at the same file does nothing. *)
Theorem look_delivers k rest s t tc :
  polled s = None → beat s = k :: rest → watched k s = true → dget k (transcripts s) = Some t →
  match dget k (_watch_mtime s) with Some z => (z < t_mtime t)%Z | None => True end →
  evaluate_records (t_records t) = Ok tc →
  let s' := settle (poll s) in
  delivered s' = delivered s ++ (if is_new k tc s then text_of k tc else []) ∧
  jget k (_last_delivered_marker s') = (if is_new k tc s then last_uuid tc else jget k (_last_delivered_marker s)) ∧
  watch_poll k (dget k (_watch_mtime s')) s' = Ok (Some (t_mtime t), None).
Proof.
  intros Hp Hb Hw Ht Hz Ev s'.
  set (s1 := set_seen (_last_delivered_marker s) (dset k (t_mtime t) (_watch_mtime s)) (set_beat rest None s)).
  assert (s' = deliver_new k tc s1) as ->.
  { subst s'. unfold poll. rewrite Hb, Hw. unfold watch_poll. rewrite Ht.
    assert (match dget k (_watch_mtime s) with Some z => bool_decide (t_mtime t <= z)%Z | None => false end = false) as ->;
      [|by rewrite Ev].
    destruct (dget k (_watch_mtime s)); [|done]. apply bool_decide_eq_false. lia. }
  destruct (deliver_new_spec k tc s1) as [H1 H2]. split; [exact H1|]. split; [exact H2|].
  assert (∀ s2, transcripts s2 = transcripts s1 → _watch_mtime s2 = _watch_mtime s1 →
            watch_poll k (dget k (_watch_mtime s2)) s2 = Ok (Some (t_mtime t), None)) as Hs.
  { intros s2 E1 E2. unfold watch_poll. rewrite E1, E2. cbn. rewrite dget_dset_eq, Ht, bool_decide_eq_true_2; [done|lia]. }
  apply Hs; unfold deliver_new; repeat case_match; done.
Qed.

(** The tail of a transcript is judged on the assistant records of the main
    conversation only: user messages, tool results, records of sub-agents and the
    notes written after a turn change neither the verdict nor the text, wherever
    they stand. *)
Theorem noise_ignored rs : Forall (λ r, ∃ d, r = JObj d) rs →
  evaluate_records rs = evaluate_records (filter (λ r, answer_id r ≠ None) rs).
Proof.
  intros Hr. assert (∀ l : list json, Forall (λ r, ∃ d, r = JObj d) l → ∃ ds, l = map JObj ds) as Hds.
  { induction 1 as [|r l [d ->] _ [ds ->]]; [by exists []|by exists (d :: ds)]. }
  destruct (Hds _ Hr) as [ds ->]. clear Hds Hr.
  assert (∀ l, map_res as_obj (map JObj l) = Ok l) as Ho.
  { intros l. rewrite (map_res_fun _ (λ r, match r with JObj d => d | _ => [] end)).
    - rewrite map_map. f_equal. by induction l; cbn; f_equal.
    - by intros x (d & -> & _)%list_elem_of_fmap. }
  assert (filter (λ r, answer_id r ≠ None) (map JObj ds) = map JObj (filter (λ r, is_answer r = true) ds)) as ->.
  { induction ds as [|d ds IH]; [done|]. cbn [map]. rewrite !filter_cons, IH. cbn [answer_id].
    destruct (is_answer d); cbn; [by rewrite !decide_True by done|by rewrite !decide_False by (done || tauto)]. }
  unfold evaluate_records. rewrite !Ho. cbn [mbind res_bind]. cbv zeta.
  by rewrite list_filter_filter_l by done.
Qed.

(** ** Where the marks fail *)

(** A process that starts over an old transcript. *)
Definition resumed k (t : transcript) : forwarder := set_world [(k, t)] [] [] quiet.

Lemma sadd_new k : sadd k [] = [k].
Proof. unfold sadd. by rewrite decide_False by apply not_elem_of_nil. Qed.
Lemma sadd_same k : sadd k [k] = [k].
Proof. unfold sadd. by rewrite decide_True by by left. Qed.
Lemma sdrop_same k : sdrop k [k] = [].
Proof. unfold sdrop. by rewrite filter_cons, decide_False by auto. Qed.

(** The warm-up after a restart lifts the mark of a session another task is
    still bringing up: if a message for the conversation is dispatched first, the
    warm-up finds the session alive, skips it, and its [finally] clears the mark
    the dispatch had set; the next beat then forwards the last answer of the
    previous process as a new one. Without the warm-up the mark holds and nothing
    is forwarded. *)
Theorem warmup_forwards_history k route t tc :
  k ≠ FALLBACK_KEY → route ≠ [] → evaluate_records (t_records t) = Ok tc →
  done tc = true → is_id (last_uuid tc) → strip (final_text tc) ≠ [] →
  let dispatch := [Routed k route; Begin k; Opened k] in
  let warm := [Begin k; Unmark k] in
  let look := [Tick; Poll; Settle] in
  delivered (happen (dispatch ++ warm ++ look) (resumed k t)) = [(k, last_uuid tc, strip (final_text tc))] ∧
  delivered (happen (dispatch ++ look) (resumed k t)) = [].
Proof.
  intros Hk Hr Ev Hd Hm Ht dispatch warm look. destruct route as [|kv route]; [done|].
  assert (∀ s, watched k s = bool_decide (k ∉ _bootstrapping_convs s) && bool_decide (k ∉ _compacting_convs s) &&
     match dget k (_conv_route_cache s) with Some (_ :: _) => true | _ => false end) as Hw
    by (intros s; unfold watched; by rewrite (bool_decide_eq_true_2 _ Hk)).
  subst dispatch warm look. split; cbn [happen foldl app happens beat polled set_world set_skipped unmark resumed quiet
    active _bootstrapping_convs _compacting_convs _conv_route_cache transcripts]; rewrite !sadd_new, ?sadd_same, ?sdrop_same;
    cbn [set_beat poll beat polled]; rewrite Hw; cbn.
  - rewrite !(decide_False (P := k ≠ k)) by auto.
    rewrite !bool_decide_eq_true_2 by apply not_elem_of_nil. rewrite decide_True by done. cbn.
    unfold watch_poll. cbn. rewrite decide_True by done. rewrite Ev. cbn. unfold deliver_new. rewrite Hd, (truthy_id _ Hm). cbn.
    destruct (last_uuid tc) as [| | | |[|c u]| |]; try done. cbn. by destruct (strip (final_text tc)).
  - by rewrite bool_decide_eq_false_2 by (intros Hn; apply Hn; by left).
Qed.

Lemma deliver_old k tc s : jget k (_last_delivered_marker s) = last_uuid tc → is_id (last_uuid tc) → deliver_new k tc s = s.
Proof.
  intros Hj Hm. unfold deliver_new. rewrite Hj, (proj2 (py_eq_id (last_uuid tc) _ Hm) eq_refl), orb_true_r.
  by destruct (negb (done tc)).
Qed.

(** An answer that was written but not yet looked at is never forwarded once
    the next message of its conversation is dispatched: the baseline moves over
    it, and as long as the transcript does not change no later look delivers it. *)
Theorem unseen_answer_swallowed k s t tc n :
  dget k (transcripts s) = Some t → evaluate_records (t_records t) = Ok tc → is_id (last_uuid tc) →
  let s1 := happens (Ready k) s in
  let look s := settle (poll (set_beat [k] None s)) in
  delivered (Nat.iter n look s1) = delivered s.
Proof.
  intros Ht Ev Hm s1 look.
  assert (∀ m s2, dget k (transcripts s2) = Some t → jget k (_last_delivered_marker s2) = last_uuid tc →
    let s3 := Nat.iter m look s2 in
    dget k (transcripts s3) = Some t ∧ jget k (_last_delivered_marker s3) = last_uuid tc ∧ delivered s3 = delivered s2) as Hl.
  { intros m s2 H1 H2. induction m as [|m (I1 & I2 & I3)]; [done|].
    change (Nat.iter (S m) look s2) with (look (Nat.iter m look s2)). set (s3 := Nat.iter m look s2) in *. cbv zeta.
    rewrite <- I3. clearbody s3. clear I3. unfold look, poll. cbn [beat set_beat].
    destruct (watched k _); [|done]. unfold watch_poll. cbn [transcripts set_beat]. rewrite I1.
    destruct (match dget k _ with Some z => _ | None => _ end); [done|]. rewrite Ev.
    cbn [mbind res_bind settle polled set_beat]. by rewrite deliver_old. }
  destruct (Hl n s1) as (_ & _ & ->); subst s1; cbn; unfold seed_marker, eval_conv_transcript; rewrite Ht;
    cbn; rewrite Ev; cbn; unfold jget; by rewrite ?dget_dset_eq.
Qed.

(** ** Evaluation *)

Module WatcherDemo.

Definition answer (u req text reason : string) : json :=
  JObj [(§"type", JStr (§"assistant")); (§"uuid", JStr (§u)); (§"requestId", JStr (§req));
        (§"message", JObj [(§"stop_reason", JStr (§reason));
                           (§"content", JArr [JObj [(§"type", JStr (§"text")); (§"text", JStr (§text))]])])].
Definition note : json := JObj [(§"type", JStr (§"system")); (§"uuid", JStr (§"n"))].
Definition k : pystr := §"feishu:chat:1".
Definition route : jdict := [(§"channel", JStr (§"feishu"))].

(** A conversation is brought up, answers twice, is closed and comes back. *)
Definition day : list happening :=
  [Routed k route; Begin k; Opened k; Written k (answer "b" "r0" "ready" "end_turn") 1; Tick; Poll; Ready k;
   Written k (answer "a1" "r1" "one moment" "end_turn") 2; Tick; Poll; Settle; Written k note 3; Tick; Poll; Settle;
   Written k (answer "a2" "r2" "" "tool_use") 4; Tick; Poll; Written k (answer "a3" "r2" " and the rest" "end_turn") 5; Settle;
   Tick; Poll; Settle; Closed k; Forgotten k;
   Routed k route; Begin k; Opened k; Tick; Poll; Ready k; Unmark k; Tick; Poll; Settle].

Example day_delivers : delivered (happen day quiet) =
  [(k, JStr (§"a1"), §"one moment"); (k, JStr (§"a3"), §"and the rest")].
Proof. vm_compute. reflexivity. Qed.

Lemma answers_forwarded_once_witness :
  all_orderly day quiet = true ∧ NoDup (delivered (happen day quiet)).*1.
Proof. split; [vm_compute; reflexivity|]. apply (answers_forwarded_once day). vm_compute. reflexivity. Defined.

Definition history : transcript := {| t_mtime := 7; t_records := [answer "old" "r0" "yesterday" "end_turn"; note] |}.

Lemma warmup_forwards_history_witness :
  delivered (happen [Routed k route; Begin k; Opened k; Begin k; Unmark k; Tick; Poll; Settle] (resumed k history)) =
    [(k, JStr (§"old"), §"yesterday")].
Proof.
  refine (proj1 (warmup_forwards_history k route history
    {| done := true; stop_reason := JStr (§"end_turn"); final_text := §"yesterday"; request_id := JStr (§"r0");
       last_uuid := JStr (§"old"); pending_tool_use := false |} _ _ _ _ _ _));
    first [vm_compute; reflexivity|vm_compute; discriminate|exact I].
Defined.

Lemma unseen_answer_swallowed_witness :
  let look s := settle (poll (set_beat [k] None s)) in
  delivered (Nat.iter 3 look (happens (Ready k) (resumed k history))) = [].
Proof.
  refine (unseen_answer_swallowed k (resumed k history) history
    {| done := true; stop_reason := JStr (§"end_turn"); final_text := §"yesterday"; request_id := JStr (§"r0");
       last_uuid := JStr (§"old"); pending_tool_use := false |} 3 _ _ _);
    first [vm_compute; reflexivity|exact I].
Defined.

Lemma look_delivers_witness :
  delivered (settle (poll (set_beat [k] None (happens (Routed k route) (resumed k history))))) =
    [(k, JStr (§"old"), §"yesterday")].
Proof.
  refine (proj1 (look_delivers k [] (set_beat [k] None (happens (Routed k route) (resumed k history))) history
    {| done := true; stop_reason := JStr (§"end_turn"); final_text := §"yesterday"; request_id := JStr (§"r0");
       last_uuid := JStr (§"old"); pending_tool_use := false |} _ _ _ _ _ _));
    first [vm_compute; reflexivity|exact I].
Defined.

Lemma noise_ignored_witness :
  evaluate_records [note; answer "a" "r0" "x" "end_turn"; note] = evaluate_records [answer "a" "r0" "x" "end_turn"].
Proof.
  refine (eq_trans (noise_ignored [note; answer "a" "r0" "x" "end_turn"; note] _) _); [|vm_compute; reflexivity].
  repeat constructor; eexists; reflexivity.
Defined.

End WatcherDemo.
