(* ===== verification/Bridge.v ===== *)
(** * The bridge to the browser's extension

    browser/extension/protocol.py and native_host.py: the frames, the daemon that
    multiplexes command-line clients onto the one extension, the relay the browser
    starts, and the client. *)

From Stdlib Require Import QArith.
From S2P Require Import Prelude PyStr Json JsonText.
From stdpp Require Import prelude list strings.

Local Open Scope N_scope.

(** ** Frames *)

(** [struct.pack("<I", n)] and [struct.unpack("<I", b)]. *)
Definition pack_I (n : N) : res bytes :=
  if n <? 4294967296 then Ok [n mod 256; n / 256 mod 256; n / 65536 mod 256; n / 16777216]
  else Raise StructError.
Definition unpack_I (b : bytes) : N := foldr (λ x a, x + 256 * a) 0 b.

Section frames.
Context `{FloatText}.

Definition encode_frame (obj : json) : res bytes :=
  t ← json_dumps obj;
  payload ← utf8_encode t;
  h ← pack_I (N.of_nat (length payload));
  Ok (h ++ payload).

Definition parse_body (body : bytes) : res (option json) :=
  match (t ← utf8_decode body; json_loads t) with
  | Some v => Ok (Some v)
  | None => Raise ValueError
  end.

(** A frame from a stream that has ended or will: what the stream still holds,
    and the frame, [None] at its end. *)
Definition read_frame_sync (stream : bytes) : res (option json) * bytes :=
  if (length stream <? 4)%nat then (Ok None, [])
  else
    let length_ := N.to_nat (unpack_I (take 4 stream)) in
    let stream := drop 4 stream in
    if (length stream <? length_)%nat then (Ok None, [])
    else (parse_body (take length_ stream), drop length_ stream).

(** A frame from the bytes a connection has received: [None] while it waits for
    more of them; at the end of the stream the wait is over. *)
Definition read_frame_async (received : bytes) (eof : bool) : option (res (option json) * bytes) :=
  if (length received <? 4)%nat then if eof then Some (Ok None, []) else None
  else
    let length_ := N.to_nat (unpack_I (take 4 received)) in
    let rest := drop 4 received in
    if (length rest <? length_)%nat then if eof then Some (Ok None, []) else None
    else Some (parse_body (take length_ rest), drop length_ rest).

(** The loops that read until a frame does not come: the frames, the bytes not
    yet read, and whether a frame was no document.  A frame takes four bytes at
    least, so the length of the bytes is fuel enough. *)
Fixpoint read_frames (fuel : nat) (received : bytes) : list json * bytes * bool :=
  match fuel with
  | O => ([], received, false)
  | S fuel =>
      match read_frame_async received false with
      | None => ([], received, false)
      | Some (Ok (Some v), rest) => let '(l, r, bad) := read_frames fuel rest in (v :: l, r, bad)
      | Some (_, rest) => ([], rest, true)
      end
  end.

(** Bytes arrive in pieces; after each the loop reads what it can. *)
Definition arrive (st : list json * bytes * bool) (chunk : bytes) : list json * bytes * bool :=
  let '(l, r, bad) := st in
  if bad then st
  else let '(l', r', bad') := read_frames (length (r ++ chunk)) (r ++ chunk) in (l ++ l', r', bad').
End frames.

(** ** The daemon *)

Abbreviation conn := nat.

(** [for c in self._clients] in progress: the frame, the members it has yielded,
    those that failed, and the set as the iteration knew it. *)
Record broadcast := { frame : json; yielded : list conn; dead : list conn; size : nat; edition : nat }.

(** The fields of [Daemon]; beside them the handlers that run, the connections
    closed, the changes the set of clients has seen, and the frames written. *)
Record daemon := {
  _extension_writer : option conn;
  _extension_ready : bool;
  _pending : dict pystr (conn * json);
  _clients : list conn;
  _next_id : N;
  serving : list conn;
  known : list conn;
  closed : list conn;
  edits : nat;
  ongoing : option broadcast;
  sent : list (conn * json);
}.

Definition new_daemon : daemon :=
  {| _extension_writer := None; _extension_ready := false; _pending := []; _clients := []; _next_id := 0;
     serving := []; known := []; closed := []; edits := 0; ongoing := None; sent := [] |}.

Implicit Types (d : daemon) (c : conn) (msg : jdict).

Definition set_extension (w : option conn) (ready : bool) d : daemon :=
  {| _extension_writer := w; _extension_ready := ready; _pending := _pending d; _clients := _clients d;
     _next_id := _next_id d; serving := serving d; known := known d; closed := closed d; edits := edits d;
     ongoing := ongoing d; sent := sent d |}.
Definition set_pending p d : daemon :=
  {| _extension_writer := _extension_writer d; _extension_ready := _extension_ready d; _pending := p;
     _clients := _clients d; _next_id := _next_id d; serving := serving d; known := known d; closed := closed d;
     edits := edits d; ongoing := ongoing d; sent := sent d |}.
Definition set_next_id n d : daemon :=
  {| _extension_writer := _extension_writer d; _extension_ready := _extension_ready d; _pending := _pending d;
     _clients := _clients d; _next_id := n; serving := serving d; known := known d; closed := closed d;
     edits := edits d; ongoing := ongoing d; sent := sent d |}.
Definition set_clients (l : list conn) d : daemon :=
  {| _extension_writer := _extension_writer d; _extension_ready := _extension_ready d; _pending := _pending d;
     _clients := l; _next_id := _next_id d; serving := serving d; known := known d; closed := closed d;
     edits := S (edits d); ongoing := ongoing d; sent := sent d |}.
Definition set_serving (l : list conn) d : daemon :=
  {| _extension_writer := _extension_writer d; _extension_ready := _extension_ready d; _pending := _pending d;
     _clients := _clients d; _next_id := _next_id d; serving := l; known := known d; closed := closed d;
     edits := edits d; ongoing := ongoing d; sent := sent d |}.
Definition met c d : daemon :=
  {| _extension_writer := _extension_writer d; _extension_ready := _extension_ready d; _pending := _pending d;
     _clients := _clients d; _next_id := _next_id d; serving := serving d; known := c :: known d; closed := closed d;
     edits := edits d; ongoing := ongoing d; sent := sent d |}.
Definition close c d : daemon :=
  {| _extension_writer := _extension_writer d; _extension_ready := _extension_ready d; _pending := _pending d;
     _clients := _clients d; _next_id := _next_id d; serving := serving d; known := known d; closed := c :: closed d;
     edits := edits d; ongoing := ongoing d; sent := sent d |}.
Definition set_ongoing (b : option broadcast) d : daemon :=
  {| _extension_writer := _extension_writer d; _extension_ready := _extension_ready d; _pending := _pending d;
     _clients := _clients d; _next_id := _next_id d; serving := serving d; known := known d; closed := closed d;
     edits := edits d; ongoing := b; sent := sent d |}.
Definition write c (v : json) d : daemon :=
  {| _extension_writer := _extension_writer d; _extension_ready := _extension_ready d; _pending := _pending d;
     _clients := _clients d; _next_id := _next_id d; serving := serving d; known := known d; closed := closed d;
     edits := edits d; ongoing := ongoing d; sent := sent d ++ [(c, v)] |}.

(** [self._clients.add] and [self._clients.discard]. *)
Definition add_client c d : daemon := set_clients (_clients d ++ [c]) d.
Definition discard_client c d : daemon :=
  if decide (c ∈ _clients d) then set_clients (filter (λ x, x ≠ c) (_clients d)) d else d.

Definition _alloc_id : M daemon pystr := λ d,
  (Ok (§"d-" ++ str_of_N (_next_id d + 1)), set_next_id (_next_id d + 1) d).

Definition EXTENSION_NOT_READY : Z := (-32003)%Z.

Section daemon.
Context `{FloatText}.

(** [w.write(encode_frame(v)); await w.drain()]: a write does not fail, the wait
    for it does where the peer is gone. *)
Definition send c (v : json) (drained : bool) : M daemon unit :=
  _ ← lift_res (encode_frame v);
  modify (write c v);;
  (if drained then mret tt else raise OSError).

Definition _route_from_client msg c (drained : bool) : M daemon unit :=
  w ← gets _extension_writer;
  match w with
  | None =>
      send c (JObj [(§"jsonrpc", JStr (§"2.0")); (§"id", jget (§"id") msg);
                    (§"error", JObj [(§"code", JInt EXTENSION_NOT_READY);
                                     (§"message", JStr (§"extension not connected"))])]) drained
  | Some w =>
      let original_id := jget (§"id") msg in
      daemon_id ← _alloc_id;
      modify (λ d, set_pending (dset daemon_id (c, original_id) (_pending d)) d);;
      send w (JObj (dset (§"id") (JStr daemon_id) msg)) drained
  end.

(** [self._pending.pop(mid, None)]: only strings are keys, and what cannot be a
    key is a [TypeError]. *)
Definition pop_pending (mid : json) : M daemon (option (conn * json)) :=
  match mid with
  | JStr i => d ← get_st; modify (set_pending (ddel i (_pending d)));; mret (dget i (_pending d))
  | JArr _ | JObj _ => raise TypeError
  | _ => mret None
  end.

(** The extension's frames: an event starts the loop over the clients. *)
Definition _route_from_extension msg (drained : bool) : M daemon unit :=
  match jget (§"id") msg with
  | JNull =>
      _ ← lift_res (encode_frame (JObj msg));
      modify (λ d, set_ongoing (Some {| frame := JObj msg; yielded := []; dead := []; size := length (_clients d);
                                        edition := edits d |}) d)
  | mid =>
      entry ← pop_pending mid;
      match entry with
      | None => mret tt
      | Some (client, original_id) =>
          suppress (λ _, true) (send client (JObj (dset (§"id") original_id msg)) drained)
      end
  end.

(** The [finally] of the two handlers. *)
Definition end_extension d : daemon :=
  match _extension_writer d with
  | Some w => close w (set_extension None false (set_ongoing None d))
  | None => d
  end.
Definition end_client c d : daemon :=
  close c (discard_client c (set_serving (filter (λ x, x ≠ c) (serving d)) d)).

(** What can happen: a connection's first frame; a frame of a client or of the
    extension; the end of either's loop; and of the loop over the clients its next
    member, its end, and the discovery that the set has changed its size. *)
Inductive happening :=
  | Hello c (hello : option json)
  | FromClient c (frame : json) (drained : bool)
  | ClientEnds c
  | FromExtension (frame : json) (drained : bool)
  | ExtensionEnds
  | Next c (drained : bool)
  | Finished
  | Changed.

Definition handle_conn c (hello : option json) d : daemon :=
  match hello with
  | None => close c d
  | Some (JObj h) =>
      if str_is (§"extension") (jget (§"role") h) then
        match _extension_writer d with
        | Some _ => close c d
        | None => set_extension (Some c) true d
        end
      else add_client c (set_serving (c :: serving d) d)
  | Some _ => d
  end.

(** A frame that is no object has no [get]. *)
Definition routed (v : json) (f : jdict → M daemon unit) : M daemon unit := m ← lift_res (as_obj v); f m.

(** [None] where it cannot happen. *)
Definition step d (h : happening) : option daemon :=
  match h with
  | Hello c hello => if decide (c ∈ known d) then None else Some (handle_conn c hello (met c d))
  | FromClient c v drained =>
      if decide (c ∈ serving d) then
        match routed v (λ m, _route_from_client m c drained) d with
        | (Ok _, d) => Some d
        | (Raise _, d) => Some (end_client c d)
        end
      else None
  | ClientEnds c => if decide (c ∈ serving d) then Some (end_client c d) else None
  | FromExtension v drained =>
      match _extension_writer d, ongoing d with
      | Some _, None =>
          match routed v (λ m, _route_from_extension m drained) d with
          | (Ok _, d) => Some d
          | (Raise _, d) => Some (end_extension d)
          end
      | _, _ => None
      end
  | ExtensionEnds =>
      match _extension_writer d, ongoing d with Some _, None => Some (end_extension d) | _, _ => None end
  | Next c drained =>
      match ongoing d with
      | Some b =>
          if decide (size b = length (_clients d) ∧ c ∈ _clients d ∧ (edition b = edits d → c ∉ yielded b)) then
            Some (set_ongoing (Some {| frame := frame b; yielded := c :: yielded b;
                                       dead := if drained then dead b else dead b ++ [c];
                                       size := size b; edition := edition b |}) (write c (frame b) d))
          else None
      | None => None
      end
  | Finished =>
      match ongoing d with
      | Some b =>
          if decide (size b = length (_clients d) ∧ (edition b = edits d → _clients d ⊆ yielded b))
          then Some (set_ongoing None (foldr discard_client d (dead b)))
          else None
      | None => None
      end
  | Changed =>
      match ongoing d with
      | Some b => if decide (size b = length (_clients d)) then None else Some (end_extension d)
      | None => None
      end
  end.

Fixpoint run d (l : list happening) : option daemon :=
  match l with
  | [] => Some d
  | h :: l => d ← step d h; run d l
  end.
End daemon.

(** ** The client *)

Section client.
Context `{FloatText}.

(** [call_async]: the request, and the frame that answers it among those that
    come, the first that carries its id. *)
Definition call_id (n : N) : pystr := §"c-" ++ str_of_N n.
Definition request (n : N) (method : pystr) (params : jdict) : jdict :=
  [(§"jsonrpc", JStr (§"2.0")); (§"id", JStr (call_id n)); (§"method", JStr method); (§"params", JObj params)].
Fixpoint await_reply (mid : pystr) (frames : list json) : option (res json) :=
  match frames with
  | [] => None
  | v :: l => match v with
              | JObj m => if str_is mid (jget (§"id") m) then Some (Ok v) else await_reply mid l
              | _ => Some (Raise AttributeError)
              end
  end.

(** ** The relay *)

(** [stdio_to_uds]: what it has written to the daemon, and whether it still
    reads; [uds_to_stdio] goes on either way. *)
Record relay := { to_daemon : bytes; reading : bool; uds_closed : bool }.
Definition stdio_to_uds (stream : bytes) (r : relay) : relay * bytes :=
  if reading r then
    match read_frame_sync stream with
    | (Ok None, rest) => ({| to_daemon := to_daemon r; reading := false; uds_closed := true |}, rest)
    | (Ok (Some v), rest) =>
        match encode_frame v with
        | Ok b => ({| to_daemon := to_daemon r ++ b; reading := true; uds_closed := uds_closed r |}, rest)
        | Raise _ => ({| to_daemon := to_daemon r; reading := false; uds_closed := uds_closed r |}, rest)
        end
    | (Raise _, rest) => ({| to_daemon := to_daemon r; reading := false; uds_closed := uds_closed r |}, rest)
    end
  else (r, stream).
End client.

(** ** Frames there and back *)

Section frame_facts.
Context `{FloatText} (double : Q → bool) {Hfloats : FloatLaws double}.

Lemma unpack_pack n h : pack_I n = Ok h → length h = 4%nat ∧ unpack_I h = n.
Proof.
  unfold pack_I. destruct (N.ltb_spec n 4294967296) as [Hn|]; [|done]. intros [= <-]. split; [done|]. cbn [unpack_I foldr].
  pose proof (N.Div0.div_mod n 256) as H1. pose proof (N.Div0.div_mod (n / 256) 256) as H2.
  pose proof (N.Div0.div_mod (n / 65536) 256) as H3.
  rewrite !N.Div0.div_div in H2. rewrite !N.Div0.div_div in H3. change (256 * 256) with 65536 in *.
  change (65536 * 256) with 16777216 in *. lia.
Qed.

Lemma parse_payload v t b : json_ok double v = true → json_dumps v = Ok t → utf8_encode t = Ok b →
  parse_body b = Ok (Some v).
Proof.
  intros Hok Ht Hb. unfold parse_body. rewrite (utf8_roundtrip t b Hb). cbn [mbind option_bind].
  by rewrite (loads_dumps double v t Hok Ht).
Qed.

Lemma encode_frame_inv v b : json_ok double v = true → encode_frame v = Ok b →
  ∃ h p, b = h ++ p ∧ length h = 4%nat ∧ N.to_nat (unpack_I h) = length p ∧ parse_body p = Ok (Some v).
Proof.
  intros Hok. unfold encode_frame, mbind, res_bind. destruct (json_dumps v) as [t|] eqn:Ht; [|done].
  destruct (utf8_encode t) as [p|] eqn:Hp; [|done]. destruct (pack_I _) as [h|] eqn:Hh; [|done]. intros [= <-].
  destruct (unpack_pack _ _ Hh) as [Hl Hu]. exists h, p. rewrite Hu, Nat2N.id. eauto using parse_payload.
Qed.

(** A frame is read back whole, and nothing of what follows it. *)
Lemma frame_roundtrip v b rest eof : json_ok double v = true → encode_frame v = Ok b →
  read_frame_async (b ++ rest) eof = Some (Ok (Some v), rest) ∧ read_frame_sync (b ++ rest) = (Ok (Some v), rest).
Proof.
  intros Hok Hb. destruct (encode_frame_inv v b Hok Hb) as (h & p & -> & Hh & Hu & Hp).
  unfold read_frame_async, read_frame_sync. rewrite <- app_assoc, take_app_length', drop_app_length' by done.
  rewrite Hu, !length_app, take_app_length, drop_app_length, Hp.
  replace ((length h + (length p + length rest) <? 4)%nat) with false by (symmetry; apply Nat.ltb_ge; lia).
  by replace ((length p + length rest <? length p)%nat) with false by (symmetry; apply Nat.ltb_ge; lia).
Qed.

(** Of a frame that has not come whole nothing is read. *)
Lemma frame_prefix_waits v b s t : json_ok double v = true → encode_frame v = Ok b → b = s ++ t → t ≠ [] →
  read_frame_async s false = None.
Proof.
  intros Hok Hb Hs Ht. destruct (encode_frame_inv v b Hok Hb) as (h & p & Hhp & Hh & Hu & _).
  unfold read_frame_async. destruct (Nat.ltb_spec (length s) 4) as [|Hl]; [done|].
  rewrite Hs in Hhp. assert (take 4 s = h) as ->.
  { rewrite <- (take_app_le s t 4) by done. rewrite Hhp. by apply take_app_length'. }
  apply (f_equal length) in Hhp. rewrite !length_app in Hhp. rewrite Hu, length_drop.
  destruct (Nat.ltb_spec (length s - 4) (length p)) as [|Hge]; [done|].
  destruct t; [done|]. cbn in Hhp. lia.
Qed.

(** The messages and the frames they were written as. *)
Definition framed (v : json) (b : bytes) : Prop := json_ok double v = true ∧ encode_frame v = Ok b.

Lemma framed_not_nil v b : framed v b → b ≠ [].
Proof. intros [Hok Hb] ->. by destruct (encode_frame_inv v [] Hok Hb) as ([] & p & ? & ? & _). Qed.

Lemma read_frames_stream msgs bs : Forall2 framed msgs bs → ∀ fuel s more,
  s ++ more = concat bs → (length s ≤ fuel)%nat →
  ∃ ms ms' bs' r, msgs = ms ++ ms' ∧ Forall2 framed ms' bs' ∧ read_frames fuel s = (ms, r, false) ∧
    r ++ more = concat bs' ∧ (more = [] → ms' = []).
Proof using Hfloats.
  induction 1 as [|v b msgs bs Hvb Hall IH]; intros fuel s more Hs Hfuel.
  - cbn in Hs. apply app_nil_iff in Hs as [-> ->]. exists [], [], [], []. by destruct fuel.
  - cbn [concat] in Hs. destruct (decide (length b ≤ length s)%nat) as [Hle|Hgt].
    + pose proof (f_equal (take (length b)) Hs) as Ht. rewrite take_app_length, take_app_le in Ht by done.
      pose proof (f_equal (drop (length b)) Hs) as Hd. rewrite drop_app_length, drop_app_le in Hd by done.
      rewrite <- (take_drop (length b) s) in Hfuel |- *. rewrite Ht in *. set (s1 := drop (length b) s) in *.
      assert (length b ≠ 0%nat) by (intros ?%nil_length_inv; by apply (framed_not_nil v b)).
      rewrite length_app in Hfuel. destruct fuel as [|fuel]; [lia|].
      destruct (IH fuel s1 more Hd ltac:(lia)) as (ms & ms' & bs' & r & -> & Hf & Hr & Hmore & Hend).
      exists (v :: ms), ms', bs', r. repeat split; [done| |done|done]. cbn [read_frames]. destruct Hvb as [Hok Hb].
      rewrite (proj1 (frame_roundtrip v b s1 false Hok Hb)). by rewrite Hr.
    + exists [], (v :: msgs), (b :: bs), s. repeat split; [by constructor| |done|].
      * destruct fuel as [|fuel]; [done|]. cbn [read_frames]. destruct Hvb as [Hok Hb].
        rewrite (frame_prefix_waits v b s (drop (length s) b) Hok Hb); [done| |].
        -- rewrite <- (take_drop (length s) b) at 1. f_equal.
           pose proof (f_equal (take (length s)) Hs) as Ht. rewrite take_app_length, take_app_le in Ht by lia. done.
        -- intros Hn%(f_equal length). rewrite length_drop in Hn. cbn in Hn. lia.
      * intros ->. rewrite app_nil_r in Hs. subst s. rewrite length_app in Hgt. lia.
Qed.

Lemma arrive_stream chunks : ∀ done msgs bs r more, Forall2 framed msgs bs → r ++ concat chunks ++ more = concat bs →
  ∃ ms ms' bs' r', msgs = ms ++ ms' ∧ Forall2 framed ms' bs' ∧
    foldl arrive (done, r, false) chunks = (done ++ ms, r', false) ∧ r' ++ more = concat bs'.
Proof using Hfloats.
  induction chunks as [|k chunks IH]; intros dn msgs bs r more Hf Hs; cbn [concat foldl] in *.
  - exists [], msgs, bs, r. by rewrite app_nil_r.
  - destruct (read_frames_stream msgs bs Hf (length (r ++ k)) (r ++ k) (concat chunks ++ more)) as
      (ms & ms' & bs' & r1 & -> & Hf' & Hr & Hrest & _); [by rewrite <- Hs, <- !app_assoc|done|].
    destruct (IH (dn ++ ms) ms' bs' r1 more Hf' Hrest) as (ms1 & ms2 & bs2 & r2 & -> & Hf2 & Hr2 & Hrest2).
    exists (ms ++ ms1), ms2, bs2, r2. rewrite !app_assoc. repeat split; [done| |done].
    cbn [arrive]. rewrite Hr, Hr2. done.
Qed.

(** Of frames that wait for more bytes, nothing is left once all bytes are there. *)
Lemma rest_incomplete fuel s ms r : read_frames fuel s = (ms, r, false) → (length s ≤ fuel)%nat →
  read_frame_async r false = None.
Proof.
  revert s ms. induction fuel as [|fuel IH]; intros s ms; cbn [read_frames].
  - intros [= <- <-] Hl. assert (s = []) as -> by (apply nil_length_inv; lia). done.
  - destruct (read_frame_async s false) as [[[[v|]|] rest]|] eqn:E; intros Hr Hl; try done; [|by injection Hr as <- <-].
    destruct (read_frames fuel rest) as [[l r'] b'] eqn:Er. injection Hr as <- -> ->. eapply IH; [exact Er|].
    unfold read_frame_async in E. destruct (Nat.ltb_spec (length s) 4); [done|].
    destruct (_ <? _)%nat; [done|]. injection E as _ <-. rewrite !length_drop. lia.
Qed.

Lemma arrive_bad l r chunks : foldl arrive (l, r, true) chunks = (l, r, true).
Proof. by induction chunks. Qed.
Lemma arrive_waits chunks l r l' r' : foldl arrive (l, r, false) chunks = (l', r', false) →
  read_frame_async r false = None → read_frame_async r' false = None.
Proof.
  revert l r. induction chunks as [|k chunks IH]; intros l r; cbn [foldl]; [by intros [= _ ->]|].
  cbn [arrive]. destruct (read_frames (length (r ++ k)) (r ++ k)) as [[ms r1] bad] eqn:Er.
  destruct bad; [by rewrite arrive_bad|]. intros Hf _. eapply IH; [exact Hf|]. by eapply rest_incomplete.
Qed.

(** C35. Over a connection that cuts the stream anywhere, the messages written as
    frames are read one by one in the order they were written, and once all bytes
    have come, all of them and nothing else. *)
Theorem frames_arrive msgs bs chunks more : Forall2 framed msgs bs → concat chunks ++ more = concat bs →
  ∃ ms ms' r, msgs = ms ++ ms' ∧ foldl arrive ([], [], false) chunks = (ms, r, false) ∧
    (more = [] → ms' = [] ∧ r = []).
Proof using Hfloats.
  intros Hf Hs. destruct (arrive_stream chunks [] msgs bs [] more Hf Hs) as (ms & ms' & bs' & r & -> & Hf' & Hr & Hrest).
  exists ms, ms', r. split; [done|]. split; [exact Hr|]. intros ->. rewrite app_nil_r in Hrest. subst r.
  pose proof (arrive_waits _ _ _ _ _ Hr eq_refl) as Hw. destruct Hf' as [|v b ms' bs' [Hok Hb] _]; [done|].
  cbn [concat] in Hw. by rewrite (proj1 (frame_roundtrip v b _ false Hok Hb)) in Hw.
Qed.
End frame_facts.

(** ** Whose frames the daemon writes *)

Section routing.
Context `{FloatText}.

Definition daemon_id (k : nat) : pystr := §"d-" ++ str_of_N (N.of_nat k + 1).
Lemma daemon_id_inj k k' : daemon_id k = daemon_id k' → k = k'.
Proof. unfold daemon_id. intros E%(inj (app _))%str_of_N_inj. lia. Qed.

(** The history of a daemon: the requests it has passed on, with who asked and
    whether the answer has come, those it has turned down, and the frames the
    extension has sent. *)
Record call := { caller : conn; asked : jdict; answered : bool }.
Record history := { calls : list call; turned : list (conn * jdict); spoken : list json }.

Definition answer (x : call) : call := {| caller := caller x; asked := asked x; answered := true |}.
Definition settle (i : json) (l : list call) : list call :=
  imap (λ k x, if decide (i = JStr (daemon_id k)) then answer x else x) l.
Definition note d (g : history) (h : happening) : history :=
  match h with
  | FromClient c (JObj m) _ =>
      match _extension_writer d with
      | Some _ => {| calls := calls g ++ [{| caller := c; asked := m; answered := false |}]; turned := turned g; spoken := spoken g |}
      | None => {| calls := calls g; turned := turned g ++ [(c, m)]; spoken := spoken g |}
      end
  | FromExtension v _ =>
      {| calls := match v with JObj m => settle (jget (§"id") m) (calls g) | _ => calls g end; turned := turned g;
         spoken := spoken g ++ [v] |}
  | _ => g
  end.

Inductive reached : daemon → history → Prop :=
  | reached_start : reached new_daemon {| calls := []; turned := []; spoken := [] |}
  | reached_step d g h d' : reached d g → step d h = Some d' → reached d' (note d g h).

(** The frame that tells a client there is no extension. *)
Definition not_ready m : json :=
  JObj [(§"jsonrpc", JStr (§"2.0")); (§"id", jget (§"id") m);
        (§"error", JObj [(§"code", JInt EXTENSION_NOT_READY); (§"message", JStr (§"extension not connected"))])].

(** Where a frame written to [c] comes from. *)
Inductive origin (g : history) c : json → Prop :=
  | o_request k x : calls g !! k = Some x → origin g c (JObj (dset (§"id") (JStr (daemon_id k)) (asked x)))
  | o_refused m : (c, m) ∈ turned g → origin g c (not_ready m)
  | o_event m : JObj m ∈ spoken g → jget (§"id") m = JNull → origin g c (JObj m)
  | o_answer k x r : calls g !! k = Some x → caller x = c → answered x = true → JObj r ∈ spoken g →
      jget (§"id") r = JStr (daemon_id k) → origin g c (JObj (dset (§"id") (jget (§"id") (asked x)) r)).

Record tracks d g : Prop := {
  tr_next : _next_id d = N.of_nat (length (calls g));
  tr_wf : dict_wf (_pending d);
  tr_pending i p : dget i (_pending d) = Some p ↔
    ∃ k x, i = daemon_id k ∧ calls g !! k = Some x ∧ answered x = false ∧ p = (caller x, jget (§"id") (asked x));
  tr_sent : Forall (λ cv, origin g cv.1 cv.2) (sent d);
  tr_event b : ongoing d = Some b → ∃ m, frame b = JObj m ∧ JObj m ∈ spoken g ∧ jget (§"id") m = JNull;
}.

(** A history only grows: calls stay, and stay answered. *)
Record grows g g' : Prop := {
  gr_calls k x : calls g !! k = Some x → ∃ x', calls g' !! k = Some x' ∧ caller x' = caller x ∧ asked x' = asked x ∧
    (answered x = true → answered x' = true);
  gr_turned q : q ∈ turned g → q ∈ turned g';
  gr_spoken v : v ∈ spoken g → v ∈ spoken g';
}.

Lemma settle_lookup i l k : settle i l !! k = (λ x, if decide (i = JStr (daemon_id k)) then answer x else x) <$> l !! k.
Proof. unfold settle. by rewrite list_lookup_imap. Qed.

Lemma note_grows d g h : grows g (note d g h).
Proof.
  split.
  - intros k x Hx. destruct h as [| c [] dr | | v dr | | | |]; cbn; eauto.
    + destruct (_extension_writer d); [|eauto]. exists x. cbn. by rewrite lookup_app_l by (by eapply lookup_lt_Some).
    + destruct v as [| | | | | |m]; eauto. rewrite settle_lookup, Hx. cbn. case_decide; eauto.
  - intros q Hq. destruct h as [| c [] dr | | v' dr | | | |]; cbn; eauto. destruct (_extension_writer d); [done|].
    apply elem_of_app. by left.
  - intros v Hv. destruct h as [| c [] dr | | v' dr | | | |]; cbn; eauto; [by destruct (_extension_writer d)|].
    apply elem_of_app. by left.
Qed.

Lemma origin_grows g g' c v : grows g g' → origin g c v → origin g' c v.
Proof.
  intros Hg [k x Hx|m Hm|m Hm Hid|k x r Hx Hc Ha Hr Hid].
  - destruct (gr_calls _ _ Hg k x Hx) as (x' & Hx' & _ & <- & _). by apply o_request.
  - apply o_refused. by apply (gr_turned _ _ Hg).
  - apply o_event; [by apply (gr_spoken _ _ Hg)|done].
  - destruct (gr_calls _ _ Hg k x Hx) as (x' & Hx' & Hc' & <- & Ha'). eapply o_answer; eauto; [congruence|].
    by apply (gr_spoken _ _ Hg).
Qed.

(** Operations that leave ids, requests and frames alone. *)
Record quiet d d' : Prop := {
  q_next : _next_id d' = _next_id d;
  q_pending : _pending d' = _pending d;
  q_sent : sent d' = sent d;
  q_ongoing : ongoing d' = ongoing d ∨ ongoing d' = None;
}.
Lemma quiet_refl d : quiet d d.
Proof. split; auto. Qed.
Lemma quiet_trans d1 d2 d3 : quiet d1 d2 → quiet d2 d3 → quiet d1 d3.
Proof. intros [? ? ? [?|?]] [? ? ? [?|?]]; split; try congruence; (left + right; congruence). Qed.
Lemma quiet_discard c d : quiet d (discard_client c d).
Proof. unfold discard_client. case_decide; split; auto. Qed.
Lemma quiet_discards l d : quiet d (foldr discard_client d l).
Proof. induction l as [|c l IH]; [apply quiet_refl|]. cbn. eapply quiet_trans; [exact IH|apply quiet_discard]. Qed.
Lemma quiet_end_client c d : quiet d (end_client c d).
Proof.
  destruct (quiet_discard c (set_serving (filter (λ x, x ≠ c) (serving d)) d)) as [H1 H2 H3 H4]. by split.
Qed.
Lemma quiet_end_extension d : quiet d (end_extension d).
Proof. unfold end_extension. destruct (_extension_writer d); split; auto. Qed.
Lemma quiet_hello c hello d : quiet d (handle_conn c hello (met c d)).
Proof.
  unfold handle_conn. destruct hello as [[]|]; try (split; by auto). case_match; [|split; by auto].
  case_match; split; auto.
Qed.

Lemma tracks_quiet d d' g : quiet d d' → tracks d g → tracks d' g.
Proof.
  intros [Hn Hp Hs Ho] [T1 T2 T3 T4 T5]. split; [congruence|congruence|by rewrite Hp|congruence|].
  intros b Hb. apply T5. destruct Ho; congruence.
Qed.

Lemma tracks_write d g c v : tracks d g → origin g c v → tracks (write c v d) g.
Proof.
  intros Ht Hv. destruct Ht as [T1 T2 T3 T4 T5] eqn:E. split; try done.
  cbn. apply Forall_app. split; [done|]. by constructor.
Qed.

(** What sending does: nothing, or the frame is written; then it may still fail. *)
Lemma send_cases c v dr d : ∃ r, send c v dr d = (r, d) ∧ (∃ e, r = Raise e ∧ encode_frame v = Raise e) ∨
  send c v dr d = (r, write c v d) ∧ r = (if dr then Ok tt else Raise OSError) ∧ ∃ b, encode_frame v = Ok b.
Proof.
  unfold send. munfold. destruct (encode_frame v) as [b|e] eqn:E; [|exists (Raise e); left; eauto].
  destruct dr; [exists (Ok tt)|exists (Raise OSError)]; right; eauto.
Qed.

(** A request that is passed on. *)
Definition passed_on d m c : daemon :=
  set_pending (dset (daemon_id (N.to_nat (_next_id d))) (c, jget (§"id") m) (_pending d)) (set_next_id (_next_id d + 1) d).

Lemma daemon_id_next d g : tracks d g → §"d-" ++ str_of_N (_next_id d + 1) = daemon_id (length (calls g)).
Proof. intros Ht. unfold daemon_id. by rewrite (tr_next _ _ Ht). Qed.

Lemma tracks_passed_on d g m c : tracks d g →
  tracks (passed_on d m c)
    {| calls := calls g ++ [{| caller := c; asked := m; answered := false |}]; turned := turned g; spoken := spoken g |}.
Proof.
  intros Ht. set (g' := {| calls := _ |}). assert (grows g g') as Hg.
  { split; [|done|done]. intros k x Hx. exists x. cbn. by rewrite lookup_app_l by (by eapply lookup_lt_Some). }
  unfold passed_on. rewrite (tr_next _ _ Ht), Nat2N.id. destruct Ht as [T1 T2 T3 T4 T5]. split; cbn.
  - rewrite length_app. cbn. lia.
  - by apply dset_wf.
  - intros i p. destruct (decide (i = daemon_id (length (calls g)))) as [->|Hne].
    + rewrite dget_dset_eq. split.
      * intros [= <-]. eexists _, _. split; [done|]. by rewrite lookup_app_r, Nat.sub_diag by done.
      * intros (k & x & <-%daemon_id_inj & Hx & _ & ->). rewrite lookup_app_r, Nat.sub_diag in Hx by done.
        by injection Hx as <-.
    + rewrite dget_dset_ne, T3 by done. split; intros (k & x & -> & Hx & Ha & ->); exists k, x.
      * by rewrite lookup_app_l by (by eapply lookup_lt_Some).
      * repeat split; [|done]. apply lookup_app_Some in Hx as [Hx|[Hlen Hx]]; [done|].
        destruct (k - length (calls g))%nat as [|n] eqn:En; [|done]. by replace k with (length (calls g)) in Hne by lia.
  - eapply Forall_impl; [exact T4|]. intros ? ?. by eapply origin_grows.
  - done.
Qed.

Lemma route_from_client_run d g m c dr w : tracks d g → _extension_writer d = Some w →
  _route_from_client m c dr d =
  send w (JObj (dset (§"id") (JStr (daemon_id (length (calls g)))) m)) dr (passed_on d m c).
Proof.
  intros Ht Hw. unfold _route_from_client, _alloc_id. munfold. rewrite Hw, (daemon_id_next d g Ht).
  unfold passed_on. by rewrite (tr_next _ _ Ht), Nat2N.id.
Qed.

(** More that was turned down or said. *)
Lemma tracks_more d g g' : tracks d g → calls g' = calls g → grows g g' → tracks d g'.
Proof.
  intros [T1 T2 T3 T4 T5] Hc Hg. split; rewrite ?Hc; try done.
  - eapply Forall_impl; [exact T4|]. intros ? ?. by eapply origin_grows.
  - intros b Hb. destruct (T5 b Hb) as (m & ? & ? & ?). exists m. repeat split; [done| |done]. by apply (gr_spoken _ _ Hg).
Qed.

Lemma tracks_from_client d g c v dr : tracks d g →
  tracks (routed v (λ m, _route_from_client m c dr) d).2 (note d g (FromClient c v dr)).
Proof.
  intros Ht. destruct v as [| | | | | |m]; try done. unfold routed. cbn [as_obj]. munfold. cbn [note].
  destruct (_extension_writer d) as [w|] eqn:Hw.
  - rewrite (route_from_client_run d g m c dr w Ht Hw). pose proof (tracks_passed_on d g m c Ht) as Ht'.
    destruct (send_cases w (JObj (dset (§"id") (JStr (daemon_id (length (calls g)))) m)) dr (passed_on d m c))
      as (r & [[-> _]|[-> _]]); [done|]. cbn [snd]. apply tracks_write; [done|].
    refine (o_request _ w (length (calls g)) {| caller := c; asked := m; answered := false |} _).
    cbn. by rewrite lookup_app_r, Nat.sub_diag by done.
  - unfold _route_from_client. munfold. rewrite Hw. fold (not_ready m).
    assert (tracks d {| calls := calls g; turned := turned g ++ [(c, m)]; spoken := spoken g |}) as Ht'.
    { eapply tracks_more; [exact Ht|done|]. split; [eauto| |done]. intros q Hq. apply elem_of_app. by left. }
    destruct (send_cases c (not_ready m) dr d) as (r & [[-> _]|[-> _]]); [done|]. apply tracks_write; [done|].
    apply o_refused. cbn. apply elem_of_app. right. by apply list_elem_of_singleton.
Qed.

Lemma settle_other i l : (∀ k, i ≠ JStr (daemon_id k)) → settle i l = l.
Proof.
  intros Hi. apply list_eq. intros k. rewrite settle_lookup. destruct (l !! k); [|done]. cbn. by rewrite decide_False.
Qed.

(** A frame of the extension that answers nothing. *)
Lemma tracks_spoken d g v : tracks d g → tracks d {| calls := calls g; turned := turned g; spoken := spoken g ++ [v] |}.
Proof.
  intros Ht. eapply tracks_more; [exact Ht|done|]. split; [eauto|done|]. intros w Hw. apply elem_of_app. by left.
Qed.

Lemma tracks_settled d g i : tracks d g →
  tracks (set_pending (ddel i (_pending d)) d) {| calls := settle (JStr i) (calls g); turned := turned g; spoken := spoken g |}.
Proof.
  intros [T1 T2 T3 T4 T5]. set (g' := {| calls := _ |}). assert (grows g g') as Hg.
  { split; [|done|done]. intros k x Hx. cbn. rewrite settle_lookup, Hx. cbn. case_decide; eauto. }
  split; cbn.
  - unfold settle. by rewrite length_imap.
  - by apply ddel_wf.
  - intros j p. destruct (decide (j = i)) as [->|Hne].
    + rewrite dget_ddel_eq by done. split; [done|]. intros (k & x & -> & Hx & Ha & _).
      rewrite settle_lookup in Hx. destruct (calls g !! k); [|done]. cbn in Hx. rewrite decide_True in Hx by done.
      injection Hx as <-. done.
    + rewrite dget_ddel_ne, T3 by done. split; intros (k & x & -> & Hx & Ha & ->); exists k, x; repeat split; try done.
      * rewrite settle_lookup, Hx. cbn. by rewrite decide_False by congruence.
      * rewrite settle_lookup in Hx. destruct (calls g !! k); [|done]. cbn in Hx.
        rewrite decide_False in Hx by congruence. done.
  - eapply Forall_impl; [exact T4|]. intros ? ?. by eapply origin_grows.
  - intros b Hb. exact (T5 b Hb).
Qed.

Lemma suppressed_send c v dr d :
  suppress (λ _, true) (send c v dr) d = (Ok tt, match encode_frame v with Ok _ => write c v d | Raise _ => d end).
Proof.
  unfold suppress, send. munfold. destruct (encode_frame v); [|done]. by destruct dr.
Qed.

(** An answer, routed. *)
Lemma route_answer m i dr d : jget (§"id") m = JStr i → _route_from_extension m dr d =
  let d1 := set_pending (ddel i (_pending d)) d in
  (Ok tt, match dget i (_pending d) with
          | Some (client, original_id) =>
              match encode_frame (JObj (dset (§"id") original_id m)) with
              | Ok _ => write client (JObj (dset (§"id") original_id m)) d1
              | Raise _ => d1
              end
          | None => d1
          end).
Proof.
  intros Hi. unfold _route_from_extension. rewrite Hi. cbn [pop_pending]. munfold.
  destruct (dget i (_pending d)) as [[client oid]|]; [|done]. by rewrite suppressed_send.
Qed.

Lemma tracks_answer d g m i dr : tracks d g → jget (§"id") m = JStr i →
  tracks (_route_from_extension m dr d).2 (note d g (FromExtension (JObj m) dr)).
Proof.
  intros Ht Hi. rewrite (route_answer m i dr d Hi). cbn [note snd]. rewrite Hi. cbv zeta.
  pose proof (tracks_spoken _ _ (JObj m) (tracks_settled d g i Ht)) as Ht'. cbn [calls turned spoken] in Ht'.
  destruct (dget i (_pending d)) as [[client oid]|] eqn:Ep; [|done].
  destruct (encode_frame _); [|done]. apply tracks_write; [done|].
  apply (tr_pending _ _ Ht) in Ep as (k & x & -> & Hx & Ha & [= -> ->]).
  refine (o_answer _ _ k (answer x) m _ eq_refl eq_refl _ Hi); cbn.
  - rewrite settle_lookup, Hx. cbn. by rewrite decide_True.
  - apply elem_of_app. right. by apply list_elem_of_singleton.
Qed.

Lemma tracks_event_start d g m : tracks d g → jget (§"id") m = JNull → JObj m ∈ spoken g →
  tracks (set_ongoing (Some {| frame := JObj m; yielded := []; dead := []; size := length (_clients d); edition := edits d |}) d) g.
Proof. intros [T1 T2 T3 T4 T5] Hi Hm. split; try done. intros b [= <-]. by exists m. Qed.

Lemma tracks_from_extension d g v dr : tracks d g →
  tracks (routed v (λ m, _route_from_extension m dr) d).2 (note d g (FromExtension v dr)).
Proof.
  intros Ht. destruct v as [| | | | | |m]; try (by apply tracks_spoken). unfold routed. cbn [as_obj]. munfold.
  destruct (jget (§"id") m) as [| | | |i|l|l] eqn:Hi.
  5: by apply (tracks_answer d g m i dr).
  2-6: unfold _route_from_extension; rewrite Hi; cbn [note pop_pending]; munfold; rewrite Hi, settle_other by done;
       by apply tracks_spoken.
  cbn [note]. rewrite Hi, settle_other by done. unfold _route_from_extension. rewrite Hi. munfold.
  destruct (encode_frame (JObj m)); [|by apply tracks_spoken]. cbn [snd]. apply tracks_event_start; [by apply tracks_spoken|done|].
  cbn. apply elem_of_app. right. by apply list_elem_of_singleton.
Qed.

Lemma tracks_next d g b c dr : tracks d g → ongoing d = Some b →
  tracks (set_ongoing (Some {| frame := frame b; yielded := c :: yielded b; dead := if dr : bool then dead b else dead b ++ [c];
                               size := size b; edition := edition b |}) (write c (frame b) d)) g.
Proof.
  intros Ht Hb. destruct (tr_event _ _ Ht b Hb) as (m & Hm & Hin & Hi).
  destruct (tracks_write d g c (frame b) Ht) as [T1 T2 T3 T4 T5]; [rewrite Hm; by apply o_event|].
  split; try done. intros b' [= <-]. cbn. eauto.
Qed.

Lemma tracks_step d g h d' : tracks d g → step d h = Some d' → tracks d' (note d g h).
Proof.
  intros Ht Hs. destruct h as [c hello|c v dr|c|v dr| |c dr| |]; cbn [step] in Hs.
  - case_decide; [done|]. injection Hs as <-. by eapply tracks_quiet; [apply quiet_hello|].
  - case_decide; [|done]. pose proof (tracks_from_client d g c v dr Ht) as Ht'.
    destruct (routed _ _ d) as [[]]; injection Hs as <-; [done|]. by eapply tracks_quiet; [apply quiet_end_client|].
  - case_decide; [|done]. injection Hs as <-. by eapply tracks_quiet; [apply quiet_end_client|].
  - destruct (_extension_writer d) as [w|]; [|done]. destruct (ongoing d); [done|].
    pose proof (tracks_from_extension d g v dr Ht) as Ht'.
    destruct (routed _ _ d) as [[]]; injection Hs as <-; [done|]. by eapply tracks_quiet; [apply quiet_end_extension|].
  - destruct (_extension_writer d) as [w|]; [|done]. destruct (ongoing d); [done|]. injection Hs as <-.
    by eapply tracks_quiet; [apply quiet_end_extension|].
  - destruct (ongoing d) as [b|] eqn:Hb; [|done]. case_decide; [|done]. injection Hs as <-. by apply tracks_next.
  - destruct (ongoing d) as [b|] eqn:Hb; [|done]. case_decide; [|done]. injection Hs as <-.
    eapply tracks_quiet; [|exact Ht]. destruct (quiet_discards (dead b) d). split; auto.
  - destruct (ongoing d) as [b|]; [|done]. case_decide; [done|]. injection Hs as <-.
    by eapply tracks_quiet; [apply quiet_end_extension|].
Qed.

Lemma reached_tracks d g : reached d g → tracks d g.
Proof.
  induction 1 as [|d g h d' _ IH Hs]; [|by eapply tracks_step].
  split; try done; [constructor|]. intros i p. split; [done|]. intros (k & x & _ & Hx & _). done.
Qed.

(** ** What a client hears *)

Definition frames_to c d : list json := map snd (filter (λ cv, cv.1 = c) (sent d)).

Lemma await_reply_found mid l v : await_reply mid l = Some (Ok v) → v ∈ l ∧ ∃ m, v = JObj m ∧ jget (§"id") m = JStr mid.
Proof.
  induction l as [|x l IH]; [done|]. cbn. destruct x as [| | | | | |m]; try done.
  destruct (str_is mid (jget (§"id") m)) eqn:E.
  - intros [= <-]. split; [by left|]. exists m. split; [done|]. by apply str_is_iff.
  - intros Hr. destruct (IH Hr) as [Hin Hm]. split; [by right|done].
Qed.
Lemma await_reply_last mid l m : await_reply mid l = None → jget (§"id") m = JStr mid →
  await_reply mid (l ++ [JObj m]) = Some (Ok (JObj m)).
Proof.
  induction l as [|x l IH]; cbn [app await_reply].
  - intros _ Hm. by rewrite (proj2 (str_is_iff _ _) Hm).
  - destruct x as [| | | | | |m']; try done. destruct (str_is mid _); [done|]. exact IH.
Qed.

Lemma frames_to_elem c d v : v ∈ frames_to c d ↔ (c, v) ∈ sent d.
Proof.
  unfold frames_to. rewrite list_elem_of_fmap. split.
  - intros ([c' v'] & -> & [<- Hin]%list_elem_of_filter). done.
  - intros Hin. exists (c, v). split; [done|]. by apply list_elem_of_filter.
Qed.
Lemma frames_to_write c v d d' : sent d' = sent d ++ [(c, v)] → frames_to c d' = frames_to c d ++ [v].
Proof. intros E. unfold frames_to. rewrite E, filter_app, map_app, filter_cons_True by done. done. Qed.

Lemma daemon_id_not_call k n : daemon_id k ≠ call_id n.
Proof. unfold daemon_id, call_id. by intros [=]. Qed.

(** C18. What a client takes for the answer to its request is one: the daemon's
    word that there is no extension, about a request of this client under this id;
    or a frame the extension sent in answer to a request of this very client that
    had this id, with nothing but the id changed. *)
Theorem call_gets_own_answer d g c n v : reached d g → await_reply (call_id n) (frames_to c d) = Some (Ok v) →
  (∃ m, (c, m) ∈ turned g ∧ jget (§"id") m = JStr (call_id n) ∧ v = not_ready m) ∨
  (∃ k x r, calls g !! k = Some x ∧ caller x = c ∧ jget (§"id") (asked x) = JStr (call_id n) ∧ answered x = true ∧
     JObj r ∈ spoken g ∧ jget (§"id") r = JStr (daemon_id k) ∧ v = JObj (dset (§"id") (JStr (call_id n)) r)).
Proof.
  intros Hr [Hin (m & -> & Hm)]%await_reply_found. apply reached_tracks in Hr as Ht.
  rewrite frames_to_elem in Hin. pose proof (tr_sent _ _ Ht) as Hs. rewrite Forall_forall in Hs. specialize (Hs _ Hin).
  cbn [fst snd] in Hs. inversion Hs as [k x Hx E|m' Hm' E|m' Hm' Hid E|k x r Hx Hc Ha Hsp Hid E]; subst.
  - rewrite jget_dset_eq in Hm. assert (daemon_id k = call_id n) as E' by congruence. by apply daemon_id_not_call in E'.
  - left. by exists m'.
  - congruence.
  - right. rewrite jget_dset_eq in Hm. exists k, x, r. by rewrite Hm.
Qed.

(** C30. An answer of the extension reaches the client that asked.  Suppose a request
    of a client is unanswered and the extension, connected and with no event under way,
    answers it.  If the answer can be put into a frame (its text has no half of a
    surrogate pair, no integer too long to print, and fits the four bytes of the length),
    it is written to the client that asked and to nobody else, under the id the client
    used, and the client's wait ends with it.  If it cannot, nothing is written and the
    request is forgotten ([surrogate_answer_lost]).  In both cases a second answer to the
    same request is written to nobody. *)
Theorem answer_reaches_asker d g k x n r dr w : reached d g →
  calls g !! k = Some x → answered x = false → jget (§"id") (asked x) = JStr (call_id n) →
  _extension_writer d = Some w → ongoing d = None → jget (§"id") r = JStr (daemon_id k) →
  let a := JObj (dset (§"id") (JStr (call_id n)) r) in
  ∃ d', step d (FromExtension (JObj r) dr) = Some d' ∧
    match encode_frame a with
    | Ok _ => sent d' = sent d ++ [(caller x, a)] ∧
        (await_reply (call_id n) (frames_to (caller x) d) = None →
         await_reply (call_id n) (frames_to (caller x) d') = Some (Ok a))
    | Raise _ => sent d' = sent d
    end ∧
    (∀ r' dr' d'', jget (§"id") r' = JStr (daemon_id k) → step d' (FromExtension (JObj r') dr') = Some d'' →
       sent d'' = sent d').
Proof.
  intros Hr Hx Ha Hn Hw Hon Hid a. pose proof (reached_tracks _ _ Hr) as Ht.
  assert (dget (daemon_id k) (_pending d) = Some (caller x, JStr (call_id n))) as Hp.
  { apply (tr_pending _ _ Ht). exists k, x. by rewrite Hn. }
  set (d1 := set_pending (ddel (daemon_id k) (_pending d)) d).
  set (d' := match encode_frame a with Ok _ => write (caller x) a d1 | Raise _ => d1 end).
  pose proof (route_answer r (daemon_id k) dr d Hid) as Hrt. rewrite Hp in Hrt. fold a d1 d' in Hrt.
  assert (step d (FromExtension (JObj r) dr) = Some d') as Hs.
  { cbn [step]. rewrite Hw, Hon. unfold routed. cbn [as_obj]. munfold. by rewrite Hrt. }
  assert (_extension_writer d' = Some w ∧ ongoing d' = None ∧ _pending d' = _pending d1) as (Hw' & Hon' & Hp')
    by (unfold d'; by destruct (encode_frame a)).
  exists d'. split; [exact Hs|]. split.
  - unfold d'. destruct (encode_frame a); [|done]. split; [done|].
    intros Hnone. rewrite (frames_to_write _ a d) by done. apply await_reply_last; [done|]. apply jget_dset_eq.
  - intros r' dr' d'' Hid' Hs'. cbn [step] in Hs'.
    rewrite Hw', Hon' in Hs'. unfold routed in Hs'. cbn [as_obj] in Hs'. revert Hs'. munfold.
    rewrite (route_answer r' (daemon_id k) dr' _ Hid'). rewrite Hp'. cbn [_pending d1 set_pending].
    unfold d1. cbn [_pending set_pending]. rewrite dget_ddel_eq by (exact (tr_wf _ _ Ht)). by intros [= <-].
Qed.

(** ** Events *)

(** While the set of clients is left alone, those the loop has yielded have the
    frame, and none twice. *)
Definition heard d : Prop := ∀ b, ongoing d = Some b →
  (edition b ≤ edits d)%nat ∧ is_Some (_extension_writer d) ∧ (edition b = edits d → size b = length (_clients d)) ∧
  Forall (λ c, (c, frame b) ∈ sent d) (yielded b).

Lemma discard_edits c d : (edits d ≤ edits (discard_client c d))%nat ∧
  (edits (discard_client c d) = edits d → _clients (discard_client c d) = _clients d).
Proof. unfold discard_client. case_decide; cbn; [split; [lia|intros; lia]|done]. Qed.

Lemma heard_quiet d d' : heard d → (edits d ≤ edits d')%nat → (edits d' = edits d → _clients d' = _clients d) →
  (is_Some (_extension_writer d) → ongoing d' = None ∨ is_Some (_extension_writer d')) → quiet d d' → heard d'.
Proof.
  intros Hd He Hc Hw [_ _ Hs Ho] b Hb. destruct Ho as [Ho|Ho]; [|congruence]. rewrite Ho in Hb.
  destruct (Hd b Hb) as (H1 & H2 & H3 & H4). split_and!; [lia| | |by rewrite Hs].
  - destruct (Hw H2); [congruence|done].
  - intros E. rewrite Hc by lia. apply H3. lia.
Qed.

Lemma heard_write d d' : heard d → edits d' = edits d → _clients d' = _clients d → _extension_writer d' = _extension_writer d →
  ongoing d' = ongoing d → (∃ l, sent d' = sent d ++ l) → heard d'.
Proof.
  intros Hd He Hc Hw Ho [l Hs] b Hb. rewrite Ho in Hb. destruct (Hd b Hb) as (H1 & H2 & H3 & H4).
  rewrite He, Hc, Hw, Hs. split_and!; [done|done|done|]. eapply Forall_impl; [exact H4|]. intros c Hin.
  apply elem_of_app. by left.
Qed.

Lemma heard_idle d : ongoing d = None → heard d.
Proof. intros Hn b Hb. congruence. Qed.
Lemma heard_end_client c d : heard d → heard (end_client c d).
Proof.
  intros Hd. set (d1 := set_serving (filter (λ x, x ≠ c) (serving d)) d). destruct (discard_edits c d1) as [H1 H2].
  eapply heard_quiet; [exact Hd|exact H1|exact H2| |apply quiet_end_client]. intros Hw. right.
  unfold end_client, discard_client. by case_decide.
Qed.
Lemma heard_end_extension d : heard d → heard (end_extension d).
Proof.
  intros Hd. unfold end_extension. destruct (_extension_writer d) as [w|] eqn:Hw; [|done]. by apply heard_idle.
Qed.
Lemma heard_hello c hello d : heard d → heard (handle_conn c hello (met c d)).
Proof.
  intros Hd. assert (Hq := quiet_hello c hello d). revert Hq. unfold handle_conn.
  destruct hello as [[| | | | | |h]|]; [..|destruct (str_is _ _); [destruct (_extension_writer (met c d)) eqn:Hw|]|];
    intros Hq; (eapply heard_quiet; [exact Hd|cbn; lia|cbn; first [done|intros; lia]|cbn; eauto|exact Hq]).
Qed.

(** Passing frames on does not touch the clients or the loop over them. *)
Lemma send_keeps c v dr d : let d' := (send c v dr d).2 in
  edits d' = edits d ∧ _clients d' = _clients d ∧ _extension_writer d' = _extension_writer d ∧ ongoing d' = ongoing d ∧
  ∃ l, sent d' = sent d ++ l.
Proof.
  destruct (send_cases c v dr d) as (r & [[-> _]|[-> _]]); cbn; repeat split; [|by eexists]. exists []. by rewrite app_nil_r.
Qed.
Lemma heard_from_client c v dr d : heard d → heard (routed v (λ m, _route_from_client m c dr) d).2.
Proof.
  intros Hd. destruct v as [| | | | | |m]; try done. unfold routed. cbn [as_obj]. munfold. unfold _route_from_client. munfold.
  destruct (_extension_writer d) as [w|] eqn:Hw; cbn [_alloc_id].
  - unfold _alloc_id. match goal with |- heard (send ?c ?v ?r ?d1).2 => destruct (send_keeps c v r d1) as (H1 & H2 & H3 & H4 & H5) end.
    eapply heard_write; [exact Hd|exact H1|exact H2|exact H3|exact H4|exact H5].
  - match goal with |- heard (send ?c ?v ?r ?d1).2 => destruct (send_keeps c v r d1) as (H1 & H2 & H3 & H4 & H5) end.
    by eapply heard_write.
Qed.
Lemma heard_from_extension v dr d w : _extension_writer d = Some w → ongoing d = None →
  heard (routed v (λ m, _route_from_extension m dr) d).2.
Proof.
  intros Hw Hn. destruct v as [| | | | | |m]; try (by apply heard_idle). unfold routed. cbn [as_obj]. munfold.
  destruct (jget (§"id") m) as [| | | |i|l|l] eqn:Hi.
  5: { rewrite (route_answer m i dr d Hi). cbn [snd]. apply heard_idle. destruct (dget i (_pending d)) as [[cl oid]|]; [|done].
       by destruct (encode_frame _). }
  2-6: unfold _route_from_extension; rewrite Hi; cbn [pop_pending]; munfold; by apply heard_idle.
  unfold _route_from_extension. rewrite Hi. munfold. destruct (encode_frame (JObj m)); [|by apply heard_idle].
  intros b [= <-]. cbn. rewrite Hw. split_and!; [lia|done|done|constructor].
Qed.

Lemma ongoing_heard d b c dr : heard d → ongoing d = Some b →
  heard (set_ongoing (Some {| frame := frame b; yielded := c :: yielded b; dead := if dr : bool then dead b else dead b ++ [c];
                              size := size b; edition := edition b |}) (write c (frame b) d)).
Proof.
  intros Hd Hb b' [= <-]. destruct (Hd b Hb) as (H1 & H2 & H3 & H4). cbn. split_and!; [done|done|done|].
  constructor; [apply elem_of_app; right; by apply list_elem_of_singleton|].
  eapply Forall_impl; [exact H4|]. intros x Hx. apply elem_of_app. by left.
Qed.

Lemma heard_step d h d' : heard d → step d h = Some d' → heard d'.
Proof.
  intros Hd Hs. destruct h as [c hello|c v dr|c|v dr| |c dr| |]; cbn [step] in Hs.
  - case_decide; [done|]. injection Hs as <-. by apply heard_hello.
  - case_decide; [|done]. pose proof (heard_from_client c v dr d Hd).
    destruct (routed _ _ d) as [[]]; injection Hs as <-; [done|]. by apply heard_end_client.
  - case_decide; [|done]. injection Hs as <-. by apply heard_end_client.
  - destruct (_extension_writer d) as [w|] eqn:Hw; [|done]. destruct (ongoing d) eqn:Hn; [done|].
    pose proof (heard_from_extension v dr d w Hw Hn).
    destruct (routed _ _ d) as [[]]; injection Hs as <-; [done|]. by apply heard_end_extension.
  - destruct (_extension_writer d) as [w|]; [|done]. destruct (ongoing d); [done|]. injection Hs as <-.
    by apply heard_end_extension.
  - destruct (ongoing d) as [b|] eqn:Hb; [|done]. case_decide; [|done]. injection Hs as <-. by apply ongoing_heard.
  - destruct (ongoing d) as [b|] eqn:Hb; [|done]. case_decide; [|done]. injection Hs as <-. by apply heard_idle.
  - destruct (ongoing d) as [b|]; [|done]. case_decide; [done|]. injection Hs as <-. by apply heard_end_extension.
Qed.
Lemma reached_heard d g : reached d g → heard d.
Proof. induction 1 as [|d g h d' _ IH Hs]; [by apply heard_idle|by eapply heard_step]. Qed.

(** When the loop of an event ends and nobody came or went meanwhile, every
    client has its frame. *)
Theorem event_reaches_clients d g d' b : reached d g → ongoing d = Some b → edition b = edits d →
  step d Finished = Some d' → ∀ c, c ∈ _clients d → (c, frame b) ∈ sent d'.
Proof.
  intros Hr Hb He Hs c Hc. destruct (reached_heard d g Hr b Hb) as (_ & _ & _ & Hy). cbn in Hs. rewrite Hb in Hs.
  case_decide as Hd; [|done]. injection Hs as <-. cbn. rewrite (q_sent _ _ (quiet_discards (dead b) d)).
  rewrite Forall_forall in Hy. apply Hy. by apply Hd.
Qed.

(** A client that connects while an event is being handed round ends the
    link to the extension: the loop can neither go on nor end, the only thing left
    is the interpreter's complaint, and that closes the extension's connection. *)
Theorem joining_client_cuts_extension d g b c hello : reached d g → ongoing d = Some b → edition b = edits d →
  c ∉ known d → str_is (§"extension") (jget (§"role") hello) = false →
  ∃ d1 d2 w, step d (Hello c (Some (JObj hello))) = Some d1 ∧
    (∀ c' dr, step d1 (Next c' dr) = None) ∧ step d1 Finished = None ∧ step d1 Changed = Some d2 ∧
    _extension_writer d = Some w ∧ _extension_writer d2 = None ∧ w ∈ closed d2.
Proof.
  intros Hr Hb He Hc Hrole. destruct (reached_heard d g Hr b Hb) as (_ & [w Hw] & Hsz & _). specialize (Hsz He).
  assert (size b ≠ length (_clients d ++ [c])) as Hne by (rewrite length_app; cbn; lia).
  eexists _, _, w. cbn [step]. rewrite decide_False by done. split; [done|]. cbn [handle_conn]. rewrite Hrole.
  cbn [add_client set_clients ongoing set_serving met _clients]. rewrite Hb.
  split; [intros c' dr; rewrite decide_False by naive_solver; done|].
  split; [rewrite decide_False by naive_solver; done|]. rewrite decide_False by done. split; [done|].
  split; [done|]. unfold end_extension, add_client. cbn [_extension_writer set_clients set_serving met]. rewrite Hw.
  split; [done|]. cbn. by left.
Qed.

(** ** The relay and half a surrogate pair *)

Fixpoint has_surrogate (v : json) : bool :=
  match v with
  | JStr s => existsb is_surrogate s
  | JArr l => existsb has_surrogate l
  | JObj d => existsb (λ kv, existsb is_surrogate kv.1 || has_surrogate kv.2) d
  | _ => false
  end.

Lemma escape_surrogate s : existsb is_surrogate s = true → existsb is_surrogate (dump_str s) = true.
Proof.
  intros (c & Hc & Hs)%existsb_exists. apply existsb_exists. exists c. split; [|done].
  unfold dump_str. right. apply in_or_app. left. apply in_concat. exists (escape_char c). split; [by apply in_map|].
  unfold is_surrogate in Hs. bools. rewrite N.leb_le in *. unfold escape_char. ntests. by left.
Qed.

Lemma join_surrogate w ws : w ∈ ws → existsb is_surrogate w = true → existsb is_surrogate (join_with (§", ") ws) = true.
Proof.
  intros Hin Hw. induction ws as [|u ws IH]; [by apply elem_of_nil in Hin|].
  pose proof (join_cons_app u ws []) as E. rewrite app_nil_r in E. rewrite E, existsb_app.
  apply elem_of_cons in Hin as [->|Hin]; [by rewrite Hw|]. destruct ws as [|u' ws]; [by apply elem_of_nil in Hin|].
  rewrite app_nil_r. change (44 :: 32 :: join_with (§", ") (u' :: ws)) with ([44; 32] ++ join_with (§", ") (u' :: ws)).
  rewrite existsb_app, IH by done. by rewrite !orb_true_r.
Qed.

Lemma dump_surrogate v : has_surrogate v = true → existsb is_surrogate (dump v) = true.
Proof.
  induction v as [|b|z|q|s|l IH|d IH] using json_induction; cbn [has_surrogate]; try done.
  - apply escape_surrogate.
  - intros (v & Hv & Hs)%existsb_exists. rewrite <- list_elem_of_In in Hv. rewrite Forall_forall in IH. cbn [dump].
    change (91 :: ?t) with ([91] ++ t). rewrite !existsb_app, (join_surrogate (dump v)); [by rewrite orb_true_r| |by apply IH].
    apply list_elem_of_fmap. by exists v.
  - intros (kv & Hv & Hs)%existsb_exists. rewrite <- list_elem_of_In in Hv. rewrite Forall_forall in IH. cbn [dump].
    change (123 :: ?t) with ([123] ++ t).
    rewrite !existsb_app, (join_surrogate (dump_str kv.1 ++ §": " ++ dump kv.2)); [by rewrite orb_true_r| |].
    + apply list_elem_of_fmap. by exists kv.
    + rewrite !existsb_app. apply orb_true_iff in Hs as [Hs|Hs].
      * by rewrite (escape_surrogate _ Hs).
      * by rewrite (IH kv Hv Hs), !orb_true_r.
Qed.

Lemma surrogate_not_framed v : has_surrogate v = true → ∃ e, encode_frame v = Raise e.
Proof.
  intros Hv%dump_surrogate. unfold encode_frame, json_dumps, mbind, res_bind. destruct (printable v); [|by eexists].
  unfold utf8_encode. destruct (forallb is_scalar (dump v)) eqn:E; [|by eexists].
  apply existsb_exists in Hv as (c & Hc & Hs). rewrite forallb_Forall_true, Forall_forall in E.
  specialize (E c). rewrite list_elem_of_In in E. specialize (E Hc). unfold is_scalar in E. rewrite Hs in E.
  by rewrite andb_false_r in E.
Qed.

(** A frame from the browser with half a surrogate pair in a string, which
    JSON can spell as an escape, silences the relay: it passes on neither this frame
    nor any after it, and does not close its connection, so that the daemon goes on
    taking the extension for connected. *)
Theorem surrogate_silences_relay h p v rest r : length h = 4%nat → N.to_nat (unpack_I h) = length p →
  parse_body p = Ok (Some v) → has_surrogate v = true → reading r = true →
  ∃ r', stdio_to_uds (h ++ p ++ rest) r = (r', rest) ∧ to_daemon r' = to_daemon r ∧ uds_closed r' = uds_closed r ∧
    ∀ stream, stdio_to_uds stream r' = (r', stream).
Proof.
  intros Hh Hl Hp Hv Hr. destruct (surrogate_not_framed v Hv) as [e He]. unfold stdio_to_uds at 1. rewrite Hr.
  unfold read_frame_sync. rewrite take_app_length', drop_app_length', Hl, !length_app by done.
  replace (_ <? 4)%nat with false by (symmetry; apply Nat.ltb_ge; lia).
  replace (_ <? length p)%nat with false by (symmetry; apply Nat.ltb_ge; lia).
  rewrite take_app_length, drop_app_length, Hp, He. eexists. by repeat split.
Qed.

(** The answer to a client is lost the same way: the request is forgotten and
    nothing is written. *)
Theorem surrogate_answer_lost d g k x r dr w : reached d g → calls g !! k = Some x → answered x = false →
  _extension_writer d = Some w → ongoing d = None → jget (§"id") r = JStr (daemon_id k) →
  has_surrogate (JObj (dset (§"id") (jget (§"id") (asked x)) r)) = true →
  ∃ d', step d (FromExtension (JObj r) dr) = Some d' ∧ sent d' = sent d ∧ dget (daemon_id k) (_pending d') = None.
Proof.
  intros Hr Hx Ha Hw Hon Hid Hs. pose proof (reached_tracks _ _ Hr) as Ht.
  destruct (surrogate_not_framed _ Hs) as [e He].
  pose proof (route_answer r (daemon_id k) dr d Hid) as Hrt. cbv zeta in Hrt.
  assert (dget (daemon_id k) (_pending d) = Some (caller x, jget (§"id") (asked x))) as Hp.
  { apply (tr_pending _ _ Ht). by exists k, x. }
  rewrite Hp, He in Hrt. eexists. cbn [step]. rewrite Hw, Hon. unfold routed. cbn [as_obj]. munfold. rewrite Hrt.
  split; [done|]. split; [done|]. cbn. apply dget_ddel_eq, (tr_wf _ _ Ht).
Qed.

(** The history of a run. *)
Fixpoint notes d g (l : list happening) : history :=
  match l with
  | [] => g
  | h :: l => match step d h with Some d' => notes d' (note d g h) l | None => g end
  end.
Lemma reached_run l : ∀ d g d', reached d g → run d l = Some d' → reached d' (notes d g l).
Proof.
  induction l as [|h l IH]; intros d g d' Hr; cbn [run notes]; [by intros [= <-]|].
  destruct (step d h) as [d1|] eqn:Hs; [|done]. cbn [mbind option_bind]. intros Hl. eapply IH; [|done]. by eapply reached_step.
Qed.
End routing.

(** ** Two clients that use the same id *)
Module BridgeDemo.
#[local] Existing Instances WholeFloats.whole_text WholeFloats.whole_laws.

Definition ping : jdict := [(§"id", JStr (§"x")); (§"n", JInt 7); (§"t", JFloat (inject_Z (-2)))].
Definition ping_frame : bytes := match encode_frame (JObj ping) with Ok b => b | Raise _ => [] end.

Lemma frames_arrive_witness :
  foldl arrive ([], [], false) [take 3 ping_frame; drop 3 ping_frame ++ take 9 ping_frame; drop 9 ping_frame] =
  ([JObj ping; JObj ping], [], false).
Proof.
  destruct (frames_arrive WholeFloats.whole [JObj ping; JObj ping] [ping_frame; ping_frame]
    [take 3 ping_frame; drop 3 ping_frame ++ take 9 ping_frame; drop 9 ping_frame] []) as (ms & ms' & r & Hm & Hr & Hend).
  - by repeat constructor.
  - reflexivity.
  - destruct (Hend eq_refl) as [-> ->]. rewrite app_nil_r in Hm. by rewrite Hr, Hm.
Defined.

Definition hello (role : string) : json := JObj [(§"role", JStr (§role))].
Definition reply (k : nat) (result : Z) : jdict := [(§"id", JStr (daemon_id k)); (§"result", JInt result)].
Definition exchange : list happening :=
  [Hello 0 (Some (hello "extension")); Hello 1 (Some (hello "client")); Hello 2 (Some (hello "client"));
   FromClient 1 (JObj (request 1 (§"tab.list") [])) true; FromClient 2 (JObj (request 1 (§"tab.close") [])) true].
Definition after (l : list happening) : daemon := default new_daemon (run new_daemon l).
Definition seen (l : list happening) : history := notes new_daemon {| calls := []; turned := []; spoken := [] |} l.

Lemma reached_after l : match run new_daemon l with Some _ => true | None => false end = true → reached (after l) (seen l).
Proof.
  intros Hl. apply reached_run; [constructor|]. unfold after. by destruct (run new_daemon l).
Qed.

Definition both_answered : list happening :=
  exchange ++ [FromExtension (JObj (reply 1 20)) true; FromExtension (JObj (reply 0 10)) true].
Definition own (result : Z) : json := JObj [(§"id", JStr (§"c-1")); (§"result", JInt result)].

Lemma call_gets_own_answer_witness :
  await_reply (call_id 1) (frames_to 1 (after both_answered)) = Some (Ok (own 10)) ∧
  ∃ k x, calls (seen both_answered) !! k = Some x ∧ caller x = 1%nat ∧ answered x = true.
Proof.
  assert (await_reply (call_id 1) (frames_to 1 (after both_answered)) = Some (Ok (own 10))) as Ha by reflexivity.
  split; [exact Ha|].
  destruct (call_gets_own_answer (after both_answered) (seen both_answered) 1 1 (own 10)) as
    [(m & Hm & _)|(k & x & r & Hx & Hc & _ & Ht & _)]; [apply reached_after; reflexivity|exact Ha| |].
  - by apply elem_of_nil in Hm.
  - by exists k, x.
Defined.

Lemma answer_reaches_asker_witness : ∃ d',
  step (after exchange) (FromExtension (JObj (reply 1 20)) true) = Some d' ∧
  await_reply (call_id 1) (frames_to 2 d') = Some (Ok (own 20)).
Proof.
  destruct (answer_reaches_asker (after exchange) (seen exchange) 1
    {| caller := 2; asked := request 1 (§"tab.close") []; answered := false |} 1 (reply 1 20) true 0) as (d' & Hs & Ha & _);
    [apply reached_after; reflexivity|reflexivity|reflexivity|reflexivity|reflexivity|reflexivity|reflexivity|].
  exists d'. split; [exact Hs|]. cbv zeta in Ha. change (JObj (dset _ _ (reply 1 20))) with (own 20) in Ha.
  destruct (encode_frame (own 20)) as [b|] eqn:Hb; [|discriminate Hb]. apply Ha. reflexivity.
Defined.

(** An event for two clients; a third connects before the second has it. *)
Definition tick : jdict := [(§"method", JStr (§"tick"))].
Definition halfway : list happening := exchange ++ [FromExtension (JObj tick) true; Next 1 true].
Definition halfway_loop : broadcast :=
  {| frame := JObj tick; yielded := [1%nat]; dead := []; size := 2; edition := 2 |}.

Lemma event_reaches_clients_witness : ∃ d', step (after (halfway ++ [Next 2 true])) Finished = Some d' ∧
  (2%nat, JObj tick) ∈ sent d'.
Proof.
  destruct (step (after (halfway ++ [Next 2 true])) Finished) as [d'|] eqn:Hs; [|discriminate Hs].
  exists d'. split; [reflexivity|].
  refine (event_reaches_clients (after (halfway ++ [Next 2 true])) (seen (halfway ++ [Next 2 true])) d'
    {| frame := JObj tick; yielded := [2%nat; 1%nat]; dead := []; size := 2; edition := 2 |} _ _ _ Hs 2%nat _);
    [apply reached_after; reflexivity|reflexivity|reflexivity|]. apply (bool_decide_unpack _). exact I.
Defined.

Lemma joining_client_cuts_extension_witness : ∃ d1 d2,
  step (after halfway) (Hello 3 (Some (hello "client"))) = Some d1 ∧ step d1 Changed = Some d2 ∧ _extension_writer d2 = None.
Proof.
  destruct (joining_client_cuts_extension (after halfway) (seen halfway) halfway_loop 3 [(§"role", JStr (§"client"))])
    as (d1 & d2 & w & H1 & _ & _ & H2 & _ & H3 & _);
    [apply reached_after; reflexivity|reflexivity|reflexivity|by apply (bool_decide_unpack _)|reflexivity|].
  by exists d1, d2.
Defined.

(** The JSON text of a string that is the escape of U+D800 alone. *)
Definition half_pair : bytes := 34 :: §"\ud800" ++ [34].
Definition fresh_relay : relay := {| to_daemon := []; reading := true; uds_closed := false |}.

Lemma surrogate_silences_relay_witness : ∃ r', stdio_to_uds ([8; 0; 0; 0] ++ half_pair ++ ping_frame) fresh_relay = (r', ping_frame) ∧
  stdio_to_uds ping_frame r' = (r', ping_frame) ∧ uds_closed r' = false.
Proof.
  destruct (surrogate_silences_relay [8; 0; 0; 0] half_pair (JStr [55296]) ping_frame fresh_relay) as (r' & H1 & _ & H2 & H3);
    [reflexivity|reflexivity|reflexivity|reflexivity|reflexivity|].
  exists r'. split; [exact H1|]. split; [apply H3|exact H2].
Defined.

Lemma surrogate_answer_lost_witness : ∃ d',
  step (after exchange) (FromExtension (JObj [(§"id", JStr (daemon_id 0)); (§"result", JStr [55296])]) true) = Some d' ∧
  sent d' = sent (after exchange).
Proof.
  destruct (surrogate_answer_lost (after exchange) (seen exchange) 0
    {| caller := 1; asked := request 1 (§"tab.list") []; answered := false |}
    [(§"id", JStr (daemon_id 0)); (§"result", JStr [55296])] true 0) as (d' & H1 & H2 & _);
    [apply reached_after; reflexivity|reflexivity|reflexivity|reflexivity|reflexivity|reflexivity|reflexivity|].
  by exists d'.
Defined.
End BridgeDemo.
