(* ===== verification/Orphans.v ===== *)
(** * The reaper of orphaned recipe daemons

    server/services/orphan_recipe_cleanup_service.py: the hourly scan for recipe
    processes that outlived the server that started them, the ledger of the last
    scan, and the signals. *)

From Stdlib Require Import QArith Qround.
From S2P Require Import Prelude PyStr Json JsonText InvocationCtx Registry.
From stdpp Require Import prelude list strings.

Local Open Scope Z_scope.

Definition MIN_ORPHAN_AGE_SECONDS : Q := inject_Z 300.
Definition MAX_KILLS_PER_CYCLE : nat := 10.
Definition SIGTERM : Z := 15.
Definition SIGKILL : Z := 9.

(** [int(t)] of a float. *)
Definition int_of_Q (q : Q) : Z := Z.quot (Qnum q) (Z.pos (Qden q)).

Record ProcInfo := {
  pid : Z;
  ppid : Z;
  create_time : Q;
  terminal : option pystr;
  cmdline : list pystr;
}.
#[export] Instance ProcInfo_eq_dec : EqDecision ProcInfo.
Proof. solve_decision. Defined.

(** [f"{pid}:{int(create_time)}"]. *)
Definition key_of (p t : Z) : pystr := str_of_Z p ++ 58%N :: str_of_Z t.
Definition key (p : ProcInfo) : pystr := key_of (pid p) (int_of_Q (create_time p)).

Record OrphanCandidate := { proc : ProcInfo; recipe : pystr }.
#[export] Instance OrphanCandidate_eq_dec : EqDecision OrphanCandidate.
Proof. solve_decision. Defined.

(** Where a path leads on this machine: [str(Path(s).resolve())], [None] for the
    [OSError] or [ValueError] of a path that cannot be followed. *)
Class Resolving := resolve : pystr → option pystr.

(** ** Whose processes *)

Section scan.
Context `{Unicode, Resolving}.

(** [d.get(k) or {}], and what the loops go over. *)
Definition section_of (k : pystr) (raw : jdict) : res jdict := as_obj (jor (jget k raw) (JObj [])).
Definition items_of (k : pystr) (d : jdict) : res (list json) := py_iter (jor (jget k d) (JArr [])).

Definition daemon_name (item : json) : res (list json) :=
  m ← as_obj item;
  Ok (if truthy (jget (§"recipe") m) then [jget (§"recipe") m] else []).
Definition stream_name (ch : json) : res (list json) :=
  m ← as_obj ch;
  Ok (if str_is (§"stream") (jget (§"mode") m) && truthy (jget (§"poll_recipe") m) then [jget (§"poll_recipe") m] else []).

(** A name that cannot be a key is a [TypeError]; one the registry does not know is
    passed over. *)
Definition own (g : RecipeRegistry) (owned : dict pystr pystr) (name : json) : res (dict pystr pystr) :=
  match name with
  | JStr n =>
      if dmem n owned then Ok owned
      else match Registry.find g n None with
           | Raise _ => Ok owned
           | Ok r => match resolve (path_str (script_path r)) with
                     | Some script => Ok (dset n script owned)
                     | None => Raise OSError
                     end
           end
  | JArr _ | JObj _ => Raise TypeError
  | _ => Ok owned
  end.
Fixpoint own_all (g : RecipeRegistry) (names : list json) (owned : dict pystr pystr) : res (dict pystr pystr) :=
  match names with
  | [] => Ok owned
  | name :: names => owned ← own g owned name; own_all g names owned
  end.

Definition collect_owned_recipes (raw_config : jdict) (g : RecipeRegistry) : res (dict pystr pystr) :=
  ds ← section_of (§"daemons") raw_config;
  items ← items_of (§"items") ds;
  names ← map_res daemon_name items;
  ti ← section_of (§"task_ingestion") raw_config;
  channels ← items_of (§"channels") ti;
  streams ← map_res stream_name channels;
  own_all g (concat names ++ concat streams) [].

(** ** Which processes *)

Fixpoint _match_owned_script (args : list pystr) (script_to_recipe : dict pystr pystr) : option pystr :=
  match args with
  | [] => None
  | [] :: args => _match_owned_script args script_to_recipe
  | arg :: args =>
      match dget arg script_to_recipe with
      | Some n => Some n
      | None =>
          match (r ← resolve arg; dget r script_to_recipe) with
          | Some n => Some n
          | None => _match_owned_script args script_to_recipe
          end
      end
  end.

Definition script_table (owned : dict pystr pystr) : dict pystr pystr :=
  foldl (λ t np, dset np.2 np.1 t) [] owned.

(** The tests before the command line is looked at. *)
Definition stray (server_pid : Z) (server_create_time : Q) (protected : list Z) (p : ProcInfo) : bool :=
  negb ((pid p <=? 1) || (pid p =? server_pid)) && negb (bool_decide (pid p ∈ protected)) && (ppid p =? 1) &&
  match terminal p with Some (_ :: _) => false | _ => true end &&
  Qle_bool (create_time p) (server_create_time - MIN_ORPHAN_AGE_SECONDS).

Definition find_orphan_candidates (procs : list ProcInfo) (owned : dict pystr pystr) (server_pid : Z)
    (server_create_time : Q) (protected : list Z) : list OrphanCandidate :=
  match owned with
  | [] => []
  | _ => omap (λ p, if stray server_pid server_create_time protected p then
                      (λ n, {| proc := p; recipe := n |}) <$> _match_owned_script (cmdline p) (script_table owned)
                    else None) procs
  end.

(** ** A cycle *)

(** What a cycle finds: what [json.loads] of the configuration's text gives, [OSError]
    when the file cannot be opened, [JSONDecodeError] when it is no JSON and [ValueError]
    when it is no UTF-8 or has an integer too long; the registry; the server's descendants, unless the question fails, and the live daemons; the
    processes; the clock; and whether the ledger can be written. *)
Record sight := {
  config : res json;
  registry : RecipeRegistry;
  children : option (list Z);
  daemons : list Z;
  procs : list ProcInfo;
  server_pid : Z;
  server_create_time : Q;
  now : Q;
  writable : bool;
}.

(** The signals go out at two moments, the second after the grace period. *)
Inductive moment := at_once | after_grace.
Definition signal_of (m : moment) : Z := match m with at_once => SIGTERM | after_grace => SIGKILL end.

(** The processes when the signals go out: when the one of an id was created and its
    descendants; at each moment its group, if it is there, and whether the group can be
    signalled; and who survives the first signal. *)
Record kernel := {
  created : Z → option Q;
  descendants : Z → option (list Z);
  getpgid : moment → Z → option Z;
  killpg_works : moment → Z → bool;
  survives : Z → bool;
}.

Inductive sent := Killpg (group sig : Z) | Kill (pid_ sig : Z).

Record reaper := {
  ledger : res json;
  reaped_total : nat;
  last_scan_at : option Q;
  signals : list sent;
}.

Definition emit (l : list sent) (s : reaper) : reaper :=
  {| ledger := ledger s; reaped_total := reaped_total s; last_scan_at := last_scan_at s; signals := signals s ++ l |}.

Definition _protected_pids (e : sight) : list Z := default [] (children e) ++ filter (λ p, p ≠ 0) (daemons e).

(** [OSError] and [JSONDecodeError] are caught, a text that is no UTF-8 raises. *)
Definition load_ledger (f : res json) : res jdict :=
  match f with
  | Ok (JObj d) => Ok match dget (§"candidates") d with Some (JObj c) => c | _ => [] end
  | Raise ValueError => Raise ValueError
  | _ => Ok []
  end.
Definition save_ledger (e : sight) (c : jdict) (s : reaper) : reaper :=
  if writable e then
    {| ledger := Ok (JObj [(§"candidates", JObj c)]); reaped_total := reaped_total s; last_scan_at := last_scan_at s; signals := signals s |}
  else s.

Definition _signal_group_or_procs (k : kernel) (m : moment) (root_pid : Z) (ps : list Z) : reaper → reaper :=
  if bool_decide (getpgid k m root_pid = Some root_pid) && killpg_works k m root_pid then emit [Killpg root_pid (signal_of m)]
  else emit (map (λ p, Kill p (signal_of m)) ps).

Definition _reap (k : kernel) (c : OrphanCandidate) (s : reaper) : bool * reaper :=
  let p := pid (proc c) in
  match created k p with
  | None => (false, s)
  | Some t =>
      if negb (int_of_Q t =? int_of_Q (create_time (proc c))) then (false, s)
      else
        let targets := p :: default [] (descendants k p) in
        let s := _signal_group_or_procs k at_once p targets s in
        let alive := filter (λ q, survives k q = true) targets in
        (true, match alive with [] => s | _ => _signal_group_or_procs k after_grace p alive s end)
  end.

Fixpoint reap_all (k : kernel) (l : list OrphanCandidate) (s : reaper) : list OrphanCandidate * reaper :=
  match l with
  | [] => ([], s)
  | c :: l => let (b, s) := _reap k c s in
              let (r, s) := reap_all k l s in
              ((if b : bool then c :: r else r), s)
  end.

Definition _owned_scripts (e : sight) : res (dict pystr pystr) :=
  match config e with
  | Raise ValueError => Raise ValueError
  | Raise _ => Ok []
  | Ok raw => raw ← as_obj raw; collect_owned_recipes raw (registry e)
  end.

Definition candidates_of (e : sight) (owned : dict pystr pystr) : list OrphanCandidate :=
  find_orphan_candidates (procs e) owned (server_pid e) (server_create_time e) (_protected_pids e).

(** The record of a candidate: a previous entry that is no object has no [get]. *)
Definition record_of (e : sight) (previous : jdict) (c : OrphanCandidate) : res (pystr * json) :=
  old ← as_obj (default (JObj []) (dget (key (proc c)) previous));
  Ok (key (proc c), JObj [(§"recipe", JStr (recipe c)); (§"pid", JInt (pid (proc c)));
                          (§"create_time", JFloat (create_time (proc c)));
                          (§"first_seen", default (JFloat (now e)) (dget (§"first_seen") old))]).

Definition run_once (dry_run : bool) (k : kernel) (e : sight) : M reaper (list OrphanCandidate) :=
  modify (λ s, {| ledger := ledger s; reaped_total := reaped_total s; last_scan_at := Some (now e); signals := signals s |});;
  owned ← lift_res (_owned_scripts e);
  match owned with
  | [] => mret []
  | _ =>
      let candidates := candidates_of e owned in
      match candidates with
      | [] => (if dry_run then mret tt else modify (save_ledger e []));; mret []
      | _ =>
          if (MAX_KILLS_PER_CYCLE <? length candidates)%nat then mret []
          else
            s ← get_st;
            previous ← lift_res (load_ledger (ledger s));
            let confirmed := filter (λ c, dmem (key (proc c)) previous = true) candidates in
            if dry_run then mret confirmed
            else
            reaped ← (λ s, let (r, s) := reap_all k confirmed s in (Ok r, s));
            still_pending ← lift_res (map_res (record_of e previous) (filter (λ c, c ∉ reaped) candidates));
            modify (save_ledger e (foldl (λ d kv, dset kv.1 kv.2 d) [] still_pending));;
            modify (λ s, {| ledger := ledger s; reaped_total := reaped_total s + length reaped;
                             last_scan_at := last_scan_at s; signals := signals s |});;
            mret reaped
      end
  end.

(** The loop: a cycle that raises is logged, and the next comes. *)
Definition cycle (s : reaper) (ke : kernel * sight) : reaper := (run_once false ke.1 ke.2 s).2.
Definition cycles (l : list (kernel * sight)) (s : reaper) : reaper := foldl cycle s l.
End scan.

(** [seconds_until_next_hour(now)]. *)
Definition seconds_until_next_hour (now : Q) : Q := inject_Z 3600 - (now - inject_Z (3600 * Qfloor (now / inject_Z 3600))).

(** ** What gets a signal *)

Section safety.
Context `{Unicode, Resolving}.

(** The rules of an orphan, but for the second sighting. *)
Record orphan (e : sight) (owned : dict pystr pystr) (p : ProcInfo) : Prop := {
  or_seen : p ∈ procs e;
  or_pid : 1 < pid p ∧ pid p ≠ server_pid e;
  or_unprotected : pid p ∉ _protected_pids e;
  or_reparented : ppid p = 1;
  or_no_tty : terminal p = None ∨ terminal p = Some [];
  or_older : Qle (create_time p) (server_create_time e - MIN_ORPHAN_AGE_SECONDS);
  or_script : ∃ arg n script, arg ∈ cmdline p ∧ arg ≠ [] ∧ (n, script) ∈ owned ∧ (arg = script ∨ resolve arg = Some script);
}.

Lemma script_table_elem owned script n : dget script (script_table owned) = Some n → (n, script) ∈ owned.
Proof.
  unfold script_table. induction owned as [|[n' p'] owned IH] using rev_ind; [done|]. rewrite foldl_snoc. cbn.
  destruct (decide (script = p')) as [->|Hne].
  - rewrite dget_dset_eq. intros [= <-]. apply elem_of_app. right. by apply list_elem_of_singleton.
  - rewrite dget_dset_ne by done. intros Hs. apply elem_of_app. left. by apply IH.
Qed.

Lemma match_owned_script args t n : _match_owned_script args t = Some n →
  ∃ arg script, arg ∈ args ∧ arg ≠ [] ∧ dget script t = Some n ∧ (arg = script ∨ resolve arg = Some script).
Proof.
  induction args as [|arg args IH]; [done|]. cbn [_match_owned_script].
  assert (_match_owned_script args t = Some n → ∃ a script, a ∈ arg :: args ∧ a ≠ [] ∧ dget script t = Some n ∧
    (a = script ∨ resolve a = Some script)) as IH'.
  { intros Hm. destruct (IH Hm) as (a & sc & Ha & Hrest). exists a, sc. split; [by right|done]. }
  destruct arg as [|c arg]; [exact IH'|]. destruct (dget (c :: arg) t) as [n'|] eqn:Ed.
  - intros [= <-]. exists (c :: arg), (c :: arg). repeat split; [by left|done|done|by left].
  - destruct (resolve (c :: arg)) as [sc|] eqn:Er; cbn [mbind option_bind]; [|exact IH'].
    destruct (dget sc t) as [n'|] eqn:Es; [|exact IH']. intros [= <-]. exists (c :: arg), sc.
    repeat split; [by left|done|done|by right].
Qed.

Lemma candidate_orphan e owned c : c ∈ candidates_of e owned → orphan e owned (proc c).
Proof.
  unfold candidates_of, find_orphan_candidates. destruct owned as [|o owned']; [by intros ?%elem_of_nil|].
  set (owned := o :: owned') in *. intros (p & Hp & Hc)%list_elem_of_omap.
  destruct (stray _ _ _ p) eqn:Hs; [|done]. destruct (_match_owned_script _ _) as [n|] eqn:Hm; [|done].
  injection Hc as <-. cbn [proc]. unfold stray in Hs. bools.
  repeat match goal with H : _ =? _ = true |- _ => apply Z.eqb_eq in H | H : _ =? _ = false |- _ => apply Z.eqb_neq in H
         | H : _ <=? _ = false |- _ => apply Z.leb_gt in H end.
  split; [done|done|done|done|destruct (terminal p) as [[]|]; auto; done|by apply Qle_bool_iff|].
  apply match_owned_script in Hm as (arg & sc & Ha & Hne & Hsc & Heq). exists arg, n, sc.
  repeat split; [done|done|by apply script_table_elem|done].
Qed.

(** A signal meant for the process tree of [p]. *)
Definition aims_at (k : kernel) (p : Z) (x : sent) : Prop :=
  match x with
  | Killpg g sig => g = p ∧ ∃ m, sig = signal_of m ∧ getpgid k m p = Some p
  | Kill q _ => q = p ∨ ∃ l, descendants k p = Some l ∧ q ∈ l
  end.

Lemma signal_aims k m p ps s : (∀ q, q ∈ ps → q = p ∨ ∃ l, descendants k p = Some l ∧ q ∈ l) →
  ∃ l, signals (_signal_group_or_procs k m p ps s) = signals s ++ l ∧ Forall (aims_at k p) l ∧ (ps ≠ [] → l ≠ []).
Proof.
  intros Hps. unfold _signal_group_or_procs. destruct (bool_decide _ && _) eqn:E; cbn; eexists; (split; [done|]).
  - bools. split; [|done]. repeat constructor. by exists m.
  - split; [|by destruct ps]. apply Forall_forall. intros x (q & -> & Hq)%list_elem_of_fmap. by apply Hps.
Qed.

(** A process is signalled only while it is the one the scan saw. *)
Lemma reap_aims k c s b s' : _reap k c s = (b, s') →
  ∃ l, signals s' = signals s ++ l ∧ Forall (aims_at k (pid (proc c))) l ∧ ledger s' = ledger s ∧
    (b = false → l = []) ∧ (b = true → l ≠ []) ∧
    (b = true ↔ ∃ t, created k (pid (proc c)) = Some t ∧ int_of_Q t = int_of_Q (create_time (proc c))).
Proof.
  unfold _reap. destruct (created k _) as [t|] eqn:Ht.
  2: { intros [= <- <-]. exists []. rewrite app_nil_r. repeat split; try done. by intros (t & ? & _). }
  destruct (int_of_Q t =? _) eqn:E; cbn [negb].
  2: { intros [= <- <-]. exists []. rewrite app_nil_r. apply Z.eqb_neq in E. repeat split; try done.
       intros (t' & [= <-] & ?). done. }
  apply Z.eqb_eq in E. set (p := pid (proc c)). set (targets := p :: _).
  assert (∀ q, q ∈ targets → q = p ∨ ∃ l, descendants k p = Some l ∧ q ∈ l) as Haim.
  { intros q [->|Hq]%elem_of_cons; [by left|]. destruct (descendants k p) as [l|]; [|by apply elem_of_nil in Hq].
    right. by exists l. }
  assert (∀ m ps s, ledger (_signal_group_or_procs k m p ps s) = ledger s) as Hled.
  { intros m ps s0. unfold _signal_group_or_procs. by destruct (_ && _). }
  intros [= <- <-]. destruct (signal_aims k at_once p targets s Haim) as (l1 & E1 & F1 & N1). specialize (N1 ltac:(done)).
  destruct (filter _ targets) as [|q ps] eqn:Ef.
  - exists l1. repeat split; [done|done|by rewrite Hled|done|done|]. intros _. by exists t.
  - destruct (signal_aims k after_grace p (q :: ps) (_signal_group_or_procs k at_once p targets s)) as (l2 & E2 & F2 & _).
    { intros q' Hq'. rewrite <- Ef in Hq'. apply list_elem_of_filter in Hq' as [_ Hq']. by apply Haim. }
    exists (l1 ++ l2). rewrite E2, E1, app_assoc. repeat split; [by apply Forall_app|by rewrite !Hled|done| |].
    + intros _. by destruct l1.
    + intros _. by exists t.
Qed.

Definition same_process (k : kernel) (c : OrphanCandidate) : Prop :=
  ∃ t, created k (pid (proc c)) = Some t ∧ int_of_Q t = int_of_Q (create_time (proc c)).

Lemma reap_all_aims k l : ∀ s r s', reap_all k l s = (r, s') →
  ∃ sigs, signals s' = signals s ++ sigs ∧ ledger s' = ledger s ∧
    Forall (λ x, ∃ c, c ∈ l ∧ aims_at k (pid (proc c)) x ∧ same_process k c) sigs ∧
    (∀ c, c ∈ r ↔ c ∈ l ∧ same_process k c) ∧ (∀ c, c ∈ r → ∃ x, x ∈ sigs ∧ aims_at k (pid (proc c)) x).
Proof.
  induction l as [|c l IH]; intros s r s'; cbn [reap_all].
  - intros [= <- <-]. exists []. rewrite app_nil_r. split; [done|]. split; [done|]. split; [done|].
    split; [|by intros c ?%elem_of_nil]. intros c. split; [by intros ?%elem_of_nil|by intros [?%elem_of_nil _]].
  - destruct (_reap k c s) as [b s1] eqn:E1. destruct (reap_all k l s1) as [r1 s2] eqn:E2. intros [= <- <-].
    destruct (reap_aims k c s b s1 E1) as (l1 & S1 & F1 & L1 & Hno & Hyes & Hb).
    destruct (IH s1 r1 s2 E2) as (l2 & S2 & L2 & F2 & Hr & Hsig). exists (l1 ++ l2). rewrite app_assoc.
    split; [congruence|]. split; [congruence|]. split; [|split].
    + apply Forall_app. split.
      * destruct b; [|by rewrite Hno]. eapply Forall_impl; [exact F1|]. intros x Hx. exists c.
        split; [by left|]. split; [done|]. by apply Hb.
      * eapply Forall_impl; [exact F2|]. intros x (c' & Hc' & Hrest). exists c'. split; [by right|done].
    + intros c'. destruct b; rewrite !elem_of_cons, Hr.
      * split; [intros [->|[? ?]]; [split; [by left|by apply Hb]|split; [by right|done]]|].
        intros [[->|?] ?]; [by left|by right].
      * split; [intros [? ?]; split; [by right|done]|]. intros [[->|?] Hs]; [by apply Hb in Hs|done].
    + assert (∀ c', c' ∈ r1 → ∃ x, x ∈ l1 ++ l2 ∧ aims_at k (pid (proc c')) x) as Hlater.
      { intros c' Hc'. destruct (Hsig c' Hc') as (x & Hin & Ha). exists x. split; [apply elem_of_app; by right|done]. }
      intros c'. destruct b; [|apply Hlater]. intros [->|Hc']%elem_of_cons; [|by apply Hlater].
      destruct l1 as [|x l1]; [by destruct (Hyes eq_refl)|]. exists x. split; [by left|]. by apply Forall_inv in F1.
Qed.

(** The sightings of a ledger that can be read. *)
Definition sighted (s : reaper) : jdict := match load_ledger (ledger s) with Ok d => d | Raise _ => [] end.

(** Who was killed, and why, in a cycle that began in [s]. *)
Definition justified (k : kernel) (e : sight) (s : reaper) (x : sent) : Prop := ∃ owned c,
  _owned_scripts e = Ok owned ∧ c ∈ candidates_of e owned ∧ (length (candidates_of e owned) ≤ MAX_KILLS_PER_CYCLE)%nat ∧
  key (proc c) ∈ dkeys (sighted s) ∧ aims_at k (pid (proc c)) x ∧ same_process k c.

(** What the ledger holds after a cycle is what it held, or what this cycle saw. *)
Definition carried (e : sight) (s s' : reaper) : Prop := sighted s' = sighted s ∨
  ∀ i, i ∈ dkeys (sighted s') → ∃ owned c, _owned_scripts e = Ok owned ∧ c ∈ candidates_of e owned ∧ key (proc c) = i.

Lemma records_keys e previous l rs : map_res (record_of e previous) l = Ok rs →
  ∀ i, i ∈ dkeys (foldl (λ d kv, dset kv.1 kv.2 d) [] rs) → ∃ c, c ∈ l ∧ key (proc c) = i.
Proof.
  intros Hrs%map_res_Forall2 i Hi. assert (i ∈ map fst rs) as Hin.
  { revert Hi. clear. induction rs as [|[k v] rs IH] using rev_ind; [done|]. rewrite foldl_snoc, map_app. cbn.
    rewrite elem_of_app. intros [->|?]%dkeys_dset_elem; [right; by left|left; auto]. }
  apply list_elem_of_fmap in Hin as ([i' v] & -> & Hin).
  destruct (Forall2_elem_r _ _ _ _ Hrs Hin) as (c & Hc & Hr). exists c. split; [done|].
  unfold record_of, mbind, res_bind in Hr. by destruct (as_obj _); simplify_eq.
Qed.

Lemma ledger_saved c : load_ledger (Ok (JObj [(§"candidates", JObj c)])) = Ok c.
Proof. done. Qed.

Lemma run_once_does dry k e s r s' : run_once dry k e s = (r, s') → ∃ sigs, signals s' = signals s ++ sigs ∧
  Forall (justified k e s) sigs ∧ carried e s s' ∧ (dry = true → sigs = [] ∧ ledger s' = ledger s).
Proof.
  unfold run_once. munfold. destruct (_owned_scripts e) as [owned|err] eqn:Ho.
  2: { intros [= <- <-]. exists []. rewrite app_nil_r. by repeat split; [|left]. }
  destruct owned as [|o owned'] eqn:Eo; [|rewrite <- Eo in *; clear Eo o owned'].
  { intros [= <- <-]. exists []. rewrite app_nil_r. by repeat split; [|left]. }
  destruct (candidates_of e owned) as [|c0 cs] eqn:Ec.
  { intros Hr. exists []. rewrite app_nil_r. destruct dry; injection Hr as <- <-; [by repeat split; [|left]|].
    unfold save_ledger. destruct (writable e); repeat split; try done; [right; by intros i ?%elem_of_nil|by left]. }
  rewrite <- Ec. destruct (Nat.ltb_spec MAX_KILLS_PER_CYCLE (length (candidates_of e owned))) as [Hlt|Hle].
  { intros [= <- <-]. exists []. rewrite app_nil_r. by repeat split; [|left]. }
  cbn [ledger]. destruct (load_ledger (ledger s)) as [previous|err] eqn:El.
  2: { intros [= <- <-]. exists []. rewrite app_nil_r. by repeat split; [|left]. }
  assert (sighted s = previous) as Hprev by (unfold sighted; by rewrite El).
  destruct dry.
  { intros [= <- <-]. exists []. rewrite app_nil_r. by repeat split; [|left]. }
  set (confirmed := filter _ (candidates_of e owned)).
  match goal with |- context [reap_all k confirmed ?s0] => destruct (reap_all k confirmed s0) as [rp s1] eqn:Er end.
  destruct (reap_all_aims k confirmed _ _ _ Er) as (sigs & Hs & Hl & Hall & _ & _). cbn [signals ledger] in Hs, Hl.
  assert (Forall (justified k e s) sigs) as Hj.
  { eapply Forall_impl; [exact Hall|]. intros x (c & [Hk Hc]%list_elem_of_filter & Ha & Hsame). exists owned, c.
    repeat split; try done. rewrite Hprev. by apply dmem_dkeys. }
  destruct (map_res _ _) as [rs|err] eqn:Em; intros [= <- <-]; exists sigs.
  2: { repeat split; try done. left. unfold sighted. by rewrite Hl. }
  cbn [signals ledger]. unfold save_ledger, carried. destruct (writable e); cbn [signals ledger].
  2: { repeat split; try done. left. unfold sighted. by rewrite Hl. }
  repeat split; try done. right. unfold sighted at 1. cbn [ledger]. rewrite ledger_saved. intros i Hi.
  destruct (records_keys _ _ _ _ Em i Hi) as (c & [_ Hc]%list_elem_of_filter & <-). by exists owned, c.
Qed.

Lemma ledger_sighted l : ∀ s0, sighted s0 = [] →
  ∀ i, i ∈ dkeys (sighted (cycles l s0)) →
  ∃ k e owned c, (k, e) ∈ l ∧ _owned_scripts e = Ok owned ∧ c ∈ candidates_of e owned ∧ key (proc c) = i.
Proof.
  induction l as [|[k e] l IH] using rev_ind; intros s0 H0' i; unfold cycles; rewrite ?foldl_snoc; cbn [foldl].
  - rewrite H0'. by intros ?%elem_of_nil.
  - fold (cycles l s0). unfold cycle. destruct (run_once false (k, e).1 (k, e).2 (cycles l s0)) as [r s'] eqn:Er.
    destruct (run_once_does _ _ _ _ _ _ Er) as (_ & _ & _ & [Hsame|Hnew] & _); cbn [snd].
    + rewrite Hsame. intros Hi. destruct (IH s0 H0' i Hi) as (k' & e' & o & c & Hin & Hrest). exists k', e', o, c.
      split; [apply elem_of_app; by left|done].
    + intros Hi. destruct (Hnew i Hi) as (o & c & Hrest). exists k, e, o, c.
      split; [apply elem_of_app; right; by left|done].
Qed.

Lemma colon_not_digit z : 58%N ∉ str_of_Z z.
Proof.
  assert (∀ n, 58%N ∉ str_of_N n) as Hn.
  { intros n Hin. pose proof (str_of_N_digits n) as Hd. rewrite Forall_forall in Hd. specialize (Hd _ Hin). lia. }
  destruct z; cbn [str_of_Z]; [|apply Hn|].
  - intros [?|?%elem_of_nil]%elem_of_cons; done.
  - intros [?|?]%elem_of_cons; [done|]. by eapply Hn.
Qed.
Lemma key_of_inj p t p' t' : key_of p t = key_of p' t' → p = p' ∧ t = t'.
Proof.
  intros E%(f_equal (partition_on 58)). unfold key_of in E. rewrite !partition_on_found in E by apply colon_not_digit.
  injection E as E1 E2. split; by apply str_of_Z_inj.
Qed.

(** C29. Whatever gets a signal is the tree of a process that meets every rule in
    this scan and, before the first signal, is still the process the scan saw; its group
    gets a signal only if the process leads one when that signal goes out. The scan
    nominated ten at most; and the process met every rule in an earlier scan too, as the
    same process. *)
Theorem reaps_only_orphans l k e s0 x : let s := cycles l s0 in
  sighted s0 = [] → x ∈ drop (length (signals s)) (signals (cycle s (k, e))) →
  ∃ owned c, _owned_scripts e = Ok owned ∧ orphan e owned (proc c) ∧ same_process k c ∧ aims_at k (pid (proc c)) x ∧
    (length (candidates_of e owned) ≤ MAX_KILLS_PER_CYCLE)%nat ∧
    ∃ k0 e0 owned0 c0, (k0, e0) ∈ l ∧ _owned_scripts e0 = Ok owned0 ∧ orphan e0 owned0 (proc c0) ∧
      pid (proc c0) = pid (proc c) ∧ int_of_Q (create_time (proc c0)) = int_of_Q (create_time (proc c)).
Proof.
  intros s H0'. unfold cycle. destruct (run_once false (k, e).1 (k, e).2 s) as [r s'] eqn:Er. cbn [snd].
  destruct (run_once_does _ _ _ _ _ _ Er) as (sigs & -> & Hall & _). rewrite drop_app_length. intros Hx.
  rewrite Forall_forall in Hall. destruct (Hall x Hx) as (owned & c & Ho & Hc & Hlen & Hk & Ha & Hs).
  destruct (ledger_sighted l s0 H0' _ Hk) as (k0 & e0 & o0 & c0 & Hin & Ho0 & Hc0 & Hkey).
  apply key_of_inj in Hkey as [Hp Ht]. exists owned, c. split; [done|]. split; [by apply candidate_orphan|].
  split; [done|]. split; [done|]. split; [done|].
  exists k0, e0, o0, c0. split; [done|]. split; [done|]. split; [by apply candidate_orphan|done].
Qed.

(** ** What is reaped *)

Lemma match_script_found args t arg script n : arg ∈ args → arg ≠ [] → resolve arg = Some script →
  dget script t = Some n → ∃ n', _match_owned_script args t = Some n'.
Proof.
  intros Hin Hne Hr Hs. induction args as [|a args IH]; [by apply elem_of_nil in Hin|]. cbn [_match_owned_script].
  apply elem_of_cons in Hin as [<-|Hin].
  - destruct arg as [|c arg]; [done|]. destruct (dget (c :: arg) t); [by eexists|]. rewrite Hr. cbn. rewrite Hs. by eexists.
  - destruct (IH Hin) as [n' IH']. destruct a as [|c a]; [by exists n'|]. destruct (dget (c :: a) t); [by eexists|].
    destruct (resolve (c :: a) ≫= _); [by eexists|]. by exists n'.
Qed.

Lemma orphan_stray e owned p : orphan e owned p → stray (server_pid e) (server_create_time e) (_protected_pids e) p = true.
Proof.
  intros [_ [Hp Hs] Hu Hr Ht Ho _]. unfold stray. rewrite (proj2 (Z.leb_gt (pid p) 1)), (proj2 (Z.eqb_neq _ _) Hs) by done.
  rewrite bool_decide_eq_false_2, Hr by done. rewrite (proj2 (Qle_bool_iff _ _) Ho). by destruct Ht as [-> | ->].
Qed.

(** The records of a cycle hold every candidate that was left. *)
Lemma records_hold e previous l rs c : map_res (record_of e previous) l = Ok rs → c ∈ l →
  key (proc c) ∈ dkeys (foldl (λ d kv, dset kv.1 kv.2 d) [] rs).
Proof.
  intros Hrs%map_res_Forall2 Hc. destruct (Forall2_elem_l _ _ _ _ Hrs Hc) as ([i v] & Hin & Hr).
  assert (i = key (proc c)) as ->.
  { unfold record_of, mbind, res_bind in Hr. by destruct (as_obj _); simplify_eq. }
  revert Hin. clear. induction rs as [|[k w] rs IH] using rev_ind; [by intros ?%elem_of_nil|].
  rewrite foldl_snoc, elem_of_app. cbn. intros Hin. apply dkeys_dset_elem.
  destruct Hin as [Hin|[[= -> ->]|?%elem_of_nil]%elem_of_cons]; [right; by apply IH|by left|done].
Qed.

(** The ledger's entries, as the cycles write them, are objects. *)
Definition ledger_ok (s : reaper) : Prop := ∃ previous, load_ledger (ledger s) = Ok previous ∧ Forall (λ kv, ∃ d, kv.2 = JObj d) previous.
Lemma record_total e previous c : Forall (λ kv, ∃ d, kv.2 = JObj d) previous → ∃ kv, record_of e previous c = Ok kv ∧ ∃ d, kv.2 = JObj d.
Proof.
  intros Hok. unfold record_of. assert (∃ d, default (JObj []) (dget (key (proc c)) previous) = JObj d) as [d ->].
  { destruct (dget _ _) as [v|] eqn:E; [|by eexists]. apply dget_Some_elem in E.
    rewrite Forall_forall in Hok. by destruct (Hok _ E) as [d ?]; exists d. }
  cbn. eexists. split; [done|]. by eexists.
Qed.

(** A cycle that looks: what it reaps, and what it remembers. *)
Lemma cycle_looks k e s owned : ledger_ok s → _owned_scripts e = Ok owned → candidates_of e owned ≠ [] →
  (length (candidates_of e owned) ≤ MAX_KILLS_PER_CYCLE)%nat →
  ∃ r s' sigs, run_once false k e s = (Ok r, s') ∧ signals s' = signals s ++ sigs ∧ (writable e = true → ledger_ok s') ∧
    (∀ c, c ∈ r ↔ c ∈ candidates_of e owned ∧ key (proc c) ∈ dkeys (sighted s) ∧ same_process k c) ∧
    (∀ c, c ∈ r → ∃ x, x ∈ sigs ∧ aims_at k (pid (proc c)) x) ∧
    (writable e = true → ∀ c, c ∈ candidates_of e owned → c ∉ r → key (proc c) ∈ dkeys (sighted s')).
Proof.
  intros Hok Ho Hne Hlen. unfold run_once. munfold. rewrite Ho.
  destruct owned as [|o ow] eqn:Eo; [done|]. rewrite <- Eo in *. clear Eo o ow.
  destruct (candidates_of e owned) as [|c0 cs] eqn:Ec; [done|]. rewrite <- Ec in *. clear Ec c0 cs.
  rewrite (proj2 (Nat.ltb_ge _ _) Hlen). cbn [ledger]. destruct Hok as (previous & El & Hok). rewrite El.
  assert (sighted s = previous) as -> by (unfold sighted; by rewrite El). set (confirmed := filter _ (candidates_of e owned)).
  match goal with |- context [reap_all k confirmed ?s0] => destruct (reap_all k confirmed s0) as [rp s1] eqn:Er end.
  destruct (reap_all_aims k confirmed _ _ _ Er) as (sigs & Hs & Hl & _ & Hrp & Hx). cbn [signals ledger] in Hs, Hl.
  set (rest := filter (λ c, c ∉ rp) (candidates_of e owned)).
  destruct (map_res_Forall (record_of e previous) (λ kv, ∃ d, kv.2 = JObj d) rest) as (rs & Em & Hrs).
  { intros c _. apply record_total. done. }
  rewrite Em. eexists rp, _, sigs. split; [done|]. cbn [signals]. unfold save_ledger.
  split; [by destruct (writable e)|]. split; [|split; [|split; [exact Hx|]]].
  - unfold ledger_ok. cbn [ledger]. intros Hw. rewrite Hw. cbn [ledger]. rewrite ledger_saved. eexists. split; [done|]. clear -Hrs.
    revert Hrs. induction rs as [|kv rs IH] using rev_ind; [constructor|]. intros [Hrs Hkv]%Forall_app. rewrite foldl_snoc.
    apply dset_Forall; [by apply Forall_inv in Hkv|by apply IH].
  - intros c. rewrite Hrp. unfold confirmed. rewrite list_elem_of_filter, dmem_dkeys. naive_solver.
  - intros Hw c Hc Hnr. rewrite Hw. unfold sighted. cbn [ledger]. rewrite ledger_saved. apply (records_hold _ _ _ _ c Em).
    unfold rest. by apply list_elem_of_filter.
Qed.

(** With a ledger that is no UTF-8 a cycle that nominates somebody does nothing, and
    leaves the ledger as it is. *)
Lemma undecodable_ledger_stays k e s owned : ledger s = Raise ValueError → _owned_scripts e = Ok owned →
  candidates_of e owned ≠ [] → signals (cycle s (k, e)) = signals s ∧ ledger (cycle s (k, e)) = ledger s.
Proof.
  intros Hl Ho Hne. unfold cycle, run_once. munfold. cbn [fst snd]. rewrite Ho. destruct owned as [|o ow] eqn:Eo; [done|].
  rewrite <- Eo in *. destruct (candidates_of e owned) as [|c cs]; [done|]. destruct (_ <? _)%nat; [done|].
  cbn [ledger]. by rewrite Hl.
Qed.

(** C36. An orphan that two scans in a row nominate, each with ten candidates at most,
    is reaped in the second: unless it is gone by then, its tree gets a signal. The ledger
    can be read and written and the first scan is the first to see it. *)
Theorem orphan_reaped k1 e1 k2 e2 s owned1 owned2 c1 c2 : ledger_ok s → writable e1 = true →
  _owned_scripts e1 = Ok owned1 → _owned_scripts e2 = Ok owned2 →
  c1 ∈ candidates_of e1 owned1 → c2 ∈ candidates_of e2 owned2 →
  (length (candidates_of e1 owned1) ≤ MAX_KILLS_PER_CYCLE)%nat → (length (candidates_of e2 owned2) ≤ MAX_KILLS_PER_CYCLE)%nat →
  key (proc c1) = key (proc c2) → key (proc c1) ∉ dkeys (sighted s) → same_process k2 c2 →
  let s1 := cycle s (k1, e1) in
  ∃ r s2 x, run_once false k2 e2 s1 = (Ok r, s2) ∧ c2 ∈ r ∧ x ∈ drop (length (signals s1)) (signals s2) ∧
    aims_at k2 (pid (proc c2)) x.
Proof.
  intros Hok Hw Ho1 Ho2 Hc1 Hc2 Hl1 Hl2 Hkey Hnew Hsame.
  destruct (cycle_looks k1 e1 s owned1 Hok Ho1) as (r1 & s1 & g1 & E1 & _ & Hok1 & Hr1 & _ & Hrem);
    [intros E; rewrite E in Hc1; by apply elem_of_nil in Hc1|done|]. specialize (Hok1 Hw).
  unfold cycle. cbn [fst snd]. rewrite E1. cbn [snd].
  destruct (cycle_looks k2 e2 s1 owned2 Hok1 Ho2) as (r2 & s2 & g2 & E2 & Hs2 & _ & Hr2 & Hx & _);
    [intros E; rewrite E in Hc2; by apply elem_of_nil in Hc2|done|].
  assert (c2 ∈ r2) as Hin.
  { apply Hr2. split; [done|]. split; [|done]. rewrite <- Hkey. apply Hrem; [done|done|]. rewrite Hr1. naive_solver. }
  destruct (Hx c2 Hin) as (x & Hxin & Ha). exists r2, s2, x. rewrite Hs2, drop_app_length. done.
Qed.
End safety.

(** ** A leftover of the server before this one *)
Module OrphanDemo.
#[local] Existing Instances ascii_db repr_mark posix_paths RegDemo.four_documents.
Definition plain_paths : Resolving := Some.
#[local] Existing Instance plain_paths.

Definition script : pystr := path_str (user_path ++ [§"workflows"; §"c"; §"recipe.py"]).
Definition leftover : ProcInfo :=
  {| pid := 77; ppid := 1; create_time := inject_Z 1000; terminal := None; cmdline := [§"python"; script] |}.
Definition look (config : json) (ps : list ProcInfo) : sight :=
  {| config := Ok config; registry := RegDemo.scanned; children := Some []; daemons := []; procs := ps; server_pid := 500;
     server_create_time := inject_Z 5000; now := inject_Z 7200; writable := true |}.
Definition declared : json := JObj [(§"daemons", JObj [(§"items", JArr [JObj [(§"recipe", JStr (§"c"))]])])].
Definition quiet_kernel : kernel :=
  {| created p := if decide (p = 77) then Some (inject_Z 1000) else None; descendants _ := Some []; getpgid _ p := Some p;
     killpg_works _ _ := true; survives _ := false |}.
Definition fresh_reaper : reaper := {| ledger := Raise OSError; reaped_total := 0; last_scan_at := None; signals := [] |}.
Definition owned_c : dict pystr pystr := [(§"c", script)].
Definition nominated : OrphanCandidate := {| proc := leftover; recipe := §"c" |}.
Definition first_scan : kernel * sight := (quiet_kernel, look declared [leftover]).

Lemma owns_c : _owned_scripts (look declared [leftover]) = Ok owned_c.
Proof. vm_compute. reflexivity. Qed.
Lemma nominates : candidates_of (look declared [leftover]) owned_c = [nominated].
Proof. vm_compute. reflexivity. Qed.

Lemma reaps_only_orphans_witness : signals (cycle (cycles [first_scan] fresh_reaper) first_scan) = [Killpg 77 SIGTERM] ∧
  ∃ c, aims_at quiet_kernel (pid (proc c)) (Killpg 77 SIGTERM) ∧ ppid (proc c) = 1.
Proof.
  assert (signals (cycle (cycles [first_scan] fresh_reaper) first_scan) = [Killpg 77 SIGTERM]) as Hs by (vm_compute; reflexivity).
  split; [exact Hs|].
  destruct (reaps_only_orphans [first_scan] quiet_kernel (look declared [leftover]) fresh_reaper (Killpg 77 SIGTERM))
    as (owned & c & _ & Hor & _ & Ha & _); [reflexivity| |].
  - fold first_scan. rewrite Hs. apply list_elem_of_here.
  - exists c. split; [exact Ha|]. exact (or_reparented _ _ _ Hor).
Defined.

Lemma orphan_reaped_witness : ∃ r s2, run_once false quiet_kernel (look declared [leftover]) (cycle fresh_reaper first_scan) = (Ok r, s2) ∧
  nominated ∈ r.
Proof.
  destruct (orphan_reaped quiet_kernel (look declared [leftover]) quiet_kernel (look declared [leftover]) fresh_reaper
    owned_c owned_c nominated nominated) as (r & s2 & x & Hr & Hin & _);
    [exists []; split; [reflexivity|constructor]|reflexivity|exact owns_c|exact owns_c|rewrite nominates; apply list_elem_of_here|
     rewrite nominates; apply list_elem_of_here|rewrite nominates; apply le_S_n; repeat constructor|
     rewrite nominates; apply le_S_n; repeat constructor|reflexivity|by intros ?%elem_of_nil|by exists (inject_Z 1000)|].
  exists r, s2. split; [exact Hr|exact Hin].
Defined.

(** A sighting outlives scans that leave the ledger alone: here the second scan
    declares no daemons and nominates nobody, and the third kills. *)
Lemma sighting_outlives_scan :
  candidates_of (look (JObj []) [leftover]) [] = [] ∧
  signals (cycles [first_scan; (quiet_kernel, look (JObj []) [leftover])] fresh_reaper) = [] ∧
  signals (cycles [first_scan; (quiet_kernel, look (JObj []) [leftover]); first_scan] fresh_reaper) = [Killpg 77 SIGTERM].
Proof. vm_compute. repeat split; reflexivity. Qed.
End OrphanDemo.
