(* ===== verification/Profiles.v ===== *)
(** * API profiles and the agent programs they are written into

    init/profile_manager.py, init/profile_targets.py and init/profile_target_backup.py:
    the saved endpoints, their activation on the agent programs and its undoing; with
    the parts of init/configurator.py and of the drivers for Claude Code and opencode
    that write a profile into each program's own configuration. *)

From S2P Require Import Prelude PyStr Json.
From stdpp Require Import prelude list strings.

Local Open Scope N_scope.

Section profiles.
Context `{Unicode, PyRepr}.

(** ** URLs, as far as the code looks into them *)

(** [url.partition(c)] and [url.rpartition(c)[2]]. *)
Definition before c (s : pystr) : pystr := (partition_on c s).1.
Definition after_last c (s : pystr) : pystr := List.last (split_on c s) [].

Definition scheme_char (c : N) : bool :=
  ((97 <=? c) && (c <=? 122)) || ((65 <=? c) && (c <=? 90)) || ((48 <=? c) && (c <=? 57)) || has_char c (§"+-.").
Fixpoint drop_controls (s : pystr) : pystr :=
  match s with c :: s' => if c <=? 32 then drop_controls s' else s | [] => [] end.
Fixpoint take_until (stops : pystr) (s : pystr) : pystr :=
  match s with c :: s' => if has_char c stops then [] else c :: take_until stops s' | [] => [] end.

(** [urlsplit(url)]: the scheme and the network location, [None] for the
    [ValueError] of a bracket without its other half. *)
Definition urlsplit (url : pystr) : option (pystr * pystr) :=
  let url := filter (λ c, has_char c [9; 10; 13] = false) (drop_controls url) in
  let '(scheme, rest) :=
    match partition_on 58 url with
    | ((c :: _) as s, Some r) => if ((97 <=? ascii_lower c) && (ascii_lower c <=? 122)) && forallb scheme_char s
                                 then (map ascii_lower s, r) else ([], url)
    | _ => ([], url)
    end in
  let netloc := if starts_with (§"//") rest then take_until (§"/?#") (drop 2 rest) else [] in
  if Bool.eqb (has_char 91 netloc) (has_char 93 netloc) then Some (scheme, netloc) else None.

Definition hostname (netloc : pystr) : pystr :=
  let hostinfo := after_last 64 netloc in
  match partition_on 91 hostinfo with
  | (_, Some bracketed) => before 93 bracketed
  | (_, None) => before 58 hostinfo
  end.

Definition validate_endpoint_url (url : option pystr) : bool :=
  let url := strip (default [] url) in
  (starts_with (§"http://") url || starts_with (§"https://") url) &&
  match urlsplit url with Some (_ :: _, _ :: _) => true | _ => false end.

Definition _endpoint_host (url : option pystr) : pystr :=
  match url with
  | None | Some [] => []
  | Some url =>
      match urlsplit (if contains (§"//") url then url else §"//" ++ url) with
      | Some (_, netloc) => str_lower (hostname netloc)
      | None => []
      end
  end.

(** ** Endpoints *)

Definition preset (display : string) (auth : option string) (url model sonnet haiku : string) (timeout : Z) : jdict :=
  [(§"display_name", JStr (§display))] ++ match auth with Some a => [(§"auth", JStr (§a))] | None => [] end ++
  [(§"ANTHROPIC_BASE_URL", JStr (§url)); (§"ANTHROPIC_MODEL", JStr (§model));
   (§"ANTHROPIC_DEFAULT_SONNET_MODEL", JStr (§sonnet)); (§"ANTHROPIC_DEFAULT_HAIKU_MODEL", JStr (§haiku));
   (§"API_TIMEOUT_MS", JInt timeout); (§"CLAUDE_CODE_DISABLE_NONESSENTIAL_TRAFFIC", JInt 1)].
Definition PRESET_ENDPOINTS : dict pystr jdict :=
  [(§"deepseek", preset "DeepSeek (deepseek-chat)" None "https://api.deepseek.com/anthropic"
      "deepseek-reason" "deepseek-reason" "deepseek-chat" 600000);
   (§"aliyun", preset "Aliyun Bailian (qwen3-max)" None "https://dashscope.aliyuncs.com/apps/anthropic"
      "qwen3-max" "qwen3-max" "qwen3-max" 600000);
   (§"kimi", preset "Kimi K2 (kimi-k2-turbo-preview)" None "https://api.moonshot.cn/anthropic"
      "kimi-k2-turbo-preview" "kimi-k2-turbo-preview" "kimi-k2-turbo-preview" 600000);
   (§"minimax", preset "MiniMax M2" None "https://api.minimaxi.com/anthropic" "MiniMax-M2" "MiniMax-M2" "MiniMax-M2" 3000000);
   (§"tencent_maas", preset "Tencent Cloud MaaS (Hunyuan)" (Some "auth_token"%string) "https://tokenhub.tencentmaas.com"
      "Hy3-dev0630" "Hy3-dev0630" "Hy3-dev0630" 600000);
   (§"tencent_tokenplan", preset "Tencent Cloud TokenPlan (Hunyuan)" (Some "auth_token"%string)
      "https://api.lkeap.cloud.tencent.com/plan/anthropic" "Hy3-dev0630" "Hy3-dev0630" "Hy3-dev0630" 600000)].

Definition ENDPOINT_URL_PATTERNS : dict pystr pystr :=
  [(§"deepseek", §"api.deepseek.com"); (§"aliyun", §"dashscope.aliyuncs.com"); (§"kimi", §"api.moonshot.cn");
   (§"minimax", §"api.minimaxi.com"); (§"tencent_maas", §"tokenhub.tencentmaas.com");
   (§"tencent_tokenplan", §"api.lkeap.cloud.tencent.com")].
Definition _infer_endpoint_type_from_url (base_url : pystr) : pystr :=
  match base_url with
  | [] => §"custom"
  | _ => match List.find (λ kp, contains kp.2 base_url) ENDPOINT_URL_PATTERNS with Some kp => kp.1 | None => §"custom" end
  end.

Definition AUTH_STYLE_AUTH_TOKEN : pystr := §"auth_token".
Definition AUTH_STYLE_API_KEY : pystr := §"api_key".

Definition _matches_host (host known : pystr) : bool :=
  bool_decide (host = known) || bool_decide ((46 :: known) `suffix_of` host).

(** The table of hints has one row. *)
Definition infer_custom_auth_style (api_key : pystr) (url : option pystr) : option pystr :=
  let host := _endpoint_host url in
  if starts_with (§"sk-or-") api_key then Some AUTH_STYLE_AUTH_TOKEN
  else if negb (bool_decide (host = [])) && _matches_host host (§"openrouter.ai") then Some AUTH_STYLE_AUTH_TOKEN
  else None.

Definition resolve_auth_style (endpoint_type api_key : pystr) (url : option pystr) : pystr :=
  match dget endpoint_type PRESET_ENDPOINTS with
  | Some preset => match jget (§"auth") preset with JStr a => a | _ => AUTH_STYLE_API_KEY end
  | None => default AUTH_STYLE_API_KEY (infer_custom_auth_style api_key url)
  end.

(** [x or y] of optional strings, and a value for [None]. *)
Definition or_str (a : option pystr) (b : pystr) : pystr := match a with Some ((_ :: _) as s) => s | _ => b end.
Definition opt_json (a : option pystr) : json := match a with Some s => JStr s | None => JNull end.
Definition set_if (k : pystr) (a : option pystr) (d : jdict) : jdict :=
  match a with Some ((_ :: _) as s) => dset k (JStr s) d | _ => d end.

(** [build_claude_env_config], which no caller gives an explicit [auth]. *)
Definition build_claude_env_config (endpoint_type api_key : pystr)
    (custom_url default_model sonnet_model haiku_model : option pystr) : jdict :=
  let env :=
    match dget endpoint_type PRESET_ENDPOINTS with
    | Some p => ddel (§"auth") (ddel (§"display_name") p)
    | None =>
        let model := or_str default_model (§"gpt-4") in
        [(§"ANTHROPIC_BASE_URL", opt_json custom_url); (§"ANTHROPIC_MODEL", JStr model);
         (§"ANTHROPIC_DEFAULT_SONNET_MODEL", JStr (or_str sonnet_model model));
         (§"ANTHROPIC_DEFAULT_HAIKU_MODEL", JStr (or_str haiku_model model));
         (§"API_TIMEOUT_MS", JInt 600000); (§"CLAUDE_CODE_DISABLE_NONESSENTIAL_TRAFFIC", JInt 1)]
    end in
  let env := set_if (§"ANTHROPIC_MODEL") default_model env in
  let env := set_if (§"ANTHROPIC_DEFAULT_SONNET_MODEL") sonnet_model env in
  let env := set_if (§"ANTHROPIC_DEFAULT_HAIKU_MODEL") haiku_model env in
  if decide (resolve_auth_style endpoint_type api_key custom_url = AUTH_STYLE_AUTH_TOKEN) then
    dset (§"ANTHROPIC_API_KEY") (JStr []) (dset (§"ANTHROPIC_AUTH_TOKEN") (JStr api_key) env)
  else dset (§"ANTHROPIC_API_KEY") (JStr api_key) env.

(** ** The files *)

(** A configuration file: missing, unreadable ([Some None]), or a document. *)
Abbreviation file := (option (option json)).

(** What is on disk: the profiles, Claude Code's settings and its state file,
    opencode's configuration, the values activation has overwritten, and frago's own
    record of how Claude Code authenticates. *)
Record files := {
  profiles_file : file;
  claude_settings : file;
  claude_json : file;
  opencode_file : file;
  backup_file : file;
  auth_method : pystr;
}.
Implicit Types (f : files).

Definition set_profiles_file x f : files :=
  {| profiles_file := x; claude_settings := claude_settings f; claude_json := claude_json f; opencode_file := opencode_file f;
     backup_file := backup_file f; auth_method := auth_method f |}.
Definition set_claude_settings x f : files :=
  {| profiles_file := profiles_file f; claude_settings := x; claude_json := claude_json f; opencode_file := opencode_file f;
     backup_file := backup_file f; auth_method := auth_method f |}.
Definition set_claude_json x f : files :=
  {| profiles_file := profiles_file f; claude_settings := claude_settings f; claude_json := x; opencode_file := opencode_file f;
     backup_file := backup_file f; auth_method := auth_method f |}.
Definition set_opencode_file x f : files :=
  {| profiles_file := profiles_file f; claude_settings := claude_settings f; claude_json := claude_json f; opencode_file := x;
     backup_file := backup_file f; auth_method := auth_method f |}.
Definition set_backup_file x f : files :=
  {| profiles_file := profiles_file f; claude_settings := claude_settings f; claude_json := claude_json f;
     opencode_file := opencode_file f; backup_file := x; auth_method := auth_method f |}.
Definition set_auth_method x f : files :=
  {| profiles_file := profiles_file f; claude_settings := claude_settings f; claude_json := claude_json f;
     opencode_file := opencode_file f; backup_file := backup_file f; auth_method := x |}.

(** A missing or unreadable file is an empty object; so is, for some readers, one
    that holds anything but an object. *)
Definition loaded (x : file) : json := match x with Some (Some v) => v | _ => JObj [] end.
Definition loaded_dict (x : file) : jdict := match x with Some (Some (JObj d)) => d | _ => [] end.
Definition doc (d : jdict) : file := Some (Some (JObj d)).

(** [d[k] = v] and the like on what a file holds, if it is no object. *)
Definition as_table (v : json) : res jdict := match v with JObj d => Ok d | _ => Raise TypeError end.

(** [d.update(e)]. *)
Definition dupdate (d e : jdict) : jdict := foldl (λ d kv, dset kv.1 kv.2 d) d e.

(** *** What activation overwrote *)

Definition remember (target : pystr) (values : jdict) : M files unit :=
  f ← get_st;
  let d := loaded_dict (backup_file f) in
  if dmem target d then mret tt else modify (set_backup_file (doc (dset target (JObj values) d))).

(** [_save] removes the file of an empty store. *)
Definition take_backup (target : pystr) : M files (option jdict) :=
  f ← get_st;
  let d := loaded_dict (backup_file f) in
  match dget target d with
  | None | Some JNull => mret None
  | Some v =>
      let rest := ddel target d in
      modify (set_backup_file (match rest with [] => None | _ => doc rest end));;
      mret (match v with JObj values => Some values | _ => None end)
  end.

(** *** Claude Code *)

(** [save_claude_settings({"env": env})]. *)
Definition save_claude_env (env : jdict) : M files unit :=
  f ← get_st;
  existing ← lift_res (as_table (loaded (claude_settings f)));
  old ← lift_res (as_obj (default (JObj []) (dget (§"env") existing)));
  modify (set_claude_settings (doc (dset (§"env") (JObj (dupdate old env)) existing))).

Definition API_KEYS : list pystr :=
  [§"ANTHROPIC_API_KEY"; §"ANTHROPIC_AUTH_TOKEN"; §"ANTHROPIC_BASE_URL"; §"ANTHROPIC_MODEL";
   §"ANTHROPIC_DEFAULT_SONNET_MODEL"; §"ANTHROPIC_DEFAULT_HAIKU_MODEL"; §"API_TIMEOUT_MS";
   §"CLAUDE_CODE_DISABLE_NONESSENTIAL_TRAFFIC"].

Definition clear_api_env_from_settings : M files unit :=
  f ← get_st;
  if negb (truthy (loaded (claude_settings f))) then mret tt
  else
    settings ← lift_res (as_obj (loaded (claude_settings f)));
    let env := default (JObj []) (dget (§"env") settings) in
    if negb (truthy env) then mret tt
    else
      match env with
      | JObj env =>
          if existsb (λ k, dmem k env) API_KEYS then
            let env := foldl (λ e k, ddel k e) env API_KEYS in
            modify (set_claude_settings (doc (match env with
                                              | [] => ddel (§"env") settings
                                              | _ => dset (§"env") (JObj env) settings
                                              end)))
          else mret tt
      | JArr l => if existsb (λ k, bool_decide (JStr k ∈ l)) API_KEYS then raise TypeError else mret tt
      | JStr t => if existsb (λ k, contains k t) API_KEYS then raise TypeError else mret tt
      | _ => raise TypeError
      end.

Definition CLAUDE_JSON_MINIMAL : jdict :=
  [(§"hasCompletedOnboarding", JBool true); (§"lastOnboardingVersion", JStr (§"1.0.0"));
   (§"isQualifiedForDataSharing", JBool false)].
Definition ensure_claude_json_for_custom_auth : M files unit :=
  f ← get_st;
  existing ← lift_res (as_table (loaded (claude_json f)));
  let missing := filter (λ kv, dmem kv.1 existing = false) CLAUDE_JSON_MINIMAL in
  match missing with
  | [] => mret tt
  | _ => modify (set_claude_json (doc (dupdate existing missing)))
  end.

(** ** Profiles *)

Record APIProfile := {
  id : pystr;
  name : pystr;
  endpoint_type : pystr;
  api_key : pystr;
  url : option pystr;
  default_model : option pystr;
  sonnet_model : option pystr;
  haiku_model : option pystr;
  created_at : json;
  updated_at : json;
}.
Implicit Types (p : APIProfile).

Definition claude_env p : jdict :=
  build_claude_env_config (endpoint_type p) (api_key p)
    (if decide (endpoint_type p = §"custom") then url p else None) (default_model p) (sonnet_model p) (haiku_model p).
Definition claude_apply p : M files unit := ensure_claude_json_for_custom_auth;; save_claude_env (claude_env p).
Definition claude_revert : M files unit := clear_api_env_from_settings.

(** *** opencode *)

Definition _FRAGO_PROVIDER : pystr := §"frago-profile".

(** [re.compile(r"^v\d+", re.IGNORECASE).match(s)]. *)
Definition version_segment (s : pystr) : bool :=
  match s with v :: c :: _ => ((v =? 118) || (v =? 86)) && bool_decide (is_Some (digit_of c)) | _ => false end.
Definition _with_version_segment (u : pystr) : pystr :=
  let trimmed := rstrip_char 47 u in
  if version_segment (after_last 47 trimmed) then trimmed else trimmed ++ §"/v1".

Definition _provider_definition p : jdict :=
  let base_url :=
    match url p with
    | Some ((_ :: _) as u) => Some u
    | _ => match dget (endpoint_type p) PRESET_ENDPOINTS with
           | Some q => match jget (§"ANTHROPIC_BASE_URL") q with JStr u => Some u | _ => None end
           | None => None
           end
    end in
  let options := [(§"apiKey", JStr (api_key p))] in
  let options := match base_url with
                 | Some ((_ :: _) as u) => dset (§"baseURL") (JStr (_with_version_segment u)) options
                 | _ => options
                 end in
  let options := if decide (resolve_auth_style (endpoint_type p) (api_key p) base_url = AUTH_STYLE_AUTH_TOKEN)
                 then dset (§"headers") (JObj [(§"Authorization", JStr (§"Bearer " ++ api_key p))]) options
                 else options in
  let models := match default_model p with Some ((_ :: _) as m) => dset m (JObj []) [] | _ => [] end in
  let models := match haiku_model p with Some ((_ :: _) as m) => dset m (JObj []) models | _ => models end in
  let provider := [(§"npm", JStr (§"@ai-sdk/anthropic")); (§"options", JObj options)] in
  match models with [] => provider | _ => dset (§"models") (JObj models) provider end.

Definition selected (m : pystr) : pystr := _FRAGO_PROVIDER ++ 47 :: m.
Definition _model_selection p : jdict :=
  set_if (§"small_model") (match haiku_model p with Some ((_ :: _) as m) => Some (selected m) | _ => None end)
    (set_if (§"model") (match default_model p with Some ((_ :: _) as m) => Some (selected m) | _ => None end) []).

Definition _user_owned (v : json) : json :=
  match v with
  | JStr s => if starts_with (_FRAGO_PROVIDER ++ [47]) s then JNull else v
  | _ => v
  end.

Definition opencode_apply p : M files unit :=
  f ← get_st;
  let config := loaded_dict (opencode_file f) in
  remember (§"opencode") [(§"model", _user_owned (jget (§"model") config));
                          (§"small_model", _user_owned (jget (§"small_model") config))];;
  let providers := match jget (§"provider") config with JObj d => d | _ => [] end in
  let config := dset (§"provider") (JObj (dset _FRAGO_PROVIDER (JObj (_provider_definition p)) providers)) config in
  modify (set_opencode_file (doc (dupdate config (_model_selection p)))).

Definition drop_provider (config : jdict) : jdict :=
  match jget (§"provider") config with
  | JObj d => match ddel _FRAGO_PROVIDER d with
              | [] => ddel (§"provider") config
              | d => dset (§"provider") (JObj d) config
              end
  | _ => config
  end.
Definition restore_key (restored : jdict) (config : jdict) (k : pystr) : jdict :=
  let previous := jget k restored in
  if truthy previous then dset k previous config
  else if decide (_user_owned (jget k config) = JNull) then ddel k config else config.

Definition opencode_revert : M files unit :=
  f ← get_st;
  match opencode_file f with
  | None => _ ← take_backup (§"opencode"); mret tt
  | _ =>
      let config := drop_provider (loaded_dict (opencode_file f)) in
      restored ← take_backup (§"opencode");
      modify (set_opencode_file (doc (foldl (restore_key (default [] restored)) config [§"model"; §"small_model"])))
  end.

(** ** Targets *)

Definition AGENT_TARGETS : list pystr := [§"claude"; §"opencode"; §"codex"].
Definition DEFAULT_TARGETS : list pystr := [§"claude"].

(** The drivers' two actions: codex has neither, and an unknown program no
    driver. *)
Definition profile_apply (t : pystr) : res (option (APIProfile → M files unit)) :=
  if decide (t = §"claude") then Ok (Some claude_apply)
  else if decide (t = §"opencode") then Ok (Some opencode_apply)
  else if decide (t = §"codex") then Ok None else Raise KeyError.
Definition profile_revert (t : pystr) : option (M files unit) :=
  if decide (t = §"claude") then Some claude_revert
  else if decide (t = §"opencode") then Some opencode_revert else None.

(** Which programs are on this machine. *)
Class Installed := installed : pystr → bool.

Fixpoint check_targets `{Installed} (ts asked : list pystr) : res unit :=
  match ts with
  | [] => Ok tt
  | t :: ts =>
      if decide (t ∈ asked) then
        match profile_apply t with
        | Ok (Some _) => if installed t then check_targets ts asked else Raise ValueError
        | Ok None => Raise ValueError
        | Raise e => Raise e
        end
      else check_targets ts asked
  end.

Definition resolve_targets `{Installed} (requested : option (list pystr)) : res (list pystr) :=
  match requested with
  | None => Ok DEFAULT_TARGETS
  | Some l =>
      let asked := filter (λ t, t ≠ []) (map strip (filter (λ t, t ≠ []) l)) in
      if decide (asked = []) then Raise ValueError
      else if decide (Forall (λ t, t ∈ AGENT_TARGETS) asked) then
        _ ← check_targets AGENT_TARGETS asked;
        Ok (filter (λ t, t ∈ asked) AGENT_TARGETS)
      else Raise ValueError
  end.

Fixpoint apply_profile p (targets : list pystr) : M files unit :=
  match targets with
  | [] => mret tt
  | t :: ts =>
      a ← lift_res (profile_apply t);
      match a with Some apply => apply p | None => mret tt end;;
      apply_profile p ts
  end.

(** A failure is carried to the end. *)
Fixpoint revert_each (targets : list pystr) (first_error : option exn) : M files unit :=
  match targets with
  | [] => match first_error with Some e => raise e | None => mret tt end
  | t :: ts =>
      match profile_revert t with
      | None => revert_each ts first_error
      | Some revert => λ f,
          let (r, f) := revert f in
          revert_each ts (match first_error, r with None, Raise e => Some e | _, _ => first_error end) f
      end
  end.
Definition revert_targets (targets : list pystr) : M files unit := revert_each targets None.

(** ** The store *)

Record ProfileStore := {
  schema_version : pystr;
  active_profile_id : option pystr;
  active_targets : list pystr;
  profiles : list APIProfile;
}.
Definition empty_store : ProfileStore :=
  {| schema_version := §"1.0"; active_profile_id := None; active_targets := []; profiles := [] |}.

(** Dates in a document, as the validation of the models reads and writes them
    again: what was once written is read as it is. *)
Class Dates := {
  date_of : json → option json;
  date_again v w : date_of v = Some w → date_of w = Some w;
}.

(** The moment: a fresh id and the time, which is a date. *)
Class Moment `{Dates} := { new_id : pystr; now : json; now_date : date_of now = Some now }.

Section store.
Context `{Moment, Installed}.

(** What the models require of a document's fields: a string, a string or null, a
    date; a field that is missing takes its default. *)
Definition need_str (k : pystr) (d : jdict) : option pystr := match dget k d with Some (JStr s) => Some s | _ => None end.
Definition str_or (k : pystr) (v : pystr) (d : jdict) : option pystr :=
  match dget k d with None => Some v | Some (JStr s) => Some s | _ => None end.
Definition opt_str (k : pystr) (d : jdict) : option (option pystr) :=
  match dget k d with None | Some JNull => Some None | Some (JStr s) => Some (Some s) | _ => None end.
Definition date_or (k : pystr) (d : jdict) : option json :=
  match dget k d with None => Some now | Some v => date_of v end.

Definition profile_of (v : json) : option APIProfile :=
  match v with
  | JObj d =>
      i ← str_or (§"id") new_id d; n ← need_str (§"name") d; e ← need_str (§"endpoint_type") d; k ← need_str (§"api_key") d;
      u ← opt_str (§"url") d; m ← opt_str (§"default_model") d; so ← opt_str (§"sonnet_model") d;
      h ← opt_str (§"haiku_model") d; c ← date_or (§"created_at") d; up ← date_or (§"updated_at") d;
      Some {| id := i; name := n; endpoint_type := e; api_key := k; url := u; default_model := m; sonnet_model := so;
              haiku_model := h; created_at := c; updated_at := up |}
  | _ => None
  end.
Definition profile_dict p : jdict :=
  [(§"id", JStr (id p)); (§"name", JStr (name p)); (§"endpoint_type", JStr (endpoint_type p)); (§"api_key", JStr (api_key p));
   (§"url", opt_json (url p)); (§"default_model", opt_json (default_model p)); (§"sonnet_model", opt_json (sonnet_model p));
   (§"haiku_model", opt_json (haiku_model p)); (§"created_at", created_at p); (§"updated_at", updated_at p)].

Definition strs_of (v : json) : option (list pystr) :=
  match v with JArr l => mapM (λ x, match x with JStr s => Some s | _ => None end) l | _ => None end.
Definition store_of (d : jdict) : option ProfileStore :=
  v ← str_or (§"schema_version") (§"1.0") d;
  a ← opt_str (§"active_profile_id") d;
  ts ← match dget (§"active_targets") d with None => Some [] | Some x => strs_of x end;
  ps ← match dget (§"profiles") d with None => Some [] | Some (JArr l) => mapM profile_of l | _ => None end;
  Some {| schema_version := v; active_profile_id := a; active_targets := ts; profiles := ps |}.

Definition load_profiles f : ProfileStore :=
  match profiles_file f with
  | Some (Some (JObj d)) =>
      match store_of d with
      | Some st =>
          if truthy (jget (§"active_profile_id") d) && negb (dmem (§"active_targets") d) then
            {| schema_version := schema_version st; active_profile_id := active_profile_id st;
               active_targets := DEFAULT_TARGETS; profiles := profiles st |}
          else st
      | None => empty_store
      end
  | _ => empty_store
  end.

(** The document of a store, from the dictionaries of its profiles. *)
Definition store_doc (st : ProfileStore) (ps : list jdict) : jdict :=
  [(§"schema_version", JStr (schema_version st)); (§"active_profile_id", opt_json (active_profile_id st));
   (§"active_targets", JArr (map JStr (active_targets st))); (§"profiles", JArr (map JObj ps))].
Definition save_profiles (st : ProfileStore) f : files := set_profiles_file (doc (store_doc st (map profile_dict (profiles st)))) f.

Definition with_profiles (l : list APIProfile) (st : ProfileStore) : ProfileStore :=
  {| schema_version := schema_version st; active_profile_id := active_profile_id st; active_targets := active_targets st;
     profiles := l |}.
Definition with_active (a : option pystr) (ts : list pystr) (st : ProfileStore) : ProfileStore :=
  {| schema_version := schema_version st; active_profile_id := a; active_targets := ts; profiles := profiles st |}.

(** The name, as [updates.get("name", ...)] gives it, may be null. *)
Definition _validate_profile (n : option pystr) (e : pystr) (u : option pystr) : res unit :=
  if decide (strip (default [] n) = []) then Raise ValueError
  else if negb (bool_decide (e = §"custom")) && negb (dmem e PRESET_ENDPOINTS) then Raise ValueError
  else if bool_decide (e = §"custom") && negb (validate_endpoint_url u) then Raise ValueError
  else Ok tt.

Definition add_profile p : M files ProfileStore :=
  lift_res (_validate_profile (Some (name p)) (endpoint_type p) (url p));;
  f ← get_st;
  let st := with_profiles (profiles (load_profiles f) ++ [p]) (load_profiles f) in
  modify (save_profiles st);;
  mret st.

Fixpoint find_profile (i : pystr) (l : list APIProfile) : option APIProfile :=
  match l with [] => None | p :: l => if decide (id p = i) then Some p else find_profile i l end.
Fixpoint take_while_not (i : pystr) (l : list APIProfile) : list APIProfile :=
  match l with [] => [] | p :: l => if decide (id p = i) then [] else p :: take_while_not i l end.
Definition get_profile (i : pystr) f : option APIProfile := find_profile i (profiles (load_profiles f)).

Definition set_auth (m : pystr) : M files unit := modify (set_auth_method m).

Definition activate_profile (profile_id : pystr) (targets : option (list pystr)) : M files (list pystr) :=
  resolved ← lift_res (resolve_targets targets);
  f ← get_st;
  let st := load_profiles f in
  match find_profile profile_id (profiles st) with
  | None => raise ValueError
  | Some p =>
      apply_profile p resolved;;
      let dropped := filter (λ t, t ∉ resolved) (active_targets st) in
      (match dropped with [] => mret tt | _ => revert_targets dropped end);;
      (if decide (§"claude" ∈ resolved) then set_auth (§"custom")
       else if decide (§"claude" ∈ dropped) then set_auth (§"official") else mret tt);;
      modify (save_profiles (with_active (Some profile_id) resolved st));;
      mret resolved
  end.

Definition deactivate_profile (targets : option (list pystr)) : M files (list pystr) :=
  f ← get_st;
  let st := load_profiles f in
  let active := match active_targets st with [] => DEFAULT_TARGETS | l => l end in
  let handing_back := match targets with Some l => filter (λ t, t ∈ l) active | None => active end in
  revert_targets handing_back;;
  (if decide (§"claude" ∈ handing_back) then set_auth (§"official") else mret tt);;
  let remaining := filter (λ t, t ∉ handing_back) active in
  modify (save_profiles (with_active (match remaining with [] => None | _ => active_profile_id st end) remaining st));;
  mret handing_back.

(** The fields an update may set. *)
Definition SETTABLE : list pystr :=
  [§"name"; §"endpoint_type"; §"api_key"; §"url"; §"default_model"; §"sonnet_model"; §"haiku_model"; §"updated_at"].
Definition set_field (d : jdict) (kv : pystr * option pystr) : jdict :=
  if bool_decide (kv.1 = §"api_key") && negb (bool_decide (or_str kv.2 [] ≠ [])) then d
  else if decide (kv.1 ∈ SETTABLE) then dset kv.1 (opt_json kv.2) d else d.

(** An update's fields are strings or null; the assignments are not validated, and
    the saved document is built from what was assigned. *)
Definition updated_dict p (updates : dict pystr (option pystr)) : jdict :=
  dset (§"updated_at") now (foldl set_field (profile_dict p) updates).

Definition update_profile (profile_id : pystr) (updates : dict pystr (option pystr)) : M files unit :=
  f ← get_st;
  let st := load_profiles f in
  match find_profile profile_id (profiles st) with
  | None => raise ValueError
  | Some p =>
      lift_res (_validate_profile (default (Some (name p)) (dget (§"name") updates))
                  (or_str (default None (dget (§"endpoint_type") updates)) (endpoint_type p))
                  (default (url p) (dget (§"url") updates)));;
      let k := length (take_while_not profile_id (profiles st)) in
      modify (set_profiles_file (doc (store_doc st (<[k := updated_dict p updates]> (map profile_dict (profiles st))))));;
      if decide (active_profile_id st = Some profile_id) then
        _ ← activate_profile profile_id (match active_targets st with [] => None | l => Some l end);
        mret tt
      else mret tt
  end.

Definition delete_profile (profile_id : pystr) : M files unit :=
  f ← get_st;
  let st := load_profiles f in
  let l := filter (λ p, id p ≠ profile_id) (profiles st) in
  if decide (length l = length (profiles st)) then raise ValueError
  else
    let st' := with_profiles l st in
    modify (save_profiles (if decide (active_profile_id st = Some profile_id) then with_active None [] st' else st')).

(** Values of the environment, where the model of a profile needs a string, or a
    string or null; its validation error is a [ValueError]. *)
Definition env_str (v : json) : res pystr := match v with JStr s => Ok s | _ => Raise ValueError end.
Definition env_opt (v : json) : res (option pystr) :=
  match v with JStr s => Ok (Some s) | JNull => Ok None | _ => Raise ValueError end.

Definition create_profile_from_current (n : pystr) : M files (option APIProfile) :=
  f ← get_st;
  settings ← lift_res (as_obj (loaded (claude_settings f)));
  env ← lift_res (as_obj (default (JObj []) (dget (§"env") settings)));
  let key := jor (jor (jget (§"ANTHROPIC_API_KEY") env) (jget (§"ANTHROPIC_AUTH_TOKEN") env)) (JStr []) in
  if negb (truthy key) then mret None
  else
    base_url ← lift_res (match default (JStr []) (dget (§"ANTHROPIC_BASE_URL") env) with
                         | JStr s => Ok (Some s)
                         | v => if truthy v then Raise TypeError else env_opt v
                         end);
    let e := _infer_endpoint_type_from_url (default [] base_url) in
    k ← lift_res (env_str key);
    m ← lift_res (env_opt (jget (§"ANTHROPIC_MODEL") env));
    so ← lift_res (env_opt (jget (§"ANTHROPIC_DEFAULT_SONNET_MODEL") env));
    h ← lift_res (env_opt (jget (§"ANTHROPIC_DEFAULT_HAIKU_MODEL") env));
    let p := {| id := new_id; name := n; endpoint_type := e; api_key := k;
                url := if decide (e = §"custom") then base_url else None;
                default_model := m; sonnet_model := so; haiku_model := h; created_at := now; updated_at := now |} in
    let st := load_profiles f in
    modify (save_profiles (with_active (Some new_id) DEFAULT_TARGETS (with_profiles (profiles st ++ [p]) st)));;
    mret (Some p).

(** The endpoint that edits a profile: a blank field is a cleared one. *)
Definition _blank_to_none (v : option pystr) : option pystr :=
  match v with Some s => match strip s with [] => None | t => Some t end | None => None end.
Definition update_profile_endpoint (profile_id : pystr) (sent : dict pystr (option pystr)) : M files unit :=
  update_profile profile_id
    (map (λ kv, (kv.1, if decide (kv.1 = §"api_key") then kv.2 else _blank_to_none kv.2)) sent).
End store.
End profiles.

(** ** Dictionaries *)

Definition same_fields (d e : jdict) : Prop := ∀ k, dget k d = dget k e.

Lemma dupdate_get e : ∀ d k, dict_wf e → dget k (dupdate d e) = match dget k e with Some v => Some v | None => dget k d end.
Proof.
  induction e as [|[k' v'] e IH]; intros d k Hwf; [done|]. apply NoDup_cons in Hwf as [Hk Hwf]. cbn [dupdate foldl dget].
  fold (dupdate (dset (k', v').1 (k', v').2 d) e). rewrite IH by exact Hwf. cbn [fst snd].
  destruct (decide (k = k')) as [->|Hne].
  - rewrite (proj2 (dget_None k' e) Hk). apply dget_dset_eq.
  - by rewrite dget_dset_ne.
Qed.
Lemma dupdate_wf e : ∀ d, dict_wf d → dict_wf (dupdate d e).
Proof. induction e as [|kv e IH]; intros d Hd; [done|]. apply IH. by apply dset_wf. Qed.

Lemma ddels_get l : ∀ (d : jdict) k, dict_wf d → dget k (foldl (λ e k, ddel k e) d l) = if decide (k ∈ l) then None else dget k d.
Proof.
  induction l as [|k' l IH]; intros d k Hd; cbn [foldl].
  - by rewrite decide_False by (by intros ?%elem_of_nil).
  - rewrite IH by (by apply ddel_wf). destruct (decide (k = k')) as [->|Hne].
    + rewrite (decide_True (P := k' ∈ k' :: l)) by (by left). case_decide; [done|]. by apply dget_ddel_eq.
    + rewrite dget_ddel_ne by done. destruct (decide (k ∈ l)).
      * by rewrite decide_True by (by right).
      * rewrite decide_False; [done|]. by intros [?|?]%elem_of_cons.
Qed.
Lemma ddels_wf l : ∀ d : jdict, dict_wf d → dict_wf (foldl (λ e k, ddel k e) d l).
Proof. induction l as [|k l IH]; intros d Hd; [done|]. apply IH. by apply ddel_wf. Qed.

(** ** opencode's configuration comes back *)

Abbreviation config_of := (λ f, loaded_dict (opencode_file f)).
Abbreviation backup_of := (λ f, loaded_dict (backup_file f)).
Abbreviation settings_of := (λ f, loaded_dict (claude_settings f)).

Section opencode.
Context `{Unicode}.

Lemma user_owned_selected m : _user_owned (JStr (selected m)) = JNull.
Proof.
  unfold _user_owned, selected. change (_FRAGO_PROVIDER ++ 47 :: m) with ((_FRAGO_PROVIDER ++ [47]) ++ m).
  by rewrite starts_with_app.
Qed.

Lemma model_selection_keys p k v : dget k (_model_selection p) = Some v → k ∈ [§"model"; §"small_model"] ∧ ∃ m, v = JStr (selected m).
Proof.
  assert (∀ (m : option pystr) k' (d : jdict), dget k (set_if k' (match m with Some ((_ :: _) as m) => Some (selected m) | _ => None end) d) = Some v →
    k = k' ∧ (∃ m, v = JStr (selected m)) ∨ dget k d = Some v) as Hset.
  { intros [[|c m]|] k' d; [by right| |by right].
    change (set_if k' (Some (selected (c :: m))) d) with (dset k' (JStr (selected (c :: m))) d).
    destruct (decide (k = k')) as [->|Hne].
    - rewrite dget_dset_eq. intros [= <-]. eauto.
    - rewrite dget_dset_ne by done. auto. }
  intros [[-> Hm]|[[-> Hm]|?]%Hset]%Hset; [split; [right; left|done]|split; [left|done]|done].
Qed.
Lemma model_selection_wf p : dict_wf (_model_selection p).
Proof.
  unfold _model_selection, set_if. destruct (default_model p) as [[|c m]|], (haiku_model p) as [[|c' m']|];
    repeat apply dset_wf; constructor.
Qed.

(** A configuration frago has not written to: its provider, if any, names somebody,
    and the models it selects are the user's. *)
Definition providers_of (d : jdict) : jdict := match jget (§"provider") d with JObj ps => ps | _ => [] end.
Record user_config (d : jdict) : Prop := {
  uc_wf : dict_wf d;
  uc_provider : dget (§"provider") d = None ∨ (dget (§"provider") d = Some (JObj (providers_of d)) ∧ providers_of d ≠ []);
  uc_others : dget _FRAGO_PROVIDER (providers_of d) = None;
  uc_models k : k ∈ [§"model"; §"small_model"] → dget k d = None ∨ ∃ v, dget k d = Some v ∧ truthy v = true ∧ _user_owned v = v;
}.

(** The configuration [c] is [d] with a profile written into it. *)
Record taken_over (d c : jdict) : Prop := {
  to_wf : dict_wf c;
  to_provider : ∃ x, dget (§"provider") c = Some (JObj (dset _FRAGO_PROVIDER x (providers_of d)));
  to_models k : k ∈ [§"model"; §"small_model"] → dget k c = dget k d ∨ ∃ m, dget k c = Some (JStr (selected m));
  to_rest k : k ∉ [§"provider"; §"model"; §"small_model"] → dget k c = dget k d;
}.

Definition overwritten (d : jdict) : json :=
  JObj [(§"model", _user_owned (jget (§"model") d)); (§"small_model", _user_owned (jget (§"small_model") d))].

Lemma provider_not_model : §"provider" ∉ [§"model"; §"small_model"].
Proof. apply (bool_decide_unpack _). reflexivity. Qed.

(** Writing a profile into the user's configuration, or over another profile. *)
Lemma write_taken_over d c p ps : dict_wf d → (c = d ∧ ps = providers_of d ∨ taken_over d c ∧ ∃ x, ps = dset _FRAGO_PROVIDER x (providers_of d)) →
  taken_over d (dupdate (dset (§"provider") (JObj (dset _FRAGO_PROVIDER (JObj (_provider_definition p)) ps)) c) (_model_selection p)).
Proof.
  intros Hd Hc. assert (dict_wf c) as Hwf by (destruct Hc as [[-> _]|[[]]]; done).
  assert (∀ k, k ∈ [§"model"; §"small_model"] → dget k c = dget k d ∨ ∃ m, dget k c = Some (JStr (selected m))) as Hm.
  { destruct Hc as [[-> _]|[[] _]]; eauto. }
  assert (∀ k, k ∉ [§"provider"; §"model"; §"small_model"] → dget k c = dget k d) as Hr.
  { destruct Hc as [[-> _]|[[] _]]; eauto. }
  assert (dset _FRAGO_PROVIDER (JObj (_provider_definition p)) ps = dset _FRAGO_PROVIDER (JObj (_provider_definition p)) (providers_of d)) as Hp.
  { destruct Hc as [[_ ->]|[_ [x ->]]]; [done|]. apply dset_dset. }
  rewrite Hp. split.
  - apply dupdate_wf. by apply dset_wf.
  - eexists. rewrite dupdate_get by apply model_selection_wf. destruct (dget (§"provider") (_model_selection p)) as [v|] eqn:E.
    + apply model_selection_keys in E as [E _]. by apply provider_not_model in E.
    + apply dget_dset_eq.
  - intros k Hk. rewrite dupdate_get by apply model_selection_wf. destruct (dget k (_model_selection p)) as [v|] eqn:E.
    + apply model_selection_keys in E as [_ [m ->]]. right. by exists m.
    + rewrite dget_dset_ne; [by apply Hm|]. intros ->. by apply provider_not_model in Hk.
  - intros k Hk. rewrite dupdate_get by apply model_selection_wf. destruct (dget k (_model_selection p)) as [v|] eqn:E.
    + apply model_selection_keys in E as [E _]. set_solver.
    + rewrite dget_dset_ne; [by apply Hr|]. set_solver.
Qed.

(** The user's configuration [d], with nothing of frago's in it, and with a profile
    in it and what that overwrote on file. *)
Record at_rest (d : jdict) (f : files) : Prop := {
  ar_same : same_fields (config_of f) d;
  ar_wf : dict_wf (config_of f);
  ar_backup : dget (§"opencode") (backup_of f) = None;
}.
Record held (d : jdict) (f : files) : Prop := {
  he_config : taken_over d (config_of f);
  he_file : is_Some (opencode_file f);
  he_backup : dget (§"opencode") (backup_of f) = Some (overwritten d);
}.

Definition opencode_only (f f' : files) : Prop := f' = set_backup_file (backup_file f') (set_opencode_file (opencode_file f') f).

Lemma providers_of_same d c : same_fields c d → providers_of c = providers_of d.
Proof. intros Hs. unfold providers_of, jget. by rewrite Hs. Qed.
Lemma taken_over_same d c c' : same_fields c d → taken_over c c' → taken_over d c'.
Proof.
  intros Hs [Hw Hp Hm Hr]. split; [done| | |].
  - by rewrite <- (providers_of_same _ _ Hs).
  - intros k Hk. rewrite <- Hs. by apply Hm.
  - intros k Hk. rewrite <- Hs. by apply Hr.
Qed.
Lemma overwritten_same d c : same_fields c d → overwritten c = overwritten d.
Proof. intros Hs. unfold overwritten, jget. by rewrite !Hs. Qed.

Lemma opencode_apply_first d p f : at_rest d f → ∃ f', opencode_apply p f = (Ok tt, f') ∧ held d f' ∧ opencode_only f f'.
Proof.
  intros [Hs Hw Hb]. unfold opencode_apply, remember. munfold. unfold dmem. rewrite Hb. cbn.
  eexists; split; [done|]. split; [|done]. split; cbn; [|by eexists|].
  - eapply taken_over_same; [exact Hs|]. apply write_taken_over; [done|]. left. split; [done|]. reflexivity.
  - rewrite dget_dset_eq. f_equal. exact (overwritten_same _ _ Hs).
Qed.

Lemma opencode_apply_again d p f : dict_wf d → held d f → ∃ f', opencode_apply p f = (Ok tt, f') ∧ held d f' ∧ opencode_only f f'.
Proof.
  intros Hd [Ht Hs Hb]. unfold opencode_apply, remember. munfold. unfold dmem. rewrite Hb. cbn.
  eexists; split; [done|]. split; [|by destruct f]. split; cbn; [|by eexists|done].
  apply write_taken_over; [done|]. right. split; [done|]. destruct Ht as [_ [x Hx] _ _]. exists x.
  unfold jget. by rewrite Hx.
Qed.

(** The models as they were. *)
Lemma restore_key_get d c k : user_config d → taken_over d c → k ∈ [§"model"; §"small_model"] → ∀ c' restored,
  dget k c' = dget k c → jget k restored = _user_owned (jget k d) → dict_wf c' → dget k (restore_key restored c' k) = dget k d.
Proof.
  intros Hd Hc Hk c' r Hc' Hr Hwf. unfold restore_key. rewrite Hr. pose proof (uc_models _ Hd k Hk) as Hu.
  pose proof (to_models _ _ Hc k Hk) as Hm. destruct Hu as [Hn|(v & Hv & Ht & Ho)].
  - unfold jget. rewrite Hn. cbn. rewrite decide_True; [by apply dget_ddel_eq|]. rewrite Hc'.
    destruct Hm as [->|[m ->]]; [by rewrite Hn|]. apply user_owned_selected.
  - unfold jget. rewrite Hv. cbn. rewrite Ho, Ht. apply dget_dset_eq.
Qed.
Lemma restore_key_frame r c k k' : k ≠ k' → dget k (restore_key r c k') = dget k c.
Proof. intros Hne. unfold restore_key. destruct (truthy _); [|case_decide]; [by apply dget_dset_ne|by apply dget_ddel_ne|done]. Qed.
Lemma restore_key_wf r c k : dict_wf c → dict_wf (restore_key r c k).
Proof. intros Hc. unfold restore_key. destruct (truthy _); [|case_decide]; [by apply dset_wf|by apply ddel_wf|done]. Qed.

Lemma drop_provider_get d c : user_config d → taken_over d c → dict_wf (drop_provider c) ∧
  dget (§"provider") (drop_provider c) = dget (§"provider") d ∧ ∀ k, k ≠ §"provider" → dget k (drop_provider c) = dget k c.
Proof.
  intros Hd Hc. destruct (to_provider _ _ Hc) as [x Hx]. pose proof (to_wf _ _ Hc) as Hwf. unfold drop_provider, jget. rewrite Hx. cbn.
  rewrite ddel_dset_new by apply Hd. destruct (uc_provider _ Hd) as [Hn|[Hp Hne]].
  - unfold providers_of, jget. rewrite Hn. cbn. split; [by apply ddel_wf|]. split; [by apply dget_ddel_eq|].
    intros k Hk. by apply dget_ddel_ne.
  - rewrite Hp. destruct (providers_of d) as [|kv ps] eqn:E; [done|]. split; [by apply dset_wf|]. split; [apply dget_dset_eq|].
    intros k Hk. by apply dget_dset_ne.
Qed.

Lemma restored_same d c r : user_config d → taken_over d c → r = [(§"model", _user_owned (jget (§"model") d)); (§"small_model", _user_owned (jget (§"small_model") d))] →
  let c' := foldl (restore_key r) (drop_provider c) [§"model"; §"small_model"] in same_fields c' d ∧ dict_wf c'.
Proof.
  intros Hd Ht -> c'. destruct (drop_provider_get _ _ Hd Ht) as (Hwf & Hp & Hr). subst c'. cbn [foldl].
  split; [|by repeat apply restore_key_wf]. intros k.
  destruct (decide (k = §"small_model")) as [->|H2]; [|destruct (decide (k = §"model")) as [->|H1]].
  - eapply restore_key_get; [done..|right; left| | |by apply restore_key_wf]; [by rewrite restore_key_frame, Hr|done].
  - rewrite restore_key_frame by done. eapply restore_key_get; [done..|left| | |done]; [by apply Hr|done].
  - rewrite !restore_key_frame by done. destruct (decide (k = §"provider")) as [->|H3]; [done|]. rewrite Hr by done.
    apply (to_rest _ _ Ht). intros [->|[->|[->|[]%elem_of_nil]%elem_of_cons]%elem_of_cons]%elem_of_cons; done.
Qed.

Lemma opencode_revert_restores d f : user_config d → dict_wf (backup_of f) → held d f →
  ∃ f', opencode_revert f = (Ok tt, f') ∧ at_rest d f' ∧ dict_wf (backup_of f') ∧ opencode_only f f'.
Proof.
  intros Hd Hbw [Ht [w Hs] Hb]. unfold opencode_revert, take_backup. munfold. rewrite Hs, Hb. cbn -[foldl restore_key].
  eexists; split; [done|]. rewrite Hs in Ht. destruct (restored_same _ _ _ Hd Ht eq_refl) as [Hsame Hwf].
  pose proof (ddel_wf (§"opencode") _ Hbw) as Hw. pose proof (dget_ddel_eq (§"opencode") _ Hbw) as Hn.
  split; [|split; [|done]]; [split; [done..|]|]; cbn -[foldl restore_key ddel]; by destruct (ddel _ _).
Qed.
End opencode.

(** ** Claude Code's settings *)

Section claude.
Context `{Unicode}.

(** The variable [k] of the [env] of the settings [d]. *)
Definition variable (k : pystr) (d : jdict) : option json :=
  match dget (§"env") d with Some (JObj e) => dget k e | _ => None end.

Definition good_env (e : jdict) : bool := bool_decide (dict_wf e) && forallb (λ k, bool_decide (k ∈ API_KEYS)) (dkeys e).
Lemma good_env_set k v e : k ∈ API_KEYS → good_env e = true → good_env (dset k v e) = true.
Proof.
  intros Hk [Hw%bool_decide_eq_true Hs]%andb_true_iff. apply andb_true_iff; split.
  - apply bool_decide_eq_true. by apply dset_wf.
  - apply forallb_forall. intros k' Hin. apply bool_decide_eq_true. apply list_elem_of_In in Hin.
    rewrite forallb_forall in Hs. apply dkeys_dset_elem in Hin as [->|Hin]; [done|].
    apply (bool_decide_eq_true _), Hs, list_elem_of_In, Hin.
Qed.
Lemma good_env_set_if k a e : k ∈ API_KEYS → good_env e = true → good_env (set_if k a e) = true.
Proof. destruct a as [[|c a]|]; cbn [set_if]; auto using good_env_set. Qed.

Lemma presets_good : Forall (λ kp, good_env (ddel (§"auth") (ddel (§"display_name") kp.2)) = true) PRESET_ENDPOINTS.
Proof. repeat constructor. Qed.
Lemma api_key_elem k : bool_decide (k ∈ API_KEYS) = true → k ∈ API_KEYS.
Proof. apply bool_decide_eq_true. Qed.

(** A profile sets variables of the API only. *)
Lemma claude_env_good p : good_env (claude_env p) = true.
Proof.
  unfold claude_env, build_claude_env_config. set (env := match dget _ _ with Some p => _ | None => _ end).
  assert (good_env env = true) as Henv.
  { subst env. destruct (dget (endpoint_type p) PRESET_ENDPOINTS) as [q|] eqn:E; [|reflexivity].
    apply dget_Some_elem in E. pose proof presets_good as Hg. rewrite Forall_forall in Hg. exact (Hg _ E). }
  case_decide; repeat first [apply good_env_set; [apply api_key_elem; reflexivity|] | apply good_env_set_if; [apply api_key_elem; reflexivity|]]; exact Henv.
Qed.
Lemma claude_env_wf p : dict_wf (claude_env p).
Proof. pose proof (claude_env_good p) as [Hw _]%andb_true_iff. by apply bool_decide_eq_true in Hw. Qed.
Lemma claude_env_keys p k v : dget k (claude_env p) = Some v → k ∈ API_KEYS.
Proof.
  intros Hk. pose proof (claude_env_good p) as [_ Hs]%andb_true_iff. rewrite forallb_forall in Hs.
  apply (bool_decide_eq_true _), Hs, list_elem_of_In. apply dget_Some_elem in Hk. by apply (list_elem_of_fmap_2 fst) in Hk.
Qed.

(** Settings a profile can be written into. *)
Record settings_are (d : jdict) (f : files) : Prop := {
  sa_doc : loaded (claude_settings f) = JObj d;
  sa_wf : dict_wf d;
  sa_env : dget (§"env") d = None ∨ ∃ e, dget (§"env") d = Some (JObj e) ∧ dict_wf e;
}.

Lemma ensure_claude_json f c : loaded (claude_json f) = JObj c →
  ∃ f' c', ensure_claude_json_for_custom_auth f = (Ok tt, f') ∧ f' = set_claude_json (claude_json f') f ∧ loaded (claude_json f') = JObj c'.
Proof.
  intros Hc. unfold ensure_claude_json_for_custom_auth. munfold. rewrite Hc. cbn -[CLAUDE_JSON_MINIMAL].
  destruct (filter _ _) as [|kv l].
  - eexists f, _. split; [done|]. split; [by destruct f|done].
  - eexists _, _. split; [done|]. split; done.
Qed.

Lemma claude_apply_env p f d c : settings_are d f → loaded (claude_json f) = JObj c →
  ∃ f' d' c', claude_apply p f = (Ok tt, f') ∧ settings_are d' f' ∧ loaded (claude_json f') = JObj c' ∧
    f' = set_claude_json (claude_json f') (set_claude_settings (claude_settings f') f) ∧
    (∀ k, k ≠ §"env" → dget k d' = dget k d) ∧
    ∀ k, variable k d' = match dget k (claude_env p) with Some v => Some v | None => variable k d end.
Proof.
  intros [Hd Hw He] Hc. destruct (ensure_claude_json f c Hc) as (f1 & c' & E & Hf & Hc').
  assert (claude_settings f1 = claude_settings f) as Hs by (by rewrite Hf).
  set (e := match dget (§"env") d with Some (JObj e) => e | _ => [] end).
  assert (as_obj (default (JObj []) (dget (§"env") d)) = Ok e ∧ dict_wf e) as [Ho Hwe].
  { subst e. destruct He as [->|(e & -> & ?)]; split; try done. constructor. }
  eexists (set_claude_settings (doc (dset (§"env") (JObj (dupdate e (claude_env p))) d)) f1), _, c'. split; [|split; [|split; [|split]]].
  - unfold claude_apply. munfold. rewrite E. unfold save_claude_env. munfold. rewrite Hs, Hd. cbn -[claude_env]. by rewrite Ho.
  - split; [done|by apply dset_wf|]. right. eexists. split; [apply dget_dset_eq|]. by apply dupdate_wf.
  - exact Hc'.
  - cbn -[claude_env]. by rewrite Hf.
  - split; [intros k Hk; by apply dget_dset_ne|]. intros k. unfold variable. rewrite dget_dset_eq.
    rewrite dupdate_get by apply claude_env_wf. destruct (dget k (claude_env p)); [done|]. subst e. by destruct (dget _ d) as [[]|].
Qed.

Lemma no_api_keys (e : jdict) k : existsb (λ k, dmem k e) API_KEYS = false → k ∈ API_KEYS → dget k e = None.
Proof.
  intros Hx Hk. destruct (dget k e) eqn:E; [|done]. exfalso. apply not_true_iff_false in Hx. apply Hx, existsb_exists.
  exists k. split; [by apply list_elem_of_In|]. unfold dmem. by rewrite E.
Qed.

Definition cleared (d d' : jdict) : Prop :=
  (∀ k, k ≠ §"env" → dget k d' = dget k d) ∧ ∀ k, variable k d' = if decide (k ∈ API_KEYS) then None else variable k d.

Lemma cleared_same d : (∀ k, k ∈ API_KEYS → variable k d = None) → cleared d d.
Proof. intros Hk. split; [done|]. intros k. case_decide; auto. Qed.

Lemma cleared_env d e : dict_wf d → dict_wf e → dget (§"env") d = Some (JObj e) →
  cleared d (match foldl (λ e k, ddel k e) e API_KEYS with
             | [] => ddel (§"env") d
             | _ => dset (§"env") (JObj (foldl (λ e k, ddel k e) e API_KEYS)) d
             end).
Proof.
  intros Hd Hw He.
  assert (∀ k, dget k (foldl (λ e k, ddel k e) e API_KEYS) = if decide (k ∈ API_KEYS) then None else variable k d) as Hg.
  { intros k. unfold variable. rewrite He. by apply ddels_get. }
  destruct (foldl (λ e k, ddel k e) e API_KEYS) as [|kv l].
  - split; [intros k Hk; by apply dget_ddel_ne|]. intros k. unfold variable at 1. rewrite dget_ddel_eq by done. apply (Hg k).
  - split; [intros k Hk; by apply dget_dset_ne|]. intros k. unfold variable at 1. rewrite dget_dset_eq. apply (Hg k).
Qed.

Lemma claude_revert_env f d : settings_are d f →
  ∃ f' d', claude_revert f = (Ok tt, f') ∧ settings_are d' f' ∧ f' = set_claude_settings (claude_settings f') f ∧ cleared d d'.
Proof.
  intros Hf. destruct Hf as [Hd Hw He] eqn:E. clear E. unfold claude_revert, clear_api_env_from_settings. munfold. rewrite Hd.
  assert (f = set_claude_settings (claude_settings f) f) as Hs by (by destruct f).
  destruct d as [|kv d0]; [by eauto 10 using cleared_same|]. set (d := kv :: d0) in *. cbn -[dget existsb foldl API_KEYS ddel dset].
  destruct He as [Hn|(e & He & Hwe)].
  { rewrite Hn. cbn. eexists f, d. repeat (split; [done|]). apply cleared_same. unfold variable. by rewrite Hn. }
  rewrite He. destruct e as [|kv' e0].
  { cbn. eexists f, d. repeat (split; [done|]). apply cleared_same. unfold variable. by rewrite He. }
  set (e := kv' :: e0) in *. cbn -[existsb foldl API_KEYS ddel dset]. destruct (existsb (λ k, dmem k e) API_KEYS) eqn:Hx.
  - eexists _, _. split; [done|]. split; [|split; [done|by apply cleared_env]].
    pose proof (ddels_wf API_KEYS e Hwe) as Hwl. split; [done|destruct (foldl _ e API_KEYS); [by apply ddel_wf|by apply dset_wf]|].
    destruct (foldl _ e API_KEYS) as [|kv2 l]; [left; by apply dget_ddel_eq|right]. eexists. split; [apply dget_dset_eq|done].
  - eexists f, d. repeat (split; [done|]). apply cleared_same. intros k Hk. unfold variable. rewrite He. by apply no_api_keys.
Qed.
End claude.

(** ** The saved profiles are read again *)

Section saved.
Context `{Unicode, PyRepr, Moment, Installed}.

Definition dated (p : APIProfile) : Prop :=
  date_of (created_at p) = Some (created_at p) ∧ date_of (updated_at p) = Some (updated_at p).

Lemma opt_str_json k a d : dget k d = Some (opt_json a) → opt_str k d = Some a.
Proof. unfold opt_str. intros ->. by destruct a. Qed.

Lemma profile_of_dict p : dated p → profile_of (JObj (profile_dict p)) = Some p.
Proof.
  intros [Hc Hu]. unfold profile_of. 
  rewrite (opt_str_json (§"url") (url p) (profile_dict p) eq_refl), (opt_str_json (§"default_model") (default_model p) (profile_dict p) eq_refl),
    (opt_str_json (§"sonnet_model") (sonnet_model p) (profile_dict p) eq_refl), (opt_str_json (§"haiku_model") (haiku_model p) (profile_dict p) eq_refl).
  change (date_or (§"created_at") (profile_dict p)) with (date_of (created_at p)). rewrite Hc.
  change (date_or (§"updated_at") (profile_dict p)) with (date_of (updated_at p)). rewrite Hu. by destruct p.
Qed.

Lemma date_or_dated k d v : date_or k d = Some v → date_of v = Some v.
Proof. unfold date_or. destruct (dget k d) as [w|]; [apply date_again|]. intros [= <-]. apply now_date. Qed.
Lemma profile_of_dated v p : profile_of v = Some p → dated p.
Proof.
  destruct v as [| | | | | |d]; try done. unfold profile_of. intros Hp. repeat (apply bind_Some in Hp as (? & ? & Hp)).
  injection Hp as <-. split; cbn; eauto using date_or_dated.
Qed.
Lemma load_profiles_dated f : Forall dated (profiles (load_profiles f)).
Proof.
  unfold load_profiles. destruct (profiles_file f) as [[[| | | | | |d]|]|]; try (by constructor).
  destruct (store_of d) as [st|] eqn:E; [|constructor].
  assert (Forall dated (profiles st)) as Hst; [|by destruct (_ && _)].
  unfold store_of in E. repeat (apply bind_Some in E as (? & ? & E)). injection E as <-. cbn.
  match goal with Hl : match dget (§"profiles") d with _ => _ end = Some ?l |- _ => rename Hl into Hps end.
  destruct (dget (§"profiles") d) as [[| | | | |l|]|]; simplify_eq; [|constructor].
  apply mapM_Some in Hps. induction Hps; constructor; eauto using profile_of_dated.
Qed.

Lemma strs_of_strings (l : list pystr) : strs_of (JArr (map JStr l)) = Some l.
Proof. unfold strs_of. apply (mapM_fmap_Forall_Some _ JStr). by apply Forall_true. Qed.
Lemma store_of_doc st : Forall dated (profiles st) → store_of (store_doc st (map profile_dict (profiles st))) = Some st.
Proof.
  intros Hd. unfold store_of. set (d := store_doc _ _). change (str_or (§"schema_version") (§"1.0") d) with (Some (schema_version st)).
  rewrite (opt_str_json (§"active_profile_id") (active_profile_id st) d eq_refl).
  change (dget (§"active_targets") d) with (Some (JArr (map JStr (active_targets st)))).
  change (dget (§"profiles") d) with (Some (JArr (map JObj (map profile_dict (profiles st))))). cbn [mbind option_bind].
  rewrite strs_of_strings. rewrite map_map. rewrite (mapM_fmap_Forall_Some _ (λ p, JObj (profile_dict p)) (profiles st)); [by destruct st|].
  eapply Forall_impl; [exact Hd|]. intros p Hp. by apply profile_of_dict.
Qed.
Lemma load_saved st f : Forall dated (profiles st) → load_profiles (save_profiles st f) = st.
Proof. intros Hd. unfold load_profiles, save_profiles. cbn -[store_of store_doc]. rewrite store_of_doc by done. by destruct (truthy _). Qed.
End saved.

(** ** Activation and its undoing *)

Section activation.
Context `{Unicode, PyRepr, Moment, Installed}.

(** The settings [d] are [d0] but for the variables of the API. *)
Definition kept (d0 d : jdict) : Prop :=
  (∀ k, k ≠ §"env" → dget k d = dget k d0) ∧ ∀ k, k ∉ API_KEYS → variable k d = variable k d0.

(** The files under activations, for a user whose opencode configuration is [o] and
    whose Claude Code settings are [c]; [taken] tells whether opencode runs on a
    profile. *)
Record guarded (o c : jdict) (taken : bool) (f : files) : Prop := {
  gu_opencode : if taken then held o f else at_rest o f;
  gu_backup : dict_wf (backup_of f);
  gu_claude : ∃ d, settings_are d f ∧ kept c d;
  gu_json : ∃ j, loaded (claude_json f) = JObj j;
}.

(** No variable of the API is set. *)
Definition clean (f : files) : Prop := ∀ k, k ∈ API_KEYS → variable k (settings_of f) = None.
Lemma clean_same f f' : claude_settings f' = claude_settings f → clean f → clean f'.
Proof. unfold clean. by intros ->. Qed.

(** What a profile puts into each program's configuration. *)
Definition claude_runs (p : APIProfile) (f : files) : Prop :=
  ∀ k v, dget k (claude_env p) = Some v → variable k (settings_of f) = Some v.
Definition opencode_runs (p : APIProfile) (f : files) : Prop :=
  dget _FRAGO_PROVIDER (providers_of (config_of f)) = Some (JObj (_provider_definition p)) ∧
  ∀ k v, dget k (_model_selection p) = Some v → dget k (config_of f) = Some v.

Lemma settings_loaded d f : settings_are d f → settings_of f = d.
Proof. intros [Hd _ _]. unfold loaded in Hd. by destruct (claude_settings f) as [[?|]|]; simplify_eq/=. Qed.

Section user.
Context (o c : jdict) (user : user_config o).

Lemma guarded_other b f f' : guarded o c b f → claude_settings f' = claude_settings f → claude_json f' = claude_json f →
  opencode_file f' = opencode_file f → backup_file f' = backup_file f → guarded o c b f'.
Proof.
  intros [Ho Hb (d & [Hd Hw He] & Hk) [j Hj]] E1 E2 E3 E4. split.
  - destruct b; destruct Ho; split; by rewrite ?E3, ?E4.
  - by rewrite E4.
  - exists d. split; [|done]. split; [by rewrite E1|done..].
  - exists j. by rewrite E2.
Qed.

Lemma guarded_claude_apply b p f : guarded o c b f → ∃ f', claude_apply p f = (Ok tt, f') ∧ guarded o c b f' ∧
  profiles_file f' = profiles_file f ∧ claude_runs p f'.
Proof.
  intros [Ho Hb (d & Hd & Hk1 & Hk2) [j Hj]]. destruct (claude_apply_env p f d j Hd Hj) as (f' & d' & j' & E & Hd' & Hj' & Hf & R1 & R2).
  exists f'. split; [done|]. split; [|split].
  - split; [| | |by exists j'].
    + rewrite Hf. destruct b; destruct Ho; by split.
    + by rewrite Hf.
    + exists d'. split; [done|]. split; [intros k Hk; rewrite R1; auto|]. intros k Hk. rewrite R2.
      destruct (dget k (claude_env p)) as [v|] eqn:Ek; [by apply claude_env_keys in Ek|auto].
  - by rewrite Hf.
  - intros k v Hv. rewrite (settings_loaded _ _ Hd'), R2. by rewrite Hv.
Qed.

Lemma guarded_claude_revert b f : guarded o c b f → ∃ f', claude_revert f = (Ok tt, f') ∧ guarded o c b f' ∧
  profiles_file f' = profiles_file f ∧ opencode_file f' = opencode_file f ∧ ∀ k, k ∈ API_KEYS → variable k (settings_of f') = None.
Proof.
  intros [Ho Hb (d & Hd & Hk1 & Hk2) Hj]. destruct (claude_revert_env f d Hd) as (f' & d' & E & Hd' & Hf & R1 & R2).
  exists f'. split; [done|]. split; [|split].
  - split.
    + rewrite Hf. destruct b; destruct Ho; by split.
    + by rewrite Hf.
    + exists d'. split; [done|]. split; [intros k Hk; rewrite R1; auto|]. intros k Hk. rewrite R2, decide_False by done. auto.
    + by rewrite Hf.
  - by rewrite Hf.
  - split; [by rewrite Hf|]. intros k Hk. rewrite (settings_loaded _ _ Hd'), R2. by rewrite decide_True.
Qed.

Lemma written_runs p (d ps : jdict) : let c' := dupdate (dset (§"provider") (JObj (dset _FRAGO_PROVIDER (JObj (_provider_definition p)) ps)) d) (_model_selection p) in
  dget _FRAGO_PROVIDER (providers_of c') = Some (JObj (_provider_definition p)) ∧
  ∀ k v, dget k (_model_selection p) = Some v → dget k c' = Some v.
Proof.
  intros c'. split.
  - unfold providers_of, jget, c'. rewrite dupdate_get by apply model_selection_wf.
    destruct (dget (§"provider") (_model_selection p)) as [v|] eqn:E.
    + apply model_selection_keys in E as [E _]. by apply provider_not_model in E.
    + rewrite dget_dset_eq. apply dget_dset_eq.
  - intros k v Hv. unfold c'. rewrite dupdate_get by apply model_selection_wf. by rewrite Hv.
Qed.

Lemma opencode_apply_runs p f : dict_wf (backup_of f) → opencode_runs p (opencode_apply p f).2 ∧ dict_wf (backup_of (opencode_apply p f).2).
Proof.
  intros Hw. unfold opencode_apply, remember. munfold. destruct (dmem _ _); cbn -[dget dset dupdate]; (split; [|done || by apply dset_wf]);
    apply written_runs.
Qed.

Lemma guarded_opencode_apply b p f : guarded o c b f → ∃ f', opencode_apply p f = (Ok tt, f') ∧ guarded o c true f' ∧
  profiles_file f' = profiles_file f ∧ claude_settings f' = claude_settings f ∧ opencode_runs p f'.
Proof.
  intros [Ho Hb (d & [Hd Hw He] & Hk) Hj]. pose proof (opencode_apply_runs p f Hb) as [Hr Hb'].
  assert (∃ f', opencode_apply p f = (Ok tt, f') ∧ held o f' ∧ opencode_only f f') as (f' & E & Hh & Hf).
  { destruct b; [apply opencode_apply_again; [apply user|done]|by apply opencode_apply_first]. }
  rewrite E in Hr, Hb'. exists f'. split; [done|]. split; [|by rewrite Hf].
  split; [done|done| |by rewrite Hf]. exists d. split; [|done]. split; [by rewrite Hf|done..].
Qed.

Lemma guarded_opencode_revert f : guarded o c true f → ∃ f', opencode_revert f = (Ok tt, f') ∧ guarded o c false f' ∧
  profiles_file f' = profiles_file f ∧ claude_settings f' = claude_settings f.
Proof.
  intros [Ho Hb (d & [Hd Hw He] & Hk) Hj]. destruct (opencode_revert_restores o f user Hb Ho) as (f' & E & Hr & Hb' & Hf).
  exists f'. split; [done|]. split; [|by rewrite Hf]. split; [done|done| |by rewrite Hf].
  exists d. split; [|done]. split; [by rewrite Hf|done..].
Qed.

(** The targets a request can resolve to. *)
Inductive targets_are : list pystr → bool → bool → Prop :=
  | only_claude : targets_are [§"claude"] true false
  | only_opencode : targets_are [§"opencode"] false true
  | both_targets : targets_are [§"claude"; §"opencode"] true true.

Lemma targets_mem ts bc bo : targets_are ts bc bo → (§"claude" ∈ ts ↔ bc = true) ∧ (§"opencode" ∈ ts ↔ bo = true).
Proof.
  intros []; (split; split; try done); try (intros ?%list_elem_of_singleton; done); intros _;
    repeat first [apply list_elem_of_here|apply list_elem_of_further].
Qed.
Ltac not_in := let E := fresh in intros E; repeat (apply elem_of_cons in E as [E|E]; [done|]); by apply elem_of_nil in E.

Lemma resolved_targets r ts : resolve_targets r = Ok ts → ∃ bc bo, targets_are ts bc bo.
Proof.
  destruct r as [l|]; [|intros [= <-]; eauto using targets_are]. unfold resolve_targets. set (asked := filter _ (map _ _)).
  destruct (decide (asked = [])) as [|Hne]; [done|]. destruct (decide (Forall _ asked)) as [Hall|]; [|done].
  destruct asked as [|t0 asked'] eqn:Ea; [done|]. rewrite <- Ea in *. clear Hne.
  cbn -[decide installed profile_apply]. intros Hr.
  assert (t0 ∈ AGENT_TARGETS) as Ht0 by (rewrite Ea in Hall; by inversion Hall).
  assert (t0 ∈ asked) as Hin by (rewrite Ea; left).
  change (profile_apply (§"codex")) with (Ok (A := option (APIProfile → M files unit)) None) in Hr.
  revert Hr.
  destruct (decide (§"claude" ∈ asked)), (decide (§"opencode" ∈ asked)), (decide (§"codex" ∈ asked)); cbn -[installed];
    repeat destruct (installed _); cbn; try done; try (intros [= <-]; eauto using targets_are).
  exfalso. repeat (apply elem_of_cons in Ht0 as [->|Ht0]; [done|]). by apply elem_of_nil in Ht0.
Qed.

Lemma apply_claude p ts f f1 : claude_apply p f = (Ok tt, f1) → apply_profile p (§"claude" :: ts) f = apply_profile p ts f1.
Proof.
  intros E. cbn [apply_profile]. change (profile_apply (§"claude")) with (Ok (Some claude_apply)). munfold. by rewrite E.
Qed.
Lemma apply_opencode p ts f f1 : opencode_apply p f = (Ok tt, f1) → apply_profile p (§"opencode" :: ts) f = apply_profile p ts f1.
Proof.
  intros E. cbn [apply_profile]. change (profile_apply (§"opencode")) with (Ok (Some opencode_apply)). munfold. by rewrite E.
Qed.
Lemma revert_claude ts f f1 : claude_revert f = (Ok tt, f1) → revert_targets (§"claude" :: ts) f = revert_targets ts f1.
Proof.
  intros E. unfold revert_targets. cbn [revert_each]. change (profile_revert (§"claude")) with (Some claude_revert). cbv beta iota. by rewrite E.
Qed.
Lemma revert_opencode ts f f1 : opencode_revert f = (Ok tt, f1) → revert_targets (§"opencode" :: ts) f = revert_targets ts f1.
Proof.
  intros E. unfold revert_targets. cbn [revert_each]. change (profile_revert (§"opencode")) with (Some opencode_revert). cbv beta iota. by rewrite E.
Qed.

Lemma apply_targets ts bc bo p b f : targets_are ts bc bo → guarded o c b f →
  ∃ f', apply_profile p ts f = (Ok tt, f') ∧ guarded o c (b || bo) f' ∧ profiles_file f' = profiles_file f ∧
    (bc = true → claude_runs p f') ∧ (bo = true → opencode_runs p f') ∧
    (bc = false → claude_settings f' = claude_settings f).
Proof.
  intros Ht Hg. destruct Ht.
  - destruct (guarded_claude_apply b p f Hg) as (f1 & E & Hg1 & Hp & Hr). exists f1. rewrite orb_false_r.
    split; [by rewrite (apply_claude _ _ _ _ E)|done].
  - destruct (guarded_opencode_apply b p f Hg) as (f1 & E & Hg1 & Hp & Hs & Hr). exists f1. rewrite orb_true_r.
    split; [by rewrite (apply_opencode _ _ _ _ E)|done].
  - destruct (guarded_claude_apply b p f Hg) as (f1 & E & Hg1 & Hp & Hr).
    destruct (guarded_opencode_apply b p f1 Hg1) as (f2 & E2 & Hg2 & Hp2 & Hs & Hr2). exists f2. rewrite orb_true_r.
    split; [by rewrite (apply_claude _ _ _ _ E), (apply_opencode _ _ _ _ E2)|].
    split; [done|]. split; [congruence|]. split; [|done]. intros _ k v. rewrite Hs. apply Hr.
Qed.

Lemma revert_some ts bc bo f : targets_are ts bc bo → guarded o c bo f →
  ∃ f', revert_targets ts f = (Ok tt, f') ∧ guarded o c false f' ∧ profiles_file f' = profiles_file f ∧
    (bc = true → clean f') ∧ (bc = false → claude_settings f' = claude_settings f).
Proof.
  intros Ht Hg. destruct Ht.
  - destruct (guarded_claude_revert _ _ Hg) as (f1 & E & Hg1 & Hp & _ & Hr). exists f1. split; [by rewrite (revert_claude _ _ _ E)|done].
  - destruct (guarded_opencode_revert _ Hg) as (f1 & E & Hg1 & Hp & Hs). exists f1. by split; [rewrite (revert_opencode _ _ _ E)|].
  - destruct (guarded_claude_revert _ _ Hg) as (f1 & E & Hg1 & Hp & _ & Hr).
    destruct (guarded_opencode_revert _ Hg1) as (f2 & E2 & Hg2 & Hp2 & Hs). exists f2.
    split; [by rewrite (revert_claude _ _ _ E), (revert_opencode _ _ _ E2)|].
    split; [done|]. split; [congruence|]. split; [|done]. intros _. by apply (clean_same f1).
Qed.

(** The targets in use: none, or those of an activation. *)
Inductive in_use : list pystr → bool → Prop :=
  | none_in_use : in_use [] false
  | some_in_use ts bc bo : targets_are ts bc bo → in_use ts bo.

Lemma revert_dropped ts bc bo ts0 b0 f : targets_are ts bc bo → in_use ts0 b0 → guarded o c (b0 || bo) f →
  let dropped := filter (λ t, t ∉ ts) ts0 in
  ∃ f', (match dropped with [] => mret tt | _ => revert_targets dropped end) f = (Ok tt, f') ∧ guarded o c bo f' ∧
    profiles_file f' = profiles_file f ∧ (bc = true → claude_settings f' = claude_settings f) ∧
    (bo = true → opencode_file f' = opencode_file f) ∧
    (bc = false → (§"claude" ∉ ts0 → clean f) → clean f').
Proof.
  intros Ht Hu Hg dropped.
  assert (dropped = [] ∧ b0 || bo = bo ∧ (bc = false → §"claude" ∉ ts0) ∨ dropped = [§"opencode"] ∧ bc = true ∧ bo = false ∧ b0 = true ∨
          dropped = [§"claude"] ∧ bc = false) as [(-> & Hb & Hn)|[(-> & -> & -> & ->)|[-> ->]]].
  { subst dropped. destruct Hu as [|? ? ? Hu]; [left; split_and!; [done|by destruct bo|intros _ ?%elem_of_nil; done]|].
    destruct Ht, Hu; cbn; auto 10; try (left; split_and!; try done; intros _; not_in). }
  - rewrite Hb in Hg. exists f. split_and!; auto.
  - destruct (guarded_opencode_revert f Hg) as (f1 & E & Hg1 & Hp & Hs). exists f1. split; [by rewrite (revert_opencode _ _ _ E)|done].
  - assert (bo = true) as -> by (by inversion Ht). rewrite orb_true_r in Hg.
    destruct (guarded_claude_revert true f Hg) as (f1 & E & Hg1 & Hp & Hs & Hr). exists f1.
    by split; [rewrite (revert_claude _ _ _ E)|split_and!; intros].
Qed.

Lemma after_ok {A B} (m : M files A) (k : A → M files B) f a f1 : m f = (Ok a, f1) → (m ≫= k) f = k a f1.
Proof. unfold mbind, M_bind. by intros ->. Qed.

(** One activation, from whatever was active before. *)
Lemma activate_one i r ts bc bo p b0 f : targets_are ts bc bo → resolve_targets r = Ok ts →
  find_profile i (profiles (load_profiles f)) = Some p → in_use (active_targets (load_profiles f)) b0 → guarded o c b0 f →
  ∃ f', activate_profile i r f = (Ok ts, f') ∧ guarded o c bo f' ∧
    load_profiles f' = with_active (Some i) ts (load_profiles f) ∧
    (bc = true → claude_runs p f') ∧ (bo = true → opencode_runs p f') ∧
    ((§"claude" ∉ active_targets (load_profiles f) → clean f) → bc = false → clean f').
Proof.
  intros Ht Hr Hp Hu Hg. destruct (apply_targets ts bc bo p b0 f Ht Hg) as (f1 & E1 & Hg1 & Hp1 & Hc1 & Ho1 & Hs1).
  destruct (revert_dropped ts bc bo _ b0 f1 Ht Hu Hg1) as (f2 & E2 & Hg2 & Hp2 & Hc2 & Ho2 & Hn2).
  set (st := with_active (Some i) ts (load_profiles f)).
  set (m := if decide (§"claude" ∈ ts) then set_auth (§"custom") else if decide (§"claude" ∈ filter (λ t, t ∉ ts) (active_targets (load_profiles f))) then set_auth (§"official") else mret tt).
  assert (∃ a, m f2 = (Ok tt, set_auth_method a f2)) as [a E3].
  { unfold m. repeat case_decide; [by eexists|by eexists|]. exists (auth_method f2). by destruct f2. }
  exists (save_profiles st (set_auth_method a f2)). split; [|split; [|split]].
  - unfold activate_profile. rewrite Hr, (after_ok _ _ _ ts f) by done. rewrite (after_ok _ _ _ f f) by done. cbv zeta. rewrite Hp.
    rewrite (after_ok _ _ _ _ _ E1), (after_ok _ _ _ _ _ E2). fold m. by rewrite (after_ok _ _ _ _ _ E3).
  - by apply (guarded_other bo f2).
  - apply load_saved. apply load_profiles_dated.
  - split; [|split].
    + intros Hbc k v Hv. cbn. rewrite Hc2 by done. by apply Hc1.
    + intros Hbo. specialize (Ho1 Hbo). unfold opencode_runs in *. cbn. by rewrite Ho2 by done.
    + intros Hn Hbc. apply (clean_same f2); [done|]. apply Hn2; [done|]. intros Hnot.
      apply (clean_same f); [by apply Hs1|by apply Hn].
Qed.

(** Activations one after the other. *)
Fixpoint activations (l : list (pystr * option (list pystr))) : M files unit :=
  match l with [] => mret tt | (i, r) :: l => _ ← activate_profile i r; activations l end.
Definition can_activate (st : ProfileStore) (a : pystr * option (list pystr)) : Prop :=
  is_Some (find_profile a.1 (profiles st)) ∧ ∃ ts, resolve_targets a.2 = Ok ts.

Lemma activations_guarded l : ∀ b0 f, in_use (active_targets (load_profiles f)) b0 → guarded o c b0 f →
  Forall (can_activate (load_profiles f)) l →
  ∃ b1 f1, activations l f = (Ok tt, f1) ∧ guarded o c b1 f1 ∧ in_use (active_targets (load_profiles f1)) b1 ∧
    (l ≠ [] → active_targets (load_profiles f1) ≠ []) ∧
    ((§"claude" ∉ active_targets (load_profiles f) → clean f) → §"claude" ∉ active_targets (load_profiles f1) → clean f1) ∧
    ∃ a ts, load_profiles f1 = with_active a ts (load_profiles f).
Proof.
  induction l as [|[i r] l IH]; intros b0 f Hu Hg Hl.
  { exists b0, f. split; [done|]. split; [done|]. split; [done|]. split; [done|]. split; [done|].
    exists (active_profile_id (load_profiles f)), (active_targets (load_profiles f)). by destruct (load_profiles f). }
  apply Forall_cons in Hl as [[[p Hp] [ts Hr]] Hl]. cbn [fst snd] in *. destruct (resolved_targets _ _ Hr) as (bc & bo & Ht).
  destruct (activate_one i r ts bc bo p b0 f Ht Hr Hp Hu Hg) as (f1 & E & Hg1 & Hld & _ & _ & Hcl).
  destruct (IH bo f1) as (b2 & f2 & E2 & Hg2 & Hu2 & Hne & Hcl2 & a & ts2 & Hl2).
  - rewrite Hld. by apply (some_in_use ts bc).
  - done.
  - by rewrite Hld.
  - exists b2, f2. split; [cbn [activations]; by rewrite (after_ok _ _ _ _ _ E)|]. split; [done|]. split; [done|]. split.
    + intros _. destruct l; [|by apply Hne]. cbn in E2. injection E2 as <-. rewrite Hld. by destruct Ht.
    + split; [|exists a, ts2; by rewrite Hl2, Hld]. intros Hn. apply Hcl2. rewrite Hld. cbn. intros Hnot.
      apply Hcl; [done|]. destruct bc; [|done]. exfalso. apply Hnot. by apply (targets_mem _ _ _ Ht).
Qed.

Lemma deactivate_all f ts bc bo : active_targets (load_profiles f) = ts → targets_are ts bc bo → guarded o c bo f →
  ∃ f', deactivate_profile None f = (Ok ts, f') ∧ guarded o c false f' ∧ load_profiles f' = with_active None [] (load_profiles f) ∧
    (bc = true → clean f') ∧ (bc = false → claude_settings f' = claude_settings f).
Proof.
  intros Ea Ht Hg. destruct (revert_some ts bc bo f Ht Hg) as (f1 & E1 & Hg1 & Hp1 & Hr1 & Hs1).
  set (m := if decide (§"claude" ∈ ts) then set_auth (§"official") else mret tt).
  assert (∃ a, m f1 = (Ok tt, set_auth_method a f1)) as [a E2].
  { unfold m. case_decide; [by eexists|]. exists (auth_method f1). by destruct f1. }
  exists (save_profiles (with_active None [] (load_profiles f)) (set_auth_method a f1)). split; [|split; [|split]].
  - unfold deactivate_profile. rewrite (after_ok _ _ _ f f) by done. cbv zeta. rewrite Ea.
    assert (match ts with [] => DEFAULT_TARGETS | t :: l => t :: l end = ts ∧ filter (λ t, t ∉ ts) ts = []) as [-> ->] by (by destruct Ht).
    rewrite (after_ok _ _ _ _ _ E1). fold m. by rewrite (after_ok _ _ _ _ _ E2).
  - by apply (guarded_other false f1).
  - apply load_saved. apply load_profiles_dated.
  - split; [exact Hr1|exact Hs1].
Qed.
End user.

(** Activations and the deactivation of all, from files no profile is active in. *)
Lemma undone f l d j : user_config (config_of f) → dict_wf (backup_of f) → dget (§"opencode") (backup_of f) = None →
  settings_are d f → loaded (claude_json f) = JObj j → active_targets (load_profiles f) = [] →
  l ≠ [] → Forall (can_activate (load_profiles f)) l →
  ∃ f1 ts f2, activations l f = (Ok tt, f1) ∧ deactivate_profile None f1 = (Ok ts, f2) ∧
    same_fields (config_of f2) (config_of f) ∧ kept d (settings_of f2) ∧
    (§"claude" ∈ ts → clean f2) ∧ (clean f → clean f2) ∧
    load_profiles f2 = with_active None [] (load_profiles f).
Proof.
  intros Hu Hbw Hb Hd Hj Ha Hne Hl.
  assert (guarded (config_of f) d false f) as Hg.
  { split; [split; [done|apply Hu|done]|done| |by exists j]. exists d. done. }
  destruct (activations_guarded _ d Hu l false f) as (b1 & f1 & E1 & Hg1 & Hu1 & Hn1 & Hcl & a & ts & Hl1); [rewrite Ha; constructor|done..|].
  apply Hn1 in Hne. remember (active_targets (load_profiles f1)) as ts1 eqn:Ets. destruct Hu1 as [|ts1 bc bo Ht]; [done|].
  destruct (deactivate_all _ d Hu f1 ts1 bc bo (eq_sym Ets) Ht Hg1) as (f2 & E2 & [Ho2 _ (d2 & Hd2 & Hk2) _] & Hl2 & Hc2 & Hs2).
  destruct (targets_mem _ _ _ Ht) as [Hm _].
  exists f1, ts1, f2. split; [done|]. split; [done|]. split; [apply Ho2|]. split; [by rewrite (settings_loaded _ _ Hd2)|].
  split; [|split].
  - intros Hc. by apply Hc2, Hm.
  - intros Hc. destruct bc; [by apply Hc2|]. apply (clean_same f1); [by apply Hs2|]. apply Hcl; [done|].
    intros Hin%Hm. done.
  - by rewrite Hl2, Hl1.
Qed.

(** C22. Deactivating restores what was there before.  Take files in which no profile
    is active, with an opencode configuration that is the user's (it has no provider of
    frago's, no empty provider section, and a model it selects is one) and no backup of
    it, settings of Claude Code that are an object whose [env], if any, is an object, and
    a .claude.json that is an object.  Then, whatever profiles are activated, one after
    the other and on whatever programs, the activations succeed and deactivating gives
    opencode's configuration back with every field as it was, and Claude Code's settings
    with every field outside [env] and every variable that is not one of the API's as it
    was; if the user had set none of the API's variables, every variable is as it was.
    The store holds the profiles it held, with none active.  (A variable of the API the
    user had set is not given back: [own_variables_removed].) *)
Theorem activations_undone f l d j : user_config (config_of f) → dict_wf (backup_of f) → dget (§"opencode") (backup_of f) = None →
  settings_are d f → loaded (claude_json f) = JObj j → active_targets (load_profiles f) = [] →
  l ≠ [] → Forall (can_activate (load_profiles f)) l →
  ∃ f1 ts f2, activations l f = (Ok tt, f1) ∧ deactivate_profile None f1 = (Ok ts, f2) ∧
    same_fields (config_of f2) (config_of f) ∧
    (∀ k, k ≠ §"env" → dget k (settings_of f2) = dget k d) ∧
    (∀ k, k ∉ API_KEYS ∨ (∀ k', k' ∈ API_KEYS → variable k' d = None) →
       variable k (settings_of f2) = variable k d) ∧
    load_profiles f2 = with_active None [] (load_profiles f).
Proof.
  intros Hu Hbw Hb Hd Hj Ha Hne Hl.
  destruct (undone f l d j) as (f1 & ts & f2 & E1 & E2 & Hs & [Hk1 Hk2] & _ & Hc & Hl2); [done..|].
  exists f1, ts, f2. split_and!; [done..| |done]. intros k [Hk|Hk]; [by apply Hk2|].
  destruct (decide (k ∈ API_KEYS)) as [Hin|Hin]; [|by apply Hk2]. rewrite Hk by done. apply Hc; [|done].
  intros k' Hk'. rewrite (settings_loaded _ _ Hd). by apply Hk.
Qed.

(** A variable of the API the user had set themselves is gone after a deactivation of
    Claude Code. *)
Lemma own_variables_removed f l d j : user_config (config_of f) → dict_wf (backup_of f) → dget (§"opencode") (backup_of f) = None →
  settings_are d f → loaded (claude_json f) = JObj j → active_targets (load_profiles f) = [] →
  l ≠ [] → Forall (can_activate (load_profiles f)) l →
  ∃ f1 ts f2, activations l f = (Ok tt, f1) ∧ deactivate_profile None f1 = (Ok ts, f2) ∧
    (§"claude" ∈ ts → ∀ k, k ∈ API_KEYS → variable k (settings_of f2) = None).
Proof.
  intros. destruct (undone f l d j) as (f1 & ts & f2 & E1 & E2 & _ & _ & Hc & _); [done..|]. by exists f1, ts, f2.
Qed.

(** C34. After any activations, a further one leaves each program it is asked for on
    its profile: every variable the profile sets is in Claude Code's environment,
    opencode has its provider and its models, and the store says so. *)
Theorem activation_takes f l d j i r ts p : user_config (config_of f) → dict_wf (backup_of f) → dget (§"opencode") (backup_of f) = None →
  settings_are d f → loaded (claude_json f) = JObj j → active_targets (load_profiles f) = [] →
  Forall (can_activate (load_profiles f)) l → find_profile i (profiles (load_profiles f)) = Some p → resolve_targets r = Ok ts →
  ∃ f1 f2, activations l f = (Ok tt, f1) ∧ activate_profile i r f1 = (Ok ts, f2) ∧
    (§"claude" ∈ ts → claude_runs p f2) ∧ (§"opencode" ∈ ts → opencode_runs p f2) ∧
    load_profiles f2 = with_active (Some i) ts (load_profiles f).
Proof.
  intros Hu Hbw Hb Hd Hj Ha Hl Hp Hr.
  assert (guarded (config_of f) d false f) as Hg.
  { split; [split; [done|apply Hu|done]|done| |by exists j]. exists d. done. }
  destruct (activations_guarded _ d Hu l false f) as (b1 & f1 & E1 & Hg1 & Hu1 & _ & _ & a & ts1 & Hl1); [rewrite Ha; constructor|done..|].
  destruct (resolved_targets _ _ Hr) as (bc & bo & Ht).
  destruct (activate_one _ d Hu i r ts bc bo p b1 f1 Ht Hr) as (f2 & E2 & _ & Hl2 & Hc2 & Ho2 & _); [by rewrite Hl1|done..|].
  exists f1, f2. split; [done|]. split; [done|]. split; [|split; [|by rewrite Hl2, Hl1]].
  - intros Hc. by apply Hc2, (targets_mem _ _ _ Ht).
  - intros Hc. by apply Ho2, (targets_mem _ _ _ Ht).
Qed.
End activation.

(** ** A token that stays *)

Section stale.
Context `{Unicode}.

Definition claude_auth (p : APIProfile) : pystr :=
  resolve_auth_style (endpoint_type p) (api_key p) (if decide (endpoint_type p = §"custom") then url p else None).

Lemma presets_no_token : Forall (λ kp, dget (§"ANTHROPIC_AUTH_TOKEN") (ddel (§"auth") (ddel (§"display_name") kp.2)) = None) PRESET_ENDPOINTS.
Proof. repeat constructor. Qed.
Lemma set_if_ne k k' a e : k ≠ k' → dget k (set_if k' a e) = dget k e.
Proof. intros Hk. destruct a as [[|c a]|]; [done| |done]. by apply dget_dset_ne. Qed.

Lemma claude_env_token p : dget (§"ANTHROPIC_AUTH_TOKEN") (claude_env p) =
  if decide (claude_auth p = AUTH_STYLE_AUTH_TOKEN) then Some (JStr (api_key p)) else None.
Proof.
  unfold claude_env, build_claude_env_config. fold (claude_auth p). set (env := match dget _ _ with Some p => _ | None => _ end).
  case_decide as Ha; rewrite dget_dset_ne by done; [by rewrite dget_dset_eq|]. rewrite !set_if_ne by done.
  subst env. destruct (dget (endpoint_type p) PRESET_ENDPOINTS) as [q|] eqn:E; [|reflexivity].
  apply dget_Some_elem in E. pose proof presets_no_token as Hg. rewrite Forall_forall in Hg. exact (Hg _ E).
Qed.
Lemma claude_env_key p : claude_auth p ≠ AUTH_STYLE_AUTH_TOKEN → dget (§"ANTHROPIC_API_KEY") (claude_env p) = Some (JStr (api_key p)).
Proof.
  intros Ha. unfold claude_env, build_claude_env_config. fold (claude_auth p). rewrite decide_False by done. apply dget_dset_eq.
Qed.

(** A profile whose endpoint takes a token, then one whose endpoint takes a key:
    Claude Code is left with the key of the second and, still, the token of the
    first. *)
Theorem stale_token_survives p1 p2 f d j : settings_are d f → loaded (claude_json f) = JObj j →
  claude_auth p1 = AUTH_STYLE_AUTH_TOKEN → claude_auth p2 ≠ AUTH_STYLE_AUTH_TOKEN →
  ∃ f1 f2, claude_apply p1 f = (Ok tt, f1) ∧ claude_apply p2 f1 = (Ok tt, f2) ∧
    variable (§"ANTHROPIC_API_KEY") (settings_of f2) = Some (JStr (api_key p2)) ∧
    variable (§"ANTHROPIC_AUTH_TOKEN") (settings_of f2) = Some (JStr (api_key p1)).
Proof.
  intros Hd Hj H1 H2. destruct (claude_apply_env p1 f d j Hd Hj) as (f1 & d1 & j1 & E1 & Hd1 & Hj1 & _ & _ & Hv1).
  destruct (claude_apply_env p2 f1 d1 j1 Hd1 Hj1) as (f2 & d2 & j2 & E2 & Hd2 & _ & _ & _ & Hv2).
  exists f1, f2. split; [done|]. split; [done|]. rewrite (settings_loaded _ _ Hd2), !Hv2, claude_env_key, claude_env_token by done.
  split; [done|]. rewrite decide_False by done. rewrite Hv1, claude_env_token. by rewrite decide_True.
Qed.
End stale.

(** ** An endpoint type that is cleared *)

Section blank.
Context `{Unicode, PyRepr, Moment, Installed}.

Lemma find_profile_at i l p : find_profile i l = Some p → l !! length (take_while_not i l) = Some p.
Proof. induction l as [|q l IH]; cbn; [done|]. case_decide; cbn; [by intros [= ->]|]. exact IH. Qed.

Lemma untyped_profile d : need_str (§"endpoint_type") d = None → profile_of (JObj d) = None.
Proof. intros Hd. unfold profile_of. rewrite Hd. destruct (str_or _ _ _), (need_str (§"name") d); reflexivity. Qed.

Lemma store_of_untyped st ps q : q ∈ ps → need_str (§"endpoint_type") q = None → store_of (store_doc st ps) = None.
Proof.
  intros Hq Hn. unfold store_of. set (d := store_doc _ _). change (str_or (§"schema_version") (§"1.0") d) with (Some (schema_version st)).
  rewrite (opt_str_json (§"active_profile_id") (active_profile_id st) d eq_refl).
  change (dget (§"active_targets") d) with (Some (JArr (map JStr (active_targets st)))).
  change (dget (§"profiles") d) with (Some (JArr (map JObj ps))). cbn [mbind option_bind].
  rewrite strs_of_strings, mapM_None_2; [done|]. apply Exists_exists. exists (JObj q). split; [|by apply untyped_profile].
  by apply (list_elem_of_fmap_2 JObj).
Qed.

(** Clearing the endpoint type of a profile is accepted, and every profile is
    lost: the document that is written is none the code can read, so the store is
    empty from then on, and the next profile to be added is the only one. *)
Theorem blank_type_loses_profiles i b p q f : find_profile i (profiles (load_profiles f)) = Some p → strip b = [] →
  _validate_profile (Some (name p)) (endpoint_type p) (url p) = Ok tt → active_profile_id (load_profiles f) ≠ Some i →
  _validate_profile (Some (name q)) (endpoint_type q) (url q) = Ok tt → dated q →
  ∃ f1 f2 st, update_profile_endpoint i [(§"endpoint_type", Some b)] f = (Ok tt, f1) ∧ load_profiles f1 = empty_store ∧
    add_profile q f1 = (Ok st, f2) ∧ profiles (load_profiles f2) = [q].
Proof.
  intros Hp Hb Hv Ha Hq Hd. unfold update_profile_endpoint. cbn [map fst snd]. rewrite decide_False by done.
  unfold _blank_to_none. rewrite Hb. unfold update_profile. munfold. rewrite Hp.
  change (_validate_profile _ _ _) with (_validate_profile (Some (name p)) (endpoint_type p) (url p)). rewrite Hv.
  set (f1 := set_profiles_file _ f). assert (load_profiles f1 = empty_store) as He.
  { unfold load_profiles. cbn -[store_of store_doc updated_dict]. erewrite store_of_untyped; [done| |].
    - eapply list_elem_of_lookup_2, list_lookup_insert_eq. rewrite length_map.
      apply lookup_lt_is_Some. eexists. by apply find_profile_at.
    - reflexivity. }
  rewrite decide_False by done. eexists f1, _, _. split; [done|]. split; [done|]. unfold add_profile. munfold. rewrite Hq, He.
  split; [done|]. rewrite load_saved; [done|]. cbn. by constructor.
Qed.
End blank.

(** ** Witnesses *)

Module ProfilesDemo.
#[local] Existing Instances ascii_db repr_mark.

(** Dates are strings here, and every program is on the machine. *)
Definition date_text (v : json) : option json := match v with JStr s => Some (JStr s) | _ => None end.
Lemma date_text_again v w : date_text v = Some w → date_text w = Some w.
Proof. by destruct v; intros [= <-]. Qed.
Definition text_dates : Dates := {| date_of := date_text; date_again := date_text_again |}.
#[local] Existing Instance text_dates.
Definition noon : Moment := {| new_id := §"new"; now := JStr (§"12:00"); now_date := eq_refl |}.
Definition all_installed : Installed := λ _, true.
#[local] Existing Instances noon all_installed.

Definition saved (i e k : pystr) : APIProfile :=
  {| id := i; name := i; endpoint_type := e; api_key := k; url := None; default_model := Some (§"large"); sonnet_model := None;
     haiku_model := None; created_at := JStr (§"11:00"); updated_at := JStr (§"11:00") |}.
Definition tencent : APIProfile := saved (§"t") (§"tencent_maas") (§"token").
Definition deepseek : APIProfile := saved (§"d") (§"deepseek") (§"key").
Definition two : ProfileStore := with_profiles [tencent; deepseek] empty_store.

Definition users_config : jdict :=
  [(§"theme", JStr (§"dark")); (§"model", JStr (§"mine/big")); (§"provider", JObj [(§"mine", JObj [])])].
Definition users_settings : jdict := [(§"env", JObj [(§"EDITOR", JStr (§"vi"))])].
Definition machine : files :=
  save_profiles two {| profiles_file := None; claude_settings := doc users_settings; claude_json := None;
                       opencode_file := doc users_config; backup_file := None; auth_method := §"official" |}.

Lemma loads_two : load_profiles machine = two.
Proof. vm_compute. reflexivity. Qed.
Lemma users_own : user_config users_config.
Proof.
  split; [by apply (bool_decide_unpack _)|right; split; [reflexivity|done]|reflexivity|].
  intros k [->|[->|[]%elem_of_nil]%elem_of_cons]%elem_of_cons; [right|by left].
  exists (JStr (§"mine/big")). repeat split; reflexivity.
Qed.
Lemma users_set : settings_are users_settings machine.
Proof. split; [reflexivity|by apply (bool_decide_unpack _)|right]. eexists. split; [reflexivity|by apply (bool_decide_unpack _)]. Qed.

Definition everywhere : option (list pystr) := Some [§"opencode"; §"claude"].
Lemma everywhere_resolves : resolve_targets everywhere = Ok [§"claude"; §"opencode"].
Proof. vm_compute. reflexivity. Qed.
Lemma switching : Forall (can_activate (load_profiles machine)) [(§"t", everywhere); (§"d", None)].
Proof.
  rewrite loads_two. repeat constructor; [by exists tencent|eexists; exact everywhere_resolves|by exists deepseek|by eexists].
Qed.

Lemma activations_undone_witness : ∃ f1 ts f2, activations [(§"t", everywhere); (§"d", None)] machine = (Ok tt, f1) ∧
  deactivate_profile None f1 = (Ok ts, f2) ∧ same_fields (config_of f2) users_config ∧
  ∀ k, variable k (settings_of f2) = variable k users_settings.
Proof.
  destruct (activations_undone machine [(§"t", everywhere); (§"d", None)] users_settings []) as (f1 & ts & f2 & E1 & E2 & Hs & _ & Hv & _);
    [exact users_own|constructor|reflexivity|exact users_set|reflexivity|by rewrite loads_two|done|exact switching|].
  exists f1, ts, f2. split; [exact E1|]. split; [exact E2|]. split; [exact Hs|]. intros k. apply Hv. right.
  intros k' Hk. unfold API_KEYS in Hk. repeat (apply elem_of_cons in Hk as [->|Hk]; [reflexivity|]). by apply elem_of_nil in Hk.
Defined.

Lemma activation_takes_witness : ∃ f1 f2, activations [(§"t", everywhere); (§"d", None)] machine = (Ok tt, f1) ∧
  activate_profile (§"t") everywhere f1 = (Ok [§"claude"; §"opencode"], f2) ∧ opencode_runs tencent f2.
Proof.
  destruct (activation_takes machine [(§"t", everywhere); (§"d", None)] users_settings [] (§"t") everywhere
    [§"claude"; §"opencode"] tencent) as (f1 & f2 & E1 & E2 & _ & Ho & _);
    [exact users_own|constructor|reflexivity|exact users_set|reflexivity|by rewrite loads_two|exact switching|
     by rewrite loads_two|exact everywhere_resolves|].
  exists f1, f2. split; [exact E1|]. split; [exact E2|]. apply Ho. right. left.
Defined.

Lemma stale_token_survives_witness : ∃ f1 f2, claude_apply tencent machine = (Ok tt, f1) ∧ claude_apply deepseek f1 = (Ok tt, f2) ∧
  variable (§"ANTHROPIC_AUTH_TOKEN") (settings_of f2) = Some (JStr (§"token")).
Proof.
  destruct (stale_token_survives tencent deepseek machine users_settings []) as (f1 & f2 & E1 & E2 & _ & Hv);
    [exact users_set|reflexivity|reflexivity|done|].
  exists f1, f2. split; [exact E1|]. split; [exact E2|exact Hv].
Defined.

Lemma blank_type_loses_profiles_witness : ∃ f1 f2 st, update_profile_endpoint (§"t") [(§"endpoint_type", Some (§" "))] machine = (Ok tt, f1) ∧
  add_profile (saved (§"n") (§"kimi") (§"k")) f1 = (Ok st, f2) ∧ profiles (load_profiles f2) = [saved (§"n") (§"kimi") (§"k")].
Proof.
  destruct (blank_type_loses_profiles (§"t") (§" ") tencent (saved (§"n") (§"kimi") (§"k")) machine) as (f1 & f2 & st & E1 & _ & E2 & Hp);
    [by rewrite loads_two|reflexivity|reflexivity|by rewrite loads_two|reflexivity|by split|].
  exists f1, f2, st. split; [exact E1|]. split; [exact E2|exact Hp].
Defined.
End ProfilesDemo.
