(* ===== verification/Transcripts.v ===== *)
(** * Session transcripts as one kind of record

    session/unified_record.py and session/adapters/claude_code_records.py: the lines of
    a Claude Code session file, classified one by one into the records the workbench
    shows, with an account of every line that becomes none; session/adapters/__init__.py,
    session/record_reader.py and the two routes of server/routes/workbench.py that hand
    the records out page by page and the raw lines one by one. *)

From S2P Require Import Prelude PyStr Json JsonText.
From stdpp Require Import prelude list strings.

Local Open Scope N_scope.

(** [repr] of a string, which quotes what Unicode does not print, and the
    milliseconds of [datetime.fromisoformat(text).timestamp()], [None] for its
    [ValueError]. *)
Class Quoting := quoted : pystr → pystr.
Class Stamps := epoch_ms : pystr → option Z.

Definition str_of_nat (n : nat) : pystr := str_of_N (N.of_nat n).
Definition or_null (a : option pystr) : json := match a with Some s => JStr s | None => JNull end.

(** Lists and dictionaries have no hash. *)
Definition unhashable (v : json) : bool := match v with JArr _ | JObj _ => true | _ => false end.
Definition in_frozenset (v : json) (l : list pystr) : res bool :=
  if unhashable v then Raise TypeError else Ok (existsb (λ s, str_is s v) l).
(** [v is True]. *)
Definition is_True (v : json) : bool := match v with JBool true => true | _ => false end.
(** [v == 0]. *)
Definition is_zero (v : json) : bool :=
  match v with JInt z => Z.eqb z 0 | JFloat q => QArith_base.Qeq_bool q (QArith_base.inject_Z 0) | JBool b => negb b | _ => false end.

(** ** The record *)

Inductive RecordKind :=
  | user_say | agent_say | agent_think | tool_call | tool_result | subagent_dispatch | context_inject | media_attach
  | todo_snapshot | permission_outcome | error_kind | interrupt | context_compact | session_state | call_envelope.
#[export] Instance RecordKind_eq_dec : EqDecision RecordKind.
Proof. solve_decision. Defined.

(** [seq] is a length and so never negative, and [kind] is one of the fifteen: of the
    three checks of [__post_init__] one is left. *)
Record UnifiedRecord := {
  id : pystr;
  session_id : pystr;
  group_id : option pystr;
  seq : nat;
  ts : Z;
  kind : RecordKind;
  agent_path : list pystr;
  payload : jdict;
  raw_available : bool;
}.
Definition __post_init__ (r : UnifiedRecord) : res UnifiedRecord :=
  if bool_decide (kind r = error_kind) && raw_available r then Raise ValueError else Ok r.
Definition is_raw_readable (r : UnifiedRecord) : bool := raw_available r && negb (bool_decide (kind r = error_kind)).
Definition with_payload (d : jdict) (r : UnifiedRecord) : UnifiedRecord :=
  {| id := id r; session_id := session_id r; group_id := group_id r; seq := seq r; ts := ts r; kind := kind r;
     agent_path := agent_path r; payload := d; raw_available := raw_available r |}.

(** ** Tables *)

Definition _STANDING_TITLE_TYPES : list pystr := [§"ai-title"; §"custom-title"; §"agent-name"].
Definition _STANDING_MODE_TYPES : list pystr := [§"mode"; §"permission-mode"].
Definition _STANDING_DROP_TYPES : list pystr :=
  [§"last-prompt"; §"queue-operation"; §"file-history-snapshot"; §"file-history-delta"; §"bridge-session"; §"pr-link"; §"frame-link"].
Definition _STANDING_TYPES : list pystr := _STANDING_TITLE_TYPES ++ _STANDING_MODE_TYPES ++ _STANDING_DROP_TYPES.
Definition _STANDING_VALUE_KEY : dict pystr pystr :=
  [(§"ai-title", §"aiTitle"); (§"custom-title", §"customTitle"); (§"agent-name", §"agentName"); (§"mode", §"mode");
   (§"permission-mode", §"permissionMode")].
Definition _SYSTEM_SUBTYPE_LABEL : dict pystr pystr :=
  [(§"away_summary", ¶"你不在时的小结"); (§"local_command", ¶"本地命令"); (§"informational", ¶"引擎提示")].
Definition _ENGINE_ERROR_SUBTYPES : list pystr := [§"model_refusal_fallback"; §"model_consent_fallback"].
Definition _MEDIA_ATTACHMENT_TYPES : list pystr := [§"file"; §"already_read_file"; §"nested_memory"; §"compact_file_reference"].
Definition _HOOK_CONTEXT_TYPE : pystr := §"hook_additional_context".
Definition _HOOK_RESULT_TYPE : pystr := §"hook_success".
Definition _SUBAGENT_TOOL_NAMES : list pystr := [§"agent"; §"task"].
Definition _TOOL_FAMILY_BY_NAME : dict pystr pystr :=
  [(§"bash", §"shell"); (§"read", §"file-read"); (§"edit", §"file-write"); (§"write", §"file-write");
   (§"notebookedit", §"file-write"); (§"grep", §"search"); (§"glob", §"search"); (§"toolsearch", §"search");
   (§"webfetch", §"web"); (§"websearch", §"web"); (§"agent", §"agent"); (§"task", §"agent"); (§"taskcreate", §"todo");
   (§"taskupdate", §"todo"); (§"tasklist", §"todo"); (§"taskget", §"todo"); (§"taskoutput", §"todo"); (§"taskstop", §"todo");
   (§"todowrite", §"todo"); (§"askuserquestion", §"ask"); (§"schedulewakeup", §"schedule"); (§"croncreate", §"schedule");
   (§"crondelete", §"schedule"); (§"cronlist", §"schedule")].
Definition _OFFLOAD_PREFIX : pystr := §"Output too large (".
Definition _CLIPPED_HEAD : pystr := §"characters truncated] ...".
Definition _IMAGE_PLACEHOLDER : pystr := §"<image>".

(** ** Small tools *)

Definition _as_dict (v : json) : jdict := match v with JObj d => d | _ => [] end.
Definition _as_list (v : json) : list json := match v with JArr l => l | _ => [] end.
Definition py_get (k : pystr) (d : jdict) (v : json) : json := default v (dget k d).

Section translation.
Context `{Unicode, PyRepr, Quoting, Stamps, FloatText}.

Definition _parse_ts (raw : json) : option Z :=
  match raw with
  | JStr ((_ :: _) as s) => epoch_ms (concat (map (λ c, if c =? 90 then §"+00:00" else [c]) s))
  | _ => None
  end.

Definition _is_silent_stdout (value : json) : bool :=
  match value with
  | JNull => true
  | JStr s =>
      match strip s with
      | [] => true
      | t => match json_loads t with Some (JObj []) => true | _ => false end
      end
  | _ => false
  end.

Definition _hook_blocks (value : json) : res (list pystr) :=
  match value with
  | JStr s => Ok (filter (λ t, t ≠ []) [strip s])
  | v =>
      texts ← map_res (λ item, match item with JStr s => Ok s | _ => json_dumps item end) (_as_list v);
      Ok (filter (λ t, t ≠ []) (map strip texts))
  end.

Definition _hook_stdout_context (stdout : json) : pystr :=
  match stdout with
  | JStr s =>
      match strip s, json_loads s with
      | _ :: _, Some (JObj d) =>
          match jget (§"additionalContext") (_as_dict (jget (§"hookSpecificOutput") d)) with JStr t => strip t | _ => [] end
      | _, _ => []
      end
  | _ => []
  end.

Definition _hook_event_of (hook_name : pystr) (fallback : json) : pystr * pystr :=
  let name := match hook_name, fallback with _ :: _, _ => hook_name | [], JStr s => s | [], _ => [] end in
  let (event, target) := partition_on 58 name in (event, default [] target).

Definition _tool_family (tool_name : pystr) : pystr :=
  if starts_with (§"mcp__") tool_name then §"mcp" else default (§"other") (dget (str_lower tool_name) _TOOL_FAMILY_BY_NAME).

Definition is_media (block : jdict) : bool := str_is (§"image") (jget (§"type") block) || str_is (§"document") (jget (§"type") block).
Definition piece_of (block : json) : option pystr :=
  match block with
  | JObj d => if str_is (§"text") (jget (§"type") d) then Some (py_str (py_get (§"text") d (JStr [])))
              else if is_media d then Some _IMAGE_PLACEHOLDER else None
  | _ => None
  end.
Definition _text_of (content : json) : pystr :=
  match content with
  | JStr s => s
  | JArr l => join_with [10] (filter (λ p, p ≠ []) (omap piece_of l))
  | _ => []
  end.

Definition _media_blocks (content : json) : json :=
  JArr (omap (λ block, match block with
                       | JObj d =>
                           if is_media d then
                             let source := _as_dict (jget (§"source") d) in
                             Some (JObj [(§"media_type", py_get (§"media_type") source (JStr []));
                                         (§"source_kind", py_get (§"type") source (JStr []));
                                         (§"bytes", JInt (match jget (§"data") source with JStr t => Z.of_nat (length t) | _ => 0%Z end));
                                         (§"block_type", jget (§"type") d)])
                           else None
                       | _ => None
                       end) (_as_list content)).

(** ** The first pass *)

(** What the first pass gathers: the name of every call, the notices of truncated
    reads, the summary that follows each boundary, what the hooks injected, and where
    the last title is. *)
Record index := {
  tool_name_by_call : dict pystr pystr;
  truncation_banner : dict pystr pystr;
  summary_for_boundary : dict nat pystr;
  injected_by_call : dict pystr (list pystr);
  injected_texts : list pystr;
  last_title_index : option nat;
  pending_boundary : option nat;
}.
Definition no_index : index :=
  {| tool_name_by_call := []; truncation_banner := []; summary_for_boundary := []; injected_by_call := []; injected_texts := [];
     last_title_index := None; pending_boundary := None |}.

Definition index_call (d : dict pystr pystr) (block : json) : dict pystr pystr :=
  match block with
  | JObj b => if str_is (§"tool_use") (jget (§"type") b)
              then match jget (§"id") b with JStr i => dset i (py_str (py_get (§"name") b (JStr []))) d | _ => d end
              else d
  | _ => d
  end.

(** The title of a row, if it is one; a row of any type takes part in this. *)
Definition index_title (i : nat) (row : jdict) (x : index) : index :=
  if existsb (λ t, str_is t (jget (§"type") row)) _STANDING_TITLE_TYPES then
    {| tool_name_by_call := tool_name_by_call x; truncation_banner := truncation_banner x; summary_for_boundary := summary_for_boundary x;
       injected_by_call := injected_by_call x; injected_texts := injected_texts x; last_title_index := Some i;
       pending_boundary := pending_boundary x |}
  else x.

Definition index_attachment (attachment : jdict) (x : index) : res index :=
  let atype := jget (§"type") attachment in
  let call := jget (§"toolUseID") attachment in
  if str_is (§"read_truncation_notice") atype then
    match call with
    | JStr c => Ok {| tool_name_by_call := tool_name_by_call x;
                      truncation_banner := dset c (py_str (py_get (§"banner") attachment (JStr []))) (truncation_banner x);
                      summary_for_boundary := summary_for_boundary x; injected_by_call := injected_by_call x;
                      injected_texts := injected_texts x; last_title_index := last_title_index x;
                      pending_boundary := pending_boundary x |}
    | _ => Ok x
    end
  else if str_is _HOOK_CONTEXT_TYPE atype then
    blocks ← _hook_blocks (jget (§"content") attachment);
    Ok {| tool_name_by_call := tool_name_by_call x; truncation_banner := truncation_banner x;
          summary_for_boundary := summary_for_boundary x;
          injected_by_call := match call with
                              | JStr ((_ :: _) as c) => dset c (default [] (dget c (injected_by_call x)) ++ blocks) (injected_by_call x)
                              | _ => injected_by_call x
                              end;
          injected_texts := injected_texts x ++ blocks; last_title_index := last_title_index x;
          pending_boundary := pending_boundary x |}
  else Ok x.

Definition index_row (i : nat) (row : jdict) (x : index) : res index :=
  let rtype := jget (§"type") row in
  let message := _as_dict (jget (§"message") row) in
  y ← (if str_is (§"assistant") rtype then
         Ok {| tool_name_by_call := foldl index_call (tool_name_by_call x) (_as_list (jget (§"content") message));
               truncation_banner := truncation_banner x; summary_for_boundary := summary_for_boundary x;
               injected_by_call := injected_by_call x; injected_texts := injected_texts x;
               last_title_index := last_title_index x; pending_boundary := pending_boundary x |}
       else if str_is (§"attachment") rtype then index_attachment (_as_dict (jget (§"attachment") row)) x
       else if str_is (§"system") rtype && str_is (§"compact_boundary") (jget (§"subtype") row) then
         Ok {| tool_name_by_call := tool_name_by_call x; truncation_banner := truncation_banner x;
               summary_for_boundary := summary_for_boundary x; injected_by_call := injected_by_call x;
               injected_texts := injected_texts x; last_title_index := last_title_index x; pending_boundary := Some i |}
       else match pending_boundary x with
            | Some b =>
                if str_is (§"user") rtype && is_True (jget (§"isCompactSummary") row) then
                  Ok {| tool_name_by_call := tool_name_by_call x; truncation_banner := truncation_banner x;
                        summary_for_boundary := dset b (_text_of (jget (§"content") message)) (summary_for_boundary x);
                        injected_by_call := injected_by_call x; injected_texts := injected_texts x;
                        last_title_index := last_title_index x; pending_boundary := None |}
                else Ok x
            | None => Ok x
            end);
  Ok (index_title i row y).

Fixpoint index_from (i : nat) (rows : list jdict) (x : index) : res index :=
  match rows with [] => Ok x | row :: rows => y ← index_row i row x; index_from (S i) rows y end.
Definition _build_index (rows : list jdict) : res index := index_from 0 rows no_index.

(** ** The account *)

(** The lines that become no record of their own, by the reason. *)
Inductive tally :=
  | dropped_standing | dropped_standing_stale | dropped_hook_noise | dropped_hook_echo | dropped_stop_hook
  | merged_truncation_notice | merged_compact_summary | merged_subagent_result.
#[local] Instance tally_eq_dec : EqDecision tally.
Proof. solve_decision. Defined.

Record TranslationStats := {
  lines_in : nat;
  records_out : nat;
  count : tally → nat;
  unparsable_lines : nat;
  unrecognized : nat;
  kinds : dict RecordKind nat;
}.

(** The translator: what it has emitted and its account, the moment it saw last, and
    where each dispatched call's record is, which later lines write into. *)
Record _Translator := {
  _records : list UnifiedRecord;
  _stats : TranslationStats;
  _last_ts : Z;
  _dispatch_by_call : dict pystr nat;
  _group_by_call : dict pystr (option pystr);
  _standing_value : dict pystr pystr;
}.

Definition set_stats (g : TranslationStats → TranslationStats) (s : _Translator) : _Translator :=
  {| _records := _records s; _stats := g (_stats s); _last_ts := _last_ts s; _dispatch_by_call := _dispatch_by_call s;
     _group_by_call := _group_by_call s; _standing_value := _standing_value s |}.
Definition bump (t : tally) : _Translator → _Translator :=
  set_stats (λ c, {| lines_in := lines_in c; records_out := records_out c;
                     count := λ u, if decide (u = t) then S (count c u) else count c u;
                     unparsable_lines := unparsable_lines c; unrecognized := unrecognized c; kinds := kinds c |}).
Definition bump_unparsable : _Translator → _Translator :=
  set_stats (λ c, {| lines_in := lines_in c; records_out := records_out c; count := count c;
                     unparsable_lines := S (unparsable_lines c); unrecognized := unrecognized c; kinds := kinds c |}).
Definition bump_unrecognized : _Translator → _Translator :=
  set_stats (λ c, {| lines_in := lines_in c; records_out := records_out c; count := count c;
                     unparsable_lines := unparsable_lines c; unrecognized := S (unrecognized c); kinds := kinds c |}).
Definition bump_kind (k : RecordKind) : _Translator → _Translator :=
  set_stats (λ c, {| lines_in := lines_in c; records_out := records_out c; count := count c;
                     unparsable_lines := unparsable_lines c; unrecognized := unrecognized c;
                     kinds := dset k (S (default O (dget k (kinds c)))) (kinds c) |}).
Definition add_record (t : Z) (r : UnifiedRecord) (s : _Translator) : _Translator :=
  {| _records := _records s ++ [r]; _stats := _stats s; _last_ts := t; _dispatch_by_call := _dispatch_by_call s;
     _group_by_call := _group_by_call s; _standing_value := _standing_value s |}.
Definition set_records (l : list UnifiedRecord) (s : _Translator) : _Translator :=
  {| _records := l; _stats := _stats s; _last_ts := _last_ts s; _dispatch_by_call := _dispatch_by_call s;
     _group_by_call := _group_by_call s; _standing_value := _standing_value s |}.
Definition note_dispatch (c : pystr) (k : nat) (s : _Translator) : _Translator :=
  {| _records := _records s; _stats := _stats s; _last_ts := _last_ts s; _dispatch_by_call := dset c k (_dispatch_by_call s);
     _group_by_call := _group_by_call s; _standing_value := _standing_value s |}.
Definition note_group (c : pystr) (g : option pystr) (s : _Translator) : _Translator :=
  {| _records := _records s; _stats := _stats s; _last_ts := _last_ts s; _dispatch_by_call := _dispatch_by_call s;
     _group_by_call := dset c g (_group_by_call s); _standing_value := _standing_value s |}.
Definition note_standing (t v : pystr) (s : _Translator) : _Translator :=
  {| _records := _records s; _stats := _stats s; _last_ts := _last_ts s; _dispatch_by_call := _dispatch_by_call s;
     _group_by_call := _group_by_call s; _standing_value := dset t v (_standing_value s) |}.

(** ** The second pass *)

Section pass.
Context (session : pystr) (trace : option (pystr → bool)) (ix : index).

(** [_emit], which gives the place of the record it appended. *)
Definition _emit (row : jdict) (k : RecordKind) (body : jdict) (record_id group : option pystr) : M _Translator nat :=
  s ← get_st;
  let n := length (_records s) in
  let t := default (_last_ts s) (_parse_ts (jget (§"timestamp") row)) in
  r ← lift_res (__post_init__
    {| id := match record_id with
             | Some ((_ :: _) as i) => i
             | _ => py_str (jor (jget (§"uuid") row) (JStr (session ++ 35 :: str_of_nat n)))
             end;
       session_id := py_str (jor (jget (§"sessionId") row) (JStr session));
       group_id := group;
       seq := n;
       ts := t;
       kind := k;
       agent_path := match jget (§"agentId") row with JStr ((_ :: _) as a) => [a] | _ => [] end;
       payload := body;
       raw_available := negb (bool_decide (k = error_kind)) |});
  modify (λ s, bump_kind k (add_record t r s));;
  mret n.
Definition emit (row : jdict) (k : RecordKind) (body : jdict) : M _Translator unit := _ ← _emit row k body None None; mret tt.

Definition _emit_unrecognized (row : jdict) (label : pystr) : M _Translator unit :=
  modify bump_unrecognized;;
  body ← lift_res (json_dumps (JObj row));
  emit row context_inject
    [(§"channel", JStr (§"unrecognized")); (§"source", JStr (§"unrecognized")); (§"unrecognized", JBool true);
     (§"label", JStr label); (§"body", JStr body)].

(** [f"{v!r}"]. *)
Definition repr_of (v : json) : pystr := match v with JStr s => quoted s | _ => py_repr v end.

Definition _rule_01_standing (i : nat) (rtype : pystr) (row : jdict) : M _Translator unit :=
  if decide (rtype ∈ _STANDING_DROP_TYPES) then modify (bump dropped_standing)
  else
    key ← lift_res (match dget rtype _STANDING_VALUE_KEY with Some k => Ok k | None => Raise KeyError end);
    let value := py_str (py_get key row (JStr [])) in
    s ← get_st;
    let title := bool_decide (rtype ∈ _STANDING_TITLE_TYPES) in
    if (if title then negb (bool_decide (last_title_index ix = Some i)) else bool_decide (dget rtype (_standing_value s) = Some value))
    then modify (bump dropped_standing_stale)
    else
      modify (note_standing rtype value);;
      _ ← _emit row session_state
            [(§"field", JStr (if title then §"title" else rtype)); (§"source_type", JStr rtype);
             (§"from", or_null (dget rtype (_standing_value s))); (§"to", JStr value)]
            (Some (session ++ §"#state-" ++ str_of_nat i)) None;
      mret tt.

Definition _rules_02_to_05_system (i : nat) (row : jdict) : M _Translator unit :=
  let subtype := jget (§"subtype") row in
  if str_is (§"compact_boundary") subtype then
    let meta := _as_dict (jget (§"compactMetadata") row) in
    emit row context_compact
      [(§"trigger", jget (§"trigger") meta); (§"tokens_before", jget (§"preTokens") meta);
       (§"tokens_after", jget (§"postTokens") meta); (§"summary_text", JStr (default [] (dget i (summary_for_boundary ix))));
       (§"bridge_from", jget (§"logicalParentUuid") row)]
  else if str_is (§"turn_duration") subtype then
    emit row call_envelope
      [(§"channel", JStr (§"turn-duration")); (§"label", JStr (¶"轮次耗时")); (§"duration_ms", jget (§"durationMs") row);
       (§"message_count", jget (§"messageCount") row)]
  else
    e ← lift_res (in_frozenset subtype _ENGINE_ERROR_SUBTYPES);
    if e || (str_is (§"informational") subtype && str_is (§"warning") (jget (§"level") row)) then
      emit row error_kind
        [(§"scope", JStr (§"engine")); (§"code", JStr (str_field (§"subtype") row)); (§"message", JStr (str_field (§"content") row))]
    else if str_is (§"stop_hook_summary") subtype then
      blocks ← lift_res (_hook_blocks (jget (§"hookAdditionalContext") row));
      if bool_decide (blocks = []) && negb (is_True (jget (§"preventedContinuation") row)) then modify (bump dropped_stop_hook)
      else
        emit row context_inject
          [(§"channel", JStr (§"hook")); (§"source", JStr (§"hook")); (§"hook_event", JStr (§"Stop")); (§"hook_target", JStr []);
           (§"label", JStr (§"Stop")); (§"blocks", JArr (map JStr blocks)); (§"body", JStr (join_with [10; 10] blocks));
           (§"level", jget (§"level") row); (§"prevented_continuation", jget (§"preventedContinuation") row);
           (§"stop_reason", jget (§"stopReason") row)]
    else
      let name := str_field (§"subtype") row in
      let shown := if truthy subtype then py_str subtype else §"system" in
      emit row context_inject
        [(§"channel", JStr shown); (§"source", JStr (§"system")); (§"label", JStr (default shown (dget name _SYSTEM_SUBTYPE_LABEL)));
         (§"body", JStr (_text_of (jget (§"content") row))); (§"level", jget (§"level") row);
         (§"prevented_continuation", jget (§"preventedContinuation") row); (§"stop_reason", jget (§"stopReason") row)].

Definition _emit_hook_inject (row attachment : jdict) (blocks : list pystr) (extra : jdict) : M _Translator unit :=
  let hook_name := str_field (§"hookName") attachment in
  let '(event, target) := _hook_event_of hook_name (jget (§"hookEvent") attachment) in
  let event' := match event with [] => §"hook" | _ => event end in
  emit row context_inject
    (foldl (λ d kv, dset kv.1 kv.2 d)
      [(§"channel", JStr (§"hook")); (§"source", JStr (§"hook")); (§"hook_event", JStr event'); (§"hook_target", JStr target);
       (§"label", JStr (match hook_name with [] => event' | _ => hook_name end)); (§"blocks", JArr (map JStr blocks));
       (§"body", JStr (join_with [10; 10] blocks))]
      extra).

(** [a or b or c] of lists that are built in turn. *)
Definition or_blocks (a b : res (list pystr)) : res (list pystr) := l ← a; match l with [] => b | _ => Ok l end.

Definition _rule_09_hook_result (row attachment : jdict) : M _Translator unit :=
  let stdout := jget (§"stdout") attachment in
  let content := jget (§"content") attachment in
  let exit_code := jget (§"exitCode") attachment in
  let stderr := strip (str_field (§"stderr") attachment) in
  let healthy := is_zero exit_code && bool_decide (stderr = []) in
  if healthy && negb (truthy content) && _is_silent_stdout stdout then modify (bump dropped_hook_noise)
  else
    let injected := _hook_stdout_context stdout in
    let echoed := match jget (§"toolUseID") attachment with JStr c => default [] (dget c (injected_by_call ix)) | _ => [] end in
    if healthy && bool_decide (injected ≠ []) && (bool_decide (injected ∈ echoed) || bool_decide (injected ∈ injected_texts ix))
    then modify (bump dropped_hook_echo)
    else
      blocks ← lift_res (or_blocks (_hook_blocks (JStr injected)) (or_blocks (_hook_blocks content) (_hook_blocks stdout)));
      _emit_hook_inject row attachment blocks
        [(§"exit_code", exit_code); (§"stderr", JStr stderr); (§"stdout", stdout); (§"command", JStr (str_field (§"command") attachment));
         (§"duration_ms", jget (§"durationMs") attachment)].

Definition _rules_06_to_10_attachment (row : jdict) : M _Translator unit :=
  let attachment := _as_dict (jget (§"attachment") row) in
  let atype := jget (§"type") attachment in
  let content := jget (§"content") attachment in
  if str_is (§"task_reminder") atype then
    let items := _as_list content in
    emit row todo_snapshot
      [(§"items", JArr items); (§"item_count", py_get (§"itemCount") attachment (JInt (Z.of_nat (length items))));
       (§"source", JStr (§"engine-reminder"))]
  else if str_is (§"read_truncation_notice") atype then modify (bump merged_truncation_notice)
  else
    media ← lift_res (in_frozenset atype _MEDIA_ATTACHMENT_TYPES);
    if (media : bool) then
      size ← lift_res (match content with JNull => Ok 0%Z | _ => t ← json_dumps content; Ok (Z.of_nat (length t)) end);
      emit row media_attach
        [(§"media_type", JStr (§"file"));
         (§"ref", jor (jor (jget (§"filename") attachment) (jget (§"path") attachment)) (JStr []));
         (§"display_name", jor (jor (jget (§"displayPath") attachment) (jget (§"filename") attachment)) (JStr []));
         (§"bytes", JInt size); (§"attachment_type", atype)]
    else if str_is _HOOK_CONTEXT_TYPE atype then
      blocks ← lift_res (_hook_blocks content);
      _emit_hook_inject row attachment blocks []
    else if str_is _HOOK_RESULT_TYPE atype then _rule_09_hook_result row attachment
    else
      let name := if truthy atype then py_str atype else §"attachment" in
      let label := if truthy (jget (§"hookName") attachment) then py_str (jget (§"hookName") attachment) else name in
      let body := match content with JArr l => join_with [10] (map py_str l) | _ => _text_of content end in
      let '(label, body, more) :=
        if str_is (§"queued_command") atype && truthy (jget (§"prompt") attachment)
        then (¶"排队的输入", py_str (jget (§"prompt") attachment), [])
        else if str_is (§"goal_status") atype
        then (¶"迭代目标", str_field (§"condition") attachment, [(§"goal_met", jget (§"met") attachment)])
        else (label, body, []) in
      emit row context_inject
        ([(§"channel", JStr name); (§"source", JStr (§"attachment")); (§"label", JStr label); (§"body", JStr body);
          (§"exit_code", jget (§"exitCode") attachment); (§"stdout", jget (§"stdout") attachment);
          (§"stderr", jget (§"stderr") attachment)] ++ more).

Definition _emit_tool_call (row block : jdict) (record_id : pystr) (group : option pystr) : M _Translator unit :=
  let call_id := py_str (py_get (§"id") block (JStr [])) in
  let tool_name := py_str (py_get (§"name") block (JStr [])) in
  let args := _as_dict (jget (§"input") block) in
  modify (note_group call_id group);;
  if decide (str_lower tool_name ∈ _SUBAGENT_TOOL_NAMES) then
    n ← _emit row subagent_dispatch
          [(§"call_id", JStr call_id); (§"agent_ref", JNull); (§"agent_type", jget (§"subagent_type") args);
           (§"description", jget (§"description") args); (§"prompt", jget (§"prompt") args); (§"status", JNull);
           (§"stats", JObj []); (§"trace_available", JBool false)]
          (Some record_id) group;
    modify (note_dispatch call_id n)
  else
    _ ← _emit row tool_call
          [(§"call_id", JStr call_id); (§"tool_name", JStr tool_name); (§"tool_family", JStr (_tool_family tool_name));
           (§"args", JObj args); (§"args_unparsed", jget (§"__unparsedToolInput") args)]
          (Some record_id) group;
    mret tt.

(** The id of the record of a block: the row's own where it has a single block. *)
Definition block_id (row : jdict) (multi : bool) (pos : nat) : pystr :=
  let uuid := py_str (jget (§"uuid") row) in if multi then uuid ++ 35 :: str_of_nat pos else uuid.

Definition emit_block (row block : jdict) (model : json) (rid : pystr) (group : option pystr) : M _Translator unit :=
  let btype := jget (§"type") block in
  if str_is (§"fallback") btype then
    _ ← _emit row session_state
          [(§"field", JStr (§"model")); (§"from", jget (§"model") (_as_dict (jget (§"from") block)));
           (§"to", jget (§"model") (_as_dict (jget (§"to") block)))] (Some rid) group;
    mret tt
  else if str_is (§"thinking") btype then
    _ ← _emit row agent_think [(§"text", JStr (py_str (py_get (§"thinking") block (JStr [])))); (§"model", model)] (Some rid) group;
    mret tt
  else if str_is (§"text") btype then
    _ ← _emit row agent_say [(§"text", JStr (py_str (py_get (§"text") block (JStr [])))); (§"model", model)] (Some rid) group;
    mret tt
  else if str_is (§"tool_use") btype then _emit_tool_call row block rid group
  else _emit_unrecognized row (¶"assistant 内未知的块类型 " ++ repr_of btype).

(** The blocks of a reply from place [pos]; whether any was an object. *)
Fixpoint emit_blocks (row : jdict) (model : json) (group : option pystr) (multi : bool) (pos : nat) (blocks : list json)
    : M _Translator bool :=
  match blocks with
  | [] => mret false
  | JObj block :: blocks =>
      emit_block row block model (block_id row multi pos) group;;
      _ ← emit_blocks row model group multi (S pos) blocks;
      mret true
  | _ :: blocks => emit_blocks row model group multi (S pos) blocks
  end.

Definition _rules_11_to_16_assistant (row : jdict) : M _Translator unit :=
  let message := _as_dict (jget (§"message") row) in
  let group := match jget (§"id") message with JStr g => Some g | _ => None end in
  if is_True (jget (§"isApiErrorMessage") row) then
    let code := jor (jor (jget (§"error") row) (jget (§"apiErrorStatus") row)) (JStr []) in
    _ ← _emit row error_kind
          [(§"scope", JStr (§"api")); (§"code", JStr (py_str code)); (§"message", JStr (_text_of (jget (§"content") message)))]
          None group;
    mret tt
  else
    match _as_list (jget (§"content") message) with
    | [] => _emit_unrecognized row (¶"assistant 记录没有任何内容块")
    | blocks =>
        any ← emit_blocks row (jget (§"model") message) group (bool_decide (1 < length blocks)%nat) 0 blocks;
        if (any : bool) then mret tt else _emit_unrecognized row (¶"assistant 记录的内容块全部无法解析")
    end.

Definition _result_status (block result : jdict) (denial : json) : pystr :=
  if truthy denial then §"denied"
  else if is_True (jget (§"is_error") block) then §"error"
  else if is_True (jget (§"interrupted") result) then §"interrupted" else §"ok".

(** The kinds of the blocks are put into a set. *)
Definition _result_body (content : json) : res (pystr * pystr) :=
  match content with
  | JStr t => Ok (§"text", t)
  | _ =>
      let blocks := _as_list content in
      let types := omap (λ b, match b with JObj d => Some (jget (§"type") d) | _ => None end) blocks in
      if existsb unhashable types then Raise TypeError
      else if negb (bool_decide (types = [])) && forallb (str_is (§"image")) types
           then Ok (§"image", _IMAGE_PLACEHOLDER ++ ¶" × " ++ str_of_nat (length blocks))
           else Ok (§"blocks", _text_of content)
  end.

Definition _result_truncation (call_id : pystr) (result : jdict) (body : pystr) : pystr * option pystr :=
  let persisted := jget (§"persistedOutputPath") result in
  if truthy persisted then (§"offloaded", Some (py_str persisted))
  else if starts_with _OFFLOAD_PREFIX body then (§"offloaded", Some (partition_on 10 body).1)
  else match default [] (dget call_id (truncation_banner ix)) with
       | (_ :: _) as banner => (§"offloaded", Some banner)
       | [] => if contains _CLIPPED_HEAD body then (§"clipped", None) else (§"none", None)
       end.

Definition _has_trace (agent_id : json) : bool :=
  match trace, agent_id with Some is_file, JStr ((_ :: _) as a) => is_file a | _, _ => false end.

(** The return of a dispatched agent, written into the record of the dispatch. *)
Definition returned (result : jdict) (denial : json) (d : jdict) : jdict :=
  let agent_id := jget (§"agentId") result in
  foldl (λ d kv, dset kv.1 kv.2 d) d
    [(§"agent_ref", agent_id);
     (§"status", jor (jget (§"status") result) (JStr (if truthy denial then §"denied" else §"completed")));
     (§"stats", JObj [(§"tool_stats", py_get (§"toolStats") result (JObj [])); (§"total_tokens", jget (§"totalTokens") result);
                      (§"total_duration_ms", jget (§"totalDurationMs") result);
                      (§"total_tool_use_count", jget (§"totalToolUseCount") result);
                      (§"resolved_model", jget (§"resolvedModel") result)]);
     (§"content", jget (§"content") result);
     (§"trace_available", JBool (_has_trace agent_id))].

Definition _emit_tool_result (row block : jdict) (record_id : pystr) : M _Translator unit :=
  let call_id := py_str (py_get (§"tool_use_id") block (JStr [])) in
  let result := _as_dict (jget (§"toolUseResult") row) in
  let denial := jget (§"toolDenialKind") row in
  s ← get_st;
  let group := default None (dget call_id (_group_by_call s)) in
  let tool_name := default [] (dget call_id (tool_name_by_call ix)) in
  match dget call_id (_dispatch_by_call s), decide (str_lower tool_name ∈ _SUBAGENT_TOOL_NAMES) with
  | Some n, left _ =>
      modify (set_records (alter (λ r, with_payload (returned result denial (payload r)) r) n (_records s)));;
      modify (bump merged_subagent_result)
  | _, _ =>
      (if truthy denial then
         _ ← _emit row permission_outcome
               [(§"call_id", JStr call_id); (§"decision", JStr (§"denied")); (§"reason", JStr (py_str denial));
                (§"mode", jget (§"permissionMode") row); (§"classifier_notes", jget (§"classifierMetaLines") row)]
               (Some (record_id ++ §"#permission")) group;
         mret tt
       else mret tt);;
      kb ← lift_res (_result_body (jget (§"content") block));
      let '(truncation, ref) := _result_truncation call_id result kb.2 in
      _ ← _emit row tool_result
            [(§"call_id", JStr call_id); (§"tool_name", JStr tool_name); (§"status", JStr (_result_status block result denial));
             (§"body", JStr kb.2); (§"body_kind", JStr kb.1); (§"truncation", JStr truncation); (§"truncation_ref", or_null ref);
             (§"duration_ms", jget (§"durationMs") result)]
            (Some record_id) group;
      mret tt
  end.

Fixpoint emit_results (row : jdict) (multi : bool) (pos : nat) (results : list jdict) : M _Translator unit :=
  match results with
  | [] => mret tt
  | block :: results => _emit_tool_result row block (block_id row multi pos);; emit_results row multi (S pos) results
  end.

(** The objects among the blocks that are, or are not, results. *)
Definition blocks_where (b : bool) (blocks : list json) : list jdict :=
  omap (λ x, match x with
             | JObj d => if Bool.eqb (str_is (§"tool_result") (jget (§"type") d)) b then Some d else None
             | _ => None
             end) blocks.

Definition _rules_17_to_23_user (row : jdict) : M _Translator unit :=
  if is_True (jget (§"isCompactSummary") row) then modify (bump merged_compact_summary)
  else
    let content := jget (§"content") (_as_dict (jget (§"message") row)) in
    let blocks := _as_list content in
    match blocks_where true blocks with
    | (_ :: _) as results =>
        emit_results row (bool_decide (1 < length blocks)%nat) 0 results;;
        match blocks_where false blocks with
        | [] => mret tt
        | _ => _emit_unrecognized row (¶"工具结果记录里混着非工具结果的块")
        end
    | [] =>
        let text := _text_of content in
        if truthy (jget (§"interruptedMessageId") row) then
          emit row interrupt
            [(§"target", jget (§"interruptedMessageId") row);
             (§"phase", JStr (if contains (§"for tool use") text then §"tool" else §"generating")); (§"text", JStr text)]
        else if is_True (jget (§"isMeta") row) then
          emit row context_inject
            [(§"channel", JStr (§"engine")); (§"source", JStr (§"engine")); (§"label", JStr (¶"引擎注入")); (§"body", JStr text);
             (§"images", _media_blocks content)]
        else
          emit row user_say
            [(§"text", JStr text); (§"images", _media_blocks content); (§"input_mode", jget (§"promptSource") row);
             (§"is_tool_result", JBool false)]
    end.

Definition _translate_row (i : nat) (row : jdict) : M _Translator unit :=
  match jget (§"type") row with
  | JStr rtype =>
      if decide (rtype = §"__unparsable__") then modify bump_unparsable;; _emit_unrecognized row (¶"这一行的 JSON 解不开")
      else if decide (rtype ∈ _STANDING_TYPES) then _rule_01_standing i rtype row
      else if decide (rtype = §"system") then _rules_02_to_05_system i row
      else if decide (rtype = §"attachment") then _rules_06_to_10_attachment row
      else if decide (rtype = §"assistant") then _rules_11_to_16_assistant row
      else if decide (rtype = §"user") then _rules_17_to_23_user row
      else _emit_unrecognized row (¶"未知的顶层类型 " ++ quoted rtype)
  | rtype => _emit_unrecognized row (¶"未知的顶层类型 " ++ py_repr rtype)
  end.

Fixpoint translate_from (i : nat) (rows : list jdict) : M _Translator unit :=
  match rows with [] => mret tt | row :: rows => _translate_row i row;; translate_from (S i) rows end.
End pass.

Definition new_translator (rows : list jdict) : _Translator :=
  {| _records := []; _stats := {| lines_in := length rows; records_out := 0; count := λ _, 0%nat; unparsable_lines := 0;
                                  unrecognized := 0; kinds := [] |};
     _last_ts := 0; _dispatch_by_call := []; _group_by_call := []; _standing_value := [] |}.
Definition set_out (n : nat) (c : TranslationStats) : TranslationStats :=
  {| lines_in := lines_in c; records_out := n; count := count c; unparsable_lines := unparsable_lines c;
     unrecognized := unrecognized c; kinds := kinds c |}.

Definition translate_with_stats (rows : list jdict) (session : pystr) (trace : option (pystr → bool))
    : res (list UnifiedRecord * TranslationStats) :=
  ix ← _build_index rows;
  match translate_from session trace ix 0 rows (new_translator rows) with
  | (Ok _, s) => Ok (_records s, set_out (length (_records s)) (_stats s))
  | (Raise e, _) => Raise e
  end.
Definition translate_records (rows : list jdict) (session : pystr) (trace : option (pystr → bool)) : res (list UnifiedRecord) :=
  rs ← translate_with_stats rows session trace; Ok rs.1.

(** ** Session files *)

(** A file read as text: every line ending becomes a newline. *)
Fixpoint universal_newlines (s : pystr) : pystr :=
  match s with
  | [] => []
  | c :: s' =>
      if c =? 13 then match s' with
                      | d :: s'' => if d =? 10 then 10 :: universal_newlines s'' else 10 :: universal_newlines s'
                      | [] => [10]
                      end
      else c :: universal_newlines s'
  end.

(** Only a [JSONDecodeError] is caught: the [ValueError] of a long integer leaves the
    reading. *)
Definition row_of_line (line : pystr) : res (list jdict) :=
  match strip line with
  | [] => Ok []
  | stripped =>
      if long_integer stripped then Raise ValueError
      else match json_loads stripped with
           | None => Ok [[(§"type", JStr (§"__unparsable__")); (§"raw_line", JStr (take 2000 stripped))]]
           | Some (JObj d) => Ok [d]
           | Some _ => Ok [[(§"type", JStr (§"__unparsable__"))]]
           end
  end.
Definition _read_rows (text : pystr) : res (list jdict) :=
  ls ← map_res row_of_line (split_on 10 (universal_newlines text)); Ok (concat ls).

(** A session file, with the agents that have a trace beside it where that directory
    is there; the projects' directories in the order they are found. *)
Record session_file := { text : pystr; subagents : option (list pystr) }.
Definition find_session_file (sid : pystr) (projects : list (dict pystr session_file)) : option session_file :=
  head (omap (dget sid) projects).

Definition to_unified (stem : pystr) (file : session_file) : res (list UnifiedRecord) :=
  rows ← _read_rows (text file);
  translate_records rows stem (match subagents file with Some l => Some (λ a, bool_decide (a ∈ l)) | None => None end).

(** [l[-n:]]. *)
Definition last_n {A} (n : nat) (l : list A) : list A := match n with O => l | _ => drop (length l - n) l end.

Definition claude_to_unified (projects : list (dict pystr session_file)) (sid : pystr) (after limit : nat) (tail : bool)
    : res (list UnifiedRecord) :=
  match find_session_file sid projects with
  | None => Ok []
  | Some f =>
      l ← to_unified sid f;
      Ok (if tail then last_n limit l else take limit (filter (λ r, (after <= seq r)%nat) l))
  end.

Fixpoint find_row (uuid : pystr) (rows : list jdict) : option jdict :=
  match rows with [] => None | row :: rows => if str_is uuid (jget (§"uuid") row) then Some row else find_row uuid rows end.
Fixpoint find_record (i : pystr) (l : list UnifiedRecord) : option UnifiedRecord :=
  match l with [] => None | r :: l => if decide (id r = i) then Some r else find_record i l end.

Definition claude_read_raw (projects : list (dict pystr session_file)) (sid record_id : pystr) : res (option jdict) :=
  match find_session_file sid projects with
  | None => Ok None
  | Some f =>
      l ← to_unified sid f;
      match find_record record_id l with
      | Some r => if is_raw_readable r then rows ← _read_rows (text f); Ok (find_row (partition_on 35 record_id).1 rows) else Ok None
      | None => Ok None
      end
  end.
End translation.

(** ** The registry of adapters *)

Inductive RecordFamily := claude_code | opencode | codex.
#[export] Instance RecordFamily_eq_dec : EqDecision RecordFamily.
Proof. solve_decision. Defined.

Record RecordAdapter := {
  read_page : pystr → nat → nat → bool → res (list UnifiedRecord);
  read_one : pystr → pystr → res (option jdict);
}.
Definition register_adapter (family : RecordFamily) (a : RecordAdapter) (l : dict RecordFamily RecordAdapter) := dset family a l.
Definition get_adapter (l : dict RecordFamily RecordAdapter) (family : RecordFamily) : res RecordAdapter :=
  match dget family l with Some a => Ok a | None => Raise AdapterNotRegistered end.

Definition ClaudeCodeRecordAdapter `{Unicode, PyRepr, Quoting, Stamps, FloatText} (projects : list (dict pystr session_file))
    : RecordAdapter :=
  {| read_page := claude_to_unified projects; read_one := claude_read_raw projects |}.

(** ** The reader *)

Definition DEFAULT_LIMIT : Z := 200.
Definition MAX_LIMIT : Z := 500.

Definition is_hex (c : N) : bool := bool_decide (is_Some (hex_value c)).
Definition uuid_shape (s : pystr) : bool :=
  bool_decide (map length (split_on 45 s) = [8; 4; 4; 4; 12]%nat) && forallb (forallb is_hex) (split_on 45 s).

Section reader.
Context (is_codex_session : pystr → bool) (adapters : dict RecordFamily RecordAdapter).

Definition detect_family (session : pystr) : res RecordFamily :=
  let sid := strip session in
  if starts_with (§"ses_") sid then Ok opencode
  else if uuid_shape sid then Ok (if is_codex_session sid then codex else claude_code)
  else Raise UnknownSessionFamily.

Definition read_records (session : pystr) (after limit : Z) (tail : bool) : res (list UnifiedRecord) :=
  family ← detect_family session;
  adapter ← get_adapter adapters family;
  let count := Z.to_nat (Z.min (Z.max limit 1) MAX_LIMIT) in
  if tail then read_page adapter session 0 count true else read_page adapter session (Z.to_nat (Z.max after 0)) count false.

Definition read_raw (session record_id : pystr) : res (option jdict) :=
  family ← detect_family session;
  adapter ← get_adapter adapters family;
  read_one adapter session record_id.

(** The two routes; an error of another kind is the server's 500. *)
Definition read_workbench_records (session : pystr) (after limit : Z) (tail : bool) : res (list UnifiedRecord) :=
  match read_records session after limit tail with Raise UnknownSessionFamily => Raise (HTTPException 404 false) | r => r end.
Definition read_workbench_record_raw (rid session : pystr) : res jdict :=
  match read_raw session rid with
  | Raise UnknownSessionFamily => Raise (HTTPException 404 false)
  | Raise e => Raise e
  | Ok None => Raise (HTTPException 403 false)
  | Ok (Some raw) => Ok raw
  end.
End reader.

(** ** What a step of the translator does to the records *)

Section steps.
Implicit Types (s : _Translator) (r : UnifiedRecord) (row : jdict).

(** A computation whose final state is related to its first one, however it ends. *)
Definition tracks {A} (R : _Translator → _Translator → Prop) (m : M _Translator A) : Prop := ∀ s, R s (m s).2.

Lemma tracks_bind {A B} (R : relation _Translator) `{!Transitive R} (m : M _Translator A) (k : A → M _Translator B) :
  tracks R m → (∀ a, tracks R (k a)) → tracks R (m ≫= k).
Proof.
  intros Hm Hk s. specialize (Hm s). unfold mbind, M_bind. destruct (m s) as [[a|e] s1]; [|done].
  etrans; [exact Hm|]. apply Hk.
Qed.
Lemma tracks_ret {A} (R : relation _Translator) `{!Reflexive R} (a : A) : tracks R (mret a).
Proof. intros s. reflexivity. Qed.
Lemma tracks_get (R : relation _Translator) `{!Reflexive R} : tracks R get_st.
Proof. intros s. reflexivity. Qed.
Lemma tracks_lift {A} (R : relation _Translator) `{!Reflexive R} (x : res A) : tracks R (lift_res x).
Proof. intros s. destruct x; reflexivity. Qed.
Lemma tracks_modify (R : relation _Translator) g : (∀ s, R s (g s)) → tracks R (modify g).
Proof. intros Hg s. apply Hg. Qed.

(** The record without its payload, which later lines may write into. *)
Definition shape r : UnifiedRecord := with_payload [] r.
Abbreviation shapes := (λ s, map shape (_records s)).

(** New records are appended, each at its place and each such that [Q]. *)
Definition grown (Q : UnifiedRecord → Prop) : relation _Translator :=
  λ s s', ∃ new, shapes s' = shapes s ++ new ∧ ∀ k r, new !! k = Some r → seq r = (length (_records s) + k)%nat ∧ Q r.

#[export] Instance grown_refl Q : Reflexive (grown Q).
Proof. intros s. exists []. by rewrite app_nil_r. Qed.
#[export] Instance grown_trans Q : Transitive (grown Q).
Proof.
  intros s1 s2 s3 (n1 & E1 & H1) (n2 & E2 & H2). exists (n1 ++ n2). split; [by rewrite E2, E1, (assoc_L app)|].
  assert (length (_records s2) = length (_records s1) + length n1)%nat as Hl
    by (apply (f_equal length) in E1; by rewrite length_app, !length_map in E1).
  intros k r [Hk|[Hlt Hk]]%lookup_app_Some; [by apply H1|]. destruct (H2 _ _ Hk) as [Hs HQ]. split; [|done]. lia.
Qed.

Lemma grown_same Q s s' : shapes s' = shapes s → grown Q s s'.
Proof. intros E. exists []. by rewrite app_nil_r. Qed.
Lemma grown_weaken (Q Q' : UnifiedRecord → Prop) s s' : (∀ r, Q r → Q' r) → grown Q s s' → grown Q' s s'.
Proof. intros HQ (new & E & Hn). exists new. split; [done|]. intros k r Hk. destruct (Hn k r Hk). auto. Qed.

(** The weight of a state: its records and what its account holds. *)
Definition tallies : list tally :=
  [dropped_standing; dropped_standing_stale; dropped_hook_noise; dropped_hook_echo; dropped_stop_hook; merged_truncation_notice;
   merged_compact_summary; merged_subagent_result].
Definition losses (c : TranslationStats) : nat := sum_list_with (count c) tallies.
Definition weight s : nat := (length (_records s) + losses (_stats s))%nat.
Definition lighter : relation _Translator := λ s s', (weight s <= weight s')%nat.
#[export] Instance lighter_refl : Reflexive lighter.
Proof. intros s. unfold lighter. lia. Qed.
#[export] Instance lighter_trans : Transitive lighter.
Proof. intros s1 s2 s3. unfold lighter. lia. Qed.

Lemma losses_bump t s : losses (_stats (bump t s)) = S (losses (_stats s)).
Proof. unfold losses, tallies. destruct t; cbn -[decide]; repeat (case_decide; try done); lia. Qed.
Lemma weight_bump t s : (weight s < weight (bump t s))%nat.
Proof. unfold weight. rewrite losses_bump. cbn. lia. Qed.

(** A computation that, if it ends well, has added a record or an entry. *)
Definition adds_weight {A} (m : M _Translator A) : Prop := ∀ s a s', m s = (Ok a, s') → (weight s < weight s')%nat.

Lemma adds_then {A B} (m : M _Translator A) (k : A → M _Translator B) :
  adds_weight m → (∀ a, tracks lighter (k a)) → adds_weight (m ≫= k).
Proof.
  intros Hm Hk s b s' E. unfold mbind, M_bind in E. destruct (m s) as [[a|e] s1] eqn:Em; [|done].
  specialize (Hm _ _ _ Em). specialize (Hk a s1). rewrite E in Hk. unfold lighter in Hk. cbn in Hk. lia.
Qed.
Lemma then_adds {A B} (m : M _Translator A) (k : A → M _Translator B) :
  tracks lighter m → (∀ a, adds_weight (k a)) → adds_weight (m ≫= k).
Proof.
  intros Hm Hk s b s' E. unfold mbind, M_bind in E. specialize (Hm s). destruct (m s) as [[a|e] s1] eqn:Em; [|done].
  specialize (Hk _ _ _ _ E). unfold lighter in Hm. cbn in Hm. lia.
Qed.
Lemma adds_bump t : adds_weight (modify (bump t)).
Proof. intros s a s' [= _ <-]. apply weight_bump. Qed.
End steps.

Section translated.
Context `{Unicode, PyRepr, Quoting, Stamps, FloatText}.
Implicit Types (s : _Translator) (r : UnifiedRecord) (row : jdict).

(** The part of an id before its first [#]. *)
Definition base_of (i : pystr) : pystr := (partition_on 35 i).1.
Lemma base_of_app i t : base_of (i ++ 35 :: t) = base_of i.
Proof.
  unfold base_of. induction i as [|c i IH]; cbn [app partition_on]; [done|]. destruct (35 =? c); [done|].
  destruct (partition_on 35 (i ++ 35 :: t)), (partition_on 35 i). cbn in *. by f_equal.
Qed.

Section rules.
Context (session : pystr) (trace : option (pystr → bool)) (ix : index).

(** The ids a row's records may have, by what comes before the first [#]. *)
Definition row_bases row : list pystr := [base_of (py_str (jget (§"uuid") row)); base_of session].

(** A record that stands for this row, an error or not. *)
Definition stands_for (err : bool) row r : Prop :=
  raw_available r = negb err ∧ bool_decide (kind r = error_kind) = err ∧ base_of (id r) ∈ row_bases row.

(** Records of this row are appended and the weight does not shrink; in a full step
    it grows. *)
Definition step {A} (err : bool) row (m : M _Translator A) : Prop := tracks (grown (stands_for err row)) m ∧ tracks lighter m.
Definition full {A} (err : bool) row (m : M _Translator A) : Prop := step err row m ∧ adds_weight m.

Lemma step_bind {A B} err row (m : M _Translator A) (k : A → M _Translator B) :
  step err row m → (∀ a, step err row (k a)) → step err row (m ≫= k).
Proof. intros [Hm Hw] Hk. split; (apply tracks_bind; [apply _|done|intros a; apply Hk]). Qed.
Lemma full_then {A B} err row (m : M _Translator A) (k : A → M _Translator B) :
  full err row m → (∀ a, step err row (k a)) → full err row (m ≫= k).
Proof. intros [Hm Hw] Hk. split; [by apply step_bind|]. apply adds_then; [done|]. intros a. apply Hk. Qed.
Lemma then_full {A B} err row (m : M _Translator A) (k : A → M _Translator B) :
  step err row m → (∀ a, full err row (k a)) → full err row (m ≫= k).
Proof. intros Hm Hk. split; [apply step_bind; [done|apply Hk]|]. apply then_adds; [apply Hm|apply Hk]. Qed.
Lemma step_ret {A} err row (a : A) : step err row (mret a).
Proof. split; by apply tracks_ret, _. Qed.
Lemma step_get err row : step err row get_st.
Proof. split; by apply tracks_get, _. Qed.
Lemma step_lift {A} err row (x : res A) : step err row (lift_res x).
Proof. split; by apply tracks_lift, _. Qed.
Lemma step_aside err row g : (∀ s, _records (g s) = _records s ∧ count (_stats (g s)) = count (_stats s)) → step err row (modify g).
Proof.
  intros Hg. split; apply tracks_modify; intros s; destruct (Hg s) as [E1 E2].
  - apply grown_same. by rewrite E1.
  - unfold lighter, weight, losses. by rewrite E1, E2.
Qed.
Lemma full_bump err row t : full err row (modify (bump t)).
Proof.
  split; [split; apply tracks_modify; intros s|apply adds_bump]; [by apply grown_same|]. unfold lighter. pose proof (weight_bump t s). lia.
Qed.

Lemma emit_state row k body rid g s : ∃ r, _emit session row k body rid g s = (Ok (length (_records s)),
    bump_kind k (add_record (default (_last_ts s) (_parse_ts (jget (§"timestamp") row))) r s)) ∧
  seq r = length (_records s) ∧ kind r = k ∧ raw_available r = negb (bool_decide (k = error_kind)) ∧
  id r = match rid with Some ((_ :: _) as i) => i | _ => py_str (jor (jget (§"uuid") row) (JStr (session ++ 35 :: str_of_nat (length (_records s))))) end.
Proof.
  unfold _emit. munfold. unfold __post_init__. cbn [kind raw_available].
  case_bool_decide; cbn -[py_str jor]; (eexists; split; [reflexivity|]; cbn -[py_str jor]); by rewrite ?bool_decide_true, ?bool_decide_false by done.
Qed.

Lemma full_emit_id row k body rid g : match rid with Some i => base_of i ∈ row_bases row | None => True end →
  full (bool_decide (k = error_kind)) row (_emit session row k body rid g).
Proof.
  intros Hi. assert (∀ s, ∃ r, (_emit session row k body rid g s).2 = bump_kind k (add_record (default (_last_ts s) (_parse_ts (jget (§"timestamp") row))) r s) ∧
    seq r = length (_records s) ∧ stands_for (bool_decide (k = error_kind)) row r) as He.
  { intros s. destruct (emit_state row k body rid g s) as (r & E & Hs & Hk & Hr & Hid). exists r. rewrite E. split; [done|].
    split; [done|]. split; [done|]. split; [by rewrite Hk|]. rewrite Hid. destruct rid as [[|c i]|]; [|done|].
    all: destruct (truthy (jget (§"uuid") row)) eqn:Et; unfold jor; rewrite Et; [left|]; cbn [py_str]; rewrite base_of_app; right; left. }
  assert (∀ s, (weight s < weight (_emit session row k body rid g s).2)%nat) as Hw.
  { intros s. destruct (He s) as (r & -> & _). unfold weight, losses. cbn. rewrite length_app. cbn. lia. }
  split; [split|].
  - intros s. destruct (He s) as (r & -> & Hs & HQ). exists [shape r]. cbn. split; [by rewrite map_app|].
    intros [|i] r'; cbn; [|done]. intros [= <-]. split; [cbn; lia|]. exact HQ.
  - intros s. unfold lighter. specialize (Hw s). lia.
  - intros s a s' E. specialize (Hw s). by rewrite E in Hw.
Qed.

Lemma full_emit err row k body : bool_decide (k = error_kind) = err → full err row (emit session row k body).
Proof. intros <-. apply full_then; [by apply full_emit_id|]. intros a. apply step_ret. Qed.
Lemma full_emit_as err row k body i g : bool_decide (k = error_kind) = err → base_of i ∈ row_bases row →
  full err row (_ ← _emit session row k body (Some i) g; mret tt).
Proof. intros <- Hi. apply full_then; [by apply full_emit_id|]. intros a. apply step_ret. Qed.
Lemma full_emit_in err row k body g : bool_decide (k = error_kind) = err →
  full err row (_ ← _emit session row k body None g; mret tt).
Proof. intros <-. apply full_then; [by apply full_emit_id|]. intros a. apply step_ret. Qed.
Lemma full_step {A} err row (m : M _Translator A) : full err row m → step err row m.
Proof. by intros []. Qed.

Lemma full_unrecognized row label : full false row (_emit_unrecognized session row label).
Proof.
  apply then_full; [by apply step_aside|]. intros _. apply then_full; [apply step_lift|]. intros b. by apply full_emit.
Qed.

(** The ids the rules give are the row's or the session's. *)
Lemma block_id_base row multi pos : base_of (block_id row multi pos) ∈ row_bases row.
Proof. unfold block_id. destruct multi; [rewrite base_of_app|]; left. Qed.
Lemma permission_base row i : base_of i ∈ row_bases row → base_of (i ++ §"#permission") ∈ row_bases row.
Proof. change (§"#permission") with (35 :: §"permission"). by rewrite base_of_app. Qed.
Lemma state_base row t : base_of (session ++ §"#state-" ++ t) ∈ row_bases row.
Proof. change (§"#state-" ++ t) with (35 :: (§"state-" ++ t)). rewrite base_of_app. right. left. Qed.

Ltac rule :=
  match goal with
  | |- full _ _ (if _ then _ else _) => case_match
  | |- full _ _ (match _ with _ => _ end) => case_match
  | |- full _ _ (modify (bump _)) => apply full_bump
  | |- full _ _ (_emit_unrecognized _ _ _) => apply full_unrecognized
  | |- full _ _ (emit _ _ _ _) => by apply full_emit
  | |- full _ _ (lift_res _ ≫= _) => apply then_full; [apply step_lift|intros ?]
  | |- full _ _ (get_st ≫= _) => apply then_full; [apply step_get|intros ?]
  | |- full _ _ (modify _ ≫= _) => apply then_full; [by apply step_aside|intros ?]
  | |- full _ _ (_emit _ _ _ _ (Some _) _ ≫= (λ _, mret tt)) => apply full_emit_as; [done|]
  | |- full _ _ (_emit _ _ _ _ None _ ≫= (λ _, mret tt)) => by apply full_emit_in
  end.

Lemma full_standing i rtype row : full false row (_rule_01_standing session ix i rtype row).
Proof. unfold _rule_01_standing. repeat rule. apply state_base. Qed.

Lemma full_hook_inject row a blocks extra : full false row (_emit_hook_inject session row a blocks extra).
Proof. unfold _emit_hook_inject. destruct (_hook_event_of _ _). by apply full_emit. Qed.
Lemma full_hook_result row a : full false row (_rule_09_hook_result session ix row a).
Proof. unfold _rule_09_hook_result. repeat rule. apply full_hook_inject. Qed.
Lemma full_attachment row : full false row (_rules_06_to_10_attachment session ix row).
Proof.
  unfold _rules_06_to_10_attachment. repeat rule; try apply full_hook_inject; try apply full_hook_result.
Qed.

Lemma full_tool_call row block i g : base_of i ∈ row_bases row → full false row (_emit_tool_call session row block i g).
Proof.
  intros Hi. unfold _emit_tool_call. apply then_full; [by apply step_aside|]. intros _. case_decide.
  - apply full_then; [by apply (full_emit_id row subagent_dispatch)|]. intros n. by apply step_aside.
  - by apply full_emit_as.
Qed.
Lemma full_block row block model i g : base_of i ∈ row_bases row → full false row (emit_block session row block model i g).
Proof. intros Hi. unfold emit_block. repeat rule; try done. by apply full_tool_call. Qed.

Lemma emit_blocks_step row model g multi blocks : ∀ pos, step false row (emit_blocks session row model g multi pos blocks) ∧
  ∀ s s', emit_blocks session row model g multi pos blocks s = (Ok true, s') → (weight s < weight s')%nat.
Proof.
  induction blocks as [|b blocks IH]; intros pos; cbn [emit_blocks]; [split; [apply step_ret|done]|].
  destruct b as [| | | | | |d]; try apply IH.
  assert (full false row (emit_block session row d model (block_id row multi pos) g;; _ ← emit_blocks session row model g multi (S pos) blocks; mret true)) as Hf.
  { apply full_then; [apply full_block, block_id_base|]. intros _. apply step_bind; [apply IH|]. intros _. apply step_ret. }
  split; [apply Hf|]. intros s s' E. by apply (proj2 Hf) in E.
Qed.

Definition api_error row : bool := is_True (jget (§"isApiErrorMessage") row).
Lemma full_assistant row : full (api_error row) row (_rules_11_to_16_assistant session row).
Proof.
  unfold _rules_11_to_16_assistant, api_error. destruct (is_True _); [by apply full_emit_in|].
  destruct (_as_list _) as [|b blocks]; [apply full_unrecognized|]. set (l := b :: blocks).
  destruct (emit_blocks_step row (jget (§"model") (_as_dict (jget (§"message") row))) (match jget (§"id") (_as_dict (jget (§"message") row)) with JStr g => Some g | _ => None end) (bool_decide (1 < length l)%nat) l 0) as [Hs Hw].
  split.
  - apply step_bind; [exact Hs|]. intros [|]; [apply step_ret|apply full_step, full_unrecognized].
  - intros s [] s' E. unfold mbind, M_bind in E. specialize (Hw s). destruct Hs as [_ Hl]. specialize (Hl s).
    destruct (emit_blocks _ _ _ _ _ _ _ s) as [[[|]|e] s1]; [injection E as <-; by apply Hw| |done].
    apply (proj2 (full_unrecognized row _)) in E. unfold lighter in Hl. cbn in Hl. lia.
Qed.

(** A step that depends on the state it starts in. *)
Lemma full_get {A} err row (k : _Translator → M _Translator A) :
  (∀ s, ∃ m, full err row m ∧ k s s = m s) → full err row (get_st ≫= k).
Proof.
  intros Hk. split; [split|].
  - intros s. destruct (Hk s) as (m & [[Hm _] _] & E). specialize (Hm s). rewrite <- E in Hm. exact Hm.
  - intros s. destruct (Hk s) as (m & [[_ Hm] _] & E). specialize (Hm s). rewrite <- E in Hm. exact Hm.
  - intros s a s' Ea. destruct (Hk s) as (m & [_ Hm] & E). apply (Hm s a s'). rewrite <- E. exact Ea.
Qed.

Lemma shapes_alter g l n : map shape (alter (λ r, with_payload (g r) r) n l) = map shape l.
Proof.
  revert n. induction l as [|r l IH]; intros [|n]; cbn; [done..|]. f_equal. apply IH.
Qed.

Lemma full_tool_result row block i : base_of i ∈ row_bases row → full false row (_emit_tool_result session trace ix row block i).
Proof.
  intros Hi. unfold _emit_tool_result. apply full_get. intros s.
  destruct (dget _ (_dispatch_by_call s)) as [n|]; [destruct (decide _)|].
  - set (g := λ r, returned trace (_as_dict (jget (§"toolUseResult") row)) (jget (§"toolDenialKind") row) (payload r)).
    exists (modify (λ s, set_records (alter (λ r, with_payload (g r) r) n (_records s)) s);; modify (bump merged_subagent_result)).
    split; [|done]. apply then_full; [|intros _; apply full_bump]. split; apply tracks_modify; intros s1.
    + apply grown_same. apply shapes_alter.
    + unfold lighter, weight. cbn. by rewrite length_alter.
  - eexists; split; [|reflexivity]. apply then_full.
    { destruct (truthy _); [|apply step_ret]. apply full_step, full_emit_as; [done|]. by apply permission_base. }
    intros _. rule. destruct (_result_truncation _ _ _ _). by apply full_emit_as.
  - eexists; split; [|reflexivity]. apply then_full.
    { destruct (truthy _); [|apply step_ret]. apply full_step, full_emit_as; [done|]. by apply permission_base. }
    intros _. rule. destruct (_result_truncation _ _ _ _). by apply full_emit_as.
Qed.

Lemma emit_results_step row multi l : ∀ pos, step false row (emit_results session trace ix row multi pos l).
Proof.
  induction l as [|b l IH]; intros pos; cbn [emit_results]; [apply step_ret|].
  apply step_bind; [apply full_step, full_tool_result, block_id_base|]. intros _. apply IH.
Qed.
Lemma full_user row : full false row (_rules_17_to_23_user session trace ix row).
Proof.
  unfold _rules_17_to_23_user. destruct (is_True _); [apply full_bump|]. cbv zeta.
  destruct (blocks_where true _) as [|b l]; [by repeat rule|]. apply full_then.
  - cbn [emit_results]. apply full_then; [apply full_tool_result, block_id_base|]. intros _. apply emit_results_step.
  - intros _. case_match; [apply step_ret|apply full_step, full_unrecognized].
Qed.

Lemma full_lift {A B} err row (x : res A) (k : A → M _Translator B) :
  (∀ a, x = Ok a → full err row (k a)) → full err row (lift_res x ≫= k).
Proof.
  intros Hk. destruct x as [a|e]; [exact (Hk a eq_refl)|]. split; [split|]; [intros s; reflexivity|intros s; reflexivity|by intros s b s' [=]].
Qed.

Definition engine_error row : bool :=
  existsb (λ t, str_is t (jget (§"subtype") row)) _ENGINE_ERROR_SUBTYPES ||
  (str_is (§"informational") (jget (§"subtype") row) && str_is (§"warning") (jget (§"level") row)).
Lemma engine_error_other row t : jget (§"subtype") row = JStr t → t ∉ _ENGINE_ERROR_SUBTYPES → t ≠ §"informational" → engine_error row = false.
Proof.
  intros Ht Hn Hi. unfold engine_error. rewrite Ht. apply orb_false_iff. split.
  - apply not_true_iff_false. intros (u & Hu & E)%existsb_exists. apply Hn. apply str_is_iff in E. injection E as ->. by apply list_elem_of_In.
  - apply andb_false_iff. left. apply str_is_false. congruence.
Qed.
Lemma full_system i row : full (engine_error row) row (_rules_02_to_05_system session ix i row).
Proof.
  unfold _rules_02_to_05_system. cbv zeta.
  destruct (str_is (§"compact_boundary") _) eqn:E1.
  { apply str_is_iff in E1. rewrite (engine_error_other _ _ E1) by (done || apply (bool_decide_unpack _); reflexivity). by apply full_emit. }
  destruct (str_is (§"turn_duration") _) eqn:E2.
  { apply str_is_iff in E2. rewrite (engine_error_other _ _ E2) by (done || apply (bool_decide_unpack _); reflexivity). by apply full_emit. }
  apply full_lift. intros e He. assert (e || (str_is (§"informational") (jget (§"subtype") row) && str_is (§"warning") (jget (§"level") row)) = engine_error row) as ->.
  { unfold in_frozenset in He. destruct (unhashable _); [done|]. by injection He as <-. }
  destruct (engine_error row); [by apply full_emit|]. by repeat rule.
Qed.

(** Which rows are errors. *)
Definition error_row row : bool :=
  (str_is (§"system") (jget (§"type") row) && engine_error row) || (str_is (§"assistant") (jget (§"type") row) && api_error row).

Lemma full_row i row : full (error_row row) row (_translate_row session trace ix i row).
Proof.
  unfold _translate_row, error_row. destruct (jget (§"type") row) as [| | | |t| |]; try apply full_unrecognized. cbn [str_is].
  destruct (decide (t = §"__unparsable__")) as [->|_].
  { apply then_full; [by apply step_aside|]. intros _. apply full_unrecognized. }
  destruct (decide (t ∈ _STANDING_TYPES)) as [Ht|_].
  { rewrite !bool_decide_false; [apply full_standing|intros ->; revert Ht; apply (bool_decide_unpack (_ ∉ _)); reflexivity..]. }
  destruct (decide (t = §"system")) as [->|Hs]; [rewrite orb_false_r; apply full_system|].
  rewrite (bool_decide_false (t = §"system")) by done.
  destruct (decide (t = §"attachment")) as [->|_]; [apply full_attachment|].
  destruct (decide (t = §"assistant")) as [->|Ha]; [apply full_assistant|].
  rewrite bool_decide_false by done. case_decide; [apply full_user|apply full_unrecognized].
Qed.

Lemma translate_from_grown rows : ∀ i, tracks (grown (λ r, ∃ row, row ∈ rows ∧ stands_for (error_row row) row r)) (translate_from session trace ix i rows).
Proof.
  induction rows as [|row rows IH]; intros i; cbn [translate_from]; [apply tracks_ret, _|]. apply tracks_bind; [apply _| |intros _].
  - intros s. destruct (full_row i row) as [[Hg _] _]. eapply grown_weaken; [|apply Hg]. intros r Hr. exists row. split; [left|done].
  - intros s. eapply grown_weaken; [|apply IH]. intros r (row' & Hin & Hr). exists row'. split; [by right|done].
Qed.

(** Row by row, the weight grows. *)
Lemma translate_from_weight rows : ∀ i s s', translate_from session trace ix i rows s = (Ok tt, s') → (weight s + length rows <= weight s')%nat.
Proof.
  induction rows as [|row rows IH]; intros i s s'; cbn [translate_from length]; [intros [= ->]; lia|].
  intros ([] & s1 & E1 & E2)%M_bind_ok. apply (proj2 (full_row i row)) in E1. apply IH in E2. lia.
Qed.

Lemma translated_rows rows l st : translate_with_stats rows session trace = Ok (l, st) →
  ∃ ix s, translate_from session trace ix 0 rows (new_translator rows) = (Ok tt, s) ∧ l = _records s ∧ st = set_out (length l) (_stats s).
Proof.
  unfold translate_with_stats. destruct (_build_index rows) as [ix'|]; [|done]. cbn.
  destruct (translate_from session trace ix' 0 rows (new_translator rows)) as [[[]|] s] eqn:E; [|done].
  intros [= <- <-]. by exists ix', s.
Qed.
End rules.

(** The records of a translation: each at its place, each standing for a row. *)
Lemma translated_records session trace rows l st k r : translate_with_stats rows session trace = Ok (l, st) → l !! k = Some r →
  seq r = k ∧ ∃ row, row ∈ rows ∧ stands_for session (error_row row) row r.
Proof.
  intros (ix & s & E & -> & _)%translated_rows Hk. pose proof (translate_from_grown session trace ix rows 0 (new_translator rows)) as Hg.
  rewrite E in Hg. destruct Hg as (new & En & Hn). cbn in En. destruct (Hn k (shape r)) as [Hs (row & Hin & Hr)].
  - rewrite <- En, list_lookup_fmap, Hk. done.
  - split; [exact Hs|]. exists row. split; [done|]. exact Hr.
Qed.

Lemma translate_from_at session trace ix rows : ∀ i k row s s2, translate_from session trace ix i rows s = (Ok tt, s2) → rows !! k = Some row →
  ∃ s0 s1, translate_from session trace ix i (take k rows) s = (Ok tt, s0) ∧ _translate_row session trace ix (i + k) row s0 = (Ok tt, s1).
Proof.
  induction rows as [|row0 rows IH]; intros i [|k] row s s2; cbn [translate_from]; try done;
    intros ([] & s1 & E1 & E2)%M_bind_ok Hk.
  - injection Hk as <-. exists s, s1. rewrite Nat.add_0_r. done.
  - destruct (IH (S i) k row s1 s2 E2 Hk) as (s0 & s3 & E3 & E4). exists s0, s3. cbn [firstn translate_from].
    split; [|by rewrite Nat.add_succ_r]. unfold mbind, M_bind. rewrite E1. exact E3.
Qed.

(** ** Every translation ends *)

(** A row of a transcript: its integers can be printed, and where a value is looked up in
    a set, no list or object stands in its place. *)
Definition set_member (v : json) : bool := negb (unhashable v).
Definition block_types (content : json) : list json :=
  omap (λ b, match b with JObj d => Some (jget (§"type") d) | _ => None end) (_as_list content).
Definition results_plain (row : jdict) : bool :=
  forallb (λ d, forallb set_member (block_types (jget (§"content") d)))
    (blocks_where true (_as_list (jget (§"content") (_as_dict (jget (§"message") row))))).
Definition plain_row (row : jdict) : bool :=
  printable (JObj row) && set_member (jget (§"subtype") row) &&
  set_member (jget (§"type") (_as_dict (jget (§"attachment") row))) && results_plain row.

Lemma printable_get k d : printable (JObj d) = true → printable (jget k d) = true.
Proof.
  cbn. intros Hd. unfold jget. destruct (dget k d) as [v|] eqn:E; [|done]. apply dget_Some_elem in E.
  rewrite forallb_forall in Hd. exact (Hd _ (proj1 (list_elem_of_In _ _) E)).
Qed.
Lemma printable_dict v : printable v = true → printable (JObj (_as_dict v)) = true.
Proof. by destruct v. Qed.

Lemma hook_blocks_ends v : printable v = true → ∃ l, _hook_blocks v = Ok l.
Proof.
  intros Hv. unfold _hook_blocks. destruct v as [| | | |s|l|d]; try by eexists.
  change (_as_list (JArr l)) with l. cbn in Hv.
  destruct (map_res_total (λ item, match item with JStr s => Ok s | _ => json_dumps item end) l) as [t ->]; [|by eexists].
  rewrite forallb_forall in Hv. intros x Hx. unfold json_dumps. rewrite (Hv x) by (by apply list_elem_of_In). destruct x; by eexists.
Qed.

Lemma index_row_ends i row x : plain_row row = true → ∃ y, index_row i row x = Ok y.
Proof.
  unfold plain_row. rewrite !andb_true_iff. intros [[[Hp _] _] _]. unfold index_row. cbv zeta.
  destruct (str_is (§"assistant") _); [by eexists|]. destruct (str_is (§"attachment") _).
  - unfold index_attachment. destruct (str_is _ _); [by destruct (jget _ _); eexists|]. destruct (str_is _ _); [|by eexists].
    destruct (hook_blocks_ends (jget (§"content") (_as_dict (jget (§"attachment") row)))) as [l ->]; [|by eexists].
    by apply printable_get, printable_dict, printable_get.
  - destruct (_ && _); [by eexists|]. destruct (pending_boundary x); [|by eexists]. destruct (_ && _); by eexists.
Qed.
Lemma build_index_ends rows : Forall (λ row, plain_row row = true) rows → ∃ ix, _build_index rows = Ok ix.
Proof.
  unfold _build_index. generalize 0%nat as i, no_index as x. intros i x Hall. revert i x.
  induction Hall as [|row rows Hr _ IH]; intros i x; cbn; [by eexists|].
  destruct (index_row_ends i row x Hr) as [y ->]. apply IH.
Qed.

(** A computation that raises from no state. *)
Definition ends {A} (m : M _Translator A) : Prop := ∀ s, ∃ a s', m s = (Ok a, s').
Lemma ends_bind {A B} (m : M _Translator A) (k : A → M _Translator B) : ends m → (∀ a, ends (k a)) → ends (m ≫= k).
Proof. intros Hm Hk s. destruct (Hm s) as (a & s1 & E). unfold mbind, M_bind. rewrite E. apply Hk. Qed.
Lemma ends_ret {A} (a : A) : ends (mret a).
Proof. intros s. by exists a, s. Qed.
Lemma ends_get : ends get_st.
Proof. intros s. by exists s, s. Qed.
Lemma ends_modify g : ends (modify g).
Proof. intros s. by exists tt, (g s). Qed.
Lemma ends_lift {A} (x : res A) : (∃ a, x = Ok a) → ends (lift_res x).
Proof. intros [a ->] s. by exists a, s. Qed.

Section ending.
Context (session : pystr) (trace : option (pystr → bool)) (ix : index) (row : jdict).
Hypothesis Hplain : plain_row row = true.

Lemma row_printable : printable (JObj row) = true.
Proof. revert Hplain. unfold plain_row. rewrite !andb_true_iff. tauto. Qed.
Lemma attachment_printable k : printable (jget k (_as_dict (jget (§"attachment") row))) = true.
Proof. by apply printable_get, printable_dict, printable_get, row_printable. Qed.

Lemma ends_emit k body rid g : ends (_emit session row k body rid g).
Proof. intros s. destruct (emit_state session row k body rid g s) as (r & -> & _). by eexists _, _. Qed.
Lemma ends_unrecognized label : ends (_emit_unrecognized session row label).
Proof.
  apply ends_bind; [apply ends_modify|]. intros _. apply ends_bind; [|intros b; apply ends_bind; [apply ends_emit|intros n; apply ends_ret]].
  apply ends_lift. unfold json_dumps. rewrite row_printable. by eexists.
Qed.

Ltac step_ends :=
  cbv zeta;
  match goal with
  | |- ∀ _, ends _ => intros ?
  | |- ends (if _ then _ else _) => case_match
  | |- ends (let '(_, _) := ?x in _) => destruct x
  | |- ends (match _ with _ => _ end) => case_match
  | |- ends (modify _) => apply ends_modify
  | |- ends get_st => apply ends_get
  | |- ends (mret _) => apply ends_ret
  | |- ends (_emit_unrecognized _ _ _) => apply ends_unrecognized
  | |- ends (_emit _ _ _ _ _ _) => apply ends_emit
  | |- ends (emit _ _ _ _) => unfold emit
  | |- ends (_ ≫= _) => apply ends_bind; [|intros ?]
  | |- ends (lift_res (_hook_blocks (jget _ row))) => by apply ends_lift, hook_blocks_ends, printable_get, row_printable
  | |- ends (lift_res (_hook_blocks (jget _ (_as_dict _)))) => apply ends_lift, hook_blocks_ends, attachment_printable
  end.

Lemma ends_standing i rtype : rtype ∈ _STANDING_TYPES → ends (_rule_01_standing session ix i rtype row).
Proof.
  intros Ht. unfold _rule_01_standing. destruct (decide _) as [|Hn]; [apply ends_modify|]. apply ends_bind; [|repeat step_ends].
  assert (Forall (λ t, t ∉ _STANDING_DROP_TYPES → is_Some (dget t _STANDING_VALUE_KEY)) _STANDING_TYPES) as Hall
    by (apply (bool_decide_unpack _); vm_compute; exact I).
  apply ends_lift. rewrite Forall_forall in Hall. destruct (Hall rtype Ht Hn) as [k ->]. by eexists.
Qed.

Lemma in_frozenset_ends v l : set_member v = true → ∃ b, in_frozenset v l = Ok b.
Proof. unfold set_member, in_frozenset. destruct (unhashable v); [done|by eexists]. Qed.

Lemma ends_system i : ends (_rules_02_to_05_system session ix i row).
Proof.
  unfold _rules_02_to_05_system. cbv zeta. repeat step_ends. apply ends_lift, in_frozenset_ends.
  revert Hplain. unfold plain_row. rewrite !andb_true_iff. tauto.
Qed.

Lemma ends_hook_inject a blocks extra : ends (_emit_hook_inject session row a blocks extra).
Proof. unfold _emit_hook_inject. cbv zeta. repeat step_ends. Qed.
Lemma ends_hook_result : ends (_rule_09_hook_result session ix row (_as_dict (jget (§"attachment") row))).
Proof.
  unfold _rule_09_hook_result. cbv zeta. case_match; [apply ends_modify|]. case_match; [apply ends_modify|].
  apply ends_bind; [|intros; apply ends_hook_inject]. apply ends_lift. unfold or_blocks.
  destruct (hook_blocks_ends _ (attachment_printable (§"content"))) as [l1 ->].
  destruct (hook_blocks_ends _ (attachment_printable (§"stdout"))) as [l2 ->].
  destruct (hook_blocks_ends (JStr (_hook_stdout_context (jget (§"stdout") (_as_dict (jget (§"attachment") row))))) eq_refl) as [l0 ->].
  cbn. destruct l0; [|by eexists]. destruct l1; by eexists.
Qed.
Lemma ends_attachment : ends (_rules_06_to_10_attachment session ix row).
Proof.
  unfold _rules_06_to_10_attachment. cbv zeta. repeat step_ends; try apply ends_hook_inject; try apply ends_hook_result; apply ends_lift.
  - apply in_frozenset_ends. revert Hplain. unfold plain_row. rewrite !andb_true_iff. tauto.
  - pose proof (attachment_printable (§"content")) as Hc. unfold json_dumps. rewrite Hc. destruct (jget (§"content") _); by eexists.
Qed.

Lemma ends_block block model rid g : ends (emit_block session row block model rid g).
Proof. unfold emit_block, _emit_tool_call. cbv zeta. repeat step_ends. Qed.
Lemma ends_blocks model g multi blocks : ∀ pos, ends (emit_blocks session row model g multi pos blocks).
Proof.
  induction blocks as [|b blocks IH]; intros pos; cbn [emit_blocks]; [apply ends_ret|]. destruct b as [| | | | | |d]; try apply IH.
  apply ends_bind; [apply ends_block|]. intros _. apply ends_bind; [apply IH|]. intros _. apply ends_ret.
Qed.
Lemma ends_assistant : ends (_rules_11_to_16_assistant session row).
Proof.
  unfold _rules_11_to_16_assistant. cbv zeta. case_match; [repeat step_ends|]. case_match; [repeat step_ends|].
  apply ends_bind; [apply ends_blocks|]. repeat step_ends.
Qed.

Lemma ends_tool_result block i : forallb set_member (block_types (jget (§"content") block)) = true →
  ends (_emit_tool_result session trace ix row block i).
Proof.
  intros Hb. unfold _emit_tool_result. cbv zeta. apply ends_bind; [apply ends_get|]. intros s.
  assert (∃ kb, _result_body (jget (§"content") block) = Ok kb) as Hk.
  { unfold _result_body. destruct (jget (§"content") block) as [| | | |t|l|d] eqn:E; try by eexists. cbv zeta. fold (block_types (JArr l)).
    replace (existsb unhashable _) with false; [by case_match; eexists|]. symmetry. apply not_true_iff_false.
    intros (v & Hv & Hu)%existsb_exists. rewrite forallb_forall in Hb. specialize (Hb v Hv). unfold set_member in Hb. by rewrite Hu in Hb. }
  repeat step_ends; by apply ends_lift.
Qed.
Lemma ends_user : ends (_rules_17_to_23_user session trace ix row).
Proof.
  unfold _rules_17_to_23_user. case_match; [apply ends_modify|]. cbv zeta.
  assert (results_plain row = true) as Hr by (revert Hplain; unfold plain_row; rewrite !andb_true_iff; tauto).
  unfold results_plain in Hr. destruct (blocks_where true _) as [|b l]; [repeat step_ends|].
  apply ends_bind; [|intros _; repeat step_ends]. generalize (bool_decide (1 < length (_as_list (jget (§"content") (_as_dict (jget (§"message") row)))))%nat) as multi.
  intros multi. generalize 0%nat. generalize (b :: l), Hr. clear Hr. intros bs.
  induction bs as [|b' bs IH]; intros Hr pos; cbn [emit_results]; [apply ends_ret|]. cbn in Hr. apply andb_true_iff in Hr as [Hb Hr].
  apply ends_bind; [by apply ends_tool_result|]. intros _. by apply IH.
Qed.
Lemma ends_row i : ends (_translate_row session trace ix i row).
Proof.
  unfold _translate_row. destruct (jget (§"type") row) as [| | | |t| |]; try apply ends_unrecognized.
  case_decide; [repeat step_ends|]. case_decide; [by apply ends_standing|]. case_decide; [apply ends_system|].
  case_decide; [apply ends_attachment|]. case_decide; [apply ends_assistant|]. case_decide; [apply ends_user|apply ends_unrecognized].
Qed.
End ending.

Lemma translate_ends session trace rows : Forall (λ row, plain_row row = true) rows →
  ∃ l st, translate_with_stats rows session trace = Ok (l, st).
Proof.
  intros Hall. destruct (build_index_ends rows Hall) as [ix Hix]. unfold translate_with_stats. rewrite Hix. cbn.
  assert (∀ i, ends (translate_from session trace ix i rows)) as He.
  { clear Hix. induction Hall as [|row rows Hr _ IH]; intros i; cbn [translate_from]; [apply ends_ret|].
    apply ends_bind; [by apply ends_row|]. intros _. apply IH. }
  destruct (He 0%nat (new_translator rows)) as (a & s & ->). by eexists _, _.
Qed.

(** C24. Every line of a session is accounted for: one that becomes no record of its own
    is counted under a reason, so that after each line there is a record or an entry
    more than before it, and the records and the entries are no fewer than the lines.
    And the translation does return, for every session in which no list or object stands
    where a type is looked up and every integer can be printed. *)
Theorem every_line_accounted session trace rows :
  (Forall (λ row, plain_row row = true) rows → ∃ l st, translate_with_stats rows session trace = Ok (l, st)) ∧
  ∀ l st, translate_with_stats rows session trace = Ok (l, st) →
  records_out st = length l ∧ (length rows <= records_out st + losses st)%nat ∧
  ∃ ix, _build_index rows = Ok ix ∧ ∀ i row, rows !! i = Some row →
    ∃ s s', translate_from session trace ix 0 (take i rows) (new_translator rows) = (Ok tt, s) ∧
      _translate_row session trace ix i row s = (Ok tt, s') ∧ (weight s < weight s')%nat.
Proof.
  split; [apply translate_ends|]. intros l st.
  unfold translate_with_stats. destruct (_build_index rows) as [ix|]; [|done]. cbn.
  destruct (translate_from session trace ix 0 rows (new_translator rows)) as [[[]|] s] eqn:E; [|done]. intros [= <- <-].
  split; [done|]. split.
  - apply translate_from_weight in E. unfold weight in E. cbn in E. exact E.
  - exists ix. split; [done|]. intros i row Hi. destruct (translate_from_at _ _ _ _ _ _ _ _ _ E Hi) as (s0 & s1 & E0 & E1).
    exists s0, s1. split; [done|]. split; [done|]. by apply (proj2 (full_row session trace ix i row)) in E1.
Qed.

(** ** Raw lines *)

(** A transcript as Claude Code keeps it: where a line has a uuid it is a string of its
    own, without [#], and neither the name of the session nor what an absent one prints
    as. *)
Record well_kept (session : pystr) (rows : list jdict) : Prop := {
  wk_string row : row ∈ rows → jget (§"uuid") row = JNull ∨ ∃ u, jget (§"uuid") row = JStr u ∧ base_of u = u;
  wk_own row row' u : row ∈ rows → row' ∈ rows → jget (§"uuid") row = JStr u → jget (§"uuid") row' = JStr u → row = row';
  wk_none row : row ∈ rows → jget (§"uuid") row ≠ JStr (base_of (py_repr JNull)) ∧ jget (§"uuid") row ≠ JStr (base_of session);
}.

Lemma find_record_Some i l r : find_record i l = Some r → r ∈ l ∧ id r = i.
Proof.
  induction l as [|r0 l IH]; cbn; [done|]. case_decide; [intros [= ->]; split; [left|done]|]. intros [? ?]%IH. split; [by right|done].
Qed.
Lemma find_row_Some u rows row : find_row u rows = Some row → row ∈ rows ∧ jget (§"uuid") row = JStr u.
Proof.
  induction rows as [|r0 rows IH]; cbn; [done|]. destruct (str_is _ _) eqn:E.
  - intros [= ->]. apply str_is_iff in E. split; [left|done].
  - intros [? ?]%IH. split; [by right|done].
Qed.

(** One line with an integer of more than 4300 digits and the session is not read at all. *)
Lemma long_line_loses_session text line : line ∈ split_on 10 (universal_newlines text) → long_integer (strip line) = true →
  _read_rows text = Raise ValueError.
Proof.
  intros Hin Hl. unfold _read_rows. assert (row_of_line line = Raise ValueError) as Hr.
  { unfold row_of_line. destruct (strip line) as [|c s] eqn:E; [done|]. by rewrite Hl. }
  destruct (map_res row_of_line _) as [ls|e] eqn:E.
  - apply map_res_Forall2 in E. apply list_elem_of_lookup in Hin as [k Hk].
    destruct (Forall2_lookup_l _ _ _ _ _ E Hk) as (y & _ & Hy). by rewrite Hr in Hy.
  - apply map_res_Raise in E as (x & _ & Hx). cbn. f_equal. revert Hx. unfold row_of_line. destruct (strip x); [done|].
    destruct (long_integer (_ :: _)); [by intros [= <-]|]. by destruct (json_loads _) as [[]|].
Qed.

(** C28. The raw line of an error is served to nobody: what the workbench hands out of a
    Claude Code session is a line of that session that is no error. *)
Theorem error_line_withheld codex_session adapters projects session rid raw f :
  dget claude_code adapters = Some (ClaudeCodeRecordAdapter projects) → detect_family codex_session session = Ok claude_code →
  find_session_file session projects = Some f → (∀ rows, _read_rows (text f) = Ok rows → well_kept session rows) →
  read_workbench_record_raw codex_session adapters rid session = Ok raw →
  ∃ rows, _read_rows (text f) = Ok rows ∧ raw ∈ rows ∧ error_row raw = false.
Proof.
  intros Ha Hd Hf Hw. unfold read_workbench_record_raw, read_raw. rewrite Hd. cbn. unfold get_adapter. rewrite Ha. cbn.
  unfold claude_read_raw. rewrite Hf. unfold to_unified. destruct (_read_rows (text f)) as [rows|[]] eqn:Erows; try done. cbn.
  specialize (Hw _ eq_refl). destruct (translate_records rows session _) as [l|] eqn:El; [|by destruct e]. cbn.
  destruct (find_record rid l) as [r|] eqn:Er; [|done]. destruct (is_raw_readable r) eqn:Hr; [|done].
  destruct (find_row _ _) as [row|] eqn:Erow; [|done]. intros [= ->]. apply find_row_Some in Erow as [Hin Hu].
  exists rows. split; [done|]. split; [done|].
  apply find_record_Some in Er as [Hrl Hid]. apply list_elem_of_lookup in Hrl as [k Hk].
  unfold translate_records in El. destruct (translate_with_stats _ _ _) as [[l' st]|] eqn:Et; [|done]. cbn in El. injection El as <-.
  destruct (translated_records _ _ _ _ _ _ _ Et Hk) as (_ & row & Hrow & _ & Hkind & Hbase). rewrite Hid in Hbase.
  fold (base_of rid) in Hu. unfold is_raw_readable in Hr. apply andb_true_iff in Hr as [_ Hr]. rewrite Hkind in Hr.
  apply negb_true_iff in Hr. apply elem_of_cons in Hbase as [Hb|Hb%list_elem_of_singleton].
  - destruct (wk_string _ _ Hw row Hrow) as [Hn|(u & Hs & Hbu)].
    + rewrite Hn in Hb. cbn in Hb. rewrite Hb in Hu. by apply (wk_none _ _ Hw raw Hin) in Hu.
    + rewrite Hs in Hb. cbn in Hb. rewrite Hbu in Hb. rewrite Hb in Hu.
      by rewrite (wk_own _ _ Hw raw row u Hin Hrow Hu Hs).
  - rewrite Hb in Hu. by apply (wk_none _ _ Hw raw Hin) in Hu.
Qed.
End translated.

(** ** Pages *)

(** What an adapter promises the reader: the records of a session are numbered by their
    place, a page is a slice of them, and the tail is their end. *)
Class Paged (a : RecordAdapter) (whole : pystr → res (list UnifiedRecord)) : Prop := {
  numbered session l k r : whole session = Ok l → l !! k = Some r → seq r = k;
  page_is_slice session after limit : (0 < limit)%nat → read_page a session after limit false = (l ← whole session; Ok (take limit (drop after l)));
  tail_is_end session after limit : read_page a session after limit true = (l ← whole session; Ok (last_n limit l));
}.

Section pages.
Context `{Unicode, PyRepr, Quoting, Stamps, FloatText}.

Lemma filter_from l : ∀ n after, (∀ k r, l !! k = Some r → seq r = (n + k)%nat) →
  filter (λ r, (after <= seq r)%nat) l = drop (after - n) l.
Proof.
  induction l as [|r l IH]; intros n after Hs; [by rewrite drop_nil|].
  pose proof (Hs 0%nat r eq_refl) as Hr. rewrite Nat.add_0_r in Hr.
  assert (∀ k r, l !! k = Some r → seq r = (S n + k)%nat) as Hl by (intros k r' Hk; rewrite (Hs (S k) r' Hk); lia).
  rewrite filter_cons, (IH (S n) after Hl). case_decide as Hd; rewrite Hr in Hd.
  - replace (after - n)%nat with 0%nat by lia. by replace (after - S n)%nat with 0%nat by lia.
  - replace (after - n)%nat with (S (after - S n)) by lia. done.
Qed.

Definition claude_whole (projects : list (dict pystr session_file)) (session : pystr) : res (list UnifiedRecord) :=
  match find_session_file session projects with Some f => to_unified session f | None => Ok [] end.

Lemma to_unified_numbered session f l k r : to_unified session f = Ok l → l !! k = Some r → seq r = k.
Proof.
  unfold to_unified, translate_records. destruct (_read_rows (text f)) as [rows|]; [|done]. cbn.
  destruct (translate_with_stats _ _ _) as [[l' st]|] eqn:E; [|done]. cbn. intros [= <-] Hk.
  by destruct (translated_records _ _ _ _ _ _ _ E Hk).
Qed.

#[export] Instance claude_paged projects : Paged (ClaudeCodeRecordAdapter projects) (claude_whole projects).
Proof.
  split; unfold claude_whole; cbn [ClaudeCodeRecordAdapter read_page]; unfold claude_to_unified.
  - intros session l k r. destruct (find_session_file _ _); [apply to_unified_numbered|]. by intros [= <-].
  - intros session after limit _. destruct (find_session_file _ _) as [f|]; [|cbn; by rewrite drop_nil, take_nil].
    destruct (to_unified session f) as [l|] eqn:E; [|done]. cbn. do 2 f_equal.
    rewrite (filter_from l 0) by (intros k r; by apply (to_unified_numbered session f)). by rewrite Nat.sub_0_r.
  - intros session after limit. destruct (find_session_file _ _) as [f|]; [done|]. cbn. by destruct limit.
Qed.
End pages.

(** A reader that asks page after page, each time from the number after the last it
    has, until a page is empty. *)
Fixpoint read_all (n : nat) is_codex adapters (session : pystr) (after limit : Z) : res (list UnifiedRecord) :=
  match n with
  | O => Ok []
  | S n =>
      page ← read_records is_codex adapters session after limit false;
      match last page with
      | None => Ok []
      | Some r => rest ← read_all n is_codex adapters session (Z.of_nat (seq r) + 1) limit; Ok (page ++ rest)
      end
  end.

Section paged.
Context (is_codex : pystr → bool) (adapters : dict RecordFamily RecordAdapter).
Context (a : RecordAdapter) (whole : pystr → res (list UnifiedRecord)) {paged : Paged a whole}.

Lemma read_page_slice session family l (after : nat) limit : detect_family is_codex session = Ok family → dget family adapters = Some a →
  whole session = Ok l → read_records is_codex adapters session (Z.of_nat after) limit false =
    Ok (take (Z.to_nat (Z.min (Z.max limit 1) MAX_LIMIT)) (drop after l)).
Proof.
  intros Hd Ha Hl. unfold read_records. rewrite Hd. cbn -[Z.to_nat]. unfold get_adapter. rewrite Ha. cbn -[Z.to_nat].
  rewrite page_is_slice, Hl by (unfold MAX_LIMIT; lia). cbn -[Z.to_nat]. by rewrite (Z.max_l (Z.of_nat after) 0), Nat2Z.id by lia.
Qed.

Lemma read_tail session family l after limit : detect_family is_codex session = Ok family → dget family adapters = Some a →
  whole session = Ok l → read_records is_codex adapters session after limit true = Ok (last_n (Z.to_nat (Z.min (Z.max limit 1) MAX_LIMIT)) l).
Proof.
  intros Hd Ha Hl. unfold read_records. rewrite Hd. cbn -[Z.to_nat]. unfold get_adapter. rewrite Ha. cbn -[Z.to_nat].
  by rewrite tail_is_end, Hl.
Qed.

Lemma last_numbered (l : list UnifiedRecord) after r page : (∀ k r, l !! k = Some r → seq r = k) → (page `prefix_of` drop after l) →
  last page = Some r → seq r = (after + length page - 1)%nat ∧ (0 < length page)%nat.
Proof.
  intros Hn [rest Hp] [page0 ->]%last_Some. rewrite length_app. cbn. split; [|lia].
  rewrite (Hn (after + length page0)%nat r); [lia|]. rewrite <- lookup_drop, Hp, <- (assoc_L app).
  by rewrite lookup_app_r, Nat.sub_diag by lia.
Qed.

Lemma read_all_drop session family l limit : detect_family is_codex session = Ok family → dget family adapters = Some a →
  whole session = Ok l → ∀ n after, (length l < n + after)%nat →
  read_all n is_codex adapters session (Z.of_nat after) limit = Ok (drop after l).
Proof.
  intros Hd Ha Hl. induction n as [|n IH]; intros after Hn; [by rewrite drop_ge by lia|].
  cbn [read_all]. rewrite (read_page_slice session family l) by done. cbn -[Z.to_nat].
  set (c := Z.to_nat (Z.min (Z.max limit 1) MAX_LIMIT)). assert (0 < c)%nat as Hc by (unfold c, MAX_LIMIT; lia).
  destruct (last (take c (drop after l))) as [r|] eqn:Er.
  - destruct (last_numbered l after r (take c (drop after l))) as [Hs Hp]; [intros k r'; by apply (numbered session)|by apply prefix_take|done|].
    rewrite Hs. replace (Z.of_nat _ + 1)%Z with (Z.of_nat (after + length (take c (drop after l)))) by lia.
    rewrite IH by lia. cbn. f_equal. rewrite <- drop_drop, length_take.
    destruct (decide (c <= length (drop after l))%nat).
    + rewrite Nat.min_l by done. apply take_drop.
    + rewrite Nat.min_r, take_ge, (drop_ge (drop after l)) by lia. apply app_nil_r.
  - apply last_None, take_nil_inv in Er as [?|Er]; [lia|]. by rewrite Er.
Qed.
End paged.

(** ** Witnesses *)

Module TranscriptDemo.
#[export] Existing Instances ascii_db repr_mark WholeFloats.whole_text.
Definition bare : Quoting := λ s, s.
Definition no_clock : Stamps := λ _, None.
#[export] Existing Instances bare no_clock.

Definition said : jdict :=
  [(§"type", JStr (§"user")); (§"uuid", JStr (§"u1")); (§"message", JObj [(§"content", JStr (§"hi"))])].
Definition refused : jdict :=
  [(§"type", JStr (§"assistant")); (§"uuid", JStr (§"u2")); (§"isApiErrorMessage", JBool true); (§"error", JStr (§"429"))].
Definition titled : jdict := [(§"type", JStr (§"ai-title")); (§"aiTitle", JStr (§"t"))].
Definition summed_up : jdict :=
  [(§"type", JStr (§"user")); (§"uuid", JStr (§"u3")); (§"isCompactSummary", JBool true); (§"message", JObj [(§"content", JStr (§"so far"))])].

Definition sid : pystr := §"00000000-0000-0000-0000-000000000000".
Definition file : session_file := {| text := dump (JObj said) ++ [10] ++ dump (JObj refused) ++ [10]; subagents := None |}.
Definition projects : list (dict pystr session_file) := [[(sid, file)]].

Lemma every_line_accounted_witness : ∃ l st, translate_with_stats [titled; said; titled; refused] sid None = Ok (l, st) ∧
  (4 <= records_out st + losses st)%nat.
Proof.
  destruct (every_line_accounted sid None [titled; said; titled; refused]) as [E A].
  destruct E as (l & st & E); [repeat constructor|]. exists l, st. split; [exact E|]. exact (proj1 (proj2 (A l st E))).
Defined.

Lemma reads_two : _read_rows (text file) = Ok [said; refused].
Proof. vm_compute. reflexivity. Qed.
Lemma two_kept : well_kept sid [said; refused].
Proof.
  split.
  - intros row [->|[->|[]%elem_of_nil]%elem_of_cons]%elem_of_cons; right; eexists; (split; [reflexivity|reflexivity]).
  - intros row row' u [->|[->|[]%elem_of_nil]%elem_of_cons]%elem_of_cons
      [->|[->|[]%elem_of_nil]%elem_of_cons]%elem_of_cons E1 E2; try done; rewrite <- E1 in E2; done.
  - intros row [->|[->|[]%elem_of_nil]%elem_of_cons]%elem_of_cons; split; done.
Qed.
Lemma error_line_withheld_witness : read_workbench_record_raw (λ _, false) [(claude_code, ClaudeCodeRecordAdapter projects)] (§"u1") sid = Ok said ∧
  error_row said = false.
Proof.
  assert (read_workbench_record_raw (λ _, false) [(claude_code, ClaudeCodeRecordAdapter projects)] (§"u1") sid = Ok said) as E
    by (vm_compute; reflexivity).
  split; [exact E|].
  destruct (error_line_withheld (λ _, false) [(claude_code, ClaudeCodeRecordAdapter projects)] projects sid (§"u1") said file
    eq_refl eq_refl eq_refl) with (2 := E) as (_ & _ & _ & R); [|exact R].
  intros rows Er. rewrite reads_two in Er. injection Er as <-. exact two_kept.
Defined.

(** A summary no boundary waits for is counted as merged and is in no record. *)
Lemma summary_merged_nowhere : ∃ st, translate_with_stats [summed_up] sid None = Ok ([], st) ∧ count st merged_compact_summary = 1%nat.
Proof. eexists. split; [vm_compute; reflexivity|reflexivity]. Qed.
End TranscriptDemo.
