(* ===== verification/CodexRecords.v ===== *)
(** * Codex sessions as the same records

    session/adapters/codex_records.py, with the finding of a session's rollout file of
    session/codex_store.py: the second adapter of the workbench's reader, over a file
    in which one line may become two records. *)

From Stdlib Require Import QArith.
From stdpp Require Import prelude list strings.
From S2P Require Import Prelude PyStr Json JsonText Transcripts.

Local Open Scope N_scope.

Definition _TOOL_FAMILIES : dict pystr pystr :=
  [(§"bash", §"shell"); (§"shell", §"shell"); (§"exec_command", §"shell"); (§"unified_exec", §"shell"); (§"write_stdin", §"shell");
   (§"local_shell", §"shell"); (§"apply_patch", §"file-write"); (§"read_file", §"file-read"); (§"view_image", §"file-read");
   (§"update_plan", §"todo"); (§"web_search", §"web"); (§"spawn_agent", §"agent"); (§"request_user_input", §"ask")].
Definition _BOOKKEEPING_EVENTS : list pystr := [§"token_count"; §"agent_message"; §"turn_diff"; §"stream_error"; §"notification"].
Definition _BOOKKEEPING_TYPES : list pystr := [§"world_state"; §"turn_context"; §"compacted"].

Record _Draft := {
  draft_id : pystr;
  draft_ts : Z;
  draft_kind : RecordKind;
  draft_group : option pystr;
  draft_payload : jdict;
  draft_raw : bool;
}.

(** A rollout file: its name, when it was last written, and its text. *)
Record rollout := { file_name : pystr; mtime : Q; content : pystr }.

Section codex.
Context `{Unicode, PyRepr, Quoting, Stamps, FloatText}.

Definition tool_family_of (tool_name : pystr) : pystr :=
  let name := str_lower (strip tool_name) in
  if starts_with (§"mcp__") name || starts_with (§"mcp.") name then §"mcp" else default (§"other") (dget name _TOOL_FAMILIES).

Definition _ms (raw : json) : Z := default 0%Z (_parse_ts raw).

Definition block_text (block : json) : option pystr :=
  match block with JObj d => match jget (§"text") d with JStr t => Some t | _ => None end | _ => None end.
Definition codex_text_of (p : jdict) : pystr :=
  match jget (§"content") p with JStr t => t | JArr l => concat (omap block_text l) | _ => [] end.

Definition _str_or_none (v : json) : option pystr := match v with JStr ((_ :: _) as t) => Some t | _ => None end.
Definition first_of (a b : option pystr) : option pystr := match a with Some t => Some t | None => b end.
Definition _turn_id (p : jdict) (current : option pystr) : option pystr :=
  first_of (match jget (§"internal_chat_message_metadata_passthrough") p with JObj d => _str_or_none (jget (§"turn_id") d) | _ => None end)
    (first_of (_str_or_none (jget (§"turn_id") p)) current).

Definition _decode_arguments (raw : json) : jdict :=
  match raw with
  | JObj d => d
  | JStr t => match strip t, json_loads t with _ :: _, Some (JObj d) => d | _, _ => [] end
  | _ => []
  end.

Definition cx (line : nat) : pystr := §"cx" ++ str_of_nat line.

Definition _unrecognized (record p : jdict) (line : nat) (t : Z) (turn : option pystr) : list _Draft :=
  [{| draft_id := cx line; draft_ts := t; draft_kind := context_inject; draft_group := turn;
      draft_payload := [(§"channel", JStr (§"unknown")); (§"label", JStr (str_field (§"type") record)); (§"body", JStr []);
                        (§"record_type", jget (§"type") record); (§"payload_type", jget (§"type") p);
                        (§"payload_keys", JArr (map JStr (isort str_leb (dkeys p)))); (§"unrecognized", JBool true)];
      draft_raw := true |}].

Definition _drafts_for (record : jdict) (line : nat) (current : option pystr) : res (list _Draft * option pystr) :=
  let outer := jget (§"type") record in
  let p := _as_dict (jget (§"payload") record) in
  let inner := jget (§"type") p in
  let t := _ms (jget (§"timestamp") record) in
  let turn := _turn_id p current in
  let rid := default (cx line) (_str_or_none (jget (§"id") p)) in
  let draft i g raw k body := {| draft_id := i; draft_ts := t; draft_kind := k; draft_group := g; draft_payload := body; draft_raw := raw |} in
  if str_is (§"session_meta") outer then
    Ok ([draft rid None true session_state
           [(§"field", JStr (§"session")); (§"from", JNull); (§"to", or_null (_str_or_none (jget (§"session_id") p)));
            (§"source", JStr (§"codex")); (§"event_type", JStr (§"session_meta")); (§"cwd", or_null (_str_or_none (jget (§"cwd") p)))]], turn)
  else if str_is (§"event_msg") outer then
    if str_is (§"task_started") inner then
      let turn := first_of (_turn_id p None) current in
      Ok ([draft (cx line) turn true call_envelope
             [(§"phase", JStr (§"start")); (§"turn_id", or_null turn); (§"source", JStr (§"codex"))]], turn)
    else if str_is (§"task_complete") inner then
      let finish := draft (cx line) turn true call_envelope
        [(§"phase", JStr (§"finish")); (§"turn_id", or_null turn); (§"source", JStr (§"codex"));
         (§"final_message", or_null (_str_or_none (jget (§"last_agent_message") p)))] in
      let error := jget (§"error") p in
      if truthy error then
        message ← match (match error with JObj d => jget (§"message") d | _ => JStr (py_str error) end) with
                  | JStr m => Ok m
                  | _ => json_dumps error
                  end;
        Ok ([finish; draft (cx line ++ §":error") turn false error_kind
                       [(§"scope", JStr (§"api")); (§"code", JStr (§"task_complete")); (§"message", JStr message)]], turn)
      else Ok ([finish], turn)
    else if str_is (§"user_message") inner then
      match jget (§"message") p with
      | JStr text =>
          if decide (strip text = []) then Ok ([], turn)
          else Ok ([draft (cx line) None true user_say [(§"text", JStr text); (§"input_mode", JNull); (§"agent", JNull)]], turn)
      | _ => Ok ([], turn)
      end
    else if str_is (§"error") inner then
      Ok ([draft (cx line) turn false error_kind
             [(§"scope", JStr (§"engine")); (§"code", JStr (§"event_error")); (§"message", JStr (str_field (§"message") p))]], turn)
    else
      known ← in_frozenset inner _BOOKKEEPING_EVENTS;
      Ok (if known : bool then [] else _unrecognized record p line t turn, turn)
  else
    known ← in_frozenset outer _BOOKKEEPING_TYPES;
    if (known : bool) then Ok ([], turn)
    else if negb (str_is (§"response_item") outer) then Ok (_unrecognized record p line t turn, turn)
    else if str_is (§"message") inner then
      let text := codex_text_of p in
      if str_is (§"assistant") (jget (§"role") p) then
        if decide (strip text = []) then Ok ([], turn)
        else Ok ([draft rid turn true agent_say [(§"text", JStr text); (§"model", JNull); (§"provider", JNull)]], turn)
      else
        let '(channel, label) := if str_is (§"developer") (jget (§"role") p) then (§"developer", ¶"developer 消息（含 frago 钩子注入）")
                                 else (§"environment", ¶"发给模型的用户消息（含环境说明）") in
        Ok ([draft rid turn true context_inject
               [(§"channel", JStr channel); (§"label", JStr label); (§"body", JStr text); (§"source", JStr (§"codex"));
                (§"unrecognized", JBool false)]], turn)
    else if str_is (§"reasoning") inner then
      let text := concat (omap block_text (_as_list (jget (§"content") p))) in
      if decide (strip text = []) then Ok ([], turn)
      else Ok ([draft rid turn true agent_think [(§"text", JStr text); (§"model", JNull); (§"provider", JNull)]], turn)
    else if str_is (§"function_call") inner then
      let name := str_field (§"name") p in
      Ok ([draft rid turn true tool_call
             [(§"call_id", JStr (default rid (_str_or_none (jget (§"call_id") p)))); (§"tool_name", JStr name);
              (§"tool_family", JStr (tool_family_of name)); (§"args", JObj (_decode_arguments (jget (§"arguments") p))); (§"title", JNull)]], turn)
    else if str_is (§"function_call_output") inner then
      Ok ([draft rid turn true tool_result
             [(§"call_id", JStr (default rid (_str_or_none (jget (§"call_id") p)))); (§"tool_name", JNull);
              (§"tool_family", JStr (§"other"));
              (§"status", JStr (match jget (§"success") p with JBool false => §"error" | _ => §"ok" end));
              (§"body", JStr (match jget (§"output") p with JStr o => o | _ => [] end)); (§"truncation", JStr (§"none"));
              (§"truncation_ref", JNull)]], turn)
    else Ok (_unrecognized record p line t turn, turn).

(** ** Finding the file *)

(** The session a rollout's first line names. *)
Definition _read_meta (f : rollout) : option pystr :=
  match split_on 10 (universal_newlines (content f)) with
  | first :: _ =>
      match strip first, json_loads first with
      | _ :: _, Some (JObj record) =>
          if str_is (§"session_meta") (jget (§"type") record) then
            match jget (§"payload") record with
            | JObj p => _str_or_none (jor (jget (§"session_id") p) (jget (§"id") p))
            | _ => None
            end
          else None
      | _, _ => None
      end
  | [] => None
  end.

(** [rollout-*-<id>.jsonl]. *)
Definition named_for (sid : pystr) (f : rollout) : bool :=
  let ending := 45 :: sid ++ §".jsonl" in
  starts_with (§"rollout-") (file_name f) && bool_decide (ending `suffix_of` file_name f) &&
  bool_decide (length (§"rollout-") + length ending <= length (file_name f))%nat.
Definition newer (f g : rollout) : bool := negb (Qle_bool (mtime f) (mtime g)).

(** The files in the order of their paths; the slow way looks at the newest first. *)
Definition find_rollout (files : list rollout) (sid : pystr) : option rollout :=
  match last (filter (λ f, named_for sid f = true) files) with
  | Some f => Some f
  | None => head (filter (λ f, _read_meta f = Some sid) (isort (λ f g, negb (newer g f)) files))
  end.
Definition _is_codex_session (files : option (list rollout)) (sid : pystr) : bool :=
  match files with Some l => bool_decide (is_Some (find_rollout l sid)) | None => false end.

(** ** The whole session *)

(** The lines of a file that are objects, each with its number. *)
Definition record_at (line : nat) (raw : pystr) : option (nat * jdict) :=
  match strip raw with
  | [] => None
  | t => match json_loads t with Some (JObj d) => Some (line, d) | _ => None end
  end.
Definition records_of (text : pystr) : list (nat * jdict) := omap (λ x, x) (imap record_at (splitlines text)).

Fixpoint drafts_from (records : list (nat * jdict)) (turn : option pystr) : res (list _Draft) :=
  match records with
  | [] => Ok []
  | (line, record) :: records =>
      '(produced, turn) ← _drafts_for record line turn;
      rest ← drafts_from records turn;
      Ok (produced ++ rest)
  end.

Definition record_of_draft (session : pystr) (index : nat) (d : _Draft) : UnifiedRecord :=
  {| id := draft_id d; session_id := session; group_id := draft_group d; seq := index; ts := draft_ts d; kind := draft_kind d;
     agent_path := []; payload := draft_payload d; raw_available := draft_raw d |}.

Definition translate_session (files : list rollout) (session : pystr) : res (list UnifiedRecord) :=
  match find_rollout files session with
  | None => Ok []
  | Some f =>
      drafts ← drafts_from (records_of (content f)) None;
      map_res __post_init__ (imap (record_of_draft session) drafts)
  end.

Definition codex_to_unified (files : list rollout) (session : pystr) (after limit : nat) (tail : bool) : res (list UnifiedRecord) :=
  records ← translate_session files session;
  Ok (if tail then (if decide (limit < length records)%nat then last_n limit records else records) else take limit (drop after records)).

Fixpoint raw_from (record_id : pystr) (records : list (nat * jdict)) (turn : option pystr) : res (option jdict) :=
  match records with
  | [] => Ok None
  | (line, record) :: records =>
      '(produced, turn) ← _drafts_for record line turn;
      match head (filter (λ d, draft_id d = record_id) produced) with
      | Some d => Ok (if draft_raw d then Some record else None)
      | None => raw_from record_id records turn
      end
  end.
Definition codex_read_raw (files : list rollout) (session record_id : pystr) : res (option jdict) :=
  match find_rollout files session with None => Ok None | Some f => raw_from record_id (records_of (content f)) None end.

Definition CodexRecordAdapter (files : list rollout) : RecordAdapter :=
  {| read_page := codex_to_unified files; read_one := codex_read_raw files |}.

(** ** Pages *)

Lemma post_init_inv r r' : __post_init__ r = Ok r' → r' = r.
Proof. unfold __post_init__. destruct (_ && _); [done|]. by intros [= ->]. Qed.

#[export] Instance codex_paged files : Paged (CodexRecordAdapter files) (translate_session files).
Proof.
  split.
  - intros session l k r. unfold translate_session. destruct (find_rollout _ _) as [f|]; [|by intros [= <-]].
    destruct (drafts_from _ _) as [ds|]; [|done]. cbn. intros Hl%map_res_Forall2 Hk.
    destruct (Forall2_lookup_r _ _ _ _ _ Hl Hk) as (r0 & Hr0 & E). apply post_init_inv in E as ->.
    rewrite list_lookup_imap in Hr0. destruct (ds !! k); [|done]. by injection Hr0 as <-.
  - intros session after limit _. cbn. unfold codex_to_unified. by destruct (translate_session _ _).
  - intros session after limit. cbn. unfold codex_to_unified. destruct (translate_session _ _) as [l|]; [|done]. cbn. f_equal.
    case_decide; [done|]. destruct limit; [done|]. cbn [last_n]. by replace (length l - S limit)%nat with 0%nat by lia.
Qed.

(** The registry the module leaves behind, over the sessions there are; opencode's
    adapter is any. *)
Definition registered (projects : list (dict pystr session_file)) (other : RecordAdapter) (files : list rollout)
    : dict RecordFamily RecordAdapter :=
  register_adapter codex (CodexRecordAdapter files)
    (register_adapter opencode other (register_adapter claude_code (ClaudeCodeRecordAdapter projects) [])).
(** ** A raw line that holds an error *)

Lemma res_bind_ok {A B} (x : res A) (k : A → res B) b : x ≫= k = Ok b → ∃ a, x = Ok a ∧ k a = Ok b.
Proof. destruct x as [a|]; [|done]. cbn. eauto. Qed.

Definition failed_task (record : jdict) : Prop :=
  jget (§"type") record = JStr (§"event_msg") ∧
  jget (§"type") (_as_dict (jget (§"payload") record)) = JStr (§"task_complete") ∧
  truthy (jget (§"error") (_as_dict (jget (§"payload") record))) = true.

Lemma failed_task_drafts record line turn ds turn' : failed_task record → _drafts_for record line turn = Ok (ds, turn') →
  ∃ finish err, ds = [finish; err] ∧ draft_id finish = cx line ∧ draft_raw finish = true ∧ draft_kind err = error_kind.
Proof.
  intros (Ho & Hi & He). unfold _drafts_for. rewrite Ho, Hi. cbv zeta. cbn [str_is].
  rewrite (bool_decide_false (§"event_msg" = _)), (bool_decide_true (§"event_msg" = _)), (bool_decide_false (§"task_complete" = _)),
    (bool_decide_true (§"task_complete" = _)), He by done.
  intros (m & _ & E)%res_bind_ok. injection E as <- <-. eexists _, _. split; done.
Qed.

Lemma drafts_from_app pre rest : ∀ turn ds, drafts_from (pre ++ rest) turn = Ok ds →
  ∃ before after turn', drafts_from pre turn = Ok before ∧ drafts_from rest turn' = Ok after ∧ ds = before ++ after ∧
    ∀ i, Forall (λ d, draft_id d ≠ i) before → raw_from i (pre ++ rest) turn = raw_from i rest turn'.
Proof.
  induction pre as [|[line record] pre IH]; intros turn ds; cbn [app drafts_from raw_from].
  { intros E. by exists [], ds, turn. }
  intros ([produced turn1] & E1 & (rest' & E2 & [= <-])%res_bind_ok)%res_bind_ok. rewrite E1. cbn.
  destruct (IH _ _ E2) as (before & after & turn' & E3 & E4 & -> & Hraw). exists (produced ++ before), after, turn'.
  rewrite E3. split; [done|]. split; [done|]. split; [by rewrite (assoc_L app)|]. intros i [Hp Hb]%Forall_app.
  replace (filter (λ d, draft_id d = i) produced) with (@nil _Draft); [by apply Hraw|].
  symmetry. clear -Hp. induction Hp as [|d l Hd _ IH]; [done|]. by rewrite filter_cons_False.
Qed.

(** The raw line of a codex error is served after all: a task that ends in an error
    is one line and two records, and under the name of the first of them the workbench
    hands out the line with the error in it. *)
Theorem codex_error_line_served projects other files session f pre line record post l before :
  let is_codex := _is_codex_session (Some files) in let adapters := registered projects other files in
  detect_family is_codex session = Ok codex → find_rollout files session = Some f →
  records_of (content f) = pre ++ (line, record) :: post → failed_task record → translate_session files session = Ok l →
  drafts_from pre None = Ok before → Forall (λ d, draft_id d ≠ cx line) before →
  read_workbench_record_raw is_codex adapters (cx line) session = Ok record ∧
  ∃ r, r ∈ l ∧ kind r = error_kind.
Proof.
  intros is_codex adapters Hd Hf Hrec Hfail Hl Hpre Hbefore. unfold translate_session in Hl. rewrite Hf in Hl.
  apply res_bind_ok in Hl as (ds & Eds & Hl). rewrite Hrec in Eds.
  destruct (drafts_from_app _ _ _ _ Eds) as (before' & after & turn & E1 & E2 & -> & Hraw). rewrite Hpre in E1. injection E1 as <-.
  cbn [drafts_from] in E2. apply res_bind_ok in E2 as ([produced turn1] & Ed & (rest & _ & [= <-])%res_bind_ok).
  destruct (failed_task_drafts _ _ _ _ _ Hfail Ed) as (finish & err & -> & Hid & Hr & Hk). split.
  - assert (codex_read_raw files session (cx line) = Ok (Some record)) as E.
    { unfold codex_read_raw. rewrite Hf, Hrec, (Hraw _ Hbefore). cbn [raw_from]. rewrite Ed. cbn -[cx].
      rewrite decide_True by done. cbn -[cx]. by rewrite Hr. }
    unfold read_workbench_record_raw, read_raw. rewrite Hd.
    change (_ ≫= _) with (codex_read_raw files session (cx line)). by rewrite E.
  - apply map_res_Forall2 in Hl. destruct (Forall2_lookup_l _ _ _ (S (length before)) (record_of_draft session (S (length before)) err) Hl) as (r & Hr' & E).
    { rewrite list_lookup_imap, lookup_app_r by lia. by replace (S (length before) - length before)%nat with 1%nat by lia. }
    apply post_init_inv in E as ->. exists (record_of_draft session (S (length before)) err). split; [|done].
    by apply list_elem_of_lookup_2 in Hr'.
Qed.
End codex.

(** ** Witnesses *)

Module CodexDemo.
Import TranscriptDemo.

Definition cid : pystr := §"11111111-1111-1111-1111-111111111111".
Definition begun : jdict := [(§"type", JStr (§"session_meta")); (§"payload", JObj [(§"session_id", JStr cid)])].
Definition failed : jdict :=
  [(§"type", JStr (§"event_msg"));
   (§"payload", JObj [(§"type", JStr (§"task_complete")); (§"error", JObj [(§"message", JStr (§"401")); (§"cookie", JStr (§"secret"))])])].
Definition asked (t : pystr) : jdict :=
  [(§"type", JStr (§"event_msg")); (§"payload", JObj [(§"type", JStr (§"user_message")); (§"message", JStr t)])].

Definition rollout_of (rows : list jdict) : rollout :=
  {| file_name := §"rollout-1-" ++ cid ++ §".jsonl"; mtime := 0%Q; content := concat (map (λ d, dump (JObj d) ++ [10]) rows) |}.
Definition failing : rollout := rollout_of [begun; failed].
Definition none_other : RecordAdapter := {| read_page _ _ _ _ := Ok []; read_one _ _ := Ok None |}.

Lemma reads_failing : records_of (content failing) = [(0%nat, begun)] ++ (1%nat, failed) :: [].
Proof. vm_compute. reflexivity. Qed.
Lemma failed_indeed : failed_task failed.
Proof. repeat split; reflexivity. Qed.

Lemma codex_error_line_served_witness :
  read_workbench_record_raw (_is_codex_session (Some [failing])) (registered projects none_other [failing]) (§"cx1") cid = Ok failed.
Proof.
  refine (proj1 (codex_error_line_served projects none_other [failing] cid failing [(0%nat, begun)] 1 failed [] _ _
    _ _ reads_failing failed_indeed _ _ _)); [vm_compute; reflexivity..|].
  repeat constructor; done.
Defined.

(** A line is cut where its text has a line separator, which JSON need not escape, and
    neither half is read. *)
Lemma separator_loses_message :
  map kind (match translate_session [rollout_of [asked (§"one"); asked (§"two" ++ [8232] ++ §"three"); asked (§"four")]] cid with Ok l => l | _ => [] end) =
    [user_say; user_say].
Proof. vm_compute. reflexivity. Qed.
End CodexDemo.
