(* ===== verification/OpencodeRecords.v ===== *)
(** * Opencode sessions as the same records

    session/adapters/opencode_records.py, with the query of session/opencode_store.py it
    rests on: the third adapter of the workbench's reader, over the tables of opencode's
    database.  The columns of the tables have the types opencode declares, and SQLite
    reads a JSON text as Python does. *)

From Stdlib Require Import QArith.
From stdpp Require Import prelude list strings.
From S2P Require Import Prelude PyStr Json JsonText Transcripts CodexRecords.

Local Open Scope N_scope.

Definition _STEP_PART_TYPES : list pystr := [§"step-start"; §"step-finish"].
Definition _OC_TOOL_FAMILIES : dict pystr pystr :=
  [(§"bash", §"shell"); (§"shell", §"shell"); (§"read", §"file-read"); (§"list", §"file-read"); (§"edit", §"file-write");
   (§"write", §"file-write"); (§"patch", §"file-write"); (§"multiedit", §"file-write"); (§"glob", §"search"); (§"grep", §"search");
   (§"webfetch", §"web"); (§"websearch", §"web"); (§"task", §"agent"); (§"todowrite", §"todo"); (§"todoread", §"todo");
   (§"question", §"ask")].
Definition _TOOL_SUBAGENT : pystr := §"task".
Definition _TOOL_TODO : pystr := §"todowrite".
Definition _DENIED_MARKER : pystr := §"rejected permission".
Definition _ABORTED_ERROR_NAME : pystr := §"MessageAbortedError".
Definition _SENSITIVE_ERROR_FIELDS : list pystr := [§"responseHeaders"; §"responseBody"].

Record _Envelope := {
  message_id : pystr;
  role : pystr;
  time_created : Z;
  time_completed : option Z;
  error : jdict;
  model_id : option pystr;
  provider_id : option pystr;
  agent : option pystr;
}.

(** Rows of the tables. *)
Record message_row := { m_id : pystr; m_session : pystr; m_created : Z; m_data : pystr }.
Record part_row := { p_id : pystr; p_message : pystr; p_session : pystr; p_created : Z; p_updated : Z; p_data : pystr }.
Record event_row := { e_id : pystr; e_session : pystr; e_type : pystr; e_created : Z; e_seq : Z; e_data : pystr }.
Record database := { messages : list message_row; parts : list part_row; events : list event_row }.

(** A part with the facts about it that the translation uses. *)
Record item := { part : jdict; item_role : json; item_message : pystr; item_created : Z; item_updated : Z; part_id : pystr }.

(** [ORDER BY a ASC, b ASC]. *)
Definition by_time_id {A} (time : A → Z) (name : A → pystr) (x y : A) : bool :=
  (time x <? time y)%Z || ((time x =? time y)%Z && str_leb (name x) (name y)).
Definition by_time {A} (time rank : A → Z) (x y : A) : bool :=
  (time x <? time y)%Z || ((time x =? time y)%Z && (rank x <=? rank y)%Z).

Section opencode.
Context `{Unicode, PyRepr, Quoting, Stamps, FloatText}.

(** A column of JSON text; a broken one is an empty object. *)
Definition _loads (raw : pystr) : jdict := match json_loads raw with Some (JObj d) => d | _ => [] end.

Definition _int_or_none (v : json) : option Z := match v with JInt z => Some z | _ => None end.
Definition int_json (a : option Z) : json := match a with Some z => JInt z | None => JNull end.
Definition _str_or_empty (v : json) : pystr := match v with JStr s => s | _ => [] end.

(** [json_extract]: a truth value is a number, and an object its text. *)
Definition extract (v : json) : json :=
  match v with JBool b => JInt (if b then 1 else 0)%Z | JArr _ | JObj _ => JStr (dump v) | _ => v end.
(** The error column is the text of an object, which [_as_dict] reads back. *)
Definition extract_error (v : json) : jdict := match v with JObj d => d | JStr s => _loads s | _ => [] end.

Definition envelope_of (m : message_row) (v : json) : _Envelope :=
  let d := _as_dict v in
  {| message_id := m_id m;
     role := match extract (jget (§"role") d) with JStr r => r | _ => §"assistant" end;
     time_created := m_created m;
     time_completed := _int_or_none (extract (jget (§"completed") (_as_dict (jget (§"time") d))));
     error := extract_error (jget (§"error") d);
     model_id := _str_or_none (extract (jget (§"modelID") d));
     provider_id := _str_or_none (extract (jget (§"providerID") d));
     agent := _str_or_none (extract (jget (§"agent") d)) |}.

(** A text that is no JSON fails the whole query, which then has no rows. *)
Definition _read_envelopes (db : option database) (session : pystr) : list _Envelope :=
  match db with
  | None => []
  | Some db =>
      let rows := isort (by_time_id m_created m_id) (filter (λ m, m_session m = session) (messages db)) in
      default [] (mapM (λ m, v ← json_loads (m_data m); Some (envelope_of m v)) rows)
  end.

Definition _read_session_events (db : option database) (session : pystr) : list event_row :=
  match db with
  | None => []
  | Some db => isort (by_time e_created e_seq) (filter (λ e, e_session e = session) (events db))
  end.

(** The rows of the join, in order. *)
Definition joined (db : database) (session : pystr) : list (part_row * message_row) :=
  concat (map (λ p, map (pair p) (filter (λ m, m_id m = p_message p) (messages db)))
    (isort (by_time_id p_created p_id) (filter (λ p, p_session p = session) (parts db)))).
Definition item_of (pm : part_row * message_row) : option item :=
  match _loads (p_data pm.1) with
  | [] => None
  | d => Some {| part := d; item_role := jor (jget (§"role") (_loads (m_data pm.2))) (JStr (§"assistant"));
                 item_message := p_message pm.1; item_created := p_created pm.1; item_updated := p_updated pm.1;
                 part_id := p_id pm.1 |}
  end.
Definition session_parts (db : option database) (session : pystr) : list item :=
  match db with None => [] | Some db => omap item_of (joined db session) end.

(** ** Tools *)

Definition oc_tool_family_of (tool_name : pystr) : pystr :=
  let name := str_lower (strip tool_name) in
  if starts_with (§"mcp__") name || starts_with (§"mcp.") name then §"mcp" else default (§"other") (dget name _OC_TOOL_FAMILIES).

Definition _tool_status (state : jdict) : pystr :=
  let metadata := _as_dict (jget (§"metadata") state) in
  if contains _DENIED_MARKER (_str_or_empty (jget (§"error") state)) then §"denied"
  else if is_True (jget (§"interrupted") metadata) then §"interrupted"
  else if str_is (§"error") (jget (§"status") state) then §"error" else §"ok".

Definition _tool_truncation (state : jdict) : pystr * option pystr :=
  let metadata := _as_dict (jget (§"metadata") state) in
  match _str_or_none (jget (§"outputPath") metadata) with
  | Some path => (§"offloaded", Some path)
  | None => (if is_True (jget (§"truncated") metadata) then §"clipped" else §"none", None)
  end.

Definition _tool_duration_ms (state : jdict) : option Z :=
  let time_info := _as_dict (jget (§"time") state) in
  start ← _int_or_none (jget (§"start") time_info);
  end_ ← _int_or_none (jget (§"end") time_info);
  Some (end_ - start)%Z.

Definition _tool_body (state : jdict) (status : pystr) : pystr :=
  match jget (§"output") state with
  | JStr ((_ :: _) as output) => output
  | _ => if decide (status = §"ok") then [] else _str_or_empty (jget (§"error") state)
  end.

Definition dicts (l : list json) : list json := filter (λ v, match v with JObj _ => true | _ => false end = true) l.
Definition _todo_items (state : jdict) : list json :=
  match jget (§"todos") (_as_dict (jget (§"input") state)), jget (§"todos") (_as_dict (jget (§"metadata") state)) with
  | JArr todos, _ => dicts todos
  | _, JArr todos => dicts todos
  | _, _ =>
      let output := _str_or_empty (jget (§"output") state) in
      match strip output, json_loads output with _ :: _, Some (JArr l) => dicts l | _, _ => [] end
  end.

Definition _tool_drafts (p : jdict) (pid : pystr) (t : Z) (group : pystr) : list _Draft :=
  let state := _as_dict (jget (§"state") p) in
  let metadata := _as_dict (jget (§"metadata") state) in
  let tool_name := _str_or_empty (jget (§"tool") p) in
  let call_id := default pid (_str_or_none (jget (§"callID") p)) in
  let args := _as_dict (jget (§"input") state) in
  let title := match jget (§"title") state with JStr s => JStr s | _ => JNull end in
  let status := _tool_status state in
  let '(truncation, ref) := _tool_truncation state in
  let draft i k body := {| draft_id := i; draft_ts := t; draft_kind := k; draft_group := Some group; draft_payload := body; draft_raw := true |} in
  if decide (tool_name = _TOOL_SUBAGENT) then
    [draft pid subagent_dispatch
       [(§"call_id", JStr call_id); (§"tool_name", JStr tool_name); (§"agent_type", jget (§"subagent_type") args);
        (§"description", jget (§"description") args); (§"prompt", jget (§"prompt") args);
        (§"child_session_id", or_null (_str_or_none (jget (§"sessionId") metadata)));
        (§"parent_session_id", or_null (_str_or_none (jget (§"parentSessionId") metadata))); (§"status", JStr status);
        (§"body", JStr (_tool_body state status)); (§"truncation", JStr truncation); (§"truncation_ref", or_null ref);
        (§"duration_ms", int_json (_tool_duration_ms state));
        (§"trace_available", JBool (bool_decide (is_Some (_str_or_none (jget (§"sessionId") metadata))))); (§"title", title)]]
  else if decide (tool_name = _TOOL_TODO) then
    let items := _todo_items state in
    [draft pid todo_snapshot
       [(§"call_id", JStr call_id); (§"tool_name", JStr tool_name); (§"source", JStr (§"agent-write")); (§"items", JArr items);
        (§"item_count", JInt (Z.of_nat (length items))); (§"status", JStr status); (§"title", title)]]
  else
    [draft pid tool_call
       [(§"call_id", JStr call_id); (§"tool_name", JStr tool_name); (§"tool_family", JStr (oc_tool_family_of tool_name));
        (§"args", JObj args); (§"title", title)];
     draft (pid ++ §":result") tool_result
       [(§"call_id", JStr call_id); (§"tool_name", JStr tool_name); (§"tool_family", JStr (oc_tool_family_of tool_name));
        (§"status", JStr status); (§"body", JStr (_tool_body state status)); (§"body_kind", JStr (§"text"));
        (§"truncation", JStr truncation); (§"truncation_ref", or_null ref); (§"duration_ms", int_json (_tool_duration_ms state));
        (§"exit_code", int_json (_int_or_none (jget (§"exit") metadata)));
        (§"raw_output", match jget (§"output") metadata with JStr o => JStr o | _ => JNull end)]] ++
    (if decide (status = §"denied") then
       [draft (pid ++ §":permission") permission_outcome
          [(§"call_id", JStr call_id); (§"tool_name", JStr tool_name); (§"decision", JStr (§"denied"));
           (§"reason", JStr (_str_or_empty (jget (§"error") state))); (§"mode", JNull); (§"source", JStr (§"tool-error-text"))]]
     else []).

(** ** Parts *)

Definition _step_draft (p : jdict) (pid : pystr) (t : Z) (group : pystr) (counts : nat * nat) : _Draft :=
  let phase := if str_is (§"step-start") (jget (§"type") p) then §"start" else §"finish" in
  {| draft_id := pid; draft_ts := t; draft_kind := call_envelope; draft_group := Some group;
     draft_payload :=
       [(§"channel", JStr (§"step-marker")); (§"label", JStr phase); (§"phase", JStr phase);
        (§"snapshot", or_null (_str_or_none (jget (§"snapshot") p))); (§"step_start_count", JInt (Z.of_nat counts.1));
        (§"step_finish_count", JInt (Z.of_nat counts.2)); (§"paired", JBool (Nat.eqb counts.1 counts.2)); (§"unrecognized", JBool false)] ++
       (if decide (phase = §"finish") then
          [(§"finish_reason", or_null (_str_or_none (jget (§"reason") p)));
           (§"tokens", match jget (§"tokens") p with JObj d => JObj d | _ => JNull end); (§"cost", jget (§"cost") p)]
        else []);
     draft_raw := true |}.

Definition _part_drafts (x : item) (e : _Envelope) (counts : nat * nat) : res (list _Draft) :=
  let p := part x in
  let t := item_created x in
  let ptype := jget (§"type") p in
  let text := _str_or_empty (jget (§"text") p) in
  let draft g k body := {| draft_id := part_id x; draft_ts := t; draft_kind := k; draft_group := g; draft_payload := body; draft_raw := true |} in
  let group := Some (message_id e) in
  if str_is (§"text") ptype then
    if truthy (jget (§"synthetic") p) then
      let metadata := _as_dict (jget (§"metadata") p) in
      Ok [draft group context_inject
            [(§"channel", JStr (§"editor-context")); (§"label", JStr (default (§"editor_context") (_str_or_none (jget (§"kind") metadata))));
             (§"body", JStr text); (§"source", or_null (_str_or_none (jget (§"source") metadata)));
             (§"file_path", or_null (_str_or_none (jget (§"filePath") metadata))); (§"unrecognized", JBool false)]]
    else if decide (role e = §"user") then
      Ok [draft None user_say [(§"text", JStr text); (§"input_mode", JNull); (§"agent", or_null (agent e))]]
    else
      Ok [draft group agent_say [(§"text", JStr text); (§"model", or_null (model_id e)); (§"provider", or_null (provider_id e))]]
  else if str_is (§"reasoning") ptype then
    Ok [draft group agent_think [(§"text", JStr text); (§"model", or_null (model_id e)); (§"provider", or_null (provider_id e))]]
  else if str_is (§"tool") ptype then Ok (_tool_drafts p (part_id x) t (message_id e))
  else if str_is (§"file") ptype then
    let source := _as_dict (jget (§"source") p) in
    Ok [draft group media_attach
          [(§"media_type", or_null (_str_or_none (jget (§"mime") p))); (§"display_name", or_null (_str_or_none (jget (§"filename") p)));
           (§"ref", or_null (_str_or_none (jget (§"path") source)));
           (§"bytes", match jget (§"url") p with JStr u => JInt (Z.of_nat (length u)) | _ => JNull end);
           (§"inline", JBool (starts_with (§"data:") (_str_or_empty (jget (§"url") p))))]]
  else if str_is (§"patch") ptype then
    Ok [draft group context_inject
          [(§"channel", JStr (§"diff")); (§"label", JStr (¶"文件改动汇总")); (§"files", JArr (_as_list (jget (§"files") p)));
           (§"hash", or_null (_str_or_none (jget (§"hash") p))); (§"unrecognized", JBool false)]]
  else
    step ← in_frozenset ptype _STEP_PART_TYPES;
    Ok [if step : bool then _step_draft p (part_id x) t (message_id e) counts
        else draft group context_inject
               [(§"channel", JStr (§"unknown")); (§"label", JStr (match ptype with JNull => [] | _ => py_str ptype end)); (§"body", JStr []);
                (§"part_type", ptype); (§"part_keys", JArr (map JStr (isort str_leb (dkeys p)))); (§"unrecognized", JBool true)]].

(** ** Messages *)

(** The last part that is content, from the end. *)
Fixpoint last_content (ps : list item) : res pystr :=
  match ps with
  | [] => Ok (§"unknown")
  | x :: ps =>
      let ptype := jget (§"type") (part x) in
      step ← in_frozenset ptype _STEP_PART_TYPES;
      if step || str_is (§"patch") ptype then last_content ps
      else Ok (if str_is (§"tool") ptype then §"tool-executing"
               else if str_is (§"text") ptype || str_is (§"reasoning") ptype then §"generating" else §"unknown")
  end.
Definition _interrupt_phase (ps : list item) : res pystr := last_content (reverse ps).

Definition _envelope_error_draft (e : _Envelope) (ps : list item) : res (list _Draft) :=
  match error e with
  | [] => Ok []
  | err =>
      let name := default (§"UnknownError") (_str_or_none (jget (§"name") err)) in
      let data := _as_dict (jget (§"data") err) in
      let message := _str_or_empty (jget (§"message") data) in
      let t := default (time_created e) (time_completed e) in
      if decide (name = _ABORTED_ERROR_NAME) then
        phase ← _interrupt_phase ps;
        Ok [{| draft_id := message_id e ++ §":interrupt"; draft_ts := t; draft_kind := interrupt; draft_group := Some (message_id e);
               draft_payload := [(§"target", JStr (message_id e)); (§"phase", JStr phase); (§"reason", JStr message);
                                 (§"source", JStr (§"message-error"))];
               draft_raw := true |}]
      else
        Ok [{| draft_id := message_id e ++ §":error"; draft_ts := t; draft_kind := error_kind; draft_group := Some (message_id e);
               draft_payload :=
                 [(§"scope", JStr (if decide (name = §"APIError") then §"api" else §"engine"));
                  (§"code", JStr (match _int_or_none (jget (§"statusCode") data) with
                                  | Some c => name ++ 58 :: str_of_Z c
                                  | None => name
                                  end));
                  (§"message", JStr message)];
               draft_raw := false |}]
  end.

Definition _event_draft (e : event_row) : _Draft :=
  let data := _loads (e_data e) in
  let '(field, target) :=
    if decide (e_type e = §"agent-switched") then (§"agent", _str_or_none (jget (§"agent") data))
    else if decide (e_type e = §"model-switched") then (§"model", _str_or_none (jget (§"id") (_as_dict (jget (§"model") data))))
    else (match e_type e with [] => §"unknown" | t => t end, None) in
  {| draft_id := e_id e; draft_ts := e_created e; draft_kind := session_state; draft_group := None;
     draft_payload := [(§"field", JStr field); (§"from", JNull); (§"to", or_null target); (§"source", JStr (§"opencode"));
                       (§"event_type", JStr (e_type e))];
     draft_raw := true |}.

Definition _step_counts (ps : list item) : nat * nat :=
  (length (filter (λ x, str_is (§"step-start") (jget (§"type") (part x)) = true) ps),
   length (filter (λ x, str_is (§"step-finish") (jget (§"type") (part x)) = true) ps)).

(** ** The whole session *)

Definition parts_of (items : list item) (m : pystr) : list item := filter (λ x, item_message x = m) items.

(** An envelope for every message of the parts that has none, in the order of the
    parts. *)
Fixpoint fallbacks (known : list pystr) (items : list item) : list _Envelope :=
  match items with
  | [] => []
  | x :: items =>
      if decide (item_message x ∈ known) then fallbacks known items
      else {| message_id := item_message x; role := §"assistant"; time_created := item_created x; time_completed := None; error := [];
              model_id := None; provider_id := None; agent := None |} :: fallbacks (item_message x :: known) items
  end.

Definition message_drafts (items : list item) (e : _Envelope) : res (list _Draft) :=
  let ps := parts_of items (message_id e) in
  ds ← map_res (λ x, _part_drafts x e (_step_counts ps)) ps;
  err ← _envelope_error_draft e ps;
  Ok (concat ds ++ err).

Definition oc_translate_session (db : option database) (session : pystr) : res (list UnifiedRecord) :=
  let items := session_parts db session in
  let envelopes := _read_envelopes db session in
  let envelopes := isort (by_time_id time_created message_id) (envelopes ++ fallbacks (map message_id envelopes) items) in
  let blocks := isort (by_time (λ b : event_row + _Envelope, match b with inl e => e_created e | inr e => time_created e end)
                               (λ b, match b with inl _ => 0%Z | inr _ => 1%Z end))
                  (map inl (_read_session_events db session) ++ map inr envelopes) in
  drafts ← map_res (λ b : event_row + _Envelope, match b with inl e => Ok [_event_draft e] | inr e => message_drafts items e end) blocks;
  map_res __post_init__ (imap (record_of_draft session) (concat drafts)).

(** A limit of zero is none. *)
Definition oc_to_unified (db : option database) (session : pystr) (after limit : nat) (tail : bool) : res (list UnifiedRecord) :=
  records ← oc_translate_session db session;
  Ok (if tail then last_n limit records
      else match limit with O => drop after records | _ => take limit (drop after records) end).

(** ** Raw records *)

Definition _scrub (data : jdict) : jdict :=
  match jget (§"error") data with
  | JObj err =>
      match jget (§"data") err with
      | JObj inner =>
          if existsb (λ k, dmem k inner) _SENSITIVE_ERROR_FIELDS
          then dset (§"error") (JObj (dset (§"data") (JObj (filter (λ kv, kv.1 ∉ _SENSITIVE_ERROR_FIELDS) inner)) err)) data
          else data
      | _ => data
      end
  | _ => data
  end.

Definition oc_read_raw (db : option database) (session record_id : pystr) : option jdict :=
  let '(front, suffix) := partition_on 58 record_id in
  if decide (default [] suffix = §"error") then None
  else
    match head (filter (λ x, part_id x = front) (session_parts db session)), db with
    | Some x, _ =>
        Some [(§"source", JStr (§"part")); (§"part_id", JStr (part_id x)); (§"message_id", JStr (item_message x));
              (§"time_created", JInt (item_created x)); (§"time_updated", JInt (item_updated x)); (§"role", item_role x);
              (§"data", JObj (part x))]
    | None, None => None
    | None, Some db =>
        match head (filter (λ m, m_id m = front ∧ m_session m = session) (messages db)) with
        | Some m => Some [(§"source", JStr (§"message")); (§"message_id", JStr (m_id m)); (§"time_created", JInt (m_created m));
                          (§"data", JObj (_scrub (_loads (m_data m))))]
        | None =>
            e ← head (filter (λ e, e_id e = front ∧ e_session e = session) (events db));
            Some [(§"source", JStr (§"session_message")); (§"event_id", JStr (e_id e)); (§"event_type", JStr (e_type e));
                  (§"time_created", JInt (e_created e)); (§"data", JObj (_loads (e_data e)))]
        end
    end.

Definition OpencodeRecordAdapter (db : option database) : RecordAdapter :=
  {| read_page := oc_to_unified db; read_one session i := Ok (oc_read_raw db session i) |}.

(** ** Pages *)

#[export] Instance opencode_paged db : Paged (OpencodeRecordAdapter db) (oc_translate_session db).
Proof.
  split.
  - intros session l k r. unfold oc_translate_session. intros (ds & _ & Hl%map_res_Forall2)%res_bind_ok Hk.
    destruct (Forall2_lookup_r _ _ _ _ _ Hl Hk) as (r0 & Hr0 & E). apply post_init_inv in E as ->.
    rewrite list_lookup_imap in Hr0. destruct (concat ds !! k); [|done]. by injection Hr0 as <-.
  - intros session after limit Hlt. cbn. unfold oc_to_unified. destruct (oc_translate_session _ _); [|done]. cbn. by destruct limit; [lia|].
  - intros session after limit. cbn. unfold oc_to_unified. by destruct (oc_translate_session _ _).
Qed.

Definition whole_session projects (db : option database) files (family : RecordFamily) (session : pystr) : res (list UnifiedRecord) :=
  match family with
  | claude_code => claude_whole projects session
  | opencode => oc_translate_session db session
  | codex => translate_session files session
  end.

(** C25. Reading a session page by page, of whichever program it is and whatever the size
    of the pages, gives exactly its translation, and its tail is the end of it; where the
    translation raises, so does every page. *)
Theorem pages_are_whole projects db files family session limit :
  let is_codex := _is_codex_session (Some files) in let adapters := registered projects (OpencodeRecordAdapter db) files in
  detect_family is_codex session = Ok family →
  (∀ l, whole_session projects db files family session = Ok l →
    read_all (S (length l)) is_codex adapters session 0 limit = Ok l ∧
    read_records is_codex adapters session 0 limit true = Ok (last_n (Z.to_nat (Z.min (Z.max limit 1) MAX_LIMIT)) l)) ∧
  (∀ e after tail, whole_session projects db files family session = Raise e →
    read_records is_codex adapters session after limit tail = Raise e).
Proof.
  intros is_codex adapters Hd.
  assert (∃ a, dget family adapters = Some a ∧ Paged a (whole_session projects db files family)) as (a & Ha & Hp).
  { destruct family; eexists; (split; [reflexivity|]); [apply claude_paged|apply opencode_paged|apply codex_paged]. }
  split; [intros l Hl; split|intros e after tail He].
  - apply (read_all_drop is_codex adapters a _ session family l limit Hd Ha Hl (S (length l)) 0). lia.
  - exact (read_tail is_codex adapters a _ session family l 0 limit Hd Ha Hl).
  - unfold read_records, get_adapter, mbind, res_bind. rewrite Hd, Ha. destruct tail.
    + rewrite (tail_is_end (a := a)), He. done.
    + rewrite (page_is_slice (a := a)), He; [done|]. unfold MAX_LIMIT. lia.
Qed.

(** ** Nothing is lost *)

Lemma part_drafts_first x e counts ds : _part_drafts x e counts = Ok ds → ∃ d, d ∈ ds ∧ draft_id d = part_id x.
Proof.
  unfold _part_drafts. cbv zeta.
  destruct (str_is (§"text") _); [destruct (truthy _); [|case_decide]; intros [= <-]; eexists; (split; [left|done])|].
  destruct (str_is (§"reasoning") _); [intros [= <-]; eexists; (split; [left|done])|].
  destruct (str_is (§"tool") _).
  { intros [= <-]. unfold _tool_drafts. destruct (_tool_truncation _). repeat case_decide; (eexists; split; [left|done]). }
  destruct (str_is (§"file") _); [intros [= <-]; eexists; (split; [left|done])|].
  destruct (str_is (§"patch") _); [intros [= <-]; eexists; (split; [left|done])|].
  intros (step & _ & [= <-])%res_bind_ok. eexists. split; [left|]. by destruct step.
Qed.

Lemma fallbacks_cover items : ∀ known x, x ∈ items → item_message x ∈ known ++ map message_id (fallbacks known items).
Proof.
  induction items as [|y items IH]; intros known x; [by intros ?%elem_of_nil|]. cbn [fallbacks].
  intros [->|Hx]%elem_of_cons; case_decide as Hk; apply elem_of_app.
  - by left.
  - right. left.
  - by apply elem_of_app, IH.
  - specialize (IH (item_message y :: known) x Hx). apply elem_of_cons in IH as [->|IH]; [right; left|].
    apply elem_of_app in IH as [?|?]; [by left|by do 2 right].
Qed.

Lemma produced_in {A B} (P : B → Prop) (f : A → res (list B)) l ys x : map_res f l = Ok ys → x ∈ l →
  (∀ zs, f x = Ok zs → ∃ y, y ∈ zs ∧ P y) → ∃ y, y ∈ concat ys ∧ P y.
Proof.
  intros Hl%map_res_Forall2 [i Hi]%list_elem_of_lookup Hy. destruct (Forall2_lookup_l _ _ _ _ _ Hl Hi) as (zs & Hzs & E).
  destruct (Hy zs E) as (y & Hin & HP). exists y. split; [|exact HP]. apply list_elem_of_In, in_concat. exists zs.
  split; apply list_elem_of_In; [by apply list_elem_of_lookup_2 in Hzs|exact Hin].
Qed.

Lemma message_shows items e ds x : message_drafts items e = Ok ds → x ∈ items → item_message x = message_id e →
  ∃ d, d ∈ ds ∧ draft_id d = part_id x.
Proof.
  intros (pss & Eps & (err & _ & [= <-])%res_bind_ok)%res_bind_ok Hx Hm.
  destruct (produced_in (λ d, draft_id d = part_id x) _ _ _ x Eps) as (d & Hin & Hd).
  - by apply list_elem_of_filter.
  - intros zs E. by apply part_drafts_first in E.
  - exists d. split; [|exact Hd]. apply elem_of_app. by left.
Qed.

Lemma joined_item db session p m : p ∈ parts db → p_session p = session → m ∈ messages db → m_id m = p_message p → _loads (p_data p) ≠ [] →
  ∃ x, x ∈ session_parts (Some db) session ∧ part_id x = p_id p.
Proof.
  intros Hp Hs Hm Hid Hd. assert (∃ x, item_of (p, m) = Some x ∧ part_id x = p_id p) as (x & Ex & Hx)
    by (unfold item_of; cbn; destruct (_loads (p_data p)); [done|by eexists]).
  exists x. split; [|exact Hx]. apply list_elem_of_omap. exists (p, m). split; [|exact Ex].
  apply list_elem_of_In, in_concat. eexists. split; apply list_elem_of_In.
  - apply (list_elem_of_fmap (λ p, map (pair p) (filter (λ m, m_id m = p_message p) (messages db)))). exists p. split; [reflexivity|].
    rewrite isort_perm. by apply list_elem_of_filter.
  - apply (list_elem_of_fmap_2 (pair p)). by apply list_elem_of_filter.
Qed.

(** The envelope an item is shown under. *)
Lemma item_envelope db session x : x ∈ session_parts (Some db) session → ∃ e, message_id e = item_message x ∧
  e ∈ _read_envelopes (Some db) session ++ fallbacks (map message_id (_read_envelopes (Some db) session)) (session_parts (Some db) session).
Proof.
  intros Hx. pose proof (fallbacks_cover _ (map message_id (_read_envelopes (Some db) session)) x Hx) as Hc.
  rewrite <- map_app in Hc. apply list_elem_of_fmap in Hc as (e & He & Hin). by exists e.
Qed.

(** ** Raw messages with an error *)

Lemma part_drafts_no_error x e counts ds d : _part_drafts x e counts = Ok ds → d ∈ ds → draft_kind d ≠ error_kind.
Proof.
  assert (∀ d0 : _Draft, draft_kind d0 ≠ error_kind → d ∈ [d0] → draft_kind d ≠ error_kind) as Hone
    by (by intros d0 Hd ->%list_elem_of_singleton).
  unfold _part_drafts. cbv zeta.
  destruct (str_is (§"text") _); [destruct (truthy _); [|case_decide]; intros [= <-]; by apply Hone|].
  destruct (str_is (§"reasoning") _); [intros [= <-]; by apply Hone|].
  destruct (str_is (§"tool") _).
  { intros [= <-]. unfold _tool_drafts. destruct (_tool_truncation _). repeat case_decide; try (by apply Hone); cbn [app];
      repeat (intros [->|Hd]%elem_of_cons; [done|revert Hd]); by intros ?%elem_of_nil. }
  destruct (str_is (§"file") _); [intros [= <-]; by apply Hone|].
  destruct (str_is (§"patch") _); [intros [= <-]; by apply Hone|].
  intros (step & _ & [= <-])%res_bind_ok. apply Hone. by destruct step.
Qed.

Lemma produced_from {A B} (f : A → res (list B)) l ys y : map_res f l = Ok ys → y ∈ concat ys → ∃ x zs, x ∈ l ∧ f x = Ok zs ∧ y ∈ zs.
Proof.
  intros Hl%map_res_Forall2 (zs & Hzs & Hy)%list_elem_of_In%in_concat. apply list_elem_of_In, list_elem_of_lookup in Hzs as [i Hi].
  destruct (Forall2_lookup_r _ _ _ _ _ Hl Hi) as (x & Hx & E). exists x, zs.
  split; [by apply list_elem_of_lookup_2 in Hx|]. split; [exact E|by apply list_elem_of_In].
Qed.

(** An error is that of an envelope, and named after its message. *)
Lemma message_error items e ds d : message_drafts items e = Ok ds → d ∈ ds → draft_kind d = error_kind →
  draft_id d = message_id e ++ §":error" ∧ error e ≠ [].
Proof.
  intros (pss & Eps & (err & Eerr & [= <-])%res_bind_ok)%res_bind_ok [Hin|Hin]%elem_of_app Hk.
  - destruct (produced_from _ _ _ _ Eps Hin) as (x & zs & _ & E & Hd). by apply (part_drafts_no_error _ _ _ _ _ E) in Hd.
  - unfold _envelope_error_draft in Eerr. destruct (error e) eqn:Ee; [injection Eerr as <-; by apply elem_of_nil in Hin|].
    revert Eerr. case_decide.
    + intros (ph & _ & [= <-])%res_bind_ok. apply list_elem_of_singleton in Hin as ->. done.
    + intros [= <-]. apply list_elem_of_singleton in Hin as ->. split; done.
Qed.

(** ** Every translation ends *)

(** No list or object stands where the kind of a part does. *)
Definition plain_parts (db : database) (session : pystr) : Prop :=
  ∀ p, p ∈ parts db → p_session p = session → set_member (jget (§"type") (_loads (p_data p))) = true.

Lemma session_part db session x : x ∈ session_parts (Some db) session →
  ∃ p, p ∈ parts db ∧ p_session p = session ∧ part x = _loads (p_data p).
Proof.
  intros ([p m] & Hin & Ex)%list_elem_of_omap. exists p.
  apply list_elem_of_In, in_concat in Hin as (l & Hl%list_elem_of_In & Hin%list_elem_of_In).
  apply (list_elem_of_fmap (λ p, map (pair p) (filter (λ m, m_id m = p_message p) (messages db)))) in Hl as (q & -> & Hq).
  apply (list_elem_of_fmap (pair q)) in Hin as (m' & [= -> ->] & _). rewrite isort_perm in Hq.
  apply list_elem_of_filter in Hq as [Hs Hp]. split; [done|]. split; [done|]. revert Ex. unfold item_of. cbn.
  destruct (_loads (p_data q)); [done|]. by intros [= <-].
Qed.

Lemma part_drafts_end x e counts : set_member (jget (§"type") (part x)) = true → ∃ ds, _part_drafts x e counts = Ok ds.
Proof.
  intros Hx. unfold _part_drafts. cbv zeta. destruct (str_is (§"text") _); [destruct (truthy _); [|case_decide]; by eexists|].
  do 4 (destruct (str_is _ _); [by eexists|]). destruct (in_frozenset_ends _ _STEP_PART_TYPES Hx) as [b ->]. by eexists.
Qed.
Lemma last_content_ends ps : Forall (λ x, set_member (jget (§"type") (part x)) = true) ps → ∃ t, last_content ps = Ok t.
Proof.
  induction 1 as [|x ps Hx _ IH]; cbn [last_content]; [by eexists|]. cbv zeta.
  destruct (in_frozenset_ends _ _STEP_PART_TYPES Hx) as [b ->]. cbn. destruct (_ || _); [done|by eexists].
Qed.
Lemma error_draft_ends e ps : Forall (λ x, set_member (jget (§"type") (part x)) = true) ps → ∃ ds, _envelope_error_draft e ps = Ok ds.
Proof.
  intros Hps. unfold _envelope_error_draft. destruct (error e); [by eexists|]. case_decide; [|by eexists]. unfold _interrupt_phase.
  destruct (last_content_ends (reverse ps)) as [t ->]; [by apply Forall_reverse|by eexists].
Qed.
Lemma message_drafts_end items e : Forall (λ x, set_member (jget (§"type") (part x)) = true) items → ∃ ds, message_drafts items e = Ok ds.
Proof.
  intros Hi. assert (Forall (λ x, set_member (jget (§"type") (part x)) = true) (parts_of items (message_id e))) as Hps.
  { rewrite Forall_forall in Hi |- *. intros x [_ Hx]%list_elem_of_filter. by apply Hi. }
  unfold message_drafts. destruct (map_res_total (λ x, _part_drafts x e (_step_counts (parts_of items (message_id e)))) (parts_of items (message_id e))) as [ds ->].
  { intros x Hx. apply part_drafts_end. by apply (proj1 (Forall_forall _ _) Hps). }
  cbn. destruct (error_draft_ends e _ Hps) as [err ->]. by eexists.
Qed.

(** An error among the drafts does not offer its raw line. *)
Lemma message_error_raw items e ds d : message_drafts items e = Ok ds → d ∈ ds → draft_kind d = error_kind → draft_raw d = false.
Proof.
  intros (pss & Eps & (err & Eerr & [= <-])%res_bind_ok)%res_bind_ok [Hin|Hin]%elem_of_app Hk.
  - destruct (produced_from _ _ _ _ Eps Hin) as (x & zs & _ & E & Hd). by apply (part_drafts_no_error _ _ _ _ _ E) in Hd.
  - revert Eerr. unfold _envelope_error_draft. destruct (error e); [intros [= <-]; by apply elem_of_nil in Hin|]. case_decide.
    + intros (ph & _ & [= <-])%res_bind_ok. by apply list_elem_of_singleton in Hin as ->.
    + intros [= <-]. by apply list_elem_of_singleton in Hin as ->.
Qed.

Lemma opencode_ends db session : plain_parts db session → ∃ l, oc_translate_session (Some db) session = Ok l.
Proof.
  intros Hp. unfold oc_translate_session. cbv zeta. set (items := session_parts (Some db) session).
  assert (Forall (λ x, set_member (jget (§"type") (part x)) = true) items) as Hi.
  { apply Forall_forall. intros x (p & Hin & Hs & ->)%session_part. by apply Hp. }
  set (f := λ b : event_row + _Envelope, match b with inl e => Ok [_event_draft e] | inr e => message_drafts items e end).
  set (blocks := isort _ _). destruct (map_res_total f blocks) as [drafts E].
  { intros [e|e] _; cbn; [by eexists|]. by apply message_drafts_end. }
  rewrite E. cbn. apply map_res_total. intros r [k Hk]%list_elem_of_lookup. rewrite list_lookup_imap in Hk.
  destruct (concat drafts !! k) as [d|] eqn:Ed; [|done]. injection Hk as <-. unfold __post_init__. cbn.
  case_bool_decide as Hd; [|by eexists]. apply list_elem_of_lookup_2 in Ed. destruct (produced_from _ _ _ _ E Ed) as ([e|e] & zs & _ & Ez & Hz).
  - injection Ez as <-. apply list_elem_of_singleton in Hz as ->. revert Hd. unfold _event_draft. repeat case_decide; done.
  - rewrite (message_error_raw _ _ _ _ Ez Hz Hd). by eexists.
Qed.

(** C31. Every part of an opencode session is shown: the session is translated, unless a
    list or an object stands where the kind of a part does, and a part that is an object,
    of a message there is, becomes a record under its own id, also if the message is
    another session's or the kind of the part is unknown. *)
Theorem every_part_shown db session : plain_parts db session →
  ∃ l, oc_translate_session (Some db) session = Ok l ∧ ∀ p m, p ∈ parts db → p_session p = session →
    m ∈ messages db → m_id m = p_message p → _loads (p_data p) ≠ [] → ∃ r, r ∈ l ∧ id r = p_id p.
Proof.
  intros Hplain. destruct (opencode_ends db session Hplain) as [l Hl]. exists l. split; [exact Hl|]. intros p m Hp Hs Hm Hid Hd.
  destruct (joined_item db session p m Hp Hs Hm Hid Hd) as (x & Hx & <-).
  destruct (item_envelope _ _ _ Hx) as (e & He & Hin). unfold oc_translate_session in Hl.
  apply res_bind_ok in Hl as (drafts & Hdr & Hl). set (items := session_parts (Some db) session) in *.
  destruct (produced_in (λ d, draft_id d = part_id x) _ _ _ (inr e) Hdr) as (d & Hdin & Hdid).
  { rewrite isort_perm. apply elem_of_app. right. apply (list_elem_of_fmap_2 inr). by rewrite isort_perm. }
  { intros ds E. by apply (message_shows items e). }
  apply list_elem_of_lookup in Hdin as [k Hk]. apply map_res_Forall2 in Hl.
  destruct (Forall2_lookup_l _ _ _ k (record_of_draft session k d) Hl) as (r & Hr & E); [by rewrite list_lookup_imap, Hk|].
  apply post_init_inv in E as ->. eexists. split; [exact (list_elem_of_lookup_2 _ _ _ Hr)|exact Hdid].
Qed.

Lemma fallbacks_no_error items : ∀ known e, e ∈ fallbacks known items → error e = [].
Proof.
  induction items as [|x items IH]; intros known e; cbn; [by intros ?%elem_of_nil|]. case_decide; [apply IH|].
  intros [->|?]%elem_of_cons; [done|by eapply IH].
Qed.
Lemma envelope_ids db session e : e ∈ _read_envelopes (Some db) session → ∃ m, m ∈ messages db ∧ message_id e = m_id m.
Proof.
  unfold _read_envelopes. destruct (mapM _ _) as [l|] eqn:E; [|by intros ?%elem_of_nil]. cbn.
  intros [i Hi]%list_elem_of_lookup. apply mapM_Some in E. destruct (Forall2_lookup_r _ _ _ _ _ E Hi) as (m & Hm & Em).
  apply list_elem_of_lookup_2 in Hm. rewrite isort_perm in Hm. apply list_elem_of_filter in Hm as [_ Hm].
  apply bind_Some in Em as (v & _ & [= <-]). by exists m.
Qed.

Lemma error_record_id db session l r : oc_translate_session (Some db) session = Ok l → r ∈ l → kind r = error_kind →
  ∃ m, m ∈ messages db ∧ id r = m_id m ++ §":error".
Proof.
  intros (drafts & Hdr & Hl%map_res_Forall2)%res_bind_ok [k Hk]%list_elem_of_lookup Hkind.
  destruct (Forall2_lookup_r _ _ _ _ _ Hl Hk) as (r0 & Hr0 & ->%post_init_inv). rewrite list_lookup_imap in Hr0.
  destruct (concat drafts !! k) as [d|] eqn:Ed; [|done]. injection Hr0 as <-. apply list_elem_of_lookup_2 in Ed.
  destruct (produced_from _ _ _ _ Hdr Ed) as ([ev|e] & zs & Hb & E & Hd).
  { injection E as <-. apply list_elem_of_singleton in Hd as ->. exfalso. revert Hkind. cbn. unfold _event_draft. repeat case_decide; done. }
  destruct (message_error _ _ _ _ E Hd Hkind) as [Hid He]. rewrite isort_perm in Hb. apply elem_of_app in Hb as [Hb|Hb].
  { by apply list_elem_of_fmap in Hb as (? & ? & _). }
  apply list_elem_of_fmap in Hb as (e' & [= <-] & Hb). rewrite isort_perm in Hb. apply elem_of_app in Hb as [Hb|Hb].
  - destruct (envelope_ids _ _ _ Hb) as (m & Hm & Em). exists m. split; [done|]. rewrite <- Em. exact Hid.
  - by apply fallbacks_no_error in Hb.
Qed.

(** The error of a message's data, if any, has neither the headers nor the body of the
    response. *)
Definition sealed (data : jdict) : Prop := ∀ err inner,
  dget (§"error") data = Some (JObj err) → dget (§"data") err = Some (JObj inner) →
  dget (§"responseHeaders") inner = None ∧ dget (§"responseBody") inner = None.

Lemma filter_out_get (l : list pystr) k (d : jdict) : k ∈ l → dget k (filter (λ kv, kv.1 ∉ l) d) = None.
Proof.
  intros Hk. apply dget_None. intros (kv & -> & Hin)%list_elem_of_fmap. apply list_elem_of_filter in Hin as [Hn _]. done.
Qed.
Lemma scrub_sealed data : sealed (_scrub data).
Proof.
  intros err inner. unfold _scrub. destruct (jget (§"error") data) as [| | | | | |err0] eqn:Ee;
    try (intros He; apply dget_jget in He; congruence).
  destruct (jget (§"data") err0) as [| | | | | |inner0] eqn:Ed;
    try (intros He Hd; apply dget_jget in He, Hd; congruence).
  destruct (existsb (λ k, dmem k inner0) _SENSITIVE_ERROR_FIELDS) eqn:Ex.
  - rewrite dget_dset_eq. intros [= <-]. rewrite dget_dset_eq. intros [= <-].
    split; apply filter_out_get; [left|right; left].
  - intros He Hd. apply dget_jget in He, Hd. assert (err = err0) as -> by congruence. assert (inner = inner0) as -> by congruence.
    cbn in Ex. unfold dmem in Ex. by destruct (dget (§"responseHeaders") inner0), (dget (§"responseBody") inner0).
Qed.

Lemma partition_error (i : pystr) : 58 ∉ i → partition_on 58 (i ++ §":error") = (i, Some (§"error")).
Proof.
  induction i as [|c i IH]; [done|]. intros Hn. cbn [app partition_on].
  destruct (58 =? c) eqn:E; [apply N.eqb_eq in E as <-; exfalso; apply Hn; left|].
  rewrite IH; [done|]. intros Hi. apply Hn. by right.
Qed.

(** C39. What went wrong with a request stays inside.  In a session of opencode whose
    message ids have no colon, asking the workbench for the raw text of a record of an
    error is refused (403), and the data of a message that is read raw under whatever id
    has no headers and no body of the response in its error. *)
Theorem opencode_error_sealed projects files db session l :
  let is_codex := _is_codex_session (Some files) in let adapters := registered projects (OpencodeRecordAdapter (Some db)) files in
  detect_family is_codex session = Ok opencode → oc_translate_session (Some db) session = Ok l →
  (∀ m, m ∈ messages db → 58 ∉ m_id m) →
  (∀ r, r ∈ l → kind r = error_kind → read_workbench_record_raw is_codex adapters (id r) session = Raise (HTTPException 403 false)) ∧
  ∀ i raw, read_workbench_record_raw is_codex adapters i session = Ok raw → jget (§"source") raw = JStr (§"message") →
    ∃ data, dget (§"data") raw = Some (JObj data) ∧ sealed data.
Proof.
  intros is_codex adapters Hd Hl Hm.
  assert (∀ i, read_raw is_codex adapters session i = Ok (oc_read_raw (Some db) session i)) as Hraw
    by (intros i; unfold read_raw; rewrite Hd; reflexivity).
  split.
  - intros r Hr Hk. destruct (error_record_id _ _ _ _ Hl Hr Hk) as (m & Hin & Hid). unfold read_workbench_record_raw.
    rewrite Hraw, Hid. unfold oc_read_raw. by rewrite partition_error by auto.
  - intros i raw. unfold read_workbench_record_raw. rewrite Hraw. unfold oc_read_raw. destruct (partition_on 58 i) as [front suffix].
    case_decide; [done|]. destruct (head (filter _ (session_parts _ _))) as [x|]; [by intros [= <-]|].
    destruct (head (filter _ (messages db))) as [m|]; [intros [= <-] _; eexists; split; [reflexivity|apply scrub_sealed]|].
    destruct (head (filter _ (events db))) as [e|]; [by intros [= <-]|done].
Qed.
End opencode.

(** ** Witnesses *)

Module OpencodeDemo.
Import TranscriptDemo CodexDemo.

Definition oid : pystr := §"ses_1".
Definition message (i : string) (d : jdict) : message_row :=
  {| m_id := §i; m_session := oid; m_created := 1; m_data := dump (JObj d) |}.
Definition part_in (i m : string) (d : jdict) : part_row :=
  {| p_id := §i; p_message := §m; p_session := oid; p_created := 1; p_updated := 1; p_data := dump (JObj d) |}.
Definition words (t : string) : jdict := [(§"type", JStr (§"text")); (§"text", JStr (§t))].

Definition asked_row : message_row := message "msg_1" [(§"role", JStr (§"user"))].
Definition failed_row : message_row :=
  message "msg_2" [(§"error", JObj [(§"name", JStr (§"APIError"));
                                    (§"data", JObj [(§"message", JStr (§"no")); (§"responseHeaders", JObj [(§"set-cookie", JStr (§"x"))])])])].
Definition asked_part : part_row := part_in "prt_1" "msg_1" (words "hello").
Definition small : database := {| messages := [asked_row; failed_row]; parts := [asked_part]; events := [] |}.

Lemma small_translates : ∃ l, oc_translate_session (Some small) oid = Ok l ∧ map kind l = [user_say; error_kind].
Proof. eexists. split; [vm_compute; reflexivity|reflexivity]. Qed.

Lemma every_part_shown_witness : ∃ l, oc_translate_session (Some small) oid = Ok l ∧ ∃ r, r ∈ l ∧ id r = §"prt_1".
Proof.
  destruct (every_part_shown small oid) as (l & E & A).
  { intros p [->|[]%elem_of_nil]%elem_of_cons _. vm_compute. reflexivity. }
  exists l. split; [exact E|]. apply (A asked_part asked_row); [left|reflexivity|left|reflexivity|].
  intros E'. apply (f_equal length) in E'. vm_compute in E'. discriminate E'.
Defined.

Lemma opencode_error_sealed_witness : ∃ l, oc_translate_session (Some small) oid = Ok l ∧
  ∀ r, r ∈ l → kind r = error_kind →
    read_workbench_record_raw (_is_codex_session (Some [failing])) (registered projects (OpencodeRecordAdapter (Some small)) [failing]) (id r) oid =
      Raise (HTTPException 403 false).
Proof.
  destruct small_translates as (l & E & _). exists l. split; [exact E|].
  refine (proj1 (opencode_error_sealed projects [failing] small oid l eq_refl E _)).
  intros m [->|[->|[]%elem_of_nil]%elem_of_cons]%elem_of_cons; apply (bool_decide_unpack (_ ∉ _)); reflexivity.
Defined.

Lemma pages_are_whole_witness : ∃ l, translate_session [failing] cid = Ok l ∧
  read_all (S (length l)) (_is_codex_session (Some [failing])) (registered projects (OpencodeRecordAdapter (Some small)) [failing]) cid 0 2 = Ok l.
Proof.
  eexists. split; [vm_compute; reflexivity|].
  refine (proj1 (proj1 (pages_are_whole projects (Some small) [failing] codex cid 2 _) _ _)); [vm_compute; reflexivity|vm_compute; reflexivity].
Defined.

(** A part of a message that is not there is not shown: the query joins the two tables,
    and the envelope kept ready for it is never used. *)
Lemma orphan_part_vanishes :
  oc_translate_session (Some {| messages := []; parts := [asked_part]; events := [] |}) oid = Ok [].
Proof. vm_compute. reflexivity. Qed.

(** One message whose text is no JSON takes the envelopes of all: what the user said is
    shown as said by the agent. *)
Lemma broken_message_turns_roles :
  match oc_translate_session (Some {| messages := [asked_row; {| m_id := §"msg_3"; m_session := oid; m_created := 2; m_data := [] |}];
                                      parts := [asked_part]; events := [] |}) oid with
  | Ok l => map kind l
  | Raise _ => []
  end = [agent_say].
Proof. vm_compute. reflexivity. Qed.
End OpencodeDemo.
